(* ===== verification/_CoqProject ===== *)
-Q . S2P
Prelude.v
Hlc.v
Json.v
RegistryRow.v
Entities.v
RegistryDoc.v
RegistryApi.v
Hub.v
RegistryServer.v
RegistryClient.v
ChatFrames.v
ChatRoom.v
ChatClient.v
Text.v
Base64.v
Agent.v
Commands.v
Parts.v
Transcript.v
Access.v
SessionDoc.v
Writer.v
View.v
Journal.v
SourceControl.v
Uploads.v
Attachments.v
Delivery.v
DeliveryLimits.v
DocHost.v
AppState.v
AppSafety.v
AppLimits.v
Sessions.v
Run.v
RunSafety.v
RunLimits.v
Samples.v
SourceLimits.v
ChangeRequests.v
ChangeRequestsSafety.v
BadgeState.v
ChangeRequestsLimits.v
Relay.v
Rpc.v
Claude.v
Workspace.v
JsonRpc.v
CodexItems.v
Loop.v
Streams.v
Codex.v
CodexSafety.v
CodexStream.v
CodexLimits.v
AcpItems.v
Acp.v
AcpStream.v
AcpSafety.v
AcpLimits.v
