(* ===== verification/Prelude.v ===== *)
(** * Postillion: a verification of the synchronisation core

    Postillion runs coding agents on a user's devices and keeps every device's
    view of them in step through a small server. This library models the parts
    of the Rust crates that decide what every device ends up seeing and what
    the agents are made to run, and proves what makes them correct. Definitions
    keep the names of the source and are executable; a doc comment of a file
    names the source files it translates.

    ** The program and its parts

    - The registry (devices, spaces, chats, sessions) is a set of rows merged
      field by field under hybrid logical clocks. A replica
      (crates/doc/src/registry.rs) holds the server's rows, a queue of unsent
      batches and shows the overlay of both; the server
      (crates/sync/src/registry_room.rs, crates/server/src/registry_db.rs)
      merges batches in a transaction, numbers changed rows and broadcasts them.
      The workspace host (crates/engine/src/workspace_host.rs) owns a device's
      replica: it claims chats and spaces, overlays presence, gates dials.
    - A chat is a log of opaque document updates per room. Frames
      (crates/sync/src/chat_frames.rs), the room (crates/sync/src/room.rs over
      crates/server/src/db.rs), the hub that broadcasts (crates/server/src/hub.rs,
      rooms.rs, http.rs) and the client actor (crates/sync/src/chat_client.rs)
      move the log; a cursor says which prefix a client holds.
    - Commands to a chat's host travel in the chat document or over a relay
      (crates/doc/src/commands.rs, crates/engine/src/doc_host.rs); a processed
      ledger (crates/sync/src/store.rs) makes both roads one.
    - A run (crates/engine/src/sessions.rs) drives a harness, folds its events
      (crates/proto/src/agent.rs) into message parts (crates/doc/src/parts.rs)
      and writes them as segments of the chat; a journal
      (crates/engine/src/run_journal.rs) survives a crash and recovery mends
      what it left. The adapters turn a child's frames into those events: Claude
      Code (crates/harness/src/claude) over lines, Codex (crates/harness/src/codex)
      and the agents of the ACP protocol (crates/harness/src/acp) over JSON-RPC
      (crates/harness/src/jsonrpc.rs).
    - Files attached to a message go from the interface
      (crates/ui/src/attachments.rs) to the staging store of its own engine
      (crates/engine/src/uploads.rs) and from there, with the command, to the
      engine of the host (the delivery tasks of doc_host.rs). The same file keeps
      the warm documents within budget and tells the interface what is offline.
    - The transcript reaches the viewports as deltas
      (crates/doc/src/transcript_delta.rs) and is arranged by the derivations of
      crates/proto/src/view.rs. The interface reduces the engine's watches into
      one state (crates/ui/src/state.rs), which also follows a message from its
      send to its confirmation.
    - Devices reach each other through the relay (crates/rpc/src/device_room.rs,
      crates/server/src/device_room.rs) carrying the calls of
      crates/rpc/src/lib.rs, client.rs and server.rs.
    - A device looks up the pull request of each checkout that is watched
      (crates/engine/src/source_control.rs, change_requests.rs) and the
      interface shows it as a badge of the chats that work there.
    - Every room of the server is behind an identity and an owner row
      (crates/server/src/auth.rs, ownership.rs, identity_db.rs).

    ** Files

    - Prelude: byte strings with the order of [str], B-tree iteration order,
      list lemmas.
    - Hlc: [encode_hlc], [HlcClock::next]. Strings compare as clock triples; a
      device's clocks strictly increase for any wall clock.
    - Json: [serde_json::Value] with decidable equality and the field readers
      of derived decoders.
    - RegistryRow: [RegistryRow], [RowOp], [apply_op]. Order independence of
      live merges, liveness after each operation, idempotence, the row
      invariant, the seed round trip.
    - Entities: the typed rows and their raw forms; chrono and the chat
      configuration codec are type classes with their laws.
    - RegistryDoc: the replica with every state-changing operation: no state
      frame loses a row, chunked writes, read your writes, listing, push
      discipline, the snapshot round trip.
    - RegistryApi: the typed writers and readers: the chat round trip, the
      cascade of deleting a space, the seen marker.
    - Hub: module [Hub], the per-room broadcast fanout.
    - RegistryServer: the store class [RegistryStore], its Postgres instance,
      the session protocol and presence. The transaction refines the sequential
      merge; hello catches a replica up; sequence numbers; guards.
    - RegistryClient: the client actor's transitions with both server ends. The
      overlay predicts the server; a follower converges; the backoff is bounded.
    - Workspace: the workspace host over RegistryApi, RegistryClient and the
      dial gate of Relay. Sightings are kept and sound, the tripwire's ladder, a
      revived peer is dialed, a claim lands in the one space of its folder, a
      late create fills a claim, the merged session list, boot.
    - ChatFrames, ChatRoom, ChatClient: the wire layout, the room with the class
      [ChatStore] and its instances, the client over the class [ChatDocSink].
      Round trips of frames and bodies, appends exactly once, the cursor is
      honest in every reachable state of room and client, a backfill completes,
      a queued batch waits for its verdict.
    - Text: string operations of the Rust standard library and their lemmas;
      the class of JSON text codecs. Base64: the class of the base64 crate and
      the RFC as its instance.
    - Agent: the agent wire types.
    - Commands: evaluation, the ledger, the drain cut at its locks and awaits,
      the relay, and the step relation that interleaves them. The drain settles
      its queue; at most one execution per id across interleavings and crashes;
      supersession.
    - Parts: the fold, the sanitiser, splitting. Well-formed parts, the meaning
      of the fold, splitting without loss and within bounds.
    - Transcript: diff and apply; applying a diff gives the next transcript.
    - SessionDoc: part maps, their derived JSON, the message list, reading with
      salvage, continuations and the tail. Damage to an entry is local to the
      damaged field.
    - Writer: the incremental writer of a streaming entry; the document follows
      the fold of the stream at every commit tick.
    - Access: identity, ownership and the gate in front of every room; rooms
      are isolated.
    - View: sidebar order and groups, indicators, labels, time texts. The order
      of the sidebar depends on the set of chats only; groups partition it.
    - Journal: the run journal file; a replay is the log of what was appended.
    - Uploads: the staging store with its path jail. Attachments: the client's
      side of it and the text that names the files. An upload stores exactly the
      bytes sent, whatever the order and the losses; a composed message parses
      back.
    - Delivery, DeliveryLimits: the tasks that bring a command and its files to
      its host, and the user's retry. The first good attempt delivers; a relay
      never overtakes the bytes it refers to; a retry queues one fresh attempt.
      DeliveryLimits is where that ends.
    - DocHost: eviction of warm documents and the posture of each connection.
      Eviction removes exactly what it saved, nothing pinned; a source reads as
      down exactly when it has been degraded for the grace period.
    - AppState, AppSafety, AppLimits: the interface's state. A message is shown
      once from its send to its confirmation; a delta of the engine confirms
      what it carries; the canvas follows the last pick; AppLimits has the
      witnesses and the gaps.
    - SourceControl, SourceLimits: the remotes and branches of a checkout and
      the lookup of its pull request (crates/engine/src/source_control.rs). A
      remote reads back in every form, the best pull request of this very branch
      is kept, and no process is run that could reach a remote.
    - ChangeRequests, ChangeRequestsSafety: the cache of those lookups and the
      streams that watch it (crates/engine/src/change_requests.rs), every lock,
      await and atomic count a step. The service refines counted leases: a lease
      keeps its entry and the last one frees it; one question at a time, spaced
      as agreed; a stream tells news only.
    - BadgeState, ChangeRequestsLimits: the watches and badges of the interface
      (crates/ui/src/change_requests.rs). A badge is a pull request of the
      chat's own branch, from git to the screen; the witnesses and the gaps.
    - Sessions: status rows, resume attempts and the recovery of interrupted
      runs. Revivals are bounded; recovery settles exactly what was streaming.
    - Run, RunSafety, RunLimits: the loop of a run with its subagent sinks,
      steers and stops. One streaming entry at most, steers accounted for, a
      stop ends the run, a turn end records the fold; RunLimits fixes the
      limits.
    - Relay: frames with their varint headers, the relay room, host and client
      ends, the link cache. Rooms stay apart, a call crosses the relay, dialing
      is bounded.
    - Rpc: the multiplexed calls of a client and the dispatch of a server. Every
      call is answered once and with its own answer; none is lost.
    - Claude: the Claude Code frames, the normaliser, the session loop and the
      control requests. The contract of the stream; control requests are
      answered once.
    - JsonRpc: the client of a child's JSON-RPC: ids, waiting requests, the reader
      and its end. A request is resolved once and by its own response, and when
      the output ends.
    - CodexItems, Codex: the wire and the catalog of the Codex app server; the
      session as a state machine over the client of JsonRpc that waits for one
      answer or sits in its loop, the loop's statements with their [break].
      CodexSafety: children never touch their parent, requests are answered
      once, no steer is lost. CodexStream: the contract of the stream.
      CodexLimits: the router's window, and where the promises end.
    - Loop, Streams: shared by the adapters, the statements of an event loop
      with a small program logic, and the stream a consumer expects.
    - AcpItems, Acp: the wire of an ACP agent and its session, one definition for
      each arm of the loop. AcpStream: the contract of the stream. AcpSafety: no
      steer is lost, a silent turn is settled. AcpLimits: where that ends.
    - Samples: a concrete JSON text codec the witnesses run on.

    Each file ends with its witnesses and with lemmas that fix behaviour worth
    knowing, among them the defects: a drain that reruns a command when its
    claim is lost, a relayed command marked rejected, acks that overtake rows,
    HTTP pulls that stall on own rows, a migration that hands over a device
    room at a restart, a call answered null that never returns, a re-homing that
    undoes a rename, a session that waits for ever on a dead child, two uploads
    of one name, a command relayed to the host a chat has left, a tool result an
    ACP session does not notice, a delivered message that reads as failed, a
    remote that smuggles an option, a badge an upgrade does not bring back.

    ** Conventions

    A string is its UTF-8 bytes. An unsigned counter is an [N], a byte a [Z]; a
    64-bit signed sum wraps where it is taken ([wrap_i64]); the merge and the
    room only compare and add one to sequence numbers, and theorems that send
    one through JSON ask that it fits 64 bits. A mutex section is one
    transition. An error is [None] or the left of a sum, a database that fails
    is a flag of the store, a clock reading is an argument. JSON frames are the
    [Value] they denote; the codecs of serde_json are classes or parameters
    with their round-trip law.

    Fuel: [drain_loop] takes one unit per turn and [drain_settles] proves the
    number of pending commands plus one is enough; [split_body] and [pieces]
    take the length of their input, and every step consumes at least one byte;
    [trim_with] likewise. A varint takes ten groups, enough for 64 bits;
    [dial_loop] runs over the three outcomes a call may try.

    ** What is not modelled

    Sockets, the select loops' fairness and timers, TLS, processes, git, the
    file system; the Loro CRDT (a class of sinks that keep what they were
    given); SQL beyond the statements' effect on tables; rendering and the
    widgets of the interface, which is most of crates/ui. Within modelled files:
    the presence frames of chats, the checkpoint and message routes, opening,
    seeding and salvage of documents in the doc host, errors of the file system
    under the upload directories, the tool output summary, locating, spawning
    and reaping the child of a harness, the model discovery and the subagent
    trackers of ACP, the registry's HTTP transport, the interface's image cache,
    update strip, engine boot and organisation gate. The other services of the
    engine (accounts, repositories, diffs, titles, imports), the Cursor adapter,
    terminals, the updater and the import of the legacy documents are calls of
    processes, libraries and web services around what is modelled. *)
From stdpp Require Export base tactics option strings gmap list fin_maps sorting.
From Stdlib Require Export ZArith Lia.

#[global] Open Scope Z_scope.
#[export] Set Default Goal Selector "!".

(** ** Byte strings

    A Rust [String] or [&str] is its UTF-8 bytes: a Stdlib [string], one
    [ascii] per byte.  [Ord for str] compares the bytes lexicographically,
    which is what [String.compare] does. *)

Section StringOrder.
Implicit Types s t u : string.

Lemma string_compare_refl s : String.compare s s = Eq.
Proof.
  induction s as [|c s IH]; simpl; [done|].
  unfold Ascii.compare. by rewrite N.compare_refl.
Qed.

Lemma string_compare_cons c s t :
  String.compare (String c s) (String c t) = String.compare s t.
Proof. simpl. unfold Ascii.compare. by rewrite N.compare_refl. Qed.

Lemma string_ltb_irrefl s : String.ltb s s = false.
Proof. unfold String.ltb. by rewrite string_compare_refl. Qed.

Lemma string_compare_lt_trans s t u :
  String.compare s t = Lt -> String.compare t u = Lt -> String.compare s u = Lt.
Proof.
  revert t u. induction s as [|a s IH]; intros [|b t] [|c u]; simpl; try done.
  unfold Ascii.compare.
  destruct (N.compare_spec (Ascii.N_of_ascii a) (Ascii.N_of_ascii b));
    destruct (N.compare_spec (Ascii.N_of_ascii b) (Ascii.N_of_ascii c));
    destruct (N.compare_spec (Ascii.N_of_ascii a) (Ascii.N_of_ascii c));
    try done; try lia; eauto.
Qed.

Lemma string_ltb_trans s t u :
  String.ltb s t = true -> String.ltb t u = true -> String.ltb s u = true.
Proof.
  unfold String.ltb.
  destruct (String.compare s t) eqn:E1; try done.
  destruct (String.compare t u) eqn:E2; try done.
  by rewrite (string_compare_lt_trans _ _ _ E1 E2).
Qed.

Lemma string_ltb_asym s t : String.ltb s t = true -> String.ltb t s = false.
Proof.
  intros H. destruct (String.ltb t s) eqn:E; [|done].
  pose proof (string_ltb_trans _ _ _ H E). by rewrite string_ltb_irrefl in *.
Qed.

Lemma string_ltb_total s t :
  String.ltb s t = false -> String.ltb t s = false -> s = t.
Proof.
  unfold String.ltb. rewrite (String.compare_antisym t s).
  destruct (String.compare s t) eqn:E; simpl; try done.
  intros _ _. by apply String.compare_eq_iff.
Qed.

Lemma string_ltb_le_trans s t u :
  String.ltb s t = true -> String.ltb u t = false -> String.ltb s u = true.
Proof.
  intros H1 H2. destruct (String.ltb t u) eqn:E.
  - by eapply string_ltb_trans.
  - by rewrite <- (string_ltb_total _ _ E H2).
Qed.

Lemma string_app_cons c s t : String c s +:+ t = String c (s +:+ t).
Proof. done. Qed.

Lemma string_app_nil_l s : "" +:+ s = s.
Proof. done. Qed.

Lemma string_length_app s t :
  String.length (s +:+ t) = (String.length s + String.length t)%nat.
Proof.
  induction s as [|c s IH]; [done|]. rewrite string_app_cons. simpl. by rewrite IH.
Qed.

Lemma string_app_nil_r s : s +:+ "" = s.
Proof. induction s as [|c s IH]; [done|]. by rewrite string_app_cons, IH. Qed.

Lemma string_app_assoc s t u : (s +:+ t) +:+ u = s +:+ (t +:+ u).
Proof. induction s as [|c s IH]; [done|]. by rewrite !string_app_cons, IH. Qed.

(** Comparing two strings with prefixes of the same length: the prefixes
    decide unless they are equal. *)
Lemma string_compare_app s s' t t' :
  String.length s = String.length s' ->
  String.compare (s +:+ t) (s' +:+ t') =
    match String.compare s s' with Eq => String.compare t t' | c => c end.
Proof.
  revert s'. induction s as [|a s IH]; intros [|b s']; try done.
  intros [= Hl]. rewrite !string_app_cons. simpl. destruct (Ascii.compare a b); auto.
Qed.
End StringOrder.

(** ** [BTreeMap] iteration

    A [BTreeMap<String, V>] is a [gmap string V]; iterating it visits the
    entries in key order. *)

Definition string_le (s t : string) : Prop := String.ltb t s = false.

#[export] Instance string_le_dec s t : Decision (string_le s t).
Proof. unfold string_le. apply _. Defined.

#[export] Instance string_le_total : Total string_le.
Proof.
  intros s t. unfold string_le.
  destruct (String.ltb t s) eqn:E; [right|by left].
  by apply string_ltb_asym.
Qed.

#[export] Instance string_le_trans : Transitive string_le.
Proof.
  intros s t u. unfold string_le. intros H1 H2.
  destruct (String.ltb u s) eqn:E; [|done].
  by rewrite (string_ltb_le_trans _ _ _ E H1) in H2.
Qed.

#[export] Instance string_le_antisym : AntiSymm (=) string_le.
Proof. intros s t H1 H2. by apply string_ltb_total. Qed.

#[export] Instance string_le_preorder : PreOrder string_le.
Proof. split; [|apply _]. intros s. apply string_ltb_irrefl. Qed.

#[export] Instance string_le_partial_order : PartialOrder string_le.
Proof. split; apply _. Qed.

Definition key_le {V} (p q : string * V) : Prop := string_le p.1 q.1.

#[export] Instance key_le_dec {V} (p q : string * V) : Decision (key_le p q).
Proof. unfold key_le. apply _. Defined.

Definition btree_iter {V} (m : gmap string V) : list (string * V) :=
  merge_sort key_le (map_to_list m).

Lemma btree_iter_perm {V} (m : gmap string V) : btree_iter m ≡ₚ map_to_list m.
Proof. apply merge_sort_Permutation. Qed.

Lemma elem_of_btree_iter {V} (m : gmap string V) k v :
  (k, v) ∈ btree_iter m <-> m !! k = Some v.
Proof. rewrite btree_iter_perm. apply elem_of_map_to_list. Qed.

Lemma NoDup_btree_iter_keys {V} (m : gmap string V) : NoDup (btree_iter m).*1.
Proof. rewrite btree_iter_perm. apply NoDup_fst_map_to_list. Qed.

(** ** Lists *)

(** A list whose images are distinct is injective on its elements. *)
Lemma NoDup_fmap_inj_on {A B} (f : A -> B) (l : list A) x y :
  NoDup (f <$> l) -> x ∈ l -> y ∈ l -> f x = f y -> x = y.
Proof.
  intros Hnd Hx Hy. induction l as [|z l IH]; [by apply not_elem_of_nil in Hx|].
  rewrite fmap_cons in Hnd. apply NoDup_cons in Hnd as [Hz Hnd].
  apply elem_of_cons in Hx as [->|Hx]; apply elem_of_cons in Hy as [->|Hy]; [done| | |by auto].
  - intros E. destruct Hz. rewrite E. by apply list_elem_of_fmap_2.
  - intros E. destruct Hz. rewrite <- E. by apply list_elem_of_fmap_2.
Qed.

Lemma list_filter_all {A} (P : A -> Prop) `{forall x, Decision (P x)} (l : list A) :
  Forall P l -> filter P l = l.
Proof. induction 1 as [|x l Hx _ IH]; [done|]. by rewrite filter_cons, decide_True, IH. Qed.

Lemma list_filter_none {A} (P : A -> Prop) `{forall x, Decision (P x)} (l : list A) :
  Forall (fun x => ~ P x) l -> filter P l = [].
Proof. induction 1 as [|x l Hx _ IH]; [done|]. by rewrite filter_cons, decide_False, IH. Qed.
