(* ===== verification/Hlc.v ===== *)
(** Hybrid logical clocks: crates/doc/src/registry.rs, the HLC section.

    [encode_hlc] is the clock string every registry write is stamped with,
    [hlc_newer] the strict comparison every merge decision uses, and
    [hlc_next] the source of fresh clocks of one device. *)
From S2P Require Import Prelude.

(** ** Decimal rendering with [format!("{n:0w}")] *)

Definition digit (d : Z) : Ascii.ascii := Ascii.ascii_of_N (Z.to_N (48 + d)).

(** The last [w] decimal digits of [n], most significant first. *)
Fixpoint fixed_digits (w : nat) (n : Z) : string :=
  match w with
  | O => ""
  | S w' => fixed_digits w' (n / 10) +:+ String (digit (n mod 10)) ""
  end.

Fixpoint ndigits_fuel (fuel : nat) (n : Z) : nat :=
  match fuel with
  | O => 1
  | S fuel' => if n <? 10 then 1%nat else S (ndigits_fuel fuel' (n / 10))
  end.

(** Number of decimal digits of [n >= 0]: [log2 n + 1] divisions by ten are
    more than enough. *)
Definition ndigits (n : Z) : nat := ndigits_fuel (Z.to_nat (Z.log2 n + 1)) n.

(** [format!("{n:0w}")]: at least [w] characters, zero padded after the sign,
    more when the number needs them. *)
Definition pad_dec (w : nat) (n : Z) : string :=
  if n <? 0
  then "-" +:+ fixed_digits (Nat.max (w - 1) (ndigits (- n))) (- n)
  else fixed_digits (Nat.max w (ndigits n)) n.

(** [encode_hlc]: [format!("{ms:013}-{counter:06}-{device}")]. *)
Definition encode_hlc (ms counter : Z) (device : string) : string :=
  pad_dec 13 ms +:+ "-" +:+ pad_dec 6 counter +:+ "-" +:+ device.

(** [hlc_newer]: [a] strictly newer than [b]; [None] loses to any. *)
Definition hlc_newer (a : string) (b : option string) : bool :=
  match b with
  | None => true
  | Some b => String.ltb b a
  end.

(** ** The clock source *)

Record HlcClock := mk_clock { last_ms : Z; counter : Z }.

Definition clock_default : HlcClock := mk_clock 0 0.

(** [HlcClock::next]: the clock it emits and the state it leaves. *)
Definition hlc_next (c : HlcClock) (now_ms : Z) (device : string) : string * HlcClock :=
  let c' :=
    if last_ms c <? now_ms then mk_clock now_ms 0
    else
      let counter' := counter c + 1 in
      if 999999 <? counter' then mk_clock (last_ms c + 1) 0
      else mk_clock (last_ms c) counter' in
  (encode_hlc (last_ms c') (counter c') device, c').

(** The clocks a device emits for a sequence of wall-clock readings. *)
Fixpoint hlc_run (c : HlcClock) (device : string) (nows : list Z) : list string :=
  match nows with
  | [] => []
  | now :: nows' =>
      let '(h, c') := hlc_next c now device in h :: hlc_run c' device nows'
  end.

(** ** Order of the encoding *)

Section Digits.
Lemma digit_compare a b :
  0 <= a < 10 -> 0 <= b < 10 -> Ascii.compare (digit a) (digit b) = (a ?= b).
Proof.
  intros Ha Hb. unfold Ascii.compare, digit.
  rewrite !Ascii.N_ascii_embedding by lia.
  rewrite <- N2Z.inj_compare, !Z2N.id by lia.
  destruct (Z.compare_spec a b); destruct (Z.compare_spec (48 + a) (48 + b)); lia || done.
Qed.

Lemma length_fixed_digits w n : String.length (fixed_digits w n) = w.
Proof.
  revert n. induction w as [|w IH]; intros n; simpl; [done|].
  rewrite string_length_app, IH. simpl. lia.
Qed.

Lemma fixed_digits_compare w n m :
  0 <= n < 10 ^ Z.of_nat w -> 0 <= m < 10 ^ Z.of_nat w ->
  String.compare (fixed_digits w n) (fixed_digits w m) = (n ?= m).
Proof.
  revert n m. induction w as [|w IH]; intros n m Hn Hm.
  - simpl in *. assert (n = 0 /\ m = 0) as [-> ->] by lia. done.
  - rewrite Nat2Z.inj_succ, Z.pow_succ_r in * by lia. simpl.
    rewrite string_compare_app by by rewrite !length_fixed_digits.
    rewrite IH by (split; [apply Z.div_pos | apply Z.div_lt_upper_bound]; lia).
    cbn [String.compare].
    rewrite digit_compare by (apply Z.mod_pos_bound; lia).
    pose proof (Z.div_mod n 10). pose proof (Z.div_mod m 10).
    pose proof (Z.mod_pos_bound n 10). pose proof (Z.mod_pos_bound m 10).
    destruct (Z.compare_spec (n / 10) (m / 10));
      destruct (Z.compare_spec (n mod 10) (m mod 10));
      destruct (Z.compare_spec n m); lia || done.
Qed.

Lemma ndigits_fuel_le fuel n w :
  (1 <= w)%nat -> 0 <= n < 10 ^ Z.of_nat w -> (ndigits_fuel fuel n <= w)%nat.
Proof.
  revert n w. induction fuel as [|fuel IH]; intros n w Hw Hn; simpl; [done|].
  case_match eqn:E; [done|]. apply Z.ltb_ge in E.
  destruct w as [|[|w]]; [lia|simpl in Hn; lia|].
  apply le_n_S, IH; [lia|].
  rewrite Nat2Z.inj_succ, Z.pow_succ_r in Hn by lia.
  split; [apply Z.div_pos | apply Z.div_lt_upper_bound]; lia.
Qed.

Lemma pad_dec_fixed w n :
  (1 <= w)%nat -> 0 <= n < 10 ^ Z.of_nat w -> pad_dec w n = fixed_digits w n.
Proof.
  intros Hw Hn. unfold pad_dec. destruct (Z.ltb_spec n 0); [lia|].
  rewrite Nat.max_l; [done|]. by apply ndigits_fuel_le.
Qed.
End Digits.

(** The lexicographic order on (ms, counter, device). *)
Definition hlc_order (ms c : Z) (d : string) (ms' c' : Z) (d' : string) : comparison :=
  match ms ?= ms' with
  | Eq => match c ?= c' with Eq => String.compare d d' | r => r end
  | r => r
  end.

Definition in_range (ms c : Z) : Prop := 0 <= ms < 10 ^ 13 /\ 0 <= c < 10 ^ 6.

#[export] Instance in_range_dec ms c : Decision (in_range ms c).
Proof. unfold in_range. apply _. Defined.

Lemma encode_hlc_compare_aux ms c d ms' c' d' :
  in_range ms c -> in_range ms' c' ->
  String.compare (encode_hlc ms c d) (encode_hlc ms' c' d') = hlc_order ms c d ms' c' d'.
Proof.
  intros [Hms Hc] [Hms' Hc']. unfold encode_hlc, hlc_order.
  rewrite (pad_dec_fixed 13 ms), (pad_dec_fixed 13 ms'),
    (pad_dec_fixed 6 c), (pad_dec_fixed 6 c') by (simpl; lia).
  rewrite string_compare_app by by rewrite !length_fixed_digits.
  rewrite (fixed_digits_compare 13) by (simpl; lia).
  case_match; [|done|done]. 
  rewrite !string_app_cons, !string_app_nil_l, string_compare_cons.
  rewrite string_compare_app by by rewrite !length_fixed_digits.
  rewrite (fixed_digits_compare 6) by (simpl; lia).
  case_match; [|done|done].
  by rewrite string_compare_cons.
Qed.

(** Within thirteen digits of milliseconds and six of counter, the byte
    order of two encoded clocks is the lexicographic order of their
    (ms, counter, device) triples, the device deciding ties. *)
Theorem encode_hlc_order ms c d ms' c' d' :
  in_range ms c -> in_range ms' c' ->
  String.compare (encode_hlc ms c d) (encode_hlc ms' c' d') = hlc_order ms c d ms' c' d'.
Proof. apply encode_hlc_compare_aux. Qed.

Lemma encode_hlc_order_witness :
  String.compare (encode_hlc 1700000000000 7 "dev-a") (encode_hlc 1700000000000 12 "dev-a") = Lt.
Proof.
  refine (eq_trans (encode_hlc_order 1700000000000 7 "dev-a" 1700000000000 12 "dev-a" _ _) _);
    [| |reflexivity]; unfold in_range; lia.
Defined.

(** ** Monotonicity of the source *)

(** States [next] keeps: the counter fits its six digits. *)
Definition clock_wf (c : HlcClock) : Prop := 0 <= last_ms c /\ 0 <= counter c <= 999999.

Lemma hlc_next_wf c now d : clock_wf c -> clock_wf (hlc_next c now d).2.
Proof.
  unfold clock_wf, hlc_next. intros [? ?]. simpl.
  destruct (Z.ltb_spec (last_ms c) now); simpl; [lia|].
  destruct (Z.ltb_spec 999999 (counter c + 1)); simpl; lia.
Qed.

(** [next] moves the clock at most one millisecond past both its state and
    the wall clock. *)
Lemma hlc_next_last_ms c now d :
  last_ms c <= last_ms (hlc_next c now d).2 <= Z.max (last_ms c + 1) now.
Proof.
  unfold hlc_next. simpl. destruct (Z.ltb_spec (last_ms c) now); simpl; [lia|].
  destruct (Z.ltb_spec 999999 (counter c + 1)); simpl; lia.
Qed.

Lemma hlc_next_newer c now d ms0 c0 :
  clock_wf c -> in_range ms0 c0 ->
  ms0 < last_ms c \/ ms0 = last_ms c /\ c0 <= counter c ->
  last_ms (hlc_next c now d).2 < 10 ^ 13 ->
  String.ltb (encode_hlc ms0 c0 d) (hlc_next c now d).1 = true.
Proof.
  intros Hwf Hr Hle Hlt. pose proof (hlc_next_wf c now d Hwf) as [? ?].
  unfold String.ltb, hlc_next in *. simpl in *.
  rewrite encode_hlc_compare_aux by (done || unfold in_range; lia).
  unfold hlc_order, clock_wf, in_range in *.
  destruct (Z.ltb_spec (last_ms c) now); simpl in *.
  { destruct (Z.compare_spec ms0 now); lia || done. }
  destruct (Z.ltb_spec 999999 (counter c + 1)); simpl in *.
  - destruct (Z.compare_spec ms0 (last_ms c + 1)); lia || done.
  - destruct (Z.compare_spec ms0 (last_ms c)); try lia; try done.
    destruct (Z.compare_spec c0 (counter c + 1)); lia || done.
Qed.

(** The source stays below [10^13] milliseconds while the wall clock does and
    the number of readings leaves it room. *)
Lemma hlc_run_all_newer c d nows ms0 c0 :
  clock_wf c -> in_range ms0 c0 ->
  ms0 < last_ms c \/ ms0 = last_ms c /\ c0 <= counter c ->
  last_ms c + Z.of_nat (length nows) < 10 ^ 13 ->
  Forall (fun now => now + Z.of_nat (length nows) < 10 ^ 13) nows ->
  Forall (fun h => String.ltb (encode_hlc ms0 c0 d) h = true) (hlc_run c d nows).
Proof.
  revert c. induction nows as [|now nows IH]; intros c Hwf Hr Hle Hroom Hnows; [done|].
  inversion Hnows as [|? ? Hnow Hrest]; subst. cbn [hlc_run].
  pose proof (hlc_next_last_ms c now d) as Hms. pose proof (hlc_next_wf c now d Hwf) as Hwf'.
  pose proof (hlc_next_newer c now d ms0 c0 Hwf Hr Hle) as Hnew.
  cbn [length] in *.
  destruct (hlc_next c now d) as [h c'] eqn:E. cbn [fst snd] in *. constructor.
  { apply Hnew. lia. }
  apply IH; [done|done| |lia|].
  - injection E as <- <-. revert Hle.
    destruct (Z.ltb_spec (last_ms c) now); simpl; [lia|].
    destruct (Z.ltb_spec 999999 (counter c + 1)); simpl; lia.
  - eapply Forall_impl; [done|]. intros x Hx. simpl in Hx. lia.
Qed.

Lemma hlc_run_sorted c d nows :
  clock_wf c ->
  last_ms c + Z.of_nat (length nows) < 10 ^ 13 ->
  Forall (fun now => now + Z.of_nat (length nows) < 10 ^ 13) nows ->
  StronglySorted (fun a b => String.ltb a b = true) (hlc_run c d nows).
Proof.
  revert c. induction nows as [|now nows IH]; intros c Hwf Hroom Hnows; cbn [hlc_run]; [constructor|].
  inversion Hnows as [|? ? Hnow Hrest]; subst.
  pose proof (hlc_next_last_ms c now d) as Hms. pose proof (hlc_next_wf c now d Hwf) as Hwf'.
  cbn [length] in *.
  assert (Forall (fun now0 => now0 + Z.of_nat (length nows) < 10 ^ 13) nows) as Hrest'.
  { eapply Forall_impl; [done|]. simpl. intros; lia. }
  destruct (hlc_next c now d) as [h c'] eqn:E. cbn [fst snd] in *. constructor.
  - apply IH; [done|lia|done].
  - assert (h = encode_hlc (last_ms c') (counter c') d) as -> by by injection E as <- <-.
    apply hlc_run_all_newer; [done| |lia|lia|done].
    unfold in_range, clock_wf in *. lia.
Qed.

(** A device's clock source emits strictly increasing clocks for every
    sequence of wall-clock readings, backwards jumps and counter overflow
    included, as long as the clock fits its thirteen digits. *)
Theorem hlc_run_strictly_increasing c d nows :
  clock_wf c ->
  last_ms c + Z.of_nat (length nows) < 10 ^ 13 ->
  Forall (fun now => now + Z.of_nat (length nows) < 10 ^ 13) nows ->
  StronglySorted (fun a b => String.ltb a b = true) (hlc_run c d nows).
Proof. apply hlc_run_sorted. Qed.

Lemma hlc_run_strictly_increasing_witness :
  StronglySorted (fun a b => String.ltb a b = true)
    (hlc_run (mk_clock 1700000000000 999999) "dev-a" [5; 1700000000001; 1700000000001; 1800000000000]).
Proof.
  apply hlc_run_strictly_increasing; [unfold clock_wf; simpl; lia|simpl; lia|].
  repeat constructor.
Defined.
