(* ===== verification/Json.v ===== *)
(** JSON values as [serde_json::Value] holds them.

    A number is a 64-bit integer (signed or unsigned, kept as the [Z] it
    denotes) or a float, of which the modelled code only ever compares the
    bits.  An object is [serde_json::Map], keyed by byte strings. *)
From S2P Require Import Prelude.

Inductive Value :=
  | Null
  | Bool (b : bool)
  | Int (z : Z)
  | Float (bits : Z)
  | Str (s : string)
  | Array (l : list Value)
  | Object (l : list (string * Value)).

(** Nested induction principle: the lists of an array or object carry the
    induction hypothesis. *)
Section ValueInd.
Variable P : Value -> Prop.
Hypothesis HNull : P Null.
Hypothesis HBool : forall b, P (Bool b).
Hypothesis HInt : forall z, P (Int z).
Hypothesis HFloat : forall z, P (Float z).
Hypothesis HStr : forall s, P (Str s).
Hypothesis HArray : forall l, Forall P l -> P (Array l).
Hypothesis HObject : forall l, Forall (fun kv => P kv.2) l -> P (Object l).

Fixpoint Value_nested_ind (v : Value) : P v :=
  match v with
  | Null => HNull
  | Bool b => HBool b
  | Int z => HInt z
  | Float z => HFloat z
  | Str s => HStr s
  | Array l => HArray l
      ((fix go l : Forall P l :=
          match l with
          | [] => Forall_nil_2 _
          | x :: l' => Forall_cons_2 _ _ _ (Value_nested_ind x) (go l')
          end) l)
  | Object l => HObject l
      ((fix go l : Forall (fun kv => P kv.2) l :=
          match l with
          | [] => Forall_nil_2 _
          | x :: l' => Forall_cons_2 _ _ _ (Value_nested_ind x.2) (go l')
          end) l)
  end.
End ValueInd.

Fixpoint value_eqb (v w : Value) : bool :=
  match v, w with
  | Null, Null => true
  | Bool a, Bool b => Bool.eqb a b
  | Int a, Int b => a =? b
  | Float a, Float b => a =? b
  | Str a, Str b => String.eqb a b
  | Array a, Array b =>
      (fix go a b :=
         match a, b with
         | [], [] => true
         | x :: a', y :: b' => value_eqb x y && go a' b'
         | _, _ => false
         end) a b
  | Object a, Object b =>
      (fix go a b :=
         match a, b with
         | [], [] => true
         | (k, x) :: a', (l, y) :: b' => String.eqb k l && value_eqb x y && go a' b'
         | _, _ => false
         end) a b
  | _, _ => false
  end.

Lemma value_eqb_spec v w : value_eqb v w = true <-> v = w.
Proof.
  revert w. induction v as [|b|z|z|s|l IH|l IH] using Value_nested_ind;
    intros [|b'|z'|z'|s'|l'|l']; simpl; try done;
    try (rewrite Bool.eqb_true_iff; naive_solver);
    try (rewrite Z.eqb_eq; naive_solver);
    try (rewrite String.eqb_eq; naive_solver).
  - revert l'. induction IH as [|x l Hx _ IHl]; intros [|y l']; try done.
    rewrite andb_true_iff, Hx, IHl. naive_solver.
  - revert l'. induction IH as [|[k x] l Hx _ IHl]; intros [|[k' y] l']; try done.
    rewrite !andb_true_iff, Hx, IHl, String.eqb_eq. naive_solver.
Qed.

#[export] Instance value_eq_dec : EqDecision Value.
Proof.
  intros v w. destruct (value_eqb v w) eqn:E.
  - left. by apply value_eqb_spec.
  - right. intros ->. by rewrite (proj2 (value_eqb_spec w w) eq_refl) in E.
Defined.

(** [Value::is_null]. *)
Definition is_null (v : Value) : bool := match v with Null => true | _ => false end.

Definition I64_MIN : Z := - 2 ^ 63.
Definition I64_MAX : Z := 2 ^ 63 - 1.

(** [Value::as_i64]: integers that fit. *)
Definition as_i64 (v : Value) : option Z :=
  match v with
  | Int z => if (I64_MIN <=? z) && (z <=? I64_MAX) then Some z else None
  | _ => None
  end.

(** ** Fields of an object *)

Fixpoint assoc_get (k : string) (l : list (string * Value)) : option Value :=
  match l with
  | [] => None
  | (k', v) :: l' => if String.eqb k' k then Some v else assoc_get k l'
  end.

(** [v.get(k)]; [None] when [v] is not an object. *)
Definition obj_get (v : Value) (k : string) : option Value :=
  match v with Object l => assoc_get k l | _ => None end.

(** [Value::as_str]. *)
Definition as_str (v : Value) : option string := match v with Str s => Some s | _ => None end.

Definition U64_MAX : Z := 2 ^ 64 - 1.

(** A [u64] as serde and [Value::as_u64] read it. *)
Definition as_u64 (v : Value) : option N :=
  match v with
  | Int z => if (0 <=? z) && (z <=? U64_MAX) then Some (Z.to_N z) else None
  | _ => None
  end.

(** A required field, and one with [#[serde(default)]]. *)
Definition field_req {A} (f : Value -> option A) (v : Value) (k : string) : option A :=
  obj_get v k ≫= f.
Definition field_default {A} (f : Value -> option A) (d : A) (v : Value) (k : string) : option A :=
  match obj_get v k with None => Some d | Some w => f w end.

(** An [Option] field: empty when absent or null. *)
Definition field_option {A} (f : Value -> option A) (v : Value) (k : string) : option (option A) :=
  match obj_get v k with
  | None | Some Null => Some None
  | Some w => Some <$> f w
  end.

Definition as_boolean (v : Value) : option bool := match v with Bool b => Some b | _ => None end.

Lemma as_u64_of_N n : (n <= Z.to_N U64_MAX)%N -> as_u64 (Int (Z.of_N n)) = Some n.
Proof.
  intros H. unfold as_u64. rewrite (proj2 (andb_true_iff _ _)).
  - by rewrite N2Z.id.
  - rewrite !Z.leb_le. unfold U64_MAX in *. lia.
Qed.

(** A derived struct decoder takes an object. *)
Definition is_object (v : Value) : option Value := match v with Object _ => Some v | _ => None end.

(** A [Vec]. *)
Definition as_vec {A} (f : Value -> option A) (v : Value) : option (list A) :=
  match v with Array l => mapM f l | _ => None end.

(** [Map::insert] on a map in key order. *)
Fixpoint map_put (k : string) (v : Value) (l : list (string * Value)) : list (string * Value) :=
  match l with
  | [] => [(k, v)]
  | (k', v') :: l' =>
      if String.eqb k' k then (k, v) :: l'
      else if String.ltb k k' then (k, v) :: l else (k', v') :: map_put k v l'
  end.

Lemma map_put_get k v l k' : assoc_get k' (map_put k v l) = if String.eqb k k' then Some v else assoc_get k' l.
Proof.
  induction l as [|[k1 v1] l IH]; cbn; [done|].
  destruct (String.eqb_spec k1 k) as [->|Hne]; cbn; [by destruct (String.eqb_spec k k')|].
  destruct (String.ltb k k1); cbn; [done|]. rewrite IH.
  destruct (String.eqb_spec k1 k') as [->|]; [|done]. destruct (String.eqb_spec k k') as [->|]; done.
Qed.
