(* ===== verification/RegistryRow.v ===== *)
(** Rows and ops of the workspace registry: crates/doc/src/registry.rs, from
    [RegistryRow] to [row_to_seed_op].

    The merge function [apply_op] runs unchanged on both ends: the client
    replays its pending ops with it, the server merges pushed batches with
    it.  What it promises is stated below: re-application is a no-op, live
    rows merge field by field last-writer-wins in any order, deletes win only
    over rows they are causally newer than. *)
From S2P Require Import Prelude Hlc Json.

(** ** Data *)

Record RegistryRow := mk_row {
  row_kind : string;
  row_id : string;
  row_seq : N;
  row_deleted : bool;
  row_del_hlc : option string;
  row_fields : gmap string Value;
  row_clocks : gmap string string;
}.

Inductive OpKind := Upsert | Update | Delete.

#[export] Instance OpKind_eq_dec : EqDecision OpKind.
Proof. solve_decision. Defined.

Record RowOp := mk_op {
  op_kind : string;
  op_id : string;
  op_op : OpKind;
  op_set : option (gmap string Value);
  op_hlc : string;
  op_clocks : option (gmap string string);
}.

#[export] Instance RegistryRow_eq_dec : EqDecision RegistryRow.
Proof. solve_decision. Defined.

#[export] Instance RowOp_eq_dec : EqDecision RowOp.
Proof. solve_decision. Defined.

(** [RegistryRow::tombstone]. *)
Definition tombstone (kind id hlc : string) : RegistryRow :=
  mk_row kind id 0 true (Some hlc) ∅ ∅.

(** The loop body of [RegistryRow::max_clock]. *)
Definition later_clock (m : option string) (clock : string) : option string :=
  match m with
  | None => Some clock
  | Some c => if String.ltb c clock then Some clock else m
  end.

(** [RegistryRow::max_clock]: the newest clock anywhere on the row. *)
Definition max_clock (row : RegistryRow) : option string :=
  foldl later_clock (row_del_hlc row) (btree_iter (row_clocks row)).*2.

(** [RowOp::clock_for]. *)
Definition clock_for (op : RowOp) (field : string) : string :=
  match op_clocks op ≫= (.!! field) with
  | Some clock => clock
  | None => op_hlc op
  end.

(** ** The merge *)

(** One turn of the field loop of [apply_op]. *)
Definition set_field (op : RowOp) (acc : RegistryRow * bool) (kv : string * Value)
    : RegistryRow * bool :=
  let '(base, changed) := acc in
  let '(key, value) := kv in
  let clock := clock_for op key in
  if hlc_newer clock (row_clocks base !! key)
  then (mk_row (row_kind base) (row_id base) (row_seq base) (row_deleted base)
          (row_del_hlc base)
          (if is_null value then delete key (row_fields base)
           else <[key := value]> (row_fields base))
          (<[key := clock]> (row_clocks base)), true)
  else acc.

(** The [Delete] branch of [apply_op]. *)
Definition apply_delete (row : option RegistryRow) (op : RowOp) : option RegistryRow * bool :=
  match row with
  | None => (Some (tombstone (op_kind op) (op_id op) (op_hlc op)), true)
  | Some row =>
      let beats :=
        if row_deleted row then hlc_newer (op_hlc op) (row_del_hlc row)
        else hlc_newer (op_hlc op) (max_clock row) in
      if beats
      then (Some (mk_row (row_kind row) (row_id row) (row_seq row) true
                    (Some (op_hlc op)) ∅ ∅), true)
      else (Some row, false)
  end.

(** The row an upsert or update writes onto; [inl] is an early return. *)
Definition apply_base (row : option RegistryRow) (op : RowOp)
    : (option RegistryRow * bool) + RegistryRow :=
  match row with
  | None =>
      if decide (op_op op = Update) then inl (None, false)
      else inr (mk_row (op_kind op) (op_id op) 0 false None ∅ ∅)
  | Some row =>
      if row_deleted row then
        if bool_decide (op_op op = Update) || negb (hlc_newer (op_hlc op) (row_del_hlc row))
        then inl (Some row, false)
        else inr (mk_row (row_kind row) (row_id row) (row_seq row) false (row_del_hlc row) ∅ ∅)
      else inr row
  end.

(** [apply_op]: the new row and whether anything changed. *)
Definition apply_op (row : option RegistryRow) (op : RowOp) : option RegistryRow * bool :=
  if decide (op_op op = Delete) then apply_delete row op
  else
    match apply_base row op with
    | inl early => early
    | inr base =>
        let changed :=
          match row with
          | None => true
          | Some r => row_deleted r && negb (row_deleted base)
          end in
        let '(base, changed) :=
          match op_set op with
          | Some set => foldl (set_field op) (base, changed) (btree_iter set)
          | None => (base, changed)
          end in
        if changed
        then (Some (mk_row (row_kind base) (row_id base) (row_seq base) false
                      (row_del_hlc base) (row_fields base) (row_clocks base)), true)
        else (Some base, false)
    end.

(** [row_to_seed_op]: the op that re-seeds a server that lost the row. *)
Definition row_to_seed_op (row : RegistryRow) : RowOp :=
  if row_deleted row
  then mk_op (row_kind row) (row_id row) Delete None
         (default (encode_hlc 0 0 "seed") (row_del_hlc row)) None
  else mk_op (row_kind row) (row_id row) Upsert (Some (row_fields row))
         (default (encode_hlc 0 0 "seed") (max_clock row)) (Some (row_clocks row)).

(** A sequence of ops applied to one row, as the overlay and the server loop
    do. *)
Definition run_ops (row : option RegistryRow) (ops : list RowOp) : option RegistryRow :=
  foldl (fun r op => (apply_op r op).1) row ops.

#[global] Arguments set_field : simpl never.
#[global] Arguments apply_op : simpl never.

(** ** The field loop, key by key *)

Definition wins (op : RowOp) (base : RegistryRow) (key : string) : bool :=
  hlc_newer (clock_for op key) (row_clocks base !! key).

Definition clock_after (op : RowOp) (set : gmap string Value) (base : RegistryRow) (k : string)
    : option string :=
  match set !! k with
  | Some _ => if wins op base k then Some (clock_for op k) else row_clocks base !! k
  | None => row_clocks base !! k
  end.

Definition field_after (op : RowOp) (set : gmap string Value) (base : RegistryRow) (k : string)
    : option Value :=
  match set !! k with
  | Some v =>
      if wins op base k then (if is_null v then None else Some v) else row_fields base !! k
  | None => row_fields base !! k
  end.

(** Two rows that differ at most in fields and clocks. *)
Definition same_meta (r r' : RegistryRow) : Prop :=
  row_kind r' = row_kind r /\ row_id r' = row_id r /\ row_seq r' = row_seq r /\
  row_deleted r' = row_deleted r /\ row_del_hlc r' = row_del_hlc r.

Lemma row_ext r r' :
  same_meta r r' ->
  (forall k, row_fields r' !! k = row_fields r !! k) ->
  (forall k, row_clocks r' !! k = row_clocks r !! k) -> r' = r.
Proof.
  destruct r, r'. intros (?&?&?&?&?) Hf Hc. simpl in *. subst.
  f_equal; by apply map_eq.
Qed.

Lemma same_meta_refl r : same_meta r r.
Proof. done. Qed.

Lemma same_meta_trans r1 r2 r3 : same_meta r1 r2 -> same_meta r2 r3 -> same_meta r1 r3.
Proof. intros (?&?&?&?&?) (?&?&?&?&?). unfold same_meta. split_and!; congruence. Qed.

Create HintDb registry.
#[export] Hint Resolve same_meta_refl same_meta_trans : registry.

Lemma set_field_other op base ch key value k :
  k <> key ->
  row_clocks (set_field op (base, ch) (key, value)).1 !! k = row_clocks base !! k /\
  row_fields (set_field op (base, ch) (key, value)).1 !! k = row_fields base !! k.
Proof.
  intros Hk. unfold set_field. case_match; simpl; [|done].
  rewrite lookup_insert_ne by done. split; [done|].
  case_match; [by rewrite lookup_delete_ne | by rewrite lookup_insert_ne].
Qed.

Lemma set_field_same op base ch key value :
  row_clocks (set_field op (base, ch) (key, value)).1 !! key =
    (if wins op base key then Some (clock_for op key) else row_clocks base !! key) /\
  row_fields (set_field op (base, ch) (key, value)).1 !! key =
    (if wins op base key then (if is_null value then None else Some value)
     else row_fields base !! key).
Proof.
  unfold set_field, wins. case_match; simpl; [|done].
  rewrite lookup_insert_eq. split; [done|].
  case_match; [by rewrite lookup_delete_eq | by rewrite lookup_insert_eq].
Qed.

Lemma set_field_meta op base ch kv :
  same_meta base (set_field op (base, ch) kv).1 /\
  (set_field op (base, ch) kv).2 = ch || wins op base kv.1.
Proof.
  destruct kv as [key value]. unfold set_field, wins. simpl.
  case_match; simpl; by rewrite ?orb_true_r, ?orb_false_r.
Qed.

Lemma set_fields_spec op l base ch :
  NoDup l.*1 ->
  let b := foldl (set_field op) (base, ch) l in
  same_meta base b.1 /\
  b.2 = ch || existsb (fun kv => wins op base kv.1) l /\
  (forall k, k ∉ l.*1 -> row_clocks b.1 !! k = row_clocks base !! k /\
                         row_fields b.1 !! k = row_fields base !! k) /\
  (forall k v, (k, v) ∈ l ->
     row_clocks b.1 !! k = (if wins op base k then Some (clock_for op k) else row_clocks base !! k) /\
     row_fields b.1 !! k =
       (if wins op base k then (if is_null v then None else Some v) else row_fields base !! k)).
Proof.
  revert base ch. induction l as [|[key value] l IH]; intros base ch Hnd; csimpl.
  { rewrite orb_false_r. split_and!; auto with registry. intros k v H; by apply not_elem_of_nil in H. }
  rewrite fmap_cons in Hnd. apply NoDup_cons in Hnd as [Hnotin Hnd'].
  destruct (set_field_meta op base ch (key, value)) as [Hm Hc].
  destruct (set_field_same op base ch key value) as [Hs1 Hs2].
  pose proof (set_field_other op base ch key value) as Ho.
  destruct (set_field op (base, ch) (key, value)) as [base' ch']. csimpl in *.
  assert (forall k, k <> key -> wins op base' k = wins op base k) as Hw.
  { intros k Hk. unfold wins. by rewrite (proj1 (Ho k Hk)). }
  destruct (IH base' ch' Hnd') as (IHm & IHc & IHo & IHs). split_and!.
  - by eapply same_meta_trans.
  - rewrite IHc, Hc, <- orb_assoc. do 2 f_equal. clear - Hw Hnotin.
    induction l as [|kv l IHl]; csimpl in *; [done|].
    apply not_elem_of_cons in Hnotin as [? ?]. rewrite Hw by congruence. by rewrite IHl.
  - intros k [Hk1 Hk2]%not_elem_of_cons.
    destruct (IHo k Hk2) as [-> ->]. by apply Ho.
  - intros k v [[= -> ->]|Hin]%elem_of_cons.
    + by destruct (IHo key Hnotin) as [-> ->].
    + assert (k <> key) as Hk.
      { intros ->. apply Hnotin. apply list_elem_of_fmap. by exists (key, v). }
      destruct (IHs k v Hin) as [-> ->]. rewrite Hw by done. by destruct (Ho k Hk) as [-> ->].
Qed.

(** The loop over a whole [set] map. *)
Lemma set_map_spec op set base ch :
  let b := foldl (set_field op) (base, ch) (btree_iter set) in
  same_meta base b.1 /\
  (b.2 = true <-> ch = true \/ exists k v, set !! k = Some v /\ wins op base k = true) /\
  (forall k, row_clocks b.1 !! k = clock_after op set base k) /\
  (forall k, row_fields b.1 !! k = field_after op set base k).
Proof.
  pose proof (set_fields_spec op (btree_iter set) base ch (NoDup_btree_iter_keys set)) as H.
  simpl in *. destruct H as (Hm & Hc & Ho & Hs). split_and!; [done| | |].
  - rewrite Hc, orb_true_iff, existsb_exists. f_equiv. split.
    + intros ([k v] & Hin%list_elem_of_In & Hw). exists k, v. by rewrite <- elem_of_btree_iter.
    + intros (k & v & Hin%elem_of_btree_iter & Hw). exists (k, v). by rewrite <- list_elem_of_In.
  - intros k. unfold clock_after. destruct (set !! k) as [v|] eqn:E.
    + by apply elem_of_btree_iter, Hs in E as [? _].
    + apply Ho. intros ([? v] & -> & Hin)%list_elem_of_fmap.
      apply elem_of_btree_iter in Hin. simpl in *. congruence.
  - intros k. unfold field_after. destruct (set !! k) as [v|] eqn:E.
    + by apply elem_of_btree_iter, Hs in E as [_ ?].
    + apply Ho. intros ([? v] & -> & Hin)%list_elem_of_fmap.
      apply elem_of_btree_iter in Hin. simpl in *. congruence.
Qed.

(** When no key wins, the loop changes nothing. *)
Lemma set_map_no_win op set base ch :
  (forall k v, set !! k = Some v -> wins op base k = false) ->
  foldl (set_field op) (base, ch) (btree_iter set) = (base, ch).
Proof.
  intros Hno. destruct (set_map_spec op set base ch) as (Hm & Hc & Hcl & Hf).
  destruct (foldl _ _ _) as [b c]. simpl in *. f_equal.
  - apply row_ext; [done| |].
    + intros k. rewrite Hf. unfold field_after.
      destruct (set !! k) eqn:E; [|done]. by rewrite (Hno _ _ E).
    + intros k. rewrite Hcl. unfold clock_after.
      destruct (set !! k) eqn:E; [|done]. by rewrite (Hno _ _ E).
  - destruct c, ch; try done; [|by apply Hc; left].
    destruct Hc as [[?|(k & v & E & Hw)] _]; try done. by rewrite (Hno _ _ E) in Hw.
Qed.

Lemma hlc_newer_irrefl h : hlc_newer h (Some h) = false.
Proof. apply string_ltb_irrefl. Qed.

Lemma hlc_newer_trans a b o : hlc_newer a (Some b) = true -> hlc_newer b o = true -> hlc_newer a o = true.
Proof. destruct o; simpl; [|done]. intros H1 H2. by eapply string_ltb_trans. Qed.

(** ** [apply_op], branch by branch *)

Lemma apply_op_delete row op : op_op op = Delete -> apply_op row op = apply_delete row op.
Proof. intros H. unfold apply_op. by rewrite decide_True. Qed.

Definition op_fields (op : RowOp) : gmap string Value := default ∅ (op_set op).

(** Writing an upsert or update onto the row it starts from. *)
Definition write_base (op : RowOp) (base : RegistryRow) (ch : bool) : option RegistryRow * bool :=
  let '(b, c) := foldl (set_field op) (base, ch) (btree_iter (op_fields op)) in
  if c
  then (Some (mk_row (row_kind b) (row_id b) (row_seq b) false
                (row_del_hlc b) (row_fields b) (row_clocks b)), true)
  else (Some b, false).

Lemma apply_op_write row op base :
  op_op op <> Delete -> apply_base row op = inr base ->
  apply_op row op =
    write_base op base (match row with
                        | None => true
                        | Some r => row_deleted r && negb (row_deleted base)
                        end).
Proof.
  intros Hop Hb. unfold apply_op, write_base, op_fields. rewrite decide_False by done.
  rewrite Hb. by destruct (op_set op).
Qed.

Lemma apply_op_live r op :
  op_op op <> Delete -> row_deleted r = false -> apply_op (Some r) op = write_base op r false.
Proof.
  intros Hop Hr. rewrite (apply_op_write _ _ r) by (done || simpl; by rewrite Hr).
  by rewrite Hr.
Qed.

(** The row [write_base] leaves, key by key. *)
Lemma write_base_spec op base ch :
  row_deleted base = false ->
  exists r' c, write_base op base ch = (Some r', c) /\ same_meta base r' /\
    (c = true <-> ch = true \/ exists k v, op_fields op !! k = Some v /\ wins op base k = true) /\
    (forall k, row_clocks r' !! k = clock_after op (op_fields op) base k) /\
    (forall k, row_fields r' !! k = field_after op (op_fields op) base k).
Proof.
  intros Hb. unfold write_base.
  destruct (set_map_spec op (op_fields op) base ch) as (Hm & Hc & Hcl & Hf).
  destruct (foldl _ _ _) as [b c]. simpl in *.
  destruct Hm as (?&?&?&?&?). destruct c; eexists _, _; split_and!; try done; simpl; congruence.
Qed.

(** After a write no key wins again: the loop is idempotent. *)
Lemma write_base_settled op base ch r' c k v :
  row_deleted base = false -> write_base op base ch = (Some r', c) ->
  op_fields op !! k = Some v -> wins op r' k = false.
Proof.
  intros Hb Hw Hk. destruct (write_base_spec op base ch Hb) as (r1 & c1 & E & _ & _ & Hcl & _).
  rewrite Hw in E. injection E as -> ->.
  unfold wins. rewrite Hcl. unfold clock_after. rewrite Hk.
  destruct (wins op base k) eqn:E; [apply hlc_newer_irrefl | done].
Qed.

Lemma write_base_no_win op r :
  row_deleted r = false ->
  (forall k v, op_fields op !! k = Some v -> wins op r k = false) ->
  write_base op r false = (Some r, false).
Proof. intros Hr Hno. unfold write_base. by rewrite set_map_no_win. Qed.

Lemma apply_base_live row op base : apply_base row op = inr base -> row_deleted base = false.
Proof.
  unfold apply_base. destruct row as [r|].
  - repeat case_match; naive_solver.
  - case_match; naive_solver.
Qed.

Lemma apply_base_early row op early :
  apply_base row op = inl early -> early = (row, false).
Proof. unfold apply_base. destruct row; repeat case_match; naive_solver. Qed.

Lemma apply_op_early row op early :
  op_op op <> Delete -> apply_base row op = inl early -> apply_op row op = (row, false).
Proof.
  intros Hop Hb. unfold apply_op. rewrite decide_False by done.
  by rewrite Hb, (apply_base_early _ _ _ Hb).
Qed.

Lemma apply_op_idem row op :
  apply_op (apply_op row op).1 op = ((apply_op row op).1, false).
Proof.
  destruct (decide (op_op op = Delete)) as [Hop|Hop].
  - rewrite !(apply_op_delete _ op) by done. unfold apply_delete.
    destruct row as [r|]; simpl; [|by rewrite string_ltb_irrefl].
    destruct (if row_deleted r then _ else _) eqn:E; simpl.
    + by rewrite string_ltb_irrefl.
    + by rewrite E.
  - destruct (apply_base row op) as [early|base] eqn:Hb.
    + rewrite (apply_op_early _ _ _ Hop Hb). simpl. by eapply apply_op_early.
    + rewrite (apply_op_write _ _ _ Hop Hb).
      pose proof (apply_base_live _ _ _ Hb) as Hlive.
      destruct (write_base_spec op base (match row with
                        | None => true
                        | Some r => row_deleted r && negb (row_deleted base)
                        end) Hlive) as (r' & c & E & Hm & _).
      rewrite E. simpl.
      assert (row_deleted r' = false) as Hr' by by destruct Hm as (?&?&?&->&?).
      rewrite apply_op_live by done. apply write_base_no_win; [done|].
      intros k v Hk. eapply write_base_settled; [exact Hlive|exact E|exact Hk].
Qed.

(** Re-applying an op to the row it just produced changes nothing: a
    client that pushes a batch again after a lost ack is harmless as long as
    nothing else touched the row. *)
Theorem apply_op_idempotent row op :
  apply_op (apply_op row op).1 op = ((apply_op row op).1, false).
Proof. apply apply_op_idem. Qed.

(** ** Live rows: one last-writer-wins register per field *)

(** A field's register: its clock and its value ([None] once cleared). *)
Definition cell : Type := option string * option Value.

Definition cell_write (c : cell) (w : string * Value) : cell :=
  if hlc_newer w.1 c.1 then (Some w.1, if is_null w.2 then None else Some w.2) else c.

Definition cell_of (r : RegistryRow) (k : string) : cell := (row_clocks r !! k, row_fields r !! k).

(** The write an op makes to a field, if it makes one. *)
Definition write_of (op : RowOp) (k : string) : option (string * Value) :=
  (fun v => (clock_for op k, v)) <$> op_fields op !! k.

Definition cell_step (k : string) (c : cell) (op : RowOp) : cell :=
  match write_of op k with Some w => cell_write c w | None => c end.

Lemma row_ext_cells r r' :
  same_meta r r' -> (forall k, cell_of r' k = cell_of r k) -> r' = r.
Proof.
  intros Hm Hc. apply row_ext; [done| |]; intros k; by injection (Hc k).
Qed.

Lemma apply_op_live_cells r op :
  op_op op <> Delete -> row_deleted r = false ->
  exists r', (apply_op (Some r) op).1 = Some r' /\ same_meta r r' /\ row_deleted r' = false /\
    forall k, cell_of r' k = cell_step k (cell_of r k) op.
Proof.
  intros Hop Hr. rewrite apply_op_live by done.
  destruct (write_base_spec op r false Hr) as (r' & c & -> & Hm & _ & Hcl & Hf).
  exists r'. split_and!; [done|done|by destruct Hm as (?&?&?&->&?)|].
  intros k. unfold cell_of, cell_step, write_of. rewrite Hcl, Hf.
  unfold clock_after, field_after, wins, cell_write.
  destruct (op_fields op !! k) as [v|]; simpl; [|done]. by destruct (hlc_newer _ _).
Qed.

Definition no_delete (op : RowOp) : Prop := op_op op <> Delete.

#[export] Instance no_delete_dec op : Decision (no_delete op).
Proof. unfold no_delete. apply _. Defined.

Lemma run_ops_live_cells r ops :
  row_deleted r = false -> Forall no_delete ops ->
  exists r', run_ops (Some r) ops = Some r' /\ same_meta r r' /\ row_deleted r' = false /\
    forall k, cell_of r' k = foldl (cell_step k) (cell_of r k) ops.
Proof.
  intros Hr Hops. revert r Hr. induction Hops as [|op ops Hop _ IH]; intros r Hr; simpl.
  { exists r. auto with registry. }
  destruct (apply_op_live_cells r op Hop Hr) as (r1 & -> & Hm1 & Hl1 & Hc1).
  destruct (IH r1 Hl1) as (r2 & E & Hm2 & Hl2 & Hc2). exists r2. split_and!; try done.
  - by eapply same_meta_trans.
  - intros k. by rewrite Hc2, Hc1.
Qed.

(** Two writes that carry one clock carry one value: clocks name their
    device and are never reused by it. *)
Definition agree (k : string) (op op' : RowOp) : Prop :=
  forall w w', write_of op k = Some w -> write_of op' k = Some w' -> w.1 = w'.1 -> w.2 = w'.2.

Lemma cell_write_comm c w w' :
  (w.1 = w'.1 -> w.2 = w'.2) -> cell_write (cell_write c w) w' = cell_write (cell_write c w') w.
Proof.
  destruct c as [o f], w as [c v], w' as [c' v']. unfold cell_write. simpl. intros Hag.
  destruct (hlc_newer c o) eqn:E, (hlc_newer c' o) eqn:E'; simpl; rewrite ?E, ?E'; try done.
  - destruct (String.ltb c c') eqn:L.
    + by rewrite (string_ltb_asym _ _ L).
    + destruct (String.ltb c' c) eqn:L'; [done|].
      assert (c = c') as -> by by apply string_ltb_total. by rewrite Hag.
  - destruct o as [o|]; simpl in *; [|done].
    destruct (String.ltb c c') eqn:L; [|done].
    pose proof (string_ltb_trans _ _ _ E L). congruence.
  - destruct o as [o|]; simpl in *; [|done].
    destruct (String.ltb c' c) eqn:L; [|done].
    pose proof (string_ltb_trans _ _ _ E' L). congruence.
Qed.

Lemma cell_step_comm k c op op' :
  agree k op op' -> cell_step k (cell_step k c op) op' = cell_step k (cell_step k c op') op.
Proof.
  intros Hag. unfold cell_step. destruct (write_of op k) eqn:E, (write_of op' k) eqn:E'; try done.
  apply cell_write_comm. eauto.
Qed.

Lemma run_cells_perm k ops ops' :
  ops ≡ₚ ops' -> (forall op op', op ∈ ops -> op' ∈ ops -> agree k op op') ->
  forall c, foldl (cell_step k) c ops = foldl (cell_step k) c ops'.
Proof.
  induction 1 as [|op l l' _ IH|op op' l|l1 l2 l3 H12 IH12 H23 IH23]; intros Hag c; simpl.
  - done.
  - apply IH. intros; apply Hag; by apply elem_of_cons; right.
  - f_equal. apply cell_step_comm. apply Hag; rewrite !elem_of_cons; auto.
  - rewrite IH12 by done. apply IH23. intros op op' H1 H2.
    apply Hag; by rewrite H12.
Qed.

(** C4. A live row converges: any two orders of the same creates and updates
    leave the same row, field clocks included, provided two writes to one
    field that carry the same clock carry the same value. *)
Theorem live_merge_order_independent r ops ops' :
  row_deleted r = false -> Forall no_delete ops -> ops ≡ₚ ops' ->
  (forall k op op', op ∈ ops -> op' ∈ ops -> agree k op op') ->
  run_ops (Some r) ops = run_ops (Some r) ops'.
Proof.
  intros Hr Hops Hperm Hag.
  destruct (run_ops_live_cells r ops Hr Hops) as (r1 & -> & Hm1 & _ & Hc1).
  destruct (run_ops_live_cells r ops' Hr) as (r2 & -> & Hm2 & _ & Hc2); [by rewrite <- Hperm|].
  f_equal. apply row_ext_cells.
  - destruct Hm1 as (?&?&?&?&?), Hm2 as (?&?&?&?&?). unfold same_meta. split_and!; congruence.
  - intros k. rewrite Hc1, Hc2. apply run_cells_perm; [done|]. intros; by apply Hag.
Qed.

Lemma live_merge_order_independent_witness :
  let r := mk_row "chat" "c1" 3 false None {[ "name" := Str "old" ]} {[ "name" := "2-a" ]} in
  let o1 := mk_op "chat" "c1" Update (Some {[ "name" := Str "x"; "cwd" := Str "/w" ]}) "5-a" None in
  let o2 := mk_op "chat" "c1" Upsert (Some {[ "name" := Null; "branch" := Str "b" ]}) "4-b" None in
  run_ops (Some r) [o1; o2] = run_ops (Some r) [o2; o1] /\
  (run_ops (Some r) [o1; o2] ≫= fun r => row_fields r !! "name") = Some (Str "x").
Proof.
  intros r o1 o2. split; [|by vm_compute].
  apply live_merge_order_independent; [done| |by apply perm_swap|].
  - by repeat constructor.
  - intros k op op' H1 H2. rewrite !elem_of_cons, elem_of_nil in H1, H2.
    unfold agree, write_of.
    destruct H1 as [->|[->|[]]], H2 as [->|[->|[]]]; intros w w' Hw Hw' E;
      try (rewrite Hw in Hw'; by injection Hw' as ->).
    all: destruct (op_fields o1 !! k) eqn:E1; try discriminate;
      destruct (op_fields o2 !! k) eqn:E2; try discriminate;
      injection Hw as <-; injection Hw' as <-; unfold clock_for in E; simpl in E; discriminate.
Defined.

(** ** Deletes *)

(** [h] is newer than every clock of the list. *)
Lemma foldl_later_newer h m l :
  hlc_newer h (foldl later_clock m l) = true <->
  hlc_newer h m = true /\ Forall (fun c => String.ltb c h = true) l.
Proof.
  revert m. induction l as [|c l IH]; intros m; simpl; [rewrite Forall_nil; naive_solver|].
  rewrite IH, Forall_cons. destruct m as [m|]; simpl; [|naive_solver].
  destruct (String.ltb m c) eqn:E; simpl.
  - split; [|naive_solver]. intros [H Hl]. split_and!; try done. by eapply string_ltb_trans.
  - split; [|naive_solver]. intros [H Hl]. split_and!; try done.
    destruct (String.ltb c h) eqn:E'; [done|].
    destruct (String.ltb h c) eqn:E''.
    + rewrite (string_ltb_trans _ _ _ H E'') in E. done.
    + rewrite (string_ltb_total _ _ E' E'') in E. congruence.
Qed.

Lemma max_clock_newer h r :
  hlc_newer h (max_clock r) = true <->
  hlc_newer h (row_del_hlc r) = true /\
  (forall k c, row_clocks r !! k = Some c -> String.ltb c h = true).
Proof.
  unfold max_clock. rewrite foldl_later_newer. f_equiv. rewrite Forall_fmap, Forall_forall. split.
  - intros H k c Hc. apply (H (k, c)). by apply elem_of_btree_iter.
  - intros H [k c] Hin. simpl. apply elem_of_btree_iter in Hin. eauto.
Qed.

(** The three states of a row. *)
Definition is_live (row : option RegistryRow) : bool :=
  match row with Some r => negb (row_deleted r) | None => false end.

(** A create or update leaves the row live unless it returns early. *)
Lemma is_live_write row op :
  op_op op <> Delete ->
  is_live (apply_op row op).1 =
    match apply_base row op with inl _ => is_live row | inr _ => true end.
Proof.
  intros Hop. destruct (apply_base row op) as [early|base] eqn:Hb.
  - by rewrite (apply_op_early _ _ _ Hop Hb).
  - rewrite (apply_op_write _ _ _ Hop Hb). pose proof (apply_base_live _ _ _ Hb) as Hlive.
    edestruct (write_base_spec op base) as (r' & c & -> & (?&?&?&Hd&?) & _); [done|].
    simpl. by rewrite Hd, Hlive.
Qed.

(** Whether a row is live after an op: a delete kills exactly a row whose
    tombstone clock and every field clock are older; an update leaves it as
    it was; an upsert makes a missing row live, and a tombstone exactly when
    it is newer than it. *)
Theorem liveness_table row op :
  is_live (apply_op row op).1 = true <->
  match op_op op with
  | Delete =>
      exists r, row = Some r /\ row_deleted r = false /\
        ~ (hlc_newer (op_hlc op) (row_del_hlc r) = true /\
           forall k c, row_clocks r !! k = Some c -> String.ltb c (op_hlc op) = true)
  | Update => is_live row = true
  | Upsert =>
      match row with
      | None => True
      | Some r => row_deleted r = false \/ hlc_newer (op_hlc op) (row_del_hlc r) = true
      end
  end.
Proof.
  destruct (decide (op_op op = Delete)) as [Hop|Hop].
  - rewrite apply_op_delete, Hop by done. unfold apply_delete, is_live.
    destruct row as [r|]; simpl; [|naive_solver].
    setoid_rewrite <- max_clock_newer.
    destruct (row_deleted r) eqn:E; [destruct (hlc_newer _ _); simpl; rewrite ?E; naive_solver|].
    destruct (hlc_newer _ (max_clock r)) eqn:E'; simpl; rewrite ?E.
    + split; [done|]. intros (r0 & [= <-] & _ & ?). congruence.
    + split; [|done]. intros _. exists r. by rewrite E'.
  - rewrite is_live_write by done. unfold apply_base.
    destruct row as [r|]; [destruct (row_deleted r) eqn:E|];
      destruct (op_op op) eqn:Hk; try done; simpl; rewrite ?E; simpl; try (clear; tauto).
    destruct (hlc_newer _ _) eqn:En; simpl; rewrite ?E; simpl; clear; intuition congruence.
Qed.

Lemma liveness_table_witness :
  is_live (apply_op (Some (tombstone "chat" "c1" "5-a"))
             (mk_op "chat" "c1" Upsert (Some {[ "name" := Str "x" ]}) "6-b" None)).1 = true.
Proof. apply liveness_table. right. by vm_compute. Defined.

(** ** The row invariant *)

(** No null is ever stored, every field has a clock, and a tombstone holds
    neither fields nor clocks but its own clock. *)
Record row_wf (r : RegistryRow) : Prop := {
  wf_fields k v : row_fields r !! k = Some v ->
    is_null v = false /\ is_Some (row_clocks r !! k);
  wf_tombstone : row_deleted r = true ->
    row_fields r = ∅ /\ row_clocks r = ∅ /\ is_Some (row_del_hlc r);
}.

Definition opt_wf (row : option RegistryRow) : Prop := from_option row_wf True row.

Lemma row_wf_empty kind id seq h : row_wf (mk_row kind id seq false h ∅ ∅).
Proof. split; simpl; [|done]. intros k v. by rewrite lookup_empty. Qed.

Lemma tombstone_wf_any kind id seq h : row_wf (mk_row kind id seq true (Some h) ∅ ∅).
Proof. split; simpl; [|by eauto]. intros k v. by rewrite lookup_empty. Qed.

#[export] Hint Resolve row_wf_empty tombstone_wf_any : registry.

Lemma write_base_wf op base ch :
  row_deleted base = false -> row_wf base -> opt_wf (write_base op base ch).1.
Proof.
  intros Hl [Hwf _]. destruct (write_base_spec op base ch Hl) as (r' & c & -> & Hm & _ & Hc & Hf).
  simpl. split; [|by destruct Hm as (?&?&?&->&?); rewrite Hl].
  intros k v. rewrite Hf, Hc. unfold field_after, clock_after.
  destruct (op_fields op !! k) as [w|]; [|by apply Hwf].
  destruct (wins op base k); [|by apply Hwf].
  destruct (is_null w) eqn:E; [done|]. intros [= <-]. eauto.
Qed.

Lemma apply_base_wf row op base : opt_wf row -> apply_base row op = inr base -> row_wf base.
Proof.
  unfold apply_base. destruct row as [r|]; simpl.
  - intros Hwf. destruct (row_deleted r) eqn:E; [|naive_solver].
    case_match; [done|]. intros [= <-]. apply row_wf_empty.
  - intros _. case_match; [done|]. intros [= <-]. apply row_wf_empty.
Qed.

(** C8. The merge keeps the row invariant on every op and every row. *)
Theorem apply_op_wf row op : opt_wf row -> opt_wf (apply_op row op).1.
Proof.
  intros Hwf. destruct (decide (op_op op = Delete)) as [Hop|Hop].
  - rewrite apply_op_delete by done. unfold apply_delete.
    destruct row as [r|]; simpl; [|apply tombstone_wf_any].
    destruct (if row_deleted r then _ else _); simpl; [apply tombstone_wf_any|done].
  - destruct (apply_base row op) as [early|base] eqn:Hb.
    + by rewrite (apply_op_early _ _ _ Hop Hb).
    + rewrite (apply_op_write _ _ _ Hop Hb).
      apply write_base_wf; [by eapply apply_base_live|by eapply apply_base_wf].
Qed.

Lemma apply_op_wf_witness :
  opt_wf (apply_op (Some (tombstone "chat" "c1" "5-a"))
            (mk_op "chat" "c1" Upsert (Some {[ "name" := Null ]}) "6-b" None)).1.
Proof. apply apply_op_wf. apply tombstone_wf_any. Defined.

(** ** Seeds *)

(** The clocks of the fields a row still shows. *)
Definition field_clocks (r : RegistryRow) : gmap string string :=
  filter (fun kc => is_Some (row_fields r !! kc.1)) (row_clocks r).

Lemma lookup_field_clocks r k :
  field_clocks r !! k =
    match row_fields r !! k with Some _ => row_clocks r !! k | None => None end.
Proof.
  unfold field_clocks. rewrite map_lookup_filter.
  destruct (row_clocks r !! k), (row_fields r !! k) eqn:E; simpl; try done.
  - by rewrite option_guard_True by eauto.
  - rewrite option_guard_False; [done|]. intros [? ?]. congruence.
Qed.

Lemma seed_write r k :
  row_deleted r = false -> row_wf r ->
  write_of (row_to_seed_op r) k =
    match row_fields r !! k, row_clocks r !! k with
    | Some v, Some c => Some (c, v)
    | _, _ => None
    end.
Proof.
  intros Hl Hwf. unfold write_of, row_to_seed_op, op_fields, clock_for. rewrite Hl. simpl.
  destruct (row_fields r !! k) as [v|] eqn:E; simpl; [|done].
  by destruct (wf_fields r Hwf k v E) as [_ [c ->]].
Qed.

(** Seeding a server that lost a row gives back its liveness, its fields,
    the clock of every field it shows, and a tombstone's clock.  (The clocks
    of cleared fields and a revived row's tombstone clock do not travel.) *)
Theorem seed_restores r :
  row_wf r ->
  (apply_op None (row_to_seed_op r)).1 =
    Some (if row_deleted r
          then mk_row (row_kind r) (row_id r) 0 true (row_del_hlc r) ∅ ∅
          else mk_row (row_kind r) (row_id r) 0 false None (row_fields r) (field_clocks r)).
Proof.
  intros Hwf. destruct (row_deleted r) eqn:Hl.
  - destruct (wf_tombstone r Hwf Hl) as (_ & _ & [h Hh]).
    unfold row_to_seed_op. rewrite Hl, apply_op_delete by done.
    unfold apply_delete, tombstone. simpl. by rewrite Hh.
  - assert (op_op (row_to_seed_op r) <> Delete) as Hop by (unfold row_to_seed_op; by rewrite Hl).
    rewrite (apply_op_write _ _ (mk_row (row_kind r) (row_id r) 0 false None ∅ ∅) Hop)
      by (unfold row_to_seed_op; by rewrite Hl).
    edestruct (write_base_spec (row_to_seed_op r)) as (r' & c & -> & Hm & _ & Hc & Hf); [done|].
    simpl. f_equal. apply row_ext; [done| |]; intros k.
    all: rewrite ?Hf, ?Hc; simpl.
    all: unfold field_after, clock_after, wins; simpl; rewrite ?lookup_empty; simpl.
    all: pose proof (seed_write r k Hl Hwf) as Hw; unfold write_of in Hw; rewrite ?lookup_field_clocks.
    all: assert (op_fields (row_to_seed_op r) = row_fields r) as ->
        by (unfold row_to_seed_op, op_fields; by rewrite Hl).
    all: assert (op_fields (row_to_seed_op r) = row_fields r) as Ef
        by (unfold row_to_seed_op, op_fields; by rewrite Hl); rewrite Ef in Hw.
    all: destruct (row_fields r !! k) as [v|] eqn:E; [|done].
    all: destruct (wf_fields r Hwf k v E) as [Hn [c0 Hc0]]; rewrite ?Hn, Hc0 in *; simpl in *; congruence.
Qed.

Lemma seed_restores_witness :
  let r := mk_row "chats" "c1" 9 false (Some "2-a") {[ "title" := Str "x" ]}
             {[ "title" := "4-a"; "cwd" := "5-b" ]} in
  (apply_op None (row_to_seed_op r)).1 =
    Some (mk_row "chats" "c1" 0 false None (row_fields r) (field_clocks r)) /\
  field_clocks r !! "cwd" = None.
Proof.
  intros r. split; [|reflexivity]. apply (seed_restores r). split; [|done].
  intros k v. unfold r. simpl. rewrite lookup_singleton_Some. intros [<- <-]. by split; [|eexists].
Defined.

(** ** Limits of the merge *)

(** A re-seeded server has forgotten that a field was cleared: a stale write
    from before the clear, refused by the seeded row, is taken by the row the
    seed creates. *)
Lemma seed_forgets_cleared_field :
  let r := mk_row "chats" "c1" 9 false None {[ "id" := Str "c1" ]}
             {[ "id" := "1-a"; "title" := "5-a" ]} in
  let stale := mk_op "chats" "c1" Update (Some {[ "title" := Str "old" ]}) "3-b" None in
  apply_op (Some r) stale = (Some r, false) /\
  (((apply_op None (row_to_seed_op r)).1 ≫= fun s => (apply_op (Some s) stale).1)
     ≫= fun s => row_fields s !! "title") = Some (Str "old").
Proof. by vm_compute. Qed.

(** Pushing a history twice is not the same as pushing it once when a later
    op revived the row in between: an update dropped on the tombstone applies
    the second time. *)
Lemma replay_after_revival_differs :
  let ops := [mk_op "chats" "c1" Update (Some {[ "title" := Str "late" ]}) "8-a" None;
              mk_op "chats" "c1" Upsert (Some {[ "cwd" := Str "/w" ]}) "9-b" None] in
  let dead := Some (tombstone "chats" "c1" "7-a") in
  (run_ops dead ops ≫= fun r => row_fields r !! "title") = None /\
  (run_ops (run_ops dead ops) ops ≫= fun r => row_fields r !! "title") = Some (Str "late").
Proof. by vm_compute. Qed.
