(* ===== verification/Entities.v ===== *)
(** The synced entity rows: crates/proto/src/entities.rs, and how a registry
    row's fields decode into them: the [Raw*] shapes of
    crates/doc/src/workspace.rs.

    Timestamps are chrono's, so their type is a parameter ([Chrono]); the
    serde codec of the chat configuration is one too ([ConfigCodec]). *)
From S2P Require Import Prelude Json.

(** ** Parameters *)

(** The part of chrono the rows use: an instant, its epoch milliseconds, and
    the instant of a millisecond count when chrono can represent it. *)
Class Chrono := {
  DateTime : Type;
  timestamp_millis : DateTime -> Z;
  from_timestamp_millis : Z -> option DateTime;
  UNIX_EPOCH : DateTime;
}.

(** Documented behaviour: the millisecond constructor gives an instant with
    those milliseconds, and every instant's milliseconds are representable
    and fit an [i64]. *)
Class ChronoLaws (C : Chrono) := {
  millis_from ms t : from_timestamp_millis ms = Some t -> timestamp_millis t = ms;
  from_millis t : is_Some (from_timestamp_millis (timestamp_millis t));
  millis_i64 t : I64_MIN <= timestamp_millis t <= I64_MAX;
}.

(** serde's derived codec of [ChatConfig]. *)
Class ConfigCodec := {
  ChatConfig : Type;
  config_to_value : ChatConfig -> option Value;
  config_of_value : Value -> option ChatConfig;
}.

Class ConfigCodecLaws (K : ConfigCodec) := {
  config_roundtrip c v : config_to_value c = Some v -> config_of_value v = Some c;
  config_not_null c v : config_to_value c = Some v -> is_null v = false;
}.

(** ** Entities *)

Section Entities.
  Context {C : Chrono} {K : ConfigCodec}.

Record Device := mk_device {
  dev_id : string;
  dev_name : string;
  dev_platform : string;
  dev_last_seen_at : option DateTime;
  dev_created_at : option DateTime;
  dev_version : option string;
}.

Record Space := mk_space {
  sp_id : string;
  sp_device_id : string;
  sp_path : string;
  sp_name : option string;
  sp_git_detected : bool;
  sp_git_checked_at : option DateTime;
  sp_checkout_id : option string;
  sp_created_at : DateTime;
}.

Record Chat := mk_chat {
  ch_id : string;
  ch_device_id : string;
  ch_title : option string;
  ch_archived : bool;
  ch_cwd : option string;
  ch_branch : option string;
  ch_checkout_id : option string;
  ch_config : option ChatConfig;
  ch_last_message_preview : option string;
  ch_last_message_at : option DateTime;
  ch_created_at : DateTime;
  ch_harness_session_id : option string;
  ch_harness_session_cwd : option string;
  ch_space_id : option string;
  ch_last_seen_at : option DateTime;
  ch_room_gen : option Z;
}.

Inductive SessionStatus := Idle | Working | AwaitingInput | Errored.

Record Session := mk_session {
  se_chat_id : string;
  se_device_id : string;
  se_status : SessionStatus;
  se_started_at : option DateTime;
  se_updated_at : DateTime;
  se_context_tokens : option Z;
}.

(** ** Raw rows (epoch milliseconds) *)

Record RawDevice := mk_raw_device {
  rd_id : string;
  rd_name : string;
  rd_platform : string;
  rd_last_seen_at : option Z;
  rd_created_at : option Z;
  rd_version : option string;
}.

Record RawSpace := mk_raw_space {
  rs_id : string;
  rs_device_id : string;
  rs_path : string;
  rs_name : option string;
  rs_git_detected : bool;
  rs_git_checked_at : option Z;
  rs_checkout_id : option string;
  rs_created_at : Z;
}.

Record RawChat := mk_raw_chat {
  rc_id : string;
  rc_device_id : string;
  rc_title : option string;
  rc_archived : bool;
  rc_cwd : option string;
  rc_branch : option string;
  rc_checkout_id : option string;
  rc_config : option ChatConfig;
  rc_last_message_preview : option string;
  rc_last_message_at : option Z;
  rc_created_at : Z;
  rc_harness_session_id : option string;
  rc_harness_session_cwd : option string;
  rc_space_id : option string;
  rc_last_seen_at : option Z;
  rc_room_gen : option Z;
}.

Record RawSession := mk_raw_session {
  rse_chat_id : string;
  rse_device_id : string;
  rse_status : SessionStatus;
  rse_started_at : option Z;
  rse_updated_at : Z;
  rse_context_tokens : option Z;
}.

(** ** Field decoding, as serde's derive does it *)

Definition as_string (v : Value) : option string :=
  match v with Str s => Some s | _ => None end.

Definition as_bool (v : Value) : option bool :=
  match v with Bool b => Some b | _ => None end.

(** An unsigned integer below [2^w]. *)
Definition as_uint (w : Z) (v : Value) : option Z :=
  match v with
  | Int z => if (0 <=? z) && (z <? 2 ^ w) then Some z else None
  | _ => None
  end.

(** A field without a default: it must be there. *)
Definition de_req {A} (f : Value -> option A) (m : gmap string Value) (k : string) : option A :=
  m !! k ≫= f.

(** [#[serde(default)]] on an [Option]: absent and null are [None]. *)
Definition de_opt {A} (f : Value -> option A) (m : gmap string Value) (k : string)
    : option (option A) :=
  match m !! k with
  | None => Some None
  | Some Null => Some None
  | Some v => Some <$> f v
  end.

(** [#[serde(default)]] on a plain type: absent is the default, null is an
    error. *)
Definition de_default {A} (f : Value -> option A) (d : A) (m : gmap string Value) (k : string)
    : option A :=
  match m !! k with
  | None => Some d
  | Some v => f v
  end.

Definition status_str (s : SessionStatus) : string :=
  match s with
  | Idle => "idle"
  | Working => "working"
  | AwaitingInput => "awaitingInput"
  | Errored => "errored"
  end.

Definition as_status (v : Value) : option SessionStatus :=
  match v with
  | Str s =>
      if String.eqb s "idle" then Some Idle
      else if String.eqb s "working" then Some Working
      else if String.eqb s "awaitingInput" then Some AwaitingInput
      else if String.eqb s "errored" then Some Errored
      else None
  | _ => None
  end.

Definition raw_device_of (m : gmap string Value) : option RawDevice :=
  id ← de_req as_string m "id";
  name ← de_req as_string m "name";
  platform ← de_req as_string m "platform";
  last_seen_at ← de_opt as_i64 m "lastSeenAt";
  created_at ← de_opt as_i64 m "createdAt";
  version ← de_opt as_string m "version";
  Some (mk_raw_device id name platform last_seen_at created_at version).

Definition raw_space_of (m : gmap string Value) : option RawSpace :=
  id ← de_req as_string m "id";
  device_id ← de_req as_string m "deviceId";
  path ← de_req as_string m "path";
  name ← de_opt as_string m "name";
  git_detected ← de_default as_bool false m "gitDetected";
  git_checked_at ← de_opt as_i64 m "gitCheckedAt";
  checkout_id ← de_opt as_string m "checkoutId";
  created_at ← de_default as_i64 0 m "createdAt";
  Some (mk_raw_space id device_id path name git_detected git_checked_at checkout_id created_at).

Definition raw_chat_of (m : gmap string Value) : option RawChat :=
  id ← de_req as_string m "id";
  device_id ← de_req as_string m "deviceId";
  title ← de_opt as_string m "title";
  archived ← de_default as_bool false m "archived";
  cwd ← de_opt as_string m "cwd";
  branch ← de_opt as_string m "branch";
  checkout_id ← de_opt as_string m "checkoutId";
  config ← de_opt config_of_value m "config";
  last_message_preview ← de_opt as_string m "lastMessagePreview";
  last_message_at ← de_opt as_i64 m "lastMessageAt";
  created_at ← de_default as_i64 0 m "createdAt";
  harness_session_id ← de_opt as_string m "harnessSessionId";
  harness_session_cwd ← de_opt as_string m "harnessSessionCwd";
  space_id ← de_opt as_string m "spaceId";
  last_seen_at ← de_opt as_i64 m "lastSeenAt";
  room_gen ← de_opt (as_uint 32) m "roomGen";
  Some (mk_raw_chat id device_id title archived cwd branch checkout_id config
          last_message_preview last_message_at created_at harness_session_id
          harness_session_cwd space_id last_seen_at room_gen).

Definition raw_session_of (m : gmap string Value) : option RawSession :=
  chat_id ← de_req as_string m "chatId";
  device_id ← de_req as_string m "deviceId";
  status ← de_req as_status m "status";
  started_at ← de_opt as_i64 m "startedAt";
  updated_at ← de_default as_i64 0 m "updatedAt";
  context_tokens ← de_opt (as_uint 64) m "contextTokens";
  Some (mk_raw_session chat_id device_id status started_at updated_at context_tokens).

(** [dt]: an unrepresentable count falls back to the epoch. *)
Definition dt (ms : Z) : DateTime := default UNIX_EPOCH (from_timestamp_millis ms).

Definition device_from (raw : RawDevice) : Device :=
  mk_device (rd_id raw) (rd_name raw) (rd_platform raw) (dt <$> rd_last_seen_at raw)
    (dt <$> rd_created_at raw) (rd_version raw).

Definition space_from (raw : RawSpace) : Space :=
  mk_space (rs_id raw) (rs_device_id raw) (rs_path raw) (rs_name raw) (rs_git_detected raw)
    (dt <$> rs_git_checked_at raw) (rs_checkout_id raw) (dt (rs_created_at raw)).

Definition chat_from (raw : RawChat) : Chat :=
  mk_chat (rc_id raw) (rc_device_id raw) (rc_title raw) (rc_archived raw) (rc_cwd raw)
    (rc_branch raw) (rc_checkout_id raw) (rc_config raw) (rc_last_message_preview raw)
    (dt <$> rc_last_message_at raw) (dt (rc_created_at raw)) (rc_harness_session_id raw)
    (rc_harness_session_cwd raw) (rc_space_id raw) (dt <$> rc_last_seen_at raw)
    (rc_room_gen raw).

Definition session_from (raw : RawSession) : Session :=
  mk_session (rse_chat_id raw) (rse_device_id raw) (rse_status raw)
    (dt <$> rse_started_at raw) (dt (rse_updated_at raw)) (rse_context_tokens raw).

End Entities.

#[export] Instance SessionStatus_eq_dec : EqDecision SessionStatus.
Proof. solve_decision. Defined.

(** Instants as whole milliseconds, over chrono's range (years -262143 to
    262142): the instance the witnesses run on. *)
#[export] Instance millis_chrono : Chrono := {|
  DateTime := Z;
  timestamp_millis := fun t => Z.max (-8334601228800000) (Z.min 8210266876799999 t);
  from_timestamp_millis := fun ms =>
    if (-8334601228800000 <=? ms) && (ms <=? 8210266876799999) then Some ms else None;
  UNIX_EPOCH := 0;
|}.

#[export] Instance millis_chrono_laws : ChronoLaws millis_chrono.
Proof.
  split; simpl.
  - intros ms t. case_match eqn:E; [|done]. intros [= <-].
    apply andb_true_iff in E as [?%Z.leb_le ?%Z.leb_le]. lia.
  - intros t. rewrite (proj2 (andb_true_iff _ _)); [eauto|]. rewrite !Z.leb_le. lia.
  - intros t. unfold I64_MIN, I64_MAX. lia.
Qed.
