(* ===== verification/RegistryDoc.v ===== *)
(** The client replica of the registry: [RegistryDoc] of
    crates/doc/src/registry.rs.

    The server's rows ([authoritative]), the batches of local ops not yet
    acked ([pending]) and the clock.  Every read shows the authoritative row
    with the pending ops replayed over it.

    [now_ms()] reads the wall clock, several times in one operation when a
    write is chunked; an operation takes its readings as [now : nat -> Z], the
    i-th reading being [now i]. *)
From S2P Require Import Prelude Hlc Json RegistryRow.

(** ** State *)

Record PendingBatch := mk_batch {
  pb_batch : string;
  pb_ops : list RowOp;
  in_flight : bool;
}.

Inductive StateOutcome := Delta | Replaced | Reseeded.

#[export] Instance StateOutcome_eq_dec : EqDecision StateOutcome.
Proof. solve_decision. Defined.

(** kind -> id -> row. *)
Abbreviation Rows := (gmap string (gmap string RegistryRow)).

Record RegistryDoc := mk_doc {
  device_id : string;
  authoritative : Rows;
  server_seq : N;
  gc_floor : N;
  clock : HlcClock;
  pending : list PendingBatch;
  generation : N;
}.

Definition set_authoritative (d : RegistryDoc) (a : Rows) : RegistryDoc :=
  mk_doc (device_id d) a (server_seq d) (gc_floor d) (clock d) (pending d) (generation d).
Definition set_cursor (d : RegistryDoc) (seq floor : N) : RegistryDoc :=
  mk_doc (device_id d) (authoritative d) seq floor (clock d) (pending d) (generation d).
Definition set_clock (d : RegistryDoc) (c : HlcClock) : RegistryDoc :=
  mk_doc (device_id d) (authoritative d) (server_seq d) (gc_floor d) c (pending d) (generation d).
Definition set_pending (d : RegistryDoc) (p : list PendingBatch) : RegistryDoc :=
  mk_doc (device_id d) (authoritative d) (server_seq d) (gc_floor d) (clock d) p (generation d).
(** [self.generation += 1]. *)
Definition bump (d : RegistryDoc) : RegistryDoc :=
  mk_doc (device_id d) (authoritative d) (server_seq d) (gc_floor d) (clock d) (pending d)
    (generation d + 1).

(** [RegistryDoc::new]. *)
Definition registry_new (device : string) : RegistryDoc :=
  mk_doc device ∅ 0 0 clock_default [] 0.

Definition cursor (d : RegistryDoc) : N := server_seq d.
Definition pending_len (d : RegistryDoc) : nat := length (pending d).

(** ** Rows by kind and id *)

(** [map.get(kind).and_then(|m| m.get(id))]. *)
Definition get_row (a : Rows) (kind id : string) : option RegistryRow :=
  a !! kind ≫= (.!! id).

(** [map.entry(row.kind).or_default().insert(row.id, row)]. *)
Definition put_row (a : Rows) (row : RegistryRow) : Rows :=
  <[row_kind row := <[row_id row := row]> (default ∅ (a !! row_kind row))]> a.

(** [put_authoritative]. *)
Definition put_authoritative (d : RegistryDoc) (row : RegistryRow) : RegistryDoc :=
  set_authoritative d (put_row (authoritative d) row).

(** [map.values().flat_map(|m| m.values())], in the unspecified order of a
    hash map. *)
Definition all_rows (a : Rows) : list RegistryRow :=
  map_to_list a ≫= fun km => (map_to_list km.2).*2.

(** ** Local writes *)

Definition MAX_OPS_PER_BATCH : nat := 400.

(** [next_hlc]. *)
Definition next_hlc (d : RegistryDoc) (now : Z) : string * RegistryDoc :=
  let '(h, c) := hlc_next (clock d) now (device_id d) in (h, set_clock d c).

(** The loop of [enqueue_ops]; [fuel] bounds the number of chunks. *)
Fixpoint enqueue_loop (fuel : nat) (d : RegistryDoc) (now : nat -> Z) (ops : list RowOp)
    : RegistryDoc :=
  match fuel with
  | O => d
  | S fuel' =>
      match ops with
      | [] => d
      | _ =>
          let '(h, d1) := next_hlc d (now 0%nat) in
          let batch := mk_batch ("b-" +:+ h) (take MAX_OPS_PER_BATCH ops) false in
          enqueue_loop fuel' (set_pending d1 (pending d1 ++ [batch])) (fun i => now (S i))
            (drop MAX_OPS_PER_BATCH ops)
      end
  end.

(** [enqueue_ops]: every turn of the loop takes at least one op, so as many
    turns as ops are enough. *)
Definition enqueue_ops (d : RegistryDoc) (now : nat -> Z) (ops : list RowOp) : RegistryDoc :=
  match ops with
  | [] => d
  | _ => enqueue_loop (length ops) (bump d) now ops
  end.

(** [write]. *)
Definition write (d : RegistryDoc) (now : nat -> Z) (kind id : string) (op : OpKind)
    (set : gmap string Value) : RegistryDoc :=
  let '(hlc, d1) := next_hlc d (now 0%nat) in
  enqueue_ops d1 (fun i => now (S i)) [mk_op kind id op (Some set) hlc None].

(** [delete_row_ops]: one clock for all the keys. *)
Definition delete_row_ops (d : RegistryDoc) (now : nat -> Z) (keys : list (string * string))
    : RegistryDoc :=
  let '(hlc, d1) := next_hlc d (now 0%nat) in
  enqueue_ops d1 (fun i => now (S i))
    ((fun k => mk_op k.1 k.2 Delete None hlc None) <$> keys).

(** ** Server frames *)

(** [apply_state]. *)
Definition apply_state (d : RegistryDoc) (now : nat -> Z) (seq : N) (full : bool) (floor : N)
    (rows : list RegistryRow) : StateOutcome * RegistryDoc :=
  let d := bump d in
  if negb full then (Delta, set_cursor (foldl put_authoritative d rows) seq floor)
  else if (seq <? server_seq d)%N then
    let seed := row_to_seed_op <$> all_rows (authoritative d) in
    let d := set_cursor (foldl put_authoritative d rows) seq floor in
    (Reseeded, match seed with [] => d | _ => enqueue_ops d now seed end)
  else
    let incoming := foldl put_row ∅ rows in
    let seed :=
      map_to_list (authoritative d) ≫= fun '(kind, by_id) =>
        map_to_list by_id ≫= fun '(id, row) =>
          match get_row incoming kind id with
          | Some _ => []
          | None => [row_to_seed_op row]
          end in
    let d := set_cursor (set_authoritative d incoming) seq floor in
    match seed with
    | [] => (Replaced, d)
    | _ => (Reseeded, enqueue_ops d now seed)
    end.

(** [apply_rows]. *)
Definition apply_rows (d : RegistryDoc) (seq : N) (rows : list RegistryRow) : RegistryDoc :=
  let d := foldl put_authoritative (bump d) rows in
  if (server_seq d <? seq)%N then set_cursor d seq (gc_floor d) else d.

(** [ack_batch]. *)
Definition ack_batch (d : RegistryDoc) (batch : string) (seq : N) : bool * RegistryDoc :=
  let before := length (pending d) in
  let d := set_pending d (filter (fun b => pb_batch b <> batch) (pending d)) in
  let d := if (server_seq d <? seq)%N then set_cursor d seq (gc_floor d) else d in
  if decide (length (pending d) = before) then (false, d) else (true, bump d).

(** [take_pushable]: marks what it returns as in flight. *)
Definition take_pushable (d : RegistryDoc) : list PendingBatch * RegistryDoc :=
  let mark b := mk_batch (pb_batch b) (pb_ops b) true in
  (mark <$> filter (fun b => in_flight b = false) (pending d),
   set_pending d ((fun b => if in_flight b then b else mark b) <$> pending d)).

(** [mark_disconnected]. *)
Definition mark_disconnected (d : RegistryDoc) : RegistryDoc :=
  set_pending d ((fun b => mk_batch (pb_batch b) (pb_ops b) false) <$> pending d).

(** ** Overlay reads *)

(** One op replayed onto the row being read. *)
Definition overlay_step (kind id : string) (row : option RegistryRow) (op : RowOp)
    : option RegistryRow :=
  if decide (op_kind op = kind /\ op_id op = id) then
    match (apply_op row op).1 with
    | Some next => Some next
    | None => row
    end
  else row.

(** The row before the final filter of [overlay_row]. *)
Definition overlay_raw (d : RegistryDoc) (kind id : string) : option RegistryRow :=
  foldl (fun row b => foldl (overlay_step kind id) row (pb_ops b))
    (get_row (authoritative d) kind id) (pending d).

(** [overlay_row]. *)
Definition overlay_row (d : RegistryDoc) (kind id : string) : option RegistryRow :=
  match overlay_raw d kind id with
  | Some r => if row_deleted r then None else Some r
  | None => None
  end.

(** The ids [overlay_rows] visits: the authoritative ones, then those only
    pending ops name. *)
Definition overlay_ids (d : RegistryDoc) (kind : string) : list string :=
  foldl (fun ids b =>
    foldl (fun ids op =>
      if decide (op_kind op = kind /\ op_id op ∉ ids) then ids ++ [op_id op] else ids)
      ids (pb_ops b))
    (match authoritative d !! kind with Some m => (map_to_list m).*1 | None => [] end)
    (pending d).

(** [overlay_rows]. *)
Definition overlay_rows (d : RegistryDoc) (kind : string) : list RegistryRow :=
  omap (overlay_row d kind) (overlay_ids d kind).

Definition row_exists (d : RegistryDoc) (kind id : string) : bool :=
  match overlay_row d kind id with Some _ => true | None => false end.

(** [read_kind] with the row decoder as an argument: rows that do not decode
    are skipped. *)
Definition read_kind {T} (decode : gmap string Value -> option T) (d : RegistryDoc) (kind : string)
    : list T :=
  omap (fun row => decode (row_fields row)) (overlay_rows d kind).

(** ** Persistence *)

Record PersistedState := mk_persisted {
  ps_v : Z;
  ps_device_id : string;
  ps_server_seq : N;
  ps_gc_floor : N;
  ps_clock : HlcClock;
  ps_rows : list RegistryRow;
  ps_pending : list PendingBatch;
}.

(** serde_json's derived codec of [PersistedState]. *)
Class StateCodec := {
  snapshot_bytes : Type;
  state_to_vec : PersistedState -> option snapshot_bytes;
  state_from_slice : snapshot_bytes -> option PersistedState;
}.

Inductive DocError := JsonError | SchemaError.

Section Persistence.
Context {Codec : StateCodec}.

(** [to_bytes]. *)
Definition to_bytes (d : RegistryDoc) : DocError + snapshot_bytes :=
  match state_to_vec (mk_persisted 1 (device_id d) (server_seq d) (gc_floor d) (clock d)
                        (all_rows (authoritative d)) (pending d)) with
  | Some bytes => inr bytes
  | None => inl JsonError
  end.

(** [from_bytes]. *)
Definition from_bytes (bytes : snapshot_bytes) (device : string) : DocError + RegistryDoc :=
  match state_from_slice bytes with
  | None => inl JsonError
  | Some state =>
      if negb (ps_v state =? 1) then inl SchemaError
      else inr (mk_doc device (foldl put_row ∅ (ps_rows state)) (ps_server_seq state)
                  (ps_gc_floor state) (ps_clock state) (ps_pending state) 0)
  end.
End Persistence.

(** ** Rows by kind and id: lemmas *)

Definition keyed (kind id : string) (r : RegistryRow) : Prop := row_kind r = kind /\ row_id r = id.

#[export] Instance keyed_dec kind id r : Decision (keyed kind id r).
Proof. unfold keyed. apply _. Defined.

Lemma get_put_row a r kind id :
  get_row (put_row a r) kind id = if decide (keyed kind id r) then Some r else get_row a kind id.
Proof.
  unfold get_row, put_row, keyed. destruct (decide (row_kind r = kind)) as [<-|Hk].
  - rewrite lookup_insert_eq. simpl. destruct (decide (row_id r = id)) as [<-|Hi].
    + rewrite lookup_insert_eq. by rewrite decide_True.
    + rewrite lookup_insert_ne by done. rewrite decide_False by naive_solver.
      by destruct (a !! row_kind r).
  - rewrite lookup_insert_ne by done. by rewrite decide_False by naive_solver.
Qed.

(** The last row of a list for a key: what inserting them in order leaves. *)
Definition last_for (kind id : string) (rows : list RegistryRow) : option RegistryRow :=
  last (filter (keyed kind id) rows).

Lemma last_for_snoc kind id rows r :
  last_for kind id (rows ++ [r]) =
    if decide (keyed kind id r) then Some r else last_for kind id rows.
Proof.
  unfold last_for. rewrite filter_app, filter_cons, filter_nil.
  case_decide; [by rewrite last_snoc|by rewrite app_nil_r].
Qed.

Lemma last_for_Some kind id rows r :
  last_for kind id rows = Some r -> r ∈ rows /\ keyed kind id r.
Proof.
  intros H%last_Some_elem_of. by apply list_elem_of_filter in H as [? ?].
Qed.

Lemma last_for_None kind id rows :
  last_for kind id rows = None -> forall r, r ∈ rows -> ~ keyed kind id r.
Proof.
  intros H%last_None r Hin Hk.
  assert (r ∈ filter (keyed kind id) rows) as Hf by by apply list_elem_of_filter.
  rewrite H in Hf. by apply not_elem_of_nil in Hf.
Qed.

Lemma get_put_rows a rows kind id :
  get_row (foldl put_row a rows) kind id =
    match last_for kind id rows with Some r => Some r | None => get_row a kind id end.
Proof.
  induction rows as [|r rows IH] using rev_ind; [done|].
  rewrite foldl_app, last_for_snoc. simpl. rewrite get_put_row, IH. by case_decide.
Qed.

Lemma foldl_put_authoritative d rows :
  foldl put_authoritative d rows = set_authoritative d (foldl put_row (authoritative d) rows).
Proof.
  revert d. induction rows as [|r rows IH]; intros d; simpl; [by destruct d|]. by rewrite IH.
Qed.

(** Maps the code builds: rows sit under their own key and no kind is left
    with an empty map. *)
Definition rows_wf (a : Rows) : Prop :=
  map_Forall (fun kind m => m <> ∅ /\ map_Forall (fun id r => keyed kind id r) m) a.

Lemma rows_wf_empty : rows_wf ∅.
Proof. apply map_Forall_empty. Qed.

Lemma put_row_wf a r : rows_wf a -> rows_wf (put_row a r).
Proof.
  intros Hwf. unfold put_row. apply map_Forall_insert_2; [|done].
  split; [apply insert_non_empty|].
  apply map_Forall_insert_2; [done|].
  destruct (a !! row_kind r) as [m|] eqn:E; simpl; [|apply map_Forall_empty].
  exact (proj2 (Hwf _ _ E)).
Qed.

Lemma put_rows_wf a rows : rows_wf a -> rows_wf (foldl put_row a rows).
Proof. revert a. induction rows; intros a' H; simpl; [done|]. auto using put_row_wf. Qed.

#[export] Hint Resolve rows_wf_empty put_row_wf put_rows_wf : registry.

Lemma elem_of_all_rows a r : r ∈ all_rows a <-> exists kind id, get_row a kind id = Some r.
Proof.
  unfold all_rows, get_row. rewrite list_elem_of_bind. split.
  - intros ([kind m] & Hin & Hk%elem_of_map_to_list). simpl in *.
    apply list_elem_of_fmap in Hin as ([id r'] & -> & Hr%elem_of_map_to_list).
    exists kind, id. by rewrite Hk.
  - intros (kind & id & (m & Hm & Hr)%bind_Some). exists (kind, m). split.
    + apply list_elem_of_fmap. exists (id, r). split; [done|]. by apply elem_of_map_to_list.
    + by apply elem_of_map_to_list.
Qed.

Lemma get_row_keyed a kind id r : rows_wf a -> get_row a kind id = Some r -> keyed kind id r.
Proof.
  intros Hwf (m & Hm & Hr)%bind_Some. exact (proj2 (Hwf _ _ Hm) _ _ Hr).
Qed.

(** Two well-formed maps that answer alike are equal. *)
Lemma rows_ext a b :
  rows_wf a -> rows_wf b -> (forall kind id, get_row a kind id = get_row b kind id) -> a = b.
Proof.
  intros Ha Hb H. apply map_eq. intros kind.
  assert (forall x y, rows_wf x -> rows_wf y -> (forall kind id, get_row x kind id = get_row y kind id) ->
    forall m, x !! kind = Some m -> y !! kind = Some m) as Hle.
  { clear. intros x y Hx Hy H m Hm. destruct (Hx _ _ Hm) as [Hne _].
    apply map_choose in Hne as (id & r & Hr).
    pose proof (H kind id) as E. unfold get_row in E. rewrite Hm in E. simpl in E. rewrite Hr in E.
    destruct (y !! kind) as [m'|] eqn:Em; [|done]. f_equal. apply map_eq. intros i.
    pose proof (H kind i) as Ei. unfold get_row in Ei. rewrite Hm, Em in Ei. by simpl in Ei. }
  destruct (a !! kind) as [m|] eqn:E; [symmetry; exact (Hle a b Ha Hb H m E)|].
  destruct (b !! kind) as [m|] eqn:E'; [|done].
  by rewrite (Hle b a Hb Ha (fun k i => eq_sym (H k i)) m E') in E.
Qed.

(** Rebuilding a map from its rows, in any order. *)
Lemma rebuild_rows a : rows_wf a -> foldl put_row ∅ (all_rows a) = a.
Proof.
  intros Hwf. apply rows_ext; [by auto with registry|done|]. intros kind id.
  rewrite get_put_rows. destruct (last_for kind id (all_rows a)) as [r|] eqn:E.
  - apply last_for_Some in E as [(k & i & Hr)%elem_of_all_rows [<- <-]].
    destruct (get_row_keyed _ _ _ _ Hwf Hr) as [-> ->]. done.
  - destruct (get_row a kind id) as [r|] eqn:E'; [|done]. exfalso.
    apply (last_for_None _ _ _ E r); [apply elem_of_all_rows; eauto|by eapply get_row_keyed].
Qed.

(** ** Chunked writes *)

(** The batches one write enqueues: consecutive chunks, clocked ids. *)
Fixpoint chunks (fuel : nat) (ops : list RowOp) : list (list RowOp) :=
  match fuel, ops with
  | S fuel', _ :: _ => take MAX_OPS_PER_BATCH ops :: chunks fuel' (drop MAX_OPS_PER_BATCH ops)
  | _, _ => []
  end.

Lemma chunks_spec fuel ops :
  (length ops <= fuel)%nat ->
  concat (chunks fuel ops) = ops /\
  Forall (fun c => 1 <= length c <= MAX_OPS_PER_BATCH)%nat (chunks fuel ops).
Proof.
  revert ops. induction fuel as [|fuel IH]; intros [|op ops] Hl; cbn [chunks]; try (split; [done|constructor]).
  { simpl in Hl. lia. }
  destruct (IH (drop MAX_OPS_PER_BATCH (op :: ops))) as [IHc IHl].
  { rewrite length_drop. unfold MAX_OPS_PER_BATCH. cbn [length] in *. lia. }
  split.
  - cbn [concat]. rewrite IHc. apply take_drop.
  - constructor; [|done]. rewrite length_take. unfold MAX_OPS_PER_BATCH. cbn [length]. lia.
Qed.

Lemma hlc_next_eta c now d :
  hlc_next c now d = ((hlc_next c now d).1, (hlc_next c now d).2).
Proof. by destruct (hlc_next c now d). Qed.

(** The loop, in one equation: the batches it appends and the clock it
    leaves. *)
Lemma enqueue_loop_spec fuel d now ops :
  let nows := now <$> seq 0 (length (chunks fuel ops)) in
  let batches :=
    zip_with (fun h c => mk_batch ("b-" +:+ h) c false)
      (hlc_run (clock d) (device_id d) nows) (chunks fuel ops) in
  exists c, enqueue_loop fuel d now ops = set_clock (set_pending d (pending d ++ batches)) c.
Proof.
  revert d now ops. induction fuel as [|fuel IH]; intros d now ops; cbn [chunks enqueue_loop].
  { exists (clock d). simpl. rewrite app_nil_r. by destruct d. }
  destruct ops as [|op ops].
  { exists (clock d). simpl. rewrite app_nil_r. by destruct d. }
  unfold next_hlc. rewrite (hlc_next_eta (clock d)). cbn [fst snd].
  set (d1 := set_clock d (hlc_next (clock d) (now 0%nat) (device_id d)).2).
  set (ops' := drop MAX_OPS_PER_BATCH (op :: ops)).
  destruct (IH (set_pending d1 (pending d1 ++
    [mk_batch ("b-" +:+ (hlc_next (clock d) (now 0%nat) (device_id d)).1)
       (take MAX_OPS_PER_BATCH (op :: ops)) false])) (fun i => now (S i)) ops') as [c ->].
  exists c. unfold d1, set_clock, set_pending. cbn. f_equal.
  rewrite <- app_assoc. cbn. rewrite <- (fmap_S_seq 0), <- list_fmap_compose. by destruct d.
Qed.

(** What an enqueue leaves besides the queue and the clock. *)
Lemma enqueue_ops_frame d now ops :
  authoritative (enqueue_ops d now ops) = authoritative d /\
  server_seq (enqueue_ops d now ops) = server_seq d /\
  gc_floor (enqueue_ops d now ops) = gc_floor d /\
  device_id (enqueue_ops d now ops) = device_id d.
Proof.
  destruct ops as [|op ops]; [done|]. cbn [enqueue_ops].
  destruct (enqueue_loop_spec (length (op :: ops)) (bump d) now (op :: ops)) as [c ->]. done.
Qed.

Lemma enqueue_ops_pending d now ops :
  let cs := chunks (length ops) ops in
  pending (enqueue_ops d now ops) = pending d ++
    zip_with (fun h c => mk_batch ("b-" +:+ h) c false)
      (hlc_run (clock d) (device_id d) (now <$> seq 0 (length cs))) cs.
Proof.
  destruct ops as [|op ops]; [cbn; by rewrite app_nil_r|]. cbn [enqueue_ops].
  by destruct (enqueue_loop_spec (length (op :: ops)) (bump d) now (op :: ops)) as [c ->].
Qed.

Lemma length_hlc_run c d nows : length (hlc_run c d nows) = length nows.
Proof.
  revert c. induction nows as [|n nows IH]; intros c; cbn [hlc_run]; [done|].
  destruct (hlc_next c n d). simpl. by rewrite IH.
Qed.

Lemma zip_batch_ops hs cs :
  length hs = length cs ->
  pb_ops <$> zip_with (fun h c => mk_batch ("b-" +:+ h) c false) hs cs = cs.
Proof.
  intros Hl. apply fmap_zip_with_r; [done|lia].
Qed.

Lemma zip_batch_ids hs cs :
  length hs = length cs ->
  pb_batch <$> zip_with (fun h c => mk_batch ("b-" +:+ h) c false) hs cs =
    (fun h => "b-" +:+ h) <$> hs.
Proof.
  revert cs. induction hs as [|h hs IH]; intros [|c cs] Hl; try done.
  cbn. f_equal. apply IH. by injection Hl.
Qed.

(** A local write loses no op and never mints a batch over the room's cap:
    the batches it enqueues hold exactly its ops in order, one to 400 each,
    ready to push, under the ids of fresh clocks. *)
Theorem enqueue_ops_chunks d now ops :
  exists batches,
    pending (enqueue_ops d now ops) = pending d ++ batches /\
    concat (pb_ops <$> batches) = ops /\
    Forall (fun b => (1 <= length (pb_ops b) <= MAX_OPS_PER_BATCH)%nat /\ in_flight b = false) batches /\
    pb_batch <$> batches =
      (fun h => "b-" +:+ h) <$>
        hlc_run (clock d) (device_id d) (now <$> seq 0 (length batches)).
Proof.
  rewrite enqueue_ops_pending.
  destruct (chunks_spec (length ops) ops) as [Hc Hl]; [done|].
  set (cs := chunks (length ops) ops) in *.
  set (hs := hlc_run _ _ _). assert (length hs = length cs) as Hlen.
  { unfold hs. by rewrite length_hlc_run, length_fmap, length_seq. }
  eexists. split; [done|]. split_and!.
  - by rewrite zip_batch_ops.
  - rewrite Forall_forall in Hl. apply Forall_forall. intros b Hb.
    apply elem_of_lookup_zip_with in Hb as (i & h & c & -> & _ & Hci). simpl.
    split; [|done]. apply Hl. by eapply list_elem_of_lookup_2.
  - rewrite length_zip_with, Hlen, Nat.min_id. fold hs.
    by apply zip_batch_ids.
Qed.

(** ** The overlay *)

Lemma overlay_step_eq kind id row op :
  overlay_step kind id row op =
    if decide (op_kind op = kind /\ op_id op = id) then (apply_op row op).1 else row.
Proof.
  unfold overlay_step. case_decide; [|done].
  destruct (apply_op row op).1 as [next|] eqn:E; [done|].
  destruct row as [r|]; [|done]. exfalso. revert E.
  destruct (decide (op_op op = Delete)) as [Hop|Hop].
  - rewrite apply_op_delete by done. simpl. by destruct (if row_deleted r then _ else _).
  - destruct (apply_base (Some r) op) as [early|base] eqn:Hb.
    + by rewrite (apply_op_early _ _ _ Hop Hb).
    + rewrite (apply_op_write _ _ _ Hop Hb).
      edestruct (write_base_spec op base) as (r' & c & -> & _); [by eapply apply_base_live|done].
Qed.

(** All the ops a replica still has to push, in order. *)
Definition pending_ops (d : RegistryDoc) : list RowOp := concat (pb_ops <$> pending d).

Lemma overlay_raw_ops d kind id :
  overlay_raw d kind id =
    foldl (overlay_step kind id) (get_row (authoritative d) kind id) (pending_ops d).
Proof.
  unfold overlay_raw, pending_ops. generalize (get_row (authoritative d) kind id).
  induction (pending d) as [|b p IH]; intros row; simpl; [done|]. by rewrite IH, foldl_app.
Qed.

Lemma pending_ops_enqueue d now ops :
  pending_ops (enqueue_ops d now ops) = pending_ops d ++ ops.
Proof.
  unfold pending_ops. rewrite enqueue_ops_pending, fmap_app, concat_app. f_equal.
  rewrite zip_batch_ops by by rewrite length_hlc_run, length_fmap, length_seq.
  by apply chunks_spec.
Qed.

Lemma overlay_raw_enqueue d now ops kind id :
  overlay_raw (enqueue_ops d now ops) kind id =
    foldl (overlay_step kind id) (overlay_raw d kind id) ops.
Proof.
  rewrite !overlay_raw_ops, pending_ops_enqueue, foldl_app.
  by rewrite (proj1 (enqueue_ops_frame d now ops)).
Qed.

(** The clock the next write of a replica carries. *)
Definition fresh_hlc (d : RegistryDoc) (now : nat -> Z) : string :=
  (hlc_next (clock d) (now 0%nat) (device_id d)).1.

Lemma overlay_raw_set_clock d c kind id : overlay_raw (set_clock d c) kind id = overlay_raw d kind id.
Proof. done. Qed.

(** A write merges one op into the row it names and leaves every other row
    alone. *)
Lemma overlay_raw_write d now kind id op set kind' id' :
  overlay_raw (write d now kind id op set) kind' id' =
    if decide (kind = kind' /\ id = id')
    then (apply_op (overlay_raw d kind id) (mk_op kind id op (Some set) (fresh_hlc d now) None)).1
    else overlay_raw d kind' id'.
Proof.
  unfold write, next_hlc, fresh_hlc. rewrite (hlc_next_eta (clock d)).
  rewrite overlay_raw_enqueue, overlay_raw_set_clock. simpl. rewrite overlay_step_eq. simpl.
  case_decide as H; [|done]. by destruct H as [-> ->].
Qed.

Lemma overlay_deletes kind id h keys row :
  foldl (overlay_step kind id) row ((fun k => mk_op k.1 k.2 Delete None h None) <$> keys) =
    if decide ((kind, id) ∈ keys) then (apply_op row (mk_op kind id Delete None h None)).1 else row.
Proof.
  revert row. induction keys as [|[k i] keys IH]; intros row; cbn [fmap list_fmap foldl]; [done|].
  rewrite IH, overlay_step_eq. cbn.
  destruct (decide (k = kind /\ i = id)) as [[-> ->]|Hne].
  - rewrite (decide_True (P := (kind, id) ∈ (kind, id) :: keys)) by by left.
    case_decide; [|done]. by rewrite apply_op_idem.
  - apply decide_ext. rewrite elem_of_cons. naive_solver.
Qed.

(** A delete of several rows under one clock. *)
Lemma overlay_raw_delete d now keys kind id :
  overlay_raw (delete_row_ops d now keys) kind id =
    if decide ((kind, id) ∈ keys)
    then (apply_op (overlay_raw d kind id) (mk_op kind id Delete None (fresh_hlc d now) None)).1
    else overlay_raw d kind id.
Proof.
  unfold delete_row_ops, next_hlc, fresh_hlc. rewrite (hlc_next_eta (clock d)).
  by rewrite overlay_raw_enqueue, overlay_raw_set_clock, overlay_deletes.
Qed.

(** The op a write mints wins every field once its clock is newer than
    everything on the row. *)
Definition beats (h : string) (row : option RegistryRow) : bool :=
  match row with Some r => hlc_newer h (max_clock r) | None => true end.

Lemma beats_wins h r kind id op set k :
  beats h (Some r) = true -> wins (mk_op kind id op (Some set) h None) r k = true.
Proof.
  intros Hb. apply max_clock_newer in Hb as [_ Hb]. unfold wins, clock_for. simpl.
  destruct (row_clocks r !! k) as [c|] eqn:E; [|done]. simpl. eauto.
Qed.

(** The fields of the row after an upsert that beats it. *)
Definition merged_fields (row : option RegistryRow) (set : gmap string Value) (k : string)
    : option Value :=
  match set !! k with
  | Some v => if is_null v then None else Some v
  | None =>
      match row with
      | Some r => if row_deleted r then None else row_fields r !! k
      | None => None
      end
  end.

Lemma apply_upsert_beats row kind id set h :
  beats h row = true ->
  exists r', (apply_op row (mk_op kind id Upsert (Some set) h None)).1 = Some r' /\
    row_deleted r' = false /\ forall k, row_fields r' !! k = merged_fields row set k.
Proof.
  intros Hb. set (op := mk_op kind id Upsert (Some set) h None).
  assert (exists base, apply_base row op = inr base /\ (forall k, wins op base k = true) /\
    forall k, row_fields base !! k =
      match row with Some r => if row_deleted r then None else row_fields r !! k | None => None end)
    as (base & Hbase & Hw & Hf).
  { unfold apply_base. destruct row as [r|]; simpl.
    - destruct (row_deleted r) eqn:E.
      + apply max_clock_newer in Hb as [Hd _]. simpl. rewrite Hd. simpl.
        eexists; split_and!; [done| |]; intros k; unfold wins; simpl; by rewrite lookup_empty.
      + eexists; split_and!; [done| |done]. intros k. by apply beats_wins.
    - eexists; split_and!; [done| |]; intros k; unfold wins; simpl; by rewrite lookup_empty. }
  assert (op_op op <> Delete) as Hop by done. rewrite (apply_op_write _ _ _ Hop Hbase).
  pose proof (apply_base_live _ _ _ Hbase) as Hl.
  edestruct (write_base_spec op base) as (r' & c & -> & (?&?&?&Hd&?) & _ & _ & Hf'); [done|].
  exists r'. split_and!; [done|congruence|]. intros k. rewrite Hf'.
  unfold field_after, merged_fields, op_fields. simpl. rewrite Hw, Hf. by destruct (set !! k).
Qed.

Lemma overlay_row_live d kind id r :
  overlay_raw d kind id = Some r -> row_deleted r = false -> overlay_row d kind id = Some r.
Proof. intros H Hd. unfold overlay_row. by rewrite H, Hd. Qed.

Lemma overlay_row_Some d kind id r :
  overlay_row d kind id = Some r <-> overlay_raw d kind id = Some r /\ row_deleted r = false.
Proof.
  unfold overlay_row. destruct (overlay_raw d kind id) as [r'|]; [|naive_solver].
  destruct (row_deleted r') eqn:E; naive_solver congruence.
Qed.

(** Upserts of the typed API go through this lemma. *)
Lemma overlay_upsert d now kind id set :
  beats (fresh_hlc d now) (overlay_raw d kind id) = true ->
  exists r, overlay_row (write d now kind id Upsert set) kind id = Some r /\
    forall k, row_fields r !! k = merged_fields (overlay_raw d kind id) set k.
Proof.
  intros Hb. destruct (apply_upsert_beats _ kind id set _ Hb) as (r & Hr & Hl & Hf).
  exists r. split; [|done]. apply overlay_row_live; [|done].
  by rewrite overlay_raw_write, decide_True.
Qed.

Lemma overlay_row_write_other d now kind id op set kind' id' :
  (kind, id) <> (kind', id') ->
  overlay_row (write d now kind id op set) kind' id' = overlay_row d kind' id'.
Proof.
  intros Hne. unfold overlay_row. rewrite overlay_raw_write, decide_False; [done|]. naive_solver.
Qed.

Lemma overlay_update d now kind id set r :
  overlay_row d kind id = Some r ->
  beats (fresh_hlc d now) (Some r) = true ->
  exists r', overlay_row (write d now kind id Update set) kind id = Some r' /\
     forall k, row_fields r' !! k =
       match set !! k with
       | Some v => if is_null v then None else Some v
       | None => row_fields r !! k
       end.
Proof.
  intros [Hr Hl]%overlay_row_Some Hb.
  set (op := mk_op kind id Update (Some set) (fresh_hlc d now) None).
  destruct (write_base_spec op r false Hl) as (r' & c & E & (?&?&?&Hd&?) & _ & _ & Hf).
  exists r'. split.
  - apply overlay_row_live; [|congruence]. rewrite overlay_raw_write, decide_True by done.
    rewrite Hr, apply_op_live by done. unfold op in E. by rewrite E.
  - intros k. rewrite Hf. unfold field_after, op_fields. simpl.
    destruct (set !! k); [|done]. unfold op. by rewrite beats_wins.
Qed.

(** Read your own writes: an update of a visible row whose clock is newer
    than the row's shows in the next read exactly the fields it set, every
    other field and every other row unchanged. *)
Theorem update_visible d now kind id set r :
  overlay_row d kind id = Some r ->
  beats (fresh_hlc d now) (Some r) = true ->
  let d' := write d now kind id Update set in
  (exists r', overlay_row d' kind id = Some r' /\
     forall k, row_fields r' !! k =
       match set !! k with
       | Some v => if is_null v then None else Some v
       | None => row_fields r !! k
       end) /\
  (forall kind' id', (kind, id) <> (kind', id') ->
     overlay_row d' kind' id' = overlay_row d kind' id').
Proof.
  intros Hr Hb d'. split; [by apply overlay_update|].
  intros; by apply overlay_row_write_other.
Qed.

Definition sample_doc : RegistryDoc :=
  write (registry_new "dev-a") (fun _ => 1000) "chats" "c1" Upsert
    {[ "id" := Str "c1"; "title" := Str "first" ]}.

Lemma update_visible_witness :
  exists r', overlay_row (write sample_doc (fun _ => 2000) "chats" "c1" Update
                            {[ "title" := Str "second" ]}) "chats" "c1" = Some r' /\
    row_fields r' !! "title" = Some (Str "second") /\ row_fields r' !! "id" = Some (Str "c1").
Proof.
  destruct (overlay_row sample_doc "chats" "c1") as [r|] eqn:E; [|by vm_compute in E].
  destruct (update_visible sample_doc (fun _ => 2000) "chats" "c1" {[ "title" := Str "second" ]} r E)
    as [(r' & Hr' & Hf) _].
  { vm_compute in E. injection E as <-. by vm_compute. }
  exists r'. split; [exact Hr'|]. rewrite !Hf. split; [by vm_compute|].
  vm_compute in E. injection E as <-. by vm_compute.
Defined.

(** ** Ids of the overlay *)

Lemma overlay_ids_eq d kind :
  overlay_ids d kind =
    foldl (fun ids op =>
      if decide (op_kind op = kind /\ op_id op ∉ ids) then ids ++ [op_id op] else ids)
      (match authoritative d !! kind with Some m => (map_to_list m).*1 | None => [] end)
      (pending_ops d).
Proof.
  unfold overlay_ids, pending_ops.
  generalize (match authoritative d !! kind with Some m => (map_to_list m).*1 | None => [] end).
  induction (pending d) as [|b p IH]; intros ids; simpl; [done|]. by rewrite IH, foldl_app.
Qed.

Lemma collect_ids_spec kind ops ids :
  NoDup ids ->
  let ids' := foldl (fun ids op =>
      if decide (op_kind op = kind /\ op_id op ∉ ids) then ids ++ [op_id op] else ids) ids ops in
  NoDup ids' /\
  forall i, i ∈ ids' <-> i ∈ ids \/ exists op, op ∈ ops /\ op_kind op = kind /\ op_id op = i.
Proof.
  revert ids. induction ops as [|op ops IH]; intros ids Hnd; cbn [foldl].
  { split; [done|]. intros i. split; [auto|]. intros [?|(op & []%not_elem_of_nil & _)]; done. }
  set (ids1 := if decide _ then _ else _).
  assert (NoDup ids1 /\ forall i, i ∈ ids1 <-> i ∈ ids \/ op_kind op = kind /\ op_id op = i)
    as [Hnd1 H1].
  { unfold ids1. case_decide as Hd.
    - destruct Hd as [Hk Hni]. split.
      + apply NoDup_app. split_and!; [done| |apply NoDup_singleton].
        intros x Hx ->%list_elem_of_singleton. done.
      + intros i. rewrite elem_of_app, list_elem_of_singleton. naive_solver.
    - split; [done|]. intros i. split; [auto|]. intros [?|[Hk <-]]; [done|].
      destruct (decide (op_id op ∈ ids)); [done|]. naive_solver. }
  destruct (IH ids1 Hnd1) as [IHn IHi]. split; [done|]. intros i. rewrite IHi, H1.
  setoid_rewrite elem_of_cons. naive_solver.
Qed.

Lemma foldl_overlay_none kind id ops :
  (forall op, op ∈ ops -> ~ (op_kind op = kind /\ op_id op = id)) ->
  forall row, foldl (overlay_step kind id) row ops = row.
Proof.
  induction ops as [|op ops IH]; intros H row; [done|]. cbn [foldl]. rewrite IH.
  - unfold overlay_step. rewrite decide_False; [done|]. apply H. by left.
  - intros op' Hin. apply H. by right.
Qed.

Lemma overlay_rows_spec d kind r :
  NoDup (overlay_ids d kind) /\
  (r ∈ overlay_rows d kind <-> exists id, overlay_row d kind id = Some r).
Proof.
  rewrite overlay_ids_eq.
  set (auth := match authoritative d !! kind with Some m => (map_to_list m).*1 | None => [] end).
  assert (NoDup auth) as Hnd.
  { unfold auth. case_match; [apply NoDup_fst_map_to_list|constructor]. }
  destruct (collect_ids_spec kind (pending_ops d) auth Hnd) as [Hn Hi]. split; [done|].
  unfold overlay_rows. rewrite list_elem_of_omap. split; [naive_solver|].
  intros [id Hr]. exists id. split; [|done]. rewrite overlay_ids_eq. fold auth. apply Hi.
  apply overlay_row_Some in Hr as [Hr _]. rewrite overlay_raw_ops in Hr.
  destruct (decide (Exists (fun op => op_kind op = kind /\ op_id op = id) (pending_ops d))) as [He|He].
  { right. apply Exists_exists in He. naive_solver. }
  left. rewrite foldl_overlay_none in Hr.
  2:{ intros op Hin Hk. apply He, Exists_exists. eauto. }
  unfold auth, get_row in *. destruct (authoritative d !! kind) as [m|]; [|done]. simpl in Hr.
  apply list_elem_of_fmap. exists (id, r). split; [done|]. by apply elem_of_map_to_list.
Qed.

(** Listing a table and reading its rows agree: [overlay_rows] returns
    the row of every id that has one, each once. *)
Theorem overlay_rows_complete d kind r :
  NoDup (overlay_ids d kind) /\
  (r ∈ overlay_rows d kind <-> exists id, overlay_row d kind id = Some r).
Proof. apply overlay_rows_spec. Qed.

(** ** Push bookkeeping *)

(** The queue without its connection marks. *)
Definition unmarked (b : PendingBatch) : string * list RowOp := (pb_batch b, pb_ops b).

Lemma filter_marked (p : list PendingBatch) :
  filter (fun b => in_flight b = false)
    ((fun b => if in_flight b then b else mk_batch (pb_batch b) (pb_ops b) true) <$> p) = [].
Proof.
  induction p as [|b p IH]; [done|]. rewrite fmap_cons, filter_cons, decide_False; [done|].
  destruct (in_flight b) eqn:E; cbn; congruence.
Qed.

Lemma filter_cleared (p : list PendingBatch) :
  filter (fun b => in_flight b = false) ((fun b => mk_batch (pb_batch b) (pb_ops b) false) <$> p) =
    (fun b => mk_batch (pb_batch b) (pb_ops b) false) <$> p.
Proof. induction p as [|b p IH]; [done|]. by rewrite fmap_cons, filter_cons, IH, decide_True. Qed.

Lemma pending_ops_set d p :
  pb_ops <$> p = pb_ops <$> pending d -> pending_ops (set_pending d p) = pending_ops d.
Proof. unfold pending_ops. by intros <-. Qed.

(** On one connection a batch is pushed once; a disconnect makes every
    unacked batch pushable again, in order; neither ever changes what is
    queued or shown. *)
Theorem push_discipline d :
  let '(out, d') := take_pushable d in
  (take_pushable d').1 = [] /\
  unmarked <$> out = unmarked <$> filter (fun b => in_flight b = false) (pending d) /\
  unmarked <$> pending d' = unmarked <$> pending d /\
  unmarked <$> (take_pushable (mark_disconnected d')).1 = unmarked <$> pending d /\
  (forall kind id, overlay_row d' kind id = overlay_row d kind id).
Proof.
  cbn [take_pushable]. split_and!.
  - cbn. by rewrite filter_marked.
  - rewrite <- list_fmap_compose. apply list_fmap_ext. done.
  - cbn. rewrite <- list_fmap_compose. by apply list_fmap_ext; intros i b _; cbn; destruct (in_flight b).
  - cbn. rewrite filter_cleared, <- !list_fmap_compose.
    by apply list_fmap_ext; intros i b _; cbn; destruct (in_flight b).
  - intros kind id. unfold overlay_row. rewrite !overlay_raw_ops.
    rewrite pending_ops_set; [done|]. rewrite <- list_fmap_compose.
    by apply list_fmap_ext; intros i b _; cbn; destruct (in_flight b).
Qed.

(** ** Persistence *)

(** serde writes every field but [in_flight], which reads back as [false];
    serialising plain data does not fail. *)
Class StateCodecLaws (Codec : StateCodec) := {
  state_to_vec_total s : is_Some (state_to_vec s);
  state_roundtrip s bytes : state_to_vec s = Some bytes ->
    state_from_slice bytes =
      Some (mk_persisted (ps_v s) (ps_device_id s) (ps_server_seq s) (ps_gc_floor s)
              (ps_clock s) (ps_rows s)
              ((fun b => mk_batch (pb_batch b) (pb_ops b) false) <$> ps_pending s));
}.

(** A snapshot restores the replica: rows, cursor, horizon, clock and
    unacked batches survive a restart, with nothing in flight. *)
Theorem snapshot_roundtrip {Codec : StateCodec} {Laws : StateCodecLaws Codec} d :
  rows_wf (authoritative d) ->
  exists bytes, to_bytes d = inr bytes /\
    from_bytes bytes (device_id d) =
      inr (mk_doc (device_id d) (authoritative d) (server_seq d) (gc_floor d) (clock d)
             (pending (mark_disconnected d)) 0).
Proof.
  intros Hwf. unfold to_bytes.
  set (s := mk_persisted _ _ _ _ _ _ _). destruct (state_to_vec_total s) as [bytes E].
  rewrite E. exists bytes. split; [done|]. unfold from_bytes.
  rewrite (state_roundtrip s bytes E). simpl. by rewrite rebuild_rows.
Qed.

(** The snapshot kept as a value, unmarked as serde leaves it. *)
#[export] Instance value_codec : StateCodec := {|
  snapshot_bytes := PersistedState;
  state_to_vec := fun s => Some (mk_persisted (ps_v s) (ps_device_id s) (ps_server_seq s)
    (ps_gc_floor s) (ps_clock s) (ps_rows s)
    ((fun b => mk_batch (pb_batch b) (pb_ops b) false) <$> ps_pending s));
  state_from_slice := fun s => Some s;
|}.

#[export] Instance value_codec_laws : StateCodecLaws value_codec.
Proof. split; [by eexists|]. by intros s bytes [= <-]. Qed.

Lemma snapshot_roundtrip_witness :
  exists bytes, to_bytes sample_doc = inr bytes /\ from_bytes bytes "dev-a" =
      inr (mk_doc "dev-a" ∅ 0 0 (clock sample_doc) (pending (mark_disconnected sample_doc)) 0).
Proof. apply (snapshot_roundtrip sample_doc). apply rows_wf_empty. Defined.

(** ** Server frames *)

(** The seeds of a full replace: one for every local row the server did not
    send. *)
Lemma elem_of_missing_seeds a incoming op :
  op ∈ (map_to_list a ≫= fun '(kind, by_id) =>
          map_to_list by_id ≫= fun '(id, row) =>
            match get_row incoming kind id with
            | Some _ => []
            | None => [row_to_seed_op row]
            end) <->
  exists kind id r, get_row a kind id = Some r /\ get_row incoming kind id = None /\
    op = row_to_seed_op r.
Proof.
  rewrite list_elem_of_bind. split.
  - intros ([kind m] & Hin & Hm%elem_of_map_to_list).
    apply list_elem_of_bind in Hin as ([id r] & Hin & Hr%elem_of_map_to_list).
    destruct (get_row incoming kind id) eqn:E; [by apply not_elem_of_nil in Hin|].
    apply list_elem_of_singleton in Hin as ->. exists kind, id, r.
    split_and!; try done. unfold get_row. by rewrite Hm.
  - intros (kind & id & r & (m & Hm & Hr)%bind_Some & Hn & ->). exists (kind, m).
    split; [|by apply elem_of_map_to_list]. apply list_elem_of_bind. exists (id, r).
    split; [|by apply elem_of_map_to_list]. rewrite Hn. by apply list_elem_of_singleton.
Qed.

Lemma pending_ops_seed d now seed op :
  op ∈ seed -> op ∈ pending_ops (enqueue_ops d now seed).
Proof. intros H. rewrite pending_ops_enqueue. apply elem_of_app. by right. Qed.

(** What a [state] frame leaves of one row of the replica: the server's copy
    when it sent one, and otherwise the row is still there or its seed is
    queued. *)
Definition row_accounted (d' : RegistryDoc) (rows : list RegistryRow) (kind id : string)
    (r : RegistryRow) : Prop :=
  match last_for kind id rows with
  | Some r' => get_row (authoritative d') kind id = Some r'
  | None => get_row (authoritative d') kind id = Some r \/ row_to_seed_op r ∈ pending_ops d'
  end.

Lemma apply_state_delta d now seq floor rows :
  apply_state d now seq false floor rows =
    (Delta, set_cursor (set_authoritative (bump d) (foldl put_row (authoritative d) rows)) seq floor).
Proof. unfold apply_state. simpl. by rewrite foldl_put_authoritative. Qed.

(** The replica a rewound server leaves before its seeds are queued. *)
Lemma apply_state_behind d now seq floor rows :
  (seq < server_seq d)%N ->
  apply_state d now seq true floor rows =
    (Reseeded,
     enqueue_ops (set_cursor (set_authoritative (bump d) (foldl put_row (authoritative d) rows)) seq floor)
       now (row_to_seed_op <$> all_rows (authoritative d))).
Proof.
  intros H. unfold apply_state. cbn [negb server_seq bump].
  rewrite (proj2 (N.ltb_lt _ _) H), foldl_put_authoritative. f_equal.
  change (authoritative (bump d)) with (authoritative d).
  by destruct (row_to_seed_op <$> all_rows (authoritative d)).
Qed.

Lemma apply_state_replace d now seq floor rows :
  (server_seq d <= seq)%N ->
  exists seed,
    (apply_state d now seq true floor rows).2 =
      enqueue_ops (set_cursor (set_authoritative (bump d) (foldl put_row ∅ rows)) seq floor) now seed /\
    ((apply_state d now seq true floor rows).1 = Replaced <-> seed = []) /\
    forall op, op ∈ seed <-> exists kind id r, get_row (authoritative d) kind id = Some r /\
      last_for kind id rows = None /\ op = row_to_seed_op r.
Proof.
  intros H. unfold apply_state. cbn [negb server_seq bump].
  rewrite (proj2 (N.ltb_ge _ _) H).
  set (seed := _ ≫= _). exists seed. split_and!; [by destruct seed|by destruct seed|].
  intros op. unfold seed. rewrite elem_of_missing_seeds.
  setoid_rewrite get_put_rows.
  split; intros (kind & id & r & Hr & Hn & ->); exists kind, id, r; split_and!; try done.
  - by destruct (last_for kind id rows).
  - by rewrite Hn.
Qed.

(** A [state] frame never loses a row: after any of its three outcomes
    every row the replica held is the server's copy of it, still there, or
    queued as a seed; a server behind the client gets a seed for every row;
    batches already queued stay queued ahead of the seeds. *)
Theorem apply_state_keeps_rows d now seq full floor rows kind id r :
  rows_wf (authoritative d) ->
  get_row (authoritative d) kind id = Some r ->
  let '(outcome, d') := apply_state d now seq full floor rows in
  row_accounted d' rows kind id r /\
  (full = true -> (seq < server_seq d)%N ->
     outcome = Reseeded /\ row_to_seed_op r ∈ pending_ops d') /\
  (exists seeds, pending_ops d' = pending_ops d ++ seeds) /\
  cursor d' = seq.
Proof.
  intros Hwf Hr. unfold row_accounted. destruct full.
  - destruct (N.lt_ge_cases seq (server_seq d)) as [Hlt|Hge].
    + rewrite apply_state_behind by done. set (seeds := row_to_seed_op <$> _).
      assert (row_to_seed_op r ∈ seeds) as Hin.
      { apply list_elem_of_fmap. exists r. split; [done|]. apply elem_of_all_rows. eauto. }
      split_and!; [|intros _ _; split; [done|by apply pending_ops_seed]|eexists; by rewrite pending_ops_enqueue|].
      * rewrite (proj1 (enqueue_ops_frame _ _ _)). cbn [authoritative set_cursor set_authoritative].
        rewrite get_put_rows. destruct (last_for kind id rows); [done|by left].
      * unfold cursor. by rewrite (proj1 (proj2 (enqueue_ops_frame _ _ _))).
    + destruct (apply_state_replace d now seq floor rows Hge) as (seed & E & _ & Hs).
      destruct (apply_state d now seq true floor rows) as [o d']. cbn [snd] in E. subst d'.
      split_and!; [|intros _ ?; lia|eexists; by rewrite pending_ops_enqueue|].
      * rewrite (proj1 (enqueue_ops_frame _ _ _)). cbn [authoritative set_cursor set_authoritative].
        rewrite get_put_rows. destruct (last_for kind id rows) eqn:El; [done|].
        right. apply pending_ops_seed, Hs. exists kind, id, r. done.
      * unfold cursor. by rewrite (proj1 (proj2 (enqueue_ops_frame _ _ _))).
  - rewrite apply_state_delta. cbn [authoritative set_cursor set_authoritative].
    rewrite get_put_rows.
    split_and!; [destruct (last_for kind id rows); [done|by left]|done|exists []|done].
    by rewrite app_nil_r.
Qed.

Definition sample_row : RegistryRow :=
  mk_row "chats" "c9" 4 false None {[ "title" := Str "kept" ]} {[ "title" := "0000000000009-000000-x" ]}.

Definition sample_synced : RegistryDoc :=
  (apply_state (registry_new "dev-a") (fun _ => 0) 4 true 0 [sample_row]).2.

Lemma apply_state_keeps_rows_witness :
  row_to_seed_op sample_row ∈ pending_ops (apply_state sample_synced (fun _ => 50) 2 true 0 []).2.
Proof.
  assert (rows_wf (authoritative sample_synced)) as Hwf.
  { apply (put_rows_wf ∅ [sample_row]). apply rows_wf_empty. }
  pose proof (apply_state_keeps_rows sample_synced (fun _ => 50) 2 true 0 [] "chats" "c9" sample_row
    Hwf eq_refl) as H.
  destruct (apply_state sample_synced (fun _ => 50) 2 true 0 []) as [o d'].
  destruct H as (_ & H & _). apply H; [reflexivity|]. by vm_compute.
Defined.
