(* ===== verification/RegistryApi.v ===== *)
(** The typed surface of [RegistryDoc] (crates/doc/src/registry.rs): devices,
    spaces, chats and sessions as rows, and the migration from the legacy
    workspace document.

    A [Result<bool, DocError>] that cannot fail is the boolean; an operation
    that can ([serde_json::to_value] of the chat configuration) returns
    [None] on the error, before it wrote anything. *)
From S2P Require Import Prelude Hlc Json RegistryRow Entities RegistryDoc.

Definition KIND_DEVICES : string := "devices".
Definition KIND_SPACES : string := "spaces".
Definition KIND_CHATS : string := "chats".
Definition KIND_SESSIONS : string := "sessions".

(** ** Field helpers *)

(** [fields]: later entries of one key win, as collecting into a map does. *)
Definition fields (entries : list (string * Value)) : gmap string Value :=
  foldl (fun m kv => <[kv.1 := kv.2]> m) ∅ entries.

Definition opt_str (value : option string) : Value :=
  match value with Some v => Str v | None => Null end.

Section Api.
Context {C : Chrono} {K : ConfigCodec}.

Definition opt_ms (value : option DateTime) : Value :=
  match value with Some at_ => Int (timestamp_millis at_) | None => Null end.

(** [newest]: the largest timestamp present, 1 when there is none. *)
Definition newest (candidates : list (option DateTime)) : Z :=
  match omap (fun c => timestamp_millis <$> c) candidates with
  | [] => 1
  | ms :: rest => foldl Z.max ms rest
  end.

(** [row_to]. *)
Definition row_to {T} (decode : gmap string Value -> option T) (row : RegistryRow) : option T :=
  decode (row_fields row).

(** The shape the in-place writers share: nothing on a row that is not
    visible, otherwise one [Update]. *)
Definition update_existing (d : RegistryDoc) (now : nat -> Z) (kind id : string)
    (set : gmap string Value) : bool * RegistryDoc :=
  if negb (row_exists d kind id) then (false, d) else (true, write d now kind id Update set).

(** [sort_by(|a, b| a.id.cmp(&b.id))], a stable sort. *)
Definition sort_by_id {T} (id : T -> string) (l : list T) : list T :=
  merge_sort (fun a b => string_le (id a) (id b)) l.

(** ** Devices *)

Definition device_fields (device : Device) : gmap string Value :=
  fields [("id", Str (dev_id device)); ("name", Str (dev_name device));
          ("platform", Str (dev_platform device)); ("lastSeenAt", opt_ms (dev_last_seen_at device));
          ("createdAt", opt_ms (dev_created_at device)); ("version", opt_str (dev_version device))].

Definition upsert_device (d : RegistryDoc) (now : nat -> Z) (device : Device) : RegistryDoc :=
  write d now KIND_DEVICES (dev_id device) Upsert (device_fields device).

Definition rename_device (d : RegistryDoc) (now : nat -> Z) (id name : string) : bool * RegistryDoc :=
  update_existing d now KIND_DEVICES id (fields [("name", Str name)]).

Definition set_device_last_seen (d : RegistryDoc) (now : nat -> Z) (id : string) (at_ : DateTime)
    : bool * RegistryDoc :=
  update_existing d now KIND_DEVICES id (fields [("lastSeenAt", Int (timestamp_millis at_))]).

Definition read_devices (d : RegistryDoc) : list Device :=
  sort_by_id dev_id (device_from <$> read_kind raw_device_of d KIND_DEVICES).

(** ** Spaces *)

Definition space_fields (space : Space) : gmap string Value :=
  fields [("id", Str (sp_id space)); ("deviceId", Str (sp_device_id space));
          ("path", Str (sp_path space)); ("name", opt_str (sp_name space));
          ("gitDetected", Bool (sp_git_detected space));
          ("gitCheckedAt", opt_ms (sp_git_checked_at space));
          ("checkoutId", opt_str (sp_checkout_id space));
          ("createdAt", Int (timestamp_millis (sp_created_at space)))].

Definition upsert_space (d : RegistryDoc) (now : nat -> Z) (space : Space) : RegistryDoc :=
  write d now KIND_SPACES (sp_id space) Upsert (space_fields space).

Definition get_space (d : RegistryDoc) (id : string) : option Space :=
  space_from <$> (overlay_row d KIND_SPACES id ≫= row_to raw_space_of).

Definition read_spaces (d : RegistryDoc) : list Space :=
  sort_by_id sp_id (space_from <$> read_kind raw_space_of d KIND_SPACES).

Definition rename_space (d : RegistryDoc) (now : nat -> Z) (id : string) (name : option string)
    : bool * RegistryDoc :=
  update_existing d now KIND_SPACES id (fields [("name", opt_str name)]).

Definition set_space_git (d : RegistryDoc) (now : nat -> Z) (id : string) (detected : bool)
    (checkout_id : option string) (checked_at : DateTime) : bool * RegistryDoc :=
  update_existing d now KIND_SPACES id
    (fields [("gitDetected", Bool detected); ("checkoutId", opt_str checkout_id);
             ("gitCheckedAt", Int (timestamp_millis checked_at))]).

(** ** Chats *)

(** The entries every chat write shares; [config] is already a value. *)
Definition chat_entries (chat : Chat) (config : Value) : list (string * Value) :=
  [("id", Str (ch_id chat)); ("deviceId", Str (ch_device_id chat));
   ("title", opt_str (ch_title chat)); ("archived", Bool (ch_archived chat));
   ("cwd", opt_str (ch_cwd chat)); ("branch", opt_str (ch_branch chat));
   ("checkoutId", opt_str (ch_checkout_id chat)); ("config", config);
   ("lastMessagePreview", opt_str (ch_last_message_preview chat));
   ("lastMessageAt", opt_ms (ch_last_message_at chat));
   ("createdAt", Int (timestamp_millis (ch_created_at chat)));
   ("harnessSessionId", opt_str (ch_harness_session_id chat));
   ("harnessSessionCwd", opt_str (ch_harness_session_cwd chat));
   ("spaceId", opt_str (ch_space_id chat)); ("lastSeenAt", opt_ms (ch_last_seen_at chat))].

Definition chat_config_value (chat : Chat) : option Value :=
  match ch_config chat with
  | Some config => config_to_value config
  | None => Some Null
  end.

Definition chat_fields (chat : Chat) (config : Value) : gmap string Value :=
  fields (chat_entries chat config ++
          [("roomGen", match ch_room_gen chat with Some g => Int g | None => Null end)]).

Definition upsert_chat (d : RegistryDoc) (now : nat -> Z) (chat : Chat) : option RegistryDoc :=
  config ← chat_config_value chat;
  Some (write d now KIND_CHATS (ch_id chat) Upsert (chat_fields chat config)).

Definition claim_chat (d : RegistryDoc) (now : nat -> Z) (id : string) (cwd space_id : option string)
    (created_at : DateTime) : RegistryDoc :=
  let set := fields [("id", Str id); ("deviceId", Str (device_id d));
                     ("createdAt", Int (timestamp_millis created_at))] in
  let set := match cwd with Some cwd => <["cwd" := Str cwd]> set | None => set end in
  let set := match space_id with Some s => <["spaceId" := Str s]> set | None => set end in
  write d now KIND_CHATS id Upsert set.

(** [set_chat_seen]: no write when the stored stamp is already as new. *)
Definition set_chat_seen (d : RegistryDoc) (now : nat -> Z) (id : string) (at_ : DateTime)
    : bool * RegistryDoc :=
  match overlay_row d KIND_CHATS id with
  | None => (false, d)
  | Some row =>
      let current := row_fields row !! "lastSeenAt" ≫= as_i64 in
      if match current with Some ms => timestamp_millis at_ <=? ms | None => false end
      then (true, d)
      else (true, write d now KIND_CHATS id Update
                    (fields [("lastSeenAt", Int (timestamp_millis at_))]))
  end.

Definition get_chat (d : RegistryDoc) (id : string) : option Chat :=
  chat_from <$> (overlay_row d KIND_CHATS id ≫= row_to raw_chat_of).

Definition read_chats (d : RegistryDoc) : list Chat :=
  sort_by_id ch_id (chat_from <$> read_kind raw_chat_of d KIND_CHATS).

Definition rename_chat (d : RegistryDoc) (now : nat -> Z) (id title : string) : bool * RegistryDoc :=
  update_existing d now KIND_CHATS id (fields [("title", Str title)]).

Definition set_chat_archived (d : RegistryDoc) (now : nat -> Z) (id : string) (archived : bool)
    : bool * RegistryDoc :=
  update_existing d now KIND_CHATS id (fields [("archived", Bool archived)]).

Definition set_chat_room_gen (d : RegistryDoc) (now : nat -> Z) (id : string) (room_gen : Z)
    : bool * RegistryDoc :=
  update_existing d now KIND_CHATS id (fields [("roomGen", Int room_gen)]).

Definition set_chat_branch (d : RegistryDoc) (now : nat -> Z) (id branch : string)
    : bool * RegistryDoc :=
  update_existing d now KIND_CHATS id (fields [("branch", Str branch)]).

Definition set_chat_cwd (d : RegistryDoc) (now : nat -> Z) (id cwd : string) : bool * RegistryDoc :=
  update_existing d now KIND_CHATS id (fields [("cwd", Str cwd)]).

Definition set_chat_checkout (d : RegistryDoc) (now : nat -> Z) (id checkout_id : string)
    : bool * RegistryDoc :=
  update_existing d now KIND_CHATS id (fields [("checkoutId", Str checkout_id)]).

Definition set_chat_config (d : RegistryDoc) (now : nat -> Z) (id : string) (config : ChatConfig)
    : option (bool * RegistryDoc) :=
  if negb (row_exists d KIND_CHATS id) then Some (false, d)
  else
    value ← config_to_value config;
    Some (true, write d now KIND_CHATS id Update (fields [("config", value)])).

Definition set_chat_harness_session (d : RegistryDoc) (now : nat -> Z) (id session_id cwd : string)
    : bool * RegistryDoc :=
  update_existing d now KIND_CHATS id
    (fields [("harnessSessionId", Str session_id); ("harnessSessionCwd", Str cwd)]).

Definition set_chat_last_message (d : RegistryDoc) (now : nat -> Z) (id preview : string)
    (at_ : DateTime) : bool * RegistryDoc :=
  update_existing d now KIND_CHATS id
    (fields [("lastMessagePreview", Str preview); ("lastMessageAt", Int (timestamp_millis at_))]).

Definition delete_chat (d : RegistryDoc) (now : nat -> Z) (id : string) : bool * RegistryDoc :=
  (row_exists d KIND_CHATS id, delete_row_ops d now [(KIND_CHATS, id); (KIND_SESSIONS, id)]).

Record DeletedSpace := mk_deleted_space { ds_existed : bool; ds_chat_ids : list string }.

(** [delete_space]: the space, and every chat and session under it. *)
Definition delete_space (d : RegistryDoc) (now : nat -> Z) (id : string) : DeletedSpace * RegistryDoc :=
  let existed := row_exists d KIND_SPACES id in
  let chat_ids := ch_id <$> filter (fun c => ch_space_id c = Some id) (read_chats d) in
  let keys := (chat_ids ≫= fun c => [(KIND_CHATS, c); (KIND_SESSIONS, c)]) ++ [(KIND_SPACES, id)] in
  (mk_deleted_space existed chat_ids, delete_row_ops d now keys).

(** ** Sessions *)

Definition session_fields (session : Session) : gmap string Value :=
  fields [("chatId", Str (se_chat_id session)); ("deviceId", Str (se_device_id session));
          ("status", Str (status_str (se_status session)));
          ("startedAt", opt_ms (se_started_at session));
          ("updatedAt", Int (timestamp_millis (se_updated_at session)))].

Definition upsert_session (d : RegistryDoc) (now : nat -> Z) (session : Session) : RegistryDoc :=
  write d now KIND_SESSIONS (se_chat_id session) Upsert (session_fields session).

Definition read_sessions (d : RegistryDoc) : list Session :=
  sort_by_id se_chat_id (session_from <$> read_kind raw_session_of d KIND_SESSIONS).

(** ** Whole document *)

Record WorkspaceState := mk_workspace {
  ws_devices : list Device;
  ws_spaces : list Space;
  ws_chats : list Chat;
  ws_sessions : list Session;
}.

Definition read_all (d : RegistryDoc) : WorkspaceState :=
  mk_workspace (read_devices d) (read_spaces d) (read_chats d) (read_sessions d).

(** The closure [seed] of [seed_from_workspace]. *)
Definition seed_op (kind id : string) (ms : Z) (set : gmap string Value) : RowOp :=
  mk_op kind id Upsert (Some set) (encode_hlc (Z.max ms 1) 0 "migration") None.

Definition seed_chat_op (chat : Chat) : option RowOp :=
  config ← chat_config_value chat;
  Some (seed_op KIND_CHATS (ch_id chat)
          (newest [ch_last_message_at chat; ch_last_seen_at chat; Some (ch_created_at chat)])
          (fields (chat_entries chat config))).

Definition seed_ops (state : WorkspaceState) : option (list RowOp) :=
  chats ← mapM seed_chat_op (ws_chats state);
  Some (((fun dv => seed_op KIND_DEVICES (dev_id dv)
                      (newest [dev_last_seen_at dv; dev_created_at dv]) (device_fields dv))
           <$> ws_devices state) ++
        ((fun sp => seed_op KIND_SPACES (sp_id sp)
                      (newest [sp_git_checked_at sp; Some (sp_created_at sp)]) (space_fields sp))
           <$> ws_spaces state) ++
        chats ++
        ((fun se => seed_op KIND_SESSIONS (se_chat_id se)
                      (newest [Some (se_updated_at se); se_started_at se]) (session_fields se))
           <$> ws_sessions state)).

(** [ops.chunks(400)] then [enqueue_ops] of each: the i-th chunk reads the
    clock once. *)
Fixpoint enqueue_chunks (d : RegistryDoc) (now : nat -> Z) (cs : list (list RowOp)) : RegistryDoc :=
  match cs with
  | [] => d
  | c :: cs' => enqueue_chunks (enqueue_ops d now c) (fun i => now (S i)) cs'
  end.

Definition seed_from_workspace (d : RegistryDoc) (now : nat -> Z) (state : WorkspaceState)
    : option (nat * RegistryDoc) :=
  ops ← seed_ops state;
  Some (length ops, enqueue_chunks d now (chunks (length ops) ops)).

End Api.

(** ** Field maps *)

(** The value a list of entries gives a key: its last one. *)
Fixpoint find_last (k : string) (l : list (string * Value)) : option Value :=
  match l with
  | [] => None
  | (k', v) :: l' =>
      match find_last k l' with
      | Some w => Some w
      | None => if String.eqb k' k then Some v else None
      end
  end.

Lemma lookup_fields k l : fields l !! k = find_last k l.
Proof.
  unfold fields. assert (forall m : gmap string Value, foldl (fun m kv => <[kv.1 := kv.2]> m) m l !! k =
    match find_last k l with Some v => Some v | None => m !! k end) as H; [|rewrite H; by case_match].
  induction l as [|[k' v] l IH]; intros m; simpl; [done|]. rewrite IH.
  destruct (find_last k l); [done|]. destruct (String.eqb_spec k' k) as [->|Hne].
  - by rewrite lookup_insert_eq.
  - by rewrite lookup_insert_ne.
Qed.

(** A field written with [opt_str] reads back. *)
Lemma de_opt_merged {A} (f : Value -> option A) (m : gmap string Value) k v :
  m !! k = (if is_null v then None else Some v) ->
  de_opt f m k = if is_null v then Some None else Some <$> f v.
Proof. intros H. unfold de_opt. rewrite H. by destruct v. Qed.

Section ApiLemmas.
Context {C : Chrono} {CL : ChronoLaws C} {K : ConfigCodec} {KL : ConfigCodecLaws K}.

Lemma as_i64_millis t : as_i64 (Int (timestamp_millis t)) = Some (timestamp_millis t).
Proof.
  unfold as_i64. pose proof (millis_i64 t).
  by rewrite (proj2 (andb_true_iff _ _)) by (rewrite !Z.leb_le; lia).
Qed.

Lemma de_opt_str (m : gmap string Value) k o :
  m !! k = (if is_null (opt_str o) then None else Some (opt_str o)) -> de_opt as_string m k = Some o.
Proof. intros H. rewrite (de_opt_merged _ _ _ _ H). by destruct o. Qed.

Lemma de_opt_ms (m : gmap string Value) k o :
  m !! k = (if is_null (opt_ms o) then None else Some (opt_ms o)) ->
  de_opt as_i64 m k = Some (timestamp_millis <$> o).
Proof.
  intros H. rewrite (de_opt_merged _ _ _ _ H). destruct o as [t|]; [|done].
  unfold opt_ms. cbn [is_null]. by rewrite as_i64_millis.
Qed.

(** An instant rounded to what a row keeps of it. *)
Definition round_ms (t : DateTime) : DateTime := dt (timestamp_millis t).

Definition round_chat (c : Chat) : Chat :=
  mk_chat (ch_id c) (ch_device_id c) (ch_title c) (ch_archived c) (ch_cwd c) (ch_branch c)
    (ch_checkout_id c) (ch_config c) (ch_last_message_preview c) (round_ms <$> ch_last_message_at c)
    (round_ms (ch_created_at c)) (ch_harness_session_id c) (ch_harness_session_cwd c)
    (ch_space_id c) (round_ms <$> ch_last_seen_at c) (ch_room_gen c).

Lemma round_ms_millis t : timestamp_millis (round_ms t) = timestamp_millis t.
Proof.
  unfold round_ms, dt. destruct (from_millis t) as [t' E]. rewrite E. simpl. by apply millis_from.
Qed.

Lemma de_config (m : gmap string Value) chat v :
  chat_config_value chat = Some v ->
  m !! "config" = (if is_null v then None else Some v) ->
  de_opt config_of_value m "config" = Some (ch_config chat).
Proof.
  intros Hv H. rewrite (de_opt_merged _ _ _ _ H). unfold chat_config_value in Hv.
  destruct (ch_config chat) as [c|]; [|by injection Hv as <-].
  rewrite (config_not_null _ _ Hv). by rewrite (config_roundtrip _ _ Hv).
Qed.

Lemma de_room_gen (m : gmap string Value) (g : option Z) :
  from_option (fun z => 0 <= z < 2 ^ 32) True g ->
  m !! "roomGen" = (let v := match g with Some g => Int g | None => Null end in
                    if is_null v then None else Some v) ->
  de_opt (as_uint 32) m "roomGen" = Some g.
Proof.
  intros Hg H. rewrite (de_opt_merged _ _ _ _ H). destruct g as [g|]; [|done]. simpl in Hg.
  cbn [is_null]. unfold as_uint.
  by rewrite (proj2 (andb_true_iff _ _)) by (rewrite Z.leb_le, Z.ltb_lt; lia).
Qed.

(** A chat's fields, in a row that holds at least them. *)
Lemma raw_chat_roundtrip (m : gmap string Value) chat v :
  chat_config_value chat = Some v ->
  from_option (fun z => 0 <= z < 2 ^ 32) True (ch_room_gen chat) ->
  (forall k w, chat_fields chat v !! k = Some w -> m !! k = if is_null w then None else Some w) ->
  chat_from <$> raw_chat_of m = Some (round_chat chat).
Proof.
  intros Hv Hg Hm. unfold chat_fields in Hm.
  assert (forall k w, find_last k (chat_entries chat v ++
     [("roomGen", match ch_room_gen chat with Some g => Int g | None => Null end)]) = Some w ->
     m !! k = if is_null w then None else Some w) as Hk.
  { intros k w H. apply Hm. by rewrite lookup_fields. }
  clear Hm. unfold raw_chat_of, de_req, de_default.
  rewrite (Hk "id" _ eq_refl), (Hk "deviceId" _ eq_refl), (Hk "archived" _ eq_refl),
    (Hk "createdAt" _ eq_refl).
  cbn [is_null mbind option_bind as_string as_bool].
  rewrite (de_opt_str _ _ _ (Hk "title" _ eq_refl)), (de_opt_str _ _ _ (Hk "cwd" _ eq_refl)),
    (de_opt_str _ _ _ (Hk "branch" _ eq_refl)), (de_opt_str _ _ _ (Hk "checkoutId" _ eq_refl)),
    (de_config _ _ _ Hv (Hk "config" _ eq_refl)),
    (de_opt_str _ _ _ (Hk "lastMessagePreview" _ eq_refl)),
    (de_opt_ms _ _ _ (Hk "lastMessageAt" _ eq_refl)), as_i64_millis,
    (de_opt_str _ _ _ (Hk "harnessSessionId" _ eq_refl)),
    (de_opt_str _ _ _ (Hk "harnessSessionCwd" _ eq_refl)),
    (de_opt_str _ _ _ (Hk "spaceId" _ eq_refl)), (de_opt_ms _ _ _ (Hk "lastSeenAt" _ eq_refl)),
    (de_room_gen _ _ Hg (Hk "roomGen" _ eq_refl)).
  cbn. unfold chat_from, round_chat. cbn. by rewrite <- !option_fmap_compose.
Qed.

(** A chat written through the typed API reads back as it was, its
    instants rounded to milliseconds, on a fresh, live or deleted row, when
    the write's clock is newer than the row's. *)
Theorem upsert_chat_roundtrip d now chat d' :
  upsert_chat d now chat = Some d' ->
  beats (fresh_hlc d now) (overlay_raw d KIND_CHATS (ch_id chat)) = true ->
  from_option (fun z => 0 <= z < 2 ^ 32) True (ch_room_gen chat) ->
  get_chat d' (ch_id chat) = Some (round_chat chat).
Proof.
  unfold upsert_chat. intros (v & Hv & [= <-])%bind_Some Hb Hg.
  destruct (overlay_upsert _ _ KIND_CHATS (ch_id chat) (chat_fields chat v) Hb) as (r & Hr & Hf).
  unfold get_chat. rewrite Hr. cbn [mbind option_bind]. unfold row_to.
  apply (raw_chat_roundtrip _ _ v); [done|done|].
  intros k w Hw. rewrite Hf. unfold merged_fields. by rewrite Hw.
Qed.

(** A session written and read back on a row that held none: the token count
    of the last turn is not among the fields written. *)
Lemma upsert_session_reads_back d now s :
  overlay_raw d KIND_SESSIONS (se_chat_id s) = None ->
  exists r, overlay_row (upsert_session d now s) KIND_SESSIONS (se_chat_id s) = Some r /\
    session_from <$> raw_session_of (row_fields r) =
      Some (mk_session (se_chat_id s) (se_device_id s) (se_status s) (round_ms <$> se_started_at s)
              (round_ms (se_updated_at s)) None).
Proof.
  intros Hn. destruct (overlay_upsert d now KIND_SESSIONS (se_chat_id s) (session_fields s))
    as (r & Hr & Hf); [by rewrite Hn|].
  exists r. split; [exact Hr|].
  assert (forall k w, find_last k [("chatId", Str (se_chat_id s)); ("deviceId", Str (se_device_id s));
          ("status", Str (status_str (se_status s))); ("startedAt", opt_ms (se_started_at s));
          ("updatedAt", Int (timestamp_millis (se_updated_at s)))] = Some w ->
     row_fields r !! k = if is_null w then None else Some w) as Hk.
  { intros k w H. rewrite Hf. unfold merged_fields, session_fields. by rewrite lookup_fields, H. }
  assert (row_fields r !! "contextTokens" = None) as Hct.
  { rewrite Hf. unfold merged_fields, session_fields. by rewrite lookup_fields, Hn. }
  unfold raw_session_of, de_req, de_default.
  rewrite (Hk "chatId" _ eq_refl), (Hk "deviceId" _ eq_refl), (Hk "status" _ eq_refl),
    (Hk "updatedAt" _ eq_refl), (de_opt_ms _ _ _ (Hk "startedAt" _ eq_refl)).
  cbn [is_null mbind option_bind as_string]. rewrite as_i64_millis.
  unfold de_opt at 1. rewrite Hct.
  assert (as_status (Str (status_str (se_status s))) = Some (se_status s)) as ->
    by by destruct (se_status s).
  cbn. unfold session_from. cbn. by rewrite <- option_fmap_compose.
Qed.

(** The seen marker only moves forward: after [set_chat_seen] on a
    visible chat the stored stamp is the larger of the old one and the new
    one. *)
Theorem set_chat_seen_monotone d now id at_ r :
  overlay_row d KIND_CHATS id = Some r ->
  beats (fresh_hlc d now) (Some r) = true ->
  exists d' r', set_chat_seen d now id at_ = (true, d') /\
    overlay_row d' KIND_CHATS id = Some r' /\
    row_fields r' !! "lastSeenAt" ≫= as_i64 =
      Some (match row_fields r !! "lastSeenAt" ≫= as_i64 with
            | Some ms => Z.max ms (timestamp_millis at_)
            | None => timestamp_millis at_
            end).
Proof.
  intros Hr Hb. unfold set_chat_seen. rewrite Hr.
  set (cur := row_fields r !! "lastSeenAt" ≫= as_i64).
  destruct (match cur with Some ms => timestamp_millis at_ <=? ms | None => false end) eqn:E.
  - eexists _, r. split_and!; [done|done|]. fold cur. destruct cur as [ms|]; [|done].
    apply Z.leb_le in E. f_equal. lia.
  - eexists _. pose proof Hr as [Hraw Hl]%overlay_row_Some.
    destruct (overlay_update d now KIND_CHATS id
      (fields [("lastSeenAt", Int (timestamp_millis at_))]) r Hr Hb) as (r' & Hr' & Hf).
    exists r'. split_and!; [done|done|]. rewrite Hf, lookup_fields. cbn [find_last String.eqb is_null].
    change (as_i64 (Int (timestamp_millis at_)) =
      Some (match cur with Some ms => Z.max ms (timestamp_millis at_) | None => timestamp_millis at_ end)).
    rewrite as_i64_millis. f_equal. destruct cur as [ms|]; [|done]. apply Z.leb_gt in E. lia.
Qed.

(** ** Cascading deletes *)

Lemma elem_of_read_chats d c :
  c ∈ read_chats d <->
  exists id r raw, overlay_row d KIND_CHATS id = Some r /\ raw_chat_of (row_fields r) = Some raw /\
    c = chat_from raw.
Proof.
  unfold read_chats, sort_by_id, read_kind. rewrite merge_sort_Permutation, list_elem_of_fmap.
  setoid_rewrite list_elem_of_omap.
  setoid_rewrite (fun r => proj2 (overlay_rows_spec d KIND_CHATS r)). naive_solver.
Qed.

(** A delete under a clock newer than the row hides it. *)
Lemma overlay_row_deleted d now keys kind id :
  (kind, id) ∈ keys -> beats (fresh_hlc d now) (overlay_raw d kind id) = true ->
  overlay_row (delete_row_ops d now keys) kind id = None.
Proof.
  intros Hin Hb. unfold overlay_row. rewrite overlay_raw_delete, decide_True by done.
  rewrite apply_op_delete by done. unfold apply_delete. destruct (overlay_raw d kind id) as [r|]; [|done].
  simpl in Hb. destruct (row_deleted r) eqn:E; simpl.
  - apply max_clock_newer in Hb as [-> _]. done.
  - by rewrite Hb.
Qed.

Lemma overlay_row_not_deleted d now keys kind id :
  (kind, id) ∉ keys -> overlay_row (delete_row_ops d now keys) kind id = overlay_row d kind id.
Proof. intros Hin. unfold overlay_row. by rewrite overlay_raw_delete, decide_False. Qed.

(** Chat rows carry their own id, as every writer of them does. *)
Definition chat_ids_match (d : RegistryDoc) : Prop :=
  forall id r, overlay_row d KIND_CHATS id = Some r -> row_fields r !! "id" = Some (Str id).

Lemma raw_chat_id m raw id :
  raw_chat_of m = Some raw -> m !! "id" = Some (Str id) -> ch_id (chat_from raw) = id.
Proof.
  intros H Hid. unfold raw_chat_of in H. apply bind_Some in H as (i & Hi & H).
  unfold de_req in Hi. rewrite Hid in Hi. injection Hi as <-.
  repeat (apply bind_Some in H as (? & _ & H)). by injection H as <-.
Qed.

Definition cascade_keys (chat_ids : list string) (id : string) : list (string * string) :=
  (chat_ids ≫= fun c => [(KIND_CHATS, c); (KIND_SESSIONS, c)]) ++ [(KIND_SPACES, id)].

Lemma elem_of_cascade_keys chat_ids id kind i :
  (kind, i) ∈ cascade_keys chat_ids id <->
  kind = KIND_CHATS /\ i ∈ chat_ids \/ kind = KIND_SESSIONS /\ i ∈ chat_ids \/
  kind = KIND_SPACES /\ i = id.
Proof.
  unfold cascade_keys. rewrite elem_of_app, list_elem_of_bind, list_elem_of_singleton.
  setoid_rewrite elem_of_cons. setoid_rewrite list_elem_of_singleton. naive_solver.
Qed.

(** Deleting a space removes it, exactly the chats under it and their
    sessions, whatever their number; every other chat stays.  The ids it
    returns are those chats'. *)
Theorem delete_space_cascades d now id :
  chat_ids_match d ->
  (forall kind i, beats (fresh_hlc d now) (overlay_raw d kind i) = true) ->
  let '(res, d') := delete_space d now id in
  row_exists d' KIND_SPACES id = false /\
  (forall c, c ∈ read_chats d' <-> c ∈ read_chats d /\ ch_space_id c <> Some id) /\
  (forall i, i ∈ ds_chat_ids res <-> exists c, c ∈ read_chats d /\ ch_space_id c = Some id /\ ch_id c = i) /\
  (forall i, i ∈ ds_chat_ids res -> row_exists d' KIND_SESSIONS i = false).
Proof.
  intros Hids Hb. unfold delete_space, row_exists.
  set (ids := ch_id <$> _). fold (cascade_keys ids id).
  assert (forall i, i ∈ ids <-> exists c, c ∈ read_chats d /\ ch_space_id c = Some id /\ ch_id c = i)
    as Hin.
  { intros i. unfold ids. rewrite list_elem_of_fmap. setoid_rewrite list_elem_of_filter. naive_solver. }
  split_and!.
  - rewrite overlay_row_deleted; [done| |done]. apply elem_of_cascade_keys. naive_solver.
  - intros c. rewrite !elem_of_read_chats. split.
    + intros (i & r & raw & Hr & Hraw & ->).
      destruct (decide ((KIND_CHATS, i) ∈ cascade_keys ids id)) as [Hk|Hk].
      { by rewrite overlay_row_deleted in Hr. }
      rewrite overlay_row_not_deleted in Hr by done. split; [by eauto 6|].
      intros Hsp. apply Hk, elem_of_cascade_keys. left. split; [done|]. apply Hin.
      exists (chat_from raw). split_and!; [apply elem_of_read_chats; by eauto 6|done|].
      by eapply raw_chat_id; [|apply Hids].
    + intros [(i & r & raw & Hr & Hraw & ->) Hsp]. exists i, r, raw. split_and!; [|done|done].
      rewrite overlay_row_not_deleted; [done|].
      intros [[_ Hi]|[[? _]|[? _]]]%elem_of_cascade_keys; try discriminate.
      apply Hin in Hi as (c & (i' & r' & raw' & Hr' & Hraw' & ->)%elem_of_read_chats & Hsp' & Hc).
      assert (i' = i) as ->.
      { rewrite <- Hc. symmetry. by eapply raw_chat_id; [|apply Hids]. }
      congruence.
  - done.
  - intros i Hi. rewrite overlay_row_deleted; [done| |done]. apply elem_of_cascade_keys. auto.
Qed.
End ApiLemmas.

(** ** Witnesses *)

(** Configurations kept as plain JSON strings. *)
#[export] Instance string_config : ConfigCodec := {|
  ChatConfig := string;
  config_to_value := fun s => Some (Str s);
  config_of_value := as_string;
|}.

#[export] Instance string_config_laws : ConfigCodecLaws string_config.
Proof. split; by intros c v [= <-]. Qed.

Definition sample_chat : Chat :=
  mk_chat "c1" "dev-a" (Some "plan") false (Some "/w") None None (Some "cfg") None (Some 1700)
    1600 None None (Some "s1") None (Some 2).

Lemma upsert_chat_roundtrip_witness :
  get_chat (default (registry_new "") (upsert_chat sample_doc (fun _ => 2000) sample_chat)) "c1" =
    Some sample_chat.
Proof.
  apply (upsert_chat_roundtrip sample_doc (fun _ => 2000) sample_chat); [done| |done].
  by vm_compute.
Defined.

Lemma set_chat_seen_monotone_witness :
  exists d' r', set_chat_seen sample_doc (fun _ => 2000) "c1" 77 = (true, d') /\
    overlay_row d' KIND_CHATS "c1" = Some r' /\
    row_fields r' !! "lastSeenAt" ≫= as_i64 = Some 77.
Proof.
  destruct (overlay_row sample_doc KIND_CHATS "c1") as [r|] eqn:E; [|by vm_compute in E].
  destruct (set_chat_seen_monotone (C := millis_chrono) sample_doc (fun _ => 2000) "c1" 77 r E) as (d' & r' & H1 & H2 & H3).
  { vm_compute in E. injection E as <-. by vm_compute. }
  exists d', r'. split_and!; [exact H1|exact H2|]. rewrite H3.
  vm_compute in E. injection E as <-. by vm_compute.
Defined.

Definition sample_space_doc : RegistryDoc :=
  default (registry_new "dev-a")
    (upsert_chat (upsert_space (registry_new "dev-a") (fun _ => 1000)
                    (mk_space "s1" "dev-a" "/w" None false None None 1600))
       (fun _ => 1001) sample_chat).

Lemma sample_space_rows kind i :
  overlay_raw sample_space_doc kind i = None \/
  (kind, i) = (KIND_SPACES, "s1") \/ (kind, i) = (KIND_CHATS, "c1").
Proof.
  rewrite overlay_raw_ops. cbn [pending_ops].
  destruct (decide (kind = KIND_SPACES /\ i = "s1")) as [[-> ->]|H1]; [auto|].
  destruct (decide (kind = KIND_CHATS /\ i = "c1")) as [[-> ->]|H2]; [auto|].
  left. rewrite foldl_overlay_none; [done|].
  intros op Hin [Hk Hi]. apply list_elem_of_In in Hin. vm_compute in Hin.
  destruct Hin as [<-|[<-|[]]]; cbn in Hk, Hi; subst; naive_solver.
Qed.

Lemma delete_space_cascades_witness :
  ch_space_id sample_chat = Some "s1" /\
  row_exists (delete_space sample_space_doc (fun _ => 3000) "s1").2 KIND_SPACES "s1" = false.
Proof.
  split; [reflexivity|].
  pose proof (delete_space_cascades sample_space_doc (fun _ => 3000) "s1") as H.
  destruct (delete_space sample_space_doc (fun _ => 3000) "s1") as [res d'].
  apply H.
  - intros i r Hr. destruct (sample_space_rows KIND_CHATS i) as [E|[[=]|[= ->]]].
    + unfold overlay_row in Hr. by rewrite E in Hr.
    + vm_compute in Hr. injection Hr as <-. by vm_compute.
  - intros kind i. destruct (sample_space_rows kind i) as [->|[[= -> ->]|[= -> ->]]];
      by vm_compute.
Defined.
