(* ===== verification/Hub.v ===== *)
(** The room hub: crates/server/src/hub.rs.

    One broadcast channel per room.  tokio's channel keeps the last
    [CAPACITY] messages for each receiver: a slower receiver loses the oldest
    ones and learns how many on its next read. *)
From S2P Require Import Prelude.

Module Hub.

Definition CAPACITY : nat := 256.

Section Hub.
Context {T : Type}.

(** A receiver's end of the channel. *)
Record Receiver := mk_rx { rx_queue : list T; rx_lagged : nat }.

(** A room's channel: its receivers by id (a dropped receiver is removed). *)
Definition Room : Type := gmap nat Receiver.

Record HubState := mk_hub { rooms : gmap string (gmap nat Receiver); next_rx : nat }.

Definition hub_new : HubState := mk_hub ∅ 0.

(** [Hub::subscribe]: a fresh receiver sees only what is published after. *)
Definition subscribe (h : HubState) (room : string) : nat * HubState :=
  let rx := next_rx h in
  (rx, mk_hub (<[room := <[rx := mk_rx [] 0]> (default ∅ (rooms h !! room))]> (rooms h)) (S rx)).

(** The receiver end goes away with the connection. *)
Definition drop_rx (h : HubState) (room : string) (rx : nat) : HubState :=
  mk_hub (alter (delete rx) room (rooms h)) (next_rx h).

(** One message reaches one receiver. *)
Definition offer (row : T) (r : Receiver) : Receiver :=
  if decide (length (rx_queue r) < CAPACITY)%nat
  then mk_rx (rx_queue r ++ [row]) (rx_lagged r)
  else mk_rx (tail (rx_queue r) ++ [row]) (S (rx_lagged r)).

(** [Hub::publish]: sending on a channel without receivers fails, and the
    room is removed. *)
Definition publish (h : HubState) (room : string) (row : T) : HubState :=
  match rooms h !! room with
  | None => h
  | Some rxs =>
      if decide (rxs = ∅) then mk_hub (delete room (rooms h)) (next_rx h)
      else mk_hub (<[room := offer row <$> rxs]> (rooms h)) (next_rx h)
  end.

(** [Hub::open_rooms]. *)
Definition open_rooms (h : HubState) : nat := size (rooms h).

Inductive Recv := Received (row : T) | Lagged (missed : nat) | Pending.

(** [Receiver::recv]: a lag is reported once, before what is left. *)
Definition recv (r : Receiver) : Recv * Receiver :=
  match rx_lagged r with
  | S _ => (Lagged (rx_lagged r), mk_rx (rx_queue r) 0)
  | O =>
      match rx_queue r with
      | [] => (Pending, r)
      | row :: q => (Received row, mk_rx q 0)
      end
  end.

Definition receiver (h : HubState) (room : string) (rx : nat) : option Receiver :=
  rooms h !! room ≫= (.!! rx).

(** Publishing [rows] one after another. *)
Definition publish_all (h : HubState) (room : string) (l : list T) : HubState :=
  foldl (fun h row => publish h room row) h l.

Lemma receiver_publish h room room' row rx :
  receiver (publish h room row) room' rx =
    if decide (room = room') then offer row <$> receiver h room' rx else receiver h room' rx.
Proof.
  unfold receiver, publish. destruct (rooms h !! room) as [rxs|] eqn:E.
  - destruct (decide (rxs = ∅)) as [->|Hne]; simpl.
    + case_decide as Hr; [subst room'|].
      * by rewrite lookup_delete_eq, E.
      * by rewrite lookup_delete_ne.
    + case_decide as Hr; [subst room'|].
      * rewrite lookup_insert_eq, E. simpl. apply lookup_fmap.
      * by rewrite lookup_insert_ne.
  - case_decide as Hr; [subst room'|done]. by rewrite E.
Qed.

Lemma offers_queue l r :
  (length (rx_queue r) + length l <= CAPACITY)%nat ->
  foldl (fun r row => offer row r) r l = mk_rx (rx_queue r ++ l) (rx_lagged r).
Proof.
  revert r. induction l as [|row l IH]; intros r Hl; simpl in *.
  - rewrite app_nil_r. by destruct r.
  - unfold offer at 2. rewrite decide_True by lia. rewrite IH.
    + simpl. by rewrite <- app_assoc.
    + simpl. rewrite length_app. simpl. lia.
Qed.

Lemma receiver_publish_all h room room' l rx :
  receiver (publish_all h room l) room' rx =
    if decide (room = room') then (fun r => foldl (fun r row => offer row r) r l) <$> receiver h room' rx
    else receiver h room' rx.
Proof.
  revert h. induction l as [|row l IH]; intros h; simpl.
  - destruct (receiver h room' rx); by case_decide.
  - unfold publish_all in *. simpl. rewrite IH, receiver_publish.
    case_decide; [|done]. by destruct (receiver h room' rx).
Qed.

(** Rooms do not leak, and a receiver that keeps up gets everything
    published to its room in order: after up to [CAPACITY] unread messages
    its queue is exactly those appended, and receivers of other rooms are
    untouched. *)
Theorem publish_reaches_room h room l room' rx r :
  receiver h room' rx = Some r ->
  (length (rx_queue r) + length l <= CAPACITY)%nat ->
  receiver (publish_all h room l) room' rx =
    Some (if decide (room = room') then mk_rx (rx_queue r ++ l) (rx_lagged r) else r).
Proof.
  intros Hr Hl. rewrite receiver_publish_all, Hr. case_decide; [|done]. simpl. by rewrite offers_queue.
Qed.

(** A room nobody listens to is dropped by the next publish. *)
Lemma publish_drops_empty h room row :
  rooms h !! room = Some ∅ -> rooms (publish h room row) !! room = None.
Proof. intros E. unfold publish. rewrite E, decide_True by done. simpl. apply lookup_delete_eq. Qed.
End Hub.

Lemma publish_reaches_room_witness :
  let h := (subscribe (subscribe hub_new "r1").2 "r2").2 in
  receiver (publish_all h "r1" [7; 8]) "r1" 0 = Some (mk_rx [7; 8] 0) /\
  receiver (publish_all h "r1" [7; 8]) "r2" 1 = Some (mk_rx [] 0).
Proof.
  intros h. split.
  - apply (publish_reaches_room h "r1" [7; 8] "r1" 0 (mk_rx [] 0)); [done|]. simpl. unfold CAPACITY. lia.
  - apply (publish_reaches_room h "r1" [7; 8] "r2" 1 (mk_rx [] 0)); [done|]. simpl. unfold CAPACITY. lia.
Defined.

#[global] Arguments Receiver : clear implicits.
#[global] Arguments HubState : clear implicits.
End Hub.
