(* ===== verification/RegistryServer.v ===== *)
(** The server side of the registry: the protocol of
    crates/sync/src/registry_room.rs, its Postgres store
    crates/server/src/registry_db.rs and the presence table
    crates/server/src/presence.rs.

    Frames are the values the JSON texts stand for.  The tables of the store
    are maps from their primary keys; a query that fails leaves them as they
    were and is a [SyncError]. *)
From S2P Require Import Prelude Hlc Json RegistryRow RegistryDoc.

(** ** Frames *)

Inductive IncomingFrame :=
  | Hello (cursor : option N) (device : string)
  | Push (batch : string) (ops : list RowOp)
  | PresenceBeat (at_ : Z)
  | Probe.

(** [ServerFrame] of crates/sync/src/registry.rs. *)
Inductive ServerFrame :=
  | FState (seq : N) (full : bool) (floor : N) (rows : list RegistryRow) (presence : gmap string Z)
  | FRows (seq : N) (rows : list RegistryRow)
  | FAck (batch : string) (seq applied : N)
  | FPresence (device : string) (at_ : Z)
  | FProbeOk (seq : N)
  | FError (code message : string).

Record RegistryState := mk_rstate { rs_seq : N; rs_gc_floor : N }.

Record AppliedBatch := mk_applied { ab_rows : list RegistryRow; ab_seq : N }.

Inductive SyncError := Http | Protocol.

(** ** The store interface *)

(** The trait [RegistryStore]; a method returns its answer and the store it
    leaves.  [live_presence] and [note_presence] read the server's clock. *)
Class RegistryStore (S : Type) := {
  store_state : S -> string -> SyncError + RegistryState;
  store_rows_since : S -> string -> N -> SyncError + list RegistryRow;
  store_apply_batch : S -> string -> list RowOp -> SyncError + (AppliedBatch * S);
  store_live_presence : S -> Z -> string -> gmap string Z * S;
  store_note_presence : S -> Z -> string -> string -> Z -> S;
}.

(** ** One connection *)

Record RegistrySession := mk_rsession { sess_device : string; sess_ready : bool }.

Definition session_new : RegistrySession := mk_rsession "" false.
Definition ready_for (device : string) : RegistrySession := mk_rsession device true.

Record Reply := mk_reply { to_sender : list ServerFrame; broadcast : list ServerFrame }.

Definition reply_default : Reply := mk_reply [] [].

(** Whether a [hello] gets the whole table. *)
Definition hello_full (cursor : option N) (st : RegistryState) : bool :=
  match cursor with
  | None => true
  | Some c => (c <? rs_gc_floor st)%N || (rs_seq st <? c)%N
  end.

Section Respond.
Context {S : Type} {Store : RegistryStore S}.

(** [RegistrySession::respond]; [now] is the server's clock. *)
Definition respond (sess : RegistrySession) (store : S) (now : Z) (org : string)
    (frame : IncomingFrame) : (SyncError + Reply) * RegistrySession * S :=
  match frame with
  | Hello cursor device =>
      let sess := mk_rsession device true in
      match store_state store org with
      | inl e => (inl e, sess, store)
      | inr st =>
          let full := hello_full cursor st in
          match store_rows_since store org (if full then 0%N else default 0%N cursor) with
          | inl e => (inl e, sess, store)
          | inr rows =>
              let '(presence, store) := store_live_presence store now org in
              (inr (mk_reply [FState (rs_seq st) full (rs_gc_floor st) rows presence] []), sess, store)
          end
      end
  | Push batch ops =>
      if negb (sess_ready sess)
      then (inr (mk_reply [FError "bad_push" "hello first / malformed push"] []), sess, store)
      else
        match store_apply_batch store org ops with
        | inl e => (inl e, sess, store)
        | inr (applied, store) =>
            let count := N.of_nat (length (ab_rows applied)) in
            (inr (mk_reply [FAck batch (ab_seq applied) count]
                    (match ab_rows applied with
                     | [] => []
                     | rows => [FRows (ab_seq applied) rows]
                     end)), sess, store)
        end
  | PresenceBeat at_ =>
      if negb (sess_ready sess) then (inr reply_default, sess, store)
      else (inr (mk_reply [] [FPresence (sess_device sess) at_]), sess,
            store_note_presence store now org (sess_device sess) at_)
  | Probe =>
      match store_state store org with
      | inl e => (inl e, sess, store)
      | inr st => (inr (mk_reply [FProbeOk (rs_seq st)] []), sess, store)
      end
  end.
End Respond.

(** ** Presence *)

(** Thirty seconds, in milliseconds. *)
Definition TTL : Z := 30000.

(** room -> device -> (the client's stamp, the instant we received it). *)
Definition Presence : Type := gmap string (gmap string (Z * Z)).

(** [Presence::beat]. *)
Definition beat (p : gmap string (gmap string (Z * Z))) (now : Z) (org device : string) (at_ : Z)
    : gmap string (gmap string (Z * Z)) :=
  <[org := <[device := (at_, now)]> (default ∅ (p !! org))]> p.

(** [Presence::live]: expired devices are dropped by the read. *)
Definition live (p : gmap string (gmap string (Z * Z))) (now : Z) (org : string)
    : gmap string Z * gmap string (gmap string (Z * Z)) :=
  match p !! org with
  | None => (∅, p)
  | Some room =>
      let room := filter (fun dv => now - dv.2.2 < TTL) room in
      (fst <$> room, if decide (room = ∅) then delete org p else <[org := room]> p)
  end.

(** ** The Postgres store *)

Record PgRegistry := mk_pg {
  (** Whether queries get through. *)
  db_up : bool;
  (** [registry_meta], by org. *)
  meta : gmap string RegistryState;
  (** [registry_rows], by org, then (kind, id). *)
  table : gmap string (gmap (string * string) RegistryRow);
  presence : gmap string (gmap string (Z * Z));
}.

Definition org_rows (db : PgRegistry) (org : string) : gmap (string * string) RegistryRow :=
  default ∅ (table db !! org).

(** [state]: an org without a meta row is an empty room. *)
Definition pg_state (db : PgRegistry) (org : string) : SyncError + RegistryState :=
  if negb (db_up db) then inl Http else inr (default (mk_rstate 0 0) (meta db !! org)).

(** [order by seq, kind, id]. *)
Definition row_le (a b : RegistryRow) : Prop :=
  (row_seq a < row_seq b)%N \/
  row_seq a = row_seq b /\
    (row_kind a <> row_kind b /\ string_le (row_kind a) (row_kind b) \/
     row_kind a = row_kind b /\ string_le (row_id a) (row_id b)).

#[export] Instance row_le_dec a b : Decision (row_le a b).
Proof. unfold row_le. apply _. Defined.

Definition pg_rows_since (db : PgRegistry) (org : string) (since : N) : SyncError + list RegistryRow :=
  if negb (db_up db) then inl Http
  else inr (merge_sort row_le
              (filter (fun r => (since < row_seq r)%N) (map_to_list (org_rows db org)).*2)).

(** [merged.seq = next]. *)
Definition set_seq (n : N) (r : RegistryRow) : RegistryRow :=
  mk_row (row_kind r) (row_id r) n (row_deleted r) (row_del_hlc r) (row_fields r) (row_clocks r).

Definition find_row (kind id : string) (l : list RegistryRow) : option RegistryRow :=
  snd <$> list_find (keyed kind id) l.

(** One op of the batch loop: [touched] before and after. *)
Definition touch (rows : gmap (string * string) RegistryRow) (next : N) (touched : list RegistryRow)
    (op : RowOp) : list RegistryRow :=
  let before :=
    match find_row (op_kind op) (op_id op) touched with
    | Some r => Some r
    | None => rows !! (op_kind op, op_id op)
    end in
  match apply_op before op with
  | (Some merged, true) =>
      let merged := set_seq next merged in
      filter (fun r => ~ keyed (row_kind merged) (row_id merged) r) touched ++ [merged]
  | _ => touched
  end.

(** The upserts of the touched rows. *)
Definition write_rows (rows : gmap (string * string) RegistryRow) (touched : list RegistryRow)
    : gmap (string * string) RegistryRow :=
  foldl (fun m r => <[(row_kind r, row_id r) := r]> m) rows touched.

(** [apply_batch], one transaction: the meta row is created if missing, the
    sequence moves only when some row changed. *)
Definition pg_apply_batch (db : PgRegistry) (org : string) (ops : list RowOp)
    : SyncError + (AppliedBatch * PgRegistry) :=
  if negb (db_up db) then inl Http
  else
    let st := default (mk_rstate 0 0) (meta db !! org) in
    let current := rs_seq st in
    let next := (current + 1)%N in
    let touched := foldl (touch (org_rows db org) next) [] ops in
    let seq := match touched with [] => current | _ => next end in
    inr (mk_applied touched seq,
         mk_pg (db_up db) (<[org := mk_rstate seq (rs_gc_floor st)]> (meta db))
           (match touched with
            | [] => table db
            | _ => <[org := write_rows (org_rows db org) touched]> (table db)
            end) (presence db)).

#[export] Instance pg_store : RegistryStore PgRegistry := {|
  store_state := pg_state;
  store_rows_since := pg_rows_since;
  store_apply_batch := pg_apply_batch;
  store_live_presence := fun db now org =>
    let '(out, p) := live (presence db) now org in
    (out, mk_pg (db_up db) (meta db) (table db) p);
  store_note_presence := fun db now org device at_ =>
    mk_pg (db_up db) (meta db) (table db) (beat (presence db) now org device at_);
|}.

(** ** The merge does not look at sequence numbers *)

Lemma set_seq_set_seq n m r : set_seq n (set_seq m r) = set_seq n r.
Proof. done. Qed.

Lemma set_seq_self r : set_seq (row_seq r) r = r.
Proof. by destruct r. Qed.

Lemma set_field_set_seq n op base ch kv :
  set_field op (set_seq n base, ch) kv =
    (set_seq n (set_field op (base, ch) kv).1, (set_field op (base, ch) kv).2).
Proof. destruct kv as [k v]. unfold set_field. simpl. by case_match. Qed.

Lemma set_fields_set_seq n op base ch l :
  foldl (set_field op) (set_seq n base, ch) l =
    (set_seq n (foldl (set_field op) (base, ch) l).1, (foldl (set_field op) (base, ch) l).2).
Proof.
  revert base ch. induction l as [|kv l IH]; intros base ch; simpl; [done|].
  rewrite set_field_set_seq, IH. by destruct (set_field op (base, ch) kv).
Qed.

Lemma write_base_set_seq n op base ch :
  write_base op (set_seq n base) ch =
    (set_seq n <$> (write_base op base ch).1, (write_base op base ch).2).
Proof.
  unfold write_base. rewrite set_fields_set_seq.
  destruct (foldl _ _ _) as [b c]. simpl. by destruct c.
Qed.

Lemma apply_op_set_seq n r op :
  apply_op (Some (set_seq n r)) op =
    (set_seq n <$> (apply_op (Some r) op).1, (apply_op (Some r) op).2).
Proof.
  destruct (decide (op_op op = Delete)) as [Hop|Hop].
  { rewrite !apply_op_delete by done. unfold apply_delete.
    change (max_clock (set_seq n r)) with (max_clock r). simpl.
    by destruct (if row_deleted r then _ else _). }
  destruct (apply_base (Some r) op) as [early|base] eqn:Hb.
  - rewrite (apply_op_early _ _ _ Hop Hb).
    assert (exists e, apply_base (Some (set_seq n r)) op = inl e) as [e He].
    { revert Hb. simpl. repeat case_match; eauto; done. }
    by rewrite (apply_op_early _ _ _ Hop He).
  - assert (apply_base (Some (set_seq n r)) op = inr (set_seq n base)) as Hb'.
    { revert Hb. simpl. repeat case_match; naive_solver. }
    rewrite (apply_op_write _ _ _ Hop Hb), (apply_op_write _ _ _ Hop Hb').
    apply write_base_set_seq.
Qed.

(** Rows up to their sequence number. *)
Definition strip (row : option RegistryRow) : option RegistryRow := set_seq 0 <$> row.

Lemma apply_op_strip row row' op :
  strip row = strip row' ->
  strip (apply_op row op).1 = strip (apply_op row' op).1 /\
  (apply_op row op).2 = (apply_op row' op).2.
Proof.
  destruct row as [r|], row' as [r'|]; try done. intros [= E].
  assert (r = set_seq (row_seq r) r') as ->.
  { destruct r, r'. simpl in *. unfold set_seq in *. simpl in *. congruence. }
  rewrite apply_op_set_seq. simpl. split; [|done].
  unfold strip. by rewrite <- option_fmap_compose.
Qed.

Lemma overlay_step_strip kind id row row' op :
  strip row = strip row' ->
  strip (overlay_step kind id row op) = strip (overlay_step kind id row' op).
Proof.
  intros H. rewrite !overlay_step_eq. case_decide; [|done]. by apply apply_op_strip.
Qed.

Lemma overlay_ops_strip kind id ops row row' :
  strip row = strip row' ->
  strip (foldl (overlay_step kind id) row ops) = strip (foldl (overlay_step kind id) row' ops).
Proof.
  revert row row'. induction ops as [|op ops IH]; intros row row' H; simpl; [done|].
  apply IH. by apply overlay_step_strip.
Qed.

(** An unchanged flag means an unchanged row. *)
Lemma apply_op_unchanged row op : (apply_op row op).2 = false -> (apply_op row op).1 = row.
Proof.
  destruct (decide (op_op op = Delete)) as [Hop|Hop].
  { rewrite apply_op_delete by done. unfold apply_delete.
    destruct row as [r|]; [|done]. by destruct (if row_deleted r then _ else _). }
  destruct (apply_base row op) as [early|base] eqn:Hb.
  { by rewrite (apply_op_early _ _ _ Hop Hb). }
  rewrite (apply_op_write _ _ _ Hop Hb).
  pose proof (apply_base_live _ _ _ Hb) as Hl.
  set (ch := match row with None => true | Some r => _ end).
  destruct (write_base_spec op base ch Hl) as (r' & c & E & Hm & Hc & Hcl & Hf). rewrite E. simpl.
  intros ->. destruct Hc as [_ Hc].
  assert (ch = false) as Hch by (destruct ch; [by rewrite Hc in *; auto|done]).
  assert (row = Some base) as ->.
  { unfold ch in Hch. destruct row as [r|]; [|done]. rewrite Hl in Hch.
    rewrite andb_true_r in Hch. unfold apply_base in Hb. rewrite Hch in Hb. congruence. }
  pose proof (write_base_no_win op base Hl) as Hnw.
  rewrite Hch in E. rewrite Hnw in E; [congruence|].
  intros k v Hk. destruct (wins op base k) eqn:Ew; [|done].
  discriminate Hc. right. eauto.
Qed.

(** The merge keeps the row's key. *)
Lemma apply_op_keyed row op r :
  from_option (keyed (op_kind op) (op_id op)) True row ->
  (apply_op row op).1 = Some r -> keyed (op_kind op) (op_id op) r.
Proof.
  intros Hk. destruct (decide (op_op op = Delete)) as [Hop|Hop].
  { rewrite apply_op_delete by done. unfold apply_delete. destruct row as [r0|]; simpl.
    - destruct (if row_deleted r0 then _ else _); intros [= <-]; done.
    - by intros [= <-]. }
  destruct (apply_base row op) as [early|base] eqn:Hb.
  { rewrite (apply_op_early _ _ _ Hop Hb). simpl. by intros ->. }
  rewrite (apply_op_write _ _ _ Hop Hb).
  edestruct (write_base_spec op base) as (r' & c & -> & (Hk1&Hk2&_) & _); [by eapply apply_base_live|].
  intros [= <-]. unfold keyed. rewrite Hk1, Hk2. revert Hb. unfold apply_base.
  destruct row as [r0|]; simpl in *; repeat case_match; intros; simplify_eq; simpl; done.
Qed.

(** ** The batch loop *)

(** Rows stored under their own key, stamped with a sequence the room has
    reached. *)
Definition org_wf (rows : gmap (string * string) RegistryRow) (seq : N) : Prop :=
  map_Forall (fun k r => keyed k.1 k.2 r /\ (0 < row_seq r <= seq)%N) rows.

Lemma find_row_Some kind id l r : find_row kind id l = Some r -> r ∈ l /\ keyed kind id r.
Proof.
  unfold find_row. intros ([i r'] & (Hi & Hk & _)%list_find_Some & E)%fmap_Some. simpl in *. subst.
  split; [by eapply list_elem_of_lookup_2|done].
Qed.

Lemma find_row_None kind id l : find_row kind id l = None <-> Forall (fun r => ~ keyed kind id r) l.
Proof. unfold find_row. by rewrite fmap_None, list_find_None. Qed.

Lemma find_row_cons kind id x l :
  find_row kind id (x :: l) = if decide (keyed kind id x) then Some x else find_row kind id l.
Proof.
  unfold find_row. simpl. case_decide; [done|].
  by destruct (list_find (keyed kind id) l) as [[]|].
Qed.

Lemma find_row_app kind id l r :
  find_row kind id (l ++ [r]) =
    match find_row kind id l with
    | Some x => Some x
    | None => if decide (keyed kind id r) then Some r else None
    end.
Proof.
  induction l as [|x l IH]; [apply find_row_cons|].
  rewrite <- app_comm_cons, !find_row_cons, IH. by destruct (decide (keyed kind id x)).
Qed.

Lemma find_row_filter_same kind id l :
  find_row kind id (filter (fun r => ~ keyed kind id r) l) = None.
Proof. apply find_row_None, Forall_forall. intros r [Hk _]%list_elem_of_filter. done. Qed.

Lemma find_row_filter_other kind id kind' id' l :
  (kind, id) <> (kind', id') ->
  find_row kind id (filter (fun r => ~ keyed kind' id' r) l) = find_row kind id l.
Proof.
  intros Hne. induction l as [|x l IH]; [done|]. rewrite filter_cons, find_row_cons.
  destruct (decide (keyed kind' id' x)) as [Hx|Hx].
  - rewrite decide_False by tauto. rewrite IH, decide_False; [done|].
    intros [<- <-]. by destruct Hx as [<- <-].
  - rewrite decide_True by done. by rewrite find_row_cons, IH.
Qed.

Definition key_of (r : RegistryRow) : string * string := (row_kind r, row_id r).

Lemma lookup_write_rows rows l kind id :
  NoDup (key_of <$> l) ->
  write_rows rows l !! (kind, id) =
    match find_row kind id l with Some r => Some r | None => rows !! (kind, id) end.
Proof.
  unfold write_rows. induction l as [|r l IH] using rev_ind; intros Hnd; [done|].
  rewrite fmap_app in Hnd. apply NoDup_app in Hnd as (Hnd & Hdis & _).
  rewrite foldl_app, find_row_app. simpl.
  destruct (decide (keyed kind id r)) as [[<- <-]|Hk].
  - rewrite lookup_insert_eq. destruct (find_row _ _ l) as [x|] eqn:E; [|done].
    apply find_row_Some in E as [Hx [Hk1 Hk2]]. exfalso.
    apply (Hdis (key_of x)); [by apply list_elem_of_fmap_2|].
    apply list_elem_of_singleton. unfold key_of. by rewrite Hk1, Hk2.
  - rewrite lookup_insert_ne.
    + rewrite IH by done. by destruct (find_row kind id l).
    + intros [= <- <-]. by apply Hk.
Qed.

(** What the loop has merged so far, row by row. *)
Record touched_ok (rows : gmap (string * string) RegistryRow) (next : N) (ops : list RowOp)
    (touched : list RegistryRow) : Prop := {
  tk_seq : Forall (fun r => row_seq r = next) touched;
  tk_nodup : NoDup (key_of <$> touched);
  tk_rows kind id :
    strip (match find_row kind id touched with Some r => Some r | None => rows !! (kind, id) end) =
    strip (foldl (overlay_step kind id) (rows !! (kind, id)) ops);
}.

(** A reported change always comes with a row. *)
Lemma apply_op_changed row op : (apply_op row op).2 = true -> is_Some (apply_op row op).1.
Proof.
  unfold apply_op. destruct (decide (op_op op = Delete)).
  - unfold apply_delete. destruct row as [r|]; [|by eauto].
    destruct (if row_deleted r then _ else _); by eauto.
  - destruct (apply_base row op) as [early|base] eqn:Hb.
    + by rewrite (apply_base_early _ _ _ Hb).
    + destruct (match op_set op with Some _ => _ | None => _ end) as [? []]; by eauto.
Qed.

(** The row the loop reads before an op. *)
Definition before_op (rows : gmap (string * string) RegistryRow) (touched : list RegistryRow)
    (op : RowOp) : option RegistryRow :=
  match find_row (op_kind op) (op_id op) touched with
  | Some r => Some r
  | None => rows !! (op_kind op, op_id op)
  end.

Lemma before_op_keyed rows seq touched op :
  org_wf rows seq -> from_option (keyed (op_kind op) (op_id op)) True (before_op rows touched op).
Proof.
  intros Hwf. unfold before_op. destruct (find_row _ _ touched) as [r|] eqn:E.
  - by apply find_row_Some in E as [_ ?].
  - destruct (rows !! _) as [r|] eqn:E'; [|done]. apply (Hwf _ _ E').
Qed.

(** Replaying one more op over a row, against the row the loop read. *)
Lemma overlay_snoc rows next ops touched op kind id :
  touched_ok rows next ops touched ->
  strip (foldl (overlay_step kind id) (rows !! (kind, id)) (ops ++ [op])) =
    if decide (op_kind op = kind /\ op_id op = id)
    then strip (apply_op (before_op rows touched op) op).1
    else strip (foldl (overlay_step kind id) (rows !! (kind, id)) ops).
Proof.
  intros [_ _ Hr]. rewrite foldl_app. simpl. rewrite overlay_step_eq.
  case_decide as H; [|done]. destruct H as [<- <-]. symmetry. by apply apply_op_strip, Hr.
Qed.

Lemma touched_ok_unchanged rows next ops op touched :
  touched_ok rows next ops touched -> (apply_op (before_op rows touched op) op).2 = false ->
  touched_ok rows next (ops ++ [op]) touched.
Proof.
  intros Hok Hun. pose proof Hok as [Hs Hn Hr]. split; [done|done|].
  intros kind id. rewrite (overlay_snoc rows next ops touched) by done.
  rewrite (apply_op_unchanged _ _ Hun). unfold before_op.
  case_decide as H; [by destruct H as [<- <-]|apply Hr].
Qed.

Lemma touched_ok_merged rows next ops op touched merged :
  touched_ok rows next ops touched ->
  (apply_op (before_op rows touched op) op).1 = Some merged -> keyed (op_kind op) (op_id op) merged ->
  touched_ok rows next (ops ++ [op])
    (filter (fun r => ~ keyed (row_kind merged) (row_id merged) r) touched ++ [set_seq next merged]).
Proof.
  intros Hok Hm [Hk1 Hk2]. pose proof Hok as [Hs Hn Hr]. split.
  - apply Forall_app. split; [|by repeat constructor].
    rewrite Forall_forall in *. intros r [_ Hin]%list_elem_of_filter. by apply Hs.
  - rewrite fmap_app. apply NoDup_app. split_and!; [|intros k|apply NoDup_singleton].
    + eapply sublist_NoDup; [exact Hn|]. apply fmap_sublist, sublist_filter.
    + intros (r & -> & [Hnk _]%list_elem_of_filter)%list_elem_of_fmap Hk%list_elem_of_singleton.
      injection Hk as H1 H2. by apply Hnk.
  - intros kind id. rewrite find_row_app, (overlay_snoc rows next ops touched) by done.
    rewrite Hm. simpl. rewrite Hk1, Hk2.
    destruct (decide (op_kind op = kind /\ op_id op = id)) as [[<- <-]|Hne].
    + by rewrite find_row_filter_same, decide_True.
    + rewrite find_row_filter_other by naive_solver.
      rewrite (decide_False (P := keyed kind id (set_seq next merged)))
        by (unfold keyed; simpl; by rewrite Hk1, Hk2).
      rewrite <- Hr. by destruct (find_row kind id touched).
Qed.

Lemma touched_ok_step rows seq next ops op touched :
  org_wf rows seq -> touched_ok rows next ops touched ->
  touched_ok rows next (ops ++ [op]) (touch rows next touched op).
Proof.
  intros Hwf Hok. unfold touch. fold (before_op rows touched op).
  pose proof (apply_op_keyed (before_op rows touched op) op) as Hkeyed.
  pose proof (apply_op_changed (before_op rows touched op) op) as Hsome.
  pose proof (touched_ok_unchanged rows next ops op touched Hok) as Hun.
  pose proof (touched_ok_merged rows next ops op touched) as Hmerged.
  destruct (apply_op (before_op rows touched op) op) as [[merged|] []]; simpl in *; auto.
  - apply Hmerged; [done|done|]. apply Hkeyed; [by eapply before_op_keyed|done].
  - by destruct (Hsome eq_refl).
Qed.

Lemma touched_ok_all rows seq next ops :
  org_wf rows seq -> touched_ok rows next ops (foldl (touch rows next) [] ops).
Proof.
  intros Hwf. induction ops as [|op ops IH] using rev_ind; simpl.
  - split; [constructor|constructor|done].
  - rewrite foldl_app. simpl. by eapply touched_ok_step.
Qed.

(** ** The transaction *)

Definition org_state (db : PgRegistry) (org : string) : RegistryState :=
  default (mk_rstate 0 0) (meta db !! org).
Definition org_seq (db : PgRegistry) (org : string) : N := rs_seq (org_state db org).

(** What a transaction leaves, in one equation. *)
Lemma apply_batch_inv db org ops applied db' :
  pg_apply_batch db org ops = inr (applied, db') ->
  let touched := foldl (touch (org_rows db org) (org_seq db org + 1)) [] ops in
  let seq := match touched with [] => org_seq db org | _ => (org_seq db org + 1)%N end in
  db_up db = true /\ applied = mk_applied touched seq /\
  org_rows db' org = write_rows (org_rows db org) touched /\
  org_state db' org = mk_rstate seq (rs_gc_floor (org_state db org)) /\
  (forall org', org' <> org ->
     org_rows db' org' = org_rows db org' /\ org_state db' org' = org_state db org').
Proof.
  unfold pg_apply_batch, org_seq, org_state. destruct (db_up db) eqn:Hup; simpl; [|done].
  set (touched := foldl _ [] ops). intros [= <- <-]. split_and!; try done.
  - unfold org_rows. destruct touched; simpl; [done|]. by rewrite lookup_insert_eq.
  - simpl. by rewrite lookup_insert_eq.
  - intros org' Hne. unfold org_rows. simpl. rewrite lookup_insert_ne by done. split; [|done].
    destruct touched; [done|]. by rewrite lookup_insert_ne.
Qed.

(** The part of [apply_batch_inv] the properties use, with the loop's
    invariant. *)
Lemma apply_batch_touched db org ops applied db' :
  pg_apply_batch db org ops = inr (applied, db') ->
  org_wf (org_rows db org) (org_seq db org) ->
  touched_ok (org_rows db org) (org_seq db org + 1) ops (ab_rows applied) /\
  org_rows db' org = write_rows (org_rows db org) (ab_rows applied) /\
  ab_seq applied = org_seq db' org /\
  org_seq db' org = match ab_rows applied with [] => org_seq db org | _ => (org_seq db org + 1)%N end.
Proof.
  intros H Hwf. apply apply_batch_inv in H as (_ & -> & Hr & Hs & _). simpl.
  split_and!; [by eapply touched_ok_all|done| |]; unfold org_seq; by rewrite Hs.
Qed.

Lemma batch_refines db org ops applied db' :
  pg_apply_batch db org ops = inr (applied, db') ->
  org_wf (org_rows db org) (org_seq db org) ->
  (forall kind id,
     strip (org_rows db' org !! (kind, id)) =
     strip (foldl (overlay_step kind id) (org_rows db org !! (kind, id)) ops)) /\
  (forall org', org' <> org ->
     org_rows db' org' = org_rows db org' /\ org_state db' org' = org_state db org').
Proof.
  intros H Hwf. split; [|by apply apply_batch_inv in H as (_ & _ & _ & _ & ?)].
  destruct (apply_batch_touched _ _ _ _ _ H Hwf) as ([_ Hn Hr] & -> & _).
  intros kind id. rewrite lookup_write_rows by done. apply Hr.
Qed.

(** C5. The transaction implements the merge: each row of the room is what
    its ops, applied one after another in batch order, make of it; rows and
    sequence of every other room are untouched. *)
Theorem apply_batch_refines db org ops applied db' :
  pg_apply_batch db org ops = inr (applied, db') ->
  org_wf (org_rows db org) (org_seq db org) ->
  (forall kind id,
     strip (org_rows db' org !! (kind, id)) =
     strip (foldl (overlay_step kind id) (org_rows db org !! (kind, id)) ops)) /\
  (forall org', org' <> org ->
     org_rows db' org' = org_rows db org' /\ org_state db' org' = org_state db org').
Proof. apply batch_refines. Qed.

Lemma batch_seq db org ops applied db' :
  pg_apply_batch db org ops = inr (applied, db') ->
  org_wf (org_rows db org) (org_seq db org) ->
  org_wf (org_rows db' org) (org_seq db' org) /\
  ab_seq applied = org_seq db' org /\
  org_seq db' org = match ab_rows applied with [] => org_seq db org | _ => (org_seq db org + 1)%N end /\
  (forall r, r ∈ ab_rows applied <->
     exists k, org_rows db' org !! k = Some r /\ (org_seq db org < row_seq r)%N) /\
  (forall k r, org_rows db' org !! k = Some r -> (row_seq r <= org_seq db org)%N ->
     org_rows db org !! k = Some r) /\
  (forall k, is_Some (org_rows db org !! k) -> is_Some (org_rows db' org !! k)).
Proof.
  intros H Hwf. destruct (apply_batch_touched _ _ _ _ _ H Hwf) as ([Hs Hn _] & Hr & Ha & Hq).
  rewrite Forall_forall in Hs.
  assert (forall kind id r, find_row kind id (ab_rows applied) = Some r ->
    r ∈ ab_rows applied /\ keyed kind id r /\ row_seq r = org_seq db' org /\
    (org_seq db org < row_seq r)%N) as Hfind.
  { intros kind id r Hf. apply find_row_Some in Hf as [Hin Hk].
    rewrite Hq, (Hs _ Hin). destruct (ab_rows applied); [by apply not_elem_of_nil in Hin|].
    split_and!; try done. lia. }
  split_and!; [|done|done| | |].
  - intros [kind id] r Hk. rewrite Hr, lookup_write_rows in Hk by done.
    destruct (find_row kind id _) as [r'|] eqn:E; simplify_eq.
    + destruct (Hfind _ _ _ E) as (_ & ? & Hq' & ?). rewrite <- Hq'. split; [done|lia].
    + destruct (Hwf _ _ Hk) as [? ?]. split; [done|].
      assert (org_seq db org <= org_seq db' org)%N by (rewrite Hq; case_match; lia). lia.
  - intros r. split.
    + intros Hin. exists (key_of r). unfold key_of. rewrite Hr, lookup_write_rows by done.
      destruct (find_row (row_kind r) (row_id r) (ab_rows applied)) as [r'|] eqn:E.
      * pose proof (Hfind _ _ _ E) as (Hin' & [Hk1 Hk2] & _ & ?).
        assert (r' = r) as ->; [|done].
        apply (NoDup_fmap_inj_on key_of (ab_rows applied)); try done.
        unfold key_of. by rewrite Hk1, Hk2.
      * rewrite find_row_None, Forall_forall in E. by destruct (E r Hin).
    + intros ([kind id] & Hk & Hlt). rewrite Hr, lookup_write_rows in Hk by done.
      destruct (find_row kind id _) as [r'|] eqn:E; simplify_eq.
      * by apply Hfind in E as [? _].
      * destruct (Hwf _ _ Hk) as [_ ?]. lia.
  - intros [kind id] r Hk Hle. rewrite Hr, lookup_write_rows in Hk by done.
    destruct (find_row kind id _) as [r'|] eqn:E; simplify_eq; [|done].
    apply Hfind in E as (_ & _ & _ & ?). lia.
  - intros [kind id] Hk. rewrite Hr, lookup_write_rows by done. by destruct (find_row kind id _).
Qed.

(** Sequence numbers drive delta sync: the room's sequence moves by one
    exactly when a row changed, the ack carries it, the broadcast rows are
    exactly the rows newer than the old sequence, rows not newer than it are
    untouched, and no row is ever removed. *)
Theorem apply_batch_seq db org ops applied db' :
  pg_apply_batch db org ops = inr (applied, db') ->
  org_wf (org_rows db org) (org_seq db org) ->
  org_wf (org_rows db' org) (org_seq db' org) /\
  ab_seq applied = org_seq db' org /\
  org_seq db' org = match ab_rows applied with [] => org_seq db org | _ => (org_seq db org + 1)%N end /\
  (forall r, r ∈ ab_rows applied <->
     exists k, org_rows db' org !! k = Some r /\ (org_seq db org < row_seq r)%N) /\
  (forall k r, org_rows db' org !! k = Some r -> (row_seq r <= org_seq db org)%N ->
     org_rows db org !! k = Some r) /\
  (forall k, is_Some (org_rows db org !! k) -> is_Some (org_rows db' org !! k)).
Proof. apply batch_seq. Qed.

(** ** Delta sync *)

Definition db_wf (db : PgRegistry) : Prop := forall org, org_wf (org_rows db org) (org_seq db org).

(** Batches of any room, one transaction after another. *)
Inductive db_steps : PgRegistry -> PgRegistry -> Prop :=
  | db_refl db : db_steps db db
  | db_step db db1 org ops applied db2 :
      db_steps db db1 -> pg_apply_batch db1 org ops = inr (applied, db2) -> db_steps db db2.

Lemma db_steps_spec db db' :
  db_steps db db' -> db_wf db ->
  db_wf db' /\ db_up db' = db_up db /\
  forall org, (org_seq db org <= org_seq db' org)%N /\
    rs_gc_floor (org_state db' org) = rs_gc_floor (org_state db org) /\
    (forall k r, org_rows db' org !! k = Some r -> (row_seq r <= org_seq db org)%N ->
       org_rows db org !! k = Some r) /\
    (forall k, is_Some (org_rows db org !! k) -> is_Some (org_rows db' org !! k)).
Proof.
  intros Hst Hwf. induction Hst as [db|db db1 org0 ops applied db2 _ IH H].
  { split_and!; [done|done|]. intros org. split_and!; done. }
  destruct (IH Hwf) as (Hwf1 & Hup & Hmono). clear IH.
  destruct (batch_seq _ _ _ _ _ H (Hwf1 org0)) as (Hwf2 & _ & Hq & _ & Hold & Hkeep).
  pose proof (apply_batch_inv _ _ _ _ _ H) as (Hu & _ & _ & Hst & Hother).
  split_and!.
  - intros org. destruct (decide (org = org0)) as [->|Hne]; [done|].
    destruct (Hother org Hne) as [Hr Hs]. unfold org_seq. rewrite Hr, Hs. apply Hwf1.
  - rewrite <- Hup, Hu. revert H. unfold pg_apply_batch. rewrite Hu. simpl. intros [= _ <-]. done.
  - intros org. destruct (Hmono org) as (Hle & Hg & Ho & Hk).
    destruct (decide (org = org0)) as [->|Hne].
    + assert (org_seq db1 org0 <= org_seq db2 org0)%N by (rewrite Hq; destruct (ab_rows applied); lia).
      split_and!; [lia|by rewrite Hst| |by eauto].
      intros k r Hr Hseq. apply Ho; [|done]. apply Hold; [done|lia].
    + destruct (Hother org Hne) as [Hr Hs]. unfold org_seq in *. rewrite Hr, Hs. done.
Qed.

(** A replica that holds exactly the room's rows. *)
Definition mirrors (d : RegistryDoc) (rows : gmap (string * string) RegistryRow) : Prop :=
  forall kind id, get_row (authoritative d) kind id = rows !! (kind, id).

Lemma elem_of_rows_since db org since r l :
  pg_rows_since db org since = inr l ->
  r ∈ l <-> exists k, org_rows db org !! k = Some r /\ (since < row_seq r)%N.
Proof.
  unfold pg_rows_since. destruct (db_up db); simpl; [|done]. intros [= <-].
  rewrite merge_sort_Permutation, list_elem_of_filter, list_elem_of_fmap. split.
  - intros (Hlt & [k r'] & -> & Hin%elem_of_map_to_list). eauto.
  - intros (k & Hk%elem_of_map_to_list & Hlt). split; [done|]. by exists (k, r).
Qed.

(** The rows of a reply, by key. *)
Lemma last_for_rows_since db org since l kind id :
  org_wf (org_rows db org) (org_seq db org) -> pg_rows_since db org since = inr l ->
  last_for kind id l =
    match org_rows db org !! (kind, id) with
    | Some r => if decide (since < row_seq r)%N then Some r else None
    | None => None
    end.
Proof.
  intros Hwf Hl. destruct (last_for kind id l) as [r|] eqn:E.
  - apply last_for_Some in E as [Hin Hk].
    apply (elem_of_rows_since _ _ _ _ _ Hl) in Hin as ([kind' id'] & Hr & Hlt).
    destruct (Hwf _ _ Hr) as [[Hk1 Hk2] _]. destruct Hk as [Hk3 Hk4]. simpl in *. subst.
    rewrite Hr. by rewrite decide_True.
  - destruct (org_rows db org !! (kind, id)) as [r|] eqn:Hr; [|done].
    case_decide as Hlt; [|done]. exfalso. apply (last_for_None _ _ _ E r).
    + apply (elem_of_rows_since _ _ _ _ _ Hl). eauto.
    + exact (proj1 (Hwf _ _ Hr)).
Qed.

(** Applying the rows newer than the replica's cursor to a replica of an
    earlier state. *)
Lemma mirrors_delta d db0 db1 org l :
  db_wf db0 -> db_steps db0 db1 -> mirrors d (org_rows db0 org) ->
  pg_rows_since db1 org (org_seq db0 org) = inr l ->
  forall kind id,
    match last_for kind id l with Some r => Some r | None => get_row (authoritative d) kind id end =
    org_rows db1 org !! (kind, id).
Proof.
  intros Hwf Hst Hm Hl kind id. destruct (db_steps_spec _ _ Hst Hwf) as (Hwf1 & _ & H).
  destruct (H org) as (_ & _ & Hold & Hkeep).
  rewrite (last_for_rows_since _ _ _ _ kind id (Hwf1 org) Hl), Hm.
  destruct (org_rows db1 org !! (kind, id)) as [r|] eqn:E.
  - case_decide as Hlt; [done|]. apply Hold; [done|lia].
  - destruct (org_rows db0 org !! (kind, id)) as [r|] eqn:E0; [|done].
    destruct (Hkeep (kind, id)) as [? ?]; [by eexists|congruence].
Qed.

Lemma mirrors_full db org l :
  db_wf db -> pg_rows_since db org 0 = inr l ->
  forall kind id, last_for kind id l = org_rows db org !! (kind, id).
Proof.
  intros Hwf Hl kind id. rewrite (last_for_rows_since _ _ _ _ kind id (Hwf org) Hl).
  destruct (org_rows db org !! (kind, id)) as [r|] eqn:E; [|done].
  rewrite decide_True; [done|]. apply (Hwf org) in E as [_ ?]. lia.
Qed.

Lemma apply_state_mirrors d nows db0 db1 org full l :
  db_wf db0 -> db_steps db0 db1 -> mirrors d (org_rows db0 org) ->
  server_seq d = org_seq db0 org ->
  pg_rows_since db1 org (if full : bool then 0%N else server_seq d) = inr l ->
  let d' := (apply_state d nows (org_seq db1 org) full (rs_gc_floor (org_state db1 org)) l).2 in
  mirrors d' (org_rows db1 org) /\ pending_ops d' = pending_ops d /\ cursor d' = org_seq db1 org.
Proof.
  intros Hwf Hst Hm Hc Hl d'. unfold d'. clear d'. destruct (db_steps_spec _ _ Hst Hwf) as (Hwf1 & _ & H).
  destruct (H org) as (Hle & _ & _ & Hkeep). destruct full.
  - destruct (apply_state_replace d nows (org_seq db1 org) (rs_gc_floor (org_state db1 org)) l)
      as (seed & -> & _ & Hs); [by rewrite Hc|].
    assert (seed = []) as ->.
    { destruct seed as [|op seed]; [done|]. exfalso.
      destruct (proj1 (Hs op)) as (kind & id & r & Hr & Hn & _); [by left|].
      rewrite (mirrors_full _ _ _ Hwf1 Hl) in Hn. rewrite Hm in Hr.
      destruct (Hkeep (kind, id)) as [? ?]; [by eexists|congruence]. }
    split_and!; [|done|done]. intros kind id. simpl.
    rewrite get_put_rows, (mirrors_full _ _ _ Hwf1 Hl). by destruct (org_rows db1 org !! (kind, id)).
  - rewrite apply_state_delta. split_and!; [|done|done]. intros kind id. simpl.
    rewrite get_put_rows. rewrite Hc in Hl. by apply (mirrors_delta d db0).
Qed.

(** Reconnecting catches a replica up: one that mirrored the room at its
    cursor, whatever batches were applied since, mirrors it again after the
    reply to its [hello] (with its cursor or without one), full or delta, and
    keeps every unacked op. *)
Theorem hello_catches_up d nows db0 db1 org now sess cur device :
  db_wf db0 -> db_up db0 = true -> db_steps db0 db1 -> mirrors d (org_rows db0 org) ->
  server_seq d = org_seq db0 org -> cur = None \/ cur = Some (cursor d) ->
  exists seq full floor rows presence sess' db2,
    respond sess db1 now org (Hello cur device) =
      (inr (mk_reply [FState seq full floor rows presence] []), sess', db2) /\
    let d' := (apply_state d nows seq full floor rows).2 in
    mirrors d' (org_rows db1 org) /\ pending_ops d' = pending_ops d /\ cursor d' = org_seq db1 org.
Proof.
  intros Hwf Hup Hst Hm Hc Hcur. destruct (db_steps_spec _ _ Hst Hwf) as (_ & Hup1 & _).
  unfold respond. cbn [store_state pg_store store_rows_since store_live_presence].
  unfold pg_state. rewrite Hup1, Hup. cbn [negb]. fold (org_state db1 org).
  set (full := hello_full cur (org_state db1 org)).
  destruct (pg_rows_since db1 org (if full then 0%N else default 0%N cur)) as [e|l] eqn:El.
  { unfold pg_rows_since in El. by rewrite Hup1, Hup in El. }
  destruct (live (presence db1) now org) as [out p] eqn:Ep.
  eexists _, full, _, l, out, _, _. split; [done|].
  eapply apply_state_mirrors; try done. rewrite <- El. f_equal.
  destruct Hcur as [->| ->]; [done|]. simpl. done.
Qed.

(** Nothing is accepted before [hello]: a push is answered with an error
    and a presence beat is ignored, neither touching the store; a probe or a
    [hello] never writes rows. *)
Theorem respond_guards sess db now org frame :
  match respond sess db now org frame with
  | (res, sess', db') =>
      (sess_ready sess = false -> match frame with Hello _ _ => True | _ => sess' = sess /\ db' = db end) /\
      match frame with
      | Push _ _ => sess_ready sess = false ->
                    res = inr (mk_reply [FError "bad_push" "hello first / malformed push"] [])
      | PresenceBeat _ => sess_ready sess = false -> res = inr reply_default
      | _ => meta db' = meta db /\ table db' = table db
      end
  end.
Proof.
  unfold respond. destruct frame; cbn.
  - unfold pg_state, pg_rows_since. destruct (db_up db); cbn; [|done].
    by destruct (live (presence db) now org).
  - unfold pg_apply_batch. destruct (sess_ready sess); cbn; [|done]. by destruct (db_up db).
  - by destruct (sess_ready sess).
  - unfold pg_state. by destruct (db_up db).
Qed.

(** A device is listed as online exactly when its last beat reached the
    server less than [TTL] ago by the server's own clock, whatever instant
    the device claims. *)
Theorem presence_by_server_clock p t1 t2 org device at_ :
  (live (beat p t1 org device at_) t2 org).1 !! device =
    if decide (t2 - t1 < TTL) then Some at_ else None.
Proof.
  unfold live, beat. rewrite lookup_insert_eq. cbn. rewrite lookup_fmap, map_lookup_filter.
  rewrite lookup_insert_eq. cbn. case_decide as H.
  - by rewrite option_guard_True.
  - by rewrite option_guard_False.
Qed.

(** ** Witnesses *)

Definition empty_db : PgRegistry := mk_pg true ∅ ∅ ∅.

Lemma empty_db_wf : db_wf empty_db.
Proof. intros org. apply map_Forall_empty. Qed.

Definition sample_ops : list RowOp :=
  [mk_op "chats" "c1" Upsert (Some {[ "title" := Str "a" ]}) "1-x" None;
   mk_op "chats" "c1" Update (Some {[ "title" := Str "b" ]}) "2-x" None;
   mk_op "chats" "c2" Update (Some {[ "title" := Str "c" ]}) "3-x" None].

Definition sample_db : PgRegistry :=
  match pg_apply_batch empty_db "org" sample_ops with inr (_, db) => db | inl _ => empty_db end.

Definition sample_applied : AppliedBatch :=
  match pg_apply_batch empty_db "org" sample_ops with inr (ap, _) => ap | inl _ => mk_applied [] 0 end.

Lemma sample_batch : pg_apply_batch empty_db "org" sample_ops = inr (sample_applied, sample_db).
Proof. reflexivity. Qed.

Lemma apply_batch_refines_witness :
  strip (org_rows sample_db "org" !! ("chats", "c1")) =
    strip (foldl (overlay_step "chats" "c1") None sample_ops) /\
  (org_rows sample_db "org" !! ("chats", "c1") ≫= fun r => row_fields r !! "title") = Some (Str "b").
Proof.
  split; [|by vm_compute].
  apply (apply_batch_refines empty_db "org" sample_ops sample_applied sample_db sample_batch).
  apply empty_db_wf.
Defined.

Lemma apply_batch_seq_witness : org_seq sample_db "org" = 1%N /\ length (ab_rows sample_applied) = 1%nat.
Proof.
  split; [|by vm_compute].
  destruct (apply_batch_seq empty_db "org" sample_ops sample_applied sample_db sample_batch
    (empty_db_wf "org")) as (_ & _ & H & _).
  rewrite H. by vm_compute.
Defined.

Lemma hello_catches_up_witness :
  exists seq full floor rows presence sess' db2,
    respond session_new sample_db 0 "org" (Hello (Some 0%N) "dev-a") =
      (inr (mk_reply [FState seq full floor rows presence] []), sess', db2) /\
    let d' := (apply_state (registry_new "dev-a") (fun _ => 0) seq full floor rows).2 in
    mirrors d' (org_rows sample_db "org") /\ pending_ops d' = [] /\ cursor d' = org_seq sample_db "org".
Proof.
  apply (hello_catches_up (registry_new "dev-a") (fun _ => 0) empty_db sample_db "org").
  - apply empty_db_wf.
  - done.
  - eapply db_step; [apply db_refl|apply sample_batch].
  - intros kind id. done.
  - done.
  - by right.
Defined.
