(* ===== verification/RegistryClient.v ===== *)
(** The registry transport of the client: [Actor] of
    crates/sync/src/registry.rs, and the socket end of the server,
    crates/server/src/registry_ws.rs and registry_http.rs.

    The actor drives one [RegistryDoc]; its rows, presence map, counters and
    emitted events are explicit state.  Instants are milliseconds. *)
From S2P Require Import Prelude Hlc Json RegistryRow RegistryDoc Hub RegistryServer.

(** ** State *)

Inductive RegistryEvent := Connected | Disconnected | Applied | PresenceEvent.

#[export] Instance RegistryEvent_eq_dec : EqDecision RegistryEvent.
Proof. solve_decision. Defined.

Record Stats := mk_stats {
  connected : bool;
  last_pushed_ms : Z;
  last_ack_ms : Z;
  rejoins : N;
  probes : N;
  full_resyncs : N;
  disconnects : N;
  rejected : N;
  retry_at_ms : Z;
  dial_seq : N;
  last_failure : option string;
}.

Definition stats_default : Stats := mk_stats false 0 0 0 0 0 0 0 0 0 None.

Record Actor := mk_actor {
  act_doc : RegistryDoc;
  act_device : string;
  act_presence : gmap string (Z * Z);
  act_stats : Stats;
  act_events : list RegistryEvent;
}.

Definition with_doc (a : Actor) (d : RegistryDoc) : Actor :=
  mk_actor d (act_device a) (act_presence a) (act_stats a) (act_events a).
Definition with_presence (a : Actor) (p : gmap string (Z * Z)) : Actor :=
  mk_actor (act_doc a) (act_device a) p (act_stats a) (act_events a).
Definition with_stats (a : Actor) (s : Stats) : Actor :=
  mk_actor (act_doc a) (act_device a) (act_presence a) s (act_events a).
Definition emit (a : Actor) (e : RegistryEvent) : Actor :=
  mk_actor (act_doc a) (act_device a) (act_presence a) (act_stats a) (act_events a ++ [e]).

Definition stat_pushed (a : Actor) (ms : Z) : Actor :=
  let s := act_stats a in
  with_stats a (mk_stats (connected s) ms (last_ack_ms s) (rejoins s) (probes s) (full_resyncs s)
    (disconnects s) (rejected s) (retry_at_ms s) (dial_seq s) (last_failure s)).
Definition stat_ack (a : Actor) (ms : Z) : Actor :=
  let s := act_stats a in
  with_stats a (mk_stats (connected s) (last_pushed_ms s) ms (rejoins s) (probes s) (full_resyncs s)
    (disconnects s) (rejected s) (retry_at_ms s) (dial_seq s) (last_failure s)).
Definition stat_rejected (a : Actor) : Actor :=
  let s := act_stats a in
  with_stats a (mk_stats (connected s) (last_pushed_ms s) (last_ack_ms s) (rejoins s) (probes s)
    (full_resyncs s) (disconnects s) (rejected s + 1) (retry_at_ms s) (dial_seq s) (last_failure s)).
Definition stat_probe (a : Actor) : Actor :=
  let s := act_stats a in
  with_stats a (mk_stats (connected s) (last_pushed_ms s) (last_ack_ms s) (rejoins s) (probes s + 1)
    (full_resyncs s) (disconnects s) (rejected s) (retry_at_ms s) (dial_seq s) (last_failure s)).

(** Every device of a [state] frame, received at [instant]. *)
Definition merge_presence (p : gmap string (Z * Z)) (instant : Z) (beats : gmap string Z)
    : gmap string (Z * Z) :=
  ((fun at_ => (at_, instant)) <$> beats) ∪ p.

(** [RegistryClient::presence]: entries within thirty seconds. *)
Definition PRESENCE_TTL : Z := 30000.

Definition client_presence (a : Actor) (now : Z) : gmap string Z :=
  fst <$> filter (fun dv => now - dv.2.2 < PRESENCE_TTL) (act_presence a).

(** ** The session *)

(** The cursor of the [hello]: none only for a replica that never did
    anything. *)
Definition hello_cursor (d : RegistryDoc) : option N :=
  if (cursor d =? 0)%N && (pending_len d =? 0)%nat && (generation d =? 0)%N
  then None else Some (cursor d).

Definition hello_frame (a : Actor) : IncomingFrame := Hello (hello_cursor (act_doc a)) (act_device a).

(** Joining: the [state] that answers the [hello].  [first] is whether the
    ready signal was still to be sent; [now] are the wall-clock readings of
    the replica, [ms] and [instant] those of the actor. *)
Definition join (a : Actor) (now : nat -> Z) (ms instant : Z) (first : bool) (seq : N) (full : bool)
    (floor : N) (rows : list RegistryRow) (beats : gmap string Z) : Actor :=
  let a := with_doc a (apply_state (act_doc a) now seq full floor rows).2 in
  let a := with_presence a (merge_presence (act_presence a) instant beats) in
  let s := act_stats a in
  let a := with_stats a (mk_stats true ms (last_ack_ms s)
             (if first then rejoins s else rejoins s + 1)%N (probes s)
             (if full then full_resyncs s + 1 else full_resyncs s)%N
             (disconnects s) (rejected s) 0 (dial_seq s) None) in
  emit (emit a Connected) Applied.

(** [push_pending]: the frames it puts on the wire. *)
Definition push_pending (a : Actor) : list IncomingFrame * Actor :=
  let '(batches, d) := take_pushable (act_doc a) in
  ((fun b => Push (pb_batch b) (pb_ops b)) <$> batches, with_doc a d).

(** [handle_frame] on a frame that parsed. *)
Definition handle_frame (a : Actor) (now : nat -> Z) (ms instant : Z) (frame : ServerFrame) : Actor :=
  match frame with
  | FRows seq rows => emit (stat_pushed (with_doc a (apply_rows (act_doc a) seq rows)) ms) Applied
  | FAck batch seq _ => emit (stat_ack (with_doc a (ack_batch (act_doc a) batch seq).2) ms) Applied
  | FPresence device at_ =>
      emit (with_presence a (<[device := (at_, instant)]> (act_presence a))) PresenceEvent
  | FProbeOk _ => stat_pushed a ms
  | FState seq full floor rows beats =>
      let a := with_doc a (apply_state (act_doc a) now seq full floor rows).2 in
      emit (with_presence a (merge_presence (act_presence a) instant beats)) Applied
  | FError _ _ => stat_rejected a
  end.

(** [send_probe]: arms the deadline unless one is already running. *)
Definition PROBE_DEADLINE : Z := 10000.

Definition send_probe (a : Actor) (instant : Z) (deadline : option Z)
    : IncomingFrame * Actor * option Z :=
  (Probe, stat_probe a,
   match deadline with Some t => Some t | None => Some (instant + PROBE_DEADLINE) end).

(** ** Reconnecting *)

Definition BACKOFF_BASE : Z := 250.
Definition BACKOFF_CAP : Z := 16000.
Definition STABLE_RESET : Z := 30000.
Definition OFFLINE_PARK_RECHECK : Z := 30000.

Inductive Waited := Elapsed | Woke | Shutdown.

Definition note_failure (a : Actor) (msg : string) : Actor :=
  let s := act_stats a in
  with_stats a (mk_stats (connected s) (last_pushed_ms s) (last_ack_ms s) (rejoins s) (probes s)
    (full_resyncs s) (disconnects s) (rejected s) (retry_at_ms s) (dial_seq s) (Some msg)).

(** The wait [wait_backoff] sleeps, and the backoff after it ([None] stops
    the actor). *)
Definition backoff_wait (offline : bool) (backoff : Z) : Z :=
  if offline then Z.max backoff OFFLINE_PARK_RECHECK else backoff.

Definition next_backoff (w : Waited) (backoff : Z) : option Z :=
  match w with
  | Shutdown => None
  | Woke => Some BACKOFF_BASE
  | Elapsed => Some (Z.min (backoff * 2) BACKOFF_CAP)
  end.

(** The end of a session that did not stop the actor: the backoff the next
    wait starts from. *)
Definition session_end (a : Actor) (backoff lived : Z) : Actor * Z :=
  let a := with_doc a (mark_disconnected (act_doc a)) in
  let s := act_stats a in
  let joined := connected s in
  let a := with_stats a (mk_stats false (last_pushed_ms s) (last_ack_ms s) (rejoins s) (probes s)
             (full_resyncs s) (disconnects s + 1) (rejected s) (retry_at_ms s) (dial_seq s)
             (last_failure s)) in
  let a := emit (note_failure a "connection dropped") Disconnected in
  (a, if joined && (STABLE_RESET <=? lived) then BACKOFF_BASE else backoff).

(** ** Plain HTTP *)

(** [post_push] and [get_rows] of the server: one request, one reply, and what
    is published to the room. *)
Definition post_push (db : PgRegistry) (now : Z) (org device batch : string) (ops : list RowOp)
    : option ServerFrame * list ServerFrame * PgRegistry :=
  match respond (ready_for device) db now org (Push batch ops) with
  | (inr reply, _, db) => (head (to_sender reply), broadcast reply, db)
  | (inl _, _, db) => (None, [], db)
  end.

Definition get_rows (db : PgRegistry) (now : Z) (org device : string) (since : N)
    : option ServerFrame * PgRegistry :=
  match respond session_new db now org (Hello (Some since) device) with
  | (inr reply, _, db) => (head (to_sender reply), db)
  | (inl _, _, db) => (None, db)
  end.

(** The push loop of [spawn_offline_sync]: stops at the first failure. *)
Fixpoint offline_push (a : Actor) (db : PgRegistry) (now ms : Z) (org : string)
    (batches : list PendingBatch) : Actor * PgRegistry * bool :=
  match batches with
  | [] => (a, db, false)
  | b :: rest =>
      match post_push db now org (act_device a) (pb_batch b) (pb_ops b) with
      | (Some (FAck batch seq _), _, db) =>
          offline_push (emit (stat_ack (with_doc a (ack_batch (act_doc a) batch seq).2) ms) Applied)
            db now ms org rest
      | (Some _, _, db) => offline_push a db now ms org rest
      | (None, _, db) => (a, db, true)
      end
  end.

(** [spawn_offline_sync], run to its end: flush what is pending, then pull
    the delta after the cursor. *)
Definition offline_sync (a : Actor) (db : PgRegistry) (nows : nat -> Z) (now ms instant : Z) (org : string)
    : Actor * PgRegistry :=
  let '(batches, d) := take_pushable (act_doc a) in
  let '(a, db, push_failed) := offline_push (with_doc a d) db now ms org batches in
  let a := if push_failed then with_doc a (mark_disconnected (act_doc a)) else a in
  match get_rows db now org (act_device a) (cursor (act_doc a)) with
  | (Some (FState seq full floor rows beats), db) =>
      let a := with_doc a (apply_state (act_doc a) nows seq full floor rows).2 in
      let a := with_presence a (merge_presence (act_presence a) instant beats) in
      (emit (stat_pushed a ms) Applied, db)
  | (_, db) => (a, db)
  end.

(** ** The server's socket loop *)

Record Conn := mk_conn { conn_session : RegistrySession; conn_rx : nat }.

(** A connection subscribes before it answers anything. *)
Definition ws_open (hub : Hub.HubState ServerFrame) (org : string) : Conn * Hub.HubState ServerFrame :=
  let '(rx, hub) := Hub.subscribe hub org in (mk_conn session_new rx, hub).

(** An incoming frame: broadcasts are published to the room, replies written
    to this socket.  Returns what this turn of the loop wrote to the socket. *)
Definition ws_incoming (c : Conn) (db : PgRegistry) (hub : Hub.HubState ServerFrame) (now : Z)
    (org : string) (frame : IncomingFrame)
    : list ServerFrame * Conn * PgRegistry * Hub.HubState ServerFrame :=
  match respond (conn_session c) db now org frame with
  | (inr reply, sess, db) =>
      (to_sender reply, mk_conn sess (conn_rx c), db, Hub.publish_all hub org (broadcast reply))
  | (inl _, sess, db) => ([], mk_conn sess (conn_rx c), db, hub)
  end.

(** A broadcast that reached this connection: dropped before the [hello], a
    lag only logged. *)
Definition ws_broadcast (c : Conn) (hub : Hub.HubState ServerFrame) (org : string)
    : list ServerFrame * Hub.HubState ServerFrame :=
  match Hub.receiver hub org (conn_rx c) with
  | None => ([], hub)
  | Some r =>
      let '(got, r) := Hub.recv r in
      let hub := Hub.mk_hub (alter (<[conn_rx c := r]>) org (Hub.rooms hub)) (Hub.next_rx hub) in
      match got with
      | Hub.Received frame => (if sess_ready (conn_session c) then [frame] else [], hub)
      | Hub.Lagged _ | Hub.Pending => ([], hub)
      end
  end.

(** ** What the user sees is what the server will hold *)

(** A room applying the replica's batches one transaction each. *)
Fixpoint apply_batches (db : PgRegistry) (org : string) (batches : list (list RowOp))
    : SyncError + PgRegistry :=
  match batches with
  | [] => inr db
  | ops :: rest =>
      match pg_apply_batch db org ops with
      | inl e => inl e
      | inr (_, db) => apply_batches db org rest
      end
  end.

Lemma apply_batches_refines db org batches db' :
  org_wf (org_rows db org) (org_seq db org) -> apply_batches db org batches = inr db' ->
  org_wf (org_rows db' org) (org_seq db' org) /\
  forall kind id row, strip row = strip (org_rows db org !! (kind, id)) ->
    strip (foldl (overlay_step kind id) row (concat batches)) =
    strip (org_rows db' org !! (kind, id)).
Proof.
  revert db. induction batches as [|ops rest IH]; intros db Hwf; cbn [apply_batches concat].
  { intros [= <-]. split; [done|]. intros kind id row H. done. }
  destruct (pg_apply_batch db org ops) as [e|[applied db1]] eqn:E; [done|]. intros H.
  destruct (batch_refines _ _ _ _ _ E Hwf) as [Hr _].
  destruct (batch_seq _ _ _ _ _ E Hwf) as (Hwf1 & _).
  destruct (IH db1 Hwf1 H) as [Hwf' Hrest]. split; [done|].
  intros kind id row Hrow. rewrite foldl_app. apply Hrest. rewrite Hr.
  by apply overlay_ops_strip.
Qed.

(** C6. The optimistic overlay predicts the server: when the replica mirrors
    the room and its pending batches are the next ones applied, every row it
    shows before the push is the row the room holds after it. *)
Theorem overlay_predicts_server d db org db' kind id :
  org_wf (org_rows db org) (org_seq db org) ->
  mirrors d (org_rows db org) ->
  apply_batches db org (pb_ops <$> pending d) = inr db' ->
  strip (overlay_raw d kind id) = strip (org_rows db' org !! (kind, id)).
Proof.
  intros Hwf Hm H. destruct (apply_batches_refines _ _ _ _ Hwf H) as [_ Hr].
  rewrite overlay_raw_ops. apply Hr. by rewrite Hm.
Qed.

Lemma overlay_predicts_server_witness :
  (row_fields <$> overlay_raw sample_doc "chats" "c1") =
    (row_fields <$> match apply_batches empty_db "org" (pb_ops <$> pending sample_doc) with
                    | inr db' => org_rows db' "org" !! ("chats", "c1")
                    | inl _ => None
                    end).
Proof.
  destruct (apply_batches empty_db "org" (pb_ops <$> pending sample_doc)) as [e|db'] eqn:E;
    [by vm_compute in E|].
  pose proof (overlay_predicts_server sample_doc empty_db "org" db' "chats" "c1"
    (empty_db_wf "org") (fun kind id => eq_refl) E) as H.
  apply (f_equal (fmap (M := option) row_fields)) in H.
  unfold strip in H. rewrite <- !option_fmap_compose in H. exact H.
Defined.

(** ** A replica that follows the room *)

(** The frames a connection gets while batches are applied: the rows of each
    batch of its room in order, anything else that carries no rows in
    between. *)
Inductive follows (org : string) : PgRegistry -> list ServerFrame -> PgRegistry -> Prop :=
  | follows_nil db : follows org db [] db
  | follows_batch db ops applied db1 fs db2 :
      pg_apply_batch db org ops = inr (applied, db1) -> follows org db1 fs db2 ->
      follows org db
        (match ab_rows applied with [] => fs | rows => FRows (ab_seq applied) rows :: fs end) db2
  | follows_other db ops org' applied db1 fs db2 :
      org' <> org -> pg_apply_batch db org' ops = inr (applied, db1) -> follows org db1 fs db2 ->
      follows org db fs db2
  | follows_frame db f fs db2 :
      match f with FState _ _ _ _ _ | FRows _ _ => False | _ => True end ->
      follows org db fs db2 -> follows org db (f :: fs) db2.

Lemma mirrors_apply_rows d db org ops applied db1 :
  pg_apply_batch db org ops = inr (applied, db1) -> org_wf (org_rows db org) (org_seq db org) ->
  mirrors d (org_rows db org) ->
  forall seq, mirrors (apply_rows d seq (ab_rows applied)) (org_rows db1 org).
Proof.
  intros H Hwf Hm seq kind id. unfold apply_rows. rewrite foldl_put_authoritative.
  destruct (batch_seq _ _ _ _ _ H Hwf) as (Hwf1 & _ & _ & Hin & Hold & Hkeep).
  assert (get_row (foldl put_row (authoritative d) (ab_rows applied)) kind id =
    org_rows db1 org !! (kind, id)) as E; [|by case_match].
  rewrite get_put_rows. destruct (last_for kind id (ab_rows applied)) as [r|] eqn:El.
  - apply last_for_Some in El as [([kind' id'] & Hk & _)%Hin [Hk1 Hk2]].
    destruct (Hwf1 _ _ Hk) as [[Hk3 Hk4] _]. simpl in *. congruence.
  - rewrite Hm. destruct (org_rows db1 org !! (kind, id)) as [r|] eqn:E1.
    + apply Hold; [done|]. destruct (N.le_gt_cases (row_seq r) (org_seq db org)) as [?|Hlt]; [done|].
      exfalso. apply (last_for_None _ _ _ El r); [apply Hin; by eauto|]. apply (Hwf1 _ _ E1).
    + destruct (org_rows db org !! (kind, id)) as [r|] eqn:E0; [|done].
      destruct (Hkeep (kind, id)) as [? ?]; [by eexists|congruence].
Qed.

Lemma handle_frame_rowless a now ms instant f :
  match f with FState _ _ _ _ _ | FRows _ _ => False | _ => True end ->
  authoritative (act_doc (handle_frame a now ms instant f)) = authoritative (act_doc a).
Proof.
  destruct f; try done. intros _. simpl. unfold ack_batch.
  by destruct (server_seq _ <? seq)%N; destruct (decide _).
Qed.

(** C7. Convergence: a replica that mirrors the room and handles, in order,
    the frames of the batches applied since, with acks, presence beats, probe
    replies and errors anywhere in between, mirrors the room again. *)
Theorem follower_converges org db fs db' a (now : nat -> nat -> Z) (ms instant : nat -> Z) :
  follows org db fs db' -> db_wf db -> mirrors (act_doc a) (org_rows db org) ->
  forall i,
    mirrors (act_doc (foldl (fun a '(j, f) => handle_frame a (now j) (ms j) (instant j) f) a
                        (zip (seq i (length fs)) fs)))
      (org_rows db' org).
Proof.
  intros Hf. revert a. induction Hf as [db|db ops applied db1 fs db2 H _ IH
    |db ops org' applied db1 fs db2 Hne H _ IH|db f fs db2 Hnr _ IH]; intros a Hwf Hm i.
  - done.
  - assert (db_wf db1) as Hwf1 by (eapply db_steps_spec; [eapply db_step; [apply db_refl|exact H]|done]).
    pose proof (mirrors_apply_rows _ _ _ _ _ _ H (Hwf org) Hm) as Hm1.
    destruct (ab_rows applied) as [|r rows] eqn:E.
    + apply IH; [done|]. intros kind id. rewrite <- (Hm1 0%N). unfold apply_rows. simpl.
      by destruct (_ <? 0)%N.
    + cbn [length seq zip foldl]. apply IH; [done|]. simpl. exact (Hm1 _).
  - apply IH.
    + eapply db_steps_spec; [eapply db_step; [apply db_refl|exact H]|done].
    + pose proof (apply_batch_inv _ _ _ _ _ H) as (_ & _ & _ & _ & Ho).
      destruct (Ho org) as [-> _]; done.
  - cbn [length seq zip foldl]. apply IH; [done|]. intros kind id.
    by rewrite handle_frame_rowless.
Qed.

Definition sample_actor : Actor := mk_actor (registry_new "dev-b") "dev-b" ∅ stats_default [].

Lemma follower_converges_witness :
  exists a', a' = foldl (fun a '(j, f) => handle_frame a (fun _ => 0) 0 0 f) sample_actor
                    (zip (seq 0 2) [FProbeOk 0; FRows 1 (ab_rows sample_applied)]) /\
    mirrors (act_doc a') (org_rows sample_db "org").
Proof.
  eexists. split; [reflexivity|].
  apply (follower_converges "org" empty_db [FProbeOk 0; FRows 1 (ab_rows sample_applied)] sample_db
    sample_actor (fun _ _ => 0) (fun _ => 0) (fun _ => 0)).
  - apply follows_frame; [done|].
    exact (follows_batch "org" empty_db sample_ops sample_applied sample_db [] sample_db
      sample_batch (follows_nil _ _)).
  - apply empty_db_wf.
  - intros kind id. done.
Defined.

(** ** Backoff *)

Fixpoint backoff_run (backoff : Z) (waits : list Waited) : option Z :=
  match waits with
  | [] => Some backoff
  | w :: rest => match next_backoff w backoff with None => None | Some b => backoff_run b rest end
  end.

Lemma backoff_elapsed n b :
  0 <= b -> backoff_run b (replicate n Elapsed) = Some (if decide (n = 0%nat) then b else Z.min (b * 2 ^ Z.of_nat n) BACKOFF_CAP).
Proof.
  revert b. induction n as [|n IH]; intros b Hb; [done|].
  rewrite decide_False by done. cbn [replicate backoff_run next_backoff].
  rewrite IH by (unfold BACKOFF_CAP; lia). f_equal.
  rewrite Nat2Z.inj_succ, Z.pow_succ_r by lia.
  pose proof (Z.pow_pos_nonneg 2 (Z.of_nat n)). unfold BACKOFF_CAP in *.
  case_decide; [subst n; simpl; lia|]. nia.
Qed.

(** The redial delay never leaves 250 ms to 16 s, doubles on every
    failed wait until the cap, and a wake-up or a recovered sibling starts it
    over. *)
Theorem backoff_bounded waits b :
  backoff_run BACKOFF_BASE waits = Some b ->
  BACKOFF_BASE <= b <= BACKOFF_CAP /\
  backoff_run b [Woke] = Some BACKOFF_BASE /\
  forall n, (6 <= n)%nat -> backoff_run b (replicate n Elapsed) = Some BACKOFF_CAP.
Proof.
  assert (forall b0, BACKOFF_BASE <= b0 <= BACKOFF_CAP -> backoff_run b0 waits = Some b ->
    BACKOFF_BASE <= b <= BACKOFF_CAP) as Hrange.
  { induction waits as [|w waits IH]; intros b0 Hb0; cbn [backoff_run]; [by intros [= <-]|].
    destruct w; cbn [next_backoff]; [| |done]; apply IH; unfold BACKOFF_BASE, BACKOFF_CAP in *; lia. }
  intros H. apply Hrange in H; [|done]. split_and!; [tauto..|done|].
  intros n Hn. rewrite backoff_elapsed by (unfold BACKOFF_BASE in *; lia).
  rewrite decide_False by lia. f_equal. unfold BACKOFF_BASE, BACKOFF_CAP in *.
  pose proof (Z.pow_le_mono_r 2 6 (Z.of_nat n)). nia.
Qed.

Lemma backoff_bounded_witness : BACKOFF_BASE <= 1000 <= BACKOFF_CAP.
Proof. apply (backoff_bounded [Elapsed; Woke; Elapsed; Elapsed] 1000). reflexivity. Defined.

(** ** What the transport can lose *)

Definition http_once (a : Actor) (db : PgRegistry) : Actor * PgRegistry :=
  offline_sync a db (fun _ => 5000) 0 0 0 "org".

Definition sample_writer : Actor := mk_actor sample_doc "dev-a" ∅ stats_default [].

(** Over plain HTTP the push's ack moves the cursor past the rows of the push,
    so the pull that follows asks only for newer ones: the write is on the
    server, retired from the queue, and gone from the replica, this time and
    on every later cycle. *)
Lemma http_sync_hides_own_write :
  let '(a1, db1) := http_once sample_writer empty_db in
  let '(a2, _) := http_once a1 db1 in
  is_Some (overlay_row sample_doc "chats" "c1") /\
  is_Some (org_rows db1 "org" !! ("chats", "c1")) /\
  pending (act_doc a1) = [] /\
  overlay_row (act_doc a1) "chats" "c1" = None /\ overlay_row (act_doc a2) "chats" "c1" = None.
Proof. vm_compute. split_and!; by eauto. Qed.

(** On the socket the ack of a push is written by the turn that handled it,
    while the merged rows are only queued for this connection's next
    broadcast turn: the sender gets its ack first. *)
Lemma ack_overtakes_rows :
  let '(c, hub) := ws_open Hub.hub_new "org" in
  let '(_, c, db, hub) := ws_incoming c empty_db hub 0 "org" (Hello None "dev-a") in
  let '(out1, c, db, hub) := ws_incoming c db hub 0 "org" (Push "b-1" sample_ops) in
  let '(out2, hub) := ws_broadcast c hub "org" in
  out1 = [FAck "b-1" 1 1] /\ out2 = [FRows 1 (ab_rows sample_applied)].
Proof. by vm_compute. Qed.

(** A replica that got that ack and lost the connection before the rows never
    sees them: its next [hello] already claims them. *)
Lemma ack_then_drop_loses_rows :
  let d := (ack_batch (take_pushable sample_doc).2
              (match pending sample_doc with b :: _ => pb_batch b | [] => "" end) 1).2 in
  let db := match apply_batches empty_db "org" (pb_ops <$> pending sample_doc) with
            | inr db => db | inl _ => empty_db end in
  hello_cursor d = Some 1%N /\
  match respond session_new db 0 "org" (Hello (hello_cursor d) "dev-a") with
  | (inr (mk_reply [FState seq full floor rows _] _), _, _) =>
      overlay_row (apply_state d (fun _ => 0) seq full floor rows).2 "chats" "c1" = None /\
      is_Some (org_rows db "org" !! ("chats", "c1"))
  | _ => False
  end.
Proof. vm_compute. split_and!; by eauto. Qed.
