(* ===== verification/ChatFrames.v ===== *)
(** The chat wire format: crates/sync/src/chat_frames.rs.

    [[type u8][headerLen u32 LE][header JSON][payload]].  Bytes are integers
    below 256; the JSON text codec is a parameter. *)
From S2P Require Import Prelude Json.

(** Frame type bytes. *)
Definition HELLO : Z := 1.
Definition STATE : Z := 2.
Definition ROWS_REQ : Z := 3.
Definition ROW : Z := 4.
Definition ROWS_DONE : Z := 5.
Definition PUSH : Z := 6.
Definition ACK : Z := 7.
Definition PRESENCE : Z := 8.
Definition PROBE : Z := 9.
Definition PROBE_OK : Z := 10.
Definition ERROR : Z := 11.

Definition MAX_HEADER_BYTES : nat := Z.to_nat 4096.

Record WireFrame := mk_frame { kind : Z; header : Value; payload : list Z }.

(** serde_json's text codec, on bytes. *)
Class JsonCodec := {
  json_to_vec : Value -> list Z;
  json_from_slice : list Z -> option Value;
}.

(** [u32::to_le_bytes] of a length ([as u32] keeps the low 32 bits). *)
Definition u32_to_le_bytes (n : Z) : list Z :=
  [n mod 256; (n / 256) mod 256; (n / 65536) mod 256; (n / 16777216) mod 256].

(** [u32::from_le_bytes]. *)
Definition u32_from_le_bytes (b0 b1 b2 b3 : Z) : Z := b0 + 256 * b1 + 65536 * b2 + 16777216 * b3.

Definition is_object (v : Value) : bool := match v with Object _ => true | _ => false end.

Section Codec.
Context {J : JsonCodec}.

(** [encode]. *)
Definition encode (k : Z) (h : Value) (p : list Z) : list Z :=
  let h := json_to_vec h in
  k :: u32_to_le_bytes (Z.of_nat (length h)) ++ h ++ p.

(** [decode]: [None] is malformed; unknown types pass. *)
Definition decode (bytes : list Z) : option WireFrame :=
  match bytes with
  | k :: b0 :: b1 :: b2 :: b3 :: rest =>
      let header_len := Z.to_nat (u32_from_le_bytes b0 b1 b2 b3) in
      if decide ((MAX_HEADER_BYTES < header_len)%nat \/ (length bytes < 5 + header_len)%nat) then None
      else
        h ← json_from_slice (take header_len rest);
        if is_object h then Some (mk_frame k h (drop header_len rest)) else None
  | _ => None
  end.

Lemma u32_roundtrip n :
  0 <= n < 2 ^ 32 ->
  u32_from_le_bytes (n mod 256) ((n / 256) mod 256) ((n / 65536) mod 256) ((n / 16777216) mod 256) = n.
Proof.
  intros Hn. unfold u32_from_le_bytes.
  rewrite (Z.mod_small (n / 16777216)) by (split; [apply Z.div_pos|apply Z.div_lt_upper_bound]; lia).
  replace (n / 65536) with (n / 256 / 256) by (rewrite Z.div_div by lia; reflexivity).
  replace (n / 16777216) with (n / 256 / 256 / 256) by (rewrite !Z.div_div by lia; reflexivity).
  pose proof (Z.div_mod n 256 ltac:(lia)). pose proof (Z.div_mod (n / 256) 256 ltac:(lia)).
  pose proof (Z.div_mod (n / 256 / 256) 256 ltac:(lia)). lia.
Qed.

(** Every frame either end builds comes back whole: type, header and
    payload, when the header is an object of at most 4096 bytes; a longer
    header or any other JSON value is refused. *)
Theorem frame_roundtrip k h p :
  json_from_slice (json_to_vec h) = Some h ->
  Z.of_nat (length (json_to_vec h)) < 2 ^ 32 ->
  decode (encode k h p) =
    if is_object h && bool_decide (length (json_to_vec h) <= MAX_HEADER_BYTES)%nat
    then Some (mk_frame k h p) else None.
Proof.
  intros Hj Hlt. unfold encode, decode. cbn [app u32_to_le_bytes].
  rewrite u32_roundtrip, Nat2Z.id by lia.
  destruct (decide _) as [Hbad|Hok].
  - rewrite (bool_decide_eq_false_2 (_ <= _)%nat), andb_false_r; [done|].
    destruct Hbad as [Hbad|Hbad]; [lia|]. cbn [length] in Hbad. rewrite length_app in Hbad. lia.
  - rewrite take_app_length, drop_app_length, Hj. cbn [mbind option_bind].
    rewrite (bool_decide_eq_true_2 (_ <= _)%nat) by lia. by rewrite andb_true_r.
Qed.

(** Nothing is lost in decoding: the accepted bytes are exactly type, length,
    header text and payload. *)
Lemma decode_sound bytes f :
  decode bytes = Some f ->
  exists b0 b1 b2 b3 text,
    bytes = kind f :: b0 :: b1 :: b2 :: b3 :: text ++ payload f /\
    json_from_slice text = Some (header f) /\ is_object (header f) = true /\
    (length text <= MAX_HEADER_BYTES)%nat.
Proof.
  unfold decode. destruct bytes as [|k [|b0 [|b1 [|b2 [|b3 rest]]]]]; try done.
  destruct (decide _) as [|Hok]; [done|]. intros (h & Hh & Hf)%bind_Some.
  destruct (is_object h) eqn:E; [|done]. injection Hf as <-.
  eexists b0, b1, b2, b3, _. cbn [kind payload header]. split_and!; try done.
  - by rewrite take_drop.
  - rewrite length_take. cbn [length] in Hok. lia.
Qed.
End Codec.

(** A codec that knows one value: the empty object. *)
Definition empty_object_codec : JsonCodec := {|
  json_to_vec := fun _ => [123; 125];
  json_from_slice := fun _ => Some (Object []);
|}.

Lemma frame_roundtrip_witness :
  @decode empty_object_codec (@encode empty_object_codec ROW (Object []) [7; 8; 9]) =
    Some (mk_frame ROW (Object []) [7; 8; 9]).
Proof. exact (@frame_roundtrip empty_object_codec ROW (Object []) [7; 8; 9] eq_refl eq_refl). Defined.

(** ** Typed headers *)

Record StateHeader := mk_state_header {
  sh_head_seq : N;
  sh_seq_floor : N;
  sh_checkpoint_seq : N;
  sh_checkpoint_size : N;
  sh_row_count : N;
  sh_row_bytes : N;
}.

Definition state_header (v : Value) : option StateHeader :=
  head_seq ← field_req as_u64 v "headSeq";
  seq_floor ← field_req as_u64 v "seqFloor";
  checkpoint_seq ← field_req as_u64 v "checkpointSeq";
  checkpoint_size ← field_req as_u64 v "checkpointSize";
  row_count ← field_default as_u64 0%N v "rowCount";
  row_bytes ← field_default as_u64 0%N v "rowBytes";
  Some (mk_state_header head_seq seq_floor checkpoint_seq checkpoint_size row_count row_bytes).

Record RowHeader := mk_row_header { rh_seq : N; rh_device : string; rh_batch_id : string }.

Definition row_header (v : Value) : option RowHeader :=
  seq ← field_req as_u64 v "seq";
  device ← field_req as_str v "device";
  batch_id ← field_req as_str v "batchId";
  Some (mk_row_header seq device batch_id).

Definition rows_done_header (v : Value) : option N := field_req as_u64 v "headSeq".

Record AckHeader := mk_ack_header { ah_batch_id : string; ah_seq : N; ah_dup : bool }.

Definition ack_header (v : Value) : option AckHeader :=
  batch_id ← field_req as_str v "batchId";
  seq ← field_req as_u64 v "seq";
  dup ← field_default as_boolean false v "dup";
  Some (mk_ack_header batch_id seq dup).

Definition probe_ok_header (v : Value) : option N := field_req as_u64 v "headSeq".

(** Headers the client writes. *)
Definition hello_header (cursor : N) (device : string) : Value :=
  Object [("cursor", Int (Z.of_N cursor)); ("device", Str device)].
Definition rows_req_header (after : N) (exclude_own : bool) : Value :=
  Object [("after", Int (Z.of_N after)); ("excludeOwn", Bool exclude_own)].
Definition push_header (batch_id : string) : Value := Object [("batchId", Str batch_id)].
