(* ===== verification/ChatRoom.v ===== *)
(** The chat room's server side: crates/sync/src/room.rs, its Postgres store
    crates/server/src/db.rs, the publishing wrapper and socket loop of
    crates/server/src/rooms.rs and the plain HTTP routes of
    crates/server/src/http.rs.

    A room is an append-only log of opaque rows.  Frames are the decoded
    [WireFrame]s; [ChatFrames] relates them to bytes. *)
From S2P Require Import Prelude Json Hub ChatFrames.

Record Row := mk_chat_row {
  cr_seq : N;
  cr_device : string;
  cr_batch_id : string;
  cr_payload : list Z;
}.

#[export] Instance Row_eq_dec : EqDecision Row.
Proof. solve_decision. Defined.

Record RoomState := mk_room_state {
  head_seq : N;
  seq_floor : N;
  checkpoint_seq : N;
  checkpoint_size : N;
  row_count : N;
  row_bytes : N;
}.

Inductive ChatError := DbError | ProtocolError.

(** The trait [ChatStore]. *)
Class ChatStore (S : Type) := {
  chat_state : S -> string -> ChatError + RoomState;
  chat_rows_after : S -> string -> N -> option string -> ChatError + list Row;
  chat_append : S -> string -> string -> string -> list Z -> ChatError + (N * bool * S);
}.

(** ** Frames the server writes *)

Definition encode_state (st : RoomState) : WireFrame :=
  mk_frame STATE
    (Object [("headSeq", Int (Z.of_N (head_seq st))); ("seqFloor", Int (Z.of_N (seq_floor st)));
             ("checkpointSeq", Int (Z.of_N (checkpoint_seq st)));
             ("checkpointSize", Int (Z.of_N (checkpoint_size st)));
             ("rowCount", Int (Z.of_N (row_count st))); ("rowBytes", Int (Z.of_N (row_bytes st)))]) [].

Definition encode_row (r : Row) : WireFrame :=
  mk_frame ROW
    (Object [("seq", Int (Z.of_N (cr_seq r))); ("device", Str (cr_device r));
             ("batchId", Str (cr_batch_id r))]) (cr_payload r).

Definition rows_done (head : N) : WireFrame :=
  mk_frame ROWS_DONE (Object [("headSeq", Int (Z.of_N head))]) [].

Definition ack_frame (batch_id : string) (seq : N) (dup : bool) : WireFrame :=
  mk_frame ACK (Object [("batchId", Str batch_id); ("seq", Int (Z.of_N seq)); ("dup", Bool dup)]) [].

Definition probe_ok : WireFrame := mk_frame PROBE_OK (Object []) [].

(** ** One connection *)

(** The headers [RowsReq] and [Push]. *)
Definition rows_req (v : Value) : option (N * bool) :=
  after ← field_req as_u64 v "after";
  exclude_own ← field_default as_boolean false v "excludeOwn";
  Some (after, exclude_own).

Definition push_req (v : Value) : option string := field_req as_str v "batchId".

Section Dispatch.
Context {S : Type} {Store : ChatStore S}.

(** [Session::dispatch]; [device] is the session's state. *)
Definition dispatch (device : string) (store : S) (chat : string) (frame : WireFrame)
    : (ChatError + list WireFrame) * string * S :=
  if kind frame =? HELLO then
    let device := default device (obj_get (header frame) "device" ≫= as_str) in
    match chat_state store chat with
    | inl e => (inl e, device, store)
    | inr st => (inr [encode_state st], device, store)
    end
  else if kind frame =? ROWS_REQ then
    match rows_req (header frame) with
    | None => (inl ProtocolError, device, store)
    | Some (after, exclude_own) =>
        match chat_rows_after store chat after (if exclude_own then Some device else None) with
        | inl e => (inl e, device, store)
        | inr rows =>
            let head := match last rows with Some r => cr_seq r | None => after end in
            (inr ((encode_row <$> rows) ++ [rows_done head]), device, store)
        end
    end
  else if kind frame =? PUSH then
    match push_req (header frame) with
    | None => (inl ProtocolError, device, store)
    | Some batch_id =>
        match chat_append store chat device batch_id (payload frame) with
        | inl e => (inl e, device, store)
        | inr (seq, dup, store) => (inr [ack_frame batch_id seq dup], device, store)
        end
    end
  else if kind frame =? PROBE then (inr [probe_ok], device, store)
  else (inr [], device, store).
End Dispatch.

(** ** The Postgres store *)

Record PgStore := mk_pg_store {
  chat_db_up : bool;
  (** [chat_rooms]: the head sequence. *)
  chat_rooms : gmap string N;
  (** [chat_rows], in the order of their sequence. *)
  chat_rows : gmap string (list Row);
  (** [chat_checkpoints]: sequence and payload length. *)
  chat_checkpoints : gmap string (N * N);
}.

Definition log_of (db : PgStore) (chat : string) : list Row := default [] (chat_rows db !! chat).
Definition head_of (db : PgStore) (chat : string) : N := default 0%N (chat_rooms db !! chat).

Definition sum_bytes (l : list Row) : N := foldr (fun r n => N.of_nat (length (cr_payload r)) + n)%N 0%N l.

Definition pg_chat_state (db : PgStore) (chat : string) : ChatError + RoomState :=
  if negb (chat_db_up db) then inl DbError
  else
    let cp := default (0%N, 0%N) (chat_checkpoints db !! chat) in
    inr (mk_room_state (head_of db chat) cp.1 cp.1 cp.2 (N.of_nat (length (log_of db chat)))
           (sum_bytes (log_of db chat))).

Definition pg_chat_rows_after (db : PgStore) (chat : string) (after : N) (exclude : option string)
    : ChatError + list Row :=
  if negb (chat_db_up db) then inl DbError
  else inr (filter (fun r => (after < cr_seq r)%N /\ exclude <> Some (cr_device r)) (log_of db chat)).

(** [append]: one statement; a known batch gets its old sequence back and
    moves nothing. *)
Definition pg_append (db : PgStore) (chat device batch_id : string) (bytes : list Z)
    : ChatError + (N * bool * PgStore) :=
  if negb (chat_db_up db) then inl DbError
  else
    match list_find (fun r => cr_batch_id r = batch_id) (log_of db chat) with
    | Some (_, r) => inr (cr_seq r, true, db)
    | None =>
        let seq := (head_of db chat + 1)%N in
        inr (seq, false,
             mk_pg_store (chat_db_up db) (<[chat := seq]> (chat_rooms db))
               (<[chat := log_of db chat ++ [mk_chat_row seq device batch_id bytes]]> (chat_rows db))
               (chat_checkpoints db))
    end.

#[export] Instance pg_chat_store : ChatStore PgStore := {|
  chat_state := pg_chat_state;
  chat_rows_after := pg_chat_rows_after;
  chat_append := pg_append;
|}.

(** ** Publishing *)

(** [Publishing]: the store together with the hub its new rows go to. *)
Record Publishing := mk_publishing { pub_inner : PgStore; pub_hub : Hub.HubState Row }.

Definition pub_append (p : Publishing) (chat device batch_id : string) (bytes : list Z)
    : ChatError + (N * bool * Publishing) :=
  match pg_append (pub_inner p) chat device batch_id bytes with
  | inl e => inl e
  | inr (seq, dup, db) =>
      inr (seq, dup,
           mk_publishing db
             (if dup then pub_hub p
              else Hub.publish (pub_hub p) chat (mk_chat_row seq device batch_id bytes)))
  end.

#[export] Instance publishing_store : ChatStore Publishing := {|
  chat_state := fun p => pg_chat_state (pub_inner p);
  chat_rows_after := fun p => pg_chat_rows_after (pub_inner p);
  chat_append := pub_append;
|}.

(** What [serve] writes to a socket for a broadcast row: nothing for the
    session's own. *)
Definition relay (device : string) (r : Row) : list WireFrame :=
  if String.eqb (cr_device r) device then [] else [encode_row r].

(** ** Plain HTTP *)

Definition http_hello (device : string) : WireFrame :=
  mk_frame HELLO (Object [("device", Str device)]) [].

(** [get_rows]: the frames of the body. *)
Definition http_get_rows (p : Publishing) (chat device : string) (after : N) : option (list WireFrame) :=
  match dispatch "" p chat (http_hello device) with
  | (inr frames, dev, p) =>
      match dispatch dev p chat (mk_frame ROWS_REQ (rows_req_header after true) []) with
      | (inr frames', _, _) => Some (frames ++ frames')
      | _ => None
      end
  | _ => None
  end.

(** [post_rows]: the ack's header. *)
Definition http_post_rows (p : Publishing) (chat device batch_id : string) (bytes : list Z)
    : option Value * Publishing :=
  match dispatch "" p chat (http_hello device) with
  | (inr _, dev, p) =>
      match dispatch dev p chat (mk_frame PUSH (push_header batch_id) bytes) with
      | (inr replies, _, p) => (header <$> head replies, p)
      | (inl _, _, p) => (None, p)
      end
  | (inl _, _, p) => (None, p)
  end.

(** [frame_body] on encoded frames: each behind its length. *)
Definition frame_body (frames : list (list Z)) : list Z :=
  frames ≫= fun f => u32_to_le_bytes (Z.of_nat (length f)) ++ f.

(** ** The log *)

(** Sequences start at 1 without a gap, the head is the last one, and a batch
    is stored once. *)
Record log_wf (db : PgStore) (chat : string) : Prop := {
  log_seqs : cr_seq <$> log_of db chat = N.of_nat <$> seq 1 (length (log_of db chat));
  log_head : head_of db chat = N.of_nat (length (log_of db chat));
  log_batches : NoDup (cr_batch_id <$> log_of db chat);
}.

Lemma log_wf_lookup db chat i r :
  log_wf db chat -> log_of db chat !! i = Some r -> cr_seq r = N.of_nat (S i).
Proof.
  intros [Hs _ _] Hi. assert ((cr_seq <$> log_of db chat) !! i = Some (cr_seq r)) as E
    by by rewrite list_lookup_fmap, Hi.
  rewrite Hs, list_lookup_fmap in E. apply fmap_Some in E as (n & Hn & ->).
  apply lookup_seq in Hn as [-> _]. lia.
Qed.

Lemma find_batch_None b (l : list Row) :
  list_find (fun r => cr_batch_id r = b) l = None <-> b ∉ (cr_batch_id <$> l).
Proof.
  rewrite list_find_None, Forall_forall, list_elem_of_fmap. naive_solver.
Qed.

(** What an append does, branch by branch. *)
Lemma pg_append_inv db chat device b bytes s dup db' :
  pg_append db chat device b bytes = inr (s, dup, db') ->
  (dup = true /\ db' = db /\ exists r, r ∈ log_of db chat /\ cr_batch_id r = b /\ cr_seq r = s) \/
  (dup = false /\ ~ b ∈ (cr_batch_id <$> log_of db chat) /\ s = (head_of db chat + 1)%N /\
   log_of db' chat = log_of db chat ++ [mk_chat_row s device b bytes] /\ head_of db' chat = s /\
   chat_db_up db' = true /\
   forall chat', chat' <> chat ->
     log_of db' chat' = log_of db chat' /\ head_of db' chat' = head_of db chat').
Proof.
  unfold pg_append. destruct (chat_db_up db) eqn:Hup; cbn [negb]; [|done].
  destruct (list_find _ (log_of db chat)) as [[i r]|] eqn:E; intros [= <- <- <-].
  - left. apply list_find_Some in E as (Hi & Hb & _). split_and!; [done|done|].
    exists r. split_and!; [by eapply list_elem_of_lookup_2|done|done].
  - right. apply find_batch_None in E. split_and!; try done.
    { unfold log_of at 1. simpl. by rewrite lookup_insert_eq. }
    { unfold head_of at 1. simpl. by rewrite lookup_insert_eq. }
    intros chat' Hne. unfold log_of, head_of. simpl. by rewrite !lookup_insert_ne.
Qed.

(** C11. The room is an append-only, gap-free log with exactly-once batches:
    an append keeps it so, a new batch lands at the next sequence, and sending
    the same batch again, from any device and with any bytes, returns the
    sequence it already has and changes nothing. *)
Theorem append_exactly_once db chat device b bytes s dup db' :
  log_wf db chat ->
  pg_append db chat device b bytes = inr (s, dup, db') ->
  log_wf db' chat /\
  (exists r, r ∈ log_of db' chat /\ cr_batch_id r = b /\ cr_seq r = s) /\
  (if dup then db' = db
   else log_of db' chat = log_of db chat ++ [mk_chat_row s device b bytes] /\
        s = (head_of db chat + 1)%N) /\
  (forall device' bytes', pg_append db' chat device' b bytes' = inr (s, true, db')).
Proof.
  intros Hwf Happ. assert (chat_db_up db' = true) as Hup.
  { revert Happ. unfold pg_append. destruct (chat_db_up db) eqn:E; [|done]. cbn [negb].
    destruct (list_find _ _) as [[]|]; by intros [= _ _ <-]. }
  assert (log_wf db' chat /\ exists r, r ∈ log_of db' chat /\ cr_batch_id r = b /\ cr_seq r = s)
    as [Hwf' (r & Hin & Hb & Hs)].
  { apply pg_append_inv in Happ as [(-> & -> & Hr)|(-> & Hni & Hs & Hl & Hh & _)]; [done|].
    destruct Hwf as [Hw1 Hw2 Hw3]. split.
    - split.
      + rewrite Hl, fmap_app, length_app, seq_app, fmap_app, Hw1. cbn. f_equal. f_equal. lia.
      + rewrite Hh, Hl, length_app, Hs, Hw2. cbn. lia.
      + rewrite Hl, fmap_app. apply NoDup_app. split_and!; [done| |apply NoDup_singleton].
        intros x Hx ->%list_elem_of_singleton. done.
    - eexists. rewrite Hl. split; [apply elem_of_app; right; by apply list_elem_of_singleton|done]. }
  split_and!; [done|by eauto| |].
  - apply pg_append_inv in Happ as [(-> & -> & _)|(-> & _ & -> & -> & _)]; done.
  - intros device' bytes'. unfold pg_append. rewrite Hup. cbn [negb].
    destruct (list_find _ (log_of db' chat)) as [[i r']|] eqn:E.
    + apply list_find_Some in E as (Hi & Hb' & _).
      assert (r' = r) as ->; [|by rewrite Hs].
      apply (NoDup_fmap_inj_on cr_batch_id (log_of db' chat)); [apply Hwf'| |done|congruence].
      by eapply list_elem_of_lookup_2.
    + apply find_batch_None in E. destruct E. rewrite <- Hb. by apply list_elem_of_fmap_2.
Qed.

Definition empty_room : PgStore := mk_pg_store true ∅ ∅ ∅.

Lemma empty_room_wf chat : log_wf empty_room chat.
Proof. split; try done. constructor. Qed.

Lemma append_exactly_once_witness :
  exists db', pg_append empty_room "c" "dev-a" "b1" [1; 2] = inr (1%N, false, db') /\
    pg_append db' "c" "dev-b" "b1" [] = inr (1%N, true, db').
Proof.
  eexists. split; [reflexivity|].
  apply (append_exactly_once empty_room "c" "dev-a" "b1" [1; 2] 1 false _ (empty_room_wf "c") eq_refl).
Defined.

(** ** Headers round trip *)

Definition u64 (n : N) : Prop := (n <= Z.to_N U64_MAX)%N.

Lemma row_header_roundtrip r :
  u64 (cr_seq r) ->
  row_header (header (encode_row r)) = Some (mk_row_header (cr_seq r) (cr_device r) (cr_batch_id r)).
Proof. intros H. unfold row_header, field_req. cbn -[as_u64]. by rewrite as_u64_of_N. Qed.

Lemma ack_header_roundtrip b s dup :
  u64 s -> ack_header (header (ack_frame b s dup)) = Some (mk_ack_header b s dup).
Proof. intros H. unfold ack_header, field_req, field_default. cbn -[as_u64]. by rewrite as_u64_of_N. Qed.

Lemma rows_req_roundtrip after ex : u64 after -> rows_req (rows_req_header after ex) = Some (after, ex).
Proof. intros H. unfold rows_req, field_req, field_default. cbn -[as_u64]. by rewrite as_u64_of_N. Qed.

(** The server's probe reply does not carry the head the client's header type
    requires, so the client never reads one from it. *)
Lemma probe_ok_unreadable : probe_ok_header (header probe_ok) = None.
Proof. done. Qed.
