(* ===== verification/ChatClient.v ===== *)
(** The chat transport of the client: crates/sync/src/chat_client.rs.

    The cursor claims that every row up to it is in the local document.  The
    document is behind the interface [ChatDocSink]; the theorems use its laws
    only, and a list of imported updates implements it. *)
From S2P Require Import Prelude Json Hub ChatFrames ChatRoom.

(** ** The document interface *)

Class ChatDocSink (D : Type) := {
  (** [apply_row]: import one update, persist with the cursor. *)
  apply_row : D -> list Z -> N -> D;
  (** [apply_checkpoint]: [None] when the blob does not import. *)
  apply_checkpoint : D -> list Z -> N -> option D;
  (** [contains_frontier]. *)
  contains_frontier : D -> list Z -> bool;
  (** [advance_cursor]: persist the cursor alone. *)
  advance_cursor : D -> N -> D;
  (** The update is part of the document (or was refused by it for good). *)
  holds : D -> list Z -> Prop;
  (** The updates a checkpoint blob, and a frontier, stand for. *)
  covers : list Z -> list Z -> Prop;
}.

Class ChatDocSinkLaws (D : Type) (Sink : ChatDocSink D) := {
  apply_row_holds d u c : holds (apply_row d u c) u;
  apply_row_keeps d u c v : holds d v -> holds (apply_row d u c) v;
  advance_keeps d c v : holds d v -> holds (advance_cursor d c) v;
  checkpoint_holds d b c d' v : apply_checkpoint d b c = Some d' -> covers b v -> holds d' v;
  checkpoint_keeps d b c d' v : apply_checkpoint d b c = Some d' -> holds d v -> holds d' v;
  frontier_holds d f v : contains_frontier d f = true -> covers f v -> holds d v;
}.

(** ** Catch-up planning *)

Inductive CatchUpPlan := RowsOnly (after : N) | CheckpointThenRows (after : N).

(** [plan_catch_up]. *)
Definition plan_catch_up (cursor : N) (st : StateHeader) (frontier_contained : bool) : CatchUpPlan :=
  let cursor := if (sh_head_seq st <? cursor)%N then 0%N else cursor in
  if (sh_checkpoint_size st =? 0)%N then RowsOnly cursor
  else if frontier_contained then RowsOnly (N.max cursor (sh_checkpoint_seq st))
  else CheckpointThenRows (sh_checkpoint_seq st).

Definition plan_after (p : CatchUpPlan) : N :=
  match p with RowsOnly after => after | CheckpointThenRows after => after end.

(** ** State *)

Definition MAX_PUSH_BYTES : nat := Z.to_nat (1024 * 1024 - 4096).
Definition QUOTA_RETRY : Z := 5000.
Definition MAX_GAP_REPAIRS_PER_SESSION : N := 3.

Record PendingPush := mk_push { pp_batch_id : string; pp_bytes : list Z }.

#[export] Instance PendingPush_eq_dec : EqDecision PendingPush.
Proof. solve_decision. Defined.

Record Shared := mk_shared {
  sh_cursor : N;
  sh_pending : list PendingPush;
  sh_server : option StateHeader;
  sh_retry_at : option Z;
  sh_quota_blocked : bool;
  sh_gap_repair : bool;
}.

Definition shared_new (initial_cursor : N) : Shared := mk_shared initial_cursor [] None None false false.

Inductive ChatEvent :=
  | Connected | CaughtUp (head : N) | Applied | Disconnected | PresenceSeen | ServerReset | PushRejected.

Record Flags := mk_flags {
  fl_connected : bool;
  fl_rejoins : N;
  fl_disconnects : N;
  fl_rejected : N;
  fl_server_resets : N;
}.

Definition flags_default : Flags := mk_flags false 0 0 0 0.

Record Actor (D : Type) := mk_chat_actor {
  shared : Shared;
  sink : D;
  flags : Flags;
  events : list ChatEvent;
  amnesty_done : bool;
  resumed : bool;
}.
#[global] Arguments mk_chat_actor {D}.
#[global] Arguments shared {D}.
#[global] Arguments sink {D}.
#[global] Arguments flags {D}.
#[global] Arguments events {D}.
#[global] Arguments amnesty_done {D}.
#[global] Arguments resumed {D}.

Definition set_sh_cursor (s : Shared) (c : N) : Shared :=
  mk_shared c (sh_pending s) (sh_server s) (sh_retry_at s) (sh_quota_blocked s) (sh_gap_repair s).
Definition set_sh_pending (s : Shared) (p : list PendingPush) : Shared :=
  mk_shared (sh_cursor s) p (sh_server s) (sh_retry_at s) (sh_quota_blocked s) (sh_gap_repair s).
Definition set_sh_server (s : Shared) (st : option StateHeader) : Shared :=
  mk_shared (sh_cursor s) (sh_pending s) st (sh_retry_at s) (sh_quota_blocked s) (sh_gap_repair s).
Definition set_sh_quota (s : Shared) (retry : option Z) (blocked : bool) : Shared :=
  mk_shared (sh_cursor s) (sh_pending s) (sh_server s) retry blocked (sh_gap_repair s).
Definition set_sh_gap (s : Shared) (g : bool) : Shared :=
  mk_shared (sh_cursor s) (sh_pending s) (sh_server s) (sh_retry_at s) (sh_quota_blocked s) g.

(** The contiguity rule of ROW and ACK: the cursor walks, it never jumps. *)
Definition walk (s : Shared) (seq : N) : Shared :=
  if (sh_cursor s + 1 <? seq)%N then set_sh_gap s true
  else set_sh_cursor s (N.max (sh_cursor s) seq).

Section Client.
Context {D : Type} {Sink : ChatDocSink D}.

Definition with_shared (a : Actor D) (s : Shared) : Actor D :=
  mk_chat_actor s (sink a) (flags a) (events a) (amnesty_done a) (resumed a).
Definition with_sink (a : Actor D) (d : D) : Actor D :=
  mk_chat_actor (shared a) d (flags a) (events a) (amnesty_done a) (resumed a).
Definition with_flags (a : Actor D) (f : Flags) : Actor D :=
  mk_chat_actor (shared a) (sink a) f (events a) (amnesty_done a) (resumed a).
Definition send_event (a : Actor D) (e : ChatEvent) : Actor D :=
  mk_chat_actor (shared a) (sink a) (flags a) (events a ++ [e]) (amnesty_done a) (resumed a).

Definition count_rejected (a : Actor D) : Actor D :=
  let f := flags a in
  with_flags a (mk_flags (fl_connected f) (fl_rejoins f) (fl_disconnects f) (fl_rejected f + 1)
                  (fl_server_resets f)).

(** ** Local operations *)

(** [enqueue_update]; [batch_id] is the fresh uuid. *)
Definition enqueue_update (a : Actor D) (batch_id : string) (bytes : list Z) : Actor D :=
  if decide (MAX_PUSH_BYTES < length bytes)%nat then send_event (count_rejected a) PushRejected
  else with_shared a (set_sh_pending (shared a) (sh_pending (shared a) ++ [mk_push batch_id bytes])).

(** [note_checkpoint]. *)
Definition note_checkpoint (a : Actor D) (seq_covered size : N) : Actor D :=
  match sh_server (shared a) with
  | None => a
  | Some st =>
      with_shared a (set_sh_server (shared a)
        (Some (mk_state_header (sh_head_seq st) seq_covered seq_covered size 0 0)))
  end.

Record ChatStatsSnapshot := mk_chat_stats {
  st_connected : bool;
  st_server_known : bool;
  st_cursor : N;
  st_server : StateHeader;
  st_pending_pushes : nat;
  st_rejoins : N;
  st_disconnects : N;
  st_rejected : N;
  st_server_resets : N;
}.

(** [stats]. *)
Definition stats (a : Actor D) : ChatStatsSnapshot :=
  let s := shared a in
  mk_chat_stats (fl_connected (flags a)) (match sh_server s with Some _ => true | None => false end)
    (sh_cursor s) (default (mk_state_header 0 0 0 0 0 0) (sh_server s)) (length (sh_pending s))
    (fl_rejoins (flags a)) (fl_disconnects (flags a)) (fl_rejected (flags a))
    (fl_server_resets (flags a)).

(** [push_pending]: every queued batch, left queued. *)
Definition push_frame (p : PendingPush) : WireFrame :=
  mk_frame PUSH (push_header (pp_batch_id p)) (pp_bytes p).

Definition push_pending (a : Actor D) : list WireFrame := push_frame <$> sh_pending (shared a).

(** [push_head]. *)
Definition push_head (a : Actor D) : list WireFrame :=
  match sh_pending (shared a) with [] => [] | p :: _ => [push_frame p] end.

(** [maybe_repair_gap]: whether the session goes on, and the request it
    sends. *)
Definition maybe_repair_gap (a : Actor D) (repairs : N) : bool * list WireFrame * Actor D * N :=
  let repair := sh_gap_repair (shared a) in
  let a := with_shared a (set_sh_gap (shared a) false) in
  if negb repair then (true, [], a, repairs)
  else
    let repairs := (repairs + 1)%N in
    if (MAX_GAP_REPAIRS_PER_SESSION <? repairs)%N then (false, [], a, repairs)
    else (true, [mk_frame ROWS_REQ (rows_req_header (sh_cursor (shared a)) false) []], a, repairs).

(** ** Inbound frames *)

Definition retire (batch_id : string) (p : list PendingPush) : list PendingPush :=
  filter (fun x => pp_batch_id x <> batch_id) p.

(** The ERROR branch. *)
Definition handle_error (a : Actor D) (now : Z) (h : Value) : Actor D :=
  let a := count_rejected a in
  let code := default "?" (obj_get h "code" ≫= as_str) in
  let batch_id := default "" (obj_get h "batchId" ≫= as_str) in
  if (String.eqb code "too_large" || String.eqb code "empty" || String.eqb code "bad_push")
     && negb (String.eqb batch_id "") then
    let pending := retire batch_id (sh_pending (shared a)) in
    let dropped := negb (length pending =? length (sh_pending (shared a)))%nat in
    let a := with_shared a (set_sh_pending (shared a) pending) in
    if dropped then send_event a PushRejected else a
  else if String.eqb code "quota" then
    with_shared a (set_sh_quota (shared a) (Some (now + QUOTA_RETRY)) true)
  else a.

(** [handle_frame]: [false] is a protocol breakdown. *)
Definition handle_frame (a : Actor D) (now : Z) (f : WireFrame) : bool * Actor D :=
  if kind f =? ROW then
    match row_header (header f) with
    | None => (false, a)
    | Some row =>
        let s := walk (shared a) (rh_seq row) in
        let a := with_shared a s in
        (true, send_event (with_sink a (apply_row (sink a) (payload f) (sh_cursor s))) Applied)
    end
  else if kind f =? ACK then
    match ack_header (header f) with
    | None => (false, a)
    | Some ack =>
        let s := set_sh_pending (shared a) (retire (ah_batch_id ack) (sh_pending (shared a))) in
        let s := walk s (ah_seq ack) in
        let cursor := sh_cursor s in
        let s :=
          if sh_quota_blocked s then
            match sh_pending s with
            | [] => set_sh_quota s (sh_retry_at s) false
            | _ => set_sh_quota s (Some now) true
            end
          else s in
        let a := with_shared a s in
        (true, send_event (with_sink a (advance_cursor (sink a) cursor)) Applied)
    end
  else if kind f =? PRESENCE then (true, send_event a PresenceSeen)
  else if kind f =? PROBE_OK then
    match probe_ok_header (header f), sh_server (shared a) with
    | Some head, Some st =>
        (true, with_shared a (set_sh_server (shared a)
           (Some (mk_state_header (N.max (sh_head_seq st) head) (sh_seq_floor st)
                    (sh_checkpoint_seq st) (sh_checkpoint_size st) (sh_row_count st) (sh_row_bytes st)))))
    | _, _ => (true, a)
    end
  else if kind f =? STATE then
    match state_header (header f) with
    | Some st => (true, with_shared a (set_sh_server (shared a) (Some st)))
    | None => (true, a)
    end
  else if kind f =? ERROR then (true, handle_error a now (header f))
  else (true, a).

(** ** Joining *)

(** Everything [run_session] does with the STATE frame up to the row request:
    [None] when the header does not parse. [first] is whether the ready signal
    is still to be sent. *)
Definition on_state (a : Actor D) (first : bool) (f : WireFrame)
    : option (CatchUpPlan * list WireFrame * Actor D) :=
  st ← state_header (header f);
  let a := with_shared a (set_sh_server (shared a) (Some st)) in
  let a :=
    if (sh_head_seq st <? sh_cursor (shared a))%N then
      let g := flags a in
      send_event (with_flags a (mk_flags (fl_connected g) (fl_rejoins g) (fl_disconnects g)
                                  (fl_rejected g) (fl_server_resets g + 1))) ServerReset
    else a in
  let clamp_to := if (0 <? sh_checkpoint_size st)%N then sh_checkpoint_seq st else 0%N in
  let s :=
    if negb (amnesty_done a) && (clamp_to <? sh_cursor (shared a))%N
    then set_sh_cursor (shared a) clamp_to else shared a in
  let g := flags a in
  let a := mk_chat_actor s (sink a)
             (mk_flags true (if first then fl_rejoins g else fl_rejoins g + 1)%N (fl_disconnects g)
                (fl_rejected g) (fl_server_resets g))
             (events a ++ [Connected]) true (resumed a) in
  let contained := (sh_checkpoint_size st =? 0)%N || contains_frontier (sink a) (payload f) in
  let plan := plan_catch_up (sh_cursor (shared a)) st contained in
  let after := plan_after plan in
  let a := with_shared a (set_sh_cursor (shared a) after) in
  Some (plan, mk_frame ROWS_REQ (rows_req_header after (resumed a)) [] :: push_pending a, a).

(** The fetched checkpoint: [None] when its import fails. *)
Definition on_checkpoint (a : Actor D) (checkpoint_seq : N) (bytes : list Z) : option (Actor D) :=
  d ← apply_checkpoint (sink a) bytes checkpoint_seq;
  let s := set_sh_cursor (shared a) (N.max (sh_cursor (shared a)) checkpoint_seq) in
  Some (send_event (with_sink (with_shared a s) d) Applied).

(** The backfill: frames up to ROWS_DONE; [None] is a breakdown. *)
Fixpoint backfill (a : Actor D) (now : Z) (frames : list WireFrame) : option (option N * Actor D) :=
  match frames with
  | [] => Some (None, a)
  | f :: rest =>
      if kind f =? ROWS_DONE then
        head ← rows_done_header (header f);
        Some (Some head, a)
      else
        let '(ok, a) := handle_frame a now f in
        if ok then backfill a now rest else None
  end.

(** The end of the catch-up. *)
Definition caught_up (a : Actor D) (head : N) : Actor D :=
  mk_chat_actor (shared a) (sink a) (flags a) (events a ++ [CaughtUp head]) (amnesty_done a) true.

(** ** Plain HTTP *)

(** One ack of the HTTP push loop. *)
Definition http_ack (a : Actor D) (v : Value) : Actor D :=
  match obj_get v "batchId" ≫= as_str, obj_get v "seq" ≫= as_u64 with
  | Some b, Some seq =>
      let s := set_sh_pending (shared a) (retire b (sh_pending (shared a))) in
      let s := if (seq <=? sh_cursor s + 1)%N then set_sh_cursor s (N.max (sh_cursor s) seq) else s in
      let a := with_shared a s in
      send_event (with_sink a (advance_cursor (sink a) (sh_cursor s))) Applied
  | _, _ => a
  end.

(** One row of the HTTP pull: a gap holds the cursor. *)
Definition http_row (a : Actor D) (f : WireFrame) : Actor D :=
  if kind f =? ROW then
    match row_header (header f) with
    | None => a
    | Some row =>
        let s := shared a in
        let s := if (rh_seq row <=? sh_cursor s + 1)%N
                 then set_sh_cursor s (N.max (sh_cursor s) (rh_seq row)) else s in
        let a := with_shared a s in
        with_sink a (apply_row (sink a) (payload f) (sh_cursor s))
    end
  else a.

(** The pull: STATE first, the checkpoint when the plan asks for it
    ([fetched] is what the fetcher would answer), then the rows. *)
Definition http_pull (a : Actor D) (fetched : option (list Z)) (frames : list WireFrame) : Actor D :=
  match frames with
  | [] => a
  | f :: rest =>
      let cursor := sh_cursor (shared a) in
      let a' :=
        if kind f =? STATE then
          match state_header (header f) with
          | None => Some a
          | Some st =>
              let a := with_shared a (set_sh_server (shared a) (Some st)) in
              let contained := (sh_checkpoint_size st =? 0)%N || contains_frontier (sink a) (payload f) in
              match plan_catch_up cursor st contained with
              | RowsOnly _ => Some a
              | CheckpointThenRows after =>
                  bytes ← fetched;
                  d ← apply_checkpoint (sink a) bytes (sh_checkpoint_seq st);
                  Some (send_event (with_sink (with_shared a
                    (set_sh_cursor (shared a) (N.max (sh_cursor (shared a)) after))) d) Applied)
              end
          end
        else Some a in
      match a' with
      | None => match kind f =? STATE, state_header (header f) with
                | true, Some st => with_shared a (set_sh_server (shared a) (Some st))
                | _, _ => a
                end
      | Some a =>
          let a1 := foldl http_row a rest in
          if existsb (fun g => (kind g =? ROW) && match row_header (header g) with Some _ => true | None => false end) rest
          then send_event a1 Applied else a1
      end
  end.
End Client.

(** The body parser of the pull: slices behind u32 lengths; a truncated tail
    is dropped.  [fuel] bounds the number of slices by the body's length. *)
Fixpoint split_body (fuel : nat) (body : list Z) : list (list Z) :=
  match fuel with
  | O => []
  | S fuel' =>
      match body with
      | b0 :: b1 :: b2 :: b3 :: rest =>
          let len := Z.to_nat (u32_from_le_bytes b0 b1 b2 b3) in
          if decide (length rest < len)%nat then []
          else take len rest :: split_body fuel' (drop len rest)
      | _ => []
      end
  end.

Definition body_frames {J : JsonCodec} (body : list Z) : list WireFrame :=
  omap decode (split_body (length body) body).

(** ** Body framing *)

Lemma split_frame_body fs fuel :
  Forall (fun f => Z.of_nat (length f) < 2 ^ 32) fs -> (length fs <= fuel)%nat ->
  split_body fuel (frame_body fs) = fs.
Proof.
  intros Hfs. revert fuel. induction Hfs as [|f fs Hf _ IH]; intros fuel Hfuel.
  { by destruct fuel. }
  destruct fuel as [|fuel]; [cbn in Hfuel; lia|].
  unfold frame_body. cbn [mbind list_bind app u32_to_le_bytes split_body].
  rewrite u32_roundtrip, Nat2Z.id by lia. rewrite decide_False by (rewrite length_app; lia).
  rewrite take_app_length, drop_app_length. f_equal. apply IH. cbn in Hfuel. lia.
Qed.

Lemma length_frame_body fs : (length fs <= length (frame_body fs))%nat.
Proof.
  unfold frame_body. induction fs as [|f fs IH]; [done|].
  cbn [mbind list_bind app u32_to_le_bytes length]. rewrite length_app. cbn in IH. lia.
Qed.

(** The HTTP body is parsed back into exactly the frames the server
    framed, in order. *)
Theorem body_roundtrip {J : JsonCodec} fs :
  Forall (fun f => Z.of_nat (length f) < 2 ^ 32) fs ->
  body_frames (frame_body fs) = omap decode fs.
Proof. intros H. unfold body_frames. by rewrite split_frame_body by (done || apply length_frame_body). Qed.

Lemma body_roundtrip_witness :
  @body_frames empty_object_codec (frame_body [@encode empty_object_codec ROW (Object []) [7];
                                               @encode empty_object_codec ROWS_DONE (Object []) []]) =
    [mk_frame ROW (Object []) [7]; mk_frame ROWS_DONE (Object []) []].
Proof.
  refine (eq_trans (@body_roundtrip empty_object_codec _ _) _); [|reflexivity].
  repeat constructor.
Defined.

(** ** The cursor never lies *)

Section Honest.
Context {D : Type} {Sink : ChatDocSink D} {Laws : ChatDocSinkLaws D Sink}.
Implicit Types (a : Actor D) (log : list Row).

(** A room's log: sequences from 1 without a gap. *)
Definition contiguous (log : list Row) : Prop :=
  cr_seq <$> log = N.of_nat <$> seq 1 (length log).

Lemma contiguous_lookup log i r : contiguous log -> log !! i = Some r -> cr_seq r = N.of_nat (S i).
Proof.
  intros Hc Hi. assert ((cr_seq <$> log) !! i = Some (cr_seq r)) as E by by rewrite list_lookup_fmap, Hi.
  rewrite Hc, list_lookup_fmap in E. apply fmap_Some in E as (n & Hn & ->).
  apply lookup_seq in Hn as [-> _]. lia.
Qed.

Lemma contiguous_inj log r r' :
  contiguous log -> r ∈ log -> r' ∈ log -> cr_seq r = cr_seq r' -> r = r'.
Proof.
  intros Hc Hr Hr'. apply (NoDup_fmap_inj_on cr_seq log); [|done|done].
  rewrite Hc. apply NoDup_fmap_2; [apply _|apply NoDup_seq].
Qed.

(** Every row up to the cursor is in the document, and the cursor does not
    claim rows the room does not have. *)
Definition honest log a : Prop :=
  (sh_cursor (shared a) <= N.of_nat (length log))%N /\
  forall r, r ∈ log -> (cr_seq r <= sh_cursor (shared a))%N -> holds (sink a) (cr_payload r).

(** Frames a room with this log can send, lost, repeated and reordered at
    will: its rows, acks of batches this client pushed (whose updates come
    from its own document), and anything that is neither. *)
Inductive genuine log a : WireFrame -> Prop :=
  | genuine_row r : r ∈ log -> u64 (cr_seq r) -> genuine log a (encode_row r)
  | genuine_ack r dup :
      r ∈ log -> u64 (cr_seq r) -> holds (sink a) (cr_payload r) ->
      genuine log a (ack_frame (cr_batch_id r) (cr_seq r) dup)
  | genuine_other f : kind f <> ROW -> kind f <> ACK -> genuine log a f.

Lemma walk_cursor s n :
  sh_cursor (walk s n) = if (sh_cursor s + 1 <? n)%N then sh_cursor s else N.max (sh_cursor s) n.
Proof. unfold walk. by case_match. Qed.

(** Walking to a row that is in the document keeps the claim. *)
Lemma honest_walk log a a' r :
  contiguous log -> honest log a -> r ∈ log -> holds (sink a') (cr_payload r) ->
  (forall v, holds (sink a) v -> holds (sink a') v) ->
  sh_cursor (shared a') = sh_cursor (walk (shared a) (cr_seq r)) -> honest log a'.
Proof.
  intros Hc [Hlen Hh] Hr Hhr Hk E. unfold honest. rewrite E, walk_cursor.
  apply list_elem_of_lookup in Hr as [i Hi].
  pose proof (lookup_lt_Some _ _ _ Hi). pose proof (contiguous_lookup _ _ _ Hc Hi) as Hseq.
  destruct (N.ltb_spec (sh_cursor (shared a) + 1) (cr_seq r)).
  { split; [done|]. intros r' Hr' Hle. apply Hk. auto. }
  split; [lia|]. intros r' Hr' Hle.
  destruct (N.le_gt_cases (cr_seq r') (sh_cursor (shared a))) as [Hold|Hnew]; [apply Hk; auto|].
  assert (r' = r) as ->; [|done]. apply (contiguous_inj log); [done|done| |lia].
  by eapply list_elem_of_lookup_2.
Qed.

Lemma handle_error_frame a now h :
  sink (handle_error a now h) = sink a /\
  sh_cursor (shared (handle_error a now h)) = sh_cursor (shared a).
Proof. unfold handle_error. by repeat case_match. Qed.

Lemma handle_other a now f :
  kind f <> ROW -> kind f <> ACK ->
  (handle_frame a now f).1 = true /\ sink (handle_frame a now f).2 = sink a /\
  sh_cursor (shared (handle_frame a now f).2) = sh_cursor (shared a).
Proof.
  intros Hr Ha. unfold handle_frame.
  rewrite (proj2 (Z.eqb_neq _ _) Hr), (proj2 (Z.eqb_neq _ _) Ha).
  destruct (kind f =? PRESENCE); [done|].
  destruct (kind f =? PROBE_OK).
  { by destruct (probe_ok_header (header f)), (sh_server (shared a)). }
  destruct (kind f =? STATE); [by destruct (state_header _)|].
  destruct (kind f =? ERROR); [|done]. split; [done|]. apply handle_error_frame.
Qed.

Lemma handle_row a now r :
  u64 (cr_seq r) ->
  handle_frame a now (encode_row r) =
    (let s := walk (shared a) (cr_seq r) in
     (true, send_event (with_sink (with_shared a s) (apply_row (sink a) (cr_payload r) (sh_cursor s))) Applied)).
Proof. intros Hu. unfold handle_frame. cbn [kind encode_row Z.eqb ROW]. by rewrite row_header_roundtrip. Qed.

Lemma handle_ack_spec a now b s dup :
  u64 s ->
  let a' := (handle_frame a now (ack_frame b s dup)).2 in
  (handle_frame a now (ack_frame b s dup)).1 = true /\
  sh_cursor (shared a') = sh_cursor (walk (shared a) s) /\
  sh_gap_repair (shared a') = sh_gap_repair (walk (shared a) s) /\
  sink a' = advance_cursor (sink a) (sh_cursor (shared a')) /\
  sh_pending (shared a') = retire b (sh_pending (shared a)).
Proof.
  intros Hu. unfold handle_frame. cbn [kind ack_frame Z.eqb ROW ACK]. rewrite ack_header_roundtrip by done.
  cbn [ah_batch_id ah_seq fst snd]. unfold walk.
  cbn [sh_cursor set_sh_pending]. destruct (_ <? s)%N; cbn;
    destruct (sh_quota_blocked _), (retire b _) eqn:E; cbn; by rewrite ?E.
Qed.

Lemma honest_step log a now f :
  contiguous log -> honest log a -> genuine log a f -> honest log (handle_frame a now f).2.
Proof.
  intros Hc Hh [r Hr Hu|r dup Hr Hu Hhold|g Hk1 Hk2].
  - rewrite handle_row by done. apply (honest_walk log a _ r); try done; cbn.
    + apply apply_row_holds.
    + intros v. apply apply_row_keeps.
  - destruct (handle_ack_spec a now (cr_batch_id r) (cr_seq r) dup Hu) as (_ & Hcur & _ & Hs & _).
    apply (honest_walk log a _ r); try done; rewrite Hs.
    + by apply advance_keeps.
    + intros v. apply advance_keeps.
  - destruct (handle_other a now g Hk1 Hk2) as (_ & Hs & Hcur).
    unfold honest. by rewrite Hs, Hcur.
Qed.

(** The cursor never lies: whatever genuine frames arrive, in whatever
    order and however often, every row up to the cursor stays in the document;
    the connection is never torn down over them, and a row or ack past the
    next sequence holds the cursor and asks for a repair. *)
Theorem cursor_never_lies log a now f :
  contiguous log -> honest log a -> genuine log a f ->
  honest log (handle_frame a now f).2 /\
  (handle_frame a now f).1 = true /\
  (forall r, r ∈ log -> u64 (cr_seq r) -> (sh_cursor (shared a) + 1 < cr_seq r)%N ->
     f = encode_row r \/ (exists dup, f = ack_frame (cr_batch_id r) (cr_seq r) dup) ->
     sh_gap_repair (shared (handle_frame a now f).2) = true /\
     sh_cursor (shared (handle_frame a now f).2) = sh_cursor (shared a)).
Proof.
  intros Hc Hh Hg. split_and!; [by apply honest_step| |].
  - destruct Hg as [r Hr Hu|r dup Hr Hu Hhold|g Hk1 Hk2].
    + by rewrite handle_row.
    + by apply handle_ack_spec.
    + by apply handle_other.
  - intros r Hr Hu Hgap [->|[dup ->]].
    + rewrite handle_row by done. cbn. unfold walk. by rewrite (proj2 (N.ltb_lt _ _) Hgap).
    + destruct (handle_ack_spec a now (cr_batch_id r) (cr_seq r) dup Hu) as (_ & -> & -> & _).
      unfold walk. by rewrite (proj2 (N.ltb_lt _ _) Hgap).
Qed.

(** ** Joins, repairs and the HTTP cycle keep the claim *)

(** A STATE frame that tells the truth about the log: its head, and a
    checkpoint whose frontier stands for the rows it covers. *)
Record honest_state log (f : WireFrame) (st : StateHeader) : Prop := {
  hs_header : state_header (header f) = Some st;
  hs_head : sh_head_seq st = N.of_nat (length log);
  hs_checkpoint : (sh_checkpoint_seq st <= N.of_nat (length log))%N;
  hs_frontier : forall r, r ∈ log -> (cr_seq r <= sh_checkpoint_seq st)%N ->
    covers (payload f) (cr_payload r);
}.

Lemma honest_lower log a a' :
  honest log a -> (forall v, holds (sink a) v -> holds (sink a') v) ->
  (sh_cursor (shared a') <= sh_cursor (shared a))%N -> honest log a'.
Proof.
  intros [Hlen Hh] Hk Hle. split; [lia|]. intros r Hr Hc. apply Hk, Hh; [done|lia].
Qed.

(** Joining with a RowsOnly plan, and with a checkpoint that imports. *)
Lemma on_state_honest log a first f st plan frames a' :
  honest log a -> honest_state log f st -> on_state a first f = Some (plan, frames, a') ->
  match plan with
  | RowsOnly _ => honest log a'
  | CheckpointThenRows _ =>
      sh_cursor (shared a') = sh_checkpoint_seq st /\ sink a' = sink a
  end.
Proof.
  intros Hh [Hst Hhead Hcp Hfr]. unfold on_state. rewrite Hst. cbn [mbind option_bind].
  set (a1 := with_shared a _). set (a2 := if (_ <? _)%N then _ else a1).
  assert (sink a2 = sink a /\ shared a2 = shared a1 /\ sh_cursor (shared a1) = sh_cursor (shared a))
    as (Hs2 & Hsh2 & Hc1) by (unfold a2; by case_match).
  set (clamp := if (0 <? _)%N then _ else _). set (s := if _ && _ then _ else _).
  assert (sh_cursor s <= sh_cursor (shared a))%N as Hle.
  { unfold s. destruct (negb (amnesty_done a2) && _) eqn:E; rewrite Hsh2; cbn; [|lia].
    apply andb_true_iff in E as [_ E%N.ltb_lt]. rewrite Hsh2, Hc1 in E. lia. }
  cbn. rewrite Hs2. set (contained := (_ =? 0)%N || _). intros [= <- _ <-].
  assert (forall c, sh_cursor (set_sh_cursor s c) = c) as Hset by done.
  unfold plan_catch_up. rewrite Hhead. destruct Hh as [Hlen Hh].
  rewrite (proj2 (N.ltb_ge _ _)) by lia.
  destruct (N.eqb_spec (sh_checkpoint_size st) 0) as [Hsz|Hsz].
  { apply (honest_lower log a); cbn; [done|by rewrite ?Hs2|lia]. }
  destruct contained eqn:Econt; cbn; [|by rewrite ?Hs2].
  unfold contained in Econt. cbn in Econt.
  split; cbn; [lia|]. rewrite ?Hs2. intros r Hr Hc.
  destruct (N.le_gt_cases (cr_seq r) (sh_checkpoint_seq st)) as [?|?].
  - by eapply frontier_holds, Hfr.
  - apply Hh; [done|lia].
Qed.

Lemma on_checkpoint_honest log a cp bytes a' :
  (cp <= N.of_nat (length log))%N -> sh_cursor (shared a) = cp ->
  (forall r, r ∈ log -> (cr_seq r <= cp)%N -> covers bytes (cr_payload r)) ->
  on_checkpoint a cp bytes = Some a' -> honest log a'.
Proof.
  intros Hcp Hc Hcov. unfold on_checkpoint. intros (d & Hd & [= <-])%bind_Some.
  split; cbn; [lia|]. intros r Hr Hle. eapply checkpoint_holds; [done|]. apply Hcov; [done|lia].
Qed.

(** One step of the client against a room whose log only grows. *)
Inductive sys_step : list Row * Actor D -> list Row * Actor D -> Prop :=
  | sys_frame log a now f : genuine log a f -> sys_step (log, a) (log, (handle_frame a now f).2)
  | sys_append log a r :
      cr_seq r = N.of_nat (S (length log)) -> sys_step (log, a) (log ++ [r], a)
  | sys_enqueue log a b bytes : sys_step (log, a) (log, enqueue_update a b bytes)
  | sys_repair log a n : sys_step (log, a) (log, (maybe_repair_gap a n).1.2)
  | sys_join log a first f st after frames a' :
      honest_state log f st -> on_state a first f = Some (RowsOnly after, frames, a') ->
      sys_step (log, a) (log, a')
  | sys_join_checkpoint log a first f st after frames a1 bytes a2 :
      honest_state log f st -> on_state a first f = Some (CheckpointThenRows after, frames, a1) ->
      (forall r, r ∈ log -> (cr_seq r <= sh_checkpoint_seq st)%N -> covers bytes (cr_payload r)) ->
      on_checkpoint a1 (sh_checkpoint_seq st) bytes = Some a2 ->
      sys_step (log, a) (log, a2)
  | sys_http_ack log a r dup :
      r ∈ log -> u64 (cr_seq r) -> holds (sink a) (cr_payload r) ->
      sys_step (log, a) (log, http_ack a (header (ack_frame (cr_batch_id r) (cr_seq r) dup)))
  | sys_http_row log a r :
      r ∈ log -> u64 (cr_seq r) -> sys_step (log, a) (log, http_row a (encode_row r)).

Definition sys_ok (p : list Row * Actor D) : Prop := contiguous p.1 /\ honest p.1 p.2.

Lemma honest_hold_or_walk log a a' r :
  contiguous log -> honest log a -> r ∈ log -> holds (sink a') (cr_payload r) ->
  (forall v, holds (sink a) v -> holds (sink a') v) ->
  sh_cursor (shared a') =
    (if (cr_seq r <=? sh_cursor (shared a) + 1)%N then N.max (sh_cursor (shared a)) (cr_seq r)
     else sh_cursor (shared a)) ->
  honest log a'.
Proof.
  intros Hc Hh Hr Hhr Hk E. apply (honest_walk log a _ r); try done.
  rewrite E, walk_cursor. destruct (N.leb_spec (cr_seq r) (sh_cursor (shared a) + 1)).
  - by rewrite (proj2 (N.ltb_ge _ _)).
  - by rewrite (proj2 (N.ltb_lt _ _)).
Qed.

Lemma sys_step_ok p p' : sys_step p p' -> sys_ok p -> sys_ok p'.
Proof.
  intros Hs [Hc Hh]. destruct Hs as [log a now f Hg|log a r Hr|log a b bytes|log a n
    |log a first f st after frames a' Hst Hon|log a first f st after frames a1 bytes a2 Hst Hon Hcov Hcp
    |log a r dup Hr Hu Hhold|log a r Hr Hu]; unfold sys_ok; cbn [fst snd] in *.
  - split; [done|]. by apply honest_step.
  - split.
    + unfold contiguous in *. rewrite fmap_app, length_app, seq_app, fmap_app, Hc. cbn. by rewrite Hr.
    + destruct Hh as [Hlen Hh]. split; [rewrite length_app; cbn; lia|].
      intros r' [Hr'| ->%list_elem_of_singleton]%elem_of_app Hle; [by apply Hh|lia].
  - split; [done|]. unfold enqueue_update. by case_decide.
  - split; [done|]. unfold maybe_repair_gap. by repeat case_match.
  - split; [done|]. exact (on_state_honest _ _ _ _ _ _ _ _ Hh Hst Hon).
  - split; [done|]. destruct (on_state_honest _ _ _ _ _ _ _ _ Hh Hst Hon) as [Hcur _].
    eapply on_checkpoint_honest; [apply Hst|exact Hcur|exact Hcov|exact Hcp].
  - split; [done|]. unfold http_ack.
    assert (obj_get (header (ack_frame (cr_batch_id r) (cr_seq r) dup)) "seq" ≫= as_u64 =
      Some (cr_seq r)) as -> by exact (as_u64_of_N _ Hu). cbn.
    apply (honest_hold_or_walk log a _ r); try done; cbn.
    + by apply advance_keeps.
    + intros v. apply advance_keeps.
    + by destruct (_ <=? _)%N.
  - split; [done|]. unfold http_row. cbn [kind encode_row Z.eqb ROW].
    change (kind (encode_row r) =? ROW) with true. rewrite row_header_roundtrip by done. cbn.
    apply (honest_hold_or_walk log a _ r); try done; cbn.
    + apply apply_row_holds.
    + intros v. apply apply_row_keeps.
    + by destruct (_ <=? _)%N.
Qed.

End Honest.

(** ** Backfill and the pending queue *)

Section Backfill.
Context {D : Type} {Sink : ChatDocSink D} {Laws : ChatDocSinkLaws D Sink}.
Implicit Types (a : Actor D) (log : list Row).

(** Rows applied in order from the cursor walk it to the end. *)
Lemma backfill_rows now rows tail a :
  (forall i r, rows !! i = Some r -> cr_seq r = (sh_cursor (shared a) + N.of_nat (S i))%N /\ u64 (cr_seq r)) ->
  exists a',
    backfill a now ((encode_row <$> rows) ++ tail) = backfill a' now tail /\
    sh_cursor (shared a') = (sh_cursor (shared a) + N.of_nat (length rows))%N /\
    sh_pending (shared a') = sh_pending (shared a) /\
    sh_gap_repair (shared a') = sh_gap_repair (shared a) /\
    (forall v, holds (sink a) v -> holds (sink a') v) /\
    (forall r, r ∈ rows -> holds (sink a') (cr_payload r)).
Proof.
  revert a. induction rows as [|r rows IH]; intros a Hrows.
  { exists a. split_and!; try done; [cbn; lia|]. intros r H. by apply not_elem_of_nil in H. }
  destruct (Hrows 0%nat r eq_refl) as [Hseq Hu].
  rewrite fmap_cons, <- app_comm_cons. cbn [backfill].
  change (kind (encode_row r) =? ROWS_DONE) with false. cbn iota.
  rewrite handle_row by done. cbn zeta. cbv beta iota.
  set (s := walk (shared a) (cr_seq r)).
  assert (sh_cursor s = cr_seq r /\ sh_pending s = sh_pending (shared a) /\
    sh_gap_repair s = sh_gap_repair (shared a)) as (Hs1 & Hs2 & Hs3).
  { unfold s, walk. rewrite (proj2 (N.ltb_ge _ _)) by lia. cbn. split_and!; [lia|done|done]. }
  set (a1 := send_event _ Applied).
  destruct (IH a1) as (a' & E & Hc & Hp & Hg & Hk & Hr).
  { intros i r' Hi. destruct (Hrows (S i) r' Hi) as [-> ?]. split; [|done].
    unfold a1. cbn [shared send_event with_sink with_shared]. lia. }
  assert (sh_cursor (shared a1) = cr_seq r) as Hc1 by done.
  exists a'. rewrite E. split_and!; [done|rewrite Hc, Hc1, Hseq; cbn [length]; lia| | | |].
  - rewrite Hp. exact Hs2.
  - rewrite Hg. exact Hs3.
  - intros v Hv. apply Hk. unfold a1. cbn. by apply apply_row_keeps.
  - intros r' [->|Hin]%elem_of_cons; [|by apply Hr]. apply Hk. unfold a1. cbn. apply apply_row_holds.
Qed.

Lemma rows_after_cursor db chat c :
  contiguous (log_of db chat) -> chat_db_up db = true ->
  pg_chat_rows_after db chat c None = inr (drop (N.to_nat c) (log_of db chat)).
Proof.
  intros Hc Hup. unfold pg_chat_rows_after. rewrite Hup. cbn [negb]. f_equal.
  set (log := log_of db chat) in *.
  rewrite <- (take_drop (N.to_nat c) log) at 1.
  rewrite filter_app, list_filter_none, list_filter_all; [done| |].
  - apply Forall_lookup. intros i r Hi. rewrite lookup_drop in Hi.
    rewrite (contiguous_lookup _ _ _ Hc Hi). split; [lia|done].
  - apply Forall_lookup. intros i r [Hi Hlt]%lookup_take_Some.
    rewrite (contiguous_lookup _ _ _ Hc Hi). lia.
Qed.

(** C10. A backfill completes the document: the room's answer to a row request
    at an honest cursor, own rows included, leaves the cursor at the head,
    every row of the log in the document, and the unsent batches queued. *)
Theorem backfill_completes db chat device a now :
  log_wf db chat -> chat_db_up db = true -> honest (log_of db chat) a ->
  Forall (fun r => u64 (cr_seq r)) (log_of db chat) -> u64 (sh_cursor (shared a)) ->
  exists frames head a',
    dispatch device db chat (mk_frame ROWS_REQ (rows_req_header (sh_cursor (shared a)) false) []) =
      (inr frames, device, db) /\
    backfill a now frames = Some (Some head, a') /\
    sh_cursor (shared a') = head_of db chat /\
    (forall r, r ∈ log_of db chat -> holds (sink a') (cr_payload r)) /\
    sh_pending (shared a') = sh_pending (shared a).
Proof.
  intros [Hc Hh _] Hup [Hlen Hhold] Hu64 Huc.
  set (log := log_of db chat) in *. set (c := sh_cursor (shared a)) in *.
  set (rows := drop (N.to_nat c) log).
  set (head := match last rows with Some r => cr_seq r | None => c end).
  destruct (backfill_rows now rows [rows_done head] a) as (a' & E & Hcur & Hp & _ & Hk & Hr).
  { intros i r Hi. unfold rows in Hi. rewrite lookup_drop in Hi. fold c.
    rewrite (contiguous_lookup _ _ _ Hc Hi). split; [lia|].
    rewrite Forall_lookup in Hu64. specialize (Hu64 _ _ Hi).
    by rewrite (contiguous_lookup _ _ _ Hc Hi) in Hu64. }
  assert (u64 head) as Huh.
  { unfold head. destruct (last rows) as [r|] eqn:El; [|done].
    apply last_Some_elem_of in El. rewrite Forall_forall in Hu64. apply Hu64.
    apply list_elem_of_lookup in El as [i Hi]. unfold rows in Hi. rewrite lookup_drop in Hi.
    by eapply list_elem_of_lookup_2. }
  exists ((encode_row <$> rows) ++ [rows_done head]), head, a'. split_and!.
  - unfold dispatch. change (kind (mk_frame ROWS_REQ _ [])) with ROWS_REQ. cbn [Z.eqb HELLO ROWS_REQ].
    cbn [header]. rewrite rows_req_roundtrip by done.
    change (chat_rows_after db chat c None) with (pg_chat_rows_after db chat c None).
    by rewrite rows_after_cursor.
  - rewrite E. cbn [backfill]. change (kind (rows_done head) =? ROWS_DONE) with true. cbn iota.
    assert (rows_done_header (header (rows_done head)) = Some head) as ->
      by exact (as_u64_of_N _ Huh). done.
  - rewrite Hcur, Hh. fold c log. unfold rows. rewrite length_drop. lia.
  - intros r Hin. destruct (N.le_gt_cases (cr_seq r) c) as [Hle|Hgt]; [by apply Hk, Hhold|].
    apply Hr. unfold rows. apply list_elem_of_lookup in Hin as [i Hi].
    apply list_elem_of_lookup. exists (i - N.to_nat c)%nat. rewrite lookup_drop.
    rewrite (contiguous_lookup _ _ _ Hc Hi) in Hgt. by replace (_ + _)%nat with i by lia.
  - done.
Qed.
End Backfill.

(** ** Nothing leaves the queue without a verdict *)

(** The frame settles the batch: an ack of it, or an error that names it with
    a permanent code. *)
Definition settles (f : WireFrame) (b : string) : Prop :=
  (kind f = ACK /\ exists ack, ack_header (header f) = Some ack /\ ah_batch_id ack = b) \/
  (kind f = ERROR /\ obj_get (header f) "batchId" ≫= as_str = Some b /\
   exists code, obj_get (header f) "code" ≫= as_str = Some code /\
     (code = "too_large" \/ code = "empty" \/ code = "bad_push")).

Section Queue.
Context {D : Type} {Sink : ChatDocSink D}.
Implicit Types a : Actor D.

Lemma elem_of_retire p b l : p ∈ retire b l <-> p ∈ l /\ pp_batch_id p <> b.
Proof. unfold retire. rewrite list_elem_of_filter. naive_solver. Qed.

Lemma handle_error_pending a now h p :
  p ∈ sh_pending (shared a) -> ~ p ∈ sh_pending (shared (handle_error a now h)) ->
  obj_get h "batchId" ≫= as_str = Some (pp_batch_id p) /\
  exists code, obj_get h "code" ≫= as_str = Some code /\
    (code = "too_large" \/ code = "empty" \/ code = "bad_push").
Proof.
  intros Hin. unfold handle_error.
  destruct (obj_get h "code" ≫= as_str) as [code|] eqn:Ecode; cbn [default].
  2:{ cbn. by intros []. }
  match goal with |- context [if ?b then _ else _] => destruct b eqn:E end.
  - apply andb_true_iff in E as [Hcode Hb%negb_true_iff].
    assert (code = "too_large" \/ code = "empty" \/ code = "bad_push") as Hc.
    { rewrite !orb_true_iff, !String.eqb_eq in Hcode. tauto. }
    intros Hout. assert (pp_batch_id p = default "" (obj_get h "batchId" ≫= as_str)) as Hp.
    { destruct (decide (pp_batch_id p = default "" (obj_get h "batchId" ≫= as_str))) as [?|Hne]; [done|].
      destruct Hout. case_match; cbn; by apply elem_of_retire. }
    destruct (obj_get h "batchId" ≫= as_str) as [b|]; [|done]. cbn in Hp. subst b. eauto.
  - intros Hout. destruct Hout. by case_match.
Qed.

(** A local write stays queued until the server decided about it: a batch
    leaves the pending queue only on an ack of that very batch or on a
    permanent rejection that names it; every other frame, quota errors and
    errors without a batch included, leaves the queue alone. *)
Theorem queue_until_verdict a now f p :
  p ∈ sh_pending (shared a) ->
  p ∈ sh_pending (shared (handle_frame a now f).2) \/ settles f (pp_batch_id p).
Proof.
  intros Hin. destruct (decide (p ∈ sh_pending (shared (handle_frame a now f).2))) as [?|Hout];
    [by left|right].
  unfold handle_frame in Hout. destruct (kind f =? ROW).
  { destruct Hout. destruct (row_header _); cbn; [|done]. unfold walk. by case_match. }
  destruct (Z.eqb_spec (kind f) ACK) as [Hk|Hk].
  { left. split; [done|]. destruct (ack_header (header f)) as [ack|]; [|done].
    exists ack. split; [done|]. destruct (decide (ah_batch_id ack = pp_batch_id p)) as [?|Hne]; [done|].
    destruct Hout. cbn. assert (p ∈ retire (ah_batch_id ack) (sh_pending (shared a))) as Hr
      by by apply elem_of_retire.
    unfold walk. cbn. destruct (_ <? _)%N; cbn; destruct (sh_quota_blocked _); cbn;
      by destruct (retire _ _). }
  destruct (kind f =? PRESENCE); [done|].
  destruct (kind f =? PROBE_OK).
  { destruct Hout. by destruct (probe_ok_header (header f)), (sh_server (shared a)). }
  destruct (kind f =? STATE); [destruct Hout; by destruct (state_header _)|].
  destruct (Z.eqb_spec (kind f) ERROR) as [He|He]; [|done].
  right. split; [done|]. by apply (handle_error_pending a now).
Qed.
End Queue.

(** ** A document of imported updates *)

(** The engine's sink with the document as the list of updates it imported,
    and the cursor saved with it. *)
Record ListDoc := mk_list_doc { ld_updates : list (list Z); ld_saved : N }.

(** A checkpoint or frontier is one update. *)
#[export] Instance list_sink : ChatDocSink ListDoc := {|
  apply_row := fun d u c => mk_list_doc (ld_updates d ++ [u]) c;
  apply_checkpoint := fun d b c => Some (mk_list_doc (ld_updates d ++ [b]) c);
  contains_frontier := fun d f => bool_decide (f ∈ ld_updates d);
  advance_cursor := fun d c => mk_list_doc (ld_updates d) c;
  holds := fun d u => u ∈ ld_updates d;
  covers := fun b u => b = u;
|}.

#[export] Instance list_sink_laws : ChatDocSinkLaws ListDoc list_sink.
Proof.
  split; cbn; intros.
  - apply elem_of_app. right. by apply list_elem_of_singleton.
  - apply elem_of_app. by left.
  - done.
  - simplify_eq. apply elem_of_app. right. by apply list_elem_of_singleton.
  - simplify_eq. apply elem_of_app. by left.
  - subst. by apply bool_decide_eq_true in H.
Qed.

Definition sample_actor (c : N) (doc : list (list Z)) (pend : list PendingPush) : Actor ListDoc :=
  mk_chat_actor (set_sh_pending (shared_new c) pend) (mk_list_doc doc c) flags_default [] true true.

Definition sample_log : list Row :=
  [mk_chat_row 1 "dev-a" "b1" [10]; mk_chat_row 2 "dev-b" "b2" [20]; mk_chat_row 3 "dev-b" "b3" [30]].

Definition sample_room : PgStore :=
  mk_pg_store true {[ "c" := 3%N ]} {[ "c" := sample_log ]} ∅.

Lemma sample_honest : honest sample_log (sample_actor 1 [[10]] []).
Proof.
  split; [done|]. cbn. intros r Hr Hle. unfold sample_log in Hr. rewrite !elem_of_cons, elem_of_nil in Hr.
  destruct Hr as [->|[->|[->|[]]]]; cbn in *; [by left|lia|lia].
Qed.

Lemma cursor_never_lies_witness :
  let a := sample_actor 1 [[10]] [] in
  let f := encode_row (mk_chat_row 3 "dev-b" "b3" [30]) in
  sh_gap_repair (shared (handle_frame a 0 f).2) = true /\ honest sample_log (handle_frame a 0 f).2.
Proof.
  intros a f. assert (mk_chat_row 3 "dev-b" "b3" [30] ∈ sample_log) as Hin by (right; right; by left).
  destruct (cursor_never_lies sample_log a 0 f) as (H1 & _ & H2); [done|apply sample_honest| |].
  - by apply genuine_row.
  - split; [|exact H1].
    exact (proj1 (H2 (mk_chat_row 3 "dev-b" "b3" [30]) Hin ltac:(done) eq_refl (or_introl eq_refl))).
Defined.


Lemma backfill_completes_witness :
  exists frames head a',
    dispatch "dev-a" sample_room "c" (mk_frame ROWS_REQ (rows_req_header 1 false) []) =
      (inr frames, "dev-a", sample_room) /\
    backfill (sample_actor 1 [[10]] []) 0 frames = Some (Some head, a') /\
    sh_cursor (shared a') = 3%N.
Proof.
  destruct (backfill_completes sample_room "c" "dev-a" (sample_actor 1 [[10]] []) 0)
    as (frames & head & a' & H1 & H2 & H3 & _).
  - split; [done|done|]. by apply (bool_decide_unpack _).
  - done.
  - apply sample_honest.
  - by repeat constructor.
  - done.
  - exists frames, head, a'. split_and!; [exact H1|exact H2|exact H3].
Defined.

Lemma queue_until_verdict_witness :
  let a := sample_actor 1 [] [mk_push "b7" [7]] in
  let f := mk_frame ERROR (Object [("code", Str "quota")]) [] in
  mk_push "b7" [7] ∈ sh_pending (shared (handle_frame a 0 f).2) \/ settles f "b7".
Proof. intros a f. apply (queue_until_verdict a 0 f (mk_push "b7" [7])). by left. Defined.

(** ** The HTTP pull and own rows *)

(** A device whose own row (sequence 2) is not in its queue any more and not
    below its cursor pulls over HTTP: the server leaves own rows out, so the
    next row is a gap, the cursor stays, and every cycle pulls the same rows
    again without ever fetching the own one. *)
Lemma http_pull_stalls_on_own_row :
  let room := mk_publishing (mk_pg_store true {[ "c" := 3%N ]}
    {[ "c" := [mk_chat_row 1 "dev-b" "b1" [10]; mk_chat_row 2 "dev-a" "b2" [20];
               mk_chat_row 3 "dev-b" "b3" [30]] ]} ∅) Hub.hub_new in
  let a0 := sample_actor 1 [[10]] [] in
  let pull a := match http_get_rows room "c" "dev-a" (sh_cursor (shared a)) with
                | Some frames => http_pull a None frames
                | None => a
                end in
  sh_cursor (shared (pull a0)) = 1%N /\ sh_cursor (shared (pull (pull a0))) = 1%N /\
  ld_updates (sink (pull (pull a0))) = [[10]; [30]; [30]].
Proof. by vm_compute. Qed.
