(* ===== verification/Text.v ===== *)
(** String operations of the Rust standard library on UTF-8 byte strings:
    prefixes, [lines], [trim] and [split_once], used by the attachment
    references and the message parts. *)
From S2P Require Import Prelude Json.

(** [str::strip_prefix]. *)
Fixpoint strip_prefix (p s : string) : option string :=
  match p, s with
  | EmptyString, _ => Some s
  | String a p', String b s' => if Ascii.eqb a b then strip_prefix p' s' else None
  | String _ _, EmptyString => None
  end.

(** [str::starts_with]. *)
Definition starts_with (p s : string) : bool := String.prefix p s.

Fixpoint rev_onto (s acc : string) : string :=
  match s with
  | EmptyString => acc
  | String a s => rev_onto s (String a acc)
  end.

Definition reverse (s : string) : string := rev_onto s "".

Definition strip_suffix (p s : string) : option string :=
  reverse <$> strip_prefix (reverse p) (reverse s).

(** [str::split_once] at a one-byte separator. *)
Fixpoint split_once (c : Ascii.ascii) (s : string) : option (string * string) :=
  match s with
  | EmptyString => None
  | String a s' =>
      if Ascii.eqb a c then Some (EmptyString, s')
      else '(x, y) ← split_once c s'; Some (String a x, y)
  end.

(** *** White space

    The UTF-8 encodings of the characters of Unicode [White_Space]. A
    character never is a proper prefix or suffix of another in UTF-8, so
    trimming encodings trims characters. *)
Definition bytes_string (l : list nat) : string :=
  foldr (fun n s => String (Ascii.ascii_of_nat n) s) "" l.

Definition WHITE_SPACE : list string := bytes_string <$>
  (((fun n => [n]) <$> [9; 10; 11; 12; 13; 32]) ++
   [[194; 133]; [194; 160]; [225; 154; 128]] ++
   ((fun n => [226; 128; n]) <$> [128; 129; 130; 131; 132; 133; 134; 135; 136; 137; 138; 168; 169; 175]) ++
   [[226; 129; 159]; [227; 128; 128]])%nat.

Fixpoint strip_first (ps : list string) (s : string) : option string :=
  match ps with
  | [] => None
  | p :: ps => match strip_prefix p s with Some r => Some r | None => strip_first ps s end
  end.

Fixpoint trim_with (fuel : nat) (ps : list string) (s : string) : string :=
  match fuel with
  | O => s
  | S fuel => match strip_first ps s with Some r => trim_with fuel ps r | None => s end
  end.

Definition trim_start (s : string) : string := trim_with (String.length s) WHITE_SPACE s.

Definition trim_end (s : string) : string :=
  reverse (trim_with (String.length s) (reverse <$> WHITE_SPACE) (reverse s)).

Definition trim (s : string) : string := trim_end (trim_start s).

(** *** Lines

    [str::lines]: the text up to each newline, a carriage return before the
    newline dropped; an unterminated last line is kept as it is. *)
Definition newline : Ascii.ascii := Ascii.ascii_of_nat 10.
Definition return_char : string := bytes_string [13%nat].

Fixpoint lines_from (acc : string) (s : string) : list string :=
  match s with
  | EmptyString => if String.eqb acc "" then [] else [reverse acc]
  | String a s' =>
      if Ascii.eqb a newline then
        (let line := reverse acc in default line (strip_suffix return_char line)) :: lines_from "" s'
      else lines_from (String a acc) s'
  end.

Definition lines (s : string) : list string := lines_from "" s.

(** *** Bytes and slices *)

Definition byte_in (lo hi : nat) (a : Ascii.ascii) : bool :=
  let n := Ascii.nat_of_ascii a in ((lo <=? n) && (n <=? hi))%nat.

Definition bytes_of (text : string) : list Ascii.ascii := String.list_ascii_of_string text.

(** [&text[start..end]]. *)
Definition slice (start stop : nat) (text : string) : string :=
  String.string_of_list_ascii (take (stop - start) (drop start (bytes_of text))).

Definition continuation_byte (a : Ascii.ascii) : bool :=
  let n := Ascii.nat_of_ascii a in (128 <=? n)%nat && (n <? 192)%nat.

(** [str::split] on one character. *)
Fixpoint split_on (c : Ascii.ascii) (s : string) : list string :=
  match s with
  | EmptyString => [""]
  | String a s =>
      if Ascii.eqb a c then "" :: split_on c s
      else match split_on c s with x :: l => String a x :: l | [] => [String a ""] end
  end.

Fixpoint no_control (s : string) : bool :=
  match s with EmptyString => true | String a s => negb (byte_in 0 31 a) && no_control s end.

Definition graphic (a : Ascii.ascii) : bool := byte_in 33 126 a.

Fixpoint all_graphic (s : string) : bool :=
  match s with EmptyString => true | String a s => graphic a && all_graphic s end.

Definition em_dash : string := bytes_string [226; 128; 148]%nat.

(** [u8::is_ascii_alphanumeric], [to_ascii_lowercase], [eq_ignore_ascii_case]. *)
Definition alphanumeric (a : Ascii.ascii) : bool :=
  byte_in 48 57 a || byte_in 65 90 a || byte_in 97 122 a.

Definition ascii_lower (a : Ascii.ascii) : Ascii.ascii :=
  if byte_in 65 90 a then Ascii.ascii_of_nat (Ascii.nat_of_ascii a + 32) else a.

Fixpoint to_ascii_lowercase (s : string) : string :=
  match s with EmptyString => "" | String a s => String (ascii_lower a) (to_ascii_lowercase s) end.

Fixpoint eq_ignore_ascii_case (s t : string) : bool :=
  match s, t with
  | EmptyString, EmptyString => true
  | String a s, String b t => Ascii.eqb (ascii_lower a) (ascii_lower b) && eq_ignore_ascii_case s t
  | _, _ => false
  end.

(** [str::ends_with]. *)
Definition ends_with (suffix s : string) : bool :=
  match strip_suffix suffix s with Some _ => true | None => false end.

(** ** Lemmas *)

Lemma strip_prefix_app p s : strip_prefix p (p ++ s)%string = Some s.
Proof.
  induction p as [|a p IH]; [done|]. simpl. by rewrite Ascii.eqb_refl.
Qed.

Lemma strip_prefix_Some p s r : strip_prefix p s = Some r -> s = (p ++ r)%string.
Proof.
  revert s. induction p as [|a p IH]; intros [|b s]; simpl; try done; [naive_solver..|].
  destruct (Ascii.eqb_spec a b) as [->|]; [|done]. intros H. by rewrite (IH _ H).
Qed.

(** No separator in the first part: splitting undoes joining. *)
Fixpoint has_char (c : Ascii.ascii) (s : string) : bool :=
  match s with
  | EmptyString => false
  | String a s => Ascii.eqb a c || has_char c s
  end.

Lemma split_once_join c x y :
  has_char c x = false -> split_once c (x ++ String c y)%string = Some (x, y).
Proof.
  induction x as [|a x IH]; simpl; [by rewrite Ascii.eqb_refl|].
  intros [Ha Hx]%orb_false_iff. rewrite Ha, (IH Hx). done.
Qed.

Lemma split_once_Some c s x y :
  split_once c s = Some (x, y) -> s = (x ++ String c y)%string /\ has_char c x = false.
Proof.
  revert x. induction s as [|a s IH]; intros x; simpl; [done|].
  destruct (Ascii.eqb_spec a c) as [->|Hn]; [intros [= <- <-]; done|].
  destruct (split_once c s) as [[x' y']|] eqn:E; [|done]. intros [= <- <-].
  destruct (IH _ eq_refl) as [-> Hx]. simpl. rewrite Hx.
  by destruct (Ascii.eqb_spec a c).
Qed.

Lemma length_bytes text : length (bytes_of text) = String.length text.
Proof. induction text as [|a text IH]; [done|]. exact (f_equal S IH). Qed.

Lemma bytes_of_list l : String.length (String.string_of_list_ascii l) = length l.
Proof. induction l as [|a l IH]; [done|]. exact (f_equal S IH). Qed.

Lemma slice_length start stop text :
  (stop <= String.length text)%nat -> String.length (slice start stop text) = (stop - start)%nat.
Proof. intros H. unfold slice. rewrite bytes_of_list, length_take, length_drop, length_bytes. lia. Qed.

Lemma string_of_app (l l' : list Ascii.ascii) :
  String.string_of_list_ascii (l ++ l') =
    (String.string_of_list_ascii l ++ String.string_of_list_ascii l')%string.
Proof. induction l as [|a l IH]; [done|]. exact (f_equal (String a) IH). Qed.

Lemma slice_app start mid text :
  (start <= mid)%nat ->
  (slice start mid text ++ String.string_of_list_ascii (drop mid (bytes_of text)))%string =
    String.string_of_list_ascii (drop start (bytes_of text)).
Proof.
  intros H. unfold slice. rewrite <- string_of_app. f_equal.
  replace mid with (start + (mid - start))%nat at 2 by lia. rewrite <- drop_drop. apply take_drop.
Qed.

(** Lines and trimming of plain texts. *)

Lemma rev_onto_rev s a b : rev_onto (rev_onto s a) b = rev_onto a (s ++ b)%string.
Proof. revert a. induction s as [|c s IH]; intros a; [done|]. cbn [rev_onto]. by rewrite IH. Qed.

Lemma reverse_reverse s : reverse (rev_onto s "") = s.
Proof. unfold reverse. rewrite rev_onto_rev. cbn. by rewrite string_app_nil_r. Qed.

Lemma no_control_app s t : no_control (s ++ t)%string = no_control s && no_control t.
Proof. induction s as [|a s IH]; [done|]. rewrite string_app_cons. cbn. by rewrite IH, andb_assoc. Qed.

Lemma no_control_rev s acc : no_control (rev_onto s acc) = no_control s && no_control acc.
Proof.
  revert acc. induction s as [|a s IH]; intros acc; [done|]. cbn. rewrite IH. cbn.
  by destruct (no_control s), (negb _).
Qed.

Lemma control_newline : byte_in 0 31 newline = true.
Proof. reflexivity. Qed.

Lemma no_control_no_newline a : negb (byte_in 0 31 a) = true -> Ascii.eqb a newline = false.
Proof. intros H. destruct (Ascii.eqb_spec a newline) as [->|]; [by rewrite control_newline in H|done]. Qed.

(** A text without control characters has no carriage return to drop. *)
Lemma no_return line : no_control line = true -> strip_suffix return_char line = None.
Proof.
  intros H. unfold strip_suffix. assert (no_control (reverse line) = true) as Hr.
  { unfold reverse. by rewrite no_control_rev, H. }
  destruct (reverse line) as [|a s]; [done|]. cbn in Hr. apply andb_true_iff in Hr as [Ha _].
  change (reverse return_char) with return_char. unfold return_char, bytes_string. cbn [foldr strip_prefix].
  destruct (Ascii.eqb_spec (Ascii.ascii_of_nat 13) a) as [<-|]; [done|done].
Qed.

Lemma lines_from_plain acc p :
  no_control p = true ->
  lines_from acc p = if String.eqb (rev_onto p acc) "" then [] else [reverse (rev_onto p acc)].
Proof.
  revert acc. induction p as [|a p IH]; intros acc H; [done|]. cbn in H.
  apply andb_true_iff in H as [Ha Hp]. cbn [lines_from rev_onto]. rewrite no_control_no_newline by done. auto.
Qed.

Lemma lines_plain p : no_control p = true -> lines p = if String.eqb p "" then [] else [p].
Proof.
  intros H. unfold lines. rewrite lines_from_plain, reverse_reverse by done.
  destruct (String.eqb_spec p "") as [->|Hp]; [done|].
  destruct (String.eqb_spec (rev_onto p "") "") as [E|]; [|done].
  destruct Hp. by rewrite <- (reverse_reverse p), E.
Qed.

Lemma lines_from_split acc s r :
  lines_from acc (s ++ String newline r)%string = lines_from acc (s ++ String newline "")%string ++ lines r.
Proof.
  revert acc. induction s as [|a s IH]; intros acc.
  - rewrite !string_app_nil_l. cbn [lines_from]. rewrite Ascii.eqb_refl. done.
  - rewrite !string_app_cons. cbn [lines_from]. destruct (Ascii.eqb a newline); [by rewrite IH|apply IH].
Qed.

Lemma lines_from_newline acc p :
  no_control p = true ->
  lines_from acc (p ++ String newline "")%string =
    [default (reverse (rev_onto p acc)) (strip_suffix return_char (reverse (rev_onto p acc)))].
Proof.
  revert acc. induction p as [|a p IH]; intros acc H; [done|]. cbn in H.
  apply andb_true_iff in H as [Ha Hp]. rewrite string_app_cons. cbn [lines_from rev_onto].
  rewrite no_control_no_newline by done. auto.
Qed.

Lemma lines_line p : no_control p = true -> lines (p ++ String newline "")%string = [p].
Proof.
  intros H. unfold lines. rewrite lines_from_newline by done. rewrite reverse_reverse. by rewrite no_return.
Qed.

Lemma not_graphic_neq a b : graphic a = true -> graphic b = false -> Ascii.eqb b a = false.
Proof. intros Ha Hb. destruct (Ascii.eqb_spec b a) as [->|]; [by rewrite Ha in Hb|done]. Qed.

Lemma strip_first_graphic ps a s :
  Forall (fun p => match p with String b _ => graphic b = false | _ => False end) ps ->
  graphic a = true -> strip_first ps (String a s) = None.
Proof.
  intros Hp Ha. induction Hp as [|p ps Hb _ IH]; [done|]. destruct p as [|b p]; [done|]. cbn.
  by rewrite not_graphic_neq.
Qed.

Lemma all_graphic_rev s acc : all_graphic (rev_onto s acc) = all_graphic s && all_graphic acc.
Proof.
  revert acc. induction s as [|a s IH]; intros acc; [done|]. cbn. rewrite IH. cbn.
  by destruct (graphic a), (all_graphic s).
Qed.

Lemma trim_with_graphic fuel ps s :
  Forall (fun p => match p with String b _ => graphic b = false | _ => False end) ps ->
  all_graphic s = true -> trim_with fuel ps s = s.
Proof.
  intros Hp Hs. destruct fuel as [|fuel]; [done|]. cbn. destruct s as [|a s].
  - assert (strip_first ps "" = None) as ->; [|done].
    induction Hp as [|p ps Hb _ IH]; [done|]. by destruct p.
  - cbn in Hs. apply andb_true_iff in Hs as [Ha Hs]. by rewrite strip_first_graphic.
Qed.

Lemma trim_graphic s : all_graphic s = true -> trim s = s.
Proof.
  intros Hs. unfold trim, trim_start, trim_end.
  rewrite (trim_with_graphic _ WHITE_SPACE) by first [done|repeat (constructor; [reflexivity|]); constructor].
  rewrite trim_with_graphic.
  - unfold reverse at 2. apply reverse_reverse.
  - repeat (constructor; [reflexivity|]). constructor.
  - unfold reverse. by rewrite all_graphic_rev, Hs.
Qed.

(** Characters, reversal and separators. *)

Lemma bytes_app a b : bytes_of (a +:+ b) = bytes_of a ++ bytes_of b.
Proof. induction a as [|c a IH]; [done|]. exact (f_equal (cons c) IH). Qed.

Lemma has_char_app c a b : has_char c (a +:+ b) = has_char c a || has_char c b.
Proof. induction a as [|x a IH]; [done|]. rewrite string_app_cons. cbn. by rewrite IH, orb_assoc. Qed.

Lemma all_graphic_app a b : all_graphic (a +:+ b) = all_graphic a && all_graphic b.
Proof. induction a as [|x a IH]; [done|]. rewrite string_app_cons. cbn. by rewrite IH, andb_assoc. Qed.

Lemma rev_onto_acc s acc : rev_onto s acc = reverse s +:+ acc.
Proof.
  unfold reverse. revert acc. induction s as [|x s IH]; intros acc; [done|]. cbn.
  rewrite (IH (String x acc)), (IH (String x "")), string_app_assoc. done.
Qed.

Lemma reverse_app a b : reverse (a +:+ b) = reverse b +:+ reverse a.
Proof.
  induction a as [|x a IH]; [by rewrite string_app_nil_r|]. rewrite string_app_cons.
  unfold reverse at 1 3. cbn. rewrite !rev_onto_acc, IH. apply string_app_assoc.
Qed.

Lemma has_char_reverse c s : has_char c (reverse s) = has_char c s.
Proof.
  induction s as [|x s IH]; [done|]. unfold reverse. cbn. rewrite rev_onto_acc, has_char_app, IH. cbn.
  by rewrite orb_false_r, orb_comm.
Qed.

Lemma split_once_none c s : has_char c s = false -> split_once c s = None.
Proof.
  induction s as [|x s IH]; [done|]. cbn. rewrite orb_false_iff. intros [-> H]. by rewrite IH.
Qed.

Lemma split_on_plain c s : has_char c s = false -> split_on c s = [s].
Proof.
  induction s as [|x s IH]; [done|]. cbn. rewrite orb_false_iff. intros [-> H]. by rewrite IH.
Qed.

Lemma split_on_join c x y : has_char c x = false -> split_on c (x +:+ String c y) = x :: split_on c y.
Proof.
  induction x as [|a x IH]; [intros _; rewrite string_app_nil_l; cbn; by rewrite Ascii.eqb_refl|]. rewrite string_app_cons. cbn.
  rewrite orb_false_iff. intros [-> H]. by rewrite IH.
Qed.

Lemma strip_suffix_app p s : strip_suffix p (s +:+ p) = Some s.
Proof. unfold strip_suffix. rewrite reverse_app, strip_prefix_app. cbn. f_equal. apply reverse_reverse. Qed.

Lemma strip_prefix_same c p s : strip_prefix (String c p) (String c s) = strip_prefix p s.
Proof. cbn. by rewrite Ascii.eqb_refl. Qed.

Lemma strip_prefix_other c p x s : Ascii.eqb x c = false -> strip_prefix (String c p) (String x s) = None.
Proof. intros H. cbn. by rewrite Ascii.eqb_sym, H. Qed.

Lemma eq_ignore_lower s t : eq_ignore_ascii_case s t = true <-> to_ascii_lowercase s = to_ascii_lowercase t.
Proof.
  revert t. induction s as [|a s IH]; intros [|b t]; cbn; try done.
  rewrite andb_true_iff, Ascii.eqb_eq, IH. split; [by intros [-> ->]|by intros [=]].
Qed.

Example trim_ex : trim (String (Ascii.ascii_of_nat 10) "  a b ") = "a b".
Proof. reflexivity. Qed.

Example lines_ex :
  lines (String.append "a" (bytes_string [13; 10; 10; 98]%nat)) = ["a"; ""; "b"].
Proof. reflexivity. Qed.

(** ** The text of JSON *)

Class JsonText := { to_text : Value -> string; from_text : string -> option Value }.

(** serde_json writes one line without white space around it, and reads it back. *)
Class JsonTextLaws (J : JsonText) := {
  text_roundtrip v : from_text (to_text v) = Some v;
  text_one_line v : lines (to_text v) = [to_text v];
  text_trimmed v : trim (to_text v) = to_text v;
  text_nonempty v : to_text v <> "";
}.

(** [str::contains], and [str::split_once] at a string. *)
Fixpoint contains (pat s : string) : bool :=
  starts_with pat s || match s with String _ s => contains pat s | EmptyString => false end.

Fixpoint split_once_str (pat s : string) : option (string * string) :=
  match strip_prefix pat s with
  | Some r => Some ("", r)
  | None => match s with String a s => '(x, y) ← split_once_str pat s; Some (String a x, y) | EmptyString => None end
  end.
