(* ===== verification/Base64.v ===== *)
(** The interface of the base64 crate (STANDARD engine) that uploads and
    attachments rely on: RFC 4648 with padding. The code only calls the crate,
    so its two functions are a class, with the documented laws the theorems use
    in a second one. [rfc4648] is the alphabet and grouping of the RFC, an
    instance of both: it shows the laws can hold and evaluates the samples. *)
From S2P Require Import Prelude Text.

Local Open Scope string_scope.

Class Base64 := { b64_encode : string -> string; b64_decode : string -> option string }.

Fixpoint all_chars (p : Ascii.ascii -> bool) (s : string) : bool :=
  match s with
  | EmptyString => true
  | String a s => p a && all_chars p s
  end.

(** A character of an encoding: letters, digits, [+], [/] and [=]. *)
Definition b64_char (a : Ascii.ascii) : bool :=
  alphanumeric a || byte_in 43 43 a || byte_in 47 47 a || byte_in 61 61 a.

Class Base64Laws (B : Base64) := {
  decode_encode b : b64_decode (b64_encode b) = Some b;
  (** Three bytes fill four characters, so an encoding continues at a multiple
      of three bytes. *)
  encode_app a b : (String.length a mod 3 = 0)%nat ->
    b64_encode (a ++ b) = b64_encode a ++ b64_encode b;
  encode_length b : String.length (b64_encode b) = (4 * ((String.length b + 2) / 3))%nat;
  encode_chars b : all_chars b64_char (b64_encode b) = true;
}.

(** ** The RFC *)

(** The alphabet is three ASCII ranges and two marks. *)
Definition sextet_char (n : N) : Ascii.ascii :=
  Ascii.ascii_of_N
    (if n <? 26 then 65 + n else if n <? 52 then 71 + n else if n <? 62 then n - 4
     else if n =? 62 then 43 else 47)%N.

Definition sextet_of (a : Ascii.ascii) : option N :=
  let n := Ascii.N_of_ascii a in
  if byte_in 65 90 a then Some (n - 65)%N
  else if byte_in 97 122 a then Some (n - 71)%N
  else if byte_in 48 57 a then Some (n + 4)%N
  else if byte_in 43 43 a then Some 62%N
  else if byte_in 47 47 a then Some 63%N
  else None.

Definition pad : Ascii.ascii := Ascii.ascii_of_nat 61.

Definition quad (a b c : N) : Ascii.ascii * Ascii.ascii * Ascii.ascii * Ascii.ascii :=
  (sextet_char (a / 4), sextet_char (a mod 4 * 16 + b / 16),
   sextet_char (b mod 16 * 4 + c / 64), sextet_char (c mod 64))%N.

Fixpoint rfc_encode (s : string) : string :=
  match s with
  | String a (String b (String c r)) =>
      let '(w, x, y, z) := quad (Ascii.N_of_ascii a) (Ascii.N_of_ascii b) (Ascii.N_of_ascii c) in
      String w (String x (String y (String z (rfc_encode r))))
  | String a (String b EmptyString) =>
      let '(w, x, y, _) := quad (Ascii.N_of_ascii a) (Ascii.N_of_ascii b) 0 in
      String w (String x (String y (String pad "")))
  | String a EmptyString =>
      let '(w, x, _, _) := quad (Ascii.N_of_ascii a) 0 0 in
      String w (String x (String pad (String pad "")))
  | EmptyString => ""
  end.

(** The four sextets of a group as three bytes. *)
Definition group_bytes (w x y z : N) : Ascii.ascii * Ascii.ascii * Ascii.ascii :=
  (Ascii.ascii_of_N (w * 4 + x / 16), Ascii.ascii_of_N (x mod 16 * 16 + y / 4),
   Ascii.ascii_of_N (y mod 4 * 64 + z))%N.

(** Padding closes the text, and the bits it leaves over are zero. *)
Fixpoint rfc_decode (s : string) : option string :=
  match s with
  | EmptyString => Some ""
  | String w (String x (String y (String z r))) =>
      match sextet_of w, sextet_of x, sextet_of y, sextet_of z with
      | Some w, Some x, Some y, Some z =>
          let '(a, b, c) := group_bytes w x y z in
          (fun t => String a (String b (String c t))) <$> rfc_decode r
      | Some w, Some x, Some y, None =>
          if Ascii.eqb z pad && String.eqb r "" && (y mod 4 =? 0)%N
          then let '(a, b, _) := group_bytes w x y 0 in Some (String a (String b "")) else None
      | Some w, Some x, None, None =>
          if Ascii.eqb y pad && Ascii.eqb z pad && String.eqb r "" && (x mod 16 =? 0)%N
          then let '(a, _, _) := group_bytes w x 0 0 in Some (String a "") else None
      | _, _, _, _ => None
      end
  | _ => None
  end.

#[export] Instance rfc4648 : Base64 := { b64_encode := rfc_encode; b64_decode := rfc_decode }.

Example encode_ex : rfc_encode "Man Ma" = "TWFuIE1h" /\ rfc_encode "light w" = "bGlnaHQgdw==".
Proof. done. Qed.

Example decode_ex : rfc_decode "bGlnaHQgdw==" = Some "light w" /\ rfc_decode "TWF" = None.
Proof. done. Qed.

(** ** Lemmas *)

Lemma all_chars_app p s t : all_chars p (s ++ t) = all_chars p s && all_chars p t.
Proof.
  induction s as [|a s IH]; [done|]. rewrite string_app_cons. simpl. rewrite IH. by rewrite andb_assoc.
Qed.

Lemma all_chars_mono (p q : Ascii.ascii -> bool) s :
  (forall a, p a = true -> q a = true) -> all_chars p s = true -> all_chars q s = true.
Proof.
  intros Hpq. induction s as [|a s IH]; simpl; [done|]. rewrite !andb_true_iff. naive_solver.
Qed.

(** Every sextet is a character of the alphabet and reads back. *)
Lemma sextet_spec n :
  (n < 64)%N -> sextet_of (sextet_char n) = Some n /\ b64_char (sextet_char n) = true.
Proof.
  intros Hn.
  assert (H : forallb (fun k => bool_decide (sextet_of (sextet_char k) = Some k) &&
                                b64_char (sextet_char k)) (N.of_nat <$> seq 0 64) = true)
    by reflexivity.
  rewrite forallb_forall in H. specialize (H n).
  rewrite andb_true_iff, bool_decide_eq_true in H. apply H.
  apply list_elem_of_In, list_elem_of_fmap. exists (N.to_nat n).
  split; [by rewrite N2Nat.id|]. apply elem_of_seq. lia.
Qed.

Lemma pad_spec : sextet_of pad = None /\ b64_char pad = true.
Proof. done. Qed.

Lemma byte_of_N a n : Ascii.N_of_ascii a = n -> Ascii.ascii_of_N n = a.
Proof. intros <-. apply Ascii.ascii_N_embedding. Qed.

(** Division and remainder by constants, through their equations. *)
Ltac sextets := zify; Z.to_euclidean_division_equations; lia.

(** A group of three bytes: its four characters read back as the sextets, and
    the sextets as the bytes. *)
Lemma quad_spec a b c :
  let m := Ascii.N_of_ascii a in let n := Ascii.N_of_ascii b in let o := Ascii.N_of_ascii c in
  let '(w, x, y, z) := quad m n o in
  (sextet_of w = Some (m / 4) /\ sextet_of x = Some (m mod 4 * 16 + n / 16) /\
   sextet_of y = Some (n mod 16 * 4 + o / 64) /\ sextet_of z = Some (o mod 64))%N /\
  group_bytes (m / 4) (m mod 4 * 16 + n / 16) (n mod 16 * 4 + o / 64) (o mod 64) = (a, b, c) /\
  all_chars b64_char (String w (String x (String y (String z "")))) = true.
Proof.
  unfold quad.
  pose proof (Ascii.N_ascii_bounded a). pose proof (Ascii.N_ascii_bounded b).
  pose proof (Ascii.N_ascii_bounded c).
  set (m := Ascii.N_of_ascii a) in *. set (n := Ascii.N_of_ascii b) in *. set (o := Ascii.N_of_ascii c) in *.
  assert (Hw : (m / 4 < 64)%N) by sextets.
  assert (Hx : (m mod 4 * 16 + n / 16 < 64)%N) by sextets.
  assert (Hy : (n mod 16 * 4 + o / 64 < 64)%N) by sextets.
  assert (Hz : (o mod 64 < 64)%N) by sextets.
  destruct (sextet_spec _ Hw) as [? Cw], (sextet_spec _ Hx) as [? Cx],
    (sextet_spec _ Hy) as [? Cy], (sextet_spec _ Hz) as [? Cz].
  split_and!; [done..| |].
  - unfold group_bytes. f_equal; [f_equal|]; apply byte_of_N; fold m n o; sextets.
  - simpl. by rewrite Cw, Cx, Cy, Cz.
Qed.

Ltac group a b c H :=
  pose proof (quad_spec a b c) as H; change (Ascii.N_of_ascii Ascii.zero) with 0%N in H;
  unfold quad in H; cbv beta iota zeta in H.

(** Induction by groups of three bytes. *)
Lemma groups_ind (P : string -> Prop) :
  P "" -> (forall a, P (String a "")) -> (forall a b, P (String a (String b ""))) ->
  (forall a b c r, P r -> P (String a (String b (String c r)))) -> forall s, P s.
Proof.
  intros H0 H1 H2 H3. fix IH 1. intros [|a [|b [|c r]]]; [apply H0|apply H1|apply H2|apply H3, IH].
Qed.

Lemma rfc_decode_encode s : rfc_decode (rfc_encode s) = Some s.
Proof.
  induction s as [|a|a b|a b c r IH] using groups_ind; [done| | |].
  - group a Ascii.zero Ascii.zero G. destruct G as ((Hw & Hx & _) & Hb & _).
    cbn -[N.div N.modulo N.mul N.add sextet_of sextet_char group_bytes].
    rewrite Hw, Hx. change (sextet_of pad) with (@None N). cbv beta iota.
    assert (E : ((Ascii.N_of_ascii a mod 4 * 16 + 0 / 16) mod 16 =? 0)%N = true) by (apply N.eqb_eq; sextets).
    change (0 mod 16 * 4 + 0 / 64)%N with 0%N in Hb. change (0 mod 64)%N with 0%N in Hb.
    by rewrite E, Hb.
  - group a b Ascii.zero G. destruct G as ((Hw & Hx & Hy & _) & Hb & _).
    cbn -[N.div N.modulo N.mul N.add sextet_of sextet_char group_bytes].
    rewrite Hw, Hx, Hy. change (sextet_of pad) with (@None N). cbv beta iota.
    assert (E : ((Ascii.N_of_ascii b mod 16 * 4 + 0 / 64) mod 4 =? 0)%N = true) by (apply N.eqb_eq; sextets).
    change (0 mod 64)%N with 0%N in Hb. by rewrite E, Hb.
  - group a b c G. destruct G as ((Hw & Hx & Hy & Hz) & Hb & _).
    cbn -[N.div N.modulo N.mul N.add sextet_of sextet_char group_bytes].
    by rewrite Hw, Hx, Hy, Hz, Hb, IH.
Qed.

Lemma rfc_encode_app s t :
  (String.length s mod 3 = 0)%nat -> rfc_encode (s ++ t) = rfc_encode s ++ rfc_encode t.
Proof.
  induction s as [|a|a b|a b c r IH] using groups_ind; intros Hs; [done..|].
  change (rfc_encode (String a (String b (String c (r ++ t))))
          = rfc_encode (String a (String b (String c r))) ++ rfc_encode t).
  assert (Hr : (String.length r mod 3 = 0)%nat).
  { etrans; [|exact Hs]. cbn [String.length]. set (k := String.length r).
    change (S (S (S k))) with (3 + k)%nat. by rewrite <- (Nat.Div0.mod_add k 1 3), Nat.add_comm. }
  cbn -[quad]. rewrite IH by done.
  by destruct (quad _ _ _) as [[[? ?] ?] ?].
Qed.

Lemma rfc_encode_length s : String.length (rfc_encode s) = (4 * ((String.length s + 2) / 3))%nat.
Proof.
  induction s as [|a|a b|a b c r IH] using groups_ind; [done..|].
  cbn -[quad Nat.div Nat.mul]. destruct (quad _ _ _) as [[[? ?] ?] ?]. cbn -[Nat.div Nat.mul]. rewrite IH.
  change (S (S (S (String.length r + 2)))) with (3 + (String.length r + 2))%nat.
  replace (3 + (String.length r + 2))%nat with (String.length r + 2 + 1 * 3)%nat by lia.
  rewrite Nat.div_add by lia. lia.
Qed.

Lemma rfc_encode_chars s : all_chars b64_char (rfc_encode s) = true.
Proof.
  induction s as [|a|a b|a b c r IH] using groups_ind; [done|..].
  - group a Ascii.zero Ascii.zero G. destruct G as (_ & _ & H).
    cbn -[N.div N.modulo N.mul N.add b64_char sextet_char] in *. rewrite !andb_true_iff in *. naive_solver.
  - group a b Ascii.zero G. destruct G as (_ & _ & H).
    cbn -[N.div N.modulo N.mul N.add b64_char sextet_char] in *. rewrite !andb_true_iff in *. naive_solver.
  - group a b c G. destruct G as (_ & _ & H).
    cbn -[N.div N.modulo N.mul N.add b64_char sextet_char] in *. rewrite IH.
    rewrite !andb_true_iff in *. naive_solver.
Qed.

(** The RFC satisfies what the theorems assume of the crate. *)
#[export] Instance rfc4648_laws : Base64Laws rfc4648.
Proof.
  split; [exact rfc_decode_encode|exact rfc_encode_app|exact rfc_encode_length|exact rfc_encode_chars].
Qed.
