(* ===== verification/Agent.v ===== *)
(** The agent-side wire types of crates/proto/src/agent.rs: run requests, tool
    calls and the normalised streaming events every harness emits. *)
From S2P Require Import Prelude Json.

Inductive HarnessId := ClaudeCode | Codex | Cursor | Grok | Hermes | Pi | Opencode | Mock.

Inductive ReasoningLevel :=
  Minimal | Low | Medium | High | XHigh | Max | Ultra | Ultracode | Ultrathink.

Inductive SandboxLevel := ReadOnly | WorkspaceWrite | DangerFullAccess.

#[export] Instance HarnessId_eq_dec : EqDecision HarnessId.
Proof. solve_decision. Defined.

Record WorktreeSpec := mk_worktree { wt_repo_path : string; wt_base : string }.

Record RunRequest := mk_run_request {
  rq_prompt : string;
  rq_harness : option HarnessId;
  rq_model : option string;
  rq_reasoning : option ReasoningLevel;
  rq_model_options : list (string * Value);
  rq_cwd : string;
  rq_sandbox : SandboxLevel;
  rq_auto_approve : bool;
  rq_resume : option string;
  rq_mcp_servers : option (list string);
  rq_attachments : list string;
  rq_worktree : option WorktreeSpec;
}.

Record TodoItem := mk_todo { todo_text : string; todo_done : bool }.

Inductive ToolCall :=
  | Exec (command : string)
  | ReadFile (path : string)
  | WriteFile (path : string) (content : option string)
  | EditFile (path : string) (old_string new_string : option string)
  | ApplyPatch (path : option string)
  | Search (pattern : string) (path : option string)
  | Glob (pattern : string)
  | WebFetch (url : string) (prompt : option string)
  | WebSearch (query : string)
  | Todo (items : list TodoItem)
  | Mcp (server tool : string) (input : option Value)
  | Unknown (name : string) (input : option Value).

Record ToolDiff := mk_tool_diff { td_path : string; td_old_text : option string; td_new_text : string }.

Record SlashCommand := mk_slash {
  sc_name : string; sc_description : string; sc_input_hint : option string }.

Record UserInputQuestion := mk_question {
  uq_id : string; uq_header : string; uq_question : string; uq_options : list string;
  uq_multi_select : bool }.

Record UserInputAnswer := mk_answer { ua_question_id : string; ua_labels : list string }.

Inductive DoneStatus := Completed | Interrupted | Errored.

Inductive AgentEvent :=
  | SessionStarted (harness : HarnessId) (model : string) (tools : list string) (cwd : string)
      (session_id assistant_message_id : string)
  | TextDelta (text : string)
  | ReasoningDelta (text : string)
  | AssistantMessageCompleted (assistant_message_id : string)
  | ToolCallEv (id : string) (call : ToolCall)
  | ToolResult (id : string) (is_error : bool) (output : option string) (diff : option ToolDiff)
  | Usage (input_tokens output_tokens context_tokens : N)
  | AvailableCommands (commands : list SlashCommand)
  | ErrorEv (message : string)
  | InputRequested (request_id : string) (questions : list UserInputQuestion)
  | InputResolved (request_id : string)
  | Steered (assistant_message_id next_assistant_message_id : option string)
  | Done (status : DoneStatus) (result error session_id : option string)
  | UserMessage (text : string)
  | Subagent (parent_tool_use_id : string) (event : AgentEvent).
