(* ===== verification/Commands.v ===== *)
(** The durable command ledger: crates/doc/src/commands.rs (evaluation rules),
    the [commands] list of crates/doc/src/schema.rs, the processed-command
    table of crates/sync/src/store.rs and the two executors of
    crates/engine/src/doc_host.rs, the drain and the relay.

    The drain is cut at the points where the source takes a lock or awaits:
    [choose] reads, sweeps, picks and evaluates; [claim] and [mark] claim the
    command; [settle] writes the outcome. [drain_iter] is one turn of the
    source's loop; the step relation below interleaves the pieces of many
    workers. [executed] records every command id handed to the executor. *)
From S2P Require Import Prelude Json Text Agent.

(** ** Data *)

Inductive SessionCommandKind := KRun | KSteer | KInterrupt | KRespondInput.

Inductive SessionCommandStatus := Pending | Applied | Rejected | Expired | Superseded | Cancelled.

#[export] Instance SessionCommandKind_eq_dec : EqDecision SessionCommandKind.
Proof. solve_decision. Defined.
#[export] Instance SessionCommandStatus_eq_dec : EqDecision SessionCommandStatus.
Proof. solve_decision. Defined.

Inductive SessionCommandPayload :=
  | Run (request : RunRequest) (message_id : string)
  | Steer (prompt : string) (message_id : option string)
  | Interrupt
  | RespondInput (request_id : string) (answers : list UserInputAnswer).

Definition payload_kind (p : SessionCommandPayload) : SessionCommandKind :=
  match p with
  | Run _ _ => KRun
  | Steer _ _ => KSteer
  | Interrupt => KInterrupt
  | RespondInput _ _ => KRespondInput
  end.

Record CommandBasedOn := mk_based_on { bo_turn_id : option string; bo_frontier : option string }.

Record SessionCommandEntry := mk_command {
  ce_id : string;
  ce_payload : SessionCommandPayload;
  ce_issued_by : string;
  ce_issued_at : Z;
  ce_based_on : option CommandBasedOn;
  ce_expires_at : option Z;
  ce_status : SessionCommandStatus;
  ce_resolution : option string;
}.

Definition ce_kind (e : SessionCommandEntry) : SessionCommandKind := payload_kind (ce_payload e).

(** [i64] arithmetic of a release build: [+] wraps. *)
Definition wrap_i64 (z : Z) : Z := (z + 2 ^ 63) mod 2 ^ 64 - 2 ^ 63.
Definition sat_i64 (z : Z) : Z := Z.max I64_MIN (Z.min I64_MAX z).

Definition COMMAND_DEFAULT_TTL_MS : Z := 24 * 60 * 60 * 1000.
Definition ATTACHMENT_WAIT_MAX_MS : Z := 15 * 60 * 1000.

Definition effective_expiry (e : SessionCommandEntry) : Z :=
  default (wrap_i64 (ce_issued_at e + COMMAND_DEFAULT_TTL_MS)) (ce_expires_at e).

Definition is_pending (e : SessionCommandEntry) : bool := bool_decide (ce_status e = Pending).

Definition can_composer_cancel (e : SessionCommandEntry) (device_id : string) : bool :=
  is_pending e && String.eqb (ce_issued_by e) device_id.

(** ** Evaluation *)

Inductive CommandDisposition := DSkip | DExpired | DSuperseded | DExecute.

Record EvaluationContext := mk_cx {
  cx_is_processed : string -> bool;
  cx_now_ms : Z;
  cx_entries : list SessionCommandEntry;
  cx_current_turn_id : option string;
  cx_turn_is_past : string -> bool;
}.

Definition newer_same_kind (e : SessionCommandEntry) (entries : list SessionCommandEntry) : bool :=
  existsb (fun other =>
    negb (String.eqb (ce_id other) (ce_id e)) &&
    bool_decide (ce_kind other = ce_kind e) && is_pending other &&
    (ce_issued_at e <? ce_issued_at other)) entries.

Definition evaluate_command (e : SessionCommandEntry) (cx : EvaluationContext) : CommandDisposition :=
  if cx_is_processed cx (ce_id e) then DSkip
  else if effective_expiry e <=? cx_now_ms cx then DExpired
  else if match ce_kind e with
          | KSteer | KInterrupt => newer_same_kind e (cx_entries cx)
          | _ => false
          end then DSuperseded
  else match ce_kind e, ce_based_on e ≫= bo_turn_id with
       | KInterrupt, Some turn_id =>
           if negb (bool_decide (cx_current_turn_id cx = Some turn_id)) && cx_turn_is_past cx turn_id
           then DSuperseded else DExecute
       | _, _ => DExecute
       end.

(** ** The [commands] list of the session document *)

(** [queue_command] writes every field but the resolution. *)
Definition queue_command (l : list SessionCommandEntry) (e : SessionCommandEntry)
    : list SessionCommandEntry :=
  l ++ [mk_command (ce_id e) (ce_payload e) (ce_issued_by e) (ce_issued_at e) (ce_based_on e)
          (ce_expires_at e) (ce_status e) None].

Definition set_status (st : SessionCommandStatus) (res : option string) (c : SessionCommandEntry)
    : SessionCommandEntry :=
  mk_command (ce_id c) (ce_payload c) (ce_issued_by c) (ce_issued_at c) (ce_based_on c)
    (ce_expires_at c) st (match res with Some r => Some r | None => ce_resolution c end).

(** The first entry with the id; [None] is the schema error. *)
Fixpoint set_command_status (id : string) (st : SessionCommandStatus) (res : option string)
    (l : list SessionCommandEntry) : option (list SessionCommandEntry) :=
  match l with
  | [] => None
  | c :: l' =>
      if String.eqb (ce_id c) id then Some (set_status st res c :: l')
      else cons c <$> set_command_status id st res l'
  end.

(** ** Attachment references *)

Definition PENDING_REF_PREFIX : string := "pending://".
Definition slash : Ascii.ascii := Ascii.ascii_of_nat 47.

Definition is_pending_ref (path : string) : bool := starts_with PENDING_REF_PREFIX path.

Definition pending_ref (upload_id file_name : string) : string :=
  (PENDING_REF_PREFIX ++ upload_id ++ String slash file_name)%string.

Definition parse_pending_ref (path : string) : option (string * string) :=
  rest ← strip_prefix PENDING_REF_PREFIX path;
  '(id, name) ← split_once slash rest;
  if negb (String.eqb id "") && negb (String.eqb name "") then Some (id, name) else None.

Definition pending_refs_in (text : string) : list string :=
  omap (fun line =>
    path ← trim <$> strip_prefix "- " (trim_start line);
    if is_pending_ref path then Some path else None) (lines text).

(** The uploads directory: whether an upload's committed file is there. *)
Definition Uploads : Type := string -> string -> bool.

Definition resolve_pending (u : Uploads) (path : string) : bool :=
  match parse_pending_ref path with
  | Some (id, name) => u id name
  | None => false
  end.

Definition missing_attachments (uploads : option Uploads) (e : SessionCommandEntry) : list string :=
  let refs := match ce_payload e with
              | Run request _ => filter (fun p => is_pending_ref p = true) (rq_attachments request)
              | Steer prompt _ => pending_refs_in prompt
              | _ => []
              end in
  match refs, uploads with
  | [], _ => []
  | _, None => []
  | _, Some u => filter (fun r => resolve_pending u r = false) refs
  end.

(** ** The host of a chat *)

Record Host := mk_host {
  commands : list SessionCommandEntry;
  messages : list string;
  ledger : gset string;
  executing : gset string;
  executed : list string;
}.

Definition set_commands (h : Host) (l : list SessionCommandEntry) : Host :=
  mk_host l (messages h) (ledger h) (executing h) (executed h).
Definition set_messages (h : Host) (m : list string) : Host :=
  mk_host (commands h) m (ledger h) (executing h) (executed h).
Definition set_executing (h : Host) (x : gset string) : Host :=
  mk_host (commands h) (messages h) (ledger h) x (executed h).
Definition record_execution (h : Host) (id : string) : Host :=
  mk_host (commands h) (messages h) (ledger h) (executing h) (executed h ++ [id]).

(** [is_processed(..).unwrap_or(false)]: a failing query reads as not
    processed. [rd] and [wr] say whether the store answers. *)
Definition is_processed (rd : bool) (h : Host) (id : string) : bool :=
  rd && bool_decide (id ∈ ledger h).

(** [mark_processed]: [INSERT OR IGNORE]; the answer is whether it inserted. *)
Definition mark_processed (wr : bool) (h : Host) (id : string) : option (bool * Host) :=
  if wr then
    Some (bool_decide (~ id ∈ ledger h),
          mk_host (commands h) (messages h) ({[id]} ∪ ledger h) (executing h) (executed h))
  else None.

Definition resolve_command (h : Host) (id : string) (st : SessionCommandStatus) (res : option string)
    : Host :=
  match set_command_status id st res (commands h) with
  | Some l => set_commands h l
  | None => h
  end.

Definition context (rd : bool) (h : Host) (now : Z) (entries : list SessionCommandEntry)
    : EvaluationContext :=
  mk_cx (is_processed rd h) now entries (last (messages h))
    (fun turn => bool_decide (turn ∈ messages h)).

(** ** The drain *)

Definition DEAD : string := "interrupted before completion — retry to send again".

(** The dead-command sweep on one entry of the snapshot. *)
Definition sweep_one (rd : bool) (st : Host * gset string) (c : SessionCommandEntry)
    : Host * gset string :=
  let '(h, skipped) := st in
  if is_pending c && negb (bool_decide (ce_id c ∈ skipped)) && is_processed rd h (ce_id c) &&
     negb (bool_decide (ce_id c ∈ executing h))
  then (resolve_command h (ce_id c) Rejected (Some DEAD), {[ce_id c]} ∪ skipped)
  else (h, skipped).

Definition sweep (rd : bool) (snapshot : list SessionCommandEntry) (h : Host) (skipped : gset string)
    : Host * gset string := foldl (sweep_one rd) (h, skipped) snapshot.

Inductive Chosen :=
  | Halt (h : Host)
  | Again (h : Host) (skipped : gset string)
  | Take (h : Host) (skipped : gset string) (e : SessionCommandEntry) (d : CommandDisposition).

(** From the top of the loop to the in-flight claim: no await in between.
    [now] and [now2] are the two clock readings. *)
Definition choose (uploads : option Uploads) (rd wr : bool) (now now2 : Z)
    (h : Host) (skipped : gset string) : Chosen :=
  let snapshot := commands h in
  let '(h, skipped) := sweep rd snapshot h skipped in
  match list_find (fun c => is_pending c && negb (bool_decide (ce_id c ∈ skipped)) &&
                            negb (is_processed rd h (ce_id c)) = true) snapshot with
  | None => Halt h
  | Some (_, e) =>
      let d := evaluate_command e (context rd h now snapshot) in
      match d, missing_attachments uploads e with
      | DExecute, _ :: _ =>
          if sat_i64 (now2 - ce_issued_at e) <? ATTACHMENT_WAIT_MAX_MS then Halt h
          else match mark_processed wr h (ce_id e) with
               | None => Halt h
               | Some (_, h) =>
                   Again (resolve_command h (ce_id e) Rejected (Some "attachments never arrived")) skipped
               end
      | _, _ => Take h skipped e d
      end
  end.

(** The in-flight claim: [HashSet::insert]. *)
Definition claim (h : Host) (id : string) : option Host :=
  if bool_decide (id ∈ executing h) then None else Some (set_executing h ({[id]} ∪ executing h)).

Definition release (h : Host) (id : string) : Host := set_executing h (executing h ∖ {[id]}).

(** What the executor reports. *)
Inductive Outcome := Ran (resolution : option string) | Refused (resolution : string) | Failed (err : string).

Definition outcome_status (o : Outcome) : SessionCommandStatus * option string :=
  match o with
  | Ran r => (Applied, r)
  | Refused r => (Rejected, Some r)
  | Failed e => (Rejected, Some e)
  end.

Definition settle (h : Host) (id : string) (st : SessionCommandStatus * option string) : Host :=
  release (resolve_command h id st.1 st.2) id.

Section Executor.
(** [execute] runs a command through the sessions engine; of the state kept
    here it may only add messages. *)
Context (execute : list string -> SessionCommandEntry -> list string * Outcome).
Context (uploads : option Uploads).

Definition run_command (h : Host) (e : SessionCommandEntry) : Host * Outcome :=
  let '(m, o) := execute (messages h) e in (set_messages (record_execution h (ce_id e)) m, o).

(** One turn of the loop with nobody in between; the left result returns from
    the drain. *)
Definition drain_iter (rd wr : bool) (now now2 : Z) (h : Host) (skipped : gset string)
    : Host + Host * gset string :=
  match choose uploads rd wr now now2 h skipped with
  | Halt h => inl h
  | Again h skipped => inr (h, skipped)
  | Take h skipped e d =>
      match claim h (ce_id e) with
      | None => inr (h, {[ce_id e]} ∪ skipped)
      | Some h =>
          match mark_processed wr h (ce_id e) with
          | None => inl (release h (ce_id e))
          | Some (_, h) =>
              match d with
              | DSkip => inr (release h (ce_id e), {[ce_id e]} ∪ skipped)
              | DExpired => inr (settle h (ce_id e) (Expired, None), skipped)
              | DSuperseded => inr (settle h (ce_id e) (Superseded, None), skipped)
              | DExecute =>
                  let '(h, o) := run_command h e in
                  inr (settle h (ce_id e) (outcome_status o), skipped)
              end
          end
      end
  end.

(** [drain_commands]; [clock] gives the two readings of each turn. [None] is
    fuel run out. *)
Fixpoint drain_loop (fuel : nat) (rd wr : bool) (clock : nat -> Z * Z) (h : Host)
    (skipped : gset string) : option Host :=
  match fuel with
  | O => None
  | S fuel =>
      match drain_iter rd wr (clock fuel).1 (clock fuel).2 h skipped with
      | inl h => Some h
      | inr (h, skipped) => drain_loop fuel rd wr clock h skipped
      end
  end.

Definition drain_commands (fuel : nat) (wired is_host rd wr : bool) (clock : nat -> Z * Z) (h : Host)
    : option Host :=
  if wired && is_host then drain_loop fuel rd wr clock h ∅ else Some h.

(** ** The relay *)

(** [ingest_relayed_command]: the reply, or [None] for a retryable error. *)
Definition ingest_relayed_command (wired rd wr : bool) (now : Z) (h : Host)
    (e : SessionCommandEntry) : option string * Host :=
  match missing_attachments uploads e with
  | _ :: _ => (None, h)
  | [] =>
      if negb wired then (None, h)
      else
        let d := evaluate_command e (context rd h now (commands h)) in
        match d with
        | DSkip => (Some "duplicate", h)
        | _ =>
            match claim h (ce_id e) with
            | None => (Some "duplicate", h)
            | Some h =>
                let '(r, h) :=
                  match mark_processed wr h (ce_id e) with
                  | None => (None, h)
                  | Some (false, h) => (Some "duplicate", h)
                  | Some (true, h) =>
                      match d with
                      | DSkip => (Some "duplicate", h)
                      | DExpired => (Some "expired", h)
                      | DSuperseded => (Some "superseded", h)
                      | DExecute =>
                          let '(h, o) := run_command h e in
                          (match o with Failed _ => None | _ => Some "executed" end, h)
                      end
                  end in
                (r, release h (ce_id e))
            end
        end
  end.
End Executor.

(** ** Supersession *)

Lemma newer_same_kind_spec e entries :
  newer_same_kind e entries = true <->
  exists o, o ∈ entries /\ ce_id o <> ce_id e /\ ce_kind o = ce_kind e /\ ce_status o = Pending /\
    ce_issued_at e < ce_issued_at o.
Proof.
  unfold newer_same_kind, is_pending. rewrite existsb_exists. split.
  - intros (o & Hin & H). exists o. rewrite !andb_true_iff, negb_true_iff, !bool_decide_eq_true in H.
    destruct H as (((Hid & Hk) & Hp) & Hlt). split_and!; try done.
    + by apply list_elem_of_In.
    + by apply String.eqb_neq.
    + lia.
  - intros (o & Hin & Hid & Hk & Hp & Hlt). exists o. split; [by apply list_elem_of_In|].
    rewrite !andb_true_iff, negb_true_iff, !bool_decide_eq_true. split_and!; try done; [|lia].
    by apply String.eqb_neq.
Qed.

(** The newest entry of a non-empty list. *)
Lemma newest_entry (l : list SessionCommandEntry) :
  l <> [] -> exists e, e ∈ l /\ forall o, o ∈ l -> ce_issued_at o <= ce_issued_at e.
Proof.
  induction l as [|c l IH]; [done|]. intros _. destruct l as [|c' l].
  - exists c. split; [left|]. intros o ->%list_elem_of_singleton. lia.
  - destruct IH as (e & He & Hmax); [done|].
    destruct (Z.le_gt_cases (ce_issued_at e) (ce_issued_at c)).
    + exists c. split; [left|]. intros o [->|Ho]%elem_of_cons; [lia|]. specialize (Hmax _ Ho). lia.
    + exists e. split; [by right|]. intros o [->|Ho]%elem_of_cons; [lia|by apply Hmax].
Qed.

(** A command that may still run: neither processed nor expired. *)
Definition current (cx : EvaluationContext) (e : SessionCommandEntry) : Prop :=
  cx_is_processed cx (ce_id e) = false /\ cx_now_ms cx < effective_expiry e.

(** Supersession picks the newest and starves nobody: a run or an input
    response is executed exactly when it is neither processed nor expired,
    whatever else is queued; a steer that is executed has no strictly newer
    pending steer; and of the pending steers still current at least one is
    executed. *)
Theorem evaluate_newest_wins cx :
  (forall e, ce_kind e = KRun \/ ce_kind e = KRespondInput ->
     evaluate_command e cx = DExecute <-> current cx e) /\
  (forall e o, ce_kind e = KSteer -> evaluate_command e cx = DExecute ->
     o ∈ cx_entries cx -> ce_kind o = KSteer -> ce_status o = Pending -> ce_id o <> ce_id e ->
     ce_issued_at o <= ce_issued_at e) /\
  (forall s, s ∈ cx_entries cx -> ce_kind s = KSteer -> ce_status s = Pending ->
     (forall o, o ∈ cx_entries cx -> ce_kind o = KSteer -> ce_status o = Pending -> current cx o) ->
     exists e, e ∈ cx_entries cx /\ ce_kind e = KSteer /\ ce_status e = Pending /\
       evaluate_command e cx = DExecute).
Proof.
  split_and!.
  - intros e Hk. unfold evaluate_command, current.
    destruct (cx_is_processed cx (ce_id e)); [by split; [|intros []]|].
    destruct (Z.leb_spec (effective_expiry e) (cx_now_ms cx)); [split; [done|lia]|].
    by destruct Hk as [-> | ->].
  - intros e o Hk He Hin Hko Hp Hid. unfold evaluate_command in He. rewrite Hk in He.
    destruct (cx_is_processed cx (ce_id e)); [done|]. destruct (_ <=? _); [done|].
    destruct (newer_same_kind e (cx_entries cx)) eqn:En; [done|].
    apply Z.nlt_ge. intros Hlt. apply not_true_iff_false in En. apply En, newer_same_kind_spec.
    exists o. rewrite Hk. done.
  - intros s Hs Hk Hp Hall.
    destruct (newest_entry (filter (fun o => ce_kind o = KSteer /\ ce_status o = Pending) (cx_entries cx)))
      as (e & [[Hke Hpe] He]%list_elem_of_filter & Hmax).
    { intros E. apply (not_elem_of_nil s). rewrite <- E. by apply list_elem_of_filter. }
    exists e. split_and!; try done. destruct (Hall e He Hke Hpe) as [Hpr Hex].
    unfold evaluate_command. rewrite Hpr, Hke. destruct (Z.leb_spec (effective_expiry e) (cx_now_ms cx)); [lia|].
    destruct (newer_same_kind e (cx_entries cx)) eqn:En; [|done].
    apply newer_same_kind_spec in En as (o & Ho & _ & Hko & Hpo & Hlt).
    specialize (Hmax o). rewrite list_elem_of_filter in Hmax. rewrite Hke in Hko. 
    assert (ce_issued_at o <= ce_issued_at e) by by apply Hmax. lia.
Qed.

(** A reference parses back into its upload. *)
Lemma pending_ref_roundtrip id name :
  id <> "" -> name <> "" -> has_char slash id = false ->
  is_pending_ref (pending_ref id name) = true /\
  parse_pending_ref (pending_ref id name) = Some (id, name).
Proof.
  intros Hid Hn Hs. unfold parse_pending_ref, pending_ref.
  split; [cbn; by destruct (id ++ String slash name)%string|].
  rewrite strip_prefix_app. cbn [mbind option_bind]. rewrite split_once_join by done. cbn.
  apply String.eqb_neq in Hid as ->. by apply String.eqb_neq in Hn as ->.
Qed.

(** ** The command list *)

Definition pending_of (h : Host) : list SessionCommandEntry :=
  filter (fun c => ce_status c = Pending) (commands h).

(** What no outcome ever changes of an entry. *)
Definition frozen (c : SessionCommandEntry) :=
  (ce_id c, ce_payload c, ce_issued_by c, ce_issued_at c, ce_based_on c, ce_expires_at c).

Definition ids (h : Host) : list string := ce_id <$> commands h.

Lemma is_pending_true c : is_pending c = true <-> ce_status c = Pending.
Proof. apply bool_decide_eq_true. Qed.

Lemma set_status_frozen st res c : frozen (set_status st res c) = frozen c.
Proof. done. Qed.

Lemma set_command_status_frozen id st res l l' :
  set_command_status id st res l = Some l' -> frozen <$> l' = frozen <$> l.
Proof.
  revert l'. induction l as [|c l IH]; intros l'; cbn; [done|].
  destruct (String.eqb _ _); [by intros [= <-]|].
  destruct (set_command_status id st res l); [|done]. intros [= <-]. cbn. by rewrite IH.
Qed.

Lemma set_command_status_pending id st res l l' :
  NoDup (ce_id <$> l) -> st <> Pending -> set_command_status id st res l = Some l' ->
  filter (fun c => ce_status c = Pending) l' =
    filter (fun c => ce_id c <> id) (filter (fun c => ce_status c = Pending) l).
Proof.
  intros Hnd Hst. revert l'. induction l as [|c l IH]; intros l'; cbn [set_command_status]; [done|].
  rewrite fmap_cons in Hnd. apply NoDup_cons in Hnd as [Hc Hnd].
  destruct (String.eqb_spec (ce_id c) id) as [<-|Hn].
  - intros [= <-]. rewrite filter_cons_False by done.
    assert (filter (fun c' => ce_id c' <> ce_id c) (filter (fun c => ce_status c = Pending) l) =
            filter (fun c => ce_status c = Pending) l) as E.
    { apply list_filter_all, Forall_forall. intros x [_ Hx]%list_elem_of_filter Heq.
      apply Hc. rewrite <- Heq. by apply list_elem_of_fmap_2. }
    destruct (decide (ce_status c = Pending)).
    + rewrite (filter_cons_True _ c) by done. by rewrite filter_cons_False by naive_solver.
    + by rewrite (filter_cons_False _ c) by done.
  - destruct (set_command_status id st res l) as [l1|] eqn:E; [|done]. intros [= <-].
    destruct (decide (ce_status c = Pending)).
    + rewrite !(filter_cons_True _ c) by done. by rewrite (IH Hnd l1).
    + rewrite !(filter_cons_False _ c) by done. by rewrite (IH Hnd l1).
Qed.

Lemma set_command_status_None id st res l :
  set_command_status id st res l = None -> ~ id ∈ (ce_id <$> l).
Proof.
  induction l as [|c l IH]; cbn [set_command_status]; [by intros _ ?%elem_of_nil|].
  destruct (String.eqb_spec (ce_id c) id); [done|].
  destruct (set_command_status id st res l); [done|]. intros _.
  rewrite fmap_cons, elem_of_cons. naive_solver.
Qed.

(** Entries of other ids stay where and as they are. *)
Lemma set_command_status_other id st res l l' i c :
  set_command_status id st res l = Some l' -> l !! i = Some c -> ce_id c <> id -> l' !! i = Some c.
Proof.
  revert l' i. induction l as [|x l IH]; intros l' [|i]; cbn [set_command_status lookup list_lookup];
    try done.
  - destruct (String.eqb_spec (ce_id x) id); [naive_solver|].
    destruct (set_command_status id st res l); [|done]. by intros [= <-] [= ->].
  - destruct (String.eqb_spec (ce_id x) id); [by intros [= <-]|].
    destruct (set_command_status id st res l) as [l1|] eqn:E; [|done]. intros [= <-] Hi Hn.
    cbn. by apply IH.
Qed.

(** What an outcome write changes: the pending list loses the id. *)
Record same_book (h h' : Host) : Prop := {
  sb_frozen : frozen <$> commands h' = frozen <$> commands h;
  sb_messages : messages h' = messages h;
  sb_ledger : ledger h' = ledger h;
  sb_executing : executing h' = executing h;
  sb_executed : executed h' = executed h;
}.

Lemma same_book_ids h h' : same_book h h' -> ids h' = ids h.
Proof.
  intros [Hf _ _ _ _]. unfold ids.
  transitivity ((fun f => f.1.1.1.1.1) <$> (frozen <$> commands h'));
    [by rewrite <- list_fmap_compose|]. rewrite Hf. by rewrite <- list_fmap_compose.
Qed.

#[export] Instance same_book_pre : PreOrder same_book.
Proof.
  split; [by intros h; split|].
  intros h1 h2 h3 [] []; split; congruence.
Qed.

Lemma resolve_command_spec h id st res :
  NoDup (ids h) -> st <> Pending ->
  same_book h (resolve_command h id st res) /\
  pending_of (resolve_command h id st res) = filter (fun c => ce_id c <> id) (pending_of h) /\
  (forall i c, commands h !! i = Some c -> ce_id c <> id ->
     commands (resolve_command h id st res) !! i = Some c).
Proof.
  intros Hnd Hst. unfold resolve_command.
  destruct (set_command_status id st res (commands h)) as [l|] eqn:E.
  - split_and!.
    + split; try done. by eapply set_command_status_frozen.
    + unfold pending_of. by apply set_command_status_pending with (st := st) (res := res).
    + intros i c Hi Hn. by eapply set_command_status_other.
  - split_and!; [by split| |done]. symmetry. apply list_filter_all, Forall_forall.
    intros c [_ Hc]%list_elem_of_filter <-.
    eapply set_command_status_None; [exact E|]. by apply list_elem_of_fmap_2.
Qed.

(** ** The sweep *)

Lemma sweep_spec l h s :
  NoDup (ids h) ->
  exists D : gset string,
    let '(h', s') := sweep true l h s in
    same_book h h' /\ s' = D ∪ s /\
    pending_of h' = filter (fun c => ~ ce_id c ∈ D) (pending_of h) /\
    (forall c, c ∈ l -> ce_status c = Pending -> ce_id c ∈ ledger h -> ~ ce_id c ∈ executing h ->
       ce_id c ∈ D ∪ s) /\
    (forall id, id ∈ D -> exists c, c ∈ l /\ ce_status c = Pending /\ ce_id c = id) /\
    (forall i c, commands h !! i = Some c -> ~ ce_id c ∈ D -> commands h' !! i = Some c).
Proof.
  unfold sweep. revert h s. induction l as [|c l IH]; intros h s Hnd; cbn [foldl].
  - exists ∅. split_and!; [done|set_solver| |by intros ? ?%elem_of_nil|set_solver|done].
    symmetry. apply list_filter_all, Forall_forall. set_solver.
  - cbn [sweep_one].
    destruct (is_pending c && negb (bool_decide (ce_id c ∈ s)) && is_processed true h (ce_id c) &&
              negb (bool_decide (ce_id c ∈ executing h))) eqn:Ec.
    + apply andb_true_iff in Ec as [Ec Hx]. apply andb_true_iff in Ec as [Ec Hl].
      apply andb_true_iff in Ec as [Hp Hs]. apply is_pending_true in Hp.
      destruct (resolve_command_spec h (ce_id c) Rejected (Some DEAD) Hnd) as (Hb & Hpe & Hk); [done|].
      specialize (IH (resolve_command h (ce_id c) Rejected (Some DEAD)) ({[ce_id c]} ∪ s)) as [D HD].
      { by rewrite (same_book_ids _ _ Hb). }
      exists ({[ce_id c]} ∪ D). destruct (foldl _ _ _) as [h' s'].
      destruct HD as (Hb' & -> & Hpe' & Ha & Hd & Hk'). split_and!.
      * by transitivity (resolve_command h (ce_id c) Rejected (Some DEAD)).
      * set_solver.
      * rewrite Hpe', Hpe, list_filter_filter. apply list_filter_iff. set_solver.
      * intros c' [->|Hc']%elem_of_cons Hst Hle Hex; [set_solver|].
        rewrite <- (sb_ledger _ _ Hb) in Hle. rewrite <- (sb_executing _ _ Hb) in Hex.
        specialize (Ha c' Hc' Hst Hle Hex). set_solver.
      * intros id [->%elem_of_singleton|Hid]%elem_of_union; [exists c; set_solver|].
        destruct (Hd id Hid) as (c' & ? & ? & ?). exists c'. set_solver.
      * intros i c' Hi Hn. apply Hk'; [apply Hk; [done|set_solver]|set_solver].
    + specialize (IH h s Hnd) as [D HD]. exists D. destruct (foldl _ _ _) as [h' s'].
      destruct HD as (Hb' & -> & Hpe' & Ha & Hd & Hk'). split_and!; try done.
      * intros c' [->|Hc']%elem_of_cons Hst Hle Hex; [|by apply Ha].
        apply elem_of_union_r. apply dec_stable. intros Hns.
        assert (is_pending c = true) as E1 by by apply is_pending_true.
        unfold is_processed in Ec. rewrite E1, (bool_decide_false (ce_id c ∈ s)),
          (bool_decide_true (ce_id c ∈ ledger h)), (bool_decide_false (ce_id c ∈ executing h)) in Ec by done.
        done.
      * intros id Hid. destruct (Hd id Hid) as (c' & ? & ? & ?). exists c'. set_solver.
Qed.

(** ** The drain settles the queue *)

Section Drain.
Context (execute : list string -> SessionCommandEntry -> list string * Outcome).
Context (uploads : option Uploads).

Record drain_inv (h : Host) (s : gset string) : Prop := {
  di_ids : NoDup (ids h);
  di_idle : executing h = ∅;
  di_skipped : forall c, c ∈ pending_of h -> ~ ce_id c ∈ s;
  di_landed : Forall (fun c => missing_attachments uploads c = []) (commands h);
}.

Lemma landed_frozen l l' :
  frozen <$> l' = frozen <$> l ->
  Forall (fun c => missing_attachments uploads c = []) l ->
  Forall (fun c => missing_attachments uploads c = []) l'.
Proof.
  intros Hf Hl. apply Forall_lookup. intros i c' Hi.
  assert ((frozen <$> l) !! i = Some (frozen c')) as E by by rewrite <- Hf, list_lookup_fmap, Hi.
  apply list_lookup_fmap_Some in E as (c & E & Hc).
  rewrite Forall_lookup in Hl. specialize (Hl _ _ Hc).
  unfold missing_attachments in *. by injection E as _ -> _ _ _ _.
Qed.

(** Entries that already have an outcome keep it. *)
Definition kept (h h' : Host) : Prop :=
  forall i c, commands h !! i = Some c -> ce_status c <> Pending -> commands h' !! i = Some c.

(** What one turn achieves: it returns with nothing pending, or it settles the
    first live command of the queue, which it ran only if the ledger did not
    know it. *)
Definition turn_spec (h : Host) (r : Host + Host * gset string) : Prop :=
  match r with
  | inl h' =>
      pending_of h' = [] /\ frozen <$> commands h' = frozen <$> commands h /\
      ledger h' = ledger h /\ executing h' = ∅ /\ executed h' = executed h /\ kept h h'
  | inr (h', s') =>
      drain_inv h' s' /\ frozen <$> commands h' = frozen <$> commands h /\ kept h h' /\
      exists pre e post,
        pending_of h = pre ++ e :: post /\ pending_of h' `sublist_of` post /\
        ~ ce_id e ∈ ledger h /\ ledger h' = {[ce_id e]} ∪ ledger h /\
        (executed h' = executed h \/ executed h' = executed h ++ [ce_id e])
  end.

Lemma ids_inj h c c' :
  NoDup (ids h) -> c ∈ commands h -> c' ∈ commands h -> ce_id c = ce_id c' -> c = c'.
Proof.
  intros Hnd [i Hi]%list_elem_of_lookup [j Hj]%list_elem_of_lookup E.
  assert (i = j) as ->; [|congruence]. apply (NoDup_lookup _ _ _ (ce_id c) Hnd); unfold ids.
  - by rewrite list_lookup_fmap, Hi.
  - by rewrite E, list_lookup_fmap, Hj.
Qed.

Definition eligible (h : Host) (s : gset string) (c : SessionCommandEntry) : Prop :=
  is_pending c && negb (bool_decide (ce_id c ∈ s)) && negb (is_processed true h (ce_id c)) = true.

Lemma eligible_spec h s c :
  eligible h s c <-> ce_status c = Pending /\ ~ ce_id c ∈ s /\ ~ ce_id c ∈ ledger h.
Proof.
  unfold eligible, is_processed. cbn [andb].
  rewrite !andb_true_iff, !negb_true_iff, !bool_decide_eq_false, is_pending_true. tauto.
Qed.

Lemma pending_split h (D : gset string) i e :
  commands h !! i = Some e -> ce_status e = Pending -> ~ ce_id e ∈ D ->
  (forall j y, commands h !! j = Some y -> (j < i)%nat -> ce_status y = Pending -> ce_id y ∈ D) ->
  exists pre post post', pending_of h = pre ++ e :: post /\
    filter (fun c => ~ ce_id c ∈ D) (pending_of h) = e :: post' /\ post' `sublist_of` post.
Proof.
  intros Hi Hst He Hpre. unfold pending_of. set (pend := fun c => ce_status c = Pending).
  exists (filter pend (take i (commands h))), (filter pend (drop (S i) (commands h))),
    (filter (fun c => ~ ce_id c ∈ D) (filter pend (drop (S i) (commands h)))).
  assert (filter pend (commands h) =
          filter pend (take i (commands h)) ++ e :: filter pend (drop (S i) (commands h))) as E.
  { rewrite <- (take_drop_middle _ _ _ Hi) at 1. by rewrite filter_app, filter_cons_True. }
  split_and!; [done| |apply sublist_filter].
  rewrite E, filter_app, list_filter_none, filter_cons_True; [done..|].
  apply Forall_forall. intros y [Hy [j Hj]%list_elem_of_lookup]%list_elem_of_filter Hn.
  apply lookup_take_Some in Hj as [Hj Hlt]. by apply Hn, (Hpre j y).
Qed.

Lemma choose_spec h s now now2 :
  drain_inv h s ->
  match choose uploads true true now now2 h s with
  | Halt h' => pending_of h' = [] /\ same_book h h' /\ kept h h'
  | Again _ _ => False
  | Take h' s' e d =>
      same_book h h' /\ kept h h' /\ drain_inv h' s' /\ d <> DSkip /\ ~ ce_id e ∈ ledger h /\
      exists pre post post', pending_of h = pre ++ e :: post /\ pending_of h' = e :: post' /\
        post' `sublist_of` post
  end.
Proof.
  intros [Hnd Hidle Hsk Hland]. unfold choose.
  destruct (sweep_spec (commands h) h s Hnd) as [D HD].
  destruct (sweep true (commands h) h s) as [h1 s1].
  destruct HD as (Hb & -> & Hpe & Hsw & HD & Hk).
  assert (kept h h1) as Hkept.
  { intros i c Hi Hst. apply Hk; [done|]. intros (c' & Hc' & Hst' & Hid)%HD.
    rewrite (ids_inj h c' c Hnd Hc') in Hst' by (done || by eapply list_elem_of_lookup_2). done. }
  assert (forall c, c ∈ pending_of h -> ~ eligible h1 (D ∪ s) c -> ce_id c ∈ D) as Hdead.
  { intros c Hc Hne. pose proof (Hsk _ Hc) as Hns.
    apply list_elem_of_filter in Hc as [Hst Hin].
    rewrite eligible_spec, (sb_ledger _ _ Hb) in Hne.
    destruct (decide (ce_id c ∈ D ∪ s)); [set_solver|].
    assert (ce_id c ∈ ledger h) as Hl by (apply dec_stable; tauto).
    pose proof (Hsw c Hin Hst Hl). rewrite Hidle in *. set_solver. }
  assert (drain_inv h1 (D ∪ s)) as Hinv1.
  { split.
    - by rewrite (same_book_ids _ _ Hb).
    - by rewrite (sb_executing _ _ Hb).
    - intros c. rewrite Hpe, list_elem_of_filter. intros [Hn Hc]. specialize (Hsk _ Hc). set_solver.
    - eapply landed_frozen; [exact (sb_frozen _ _ Hb)|done]. }
  fold (eligible h1 (D ∪ s)).
  destruct (list_find _ (commands h)) as [[i e]|] eqn:Ef.
  - apply list_find_Some in Ef as (Hi & He & Hpre). fold (eligible h1 (D ∪ s) e) in He.
    pose proof He as He'. apply eligible_spec in He' as (Hst & Hns & Hnl).
    rewrite Forall_lookup in Hland. rewrite (Hland _ _ Hi).
    assert (evaluate_command e (context true h1 now (commands h)) <> DSkip) as Hd.
    { unfold evaluate_command. cbn [cx_is_processed context]. unfold is_processed.
      rewrite bool_decide_false by done. cbn. by repeat case_match. }
    assert (exists pre post post', pending_of h = pre ++ e :: post /\ pending_of h1 = e :: post' /\
              post' `sublist_of` post) as Hsplit.
    { rewrite Hpe. apply pending_split with (i := i); [done..|set_solver|].
      intros j y Hj Hlt Hy. apply Hdead; [by apply list_elem_of_filter; split; [|eapply list_elem_of_lookup_2]|].
      by apply (Hpre j y). }
    rewrite (sb_ledger _ _ Hb) in Hnl.
    destruct (evaluate_command e (context true h1 now (commands h))) eqn:Ed; done || by split_and!.
  - apply list_find_None in Ef. split_and!; [|done|done].
    rewrite Hpe. apply list_filter_none, Forall_forall. intros c Hc Hn.
    apply Hn, Hdead; [done|]. rewrite Forall_forall in Ef. apply Ef.
    by apply list_elem_of_filter in Hc as [_ ?].
Qed.

(** The claimed command gets its outcome. *)
Lemma settle_spec h s e post st m x :
  drain_inv h s -> pending_of h = e :: post -> st.1 <> Pending ->
  let h' := settle (mk_host (commands h) m ({[ce_id e]} ∪ ledger h) ({[ce_id e]} ∪ executing h) x)
              (ce_id e) st in
  drain_inv h' s /\ frozen <$> commands h' = frozen <$> commands h /\ kept h h' /\
  pending_of h' `sublist_of` post /\ ledger h' = {[ce_id e]} ∪ ledger h /\ executed h' = x.
Proof.
  intros [Hnd Hidle Hsk Hland] Hp Hst h'.
  set (h1 := mk_host (commands h) m ({[ce_id e]} ∪ ledger h) ({[ce_id e]} ∪ executing h) x) in *.
  destruct (resolve_command_spec h1 (ce_id e) st.1 st.2 Hnd Hst) as (Hb & Hpe & Hk).
  change (pending_of h1) with (pending_of h) in Hpe.
  assert (pending_of h' `sublist_of` post) as Hsub.
  { change (pending_of h') with (pending_of (resolve_command h1 (ce_id e) st.1 st.2)).
    rewrite Hpe, Hp, filter_cons_False by naive_solver. apply sublist_filter. }
  split_and!; [|exact (sb_frozen _ _ Hb)| |done|exact (sb_ledger _ _ Hb)|exact (sb_executed _ _ Hb)].
  - split.
    + change (ids h') with (ids (resolve_command h1 (ce_id e) st.1 st.2)).
      by rewrite (same_book_ids _ _ Hb).
    + unfold h', settle, release. cbn. rewrite (sb_executing _ _ Hb). cbn. rewrite Hidle. set_solver.
    + intros c Hc. apply Hsk. rewrite Hp. apply elem_of_cons. right.
      by eapply elem_of_sublist.
    + eapply landed_frozen; [exact (sb_frozen _ _ Hb)|done].
  - intros i c Hi Hn. apply Hk; [done|]. intros E. apply Hn.
    assert (e ∈ pending_of h) as [He Hin]%list_elem_of_filter by (rewrite Hp; left).
    rewrite (ids_inj h c e Hnd) by (done || by eapply list_elem_of_lookup_2). done.
Qed.

Lemma turn_settled h h1 s1 e pre post post' st m x :
  same_book h h1 -> kept h h1 -> drain_inv h1 s1 -> ~ ce_id e ∈ ledger h ->
  pending_of h = pre ++ e :: post -> pending_of h1 = e :: post' -> post' `sublist_of` post ->
  st.1 <> Pending -> x = executed h \/ x = executed h ++ [ce_id e] ->
  turn_spec h (inr (settle (mk_host (commands h1) m ({[ce_id e]} ∪ ledger h1) ({[ce_id e]} ∪ ∅) x)
                      (ce_id e) st, s1)).
Proof.
  intros [Hbf Hbm Hbl Hbx Hbe] Hk Hinv1 Hnl Hp Hp1 Hsub Hst Hx.
  destruct (settle_spec h1 s1 e post' st m x Hinv1 Hp1 Hst) as (Hi & Hf & Hk' & Hs & Hl & He).
  rewrite (di_idle _ _ Hinv1) in *. split_and!; [done|congruence| |].
  - intros i c Hc Hn. apply Hk'; [by apply Hk|done].
  - exists pre, e, post. split_and!;
      [done|by transitivity post'|done|by rewrite Hl, Hbl|by rewrite He].
Qed.

Lemma drain_iter_spec h s now now2 :
  drain_inv h s -> turn_spec h (drain_iter execute uploads true true now now2 h s).
Proof.
  intros Hinv. pose proof (choose_spec h s now now2 Hinv) as Hc. unfold drain_iter.
  destruct (choose uploads true true now now2 h s) as [h1|h1 s1|h1 s1 e d]; [|done|].
  - destruct Hc as (Hp & [] & Hk). unfold turn_spec. pose proof (di_idle _ _ Hinv).
    split_and!; congruence || done.
  - destruct Hc as (Hb & Hk & Hinv1 & Hd & Hnl & pre & post & post' & Hp & Hp1 & Hsub).
    unfold claim. rewrite (di_idle _ _ Hinv1), bool_decide_false by set_solver.
    cbn [mark_processed set_executing commands messages ledger executing executed].
    pose proof (sb_executed _ _ Hb) as He.
    destruct d; [done| | |].
    + by eapply turn_settled; eauto.
    + by eapply turn_settled; eauto.
    + unfold run_command. cbn [messages]. destruct (execute (messages h1) e) as [m o].
      unfold set_messages, record_execution. cbn [commands messages ledger executing executed].
      rewrite He. eapply turn_settled; eauto. by destruct o.
Qed.

Lemma sublist_fmap_id (l l' : list SessionCommandEntry) :
  l `sublist_of` l' -> (ce_id <$> l) `sublist_of` (ce_id <$> l').
Proof. induction 1; cbn; by constructor. Qed.

Lemma drain_loop_settles fuel clock h s :
  drain_inv h s -> (length (pending_of h) < fuel)%nat ->
  exists h' ran, drain_loop execute uploads fuel true true clock h s = Some h' /\
    pending_of h' = [] /\ frozen <$> commands h' = frozen <$> commands h /\ kept h h' /\
    executing h' = ∅ /\ executed h' = executed h ++ ran /\ ledger h ⊆ ledger h' /\
    ran `sublist_of` (ce_id <$> pending_of h) /\
    (forall id, id ∈ ran -> ~ id ∈ ledger h /\ id ∈ ledger h').
Proof.
  revert h s. induction fuel as [|fuel IH]; intros h s Hinv Hlen; [lia|]. cbn [drain_loop].
  pose proof (drain_iter_spec h s (clock fuel).1 (clock fuel).2 Hinv) as Ht.
  destruct (drain_iter _ _ _ _ _ _ _ _) as [h'|[h1 s1]].
  - destruct Ht as (Hp & Hf & Hl & Hx & He & Hk). exists h', []. rewrite app_nil_r, Hl.
    split_and!; try done; [apply sublist_nil_l|by intros ? ?%elem_of_nil].
  - destruct Ht as (Hinv1 & Hf & Hk & pre & e & post & Hp & Hsub & Hnl & Hl & He).
    pose proof (sublist_length _ _ Hsub) as Hle.
    destruct (IH h1 s1 Hinv1) as (h' & ran & E & Hp' & Hf' & Hk' & Hx' & He' & Hl' & Hran & Hall).
    { rewrite Hp, length_app in Hlen. cbn in Hlen. lia. }
    assert (ran `sublist_of` (ce_id <$> post)) as Hran'
      by (etransitivity; [exact Hran|by apply sublist_fmap_id]).
    exists h', ((if decide (executed h1 = executed h) then [] else [ce_id e]) ++ ran).
    split_and!; [done|done|congruence|intros i c Hc Hn; apply Hk'; [by apply Hk|done]|done| | | |].
    + rewrite He'. case_decide; [by f_equal|]. destruct He as [He|He]; [done|].
      by rewrite He, <- app_assoc.
    + set_solver.
    + rewrite Hp, fmap_app, fmap_cons. apply sublist_inserts_l.
      case_decide; cbn; [by apply sublist_cons|by apply sublist_skip].
    + intros id [Hid|Hid]%elem_of_app; [|destruct (Hall id Hid); set_solver].
      case_decide; [by apply elem_of_nil in Hid|]. apply list_elem_of_singleton in Hid as ->. set_solver.
Qed.

(** C17. A drain settles its whole queue: on a host whose store answers, with
    nothing in flight and every attachment landed, [drain_commands] returns
    within one turn more than there are pending commands; afterwards no command
    is pending, outcomes that stood are as they were, entries keep everything
    but status and resolution, and the commands it executed are pending ones in
    document order, each new to the processed ledger and recorded there. *)
Theorem drain_settles h clock fuel :
  NoDup (ids h) -> executing h = ∅ ->
  Forall (fun c => missing_attachments uploads c = []) (commands h) ->
  (length (pending_of h) < fuel)%nat ->
  exists h' ran, drain_commands execute uploads fuel true true true true clock h = Some h' /\
    pending_of h' = [] /\ frozen <$> commands h' = frozen <$> commands h /\ kept h h' /\
    executed h' = executed h ++ ran /\ ran `sublist_of` (ce_id <$> pending_of h) /\ NoDup ran /\
    (forall id, id ∈ ran -> ~ id ∈ ledger h /\ id ∈ ledger h').
Proof.
  intros Hnd Hx Hland Hlen.
  destruct (drain_loop_settles fuel clock h ∅) as (h' & ran & E & Hp & Hf & Hk & _ & He & _ & Hran & Hall).
  { split; [done..| |done]. set_solver. }
  { done. }
  exists h', ran. split_and!; try done. eapply sublist_NoDup; [|exact Hran].
  eapply sublist_NoDup; [exact Hnd|]. apply sublist_fmap_id, sublist_filter.
Qed.
End Drain.

(** ** At most once *)

(** Workers run in turns: a drain or a relay keeps its thread from the top of
    its loop to the first await, the call of the executor, and takes it again
    when the executor answers. *)
Section Interleaving.
Context (uploads : option Uploads).

(** A drain's turn up to the executor call: [Some e] is the command whose
    execution has begun. *)
Definition drain_start (rd wr : bool) (now now2 : Z) (h : Host) (skipped : gset string)
    : Host * option SessionCommandEntry :=
  match choose uploads rd wr now now2 h skipped with
  | Halt h => (h, None)
  | Again h _ => (h, None)
  | Take h _ e d =>
      match claim h (ce_id e) with
      | None => (h, None)
      | Some h =>
          match mark_processed wr h (ce_id e) with
          | None => (release h (ce_id e), None)
          | Some (_, h) =>
              match d with
              | DSkip => (release h (ce_id e), None)
              | DExpired => (settle h (ce_id e) (Expired, None), None)
              | DSuperseded => (settle h (ce_id e) (Superseded, None), None)
              | DExecute => (record_execution h (ce_id e), Some e)
              end
          end
      end
  end.

(** A relay's turn up to the executor call. *)
Definition relay_start (wired rd wr : bool) (now : Z) (h : Host) (e : SessionCommandEntry)
    : Host * option SessionCommandEntry :=
  match missing_attachments uploads e, negb wired with
  | [], false =>
      let d := evaluate_command e (context rd h now (commands h)) in
      match d, claim h (ce_id e) with
      | DSkip, _ | _, None => (h, None)
      | _, Some h =>
          match mark_processed wr h (ce_id e) with
          | Some (true, h) =>
              match d with
              | DExecute => (record_execution h (ce_id e), Some e)
              | _ => (release h (ce_id e), None)
              end
          | Some (false, h) => (release h (ce_id e), None)
          | None => (release h (ce_id e), None)
          end
      end
  | _, _ => (h, None)
  end.

Inductive Worker := Drainer (e : SessionCommandEntry) | Relayer (e : SessionCommandEntry).

(** The steps: turns of drains and relays on a store whose reads answer, the
    executor's answers, rows and messages arriving by sync, and a crash that
    takes the in-flight set and every worker with it. *)
Inductive step : Host * list Worker -> Host * list Worker -> Prop :=
  | step_drain wr now now2 h s ws h' r :
      drain_start true wr now now2 h s = (h', r) ->
      step (h, ws) (h', from_option (fun e => Drainer e :: ws) ws r)
  | step_relay wired wr now e h ws h' r :
      relay_start wired true wr now h e = (h', r) ->
      step (h, ws) (h', from_option (fun e => Relayer e :: ws) ws r)
  | step_drain_end e o m h ws1 ws2 :
      step (h, ws1 ++ Drainer e :: ws2) (settle (set_messages h m) (ce_id e) (outcome_status o), ws1 ++ ws2)
  | step_relay_end e m h ws1 ws2 :
      step (h, ws1 ++ Relayer e :: ws2) (release (set_messages h m) (ce_id e), ws1 ++ ws2)
  | step_sync l m h ws : step (h, ws) (set_messages (set_commands h l) m, ws)
  | step_crash h ws : step (h, ws) (set_executing h ∅, []).

Record once (h : Host) : Prop := {
  once_nodup : NoDup (executed h);
  once_ledger : forall id, id ∈ executed h -> id ∈ ledger h;
}.

(** A turn either executes nothing and keeps the ledger's entries, or executes
    one command the ledger did not hold and records it. *)
Definition turn_once (h h' : Host) (r : option SessionCommandEntry) : Prop :=
  ledger h ⊆ ledger h' /\
  match r with
  | None => executed h' = executed h
  | Some e => executed h' = executed h ++ [ce_id e] /\ ~ ce_id e ∈ ledger h /\ ce_id e ∈ ledger h'
  end.

Lemma resolve_command_books h id st res :
  ledger (resolve_command h id st res) = ledger h /\ executed (resolve_command h id st res) = executed h.
Proof. unfold resolve_command. by case_match. Qed.

Lemma sweep_books rd l h s :
  ledger (sweep rd l h s).1 = ledger h /\ executed (sweep rd l h s).1 = executed h.
Proof.
  unfold sweep. revert h s. induction l as [|c l IH]; intros h s; [done|]. cbn [foldl sweep_one].
  destruct (_ && _); [|apply IH].
  destruct (IH (resolve_command h (ce_id c) Rejected (Some DEAD)) ({[ce_id c]} ∪ s)) as [-> ->].
  apply resolve_command_books.
Qed.

Lemma choose_books rd wr now now2 h s :
  match choose uploads rd wr now now2 h s with
  | Halt h' | Again h' _ => ledger h ⊆ ledger h' /\ executed h' = executed h
  | Take h' _ e d =>
      ledger h' = ledger h /\ executed h' = executed h /\ (rd = true -> ~ ce_id e ∈ ledger h)
  end.
Proof.
  unfold choose. destruct (sweep_books rd (commands h) h s) as [El Ee].
  destruct (sweep rd (commands h) h s) as [h1 s1]. cbn [fst] in *.
  destruct (list_find _ _) as [[i e]|] eqn:Ef; [|by rewrite El, Ee].
  apply list_find_Some in Ef as (_ & Hp & _).
  assert (rd = true -> ~ ce_id e ∈ ledger h) as Hn.
  { intros ->. apply andb_true_iff in Hp as [_ Hp]. rewrite negb_true_iff in Hp.
    unfold is_processed in Hp. cbn in Hp. rewrite bool_decide_eq_false, El in Hp. done. }
  destruct (evaluate_command _ _), (missing_attachments uploads e); try by split_and!.
  destruct (_ <? _); [by rewrite El, Ee|]. destruct wr; cbn [mark_processed]; [|by rewrite El, Ee].
  destruct (resolve_command_books (mk_host (commands h1) (messages h1) ({[ce_id e]} ∪ ledger h1)
    (executing h1) (executed h1)) (ce_id e) Rejected (Some "attachments never arrived")) as [-> ->].
  cbn. rewrite El. set_solver.
Qed.

Lemma claim_books h id h' : claim h id = Some h' -> ledger h' = ledger h /\ executed h' = executed h.
Proof. unfold claim. case_match; [done|]. by intros [= <-]. Qed.

Lemma drain_start_once wr now now2 h s h' r :
  drain_start true wr now now2 h s = (h', r) -> turn_once h h' r.
Proof.
  unfold drain_start. pose proof (choose_books true wr now now2 h s) as Hc.
  destruct (choose uploads true wr now now2 h s) as [h1|h1 s1|h1 s1 e d]; [by intros [= <- <-]..|].
  destruct Hc as (El & Ee & Hn). specialize (Hn eq_refl).
  destruct (claim h1 (ce_id e)) as [h2|] eqn:Ec; [|by intros [= <- <-]; split; [rewrite El|]].
  apply claim_books in Ec as [El2 Ee2].
  destruct wr; cbn [mark_processed]; [|intros [= <- <-]; split; cbn; [set_solver|congruence]].
  assert (ledger h ⊆ {[ce_id e]} ∪ ledger h2) as Hsub by (rewrite El2, El; apply union_subseteq_r).
  assert (executed h2 = executed h) as Ex by congruence.
  unfold settle, release. destruct d; intros [= <- <-]; (split; cbn;
    rewrite ?(proj1 (resolve_command_books _ _ _ _)), ?(proj2 (resolve_command_books _ _ _ _));
    try done).
  rewrite Ex. split_and!; [done|done|apply elem_of_union_l; by apply elem_of_singleton].
Qed.

Lemma relay_start_once wired wr now e h h' r :
  relay_start wired true wr now h e = (h', r) -> turn_once h h' r.
Proof.
  unfold relay_start. assert (turn_once h h None) as H0 by done.
  destruct (missing_attachments uploads e), (negb wired); try (by intros [= <- <-]).
  destruct (claim h (ce_id e)) as [h2|] eqn:Ec; [|destruct (evaluate_command _ _); by intros [= <- <-]].
  apply claim_books in Ec as [El Ee].
  unfold mark_processed. destruct wr; [|destruct (evaluate_command _ _); intros [= <- <-]; try done;
    split; cbn; by rewrite ?El, ?Ee].
  case_bool_decide as Hn; destruct (evaluate_command _ _); intros [= <- <-]; try done; split; cbn;
    rewrite ?El, ?Ee; try set_solver; try done.
Qed.

Lemma turn_once_once h h' r : turn_once h h' r -> once h -> once h'.
Proof.
  intros [Hl Hr] [Hnd Hled]. destruct r as [e|].
  - destruct Hr as (He & Hn & Hin). split; rewrite He.
    + apply NoDup_app. split_and!; [done| |apply NoDup_singleton].
      intros x Hx ->%list_elem_of_singleton. by apply Hn, Hled.
    + intros id [Hid| ->%list_elem_of_singleton]%elem_of_app; [by apply Hl, Hled|done].
  - split; rewrite Hr; [done|]. intros id Hid. by apply Hl, Hled.
Qed.

End Interleaving.

(** The step relation's turns are the loop's turns: [drain_iter] is
    [drain_start], the executor, and [settle]. *)
Lemma drain_iter_start execute uploads rd wr now now2 h s :
  match drain_start uploads rd wr now now2 h s with
  | (h', None) =>
      drain_iter execute uploads rd wr now now2 h s = inl h' \/
      exists s', drain_iter execute uploads rd wr now now2 h s = inr (h', s')
  | (h', Some e) =>
      let '(m, o) := execute (messages h') e in
      exists s', drain_iter execute uploads rd wr now now2 h s =
        inr (settle (set_messages h' m) (ce_id e) (outcome_status o), s')
  end.
Proof.
  unfold drain_start, drain_iter. destruct (choose _ _ _ _ _ _ _) as [h1|h1 s1|h1 s1 e d]; eauto.
  destruct (claim h1 (ce_id e)) as [h2|]; eauto.
  destruct (mark_processed wr h2 (ce_id e)) as [[b h3]|]; eauto.
  destruct d; eauto. unfold run_command.
  change (messages (record_execution h3 (ce_id e))) with (messages h3).
  destruct (execute (messages h3) e) as [m o]. eauto.
Qed.

(** ** Witnesses and limits *)

Definition sample_run (id mid : string) (at_ms : Z) : SessionCommandEntry :=
  mk_command id (Run (mk_run_request "p" None None None [] "/" WorkspaceWrite false None None [] None) mid)
    "a" at_ms None None Pending None.

Definition sample_steer (id : string) (at_ms : Z) : SessionCommandEntry :=
  mk_command id (Steer "go" None) "a" at_ms None None Pending None.

Definition ok_execute (m : list string) (e : SessionCommandEntry) : list string * Outcome :=
  (m ++ [ce_id e], Ran None).

Definition sample_host : Host :=
  mk_host [sample_run "r1" "m1" 1000; sample_steer "s1" 1500; sample_run "dead" "m3" 1700;
           sample_steer "s2" 2000] [] {["dead"]} ∅ [].

Lemma drain_settles_witness :
  (exists h' ran, drain_commands ok_execute None 5 true true true true (fun _ => (3000, 3000)) sample_host
     = Some h' /\ pending_of h' = [] /\ frozen <$> commands h' = frozen <$> commands sample_host /\
     kept sample_host h' /\ executed h' = executed sample_host ++ ran /\
     ran `sublist_of` (ce_id <$> pending_of sample_host) /\ NoDup ran /\
     (forall id, id ∈ ran -> ~ id ∈ ledger sample_host /\ id ∈ ledger h')) /\
  (executed <$> drain_commands ok_execute None 5 true true true true (fun _ => (3000, 3000)) sample_host)
    = Some ["r1"; "s2"].
Proof.
  split; [|vm_compute; reflexivity]. apply drain_settles.
  - apply (bool_decide_unpack _). vm_compute. exact I.
  - reflexivity.
  - repeat constructor.
  - apply (bool_decide_unpack _). vm_compute. exact I.
Defined.


(** A relayed command that ran successfully: when its row arrives by sync, the
    drain finds it pending, consumed and not in flight, and writes the outcome
    of a crash. *)
Definition relay_then_row : option Host :=
  let e := sample_run "r1" "m1" 1000 in
  let '(r, h) := ingest_relayed_command ok_execute None true true true 2000 (mk_host [] [] ∅ ∅ []) e in
  drain_commands ok_execute None 3 true true true true (fun _ => (3000, 3000))
    (set_commands h (queue_command (commands h) e)).

Lemma relayed_command_ends_rejected :
  (ingest_relayed_command ok_execute None true true true 2000 (mk_host [] [] ∅ ∅ [])
     (sample_run "r1" "m1" 1000)).1 = Some "executed" /\
  (fun h => (executed h, (fun c => (ce_id c, ce_status c, ce_resolution c)) <$> commands h)) <$> relay_then_row
    = Some (["r1"], [("r1", Rejected, Some DEAD)]).
Proof. split; vm_compute; reflexivity. Qed.

(** Threads, not turns: a relay that runs whole between a drain's choice and
    its claim makes the drain run the command again, because the drain drops
    the answer [Ok(false)] of [mark_processed]. *)
Lemma drain_ignores_lost_claim :
  match choose None true true 2000 2000 (mk_host [sample_run "r1" "m1" 1000] [] ∅ ∅ []) ∅ with
  | Take h1 _ e DExecute =>
      let '(reply, h2) := ingest_relayed_command ok_execute None true true true 2000 h1 e in
      reply = Some "executed" /\
      match claim h2 (ce_id e) ≫= (fun h3 => mark_processed true h3 (ce_id e)) with
      | Some (false, h4) => executed (run_command ok_execute h4 e).1 = ["r1"; "r1"]
      | _ => False
      end
  | _ => False
  end.
Proof. vm_compute. split; reflexivity. Qed.

(** The same loss of the answer when one read of the store fails. *)
Lemma drain_reruns_after_read_failure :
  let e := sample_run "r1" "m1" 1000 in
  executed <$> drain_commands ok_execute None 1 true true false true (fun _ => (2000, 2000))
    (mk_host [e] [] {["r1"]} ∅ ["r1"]) = None /\
  match drain_iter ok_execute None false true 2000 2000 (mk_host [e] [] {["r1"]} ∅ ["r1"]) ∅ with
  | inr (h, _) => executed h = ["r1"; "r1"]
  | inl _ => False
  end.
Proof. split; vm_compute; reflexivity. Qed.
