(* ===== verification/Parts.v ===== *)
(** Message parts: crates/doc/src/parts.rs. The fold of agent events into the
    parts of an assistant message, the render-only privacy policy, the tool
    output summary and the splitting of oversized messages into continuation
    entries. The line diff of the [similar] crate and the lengths of serde_json
    texts are parameters. *)
From stdpp Require Import pretty.
From S2P Require Import Prelude Json Text Agent.

Definition MSG_INLINE_MAX : nat := Z.to_nat (256 * 1024).
Definition TOOL_OUTPUT_SUMMARY_MAX : nat := 160.

(** ** Data *)

Record ToolDiffStat := mk_diff_stat { ds_path : string; ds_additions : N; ds_deletions : N }.

Inductive MessageStatus := Streaming | Complete | Aborted.

Inductive SubagentStatus := SubRunning | SubDone | SubFailed.

(** The fields of [MessagePart::Tool]. *)
Record ToolPart := mk_tool_part {
  tp_id : string;
  tp_call : ToolCall;
  tp_is_error : bool;
  tp_resolved : bool;
  tp_output : option string;
  tp_diff : option ToolDiff;
  tp_output_ref : option string;
  tp_output_bytes : option N;
  tp_diff_ref : option string;
  tp_diff_stats : option (list ToolDiffStat);
  tp_subagent_ref : option string;
  tp_subagent_status : option SubagentStatus;
  tp_subagent_tail : option string;
}.

Inductive MessagePart :=
  | TextPart (id text : string)
  | Tool (t : ToolPart)
  | Input (id request_id : string) (questions : list UserInputQuestion) (resolved : bool)
  | ErrorPart (id message : string).

Definition part_id (p : MessagePart) : string :=
  match p with
  | TextPart id _ => id
  | Tool t => tp_id t
  | Input id _ _ _ => id
  | ErrorPart id _ => id
  end.

(** ** The fold *)

Section Fold.
(** [similar::TextDiff::from_lines]: inserted and deleted lines. *)
Context (text_diff : string -> string -> N * N).

Definition diff_stat (d : ToolDiff) : ToolDiffStat :=
  let '(additions, deletions) :=
    match td_old_text d with
    | None => (N.of_nat (length (lines (td_new_text d))), 0%N)
    | Some old => text_diff old (td_new_text d)
    end in
  mk_diff_stat (td_path d) additions deletions.

Definition new_tool (id : string) (call : ToolCall) : ToolPart :=
  mk_tool_part id call false false None None None None None None None None None.

Definition set_call (call : ToolCall) (t : ToolPart) : ToolPart :=
  mk_tool_part (tp_id t) call (tp_is_error t) (tp_resolved t) (tp_output t) (tp_diff t)
    (tp_output_ref t) (tp_output_bytes t) (tp_diff_ref t) (tp_diff_stats t) (tp_subagent_ref t)
    (tp_subagent_status t) (tp_subagent_tail t).

(** The first tool part with the id gets the call; [None] if there is none. *)
Fixpoint refresh_call (id : string) (call : ToolCall) (out : list MessagePart)
    : option (list MessagePart) :=
  match out with
  | [] => None
  | Tool t :: rest =>
      if String.eqb (tp_id t) id then Some (Tool (set_call call t) :: rest)
      else cons (Tool t) <$> refresh_call id call rest
  | p :: rest => cons p <$> refresh_call id call rest
  end.

(** A tool's result: outputs and inline diffs never enter the document. *)
Definition set_result (is_error : bool) (diff : option ToolDiff) (t : ToolPart) : ToolPart :=
  mk_tool_part (tp_id t) (tp_call t) is_error true None None (tp_output_ref t) None
    (tp_diff_ref t) ((fun d => [diff_stat d]) <$> diff) (tp_subagent_ref t)
    (tp_subagent_status t) (tp_subagent_tail t).

Definition resolve_tool (id : string) (is_error : bool) (diff : option ToolDiff) (p : MessagePart)
    : MessagePart :=
  match p with
  | Tool t => if String.eqb (tp_id t) id then Tool (set_result is_error diff t) else p
  | _ => p
  end.

Definition resolve_input (request_id : string) (p : MessagePart) : MessagePart :=
  match p with
  | Input id rid questions _ => if String.eqb rid request_id then Input id rid questions true else p
  | _ => p
  end.

Definition subagent_status_of (e : AgentEvent) : option SubagentStatus :=
  match e with
  | Done Errored _ _ _ => Some SubFailed
  | Done _ _ _ _ => Some SubDone
  | UserMessage _ => Some SubRunning
  | _ => None
  end.

Definition set_subagent (st : option SubagentStatus) (t : ToolPart) : ToolPart :=
  let next := match st, tp_subagent_status t with
              | Some s, _ => Some s
              | None, Some SubDone => Some SubDone
              | None, Some SubFailed => Some SubFailed
              | None, _ => Some SubRunning
              end in
  mk_tool_part (tp_id t) (tp_call t) (tp_is_error t) (tp_resolved t) (tp_output t) (tp_diff t)
    (tp_output_ref t) (tp_output_bytes t) (tp_diff_ref t) (tp_diff_stats t) (tp_subagent_ref t)
    next (tp_subagent_tail t).

Definition mark_subagent (parent : string) (st : option SubagentStatus) (p : MessagePart)
    : MessagePart :=
  match p with
  | Tool t => if String.eqb (tp_id t) parent then Tool (set_subagent st t) else p
  | _ => p
  end.

Definition append_text (text : string) (out : list MessagePart) : list MessagePart :=
  match last out with
  | Some (TextPart id tail) => removelast out ++ [TextPart id (tail ++ text)]
  | _ => out ++ [TextPart ("t" ++ pretty (length out)) text]
  end.

Definition push_error (message : string) (out : list MessagePart) : list MessagePart :=
  out ++ [ErrorPart ("e" ++ pretty (length out)) message].

Definition fold_event_into_parts (out : list MessagePart) (event : AgentEvent) : list MessagePart :=
  match event with
  | SessionStarted _ _ _ _ _ _ | Steered _ _ => []
  | TextDelta text => append_text text out
  | ReasoningDelta _ => out
  | ToolCallEv id call =>
      match refresh_call id call out with
      | Some out => out
      | None => out ++ [Tool (new_tool id call)]
      end
  | ToolResult id is_error _ diff => resolve_tool id is_error diff <$> out
  | InputRequested request_id questions =>
      let id := ("in-" ++ request_id)%string in
      if existsb (fun p => String.eqb (part_id p) id) out then out
      else out ++ [Input id request_id questions false]
  | InputResolved request_id => resolve_input request_id <$> out
  | ErrorEv message => push_error message out
  | Done _ _ error _ => match error with Some m => push_error m out | None => out end
  | Subagent parent event => mark_subagent parent (subagent_status_of event) <$> out
  | AssistantMessageCompleted _ | Usage _ _ _ | AvailableCommands _ | UserMessage _ => out
  end.

Definition fold_events (out : list MessagePart) (evs : list AgentEvent) : list MessagePart :=
  foldl fold_event_into_parts out evs.
End Fold.

(** [apply_sidecar_refs] on one part. *)
Definition sidecar_ref (chat_id : string) (p : MessagePart) : MessagePart :=
  match p with
  | Tool t =>
      if tp_resolved t then
        let output_ref := match tp_output_ref t, tp_output_bytes t with
                          | None, Some _ => Some (chat_id ++ "/" ++ tp_id t)%string
                          | r, _ => r
                          end in
        let diff_ref := match tp_diff_ref t, tp_diff_stats t with
                        | None, Some _ => Some (chat_id ++ "/" ++ tp_id t ++ ".diff")%string
                        | r, _ => r
                        end in
        Tool (mk_tool_part (tp_id t) (tp_call t) (tp_is_error t) true (tp_output t) (tp_diff t)
                output_ref (tp_output_bytes t) diff_ref (tp_diff_stats t) (tp_subagent_ref t)
                (tp_subagent_status t) (tp_subagent_tail t))
      else p
  | _ => p
  end.

Definition apply_sidecar_refs (chat_id : string) (parts : list MessagePart) : list MessagePart :=
  sidecar_ref chat_id <$> parts.

Record SidecarPayload := mk_sidecar {
  sp_part_id : string; sp_output : option string; sp_diff : option ToolDiff }.

Definition sidecar_payload (event : AgentEvent) : option SidecarPayload :=
  match event with
  | ToolResult id _ output diff =>
      let output := o ← output; if String.eqb (trim o) "" then None else Some o in
      match output, diff with
      | None, None => None
      | _, _ => Some (mk_sidecar id output diff)
      end
  | _ => None
  end.

Definition sanitize_tool_call (call : ToolCall) : ToolCall :=
  match call with
  | WriteFile path _ => WriteFile path None
  | EditFile path _ _ => EditFile path None None
  | WebFetch url _ => WebFetch url None
  | Mcp server tool _ => Mcp server tool None
  | Unknown name _ => Unknown name None
  | other => other
  end.

Definition continuation_id (root : string) (index : nat) : string := (root ++ "#c" ++ pretty index)%string.

(** ** What the fold keeps true *)

(** A part up to its contents. *)
Inductive Shape := SText (id : string) | STool (id : string) | SInput (id rid : string) | SError (id : string).

Definition shape (p : MessagePart) : Shape :=
  match p with
  | TextPart id _ => SText id
  | Tool t => STool (tp_id t)
  | Input id rid _ _ => SInput id rid
  | ErrorPart id _ => SError id
  end.

Definition text_id (i : nat) : string := ("t" ++ pretty i)%string.
Definition error_id (i : nat) : string := ("e" ++ pretty i)%string.
Definition input_id (rid : string) : string := ("in-" ++ rid)%string.

(** Generated ids carry the position of their part, input ids their request;
    tool ids and requests occur once; deltas never leave two texts in a row. *)
Record shapes_ok (l : list Shape) : Prop := {
  so_text : forall i id, l !! i = Some (SText id) -> id = text_id i;
  so_error : forall i id, l !! i = Some (SError id) -> id = error_id i;
  so_input : forall i id rid, l !! i = Some (SInput id rid) -> id = input_id rid;
  so_tool_once : forall i j id, l !! i = Some (STool id) -> l !! j = Some (STool id) -> i = j;
  so_input_once : forall i j id rid rid',
    l !! i = Some (SInput id rid) -> l !! j = Some (SInput id rid') -> i = j;
  so_merged : forall i id id', l !! i = Some (SText id) -> l !! S i = Some (SText id') -> False;
}.

Definition may_push (l : list Shape) (x : Shape) : Prop :=
  match x with
  | SText id => id = text_id (length l) /\ (forall id', last l <> Some (SText id'))
  | SError id => id = error_id (length l)
  | SInput id rid => id = input_id rid /\ forall rid', ~ SInput id rid' ∈ l
  | STool id => ~ STool id ∈ l
  end.

Lemma shapes_nil : shapes_ok [].
Proof. by split. Qed.

Lemma lookup_push {A} (l : list A) x i y :
  (l ++ [x]) !! i = Some y <-> l !! i = Some y \/ (i = length l /\ x = y).
Proof.
  rewrite lookup_app_Some, list_lookup_singleton_Some. split; [intuition lia|].
  intros [H|[-> ->]]; [by left|right; split_and!; [lia..|done]].
Qed.

Lemma shapes_push l x : shapes_ok l -> may_push l x -> shapes_ok (l ++ [x]).
Proof.
  intros [Ht He Hi Hto Hio Hm] Hx. split.
  - intros i id [H|[-> E]]%lookup_push; [eauto|]. subst x. by destruct Hx.
  - intros i id [H|[-> E]]%lookup_push; [eauto|]. by subst x.
  - intros i id rid [H|[-> E]]%lookup_push; [eauto|]. subst x. by destruct Hx.
  - intros i j id [H|[-> E]]%lookup_push [H'|[-> E']]%lookup_push; [eauto|subst x..|done].
    + by apply list_elem_of_lookup_2 in H.
    + by apply list_elem_of_lookup_2 in H'.
  - intros i j id rid rid' [H|[-> E]]%lookup_push [H'|[-> E']]%lookup_push; [eauto|subst x..|done].
    + apply list_elem_of_lookup_2 in H. by destruct Hx as [_ Hx]; apply Hx in H.
    + apply list_elem_of_lookup_2 in H'. by destruct Hx as [_ Hx]; apply Hx in H'.
  - intros i id id' [H|[-> E]]%lookup_push [H'|[E1 E']]%lookup_push; [eauto| | |lia].
    + subst x. destruct Hx as [_ Hx]. apply (Hx id). by rewrite last_lookup, <- E1.
    + apply lookup_lt_Some in H'. lia.
Qed.

(** No tool output and no diff text is in the document. *)
Definition no_output (p : MessagePart) : Prop :=
  match p with
  | Tool t => tp_output t = None /\ tp_diff t = None /\ tp_output_bytes t = None
  | _ => True
  end.

Section FoldOk.
Context (text_diff : string -> string -> N * N).
Abbreviation fold := (fold_event_into_parts text_diff).

Lemma shape_fmap (f : MessagePart -> MessagePart) (out : list MessagePart) :
  (forall p, shape (f p) = shape p) -> shape <$> (f <$> out) = shape <$> out.
Proof.
  intros Hf. rewrite <- list_fmap_compose. apply list_fmap_ext. intros i p _. apply Hf.
Qed.

Lemma refresh_call_shape id call out out' :
  refresh_call id call out = Some out' -> shape <$> out' = shape <$> out.
Proof.
  revert out'. induction out as [|p out IH]; intros out'; cbn; [done|].
  destruct p as [|t| |]; [|destruct (String.eqb _ _); [by intros [= <-]|]|..];
    (destruct (refresh_call id call out); [|done]; intros [= <-]; cbn; by rewrite IH).
Qed.

Lemma refresh_call_None id call out :
  refresh_call id call out = None <-> ~ STool id ∈ (shape <$> out).
Proof.
  induction out as [|p out IH]; cbn; [by split; [intros _ ?%elem_of_nil|]|].
  rewrite not_elem_of_cons.
  destruct p as [|t| |]; cbn; [|destruct (String.eqb_spec (tp_id t) id) as [<-|Hn]|..].
  2: by naive_solver.
  all: rewrite <- IH; destruct (refresh_call id call out); naive_solver.
Qed.

Lemma append_text_shape text out :
  shape <$> append_text text out = shape <$> out \/
  ((forall id, last (shape <$> out) <> Some (SText id)) /\
   shape <$> append_text text out = (shape <$> out) ++ [SText (text_id (length out))]).
Proof.
  unfold append_text. rewrite fmap_last. destruct (last out) as [p|] eqn:El.
  - destruct p as [id tail| | |]; [left|right; split; [done|by rewrite fmap_app]..].
    apply last_Some in El as [out' ->]. rewrite removelast_last, !fmap_app. done.
  - right. split; [done|by rewrite fmap_app].
Qed.

(** One event empties the parts, keeps their shapes or adds one at the end. *)
Lemma fold_shape out e :
  shape <$> fold out e = [] \/ shape <$> fold out e = shape <$> out \/
  exists x, shape <$> fold out e = (shape <$> out) ++ [x] /\ may_push (shape <$> out) x /\
    (forall id, x = STool id -> exists call, e = ToolCallEv id call).
Proof.
  assert (forall m, exists x, shape <$> push_error m out = (shape <$> out) ++ [x] /\
            may_push (shape <$> out) x /\ (forall id, x = STool id -> exists call, e = ToolCallEv id call))
    as Herr.
  { intros m. exists (SError (error_id (length out))). unfold push_error.
    rewrite fmap_app. split_and!; [done| |done]. cbn. by rewrite length_fmap. }
  destruct e; cbn [fold_event_into_parts]; try (by left); try (by right; left).
  - destruct (append_text_shape text out) as [->|[Hl ->]]; [by right; left|]. right. right.
    eexists. split_and!; [done| |done]. cbn. by rewrite length_fmap.
  - right. destruct (refresh_call id call out) eqn:E; [left; by eapply refresh_call_shape|right].
    exists (STool id). rewrite fmap_app. split_and!; [done| |naive_solver].
    by eapply refresh_call_None.
  - right. left. apply shape_fmap. intros [|t| |]; [done| |done..]. cbn. by destruct (String.eqb _ _).
  - right. by right.
  - right. destruct (existsb _ out) eqn:E; [by left|right].
    exists (SInput (input_id request_id) request_id). rewrite fmap_app. split_and!; [done| |done].
    split; [done|]. intros rid' Hin. apply not_true_iff_false in E. apply E, existsb_exists.
    apply list_elem_of_fmap in Hin as (p & Hp & Hin). exists p. split; [by apply list_elem_of_In|].
    destruct p; try done. injection Hp as <- _. apply String.eqb_refl.
  - right. left. apply shape_fmap. intros [| | |]; [done..| |done]. cbn. by destruct (String.eqb _ _).
  - right. destruct error; [by right|by left].
  - right. left. apply shape_fmap. intros [|t| |]; [done| |done..]. cbn. by destruct (String.eqb _ _).
Qed.

(** Inside a segment the fold only extends. *)
Definition is_boundary (e : AgentEvent) : bool :=
  match e with SessionStarted _ _ _ _ _ _ | Steered _ _ => true | _ => false end.

Lemma fold_extends out e :
  is_boundary e = false -> (shape <$> out) `prefix_of` (shape <$> fold out e).
Proof.
  intros Hb.
  assert (forall f : MessagePart -> MessagePart, (forall p, shape (f p) = shape p) ->
            (shape <$> out) `prefix_of` (shape <$> (f <$> out))) as Hf.
  { intros f H. by rewrite shape_fmap. }
  assert (forall p, (shape <$> out) `prefix_of` (shape <$> (out ++ [p]))) as Hp.
  { intros p. rewrite fmap_app. by apply prefix_app_r. }
  destruct e; try done; cbn [fold_event_into_parts]; try (by apply Hp).
  - destruct (append_text_shape text out) as [->|[_ ->]]; [done|by apply prefix_app_r].
  - destruct (refresh_call id call out) eqn:E; [|apply Hp]. by rewrite (refresh_call_shape _ _ _ _ E).
  - apply Hf. intros [|t| |]; try done. cbn. by destruct (String.eqb _ _).
  - destruct (existsb _ out); [done|apply Hp].
  - apply Hf. intros [| | |]; try done. cbn. by destruct (String.eqb _ _).
  - destruct error; [apply Hp|done].
  - apply Hf. intros [|t| |]; try done. cbn. by destruct (String.eqb _ _).
Qed.

Lemma fold_shapes_ok out e : shapes_ok (shape <$> out) -> shapes_ok (shape <$> fold out e).
Proof.
  intros H. destruct (fold_shape out e) as [-> |[-> |(x & -> & Hx & _)]];
    [apply shapes_nil|done|by apply shapes_push].
Qed.

Lemma refresh_call_no_output id call out out' :
  refresh_call id call out = Some out' -> Forall no_output out -> Forall no_output out'.
Proof.
  revert out'. induction out as [|p out IH]; intros out'; cbn; [done|].
  intros H [Hp Ho]%Forall_cons. destruct p as [|t| |]; [|destruct (String.eqb _ _)|..].
  2: injection H as <-; by constructor.
  all: destruct (refresh_call id call out) as [l|]; [|done]; injection H as <-;
    constructor; [done|by apply IH].
Qed.

Lemma fold_no_output out e : Forall no_output out -> Forall no_output (fold out e).
Proof.
  intros H.
  assert (forall p, no_output p -> Forall no_output (out ++ [p])) as Hpush
    by (intros; apply Forall_app; by repeat constructor).
  assert (forall f, (forall p, no_output p -> no_output (f p)) -> Forall no_output (f <$> out)) as Hmap.
  { intros f Hf. apply Forall_fmap. eapply Forall_impl; [exact H|]. intros p. apply Hf. }
  destruct e; cbn [fold_event_into_parts]; try done; try (by apply Hpush).
  - unfold append_text. destruct (last out) as [[| | |]|] eqn:El; try (by apply Hpush).
    apply last_Some in El as [l' ->]. rewrite removelast_last. apply Forall_app in H as [H _].
    apply Forall_app. by repeat constructor.
  - destruct (refresh_call id call out) eqn:E; [by eapply refresh_call_no_output|by apply Hpush].
  - apply Hmap. intros [|t| |]; try done. cbn. by destruct (String.eqb _ _).
  - destruct (existsb _ out); [done|by apply Hpush].
  - apply Hmap. intros [|t| |]; try done. cbn. by destruct (String.eqb _ _).
  - destruct error; [by apply Hpush|done].
  - apply Hmap. intros [|t| |]; try done. cbn. by destruct (String.eqb _ _).
Qed.

(** A tool id no generated id can equal. *)
Definition foreign (id : string) : Prop :=
  (forall i, id <> text_id i) /\ (forall i, id <> error_id i) /\ (forall rid, id <> input_id rid).

Definition shape_id (s : Shape) : string :=
  match s with SText id => id | STool id => id | SInput id _ => id | SError id => id end.

Lemma text_id_inj i j : text_id i = text_id j -> i = j.
Proof. intros E. apply (inj (pretty (A:=nat))). by injection E. Qed.
Lemma error_id_inj i j : error_id i = error_id j -> i = j.
Proof. intros E. apply (inj (pretty (A:=nat))). by injection E. Qed.

Lemma shapes_ids_unique l :
  shapes_ok l -> (forall id, STool id ∈ l -> foreign id) -> NoDup (shape_id <$> l).
Proof.
  intros [Ht He Hi Hto Hio _] Hf. apply NoDup_alt. intros i j x Hx Hy.
  apply list_lookup_fmap_Some in Hx as (sx & -> & Hx).
  apply list_lookup_fmap_Some in Hy as (sy & E & Hy).
  assert (forall id, STool id = sx \/ STool id = sy -> foreign id) as Hfx.
  { intros id [<-|<-]; apply Hf; by eapply list_elem_of_lookup_2. }
  assert (match sx with STool _ => True | SText id => id = text_id i | SError id => id = error_id i
          | SInput id rid => id = input_id rid end) as Ex by (destruct sx; eauto).
  assert (match sy with STool _ => True | SText id => id = text_id j | SError id => id = error_id j
          | SInput id rid => id = input_id rid end) as Ey by (destruct sy; eauto).
  destruct sx as [id|id|id rid|id], sy as [id'|id'|id' rid'|id']; cbn in *; subst;
    try (exfalso; destruct (Hfx _ (or_introl eq_refl)) as (H1 & H2 & H3); first [by eapply H1|by eapply H2|by eapply H3]);
    try (exfalso; destruct (Hfx _ (or_intror eq_refl)) as (H1 & H2 & H3); first [by eapply H1|by eapply H2|by eapply H3]);
    try done.
  - by apply text_id_inj.
  - by eapply Hto.
  - by eapply Hio.
  - by apply error_id_inj.
Qed.

Lemma fold_events_inv (P : string -> Prop) evs out :
  shapes_ok (shape <$> out) -> Forall no_output out ->
  (forall id, STool id ∈ (shape <$> out) -> P id) ->
  (forall id call, ToolCallEv id call ∈ evs -> P id) ->
  let out' := fold_events text_diff out evs in
  shapes_ok (shape <$> out') /\ Forall no_output out' /\
  (forall id, STool id ∈ (shape <$> out') -> P id).
Proof.
  revert out. induction evs as [|e evs IH]; intros out Hs Hn HP Hev; cbn; [done|].
  apply IH; [by apply fold_shapes_ok|by apply fold_no_output| |set_solver].
  intros id. destruct (fold_shape out e) as [-> |[-> |(x & -> & _ & Hx)]];
    [by intros ?%elem_of_nil|by apply HP|].
  intros [Hin|<-%list_elem_of_singleton]%elem_of_app; [by apply HP|].
  destruct (Hx id eq_refl) as [call ->]. eapply Hev. left.
Qed.

(** The fold keeps its parts well formed, whatever events a harness
    emits: a text or error id names the part's position, an input id its
    request; no two tool parts and no two input parts share an id; no two
    texts are adjacent; no tool output and no diff text is held; and if no tool
    id has the shape of a generated id, all part ids are distinct. *)
Theorem fold_parts_wf evs :
  let out := fold_events text_diff [] evs in
  (forall i p, out !! i = Some p ->
     match p with
     | TextPart id _ => id = text_id i
     | ErrorPart id _ => id = error_id i
     | Input id rid _ _ => id = input_id rid
     | Tool t => tp_output t = None /\ tp_diff t = None /\ tp_output_bytes t = None
     end) /\
  (forall i j t t', out !! i = Some (Tool t) -> out !! j = Some (Tool t') -> tp_id t = tp_id t' -> i = j) /\
  (forall i p p', out !! i = Some p -> out !! S i = Some p' ->
     match p, p' with TextPart _ _, TextPart _ _ => False | _, _ => True end) /\
  ((forall id call, ToolCallEv id call ∈ evs -> foreign id) -> NoDup (part_id <$> out)).
Proof.
  intros out.
  destruct (fold_events_inv (fun _ => True) evs []) as (Hs & Hn & _);
    [apply shapes_nil|constructor|done|done|]. fold out in Hs, Hn.
  assert (forall i p, out !! i = Some p -> (shape <$> out) !! i = Some (shape p)) as Hsh
    by (intros i p Hi; by rewrite list_lookup_fmap, Hi).
  split_and!.
  - intros i p Hi. pose proof (Hsh _ _ Hi) as Hi'. rewrite Forall_lookup in Hn. specialize (Hn _ _ Hi).
    destruct p; [by eapply so_text|done|by eapply so_input|by eapply so_error].
  - intros i j t t' Hi%Hsh Hj%Hsh E. cbn [shape] in Hi, Hj. rewrite E in Hi.
    exact (so_tool_once _ Hs _ _ _ Hi Hj).
  - intros i p p' Hi%Hsh Hj%Hsh. destruct p, p'; try done.
    exact (so_merged _ Hs _ _ _ Hi Hj).
  - intros Hf. destruct (fold_events_inv foreign evs []) as (_ & _ & HP);
      [apply shapes_nil|constructor|by intros ? ?%elem_of_nil|done|].
    pose proof (shapes_ids_unique _ Hs HP) as Hnd. rewrite <- list_fmap_compose in Hnd.
    erewrite list_fmap_ext; [exact Hnd|]. intros i p _. by destruct p.
Qed.

(** ** The text of a turn *)

Fixpoint shown_text (out : list MessagePart) : string :=
  match out with
  | [] => ""
  | TextPart _ x :: out => x ++ shown_text out
  | _ :: out => shown_text out
  end.

(** The deltas since the last turn boundary. *)
Definition stream_step (acc : string) (e : AgentEvent) : string :=
  match e with
  | SessionStarted _ _ _ _ _ _ | Steered _ _ => ""
  | TextDelta x => acc ++ x
  | _ => acc
  end.

Lemma shown_text_app a b : shown_text (a ++ b) = (shown_text a ++ shown_text b)%string.
Proof.
  induction a as [|p a IH]; [done|]. destruct p; cbn; rewrite IH; [|done..]. symmetry. apply string_app_assoc.
Qed.

Lemma shown_text_fmap f out :
  (forall p, match p with TextPart _ _ => f p = p
             | _ => match f p with TextPart _ _ => False | _ => True end end) ->
  shown_text (f <$> out) = shown_text out.
Proof.
  intros Hf. induction out as [|p out IH]; [done|]. cbn. specialize (Hf p).
  destruct p; [rewrite Hf; cbn; by rewrite IH|..]; by destruct (f _).
Qed.

Lemma shown_text_push out p :
  match p with TextPart _ _ => False | _ => True end -> shown_text (out ++ [p]) = shown_text out.
Proof. intros Hp. rewrite shown_text_app. destruct p; [done|apply string_app_nil_r..]. Qed.

Lemma refresh_call_text id call out out' :
  refresh_call id call out = Some out' -> shown_text out' = shown_text out.
Proof.
  revert out'. induction out as [|p out IH]; intros out'; cbn; [done|].
  destruct p as [|t| |]; [|destruct (String.eqb _ _); [by intros [= <-]|]|..];
    (destruct (refresh_call id call out); [|done]; intros [= <-]; cbn; by rewrite (IH _ eq_refl)).
Qed.

Lemma append_text_shown text out : shown_text (append_text text out) = (shown_text out ++ text)%string.
Proof.
  unfold append_text. destruct (last out) as [p|] eqn:El.
  - destruct p; try (rewrite shown_text_app; cbn; by rewrite string_app_nil_r).
    apply last_Some in El as [l' ->]. rewrite removelast_last, !shown_text_app. cbn.
    by rewrite !string_app_nil_r, string_app_assoc.
  - rewrite shown_text_app. cbn. by rewrite string_app_nil_r.
Qed.

Lemma fold_shown out e : shown_text (fold out e) = stream_step (shown_text out) e.
Proof.
  destruct e; cbn [fold_event_into_parts stream_step]; try done.
  - apply append_text_shown.
  - destruct (refresh_call id call out) eqn:E; [by eapply refresh_call_text|by apply shown_text_push].
  - apply shown_text_fmap. intros [|t| |]; try done. cbn. by destruct (String.eqb _ _).
  - by apply shown_text_push.
  - destruct (existsb _ out); [done|by apply shown_text_push].
  - apply shown_text_fmap. intros [| | |]; try done. cbn. by destruct (String.eqb _ _).
  - destruct error; [by apply shown_text_push|done].
  - apply shown_text_fmap. intros [|t| |]; try done. cbn. by destruct (String.eqb _ _).
Qed.

(** ** The chip of a tool *)

Fixpoint find_tool (id : string) (out : list MessagePart) : option ToolPart :=
  match out with
  | [] => None
  | Tool t :: out => if String.eqb (tp_id t) id then Some t else find_tool id out
  | _ :: out => find_tool id out
  end.

(** What one event means for the chip of one tool. *)
Definition tool_step (id : string) (st : option ToolPart) (e : AgentEvent) : option ToolPart :=
  match e with
  | SessionStarted _ _ _ _ _ _ | Steered _ _ => None
  | ToolCallEv id' call =>
      if String.eqb id' id
      then Some (match st with Some t => set_call call t | None => new_tool id call end) else st
  | ToolResult id' is_error _ diff =>
      if String.eqb id' id then set_result text_diff is_error diff <$> st else st
  | Subagent parent event =>
      if String.eqb parent id then set_subagent (subagent_status_of event) <$> st else st
  | _ => st
  end.

Lemma find_tool_push id out p :
  find_tool id (out ++ [p]) =
    match find_tool id out with Some t => Some t | None => find_tool id [p] end.
Proof.
  induction out as [|q out IH]; [done|]. destruct q as [|t| |]; cbn; [|destruct (String.eqb _ _)|..];
    done || exact IH.
Qed.

Lemma find_tool_push_other id out p :
  match p with Tool _ => False | _ => True end -> find_tool id (out ++ [p]) = find_tool id out.
Proof. intros Hp. rewrite find_tool_push. destruct (find_tool id out); [done|]. by destruct p. Qed.

(** An operation on the tool parts of one id. *)
Lemma find_tool_fmap f g id id' out :
  (forall p, f p = match p with Tool t => if String.eqb (tp_id t) id' then Tool (g t) else p | _ => f p end) ->
  (forall p, match p with Tool _ => True | _ => match f p with Tool _ => False | _ => True end end) ->
  (forall t, tp_id (g t) = tp_id t) ->
  find_tool id (f <$> out) = if String.eqb id' id then g <$> find_tool id out else find_tool id out.
Proof.
  intros Hf Hn Hg. induction out as [|p out IH]; [by destruct (String.eqb _ _)|].
  rewrite fmap_cons. pose proof (Hf p) as Hp. pose proof (Hn p) as Hnp. destruct p as [|t| |].
  2: { rewrite Hp. cbn [find_tool]. destruct (String.eqb_spec (tp_id t) id') as [<-|Hne].
       - cbn [find_tool]. rewrite Hg. rewrite IH. by destruct (String.eqb (tp_id t) id).
       - cbn [find_tool]. rewrite IH. destruct (String.eqb_spec (tp_id t) id) as [<-|]; [|done].
         by destruct (String.eqb_spec id' (tp_id t)). }
  all: cbn [find_tool]; by destruct (f _).
Qed.

Lemma find_tool_refresh id' call id out :
  match refresh_call id' call out with
  | Some out' => find_tool id out' = tool_step id (find_tool id out) (ToolCallEv id' call)
  | None => find_tool id' out = None
  end.
Proof.
  induction out as [|p out IH]; [done|]. destruct p as [|t| |]; cbn [refresh_call find_tool].
  2: { destruct (String.eqb_spec (tp_id t) id') as [<-|Hne].
       - cbn. by destruct (String.eqb (tp_id t) id).
       - destruct (refresh_call id' call out); cbn; [|exact IH].
         destruct (String.eqb_spec (tp_id t) id) as [<-|]; [|exact IH].
         by destruct (String.eqb_spec id' (tp_id t)). }
  all: by destruct (refresh_call id' call out).
Qed.

Lemma fold_tool id out e : find_tool id (fold out e) = tool_step id (find_tool id out) e.
Proof.
  destruct e; cbn [fold_event_into_parts tool_step]; try done.
  - unfold append_text. destruct (last out) as [[| | |]|] eqn:El; try (by rewrite find_tool_push_other).
    apply last_Some in El as [l' ->]. by rewrite removelast_last, !find_tool_push_other.
  - pose proof (find_tool_refresh id0 call id out) as H. destruct (refresh_call id0 call out); [exact H|].
    rewrite find_tool_push. cbn. destruct (String.eqb_spec id0 id) as [<-|]; [by rewrite H|].
    by destruct (find_tool id out).
  - apply find_tool_fmap with (g := set_result text_diff is_error diff); try done.
    + by intros [].
    + by intros [].
  - unfold push_error. by rewrite find_tool_push_other.
  - destruct (existsb _ out); [done|by rewrite find_tool_push_other].
  - rewrite (find_tool_fmap _ (fun t => t) id "" out); try done.
    + by destruct (String.eqb _ _), (find_tool id out).
    + intros [|t| |]; try done. cbn. by destruct (String.eqb _ _).
    + intros [| | |]; try done. cbn. by destruct (String.eqb _ _).
  - destruct error; [by unfold push_error; rewrite find_tool_push_other|done].
  - apply find_tool_fmap with (g := set_subagent (subagent_status_of e)); try done.
    + by intros [].
    + by intros [].
Qed.

(** C18. What a transcript shows is what was streamed: the texts of the parts
    concatenate to the text deltas since the last turn boundary, and the chip of
    each tool is the fold of the events that name that tool, whatever other
    events come between; what came before a boundary leaves no trace. *)
Theorem fold_meaning evs :
  shown_text (fold_events text_diff [] evs) = foldl stream_step "" evs /\
  (forall id, find_tool id (fold_events text_diff [] evs) = foldl (tool_step id) None evs) /\
  (forall out e, fold_events text_diff out (e :: evs) =
     match e with
     | SessionStarted _ _ _ _ _ _ | Steered _ _ => fold_events text_diff [] evs
     | _ => fold_events text_diff (fold out e) evs
     end).
Proof.
  split_and!.
  - enough (forall out, shown_text (fold_events text_diff out evs) = foldl stream_step (shown_text out) evs)
      as H by exact (H []).
    induction evs as [|e evs IH]; intros out; [done|]. cbn [foldl]. rewrite <- fold_shown. apply IH.
  - intros id. enough (forall out, find_tool id (fold_events text_diff out evs) =
                         foldl (tool_step id) (find_tool id out) evs) as H by exact (H []).
    induction evs as [|e evs IH]; intros out; [done|]. cbn [foldl]. rewrite <- fold_tool. apply IH.
  - by intros out [].
Qed.
End FoldOk.

(** ** The privacy policy *)

Definition carries_no_input (call : ToolCall) : Prop :=
  match call with
  | WriteFile _ content => content = None
  | EditFile _ old new => old = None /\ new = None
  | WebFetch _ prompt => prompt = None
  | Mcp _ _ input => input = None
  | Unknown _ input => input = None
  | _ => True
  end.

Lemma sanitize_strips call : carries_no_input (sanitize_tool_call call).
Proof. by destruct call. Qed.

Lemma sanitize_fixes call : carries_no_input call -> sanitize_tool_call call = call.
Proof. destruct call; cbn; try done; [by intros ->|by intros [-> ->]|by intros ->..]. Qed.

Lemma sanitize_idempotent call :
  sanitize_tool_call (sanitize_tool_call call) = sanitize_tool_call call.
Proof. apply sanitize_fixes, sanitize_strips. Qed.

Lemma sidecar_ref_idempotent chat p : sidecar_ref chat (sidecar_ref chat p) = sidecar_ref chat p.
Proof.
  destruct p as [|[]| |]; cbn; try done. destruct tp_resolved0; [|done]. cbn.
  by destruct tp_output_ref0, tp_output_bytes0, tp_diff_ref0, tp_diff_stats0.
Qed.

(** ** Splitting *)

(** [str::is_char_boundary]. *)
Definition is_char_boundary (text : string) (i : nat) : bool :=
  (i =? 0)%nat ||
  match bytes_of text !! i with
  | None => (i =? String.length text)%nat
  | Some a => negb (continuation_byte a)
  end.

Section Split.
Context (call_len : ToolCall -> nat) (diff_len : ToolDiff -> nat).
Context (stats_len : list ToolDiffStat -> nat) (questions_len : list UserInputQuestion -> nat).

Definition byte_len (p : MessagePart) : nat :=
  match p with
  | TextPart _ text => String.length text
  | Tool t =>
      call_len (tp_call t) + from_option String.length 0 (tp_output t) +
      from_option diff_len 0 (tp_diff t) + from_option stats_len 0 (tp_diff_stats t)
  | Input _ _ questions _ => questions_len questions
  | ErrorPart _ message => String.length message
  end%nat.

(** Chunks so far, the last chunk and its bytes. *)
Definition push_part (max : nat) (st : list (list MessagePart) * list MessagePart * nat)
    (part : MessagePart) : list (list MessagePart) * list MessagePart * nat :=
  let '(chunks, current, bytes) := st in
  let len := byte_len part in
  if (0 <? bytes)%nat && (max <? bytes + len)%nat then (chunks ++ [current], [part], len)
  else (chunks, current ++ [part], (bytes + len)%nat).

Fixpoint back_up (text : string) (stop : nat) : nat :=
  match stop with
  | O => O
  | S below =>
      if (stop <? String.length text)%nat && negb (is_char_boundary text stop)
      then back_up text below else stop
  end.

(** The pieces of an oversized text from [start] on. *)
Fixpoint pieces (max fuel : nat) (id text : string) (start piece : nat) : list MessagePart :=
  match fuel with
  | O => []
  | S fuel =>
      if (start <? String.length text)%nat then
        let stop := back_up text (Nat.min (start + max) (String.length text)) in
        let stop := if (stop <=? start)%nat then String.length text else stop in
        TextPart (if (piece =? 0)%nat then id else (id ++ "~" ++ pretty piece)%string)
          (slice start stop text) :: pieces max fuel id text stop (S piece)
      else []
  end.

(** What one part contributes. *)
Definition explode (max : nat) (p : MessagePart) : list MessagePart :=
  match p with
  | TextPart id text =>
      if (max <? String.length text)%nat then pieces max (String.length text) id text 0 0 else [p]
  | _ => [p]
  end.

Definition split_parts_at (max : nat) (parts : list MessagePart) : list (list MessagePart) :=
  let '(chunks, current, _) :=
    foldl (fun st part => foldl (push_part max) st (explode max part)) ([], [], 0%nat) parts in
  chunks ++ [current].

Definition split_parts : list MessagePart -> list (list MessagePart) := split_parts_at MSG_INLINE_MAX.

Definition join_continuations (entries : list (list MessagePart)) : list MessagePart := concat entries.

(** *** Pieces *)

(** What UTF-8 guarantees of a text: a boundary in any four positions. *)
Definition utf8_boundaries (text : string) : Prop :=
  forall i, (3 <= i <= String.length text)%nat ->
    exists k, (k <= 3)%nat /\ is_char_boundary text (i - k) = true.


Lemma back_up_le text stop : (back_up text stop <= stop)%nat.
Proof. induction stop as [|n IH]; cbn -[String.length is_char_boundary]; [lia|]. case_match; lia. Qed.

Lemma back_up_ge text stop i :
  (i <= stop)%nat -> is_char_boundary text i = true -> (i <= back_up text stop)%nat.
Proof.
  intros Hi Hb. induction stop as [|n IH]; cbn -[String.length is_char_boundary]; [lia|].
  destruct (decide (i = S n)) as [->|]; [rewrite Hb, andb_false_r; lia|]. case_match; lia.
Qed.

Lemma pieces_text max fuel id text start piece :
  (String.length text - start <= fuel)%nat ->
  shown_text (pieces max fuel id text start piece) =
    String.string_of_list_ascii (drop start (bytes_of text)).
Proof.
  revert start piece. induction fuel as [|fuel IH]; intros start piece Hf; cbn [pieces].
  - rewrite drop_ge; [done|]. rewrite length_bytes. lia.
  - destruct (Nat.ltb_spec start (String.length text)) as [Hlt|Hge];
      [|rewrite drop_ge; [done|]; rewrite length_bytes; lia].
    set (stop := back_up _ _). cbn [shown_text].
    pose proof (back_up_le text (Nat.min (start + max) (String.length text))). fold stop in H.
    destruct (Nat.leb_spec stop start); rewrite IH by lia; apply slice_app; lia.
Qed.

Lemma pieces_bound max fuel id text start piece :
  (4 <= max)%nat -> utf8_boundaries text ->
  Forall (fun p => (byte_len p <= max)%nat) (pieces max fuel id text start piece).
Proof.
  intros Hm Hu. revert start piece. induction fuel as [|fuel IH]; intros start piece; [constructor|].
  cbn [pieces]. destruct (Nat.ltb_spec start (String.length text)) as [Hlt|]; [|constructor].
  set (stop0 := Nat.min (start + max) (String.length text)).
  pose proof (back_up_le text stop0).
  assert (start < back_up text stop0)%nat as Hgt.
  { destruct (decide (start + max < String.length text)%nat).
    - destruct (Hu stop0) as (k & Hk & Hb); [lia|].
      pose proof (back_up_ge text stop0 (stop0 - k) ltac:(lia) Hb). lia.
    - assert (stop0 = String.length text) as E by lia.
      pose proof (back_up_ge text stop0 stop0 (le_n _)) as Hb.
      enough (is_char_boundary text stop0 = true) as E' by (specialize (Hb E'); lia).
      rewrite E. unfold is_char_boundary. rewrite (proj2 (lookup_ge_None _ _)) by (rewrite length_bytes; lia).
      by rewrite Nat.eqb_refl, orb_true_r. }
  rewrite (proj2 (Nat.leb_gt _ _)) by done. constructor; [|apply IH].
  cbn [byte_len]. rewrite slice_length by lia. lia.
Qed.

(** *** Chunks *)

Definition total (chunk : list MessagePart) : nat := sum_list_with byte_len chunk.

Definition not_text (p : MessagePart) : Prop := match p with TextPart _ _ => False | _ => True end.

(** A chunk fits, or it is one oversized part that cannot be split, behind
    parts of no length. *)
Definition chunk_ok (max : nat) (chunk : list MessagePart) : Prop :=
  (total chunk <= max)%nat \/
  exists zs p, chunk = zs ++ [p] /\ total zs = 0%nat /\ (max < byte_len p)%nat /\ not_text p.

Definition part_ok (max : nat) (p : MessagePart) : Prop := not_text p \/ (byte_len p <= max)%nat.

Definition split_inv (max : nat) (st : list (list MessagePart) * list MessagePart * nat) : Prop :=
  let '(chunks, current, bytes) := st in
  Forall (chunk_ok max) chunks /\ chunk_ok max current /\ bytes = total current.

Definition joined (st : list (list MessagePart) * list MessagePart * nat) : list MessagePart :=
  let '(chunks, current, _) := st in concat chunks ++ current.

Lemma total_app a b : total (a ++ b) = (total a + total b)%nat.
Proof. apply sum_list_with_app. Qed.

Lemma total_single p : total [p] = byte_len p.
Proof. unfold total. cbn [sum_list_with]. lia. Qed.

Lemma chunk_ok_single max zs p :
  part_ok max p -> total zs = 0%nat -> chunk_ok max (zs ++ [p]).
Proof.
  intros Hp Hz. unfold chunk_ok. rewrite total_app, Hz, total_single.
  destruct (decide (byte_len p <= max)%nat) as [|Hgt]; [left; lia|right].
  exists zs, p. destruct Hp; [|lia]. split_and!; [done|done|lia|done].
Qed.

Lemma push_part_inv max st p : part_ok max p -> split_inv max st -> split_inv max (push_part max st p).
Proof.
  destruct st as [[chunks current] bytes]. intros Hp (Hc & Hcur & ->). unfold push_part.
  destruct (Nat.ltb_spec 0 (total current)); cbn [andb].
  - destruct (Nat.ltb_spec max (total current + byte_len p)); cbn [andb]; split_and!; try done.
    + apply Forall_app. split; [done|by apply Forall_singleton].
    + by apply (chunk_ok_single max [] p).
    + left. rewrite total_app, total_single. lia.
    + rewrite total_app, total_single. lia.
  - split_and!; [done|apply chunk_ok_single; [done|lia]|rewrite total_app, total_single; lia].
Qed.

Lemma push_part_joined max st p : joined (push_part max st p) = joined st ++ [p].
Proof.
  destruct st as [[chunks current] bytes]. unfold push_part.
  destruct (_ && _); cbn; [rewrite concat_app; cbn; by rewrite app_nil_r|by rewrite app_assoc].
Qed.

Lemma push_parts_spec max l st :
  Forall (part_ok max) l -> split_inv max st ->
  split_inv max (foldl (push_part max) st l) /\ joined (foldl (push_part max) st l) = joined st ++ l.
Proof.
  revert st. induction l as [|p l IH]; intros st Hl Hst; cbn; [by rewrite app_nil_r|].
  apply Forall_cons in Hl as [Hp Hl].
  destruct (IH (push_part max st p) Hl) as [Hi ->]; [by apply push_part_inv|].
  split; [done|]. by rewrite push_part_joined, <- app_assoc.
Qed.

Lemma explode_ok max p :
  (4 <= max)%nat -> match p with TextPart _ text => utf8_boundaries text | _ => True end ->
  Forall (part_ok max) (explode max p).
Proof.
  intros Hm Hp. destruct p as [id text| | |]; cbn [explode]; try (by repeat constructor).
  destruct (Nat.ltb_spec max (String.length text)).
  - eapply Forall_impl; [by apply pieces_bound|]. by right.
  - apply Forall_singleton. by right.
Qed.

Lemma explode_text max p : shown_text (explode max p) = shown_text [p].
Proof.
  destruct p as [id text| | |]; try done. cbn [explode].
  destruct (_ <? _)%nat; [|done]. rewrite pieces_text by lia. cbn. rewrite string_app_nil_r.
  unfold bytes_of. by rewrite drop_0, String.string_of_list_ascii_of_string.
Qed.

Lemma explode_fits max p :
  (byte_len p <= max)%nat \/ not_text p -> explode max p = [p].
Proof.
  destruct p as [id text| | |]; try done. intros [H|[]]. cbn [explode byte_len] in *. by rewrite (proj2 (Nat.ltb_ge _ _)).
Qed.

Lemma split_spec max parts :
  (4 <= max)%nat ->
  Forall (fun p => match p with TextPart _ text => utf8_boundaries text | _ => True end) parts ->
  Forall (chunk_ok max) (split_parts_at max parts) /\
  join_continuations (split_parts_at max parts) = parts ≫= explode max.
Proof.
  intros Hm Hu. unfold split_parts_at.
  enough (forall st, split_inv max st ->
    let st' := foldl (fun st part => foldl (push_part max) st (explode max part)) st parts in
    split_inv max st' /\ joined st' = joined st ++ (parts ≫= explode max)) as H.
  { destruct (H ([], [], 0%nat)) as [Hi Hj]; [by repeat split; (constructor || left; cbn; lia)|].
    destruct (foldl _ _ _) as [[chunks current] bytes]. destruct Hi as (Hc & Hcur & _). split.
    - apply Forall_app. split; [done|by apply Forall_singleton].
    - unfold join_continuations. rewrite concat_app. cbn in *. by rewrite app_nil_r. }
  induction parts as [|p parts IH]; intros st Hst; cbn; [by rewrite app_nil_r|].
  apply Forall_cons in Hu as [Hp Hu].
  destruct (push_parts_spec max (explode max p) st) as [Hi Hj]; [by apply explode_ok|done|].
  destruct (IH Hu _ Hi) as [Hi' ->]. split; [done|]. by rewrite Hj, <- app_assoc.
Qed.

Lemma shown_text_explode max parts : shown_text (parts ≫= explode max) = shown_text parts.
Proof.
  induction parts as [|p parts IH]; [done|].
  change ((p :: parts) ≫= explode max) with (explode max p ++ (parts ≫= explode max)).
  change (p :: parts) with ([p] ++ parts). by rewrite !shown_text_app, IH, explode_text.
Qed.

(** C19. Splitting a message loses nothing and bounds its entries: for texts
    that are UTF-8, joining the chunks of [split_parts] gives the parts back in
    order, each text over the limit as its pieces, and exactly the same shown
    text; a message without such a text comes back as it was; and every chunk
    has at most [MSG_INLINE_MAX] bytes, unless it holds one part that is not
    text and is itself over the limit, alone but for parts of no length. *)
Theorem split_parts_sound parts :
  Forall (fun p => match p with TextPart _ text => utf8_boundaries text | _ => True end) parts ->
  join_continuations (split_parts parts) = parts ≫= explode MSG_INLINE_MAX /\
  shown_text (join_continuations (split_parts parts)) = shown_text parts /\
  (Forall (fun p => not_text p \/ (byte_len p <= MSG_INLINE_MAX)%nat) parts ->
     join_continuations (split_parts parts) = parts) /\
  Forall (chunk_ok MSG_INLINE_MAX) (split_parts parts).
Proof.
  intros Hu. destruct (split_spec MSG_INLINE_MAX parts) as [Hc Hj];
    [unfold MSG_INLINE_MAX; lia|done|]. change (split_parts_at MSG_INLINE_MAX) with split_parts in *.
  split_and!; [done|by rewrite Hj, shown_text_explode| |done].
  intros Hf. rewrite Hj. clear -Hf. induction Hf as [|p parts Hp _ IH]; [done|].
  change ((p :: parts) ≫= explode MSG_INLINE_MAX)
    with (explode MSG_INLINE_MAX p ++ (parts ≫= explode MSG_INLINE_MAX)).
  rewrite IH, explode_fits; [done|]. tauto.
Qed.
End Split.

(** ** Witnesses *)

Lemma sample_utf8 : utf8_boundaries "hello".
Proof.
  intros i Hi. exists 0%nat. split; [lia|]. cbn in Hi.
  destruct i as [|[|[|[|[|[|i]]]]]]; try reflexivity. lia.
Qed.

Definition sample_parts : list MessagePart :=
  [TextPart "t0" "hello"; Tool (new_tool "x1" (Exec "ls")); TextPart "t2" "hello"].

Lemma split_parts_sound_witness :
  shown_text (join_continuations (split_parts (fun _ => 3%nat) (fun _ => 0%nat) (fun _ => 0%nat)
    (fun _ => 0%nat) sample_parts)) = "hellohello".
Proof.
  refine (proj1 (proj2 (split_parts_sound (fun _ => 3%nat) (fun _ => 0%nat) (fun _ => 0%nat)
    (fun _ => 0%nat) sample_parts _))).
  repeat constructor; apply sample_utf8.
Defined.

Example split_ex :
  split_parts_at (fun _ => 3%nat) (fun _ => 0%nat) (fun _ => 0%nat) (fun _ => 0%nat) 4
    [TextPart "t0" "hello"; Tool (new_tool "x1" (Exec "ls"))] =
  [[TextPart "t0" "hell"]; [TextPart "t0~1" "o"; Tool (new_tool "x1" (Exec "ls"))]].
Proof. vm_compute. reflexivity. Qed.

(** A harness whose tool ids look like generated ids gives two parts one id. *)
Lemma tool_id_collides :
  part_id <$> fold_events (fun _ _ => (0%N, 0%N)) [] [ToolCallEv "t1" (Exec "ls"); TextDelta "done"]
    = ["t1"; "t1"].
Proof. vm_compute. reflexivity. Qed.
