(* ===== verification/Transcript.v ===== *)
(** Delta frames of a watched transcript: crates/doc/src/transcript_delta.rs,
    with the message entries of crates/doc/src/schema.rs. *)
From S2P Require Import Prelude Json Text Agent Parts.

(** ** Data *)

#[export] Instance TodoItem_eq_dec : EqDecision TodoItem.
Proof. solve_decision. Defined.
#[export] Instance ToolCall_eq_dec : EqDecision ToolCall.
Proof. solve_decision. Defined.
#[export] Instance ToolDiff_eq_dec : EqDecision ToolDiff.
Proof. solve_decision. Defined.
#[export] Instance UserInputQuestion_eq_dec : EqDecision UserInputQuestion.
Proof. solve_decision. Defined.
#[export] Instance ToolDiffStat_eq_dec : EqDecision ToolDiffStat.
Proof. solve_decision. Defined.
#[export] Instance SubagentStatus_eq_dec : EqDecision SubagentStatus.
Proof. solve_decision. Defined.
#[export] Instance MessageStatus_eq_dec : EqDecision MessageStatus.
Proof. solve_decision. Defined.
#[export] Instance ToolPart_eq_dec : EqDecision ToolPart.
Proof. solve_decision. Defined.
#[export] Instance MessagePart_eq_dec : EqDecision MessagePart.
Proof. solve_decision. Defined.

Inductive MessageRole := User | Assistant | System.

#[export] Instance MessageRole_eq_dec : EqDecision MessageRole.
Proof. solve_decision. Defined.

Record SessionMessageEntry := mk_entry {
  me_id : string;
  me_role : MessageRole;
  me_parts : list MessagePart;
  me_created_at : Z;
  me_device_id : string;
  me_status : option MessageStatus;
  me_continuation_of : option string;
}.

#[export] Instance SessionMessageEntry_eq_dec : EqDecision SessionMessageEntry.
Proof. solve_decision. Defined.

Record TranscriptUpsert := mk_upsert { tu_after : option string; tu_entry : SessionMessageEntry }.

Record TextAppend := mk_append { ta_entry : string; ta_part : string; ta_text : string; ta_len : nat }.

Inductive TranscriptFrame :=
  | Reset (reset : list SessionMessageEntry)
  | Delta (upsert : list TranscriptUpsert) (append : list TextAppend) (remove : list string) (count : nat).

Definition is_empty_delta (f : TranscriptFrame) : bool :=
  match f with
  | Delta [] [] [] _ => true
  | _ => false
  end.

(** ** Diffing *)

(** The loop over the zipped parts; [acc] is the append found so far. [None]
    is the early return. *)
Fixpoint parts_append (entry : string) (ps ns : list MessagePart) (acc : option TextAppend)
    : option (option TextAppend) :=
  match ps, ns with
  | p :: ps, n :: ns =>
      if decide (p = n) then parts_append entry ps ns acc
      else
        match p, n with
        | TextPart pid pt, TextPart nid nt =>
            match strip_prefix pt nt, acc with
            | Some tail, None =>
                if String.eqb pid nid
                then parts_append entry ps ns (Some (mk_append entry nid tail (String.length nt)))
                else None
            | _, _ => None
            end
        | _, _ => None
        end
  | _, _ => Some acc
  end.

Definition try_text_append (prev next : SessionMessageEntry) : option TextAppend :=
  if bool_decide (me_id prev = me_id next) && bool_decide (me_role prev = me_role next) &&
     bool_decide (me_created_at prev = me_created_at next) &&
     bool_decide (me_device_id prev = me_device_id next) &&
     bool_decide (me_status prev = me_status next) &&
     bool_decide (me_continuation_of prev = me_continuation_of next) &&
     bool_decide (length (me_parts prev) = length (me_parts next))
  then default None (parts_append (me_id next) (me_parts prev) (me_parts next) None)
  else None.

(** [prev_by_id]: the last entry of an id, with its position. *)
Definition prev_by_id (prev : list SessionMessageEntry) : gmap string (nat * SessionMessageEntry) :=
  foldl (fun m ie => <[me_id ie.2 := ie]> m) ∅ (imap pair prev).

Definition prev_after (prev : list SessionMessageEntry) (i : nat) : option string :=
  match i with
  | O => None
  | S p => me_id <$> prev !! p
  end.

(** What the loop decides for one entry. *)
Inductive Change := Keep | Append (a : TextAppend) | Upsert.

Definition classify (prev : list SessionMessageEntry) (after : option string)
    (entry : SessionMessageEntry) : Change :=
  match prev_by_id prev !! me_id entry with
  | None => Upsert
  | Some (ix, old) =>
      if decide (prev_after prev ix = after) then
        if decide (old = entry) then Keep
        else match try_text_append old entry with Some a => Append a | None => Upsert end
      else Upsert
  end.

(** The loop over [next]; [after] is the id before the current entry. *)
Fixpoint diff_loop (prev : list SessionMessageEntry) (after : option string)
    (todo : list SessionMessageEntry) : list TranscriptUpsert * list TextAppend :=
  match todo with
  | [] => ([], [])
  | entry :: todo =>
      let '(ups, apps) := diff_loop prev (Some (me_id entry)) todo in
      match classify prev after entry with
      | Keep => (ups, apps)
      | Append a => (ups, a :: apps)
      | Upsert => (mk_upsert after entry :: ups, apps)
      end
  end.

Definition diff_transcript (prev next : list SessionMessageEntry) : TranscriptFrame :=
  let remove := me_id <$> filter (fun e => ~ me_id e ∈ (me_id <$> next)) prev in
  let '(upsert, append) := diff_loop prev None next in
  if (Nat.max (length next) 1 <=? length upsert * 2)%nat && (4 <? length next)%nat then Reset next
  else Delta upsert append remove (length next).

(** ** Applying: [None] is a desync *)

Definition position (id : string) (l : list SessionMessageEntry) : option nat :=
  fst <$> list_find (fun e => me_id e = id) l.

Definition apply_upsert (current : list SessionMessageEntry) (u : TranscriptUpsert)
    : option (list SessionMessageEntry) :=
  let current := match position (me_id (tu_entry u)) current with
                 | Some existing => delete existing current
                 | None => current
                 end in
  at_ ← match tu_after u with
        | None => Some O
        | Some anchor => S <$> position anchor current
        end;
  Some (take at_ current ++ tu_entry u :: drop at_ current).

Fixpoint apply_upserts (current : list SessionMessageEntry) (us : list TranscriptUpsert)
    : option (list SessionMessageEntry) :=
  match us with
  | [] => Some current
  | u :: us => current ← apply_upsert current u; apply_upserts current us
  end.

(** The first text part of the id grows; [None] when there is none or its
    length is not the announced one. *)
Fixpoint append_part (a : TextAppend) (parts : list MessagePart) : option (list MessagePart) :=
  match parts with
  | [] => None
  | TextPart id text :: parts =>
      if String.eqb id (ta_part a) then
        let text := (text ++ ta_text a)%string in
        if (String.length text =? ta_len a)%nat then Some (TextPart id text :: parts) else None
      else cons (TextPart id text) <$> append_part a parts
  | p :: parts => cons p <$> append_part a parts
  end.

Definition set_parts (e : SessionMessageEntry) (parts : list MessagePart) : SessionMessageEntry :=
  mk_entry (me_id e) (me_role e) parts (me_created_at e) (me_device_id e) (me_status e)
    (me_continuation_of e).

Fixpoint apply_append (current : list SessionMessageEntry) (a : TextAppend)
    : option (list SessionMessageEntry) :=
  match current with
  | [] => None
  | e :: current =>
      if String.eqb (me_id e) (ta_entry a) then
        parts ← append_part a (me_parts e); Some (set_parts e parts :: current)
      else cons e <$> apply_append current a
  end.

Fixpoint apply_appends (current : list SessionMessageEntry) (l : list TextAppend)
    : option (list SessionMessageEntry) :=
  match l with
  | [] => Some current
  | a :: l => current ← apply_append current a; apply_appends current l
  end.

Definition apply_transcript_frame (current : list SessionMessageEntry) (f : TranscriptFrame)
    : option (list SessionMessageEntry) :=
  match f with
  | Reset reset => Some reset
  | Delta upsert append remove count =>
      let current := filter (fun e => ~ me_id e ∈ remove) current in
      current ← apply_upserts current upsert;
      current ← apply_appends current append;
      if (length current =? count)%nat then Some current else None
  end.

(** ** Appends *)

Definition text_ids (e : SessionMessageEntry) : list string :=
  omap (fun p => match p with TextPart id _ => Some id | _ => None end) (me_parts e).

Lemma strip_prefix_iff p s r : strip_prefix p s = Some r <-> s = (p ++ r)%string.
Proof. split; [apply strip_prefix_Some|intros ->; apply strip_prefix_app]. Qed.

Lemma parts_append_done entry ps ns a x :
  length ps = length ns -> parts_append entry ps ns (Some a) = Some x -> ps = ns /\ x = Some a.
Proof.
  revert ns. induction ps as [|p ps IH]; intros [|n ns]; cbn [parts_append length]; try done.
  - by intros _ [= <-].
  - intros [= Hl]. destruct (decide (p = n)) as [->|Hn].
    + intros H. destruct (IH ns Hl H) as [-> ->]. done.
    + destruct p as [pid pt| | |]; try done. destruct n as [nid nt| | |]; try done.
      by destruct (strip_prefix pt nt).
Qed.

(** A found append is the one difference of the two part lists. *)
Lemma parts_append_spec entry ps ns a :
  length ps = length ns -> parts_append entry ps ns None = Some (Some a) ->
  exists l id text tail r, ps = l ++ TextPart id text :: r /\
    ns = l ++ TextPart id (text ++ tail) :: r /\
    a = mk_append entry id tail (String.length (text ++ tail)).
Proof.
  revert ns. induction ps as [|p ps IH]; intros [|n ns]; cbn [parts_append length]; try done.
  intros [= Hl]. destruct (decide (p = n)) as [->|Hn].
  - intros H. destruct (IH ns Hl H) as (l & id & text & tail & r & -> & -> & ->).
    by exists (n :: l), id, text, tail, r.
  - destruct p as [pid pt| | |]; try done. destruct n as [nid nt| | |]; try done.
    destruct (strip_prefix pt nt) as [tail|] eqn:Es; [|done]. apply strip_prefix_Some in Es as ->.
    destruct (String.eqb_spec pid nid) as [->|]; [|done]. intros H.
    destruct (parts_append_done _ _ _ _ _ Hl H) as [-> [= ->]]. by exists [], nid, pt, tail, ns.
Qed.

Lemma append_part_at l id text tail r entry :
  ~ id ∈ omap (fun p => match p with TextPart i _ => Some i | _ => None end) l ->
  append_part (mk_append entry id tail (String.length (text ++ tail))) (l ++ TextPart id text :: r) =
    Some (l ++ TextPart id (text ++ tail) :: r).
Proof.
  induction l as [|p l IH]; intros Hn.
  - cbn [app append_part ta_part ta_text ta_len]. by rewrite String.eqb_refl, Nat.eqb_refl.
  - destruct p as [i x| | |]; cbn [app append_part ta_part] in *.
    2-4: by rewrite IH.
    change (~ id ∈ i :: omap (fun p => match p with TextPart i _ => Some i | _ => None end) l) in Hn.
    apply not_elem_of_cons in Hn as [Hne Hn]. destruct (String.eqb_spec i id); [congruence|].
    by rewrite IH.
Qed.

Lemma try_text_append_spec old new a :
  NoDup (text_ids old) -> try_text_append old new = Some a ->
  ta_entry a = me_id new /\ me_id old = me_id new /\
  append_part a (me_parts old) = Some (me_parts new) /\ set_parts old (me_parts new) = new.
Proof.
  intros Hnd H. unfold try_text_append in H.
  destruct (_ && _) eqn:E in H; [|done]. rewrite !andb_true_iff, !bool_decide_eq_true in E.
  destruct E as ((((((Hid & Hr) & Hc) & Hd) & Hs) & Ho) & Hl).
  destruct (parts_append _ _ _ _) as [x|] eqn:Ep in H; [|done]. cbn in H. subst x.
  destruct (parts_append_spec _ _ _ _ Hl Ep) as (l & id & text & tail & r & Hp & Hn & ->).
  split_and!; [done|done| |].
  - rewrite Hp, Hn. apply append_part_at. unfold text_ids in Hnd. rewrite Hp, omap_app in Hnd.
    apply NoDup_app in Hnd as (_ & Hnd & _). intros Hin. apply (Hnd id Hin). left.
  - destruct old, new; unfold set_parts; cbn in *. congruence.
Qed.

(** ** The map of the previous transcript *)

Lemma imap_pair_lookup {A} (l : list A) i x : imap pair l !! i = Some x <-> exists y, l !! i = Some y /\ x = (i, y).
Proof. rewrite list_lookup_imap. destruct (l !! i); cbn; naive_solver. Qed.

Lemma foldl_insert_lookup (l : list (nat * SessionMessageEntry))
    (m : gmap string (nat * SessionMessageEntry)) id :
  foldl (fun m ie => <[me_id ie.2 := ie]> m) m l !! id =
    match last (filter (fun ie => me_id ie.2 = id) l) with Some x => Some x | None => m !! id end.
Proof.
  revert m. induction l as [|x l IH]; intros m; [done|]. cbn [foldl]. rewrite IH.
  destruct (decide (me_id x.2 = id)) as [<-|Hn].
  - rewrite (filter_cons_True _ x) by done. rewrite last_cons, lookup_insert_eq. by destruct (last _).
  - by rewrite filter_cons_False, lookup_insert_ne.
Qed.

Lemma prev_by_id_Some prev id i e :
  prev_by_id prev !! id = Some (i, e) -> prev !! i = Some e /\ me_id e = id.
Proof.
  unfold prev_by_id. rewrite foldl_insert_lookup, lookup_empty.
  destruct (last _) as [x|] eqn:El; [|done]. intros [= ->].
  apply last_Some_elem_of in El. apply list_elem_of_filter in El as [Hid Hin].
  apply list_elem_of_lookup in Hin as [j Hj]. apply imap_pair_lookup in Hj as (y & Hy & [= <- <-]). done.
Qed.

Lemma prev_by_id_None prev id : prev_by_id prev !! id = None <-> ~ id ∈ (me_id <$> prev).
Proof.
  unfold prev_by_id. rewrite foldl_insert_lookup, lookup_empty. split.
  - destruct (last _) eqn:El; [done|]. intros _ (e & -> & [i Hi]%list_elem_of_lookup)%list_elem_of_fmap.
    apply last_None in El. apply (not_elem_of_nil (i, e)). rewrite <- El.
    apply list_elem_of_filter. split; [done|]. apply list_elem_of_lookup. exists i.
    apply imap_pair_lookup. eauto.
  - intros Hn. destruct (last _) as [x|] eqn:El; [|done].
    apply last_Some_elem_of in El. apply list_elem_of_filter in El as [<- Hin].
    apply list_elem_of_lookup in Hin as [j Hj]. apply imap_pair_lookup in Hj as (y & Hy & ->).
    exfalso. apply Hn. apply list_elem_of_fmap_2. by eapply list_elem_of_lookup_2.
Qed.

(** ** Upserts *)

Definition ids (l : list SessionMessageEntry) : list string := me_id <$> l.

(** An entry after the upserts of a frame: the appends are still to come. *)
Definition settled (prev : list SessionMessageEntry) (after : option string) (e : SessionMessageEntry)
    : SessionMessageEntry :=
  match classify prev after e with
  | Upsert => e
  | _ => default e (snd <$> prev_by_id prev !! me_id e)
  end.

Fixpoint settle (prev : list SessionMessageEntry) (after : option string)
    (todo : list SessionMessageEntry) : list SessionMessageEntry :=
  match todo with
  | [] => []
  | e :: todo => settled prev after e :: settle prev (Some (me_id e)) todo
  end.

Lemma settled_id prev after e : me_id (settled prev after e) = me_id e.
Proof.
  unfold settled. destruct (classify prev after e), (prev_by_id prev !! me_id e) as [[i old]|] eqn:E;
    try done; cbn; by apply prev_by_id_Some in E as [_ ->].
Qed.

Lemma position_at a x b : ~ me_id x ∈ ids a -> position (me_id x) (a ++ x :: b) = Some (length a).
Proof.
  intros Hn. unfold position.
  assert (list_find (fun e => me_id e = me_id x) (a ++ x :: b) = Some (length a, x)) as ->; [|done].
  apply list_find_Some. split_and!; [by rewrite list_lookup_middle|done|].
  intros j y Hj Hlt E. rewrite lookup_app_l in Hj by done. apply Hn. rewrite <- E.
  apply list_elem_of_fmap_2. by eapply list_elem_of_lookup_2.
Qed.

Lemma position_None id l : ~ id ∈ ids l -> position id l = None.
Proof.
  intros Hn. unfold position. assert (list_find (fun e => me_id e = id) l = None) as ->; [|done].
  apply list_find_None, Forall_forall. intros x Hx <-. by apply Hn, list_elem_of_fmap_2.
Qed.

(** Inserting behind the settled prefix; the entry's old copy, if any, heads
    what is left. *)
Lemma apply_upsert_behind done old rest e :
  NoDup (ids done) -> ~ me_id e ∈ ids done -> ~ me_id e ∈ ids rest ->
  match old with Some r => me_id r = me_id e | None => True end ->
  apply_upsert (done ++ option_list old ++ rest) (mk_upsert (me_id <$> last done) e) =
    Some ((done ++ [e]) ++ rest).
Proof.
  intros Hnd Hd Hr Hold. unfold apply_upsert. cbn [tu_entry tu_after].
  assert (match position (me_id e) (done ++ option_list old ++ rest) with
          | Some i => delete i (done ++ option_list old ++ rest)
          | None => done ++ option_list old ++ rest end = done ++ rest) as ->.
  { destruct old as [r|]; cbn [option_list option_rect app].
    - rewrite <- Hold. rewrite position_at by by rewrite Hold. by apply delete_middle.
    - rewrite position_None; [done|]. unfold ids. rewrite fmap_app, elem_of_app. tauto. }
  destruct (last done) as [x|] eqn:El; cbn [fmap option_fmap option_map mbind option_bind].
  - apply last_Some in El as [l ->]. rewrite <- !app_assoc. cbn [app].
    unfold ids in Hnd. rewrite fmap_app in Hnd. apply NoDup_app in Hnd as (_ & Hx & _).
    rewrite position_at by (intros Hin; apply (Hx _ Hin); by left). cbn.
    change (l ++ x :: rest) with (l ++ [x] ++ rest). rewrite app_assoc.
    replace (S (length l)) with (length (l ++ [x])) by (rewrite length_app; cbn; lia).
    rewrite take_app_length, drop_app_length. by rewrite <- app_assoc.
  - apply last_None in El as ->. by destruct rest.
Qed.

Lemma entry_inj l x y : NoDup (ids l) -> x ∈ l -> y ∈ l -> me_id x = me_id y -> x = y.
Proof.
  intros Hnd [i Hi]%list_elem_of_lookup [j Hj]%list_elem_of_lookup E.
  assert (i = j) as ->; [|congruence]. apply (NoDup_lookup _ _ _ (me_id x) Hnd); unfold ids.
  - by rewrite list_lookup_fmap, Hi.
  - by rewrite E, list_lookup_fmap, Hj.
Qed.

Section Diff.
Context (prev : list SessionMessageEntry) (Hprev : NoDup (ids prev)).

Lemma old_entry e r i old :
  prev_by_id prev !! me_id e = Some (i, old) -> r ∈ prev -> me_id r = me_id e -> old = r.
Proof.
  intros [Ho Hid]%prev_by_id_Some Hr Hre.
  apply (entry_inj prev); [done|by eapply list_elem_of_lookup_2|done|congruence].
Qed.

Lemma apply_upserts_settle todo done rest :
  NoDup (ids done ++ ids todo) ->
  ids rest = filter (fun id => id ∈ ids prev) (ids todo) -> (forall r, r ∈ rest -> r ∈ prev) ->
  apply_upserts (done ++ rest) (diff_loop prev (me_id <$> last done) todo).1 =
    Some (done ++ settle prev (me_id <$> last done) todo).
Proof.
  revert done rest. induction todo as [|e todo IH]; intros done rest Hnd Hids Hrest.
  - destruct rest; [done|]. by cbn in Hids.
  - cbn [diff_loop settle]. set (after := me_id <$> last done) in *.
    assert (me_id <$> last (done ++ [settled prev after e]) = Some (me_id e)) as Hlast
      by (rewrite last_snoc; cbn; by rewrite settled_id).
    assert (forall rest', ids rest' = filter (fun id => id ∈ ids prev) (ids todo) ->
              (forall r, r ∈ rest' -> r ∈ prev) ->
              apply_upserts ((done ++ [settled prev after e]) ++ rest')
                (diff_loop prev (Some (me_id e)) todo).1 =
              Some (done ++ settled prev after e :: settle prev (Some (me_id e)) todo)) as Hrec.
    { intros rest' H1 H2. rewrite <- Hlast, IH; [by rewrite <- app_assoc|..|done|done].
      unfold ids in *. rewrite fmap_app. cbn. by rewrite settled_id, <- app_assoc. }
    cbn in Hnd. apply NoDup_app in Hnd as (Hnd & Hdis & Hne).
    apply NoDup_cons in Hne as [Hne Hnt].
    destruct (diff_loop prev (Some (me_id e)) todo) as [ups apps]. cbn [fst] in Hrec.
    assert (~ me_id e ∈ ids done) as Hd by (intros Hin; apply (Hdis _ Hin); by left).
    change (ids (e :: todo)) with (me_id e :: ids todo) in Hids.
    destruct (decide (me_id e ∈ ids prev)) as [Hin|Hin].
    + rewrite filter_cons_True in Hids by done. destruct rest as [|r rest]; [done|].
      cbn in Hids. injection Hids as Hr Hids.
      assert (r ∈ prev) as Hrp by (apply Hrest; left).
      destruct (prev_by_id prev !! me_id e) as [[i old]|] eqn:E;
        [|by apply prev_by_id_None in E].
      pose proof (old_entry _ _ _ _ E Hrp Hr) as ->.
      specialize (Hrec rest Hids ltac:(intros; apply Hrest; by right)).
      unfold settled in Hrec |- *. rewrite E in Hrec |- *. cbn [fmap option_fmap option_map default snd] in *.
      destruct (classify prev after e); cbn [fst] in *.
      * rewrite <- app_assoc in Hrec. exact Hrec.
      * rewrite <- app_assoc in Hrec. exact Hrec.
      * cbn [apply_upserts].
        pose proof (apply_upsert_behind done (Some r) rest e) as Hu. cbn [option_list option_rect app] in Hu.
        unfold after. rewrite Hu; [exact Hrec|done|done| |done].
        intros Hx. fold (ids rest) in Hids. rewrite Hids, list_elem_of_filter in Hx. tauto.
    + rewrite filter_cons_False in Hids by done. specialize (Hrec rest Hids Hrest).
      assert (prev_by_id prev !! me_id e = None) as E by by apply prev_by_id_None.
      assert (classify prev after e = Upsert) as Ec by (unfold classify; by rewrite E).
      unfold settled in Hrec |- *. rewrite Ec in Hrec |- *. cbn [fst apply_upserts].
      pose proof (apply_upsert_behind done None rest e) as Hu. cbn [option_list option_rect app] in Hu.
      unfold after. rewrite Hu; [exact Hrec|done|done| |done].
      intros Hx. rewrite Hids, list_elem_of_filter in Hx. tauto.
Qed.

Lemma apply_append_at done x rest a e :
  ~ me_id x ∈ ids done -> ta_entry a = me_id x -> append_part a (me_parts x) = Some (me_parts e) ->
  set_parts x (me_parts e) = e -> apply_append (done ++ x :: rest) a = Some (done ++ e :: rest).
Proof.
  intros Hn Ha Hp He. induction done as [|y done IH]; cbn [app apply_append].
  - rewrite Ha, String.eqb_refl, Hp. cbn. by rewrite He.
  - change (~ me_id x ∈ me_id y :: ids done) in Hn. apply not_elem_of_cons in Hn as [Hne Hn].
    destruct (String.eqb_spec (me_id y) (ta_entry a)); [congruence|]. by rewrite IH.
Qed.

Lemma apply_appends_settle todo pre after :
  Forall (fun e => NoDup (text_ids e)) prev -> NoDup (ids pre ++ ids todo) ->
  apply_appends (pre ++ settle prev after todo) (diff_loop prev after todo).2 = Some (pre ++ todo).
Proof.
  intros Htext. revert pre after. induction todo as [|e todo IH]; intros pre after Hnd; [done|].
  cbn [diff_loop settle].
  assert (apply_appends ((pre ++ [e]) ++ settle prev (Some (me_id e)) todo)
            (diff_loop prev (Some (me_id e)) todo).2 = Some (pre ++ e :: todo)) as Hrec.
  { rewrite IH; [by rewrite <- app_assoc|]. unfold ids in *. rewrite fmap_app, <- app_assoc. exact Hnd. }
  rewrite <- app_assoc in Hrec. cbn [app] in Hrec.
  destruct (diff_loop prev (Some (me_id e)) todo) as [ups apps]. cbn [snd] in Hrec.
  unfold settled. destruct (classify prev after e) as [|a|] eqn:Ec; cbn [snd]; [| |exact Hrec].
  all: unfold classify in Ec; destruct (prev_by_id prev !! me_id e) as [[i old]|] eqn:E; [|done];
    destruct (decide _); [|done]; destruct (decide (old = e)) as [->|]; try done.
  { by destruct (try_text_append old e). }
  destruct (try_text_append old e) as [a'|] eqn:Ea; [|done]. injection Ec as ->.
  apply prev_by_id_Some in E as [Ho Hid]. rewrite Forall_lookup in Htext.
  destruct (try_text_append_spec _ _ _ (Htext _ _ Ho) Ea) as (H1 & H2 & H3 & H4).
  cbn [apply_appends fmap option_fmap option_map default snd].
  rewrite (apply_append_at pre old _ a e); [exact Hrec| |congruence|done|done].
  rewrite Hid. intros Hin. apply NoDup_app in Hnd as (_ & Hd & _). apply (Hd _ Hin). by left.
Qed.
End Diff.

Lemma ids_filter (P : string -> Prop) `{forall x, Decision (P x)}
    `{forall e : SessionMessageEntry, Decision (P (me_id e))} l :
  ids (filter (fun e => P (me_id e)) l) = filter P (ids l).
Proof.
  induction l as [|e l IH]; [done|]. unfold ids in *. rewrite fmap_cons.
  destruct (decide (P (me_id e))).
  - rewrite !filter_cons_True by done. cbn. by rewrite IH.
  - by rewrite !filter_cons_False by done.
Qed.

(** The frame between two copies, applied to the first, gives the second. *)
Lemma diff_applies prev next :
  NoDup (ids prev) -> NoDup (ids next) ->
  filter (fun id => id ∈ ids next) (ids prev) = filter (fun id => id ∈ ids prev) (ids next) ->
  Forall (fun e => NoDup (text_ids e)) prev ->
  apply_transcript_frame prev (diff_transcript prev next) = Some next.
Proof.
  intros Hp Hn Hord Htext. unfold diff_transcript.
  destruct (diff_loop prev None next) as [ups apps] eqn:El.
  destruct (_ && _); [done|]. cbn [apply_transcript_frame].
  set (gone := me_id <$> filter (fun e => ~ me_id e ∈ (me_id <$> next)) prev).
  set (rest := filter (fun e => ~ me_id e ∈ gone) prev).
  assert (ids rest = filter (fun id => id ∈ ids prev) (ids next)) as Hrest.
  { rewrite <- Hord. transitivity (filter (fun id => ~ id ∈ gone) (ids prev)).
    - apply (ids_filter (fun id => ~ id ∈ gone)).
    - assert (forall id, id ∈ ids prev -> ~ id ∈ gone <-> id ∈ ids next) as Hg.
      { intros id Hin. change gone with (ids (filter (fun e => ~ me_id e ∈ ids next) prev)).
        rewrite (ids_filter (fun id => ~ id ∈ ids next)), list_elem_of_filter.
        destruct (decide (id ∈ ids next)); tauto. }
      clearbody gone. clear -Hg. induction (ids prev) as [|x l IH]; [done|].
      assert (filter (fun id => ~ id ∈ gone) l = filter (fun id => id ∈ ids next) l) as E
        by (apply IH; intros; apply Hg; by right).
      pose proof (Hg x ltac:(by left)) as Hx. destruct (decide (x ∈ ids next)).
      + rewrite !filter_cons_True by tauto. by rewrite E.
      + rewrite !filter_cons_False by tauto. exact E. }
  pose proof (apply_upserts_settle prev Hp next [] rest) as Hu. cbn [app last fmap option_fmap option_map] in Hu.
  pose proof (apply_appends_settle prev next [] None Htext) as Ha. cbn [app] in Ha.
  rewrite El in Hu, Ha. cbn [fst snd] in Hu, Ha.
  rewrite Hu; [|done|done|by intros r [_ ?]%list_elem_of_filter].
  cbn [mbind option_bind]. rewrite Ha by done. cbn. by rewrite Nat.eqb_refl.
Qed.

(** C13. A transcript frame takes a watcher exactly from one state to the next:
    for transcripts with distinct entry ids whose surviving entries keep their
    relative order (a Loro list never moves an element), and distinct text ids
    within an entry, applying [diff_transcript prev next] to [prev] succeeds
    and gives [next], through inserts anywhere, removals, rewrites, text
    appends and the fallback to a reset. *)
Theorem diff_apply prev next :
  NoDup (ids prev) -> NoDup (ids next) ->
  filter (fun id => id ∈ ids next) (ids prev) = filter (fun id => id ∈ ids prev) (ids next) ->
  Forall (fun e => NoDup (text_ids e)) prev ->
  apply_transcript_frame prev (diff_transcript prev next) = Some next.
Proof. apply diff_applies. Qed.

(** The text ids of folded parts are distinct, as the theorem asks. *)
Lemma folded_text_ids text_diff evs e :
  me_parts e = fold_events text_diff [] evs -> NoDup (text_ids e).
Proof.
  intros E. destruct (fold_events_inv text_diff (fun _ => True) evs []) as (Hs & _);
    [apply shapes_nil|constructor|done|done|]. rewrite <- E in Hs. clear E.
  unfold text_ids. remember (me_parts e) as parts. clear Heqparts e.
  induction parts as [|p parts IH] using rev_ind; [apply NoDup_nil_2|].
  rewrite fmap_app in Hs.
  assert (shapes_ok (shape <$> parts)) as Hs'.
  { assert (forall i x, (shape <$> parts) !! i = Some x ->
              ((shape <$> parts) ++ (shape <$> [p])) !! i = Some x) as Hl
      by (intros; by apply lookup_app_l_Some).
    destruct Hs. split; eauto. }
  rewrite omap_app. apply NoDup_app. split_and!; [by apply IH| |].
  - intros id Hin Hin'. destruct p as [tid x| | |]; try by apply elem_of_nil in Hin'.
    apply list_elem_of_singleton in Hin' as ->.
    apply list_elem_of_omap in Hin as (q & Hq & Hid). destruct q as [qid y| | |]; try done.
    injection Hid as ->. apply list_elem_of_lookup in Hq as [i Hi].
    assert (((shape <$> parts) ++ (shape <$> [TextPart tid x])) !! i = Some (SText tid)) as H1.
    { apply lookup_app_l_Some. by rewrite list_lookup_fmap, Hi. }
    assert (((shape <$> parts) ++ (shape <$> [TextPart tid x])) !! length parts = Some (SText tid)) as H2.
    { apply list_lookup_middle. by rewrite length_fmap. }
    pose proof (so_text _ Hs _ _ H1) as E1. pose proof (so_text _ Hs _ _ H2) as E2.
    rewrite E1 in E2. apply text_id_inj in E2. apply lookup_lt_Some in Hi. lia.
  - destruct p; cbn; [apply NoDup_singleton|apply NoDup_nil_2..].
Qed.

(** ** Witnesses and limits *)

Definition text_entry (id text : string) : SessionMessageEntry :=
  mk_entry id Assistant [TextPart "t0" text] 0 "dev" None None.

Lemma diff_apply_witness :
  let prev := [text_entry "a" "1"; text_entry "b" "wor"; text_entry "c" "x"] in
  let next := [text_entry "z" "0"; text_entry "b" "wor"; text_entry "d" "2"; text_entry "c" "xy"] in
  apply_transcript_frame prev (diff_transcript prev next) = Some next.
Proof.
  intros prev next. apply (diff_apply prev next).
  - apply (bool_decide_unpack _). vm_compute. exact I.
  - apply (bool_decide_unpack _). vm_compute. exact I.
  - vm_compute. reflexivity.
  - repeat (apply Forall_cons; split; [apply NoDup_singleton|]). by apply Forall_nil.
Defined.

Example streaming_tick :
  diff_transcript [text_entry "a" "p"; text_entry "b" "wor"] [text_entry "a" "p"; text_entry "b" "world"]
    = Delta [] [mk_append "b" "t0" "ld" 5] [] 2.
Proof. vm_compute. reflexivity. Qed.

(** Without the order hypothesis the count does not betray the difference: a
    swap of two blocks applies without a desync and lands elsewhere. *)
Lemma reorder_goes_unnoticed :
  let prev := text_entry "a1" "" :: text_entry "s1" "" :: text_entry "a2" "" :: [text_entry "s2" ""] in
  let next := text_entry "a2" "" :: text_entry "s2" "" :: text_entry "a1" "" :: [text_entry "s1" ""] in
  ids <$> apply_transcript_frame prev (diff_transcript prev next) = Some ["a2"; "s1"; "s2"; "a1"].
Proof. vm_compute. reflexivity. Qed.
