(* ===== verification/Access.v ===== *)
(** Who may enter a room: crates/server/src/auth.rs (identity behind a request),
    crates/server/src/ownership.rs (first come, first owner) and the two tables
    of crates/server/src/identity_db.rs. The SHA-256 digest of the [sha2] crate
    is a parameter. A header is what [HeaderValue::to_str] gives: the outer
    option is its presence, the inner one whether it is visible ASCII. *)
From S2P Require Import Prelude Json Text.

(** ** Identity *)

Definition SHARED_USER : Z := -1.

Record HeaderMap := mk_headers {
  h_authorization : option (option string);
  h_act_as : option (option string);
}.

(** The [api_tokens] table: digest to user; [tk_up] is whether it answers. *)
Record TokenStore := mk_tokens { tk_up : bool; tk_rows : gmap string Z }.

Definition lookup_token (t : TokenStore) (hash : string) : option (option Z) :=
  if tk_up t then Some (tk_rows t !! hash) else None.

Record Auth := mk_auth { au_shared : option string; au_store : option TokenStore }.

Definition auth_new (token : string) : Auth := mk_auth (Some token) None.

Definition auth_new_with_store (shared : option string) (store : TokenStore) : Auth :=
  mk_auth (t ← shared; if String.eqb (trim t) "" then None else Some t) (Some store).

(** *** [str::parse::<i64>] *)
Definition digit_of (a : Ascii.ascii) : option Z :=
  let n := Z.of_nat (Ascii.nat_of_ascii a) in
  if (48 <=? n) && (n <=? 57) then Some (n - 48) else None.

Fixpoint parse_digits (acc : Z) (s : string) : option Z :=
  match s with
  | EmptyString => Some acc
  | String a s => d ← digit_of a; parse_digits (10 * acc + d) s
  end.

Definition parse_i64 (s : string) : option Z :=
  let '(negative, digits) :=
    match s with
    | String a s' =>
        if Ascii.eqb a (Ascii.ascii_of_nat 45) then (true, s')
        else if Ascii.eqb a (Ascii.ascii_of_nat 43) then (false, s') else (false, s)
    | EmptyString => (false, s)
    end in
  if String.eqb digits "" then None
  else
    n ← parse_digits 0 digits;
    let n := if negative then - n else n in
    if (I64_MIN <=? n) && (n <=? I64_MAX) then Some n else None.

(** [None]: nobody is named; [Some None]: the naming is unusable. *)
Definition act_as (headers : HeaderMap) (query : option string) : option (option Z) :=
  raw ← match query with
        | Some v => Some v
        | None => default "" <$> h_act_as headers
        end;
  Some (id ← parse_i64 (trim raw); if 0 <? id then Some id else None).

Definition bearer (headers : HeaderMap) : option string :=
  v ← mjoin (h_authorization headers);
  trim <$> strip_prefix "Bearer " v.

(** The byte loop: [diff |= a ^ b]. *)
Definition byte_of (a : Ascii.ascii) : Z := Z.of_N (Ascii.N_of_ascii a).

Fixpoint xor_fold (diff : Z) (a b : string) : Z :=
  match a, b with
  | String x a, String y b => xor_fold (Z.lor diff (Z.lxor (byte_of x) (byte_of y))) a b
  | _, _ => diff
  end.

Definition constant_time_eq (expected got : string) : bool :=
  (String.length expected =? String.length got)%nat && (xor_fold 0 expected got =? 0).

Section Identity.
Context (hash_token : string -> string).

Definition identify (a : Auth) (headers : HeaderMap) (query_token query_act_as : option string)
    : option Z :=
  presented ← match query_token with Some t => Some t | None => bearer headers end;
  let presented := trim presented in
  if String.eqb presented "" then None
  else if match au_shared a with Some shared => constant_time_eq shared presented | None => false end
  then
    match act_as headers query_act_as with
    | Some None => None
    | Some (Some user_id) => Some user_id
    | None => Some SHARED_USER
    end
  else
    store ← au_store a;
    match lookup_token store (hash_token presented) with
    | Some (Some user_id) => Some user_id
    | _ => None
    end.

(** *** What an identity stands on *)
Definition presented_token (headers : HeaderMap) (query_token : option string) : option string :=
  trim <$> match query_token with Some t => Some t | None => bearer headers end.

Inductive identified (a : Auth) (headers : HeaderMap) (qt qa : option string) : Z -> Prop :=
  | id_shared t :
      presented_token headers qt = Some t -> t <> "" -> au_shared a = Some t ->
      act_as headers qa = None -> identified a headers qt qa SHARED_USER
  | id_act_as t user :
      presented_token headers qt = Some t -> t <> "" -> au_shared a = Some t ->
      act_as headers qa = Some (Some user) -> identified a headers qt qa user
  | id_token t store user :
      presented_token headers qt = Some t -> t <> "" -> au_shared a <> Some t ->
      au_store a = Some store -> tk_up store = true -> tk_rows store !! hash_token t = Some user ->
      identified a headers qt qa user.

Lemma xor_fold_zero diff a b :
  String.length a = String.length b -> 0 <= diff -> xor_fold diff a b = 0 <-> diff = 0 /\ a = b.
Proof.
  revert diff b. induction a as [|x a IH]; intros diff [|y b]; cbn [xor_fold String.length]; try done.
  - naive_solver.
  - intros [= Hl] Hd. rewrite IH; [|done|].
    + rewrite Z.lor_eq_0_iff, Z.lxor_eq_0_iff. unfold byte_of. split.
      * intros [[-> Hxy] ->]. split; [done|]. f_equal.
        rewrite <- (Ascii.ascii_N_embedding x), <- (Ascii.ascii_N_embedding y). f_equal. lia.
      * by intros [-> [= -> ->]].
    + apply Z.lor_nonneg. split; [done|]. apply Z.lxor_nonneg. unfold byte_of. lia.
Qed.

(** The constant-time comparison is equality. *)
Lemma constant_time_eq_spec a b : constant_time_eq a b = true <-> a = b.
Proof.
  unfold constant_time_eq. rewrite andb_true_iff, Nat.eqb_eq, Z.eqb_eq. split.
  - intros [Hl Hx]. by apply (xor_fold_zero 0 a b Hl) in Hx as [_ ->].
  - intros ->. split; [done|]. by apply xor_fold_zero.
Qed.

Lemma shared_match a t :
  (match au_shared a with Some shared => constant_time_eq shared t | None => false end) =
    bool_decide (au_shared a = Some t).
Proof.
  apply eq_true_iff_eq. rewrite bool_decide_eq_true. destruct (au_shared a) as [s|]; [|done].
  rewrite constant_time_eq_spec. naive_solver.
Qed.

Lemma identify_spec a headers qt qa user :
  identify a headers qt qa = Some user <-> identified a headers qt qa user.
Proof.
  unfold identify.
  destruct (match qt with Some t => Some t | None => bearer headers end) as [p|] eqn:Ep.
  2: { split; [done|]. intros H; destruct H as [t Hp|t user Hp|t store user Hp];
       unfold presented_token in Hp; by rewrite Ep in Hp. }
  cbn [mbind option_bind]. rewrite shared_match.
  assert (presented_token headers qt = Some (trim p)) as Hp by (unfold presented_token; by rewrite Ep).
  destruct (String.eqb_spec (trim p) "") as [He|He].
  { split; [done|]. intros H; destruct H as [t Hp'|t user Hp'|t store user Hp']; congruence. }
  case_bool_decide as Hs.
  - split.
    + destruct (act_as headers qa) as [[u|]|] eqn:Ea; [intros [= <-]|done|intros [= <-]].
      * by eapply id_act_as.
      * by eapply id_shared.
    + intros H; destruct H as [t Hp' _ _ Ha|t user Hp' _ _ Ha|t store user Hp' _ Hn]; try (by rewrite Ha).
      congruence.
  - split.
    + destruct (au_store a) as [store|] eqn:Est; [|done]. cbn [mbind option_bind]. unfold lookup_token.
      destruct (tk_up store) eqn:Eu; [|done]. destruct (tk_rows store !! _) as [u|] eqn:El; [|done].
      intros [= <-]. by eapply id_token.
    + intros H; destruct H as [t Hp' _ Hsh|t user Hp' _ Hsh|t store user Hp' _ _ Est Eu El]; [congruence..|].
      rewrite Est. cbn [mbind option_bind]. unfold lookup_token. rewrite Eu.
      replace (trim p) with t by congruence. by rewrite El.
Qed.
End Identity.

(** ** Ownership *)

Inductive Scope := ScopeChat | ScopeRegistry | ScopeDevice.

#[export] Instance Scope_eq_dec : EqDecision Scope.
Proof. solve_decision. Defined.

Definition scope_str (s : Scope) : string :=
  match s with ScopeChat => "chat" | ScopeRegistry => "registry" | ScopeDevice => "device" end.

(** The [room_owners] table, keyed by scope and room. *)
Abbreviation Owners := (gmap (string * string) Z).

(** [PgIdentity::claim]: one statement; [None] is a failing query ([up] says
    whether the database answers). *)
Definition claim (up : bool) (o : Owners) (scope : Scope) (room : string) (user_id : Z)
    : option Z * Owners :=
  if up then
    match o !! (scope_str scope, room) with
    | Some owner => (Some owner, o)
    | None => (Some user_id, <[(scope_str scope, room) := user_id]> o)
    end
  else (None, o).

Definition permits (up : bool) (o : Owners) (scope : Scope) (room : string) (user_id : Z)
    : bool * Owners :=
  let '(r, o) := claim up o scope room user_id in
  (match r with Some owner => owner =? user_id | None => false end, o).

Definition device_prefix : string := "device:".

(** The migration at the end of [SCHEMA], which every start runs: rows of chats
    named [device:x] are copied to device [x] unless it has an owner. *)
Definition migrate (o : Owners) : Owners :=
  foldr (fun row o =>
    let '((scope, room), user) := row in
    match strip_prefix device_prefix room with
    | Some device =>
        if String.eqb scope "chat"
        then match o !! ("device", device) with
             | Some _ => o
             | None => <[("device", device) := user]> o
             end
        else o
    | None => o
    end) o (map_to_list o).

(** ** The gate in front of every room *)

Inductive Verdict := Unauthorized | Forbidden | Granted (user_id : Z).

Record Request := mk_request {
  rq_scope : Scope;
  rq_room : string;
  rq_headers : HeaderMap;
  rq_token : option string;
  rq_act_as : option string;
  rq_up : bool;
}.

Section Gate.
Context (hash_token : string -> string).

Definition gate (a : Auth) (o : Owners) (r : Request) : Verdict * Owners :=
  match identify hash_token a (rq_headers r) (rq_token r) (rq_act_as r) with
  | None => (Unauthorized, o)
  | Some user =>
      let '(ok, o) := permits (rq_up r) o (rq_scope r) (rq_room r) user in
      (if ok then Granted user else Forbidden, o)
  end.

(** Requests one after the other, each with the authentication state it meets. *)
Fixpoint serve (o : Owners) (rs : list (Auth * Request)) : list Verdict * Owners :=
  match rs with
  | [] => ([], o)
  | (a, r) :: rs =>
      let '(v, o) := gate a o r in
      let '(vs, o) := serve o rs in
      (v :: vs, o)
  end.

Definition room_key (r : Request) : string * string := (scope_str (rq_scope r), rq_room r).

(** One request: granted exactly to an identity the room's owner row, old or
    just written, names; no row ever changes or goes, and an identified request
    leaves the room with an owner. *)
Lemma gate_spec a o r v o' :
  gate a o r = (v, o') ->
  o ⊆ o' /\
  (forall user, v = Granted user <->
     identified hash_token a (rq_headers r) (rq_token r) (rq_act_as r) user /\ rq_up r = true /\
     o' !! room_key r = Some user) /\
  (rq_up r = true -> identify hash_token a (rq_headers r) (rq_token r) (rq_act_as r) <> None ->
     is_Some (o' !! room_key r)).
Proof.
  unfold gate. destruct (identify hash_token a _ _ _) as [user|] eqn:Ei.
  2: { intros [= <- <-]. split_and!; [done| |naive_solver]. intros user. split; [done|].
       intros (Hid & _). apply identify_spec in Hid. congruence. }
  assert (forall u, identified hash_token a (rq_headers r) (rq_token r) (rq_act_as r) u <-> u = user) as Hid.
  { intros u. rewrite <- identify_spec, Ei. naive_solver. }
  unfold permits, claim. fold (room_key r). destruct (rq_up r).
  2: { intros [= <- <-]. split_and!; [done|naive_solver|done]. }
  destruct (o !! room_key r) as [owner|] eqn:Eo.
  - destruct (Z.eqb_spec owner user) as [->|Hne]; intros [= <- <-]; (split_and!; [done| |by rewrite Eo]);
      intros u; rewrite Hid, Eo; naive_solver.
  - rewrite Z.eqb_refl. intros [= <- <-]. split_and!; [by apply insert_subseteq| |].
    + intros u. rewrite Hid, lookup_insert_eq. naive_solver.
    + by rewrite lookup_insert_eq.
Qed.

Lemma serve_spec rs o vs o' :
  serve o rs = (vs, o') ->
  o ⊆ o' /\ length vs = length rs /\
  (forall i a r user, rs !! i = Some (a, r) -> vs !! i = Some (Granted user) ->
     identified hash_token a (rq_headers r) (rq_token r) (rq_act_as r) user /\
     o' !! room_key r = Some user) /\
  (forall i a r user, rs !! i = Some (a, r) ->
     identified hash_token a (rq_headers r) (rq_token r) (rq_act_as r) user -> rq_up r = true ->
     is_Some (o' !! room_key r) /\
     (vs !! i = Some (Granted user) <-> o' !! room_key r = Some user)).
Proof.
  revert o vs o'. induction rs as [|[a r] rs IH]; intros o vs o'; cbn [serve].
  { intros [= <- <-]. done. }
  destruct (gate a o r) as [v o1] eqn:Eg. destruct (serve o1 rs) as [vs1 o2] eqn:Es.
  intros [= <- <-]. destruct (gate_spec _ _ _ _ _ Eg) as (Hsub & Hv & Hos).
  destruct (IH _ _ _ Es) as (Hsub' & Hlen & Hg & Hiff).
  split_and!; [by transitivity o1|cbn; by rewrite Hlen| |].
  - intros [|i] a' r' user; cbn; [|by apply Hg]. intros [= <- <-] [= ->].
    destruct (proj1 (Hv user) eq_refl) as (? & _ & Ho). split; [done|]. by eapply lookup_weaken.
  - intros [|i] a' r' user; cbn; [|by apply Hiff]. intros [= <- <-] Hid Hup.
    destruct Hos as [w E1]; [done|by rewrite (proj2 (identify_spec _ _ _ _ _ _) Hid)|].
    pose proof (lookup_weaken _ _ _ _ E1 Hsub') as E2. split; [by eexists|].
    assert (Some v = Some (Granted user) <-> v = Granted user) as -> by naive_solver.
    rewrite Hv, E1, E2. tauto.
Qed.

(** C14. Rooms are isolated: over any sequence of requests, with any tokens,
    headers and database failures, two granted requests to one room belong to
    one user; a request is granted only to an identity its credentials really
    give (the shared token, its act-as value, or a stored token digest); an
    owner row never changes; and every identified request that finds the
    database answering leaves the room with an owner and is granted exactly if
    the requester is that owner, so the first to arrive is never locked out. *)
Theorem rooms_isolated o rs vs o' :
  serve o rs = (vs, o') ->
  (forall i j a b r s u w, rs !! i = Some (a, r) -> rs !! j = Some (b, s) -> room_key r = room_key s ->
     vs !! i = Some (Granted u) -> vs !! j = Some (Granted w) -> u = w) /\
  (forall i a r u, rs !! i = Some (a, r) -> vs !! i = Some (Granted u) ->
     identified hash_token a (rq_headers r) (rq_token r) (rq_act_as r) u) /\
  (forall k u, o !! k = Some u -> o' !! k = Some u) /\
  (forall i a r u, rs !! i = Some (a, r) ->
     identified hash_token a (rq_headers r) (rq_token r) (rq_act_as r) u -> rq_up r = true ->
     is_Some (o' !! room_key r) /\
     (vs !! i = Some (Granted u) <-> o' !! room_key r = Some u)).
Proof.
  intros Hs. destruct (serve_spec _ _ _ _ Hs) as (Hsub & _ & Hg & Hiff). split_and!.
  - intros i j a b r s u w Hr Hs' Hk Hu Hw. destruct (Hg _ _ _ _ Hr Hu) as [_ H1].
    destruct (Hg _ _ _ _ Hs' Hw) as [_ H2]. rewrite Hk in H1. congruence.
  - intros i a r u Hr Hu. by destruct (Hg _ _ _ _ Hr Hu).
  - intros k u Hk. by eapply lookup_weaken.
  - exact Hiff.
Qed.
End Gate.

(** ** Witnesses and limits *)

Definition no_headers : HeaderMap := mk_headers None None.

Definition two_users : Auth := auth_new_with_store None (mk_tokens true {["h1" := 1; "h9" := 9]}).

Definition digest (t : string) : string := if String.eqb t "one" then "h1" else "h9".

Definition ask (scope : Scope) (room token : string) : Auth * Request :=
  (two_users, mk_request scope room no_headers (Some token) None true).

Definition two_asks : list (Auth * Request) := [ask ScopeChat "c" "nine"; ask ScopeChat "c" "one"].

Lemma rooms_isolated_witness :
  is_Some ((serve digest ∅ two_asks).2 !! ("chat", "c")) /\
  ((serve digest ∅ two_asks).1 !! 1%nat = Some (Granted 1) <->
   (serve digest ∅ two_asks).2 !! ("chat", "c") = Some 1).
Proof.
  pose proof (rooms_isolated digest ∅ two_asks _ _ (surjective_pairing _)) as H.
  apply (proj2 (proj2 (proj2 H)) 1%nat two_users (ask ScopeChat "c" "one").2 1).
  - reflexivity.
  - eapply (id_token digest two_users no_headers (Some "one") None "one"); [reflexivity|done|done|reflexivity..].
  - reflexivity.
Defined.

Example second_user_is_refused :
  (serve digest ∅ [ask ScopeChat "c" "one"; ask ScopeChat "c" "nine"]).1 = [Granted 1; Forbidden].
Proof. reflexivity. Qed.

(** The device scope is its own name space within a run, and not across a
    restart: the migration runs at every start, so a chat named after a device
    that has not connected yet hands that device to the chat's owner. *)
Definition before_restart : Owners := (serve digest ∅ [ask ScopeChat "device:victim" "nine"]).2.

Lemma restart_hands_over_device :
  (serve digest before_restart [ask ScopeDevice "victim" "one"; ask ScopeDevice "victim" "nine"]).1 =
    [Granted 1; Forbidden] /\
  (serve digest (migrate before_restart)
     [ask ScopeDevice "victim" "one"; ask ScopeDevice "victim" "nine"]).1 = [Forbidden; Granted 9].
Proof. split; reflexivity. Qed.

(** A configured shared token with outer white space never matches, because
    only the presented one is trimmed. *)
Lemma padded_shared_token_never_matches :
  identify digest (auth_new_with_store (Some "secret ") (mk_tokens true ∅)) no_headers
    (Some "secret ") None = None.
Proof. reflexivity. Qed.
