(* ===== verification/SessionDoc.v ===== *)
(** The session document: crates/doc/src/schema.rs. The part maps of the
    document and their conversions, the message list's operations, the reading
    of entries with its field-level salvage, continuation joining and the tail.

    The Loro document is modelled as one replica sees it between imports: a
    list of entry maps, each with a list of part maps, a map being the fields
    it holds. Values go through Loro as the JSON they are written as. A struct or
    enum is read from an object (a unit variant from a string), the form every
    writer of the program gives it. *)
From stdpp Require Import pretty.
From S2P Require Import Prelude Json Text Agent Parts Transcript.

(** ** Derived JSON of the types inside a part *)

(** An [Option] field: skipped when [None], [None] when absent or null. *)
Definition opt_field {A} (k : string) (f : A -> Value) (x : option A) : list (string * Value) :=
  match x with Some y => [(k, f y)] | None => [] end.

Definition de_option {A} (f : Value -> option A) (v : Value) (k : string) : option (option A) :=
  match obj_get v k with
  | None | Some Null => Some None
  | Some w => Some <$> f w
  end.

Definition de_array {A} (f : Value -> option A) (v : Value) : option (list A) :=
  match v with Array l => mapM f l | _ => None end.

Definition todo_to_value (t : TodoItem) : Value :=
  Object [("text", Str (todo_text t)); ("done", Bool (todo_done t))].

Definition todo_of_value (v : Value) : option TodoItem :=
  text ← field_req as_str v "text"; d ← field_req as_boolean v "done"; Some (mk_todo text d).

Definition call_to_value (c : ToolCall) : Value :=
  Object
    match c with
    | Exec command => [("kind", Str "exec"); ("command", Str command)]
    | ReadFile path => [("kind", Str "readFile"); ("path", Str path)]
    | WriteFile path content =>
        [("kind", Str "writeFile"); ("path", Str path)] ++ opt_field "content" Str content
    | EditFile path old_string new_string =>
        [("kind", Str "editFile"); ("path", Str path)] ++ opt_field "old_string" Str old_string ++
        opt_field "new_string" Str new_string
    | ApplyPatch path => [("kind", Str "applyPatch")] ++ opt_field "path" Str path
    | Search pattern path =>
        [("kind", Str "search"); ("pattern", Str pattern)] ++ opt_field "path" Str path
    | Glob pattern => [("kind", Str "glob"); ("pattern", Str pattern)]
    | WebFetch url prompt => [("kind", Str "webFetch"); ("url", Str url)] ++ opt_field "prompt" Str prompt
    | WebSearch query => [("kind", Str "webSearch"); ("query", Str query)]
    | Todo items => [("kind", Str "todo"); ("items", Array (todo_to_value <$> items))]
    | Mcp server tool input =>
        [("kind", Str "mcp"); ("server", Str server); ("tool", Str tool)] ++
        opt_field "input" (fun v => v) input
    | Unknown name input =>
        [("kind", Str "unknown"); ("name", Str name)] ++ opt_field "input" (fun v => v) input
    end.

Definition call_of_value (v : Value) : option ToolCall :=
  kind ← field_req as_str v "kind";
  let str k := field_req as_str v k in
  let opt k := de_option as_str v k in
  if String.eqb kind "exec" then Exec <$> str "command"
  else if String.eqb kind "readFile" then ReadFile <$> str "path"
  else if String.eqb kind "writeFile" then p ← str "path"; WriteFile p <$> opt "content"
  else if String.eqb kind "editFile" then
    p ← str "path"; o ← opt "old_string"; EditFile p o <$> opt "new_string"
  else if String.eqb kind "applyPatch" then ApplyPatch <$> opt "path"
  else if String.eqb kind "search" then p ← str "pattern"; Search p <$> opt "path"
  else if String.eqb kind "glob" then Glob <$> str "pattern"
  else if String.eqb kind "webFetch" then u ← str "url"; WebFetch u <$> opt "prompt"
  else if String.eqb kind "webSearch" then WebSearch <$> str "query"
  else if String.eqb kind "todo" then Todo <$> field_default (de_array todo_of_value) [] v "items"
  else if String.eqb kind "mcp" then
    s ← str "server"; t ← str "tool"; Mcp s t <$> de_option Some v "input"
  else if String.eqb kind "unknown" then n ← str "name"; Unknown n <$> de_option Some v "input"
  else None.

Definition diff_to_value (d : ToolDiff) : Value :=
  Object ([("path", Str (td_path d))] ++ opt_field "oldText" Str (td_old_text d) ++
          [("newText", Str (td_new_text d))]).

Definition diff_of_value (v : Value) : option ToolDiff :=
  p ← field_req as_str v "path"; o ← de_option as_str v "oldText";
  n ← field_req as_str v "newText"; Some (mk_tool_diff p o n).

Definition stat_to_value (s : ToolDiffStat) : Value :=
  Object [("path", Str (ds_path s)); ("additions", Int (Z.of_N (ds_additions s)));
          ("deletions", Int (Z.of_N (ds_deletions s)))].

Definition stat_of_value (v : Value) : option ToolDiffStat :=
  p ← field_req as_str v "path"; a ← field_req as_u64 v "additions";
  d ← field_req as_u64 v "deletions"; Some (mk_diff_stat p a d).

Definition question_to_value (q : UserInputQuestion) : Value :=
  Object [("id", Str (uq_id q)); ("header", Str (uq_header q)); ("question", Str (uq_question q));
          ("options", Array (Str <$> uq_options q)); ("multiSelect", Bool (uq_multi_select q))].

Definition question_of_value (v : Value) : option UserInputQuestion :=
  i ← field_req as_str v "id"; h ← field_req as_str v "header"; q ← field_req as_str v "question";
  o ← field_req (de_array as_str) v "options"; m ← field_default as_boolean false v "multiSelect";
  Some (mk_question i h q o m).

(** *** Round trips *)

Lemma mapM_roundtrip {A} (f : A -> Value) (g : Value -> option A) l :
  Forall (fun x => g (f x) = Some x) l -> mapM g (f <$> l) = Some l.
Proof. induction 1 as [|x l Hx _ IH]; [done|]. cbn. rewrite Hx. cbn. by rewrite IH. Qed.

(** [Some Null] cannot be told from [None] behind an [Option]. *)
Definition plain_input (c : ToolCall) : Prop :=
  match c with
  | Mcp _ _ input | Unknown _ input => input <> Some Null
  | _ => True
  end.

Lemma de_option_value l k (input : option Value) :
  input <> Some Null -> assoc_get k l = input -> de_option Some (Object l) k = Some input.
Proof. intros Hn H. unfold de_option. cbn [obj_get]. rewrite H. by destruct input as [[]|]. Qed.

Lemma call_roundtrip c : plain_input c -> call_of_value (call_to_value c) = Some c.
Proof.
  intros Hp. destruct c as [| | |? [] []|[]|? []| |? []| |items|s t input|n input]; try reflexivity;
    try (destruct content; reflexivity).
  - unfold call_of_value, call_to_value. cbn. unfold field_default. cbn.
    rewrite mapM_roundtrip; [done|]. apply Forall_forall. by intros [x []] _.
  - unfold call_of_value, call_to_value. cbn -[de_option opt_field].
    rewrite (de_option_value _ _ input Hp); [done|by destruct input].
  - unfold call_of_value, call_to_value. cbn -[de_option opt_field].
    rewrite (de_option_value _ _ input Hp); [done|by destruct input].
Qed.

Lemma sanitized_plain c : plain_input (sanitize_tool_call c).
Proof. by destruct c. Qed.

Lemma diff_roundtrip d : diff_of_value (diff_to_value d) = Some d.
Proof. by destruct d as [p [o|] n]. Qed.

Definition u64 (n : N) : Prop := (n <= Z.to_N U64_MAX)%N.

Definition stat_fits (s : ToolDiffStat) : Prop := u64 (ds_additions s) /\ u64 (ds_deletions s).

Lemma stat_roundtrip s : stat_fits s -> stat_of_value (stat_to_value s) = Some s.
Proof.
  intros [Ha Hd]. unfold stat_of_value, stat_to_value, field_req.
  cbn -[as_u64 Z.of_N ds_additions ds_deletions]. rewrite (as_u64_of_N _ Ha).
  cbn -[as_u64 Z.of_N ds_additions ds_deletions]. rewrite (as_u64_of_N _ Hd). by destruct s.
Qed.

Lemma question_roundtrip q : question_of_value (question_to_value q) = Some q.
Proof.
  destruct q as [i h q o m]. unfold question_of_value, question_to_value, field_req. cbn.
  rewrite mapM_roundtrip; [done|]. by apply Forall_forall.
Qed.

(** ** Part maps *)

(** [DocPartJson], and the fields of a part map of the document: the byte count
    goes through an [i64]. *)
Record DocPart := mk_doc_part {
  dp_id : string;
  dp_kind : string;
  dp_text : option string;
  dp_call : option Value;
  dp_is_error : option bool;
  dp_questions : option Value;
  dp_resolved : option bool;
  dp_message : option string;
  dp_output : option string;
  dp_diff : option Value;
  dp_output_ref : option string;
  dp_output_bytes : option Z;
  dp_diff_ref : option string;
  dp_diff_stats : option Value;
  dp_subagent_ref : option string;
  dp_subagent_status : option string;
  dp_subagent_tail : option string;
}.

(** [u64 as i64]. *)
Definition as_i64_cast (n : N) : Z :=
  let z := Z.of_N n mod 2 ^ 64 in if z <? 2 ^ 63 then z else z - 2 ^ 64.

Definition subagent_str (s : SubagentStatus) : string :=
  match s with SubRunning => "running" | SubDone => "done" | SubFailed => "failed" end.

Definition subagent_of_str (s : string) : option SubagentStatus :=
  if String.eqb s "running" then Some SubRunning
  else if String.eqb s "done" then Some SubDone
  else if String.eqb s "failed" then Some SubFailed else None.

Definition stats_to_value (l : list ToolDiffStat) : Value := Array (stat_to_value <$> l).

Definition to_doc_part (p : MessagePart) : DocPart :=
  match p with
  | TextPart id text =>
      mk_doc_part id "text" (Some text) None None None None None None None None None None None None None None
  | Tool t =>
      mk_doc_part (tp_id t) "tool" None (Some (call_to_value (tp_call t)))
        (if tp_resolved t then Some (tp_is_error t) else None) None None None (tp_output t)
        (diff_to_value <$> tp_diff t) (tp_output_ref t) (as_i64_cast <$> tp_output_bytes t)
        (tp_diff_ref t) (stats_to_value <$> tp_diff_stats t) (tp_subagent_ref t)
        (subagent_str <$> tp_subagent_status t) (tp_subagent_tail t)
  | Input _ request_id questions resolved =>
      mk_doc_part request_id "input" None None None (Some (Array (question_to_value <$> questions)))
        (Some resolved) None None None None None None None None None None
  | ErrorPart id message =>
      mk_doc_part id "error" None None None None None (Some message) None None None None None None None None None
  end.

Definition from_doc_part (d : DocPart) : MessagePart :=
  if String.eqb (dp_kind d) "tool" then
    match dp_call d ≫= call_of_value with
    | Some call =>
        Tool (mk_tool_part (dp_id d) call (default false (dp_is_error d))
          (match dp_is_error d with Some _ => true | None => false end) (dp_output d)
          (dp_diff d ≫= diff_of_value) (dp_output_ref d) (Z.to_N <$> dp_output_bytes d) (dp_diff_ref d)
          (dp_diff_stats d ≫= de_array stat_of_value) (dp_subagent_ref d)
          (dp_subagent_status d ≫= subagent_of_str) (dp_subagent_tail d))
    | None => TextPart (dp_id d) ""
    end
  else if String.eqb (dp_kind d) "input" then
    Input (dp_id d) (dp_id d) (default [] (dp_questions d ≫= de_array question_of_value))
      (default false (dp_resolved d))
  else if String.eqb (dp_kind d) "error" then ErrorPart (dp_id d) (default "" (dp_message d))
  else TextPart (dp_id d) (default "" (dp_text d)).

(** The JSON of a part map, and its strict parse, where a byte count must be a
    [u64]. *)
Definition part_to_value (d : DocPart) : Value :=
  let any := fun v : Value => v in
  Object ([("id", Str (dp_id d)); ("kind", Str (dp_kind d))] ++
    opt_field "text" Str (dp_text d) ++ opt_field "call" any (dp_call d) ++
    opt_field "isError" Bool (dp_is_error d) ++ opt_field "questions" any (dp_questions d) ++
    opt_field "resolved" Bool (dp_resolved d) ++ opt_field "message" Str (dp_message d) ++
    opt_field "output" Str (dp_output d) ++ opt_field "diff" any (dp_diff d) ++
    opt_field "outputRef" Str (dp_output_ref d) ++ opt_field "outputBytes" Int (dp_output_bytes d) ++
    opt_field "diffRef" Str (dp_diff_ref d) ++ opt_field "diffStats" any (dp_diff_stats d) ++
    opt_field "subagentRef" Str (dp_subagent_ref d) ++
    opt_field "subagentStatus" Str (dp_subagent_status d) ++
    opt_field "subagentTail" Str (dp_subagent_tail d) ++ []).

Definition doc_part_of_value (v : Value) : option DocPart :=
  i ← field_req as_str v "id"; kind ← field_req as_str v "kind";
  text ← de_option as_str v "text"; call ← de_option Some v "call";
  is_error ← de_option as_boolean v "isError"; questions ← de_option Some v "questions";
  resolved ← de_option as_boolean v "resolved"; message ← de_option as_str v "message";
  output ← de_option as_str v "output"; diff ← de_option Some v "diff";
  output_ref ← de_option as_str v "outputRef"; bytes ← de_option as_u64 v "outputBytes";
  diff_ref ← de_option as_str v "diffRef"; stats ← de_option Some v "diffStats";
  sub_ref ← de_option as_str v "subagentRef"; sub_status ← de_option as_str v "subagentStatus";
  sub_tail ← de_option as_str v "subagentTail";
  Some (mk_doc_part i kind text call is_error questions resolved message output diff output_ref
          (Z.of_N <$> bytes) diff_ref stats sub_ref sub_status sub_tail).

(** What a part reads back as: an input is keyed by its request, and the error
    flag of an unresolved tool is not kept. *)
Definition read_back (p : MessagePart) : MessagePart :=
  match p with
  | Tool t =>
      Tool (mk_tool_part (tp_id t) (tp_call t) (tp_resolved t && tp_is_error t) (tp_resolved t)
        (tp_output t) (tp_diff t) (tp_output_ref t) (tp_output_bytes t) (tp_diff_ref t)
        (tp_diff_stats t) (tp_subagent_ref t) (tp_subagent_status t) (tp_subagent_tail t))
  | Input _ rid questions resolved => Input rid rid questions resolved
  | _ => p
  end.

(** What fits the document's JSON: no null behind an [Option], and counts
    within its integers. *)
Definition part_fits (p : MessagePart) : Prop :=
  match p with
  | Tool t =>
      plain_input (tp_call t) /\
      match tp_output_bytes t with Some n => (Z.of_N n <= I64_MAX)%Z | None => True end /\
      match tp_diff_stats t with Some l => Forall stat_fits l | None => True end
  | _ => True
  end.

Lemma as_i64_cast_small n : Z.of_N n <= I64_MAX -> as_i64_cast n = Z.of_N n.
Proof.
  intros H. unfold as_i64_cast, I64_MAX in *. rewrite Z.mod_small by lia.
  by rewrite (proj2 (Z.ltb_lt _ _)) by lia.
Qed.

Lemma part_roundtrip p : part_fits p -> from_doc_part (to_doc_part p) = read_back p.
Proof.
  destruct p as [id text|t|id rid questions resolved|id message]; try done.
  - intros (Hc & Hb & Hs). unfold from_doc_part, to_doc_part.
    cbn [dp_output_bytes dp_kind dp_call dp_id dp_is_error dp_output dp_diff dp_output_ref dp_diff_ref
         dp_diff_stats dp_subagent_ref dp_subagent_status dp_subagent_tail mbind option_bind].
    rewrite call_roundtrip by done. cbn [String.eqb Ascii.eqb Bool.eqb]. f_equal.
    destruct t as [i c e r o d oref ob dref st sref sst tail]; cbn -[as_i64_cast] in *. unfold read_back.
    do 2 f_equal.
    + by destruct r.
    + by destruct r.
    + destruct d as [d|]; [|done]. exact (diff_roundtrip d).
    + destruct ob as [n|]; [|done]. cbn -[as_i64_cast]. by rewrite as_i64_cast_small, N2Z.id.
    + destruct st as [l|]; [|done]. apply (mapM_roundtrip stat_to_value stat_of_value l).
      eapply Forall_impl; [exact Hs|]. apply stat_roundtrip.
    + by destruct sst as [[]|].
  - intros _. unfold from_doc_part, to_doc_part, read_back. cbn.
    rewrite mapM_roundtrip; [done|]. apply Forall_forall. intros q _. apply question_roundtrip.
Qed.

(** A part map whose JSON reads back: no null value, and a byte count of a
    [u64]. *)
Record doc_part_plain (d : DocPart) : Prop := {
  pl_call : dp_call d <> Some Null;
  pl_questions : dp_questions d <> Some Null;
  pl_diff : dp_diff d <> Some Null;
  pl_stats : dp_diff_stats d <> Some Null;
  pl_bytes : match dp_output_bytes d with Some z => 0 <= z <= U64_MAX | None => True end;
}.

Lemma assoc_other {A} k k' (f : A -> Value) x l :
  String.eqb k' k = false -> assoc_get k (opt_field k' f x ++ l) = assoc_get k l.
Proof. destruct x; cbn; [by intros -> |done]. Qed.

Lemma assoc_same {A} k (f : A -> Value) x l :
  assoc_get k l = None -> assoc_get k (opt_field k f x ++ l) = f <$> x.
Proof. destruct x; cbn; [by rewrite String.eqb_refl|done]. Qed.

Lemma de_option_field {A} (f : A -> Value) (g : Value -> option A) l k x :
  assoc_get k l = f <$> x -> (forall y, x = Some y -> f y <> Null /\ g (f y) = Some y) ->
  de_option g (Object l) k = Some x.
Proof.
  intros H Hx. unfold de_option. cbn [obj_get]. rewrite H. destruct x as [y|]; [|done].
  destruct (Hx y eq_refl) as [Hn Hy]. cbn. rewrite Hy. by destruct (f y).
Qed.

(** Looks a literal key up in a list of optional fields that ends in [++ []]. *)
Ltac look_up_other := repeat (rewrite assoc_other by reflexivity); reflexivity.
Ltac look_up_field :=
  cbn [app assoc_get String.eqb Ascii.eqb Bool.eqb];
  repeat (rewrite assoc_other by reflexivity); apply assoc_same; look_up_other.

Lemma part_value_roundtrip d : doc_part_plain d -> doc_part_of_value (part_to_value d) = Some d.
Proof.
  intros [Hc Hq Hdf Hst Hb]. unfold doc_part_of_value, part_to_value, field_req.
  cbn [obj_get app assoc_get String.eqb Ascii.eqb Bool.eqb mbind option_bind as_str].
  rewrite (de_option_field Str as_str _ "text" (dp_text d)), (de_option_field (fun v => v) Some _ "call" (dp_call d)),
    (de_option_field Bool as_boolean _ "isError" (dp_is_error d)), (de_option_field (fun v => v) Some _ "questions" (dp_questions d)),
    (de_option_field Bool as_boolean _ "resolved" (dp_resolved d)), (de_option_field Str as_str _ "message" (dp_message d)),
    (de_option_field Str as_str _ "output" (dp_output d)), (de_option_field (fun v => v) Some _ "diff" (dp_diff d)),
    (de_option_field Str as_str _ "outputRef" (dp_output_ref d)),
    (de_option_field (fun n => Int (Z.of_N n)) as_u64 _ "outputBytes" (Z.to_N <$> dp_output_bytes d)),
    (de_option_field Str as_str _ "diffRef" (dp_diff_ref d)), (de_option_field (fun v => v) Some _ "diffStats" (dp_diff_stats d)),
    (de_option_field Str as_str _ "subagentRef" (dp_subagent_ref d)), (de_option_field Str as_str _ "subagentStatus" (dp_subagent_status d)),
    (de_option_field Str as_str _ "subagentTail" (dp_subagent_tail d));
    try look_up_field; try (intros y H; split; (congruence || reflexivity)).
  - cbn [mbind option_bind]. destruct d as [? ? ? ? ? ? ? ? ? ? ? [z|] ? ? ? ? ?]; [|done].
    cbn. by rewrite Z2N.id by (cbn in Hb; lia).
  - transitivity (Int <$> dp_output_bytes d); [look_up_field|].
    destruct (dp_output_bytes d) as [z|]; [|done]. cbn. by rewrite Z2N.id by lia.
  - intros n H. split; [done|]. apply as_u64_of_N. destruct (dp_output_bytes d) as [z|]; [|done].
    injection H as <-. lia.
Qed.

(** ** The message list *)

(** One entry map of the [messages] list. *)
Record EntryMap := mk_entry_map {
  em_id : string;
  em_role : MessageRole;
  em_parts : list DocPart;
  em_created_at : Z;
  em_device_id : string;
  em_status : option MessageStatus;
  em_continuation_of : option string;
}.

Definition set_em_parts (e : EntryMap) (parts : list DocPart) : EntryMap :=
  mk_entry_map (em_id e) (em_role e) parts (em_created_at e) (em_device_id e) (em_status e)
    (em_continuation_of e).
Definition set_em_status (e : EntryMap) (st : MessageStatus) : EntryMap :=
  mk_entry_map (em_id e) (em_role e) (em_parts e) (em_created_at e) (em_device_id e) (Some st)
    (em_continuation_of e).

Definition push_message (doc : list EntryMap) (e : SessionMessageEntry) : list EntryMap :=
  doc ++ [mk_entry_map (me_id e) (me_role e) (to_doc_part <$> me_parts e) (me_created_at e)
            (me_device_id e) (me_status e) (me_continuation_of e)].

(** The first entry with the id is changed by [f]; [None] when there is none. *)
Fixpoint at_entry (id : string) (f : EntryMap -> EntryMap) (doc : list EntryMap)
    : option (list EntryMap) :=
  match doc with
  | [] => None
  | e :: doc => if String.eqb (em_id e) id then Some (f e :: doc) else cons e <$> at_entry id f doc
  end.

Definition set_message_status (doc : list EntryMap) (message_id : string) (st : MessageStatus)
    : bool * list EntryMap :=
  match at_entry message_id (fun e => set_em_status e st) doc with
  | Some doc => (true, doc)
  | None => (false, doc)
  end.

Definition append_error_part (doc : list EntryMap) (message_id part_id message : string)
    : bool * list EntryMap :=
  let f e := if existsb (fun p => String.eqb (dp_id p) part_id) (em_parts e) then e
             else set_em_parts e (em_parts e ++ [to_doc_part (ErrorPart part_id message)]) in
  match at_entry message_id f doc with
  | Some doc => (true, doc)
  | None => (false, doc)
  end.

(** The first part that [test] accepts is changed by [f]. *)
Fixpoint at_part (test : DocPart -> bool) (f : DocPart -> DocPart) (parts : list DocPart)
    : option (list DocPart) :=
  match parts with
  | [] => None
  | p :: parts => if test p then Some (f p :: parts) else cons p <$> at_part test f parts
  end.

Fixpoint at_any_entry (test : DocPart -> bool) (f : DocPart -> DocPart) (doc : list EntryMap)
    : option (list EntryMap) :=
  match doc with
  | [] => None
  | e :: doc =>
      match at_part test f (em_parts e) with
      | Some parts => Some (set_em_parts e parts :: doc)
      | None => cons e <$> at_any_entry test f doc
      end
  end.

Definition set_dp_resolved (d : DocPart) : DocPart :=
  mk_doc_part (dp_id d) (dp_kind d) (dp_text d) (dp_call d) (dp_is_error d) (dp_questions d) (Some true)
    (dp_message d) (dp_output d) (dp_diff d) (dp_output_ref d) (dp_output_bytes d) (dp_diff_ref d)
    (dp_diff_stats d) (dp_subagent_ref d) (dp_subagent_status d) (dp_subagent_tail d).

Definition is_part (kind id : string) (d : DocPart) : bool :=
  String.eqb (dp_kind d) kind && String.eqb (dp_id d) id.

Definition resolve_input_part (doc : list EntryMap) (request_id : string) : bool * list EntryMap :=
  match at_any_entry (is_part "input" request_id) set_dp_resolved doc with
  | Some doc => (true, doc)
  | None => (false, doc)
  end.

Definition or_else {A} (x y : option A) : option A := match x with Some _ => x | None => y end.

Definition set_dp_subagent (r s t : option string) (d : DocPart) : DocPart :=
  mk_doc_part (dp_id d) (dp_kind d) (dp_text d) (dp_call d) (dp_is_error d) (dp_questions d)
    (dp_resolved d) (dp_message d) (dp_output d) (dp_diff d) (dp_output_ref d) (dp_output_bytes d)
    (dp_diff_ref d) (dp_diff_stats d) (or_else r (dp_subagent_ref d)) (or_else s (dp_subagent_status d))
    (or_else t (dp_subagent_tail d)).

(** [update_subagent_chip]: searched from the newest entry back. *)
Definition update_subagent_chip (doc : list EntryMap) (part_id : string) (r s t : option string)
    : bool * list EntryMap :=
  match at_any_entry (is_part "tool" part_id) (set_dp_subagent r s t) (rev doc) with
  | Some doc => (true, rev doc)
  | None => (false, doc)
  end.

(** *** Reading entries *)

Definition role_str (r : MessageRole) : string :=
  match r with User => "user" | Assistant => "assistant" | System => "system" end.

Definition role_of_value (v : Value) : option MessageRole :=
  s ← as_str v;
  if String.eqb s "user" then Some User else if String.eqb s "assistant" then Some Assistant
  else if String.eqb s "system" then Some System else None.

Definition status_str (s : MessageStatus) : string :=
  match s with Streaming => "streaming" | Complete => "complete" | Aborted => "aborted" end.

Definition status_of_value (v : Value) : option MessageStatus :=
  s ← as_str v;
  if String.eqb s "streaming" then Some Streaming else if String.eqb s "complete" then Some Complete
  else if String.eqb s "aborted" then Some Aborted else None.

(** The deep value of an entry map. *)
Definition entry_to_value (e : EntryMap) : Value :=
  Object ([("id", Str (em_id e)); ("role", Str (role_str (em_role e)));
           ("createdAt", Int (em_created_at e)); ("deviceId", Str (em_device_id e));
           ("parts", Array (part_to_value <$> em_parts e))] ++
    opt_field "status" (fun s => Str (status_str s)) (em_status e) ++
    opt_field "continuationOf" Str (em_continuation_of e) ++ []).

Section Reading.
(** The hex digits of [DefaultHasher] over an entry's text. *)
Context (stable_hash : Value -> string).

(** [serde_json::from_value::<RawEntry>]. *)
Definition strict_entry (v : Value) : option SessionMessageEntry :=
  i ← field_req as_str v "id"; role ← field_req role_of_value v "role";
  parts ← field_default (de_array doc_part_of_value) [] v "parts";
  created ← field_req as_i64 v "createdAt"; device ← field_req as_str v "deviceId";
  status ← de_option status_of_value v "status"; cont ← de_option as_str v "continuationOf";
  Some (mk_entry i role (from_doc_part <$> parts) created device status cont).

Definition salvage_part (part : Value) (entry_id : string) (ix : nat) : option MessagePart :=
  match part with
  | Object _ =>
      let id := default (entry_id ++ "#recovered-" ++ pretty ix)%string (obj_get part "id" ≫= as_str) in
      match obj_get part "text" ≫= as_str with
      | Some text => Some (TextPart id text)
      | None =>
          match obj_get part "call" ≫= call_of_value with
          | Some call =>
              Some (Tool (mk_tool_part id call (default false (obj_get part "isError" ≫= as_boolean))
                (default true (obj_get part "resolved" ≫= as_boolean)) (obj_get part "output" ≫= as_str)
                None None None None None None None None))
          | None => ErrorPart id <$> (obj_get part "message" ≫= as_str)
          end
      end
  | _ => None
  end.

(** One part of a salvaged entry. *)
Definition read_part (part : Value) (entry_id : string) (ix : nat) : option MessagePart :=
  match doc_part_of_value part with
  | Some d => Some (from_doc_part d)
  | None => salvage_part part entry_id ix
  end.

Fixpoint read_parts (entry_id : string) (ix : nat) (parts : list Value) : list MessagePart :=
  match parts with
  | [] => []
  | part :: parts =>
      match read_part part entry_id ix with
      | Some p => p :: read_parts entry_id (S ix) parts
      | None => read_parts entry_id (S ix) parts
      end
  end.

Definition salvage_entry (v : Value) : option SessionMessageEntry :=
  match v with
  | Object _ =>
      let id := default ("recovered-" ++ stable_hash v)%string (obj_get v "id" ≫= as_str) in
      let parts := match obj_get v "parts" with Some (Array l) => read_parts id 0 l | _ => [] end in
      Some (mk_entry id (default Assistant (obj_get v "role" ≫= role_of_value)) parts
              (default 0 (obj_get v "createdAt" ≫= as_i64))
              (default "" (obj_get v "deviceId" ≫= as_str)) (obj_get v "status" ≫= status_of_value)
              (obj_get v "continuationOf" ≫= as_str))
  | _ => None
  end.

Definition entry_from_json (v : Value) : option SessionMessageEntry :=
  match strict_entry v with Some e => Some e | None => salvage_entry v end.

(** [read_entries]: of the deep value of the list. *)
Definition read_values (l : list Value) : list SessionMessageEntry := omap entry_from_json l.
Definition read_entries (doc : list EntryMap) : list SessionMessageEntry :=
  read_values (entry_to_value <$> doc).

Lemma de_option_loose {A} (f : Value -> option A) v k x :
  f Null = None -> de_option f v k = Some x -> obj_get v k ≫= f = x.
Proof.
  intros Hn. unfold de_option.
  destruct (obj_get v k) as [[]|]; cbn; try (intros [= <-]; done);
    try (intros (y & -> & [= <-])%fmap_Some; done).
Qed.

Lemma read_parts_strict i ix ps ds :
  mapM doc_part_of_value ps = Some ds -> read_parts i ix ps = from_doc_part <$> ds.
Proof.
  revert ix ds. induction ps as [|p ps IH]; intros ix ds; cbn; [by intros [= <-]|].
  unfold read_part. destruct (doc_part_of_value p) as [d|]; [|done]. cbn.
  destruct (mapM doc_part_of_value ps) as [ds'|]; [|done]. cbn. intros [= <-]. by rewrite (IH _ ds').
Qed.

(** The strict parse only ever gives what the salvage would. *)
Lemma strict_is_salvage v e : strict_entry v = Some e -> salvage_entry v = Some e.
Proof.
  unfold strict_entry. intros (i & Hi & (role & Hr & (parts & Hp & (created & Hc & (device & Hd &
    (status & Hs & (cont & Hk & [= <-])%bind_Some)%bind_Some)%bind_Some)%bind_Some)%bind_Some)%bind_Some)%bind_Some.
  unfold field_req, field_default in *. apply de_option_loose in Hs; [|done]. apply de_option_loose in Hk; [|done].
  destruct v as [| | | | | |l]; try done. unfold salvage_entry. rewrite Hi, Hr, Hc, Hd, Hs, Hk. cbn [default].
  do 3 f_equal. destruct (obj_get (Object l) "parts") as [[| | | | |ps|]|]; cbn in Hp; try done;
    [|by injection Hp as <-]. by apply read_parts_strict.
Qed.

(** Reading an object is salvaging it. *)
Lemma entry_from_json_salvage v : entry_from_json v = salvage_entry v.
Proof.
  unfold entry_from_json. destruct (strict_entry v) as [e|] eqn:E; [|done].
  symmetry. by apply strict_is_salvage.
Qed.

(** *** What a read keeps *)

Lemma read_parts_app i ix a b :
  read_parts i ix (a ++ b) = read_parts i ix a ++ read_parts i (ix + length a) b.
Proof.
  revert ix. induction a as [|x a IH]; intros ix; cbn [app read_parts length].
  - by rewrite Nat.add_0_r.
  - rewrite IH, Nat.add_succ_comm. by destruct (read_part x i ix).
Qed.

(** A part that parses, or that carries a text, is kept. *)
Lemma read_part_total pv i ix :
  doc_part_of_value pv <> None \/ (obj_get pv "text" ≫= as_str) <> None -> read_part pv i ix <> None.
Proof.
  unfold read_part. destruct (doc_part_of_value pv); [done|]. intros [H|H]; [done|].
  destruct pv; try done. cbn [salvage_part]. by destruct (obj_get _ "text" ≫= as_str).
Qed.

(** C16. Damage to an entry is local: whatever one key of an entry object other
    than its id is changed to, or when it is removed, both objects read as
    entries with the same id, and every field that comes from another key is
    the same, even where the strict parse accepts one and rejects the other; and
    a change of one element of the parts array leaves all its other parts. *)
Theorem damage_is_local l l' k i :
  k <> "id" -> assoc_get "id" l = Some (Str i) ->
  (forall k', k' <> k -> assoc_get k' l' = assoc_get k' l) ->
  exists e e', entry_from_json (Object l) = Some e /\ entry_from_json (Object l') = Some e' /\
    me_id e = i /\ me_id e' = i /\
    (k <> "role" -> me_role e' = me_role e) /\ (k <> "parts" -> me_parts e' = me_parts e) /\
    (k <> "createdAt" -> me_created_at e' = me_created_at e) /\
    (k <> "deviceId" -> me_device_id e' = me_device_id e) /\
    (k <> "status" -> me_status e' = me_status e) /\
    (k <> "continuationOf" -> me_continuation_of e' = me_continuation_of e) /\
    (forall a x y b,
       assoc_get "parts" l = Some (Array (a ++ x :: b)) -> assoc_get "parts" l' = Some (Array (a ++ y :: b)) ->
       exists pre post,
         me_parts e = pre ++ option_list (read_part x i (length a)) ++ post /\
         me_parts e' = pre ++ option_list (read_part y i (length a)) ++ post).
Proof.
  intros Hk Hi Hl. rewrite !entry_from_json_salvage. unfold salvage_entry. cbn [obj_get].
  assert (assoc_get "id" l' = Some (Str i)) as Hi' by (by rewrite Hl).
  rewrite Hi, Hi'. cbn [mbind option_bind as_str default].
  eexists _, _. split; [reflexivity|]. split; [reflexivity|].
  cbn [me_id me_role me_parts me_created_at me_device_id me_status me_continuation_of].
  split_and!; try done; try (intros; by rewrite Hl).
  intros a x y b -> ->. exists (read_parts i 0 a), (read_parts i (S (length a)) b).
  change (id i) with i. rewrite !read_parts_app. cbn [read_parts Nat.add].
  by destruct (read_part x i (length a)), (read_part y i (length a)).
Qed.

Lemma role_roundtrip r : role_of_value (Str (role_str r)) = Some r.
Proof. by destruct r. Qed.

Lemma to_doc_part_plain p : part_fits p -> doc_part_plain (to_doc_part p).
Proof.
  destruct p as [|t| |]; cbn [part_fits]; [by split|intros (Hc & Hb & Hs)|by split|by split].
  split; cbn -[as_i64_cast]; try done; try (by destruct (tp_diff t)); try (by destruct (tp_diff_stats t)).
  destruct (tp_output_bytes t) as [n|]; [|done]. cbn -[as_i64_cast].
  rewrite as_i64_cast_small by done. unfold I64_MAX, U64_MAX in *. lia.
Qed.

(** What an entry map reads as. *)
Lemma entry_map_reads e :
  Forall doc_part_plain (em_parts e) -> I64_MIN <= em_created_at e <= I64_MAX ->
  entry_from_json (entry_to_value e) =
    Some (mk_entry (em_id e) (em_role e) (from_doc_part <$> em_parts e) (em_created_at e)
            (em_device_id e) (em_status e) (em_continuation_of e)).
Proof.
  intros Hp Hc. unfold entry_from_json.
  assert (strict_entry (entry_to_value e) = Some (mk_entry (em_id e) (em_role e)
    (from_doc_part <$> em_parts e) (em_created_at e) (em_device_id e) (em_status e)
    (em_continuation_of e))) as ->; [|done].
  unfold strict_entry, entry_to_value, field_req, field_default.
  cbn [obj_get app assoc_get String.eqb Ascii.eqb Bool.eqb mbind option_bind as_str de_array].
  rewrite role_roundtrip, mapM_roundtrip.
  2: { eapply Forall_impl; [exact Hp|]. apply part_value_roundtrip. }
  cbn [mbind option_bind as_i64]. rewrite (proj2 (andb_true_iff _ _)) by (rewrite !Z.leb_le; lia).
  cbn [mbind option_bind].
  rewrite (de_option_field (fun s => Str (status_str s)) _ _ "status" (em_status e)),
    (de_option_field Str as_str _ "continuationOf" (em_continuation_of e)); [done|..];
    try look_up_field.
  - done.
  - intros [] _; done.
Qed.

(** A pushed entry is the last one read, with its parts read back. *)
Lemma push_reads_back doc e :
  Forall part_fits (me_parts e) -> I64_MIN <= me_created_at e <= I64_MAX ->
  read_entries (push_message doc e) = read_entries doc ++ [set_parts e (read_back <$> me_parts e)].
Proof.
  intros Hp Hc. unfold read_entries, read_values, push_message. rewrite fmap_app, omap_app. f_equal.
  cbn [fmap list_fmap omap list_omap]. rewrite entry_map_reads; cbn [em_parts em_created_at]; try done.
  - cbn -[fmap]. unfold set_parts. do 2 f_equal. clear Hc.
    induction Hp as [|p ps Hp _ IH]; [done|]. rewrite !fmap_cons, part_roundtrip by done. by f_equal.
  - rewrite Forall_fmap. eapply Forall_impl; [exact Hp|]. apply to_doc_part_plain.
Qed.
End Reading.

(** *** Continuations and the tail *)

(** The loop of [join_continuation_entries]: the entries so far and the index
    of the last root of each id. *)
Definition join_one (st : list SessionMessageEntry * gmap string nat) (e : SessionMessageEntry)
    : list SessionMessageEntry * gmap string nat :=
  let '(out, roots) := st in
  match me_continuation_of e with
  | Some root =>
      match roots !! root with
      | Some at_ => (alter (fun r => set_parts r (me_parts r ++ me_parts e)) at_ out, roots)
      | None => (out ++ [e], roots)
      end
  | None => (out ++ [e], <[me_id e := length out]> roots)
  end.

Definition join_continuation_entries (entries : list SessionMessageEntry) : list SessionMessageEntry :=
  if existsb (fun e => match me_continuation_of e with Some _ => true | None => false end) entries
  then (foldl join_one ([], ∅) entries).1 else entries.

Definition TAIL_MESSAGE_COUNT : nat := 64.

(** [materialize_tail]: the joined messages it keeps and their total. *)
Definition materialize_tail (entries : list SessionMessageEntry) (tail_count : nat)
    : list SessionMessageEntry * nat :=
  let all := join_continuation_entries entries in
  let n := if (tail_count =? 0)%nat then TAIL_MESSAGE_COUNT else tail_count in
  (drop (length all - n) all, length all).

(** ** Continuations *)

Lemma join_continuations_of root conts pre (roots : gmap string nat) :
  Forall (fun c => me_continuation_of c = Some (me_id root)) conts ->
  roots !! me_id root = Some (length pre) ->
  foldl join_one (pre ++ [root], roots) conts =
    (pre ++ [set_parts root (me_parts root ++ concat (me_parts <$> conts))], roots).
Proof.
  revert root. induction conts as [|c conts IH]; intros root Hc Hr.
  - cbn. rewrite app_nil_r. by destruct root.
  - apply Forall_cons in Hc as [Hc1 Hc]. cbn [foldl join_one]. rewrite Hc1, Hr.
    assert (alter (fun r => set_parts r (me_parts r ++ me_parts c)) (length pre) (pre ++ [root]) =
            pre ++ [set_parts root (me_parts root ++ me_parts c)]) as ->.
    { rewrite alter_app_r_alt by lia. by rewrite Nat.sub_diag. }
    rewrite (IH (set_parts root (me_parts root ++ me_parts c))) by done.
    destruct root. cbn. by rewrite <- app_assoc.
Qed.

(** A split message joins back into one entry with all its parts. *)
Lemma join_split root conts :
  me_continuation_of root = None ->
  Forall (fun c => me_continuation_of c = Some (me_id root)) conts ->
  join_continuation_entries (root :: conts) =
    [set_parts root (join_continuations (me_parts <$> root :: conts))].
Proof.
  intros Hroot Hc. unfold join_continuation_entries, join_continuations.
  destruct conts as [|c conts].
  - cbn. rewrite Hroot, app_nil_r. by destruct root.
  - assert (existsb (fun e => match me_continuation_of e with Some _ => true | None => false end)
              (root :: c :: conts) = true) as ->.
    { apply existsb_exists. exists c. split; [right; by left|]. apply Forall_cons in Hc as [-> _]. done. }
    cbn [foldl]. cbn [join_one]. rewrite Hroot. cbn [app length].
    pose proof (join_continuations_of root (c :: conts) [] (<[me_id root := 0%nat]> ∅) Hc
      (lookup_insert_eq _ _ _)) as H.
    cbn [app foldl] in H. cbn [foldl]. by rewrite H.
Qed.

(** Recovery may stamp its error twice: the second time changes nothing. *)
Lemma append_error_part_idempotent doc mid pid msg :
  let doc' := (append_error_part doc mid pid msg).2 in append_error_part doc' mid pid msg =
    ((append_error_part doc mid pid msg).1, doc').
Proof.
  unfold append_error_part.
  set (f e := if existsb (fun p => String.eqb (dp_id p) pid) (em_parts e) then e
              else set_em_parts e (em_parts e ++ [to_doc_part (ErrorPart pid msg)])).
  assert (forall e, f (f e) = f e) as Hf.
  { intros e. unfold f at 2 3. destruct (existsb _ (em_parts e)) eqn:E; [unfold f; by rewrite E|].
    unfold f. cbn [em_parts set_em_parts]. rewrite existsb_app. cbn. by rewrite String.eqb_refl, orb_true_r. }
  assert (forall e, em_id (f e) = em_id e) as Hid by (intros e; unfold f; by case_match).
  assert (forall d, match at_entry mid f d with
                    | Some d' => at_entry mid f d' = Some d' | None => True end) as H.
  { induction d as [|e d IH]; [done|]. cbn [at_entry].
    destruct (String.eqb (em_id e) mid) eqn:E; [cbn [at_entry]; by rewrite Hid, E, Hf|].
    destruct (at_entry mid f d) as [d'|]; [|done]. cbn. by rewrite E, IH. }
  specialize (H doc). destruct (at_entry mid f doc) as [d'|] eqn:E; cbn [snd fst]; [by rewrite H|by rewrite E].
Qed.

(** ** Witnesses *)

Definition sample_part (kind : Value) : Value :=
  Object [("id", Str "p1"); ("kind", kind); ("text", Str "still readable")].

Definition sample_entry (kind : Value) : list (string * Value) :=
  [("id", Str "m1"); ("role", Str "assistant"); ("createdAt", Int 123); ("deviceId", Str "d");
   ("parts", Array [sample_part kind; Str "opaque"; Object [("id", Str "p3"); ("kind", Str "text")]])].

Lemma damage_is_local_witness :
  exists e e', entry_from_json (fun _ => "00") (Object (sample_entry (Str "text"))) = Some e /\
    entry_from_json (fun _ => "00") (Object (sample_entry Null)) = Some e' /\
    me_device_id e' = me_device_id e /\
    me_parts e' = [TextPart "p1" "still readable"; TextPart "p3" ""].
Proof.
  destruct (damage_is_local (fun _ => "00") (sample_entry (Str "text")) (sample_entry Null) "parts" "m1")
    as (e & e' & He & He' & _ & _ & _ & _ & _ & Hd & _).
  - discriminate.
  - reflexivity.
  - intros k Hk. unfold sample_entry. cbn [assoc_get].
    by rewrite (proj2 (String.eqb_neq "parts" k)) by congruence.
  - exists e, e'. split_and!; [exact He|exact He'|by apply Hd|].
    cut (me_parts <$> Some e' = Some [TextPart "p1" "still readable"; TextPart "p3" ""]).
    { by intros [= ->]. }
    rewrite <- He'. reflexivity.
Defined.
