(* ===== verification/Writer.v ===== *)
(** The incremental writer of a streaming entry: [SegmentWriter] of
    crates/doc/src/schema.rs. Diffing the folded parts of a segment into the
    document at every commit tick, and the growth of the fold the writer relies
    on. *)
From S2P Require Import Prelude Json Text Agent Parts Transcript SessionDoc.

(** ** The segment writer *)

Record SegmentWriter := mk_writer { sw_entry_index : nat; sw_written : list MessagePart }.

Definition begin (doc : list EntryMap) (entry_id device_id : string) (created_at : Z)
    : list EntryMap * SegmentWriter :=
  (doc ++ [mk_entry_map entry_id Assistant [] created_at device_id (Some Streaming) None],
   mk_writer (length doc) []).

(** [update_part_fields]: the fields the part has are written, others stay. *)
Definition update_part_fields (d : DocPart) (p : MessagePart) : DocPart :=
  let n := to_doc_part p in
  mk_doc_part (dp_id d) (dp_kind d)
    (match dp_text d, dp_text n with Some _, Some t => Some t | t, _ => t end)
    (or_else (dp_call n) (dp_call d)) (or_else (dp_is_error n) (dp_is_error d))
    (or_else (dp_questions n) (dp_questions d)) (or_else (dp_resolved n) (dp_resolved d))
    (or_else (dp_message n) (dp_message d)) (or_else (dp_output n) (dp_output d))
    (or_else (dp_diff n) (dp_diff d)) (or_else (dp_output_ref n) (dp_output_ref d))
    (or_else (dp_output_bytes n) (dp_output_bytes d)) (or_else (dp_diff_ref n) (dp_diff_ref d))
    (or_else (dp_diff_stats n) (dp_diff_stats d)) (or_else (dp_subagent_ref n) (dp_subagent_ref d))
    (or_else (dp_subagent_status n) (dp_subagent_status d))
    (or_else (dp_subagent_tail n) (dp_subagent_tail d)).

Definition set_dp_text (d : DocPart) (text : string) : DocPart :=
  mk_doc_part (dp_id d) (dp_kind d) (Some text) (dp_call d) (dp_is_error d) (dp_questions d)
    (dp_resolved d) (dp_message d) (dp_output d) (dp_diff d) (dp_output_ref d) (dp_output_bytes d)
    (dp_diff_ref d) (dp_diff_stats d) (dp_subagent_ref d) (dp_subagent_status d) (dp_subagent_tail d).

(** One changed part: [None] is a schema error. The writes a failing [sync] did
    before its error are not modelled; [streamed_entry] shows there is none. *)
Definition sync_changed (parts : list DocPart) (i : nat) (prev part : MessagePart)
    : option (list DocPart) :=
  let update := d ← parts !! i; Some (<[i := update_part_fields d part]> parts) in
  match prev, part with
  | TextPart _ old, TextPart _ new =>
      match strip_prefix old new with
      | Some delta =>
          if String.eqb delta "" then Some parts
          else d ← parts !! i; text ← dp_text d; Some (<[i := set_dp_text d (text ++ delta)]> parts)
      | None => update
      end
  | _, _ => update
  end.

(** The loop of [sync] from part [i] on: the mirror and the document's parts. *)
Fixpoint sync_loop (i : nat) (folded written : list MessagePart) (parts : list DocPart)
    : option (list MessagePart * list DocPart) :=
  match folded with
  | [] => Some (written, parts)
  | part :: folded =>
      match written !! i with
      | None => sync_loop (S i) folded (written ++ [part]) (parts ++ [to_doc_part part])
      | Some prev =>
          if decide (prev = part) then sync_loop (S i) folded written parts
          else parts ← sync_changed parts i prev part; sync_loop (S i) folded (<[i := part]> written) parts
      end
  end.

Definition sync (doc : list EntryMap) (w : SegmentWriter) (folded : list MessagePart)
    : option (list EntryMap * SegmentWriter) :=
  e ← doc !! sw_entry_index w;
  '(written, parts) ← sync_loop 0 folded (sw_written w) (em_parts e);
  Some (<[sw_entry_index w := set_em_parts e parts]> doc, mk_writer (sw_entry_index w) written).

Definition finish (doc : list EntryMap) (w : SegmentWriter) (folded : list MessagePart)
    (st : MessageStatus) : option (list EntryMap) :=
  '(doc, w) ← sync doc w folded;
  e ← doc !! sw_entry_index w;
  Some (<[sw_entry_index w := set_em_status e st]> doc).

(** ** Growth *)

Definition stays {A} (x y : option A) : Prop := x <> None -> y <> None.

(** The optional fields of a tool part: none is cleared. *)
Record tool_grows (t t' : ToolPart) : Prop := {
  tg_id : tp_id t' = tp_id t;
  tg_resolved : tp_resolved t = true -> tp_resolved t' = true;
  tg_output : stays (tp_output t) (tp_output t');
  tg_diff : stays (tp_diff t) (tp_diff t');
  tg_output_ref : stays (tp_output_ref t) (tp_output_ref t');
  tg_output_bytes : stays (tp_output_bytes t) (tp_output_bytes t');
  tg_diff_ref : stays (tp_diff_ref t) (tp_diff_ref t');
  tg_diff_stats : stays (tp_diff_stats t) (tp_diff_stats t');
  tg_subagent_ref : stays (tp_subagent_ref t) (tp_subagent_ref t');
  tg_subagent_status : stays (tp_subagent_status t) (tp_subagent_status t');
  tg_subagent_tail : stays (tp_subagent_tail t) (tp_subagent_tail t');
}.

Definition part_grows (p q : MessagePart) : Prop :=
  match p, q with
  | TextPart i x, TextPart j y => j = i /\ exists d, y = (x ++ d)%string
  | Tool t, Tool t' => tool_grows t t'
  | Input i r _ _, Input j s _ _ => j = i /\ s = r
  | ErrorPart i m, ErrorPart j n => j = i
  | _, _ => False
  end.

(** A folded state that a later one extends. *)
Definition grows (p q : list MessagePart) : Prop :=
  exists q1 q2, q = q1 ++ q2 /\ Forall2 part_grows p q1.

#[export] Instance tool_grows_pre : PreOrder tool_grows.
Proof.
  split; [intros t; split; unfold stays; auto|].
  intros t1 t2 t3 [] []. unfold stays in *. split; unfold stays; auto; congruence.
Qed.

#[export] Instance part_grows_pre : PreOrder part_grows.
Proof.
  split.
  - intros [i x|t|i r q s|i m]; cbn; [|reflexivity|done|done].
    split; [done|]. exists "". by rewrite string_app_nil_r.
  - intros [i x|t1| |] [j y|t2| |] [k z|t3| |]; cbn; try done.
    + intros [-> [d ->]] [-> [d' ->]]. split; [done|]. exists (d ++ d')%string. by rewrite string_app_assoc.
    + apply transitivity.
    + by intros [-> ->] [-> ->].
    + by intros -> ->.
Qed.

Lemma parts_grow_refl p : Forall2 part_grows p p.
Proof. induction p as [|x p IH]; constructor; [reflexivity|exact IH]. Qed.

Lemma grows_of_Forall2 p q : Forall2 part_grows p q -> grows p q.
Proof. exists q, []. by rewrite app_nil_r. Qed.

Lemma grows_push p x : grows p (p ++ [x]).
Proof. exists p, [x]. split; [done|apply parts_grow_refl]. Qed.

#[export] Instance grows_pre : PreOrder grows.
Proof.
  split.
  - intros p. apply grows_of_Forall2, parts_grow_refl.
  - intros p q r (q1 & q2 & -> & Hpq) (r1 & r2 & -> & Hqr).
    apply Forall2_app_inv_l in Hqr as (r11 & r12 & H1 & _ & ->).
    exists r11, (r12 ++ r2). rewrite <- app_assoc. split; [done|].
    clear -Hpq H1. revert r11 H1. induction Hpq as [|x y p q Hxy _ IH]; intros r11 H1;
      inversion H1; subst; constructor; [by transitivity y|by apply IH].
Qed.

(** *** The writer follows growth *)

Lemma or_else_stays {A B} (f : A -> B) (x y : option A) :
  stays x y -> or_else (f <$> y) (f <$> x) = f <$> y.
Proof. destruct x, y; try done. intros H. by destruct H. Qed.

Lemma or_else_stays_id {A} (x y : option A) : stays x y -> or_else y x = y.
Proof. destruct x, y; try done. intros H. by destruct H. Qed.

Lemma update_tool t t' :
  tool_grows t t' -> update_part_fields (to_doc_part (Tool t)) (Tool t') = to_doc_part (Tool t').
Proof.
  intros []. unfold update_part_fields. cbn -[or_else fmap option_fmap].
  f_equal; try done; try (by apply or_else_stays); try (by apply or_else_stays_id).
  destruct (tp_resolved t); [by rewrite tg_resolved0|by destruct (tp_resolved t')].
Qed.

Lemma sync_changed_grows parts i p q :
  part_grows p q -> p <> q -> parts !! i = Some (to_doc_part p) ->
  sync_changed parts i p q = Some (<[i := to_doc_part q]> parts).
Proof.
  intros Hg Hne Hi.
  destruct p as [a x|t|a r qs s|a m], q as [b y|t'|b r' qs' s'|b m']; cbn in Hg; try done.
  - destruct Hg as [-> [d ->]]. cbn [sync_changed]. rewrite strip_prefix_app.
    destruct (String.eqb_spec d "") as [->|_]; [by rewrite string_app_nil_r in Hne|].
    rewrite Hi. done.
  - cbn [sync_changed]. rewrite Hi. cbn [mbind option_bind]. by rewrite update_tool.
  - destruct Hg as [-> ->]. cbn [sync_changed]. by rewrite Hi.
  - subst b. cbn [sync_changed]. by rewrite Hi.
Qed.

Lemma insert_middle {A} (l r : list A) x y : <[length l := y]> (l ++ x :: r) = l ++ y :: r.
Proof. rewrite insert_app_r_alt by lia. by rewrite Nat.sub_diag. Qed.

Lemma list_fmap_insert_middle {A B} (f : A -> B) (l r : list A) x y :
  <[length l := f y]> (f <$> l ++ x :: r) = f <$> l ++ y :: r.
Proof. rewrite !fmap_app, !fmap_cons, <- (length_fmap f l). apply insert_middle. Qed.

Lemma sync_loop_grows rest pre w r1 r2 :
  rest = r1 ++ r2 -> Forall2 part_grows w r1 ->
  sync_loop (length pre) rest (pre ++ w) (to_doc_part <$> (pre ++ w)) =
    Some (pre ++ rest, to_doc_part <$> (pre ++ rest)).
Proof.
  revert pre w r1 r2. induction rest as [|q rest IH]; intros pre w r1 r2 Hr Hw.
  - symmetry in Hr. apply app_eq_nil in Hr as [-> ->]. by inversion Hw; subst.
  - cbn [sync_loop]. destruct w as [|p w].
    + rewrite app_nil_r, lookup_ge_None_2 by lia.
      specialize (IH (pre ++ [q]) [] [] rest). rewrite app_nil_r, length_app, Nat.add_1_r in IH.
      change [to_doc_part q] with (to_doc_part <$> [q]).
      rewrite <- fmap_app, IH; [by rewrite <- app_assoc|done|constructor].
    + destruct r1 as [|q' r1]; [by inversion Hw|]. cbn in Hr. injection Hr as <- Hr.
      apply Forall2_cons in Hw as [Hpq Hw]. rewrite list_lookup_middle by done.
      assert (sync_loop (S (length pre)) rest (pre ++ q :: w) (to_doc_part <$> (pre ++ q :: w)) =
              Some (pre ++ q :: rest, to_doc_part <$> (pre ++ q :: rest))) as Hrec.
      { specialize (IH (pre ++ [q]) w r1 r2 Hr Hw). rewrite length_app, Nat.add_1_r, <- !app_assoc in IH.
        exact IH. }
      destruct (decide (p = q)) as [->|Hne]; [exact Hrec|].
      rewrite (sync_changed_grows _ _ p q Hpq Hne).
      * cbn [mbind option_bind]. rewrite list_fmap_insert_middle, insert_middle. exact Hrec.
      * by rewrite list_lookup_fmap, list_lookup_middle.
Qed.

(** ** Coverage

    What holds of the document's part whatever the fold did to it: every field
    the folded part has is there with its value. *)
Definition given {A} (x y : option A) : Prop := x <> None -> y = x.

Record doc_covers (n d : DocPart) : Prop := {
  cv_id : dp_id d = dp_id n;
  cv_kind : dp_kind d = dp_kind n;
  cv_text : dp_text d = dp_text n;
  cv_call : given (dp_call n) (dp_call d);
  cv_is_error : given (dp_is_error n) (dp_is_error d);
  cv_questions : given (dp_questions n) (dp_questions d);
  cv_resolved : given (dp_resolved n) (dp_resolved d);
  cv_message : given (dp_message n) (dp_message d);
  cv_output : given (dp_output n) (dp_output d);
  cv_diff : given (dp_diff n) (dp_diff d);
  cv_output_ref : given (dp_output_ref n) (dp_output_ref d);
  cv_output_bytes : given (dp_output_bytes n) (dp_output_bytes d);
  cv_diff_ref : given (dp_diff_ref n) (dp_diff_ref d);
  cv_diff_stats : given (dp_diff_stats n) (dp_diff_stats d);
  cv_subagent_ref : given (dp_subagent_ref n) (dp_subagent_ref d);
  cv_subagent_status : given (dp_subagent_status n) (dp_subagent_status d);
  cv_subagent_tail : given (dp_subagent_tail n) (dp_subagent_tail d);
}.

Definition covers (p : MessagePart) (d : DocPart) : Prop := doc_covers (to_doc_part p) d.

Lemma covers_refl p : covers p (to_doc_part p).
Proof. split; by intros. Qed.

Lemma given_or_else {A} (x y : option A) : given x (or_else x y).
Proof. destruct x; [done|]. intros H. by destruct H. Qed.

(** Parts of one shape differ only in what an update may write. *)
Lemma shape_doc_part p q :
  shape p = shape q ->
  dp_id (to_doc_part p) = dp_id (to_doc_part q) /\ dp_kind (to_doc_part p) = dp_kind (to_doc_part q) /\
  (dp_text (to_doc_part p) = None <-> dp_text (to_doc_part q) = None).
Proof. destruct p, q; cbn; intros H; try done; by simplify_eq. Qed.

Lemma update_covers p q d : covers p d -> shape p = shape q -> covers q (update_part_fields d q).
Proof.
  intros Hc Hs. destruct (shape_doc_part p q Hs) as (Hi & Hk & Ht).
  split; cbn [update_part_fields dp_id dp_kind dp_text dp_call dp_is_error dp_questions dp_resolved
              dp_message dp_output dp_diff dp_output_ref dp_output_bytes dp_diff_ref dp_diff_stats
              dp_subagent_ref dp_subagent_status dp_subagent_tail]; try apply given_or_else.
  - by rewrite (cv_id _ _ Hc).
  - by rewrite (cv_kind _ _ Hc).
  - rewrite (cv_text _ _ Hc).
    destruct (dp_text (to_doc_part p)), (dp_text (to_doc_part q)); try done.
    + destruct Ht as [_ Ht]. by specialize (Ht eq_refl).
    + destruct Ht as [Ht _]. by specialize (Ht eq_refl).
Qed.

Lemma text_covers i x d : covers (TextPart i x) d -> dp_text d = Some x.
Proof. intros Hc. exact (cv_text _ _ Hc). Qed.

(** No change between parts of one shape is a schema error. *)
Lemma sync_changed_covers parts i p q d :
  parts !! i = Some d -> covers p d -> shape p = shape q ->
  exists d', sync_changed parts i p q = Some (<[i := d']> parts) /\ covers q d'.
Proof.
  intros Hi Hc Hs. unfold sync_changed. rewrite Hi. cbn [mbind option_bind].
  pose proof (update_covers p q d Hc Hs) as Hu.
  destruct p as [a x|t|a r qs s|a m]; [|by eauto..].
  destruct q as [b y| | |]; cbn in Hs; try done. injection Hs as ->.
  destruct (strip_prefix x y) as [delta|] eqn:E; [|by eauto].
  apply strip_prefix_Some in E as ->.
  destruct (String.eqb_spec delta "") as [->|_].
  - exists d. rewrite list_insert_id by done. rewrite string_app_nil_r. done.
  - rewrite (text_covers _ _ _ Hc). cbn [mbind option_bind]. eexists. split; [done|].
    destruct Hc. split; cbn in *; done.
Qed.

Lemma sync_loop_covers rest pre w dpre ds :
  length dpre = length pre -> Forall2 covers w ds -> (shape <$> w) `prefix_of` (shape <$> rest) ->
  exists ds', sync_loop (length pre) rest (pre ++ w) (dpre ++ ds) = Some (pre ++ rest, dpre ++ ds') /\
    Forall2 covers rest ds'.
Proof.
  revert pre w dpre ds. induction rest as [|q rest IH]; intros pre w dpre ds Hl Hw Hp.
  - destruct w; [|by destruct Hp as [? [=]]]. inversion Hw; subst. by exists [].
  - cbn [sync_loop]. destruct Hw as [|p d w ds Hpd Hw].
    + rewrite !app_nil_r, lookup_ge_None_2 by lia.
      destruct (IH (pre ++ [q]) [] (dpre ++ [to_doc_part q]) []) as (ds' & E & Hc).
      { rewrite !length_app. cbn. lia. } { constructor. } { apply prefix_nil. }
      rewrite !app_nil_r, length_app, Nat.add_1_r, <- !app_assoc in E.
      exists (to_doc_part q :: ds'). split; [exact E|]. constructor; [apply covers_refl|done].
    + rewrite !fmap_cons in Hp. pose proof (prefix_cons_inv_1 _ _ _ _ Hp) as Hs.
      apply prefix_cons_inv_2 in Hp. rewrite list_lookup_middle by done.
      assert (forall d', covers q d' -> exists ds',
                sync_loop (S (length pre)) rest (pre ++ q :: w) (dpre ++ d' :: ds) =
                  Some (pre ++ q :: rest, dpre ++ ds') /\ Forall2 covers (q :: rest) ds') as Hrec.
      { intros d' Hd'. destruct (IH (pre ++ [q]) w (dpre ++ [d']) ds) as (ds' & E & Hc); [|done|done|].
        { rewrite !length_app. cbn. lia. }
        rewrite length_app, Nat.add_1_r, <- !app_assoc in E. exists (d' :: ds'). split; [exact E|].
        by constructor. }
      destruct (decide (p = q)) as [->|_]; [by apply Hrec|].
      destruct (sync_changed_covers (dpre ++ d :: ds) (length pre) p q d) as (d' & E & Hd'); try done.
      { rewrite list_lookup_middle by done. done. }
      rewrite E. cbn [mbind option_bind]. rewrite insert_middle, <- Hl, insert_middle, Hl. by apply Hrec.
Qed.

(** A tick writes every part of the fold, and only into the entry. *)
Lemma sync_covers doc w e folded :
  doc !! sw_entry_index w = Some e -> Forall2 covers (sw_written w) (em_parts e) ->
  (shape <$> sw_written w) `prefix_of` (shape <$> folded) ->
  exists ds, sync doc w folded =
      Some (<[sw_entry_index w := set_em_parts e ds]> doc, mk_writer (sw_entry_index w) folded) /\
    Forall2 covers folded ds.
Proof.
  intros He Hw Hp. unfold sync. rewrite He. cbn [mbind option_bind].
  destruct (sync_loop_covers folded [] (sw_written w) [] (em_parts e)) as (ds & E & Hc); try done.
  cbn [length app] in E. rewrite E. by exists ds.
Qed.

(** Finishing never fails, and leaves the entry complete under its status. *)
Lemma finish_covers doc w e folded st :
  doc !! sw_entry_index w = Some e -> Forall2 covers (sw_written w) (em_parts e) ->
  (shape <$> sw_written w) `prefix_of` (shape <$> folded) ->
  exists ds, finish doc w folded st =
      Some (<[sw_entry_index w := set_em_status (set_em_parts e ds) st]> doc) /\
    Forall2 covers folded ds.
Proof.
  intros He Hw Hp. destruct (sync_covers doc w e folded He Hw Hp) as (ds & E & Hc).
  exists ds. split; [|done]. unfold finish. rewrite E. cbn [mbind option_bind sw_entry_index].
  rewrite list_lookup_insert_eq by (by eapply lookup_lt_Some). cbn [mbind option_bind].
  by rewrite list_insert_insert_eq.
Qed.

(** ** The fold grows its parts *)

Section Streaming.
Context (text_diff : string -> string -> N * N).

(** An event inside a segment: no boundary, and no result that drops the diff
    counts of an earlier result of its tool. *)
Definition steady_event (out : list MessagePart) (e : AgentEvent) : Prop :=
  match e with
  | SessionStarted _ _ _ _ _ _ | Steered _ _ => False
  | ToolResult id _ _ None => forall t, Tool t ∈ out -> tp_id t = id -> tp_diff_stats t = None
  | _ => True
  end.

Fixpoint steady (out : list MessagePart) (evs : list AgentEvent) : Prop :=
  match evs with
  | [] => True
  | e :: evs => steady_event out e /\ steady (fold_event_into_parts text_diff out e) evs
  end.

Lemma grows_fmap f (out : list MessagePart) :
  (forall p, p ∈ out -> part_grows p (f p)) -> grows out (f <$> out).
Proof.
  intros Hf. apply grows_of_Forall2. induction out as [|p out IH]; [constructor|].
  cbn. constructor; [apply Hf; left|]. apply IH. intros q Hq. apply Hf. by right.
Qed.

Lemma refresh_call_grows id call out out' : refresh_call id call out = Some out' -> grows out out'.
Proof.
  intros H. apply grows_of_Forall2. revert out' H.
  induction out as [|p out IH]; intros out'; cbn [refresh_call]; [done|].
  assert (part_grows p p) as Hp by reflexivity.
  destruct p as [|t| |]; [|destruct (String.eqb _ _)|..].
  2: { intros [= <-]. constructor; [|apply parts_grow_refl].
       split; unfold stays; cbn; auto. }
  all: destruct (refresh_call id call out) as [l|]; [|done]; intros [= <-]; constructor; auto.
Qed.

Lemma append_text_grows text out : grows out (append_text text out).
Proof.
  unfold append_text. destruct (last out) as [[id tail| | |]|] eqn:El; try apply grows_push.
  apply last_Some in El as [l ->]. rewrite removelast_last. apply grows_of_Forall2.
  apply Forall2_app; [apply parts_grow_refl|]. constructor; [|constructor]. cbn. eauto.
Qed.

Lemma fold_grows out e :
  Forall no_output out -> steady_event out e -> grows out (fold_event_into_parts text_diff out e).
Proof.
  intros Hno Hst. destruct e; cbn [fold_event_into_parts]; try reflexivity; try done.
  - apply append_text_grows.
  - destruct (refresh_call id call out) eqn:E; [by eapply refresh_call_grows|apply grows_push].
  - apply grows_fmap. intros [|t| |] Hin; cbn [resolve_tool]; try reflexivity.
    destruct (String.eqb_spec (tp_id t) id) as [Hid|]; [|reflexivity].
    rewrite Forall_forall in Hno. destruct (Hno _ Hin) as (Ho & Hd & Hb).
    split; unfold stays; cbn; auto; try congruence.
    destruct diff; [done|]. cbn. by rewrite (Hst t Hin Hid).
  - apply grows_push.
  - destruct (existsb _ out); [reflexivity|apply grows_push].
  - apply grows_fmap. intros [| |i r q s|] _; cbn [resolve_input]; try reflexivity.
    destruct (String.eqb _ _); [by split|reflexivity].
  - destruct error; [apply grows_push|reflexivity].
  - apply grows_fmap. intros [|t| |] _; cbn [mark_subagent]; try reflexivity.
    destruct (String.eqb _ _); [|reflexivity]. split; unfold stays; cbn; auto.
    destruct (subagent_status_of e); [done|]. by destruct (tp_subagent_status t) as [[]|].
Qed.

Lemma fold_events_grows evs out :
  Forall no_output out -> steady out evs ->
  grows out (fold_events text_diff out evs) /\ Forall no_output (fold_events text_diff out evs).
Proof.
  revert out. induction evs as [|e evs IH]; intros out Hno Hst; [by split|].
  destruct Hst as [He Hst]. cbn [fold_events foldl].
  destruct (IH (fold_event_into_parts text_diff out e)) as [Hg Hno']; [by apply fold_no_output|done|].
  split; [|done]. transitivity (fold_event_into_parts text_diff out e); [by apply fold_grows|done].
Qed.

(** ** Streaming an entry *)

(** Commit ticks: each folds its events and syncs. *)
Fixpoint run_ticks (doc : list EntryMap) (w : SegmentWriter) (out : list MessagePart)
    (ticks : list (list AgentEvent)) : option (list EntryMap * SegmentWriter * list MessagePart) :=
  match ticks with
  | [] => Some (doc, w, out)
  | evs :: ticks =>
      let out := fold_events text_diff out evs in
      '(doc, w) ← sync doc w out;
      run_ticks doc w out ticks
  end.

Definition streaming_entry (id device : string) (at_ms : Z) (out : list MessagePart)
    (st : MessageStatus) : EntryMap :=
  mk_entry_map id Assistant (to_doc_part <$> out) at_ms device (Some st) None.

Lemma sync_streaming doc id device at_ms p q :
  grows p q ->
  sync (doc ++ [streaming_entry id device at_ms p Streaming]) (mk_writer (length doc) p) q =
    Some (doc ++ [streaming_entry id device at_ms q Streaming], mk_writer (length doc) q).
Proof.
  intros (q1 & q2 & Hq & Hpq). unfold sync. cbn [sw_entry_index sw_written].
  rewrite list_lookup_middle by done. cbn [mbind option_bind em_parts streaming_entry].
  pose proof (sync_loop_grows q [] p q1 q2 Hq Hpq) as Hs. cbn [length app] in Hs.
  rewrite Hs. cbn [mbind option_bind]. by rewrite insert_middle.
Qed.

Lemma run_ticks_streaming doc id device at_ms ticks out :
  Forall no_output out -> steady out (concat ticks) ->
  run_ticks (doc ++ [streaming_entry id device at_ms out Streaming]) (mk_writer (length doc) out) out ticks =
    let final := fold_events text_diff out (concat ticks) in
    Some (doc ++ [streaming_entry id device at_ms final Streaming], mk_writer (length doc) final, final).
Proof.
  revert out. induction ticks as [|evs ticks IH]; intros out Hno Hst; [done|]. cbn [run_ticks concat] in *.
  assert (steady out evs /\ steady (fold_events text_diff out evs) (concat ticks)) as [H1 H2].
  { clear -Hst. revert out Hst. induction evs as [|e evs IHe]; intros out Hst; [done|].
    destruct Hst as [He Hst]. destruct (IHe _ Hst) as [H1 H2]. done. }
  destruct (fold_events_grows evs out Hno H1) as [Hg Hno'].
  rewrite sync_streaming by done. cbn [mbind option_bind]. rewrite IH by done.
  cbv zeta. unfold fold_events. by rewrite <- foldl_app.
Qed.

(** C15. The document follows the stream: an entry begun on any document and
    synced at any schedule of commit ticks holds, after the last tick, exactly
    the part maps of the whole stream's fold, with every other entry untouched
    and no schema error on the way, as long as the segment has no turn boundary
    and no result drops an earlier result's diff counts; finishing stamps the
    status; and the document then reads as before, with the entry at its end
    carrying the folded parts, up to the keys of inputs and the error flag of
    unresolved tools. *)
Theorem streamed_entry stable_hash doc id device at_ms ticks status :
  steady [] (concat ticks) ->
  let final := fold_events text_diff [] (concat ticks) in
  let '(doc0, w0) := begin doc id device at_ms in
  exists w,
    run_ticks doc0 w0 [] ticks = Some (doc ++ [streaming_entry id device at_ms final Streaming], w, final) /\
    finish (doc ++ [streaming_entry id device at_ms final Streaming]) w final status =
      Some (doc ++ [streaming_entry id device at_ms final status]) /\
    (Forall part_fits final -> I64_MIN <= at_ms <= I64_MAX ->
       read_entries stable_hash (doc ++ [streaming_entry id device at_ms final status]) =
         read_entries stable_hash doc ++
           [mk_entry id Assistant (read_back <$> final) at_ms device (Some status) None]).
Proof.
  intros Hst final. cbn [begin]. exists (mk_writer (length doc) final). split_and!.
  - exact (run_ticks_streaming doc id device at_ms ticks [] (Forall_nil_2 _) Hst).
  - unfold finish. rewrite sync_streaming by reflexivity. cbn [mbind option_bind sw_entry_index].
    rewrite list_lookup_middle by done. cbn [mbind option_bind]. by rewrite insert_middle.
  - intros Hf Ht.
    exact (push_reads_back stable_hash doc (mk_entry id Assistant final at_ms device (Some status) None) Hf Ht).
Qed.
End Streaming.

(** ** Witnesses and limits *)

Definition no_diff (a b : string) : N * N := (0%N, 0%N).

Definition sample_ticks : list (list AgentEvent) :=
  [[TextDelta "Hel"]; [TextDelta "lo"; ToolCallEv "x1" (Exec "ls")];
   [ToolResult "x1" true None None; TextDelta "done"]].

Lemma sample_steady : steady no_diff [] (concat sample_ticks).
Proof.
  cbn. split_and!; try done. intros t [H|[H|[]%elem_of_nil]%elem_of_cons]%elem_of_cons _; [done|].
  by injection H as ->.
Qed.

Lemma sample_fits : Forall part_fits (fold_events no_diff [] (concat sample_ticks)).
Proof. repeat constructor. Qed.

Lemma streamed_entry_witness :
  read_entries (fun _ => "00")
    [streaming_entry "a1" "dev" 7 (fold_events no_diff [] (concat sample_ticks)) Complete] =
    [mk_entry "a1" Assistant (read_back <$> fold_events no_diff [] (concat sample_ticks)) 7 "dev"
       (Some Complete) None].
Proof.
  destruct (streamed_entry no_diff (fun _ => "00") [] "a1" "dev" 7 sample_ticks Complete sample_steady)
    as (w & _ & _ & H).
  apply (H sample_fits). unfold I64_MIN, I64_MAX. lia.
Defined.

(** A second result of a tool without a diff clears the counts of the fold, and
    not of the document, whose update writes only present fields. *)
Lemma dropped_diff_stats_stay :
  let d := mk_tool_diff "f" None "one" in
  let evs1 := [ToolCallEv "x1" (Exec "ls"); ToolResult "x1" false None (Some d)] in
  let evs2 := [ToolResult "x1" false None None] in
  let '(doc, w) := begin [] "a1" "dev" 0 in
  match run_ticks no_diff doc w [] [evs1; evs2] with
  | Some (doc, _, out) =>
      (match out with [Tool t] => tp_diff_stats t | _ => None end) = None /\
      (match doc with [e] => match em_parts e with [p] => bool_decide (dp_diff_stats p = None) | _ => true end
       | _ => true end) = false
  | None => False
  end.
Proof. vm_compute. split; reflexivity. Qed.

(** The writer finds its entry by position: an entry merged in before it takes
    the stream's next write. *)
Lemma insertion_misdirects_stream :
  let '(doc, w) := begin [] "a1" "dev" 0 in
  match sync doc w [TextPart "t0" "Hel"] with
  | Some (doc, w) =>
      let other := text_entry "u1" "Hi" in
      match sync (push_message [] other ++ doc) w [TextPart "t0" "Hello"] with
      | Some (doc, _) => (fun e => (em_id e, dp_text <$> em_parts e)) <$> doc =
          [("u1", [Some "Hilo"]); ("a1", [Some "Hel"])]
      | None => False
      end
  | None => False
  end.
Proof. vm_compute. reflexivity. Qed.
