(* ===== verification/View.v ===== *)
(** The view derivations: crates/proto/src/view.rs, with the status of a chat
    and the display names of crates/proto/src/entities.rs. Sort orders, the
    staleness gate, the boot gate, sidebar groups, relative times and the tool
    summaries. *)
From stdpp Require Import pretty.
From S2P Require Import Prelude Json Entities Text Agent.

(** ** Instants

    chrono's instants compare by their nanoseconds; a difference in milliseconds
    or seconds is truncated towards zero. *)
Class Instants {C : Chrono} := {
  nanos : DateTime -> Z;
  nanos_inj t u : nanos t = nanos u -> t = u;
}.

(** [now.signed_duration_since(then)] in milliseconds and in seconds. *)
Definition since_ms `{Instants} (now then_ : DateTime) : Z := Z.quot (nanos now - nanos then_) (10 ^ 6).
Definition since_s `{Instants} (now then_ : DateTime) : Z := Z.quot (nanos now - nanos then_) (10 ^ 9).

(** ** Comparators

    [Ordering] and [then_with]; [sort_by] is the stable sort by a comparator. *)
Definition then_with (c d : comparison) : comparison := match c with Eq => d | _ => c end.

Definition cmp_le {A} (cmp : A -> A -> comparison) (a b : A) : Prop := cmp a b <> Gt.

#[export] Instance cmp_le_dec {A} (cmp : A -> A -> comparison) a b : Decision (cmp_le cmp a b).
Proof. unfold cmp_le. destruct (cmp a b); [left; done|left; done|right; by intros []]. Defined.

Definition sort_by {A} (cmp : A -> A -> comparison) (l : list A) : list A := merge_sort (cmp_le cmp) l.

(** A comparator of a total preorder. *)
Class CmpOk {A} (cmp : A -> A -> comparison) := {
  cmp_flip a b : cmp b a = CompOpp (cmp a b);
  cmp_trans a b c : cmp_le cmp a b -> cmp_le cmp b c ->
    cmp_le cmp a c /\ (cmp a c = Eq -> cmp a b = Eq /\ cmp b c = Eq);
}.

#[export] Instance Z_key_ok {A} (f : A -> Z) : CmpOk (fun a b => f a ?= f b).
Proof.
  split; [intros a b; apply Z.compare_antisym|]. intros a b c. unfold cmp_le.
  destruct (Z.compare_spec (f a) (f b)), (Z.compare_spec (f b) (f c)), (Z.compare_spec (f a) (f c));
    intros H2 H3; try done; try lia; split; try done; intros; lia.
Qed.

Lemma flip_ok {A} (cmp : A -> A -> comparison) : CmpOk cmp -> CmpOk (fun a b => cmp b a).
Proof.
  intros H. split; [intros a b; apply cmp_flip|]. intros a b c H1 H2.
  destruct (cmp_trans c b a H2 H1) as [H3 H4]. split; [exact H3|]. intros E.
  destruct (H4 E) as [E1 E2]. done.
Qed.

#[export] Instance Z_key_desc_ok {A} (f : A -> Z) : CmpOk (fun a b => f b ?= f a) | 1.
Proof. apply (flip_ok (fun a b => f a ?= f b)), _. Qed.

#[export] Instance string_key_ok {A} (f : A -> string) : CmpOk (fun a b => String.compare (f a) (f b)).
Proof.
  split; [intros a b; apply String.compare_antisym|]. intros a b c. unfold cmp_le.
  intros H1 H2. destruct (String.compare (f a) (f b)) eqn:E1; [|..|done].
  - apply String.compare_eq_iff in E1. rewrite E1. split; [done|]. by intros ->.
  - destruct (String.compare (f b) (f c)) eqn:E2; [..|done].
    + apply String.compare_eq_iff in E2. rewrite <- E2, E1. done.
    + by rewrite (string_compare_lt_trans _ _ _ E1 E2).
Qed.

#[export] Instance then_ok {A} (c d : A -> A -> comparison) :
  CmpOk c -> CmpOk d -> CmpOk (fun a b => then_with (c a b) (d a b)).
Proof.
  intros Hc Hd. split.
  - intros x y. unfold then_with. rewrite (cmp_flip (cmp := c) x y), (cmp_flip (cmp := d) x y).
    by destruct (c x y).
  - intros x y z. unfold cmp_le, then_with. intros H1 H2.
    assert (cmp_le c x y) as C1 by (intros E; by rewrite E in H1).
    assert (cmp_le c y z) as C2 by (intros E; by rewrite E in H2).
    destruct (cmp_trans (cmp := c) x y z C1 C2) as [C3 C4]. unfold cmp_le in C3.
    destruct (c x z) eqn:E; [|done|done]. destruct (C4 eq_refl) as [E1 E2].
    rewrite E1 in H1 |- *. rewrite E2 in H2 |- *.
    apply (cmp_trans (cmp := d) x y z); done.
Qed.

Lemma StronglySorted_mono {A} (R S : A -> A -> Prop) l :
  (forall a b, R a b -> S a b) -> StronglySorted R l -> StronglySorted S l.
Proof. intros HRS. induction 1; constructor; [done|]. eapply Forall_impl; [done|]. auto. Qed.

Section SortBy.
Context {A : Type} (cmp : A -> A -> comparison) {H : CmpOk cmp}.

#[export] Instance cmp_le_trans : Transitive (cmp_le cmp).
Proof. intros a b c H1 H2. by apply (cmp_trans a b c). Qed.

#[export] Instance cmp_le_total : Total (cmp_le cmp).
Proof. intros a b. unfold cmp_le. rewrite (cmp_flip (cmp := cmp) a b). destruct (cmp a b); [by left..|by right]. Qed.

Lemma cmp_le_antisym a b : cmp_le cmp a b -> cmp_le cmp b a -> cmp a b = Eq.
Proof. unfold cmp_le. rewrite (cmp_flip (cmp := cmp) a b). by destruct (cmp a b). Qed.

Lemma sort_by_perm l : sort_by cmp l ≡ₚ l.
Proof. apply merge_sort_Permutation. Qed.

Lemma sort_by_sorted l : StronglySorted (cmp_le cmp) (sort_by cmp l).
Proof. apply StronglySorted_merge_sort; apply _. Qed.

(** Sorting forgets the incoming order when only one element has each rank. *)
Lemma sort_by_canonical l l' :
  (forall a b, a ∈ l -> b ∈ l -> cmp a b = Eq -> a = b) -> l ≡ₚ l' -> sort_by cmp l = sort_by cmp l'.
Proof.
  intros Hu Hp. apply (StronglySorted_unique_strong (cmp_le cmp)); [|apply sort_by_sorted..|].
  - intros x y Hx Hy H1 H2. rewrite sort_by_perm in Hx. rewrite sort_by_perm, <- Hp in Hy.
    apply Hu; [done|done|]. by apply cmp_le_antisym.
  - by rewrite !sort_by_perm.
Qed.
End SortBy.

(** ** Status *)

Inductive ConnectionStatus := Connecting | Ready | Failed (err : string).
Inductive Indicator := IndNone | IndWorking | IndAwaitingInput | IndErrored.
Inductive ChatIndicator := CiWorking | CiAwaitingInput | CiErrored | CiCompleted | CiIdle.

#[export] Instance ChatIndicator_eq_dec : EqDecision ChatIndicator.
Proof. solve_decision. Defined.
#[export] Instance Indicator_eq_dec : EqDecision Indicator.
Proof. solve_decision. Defined.

Definition SESSION_STALE_MS : Z := 45000.

Section Views.
Context {C : Chrono} {K : ConfigCodec} {I : Instants}.
Implicit Types chat : Chat.

(** [Chat::on_chat2]. *)
Definition on_chat2 chat : bool := 2 <=? default 1 (ch_room_gen chat).

(** [Chat::unseen]. *)
Definition unseen chat : bool :=
  match ch_last_message_at chat, ch_last_seen_at chat with
  | Some msg, Some seen => nanos seen <? nanos msg
  | Some _, None => true
  | None, _ => false
  end.

Definition chat_indicator chat (live : option Session) : ChatIndicator :=
  match se_status <$> live with
  | Some Working => CiWorking
  | Some AwaitingInput => CiAwaitingInput
  | Some Entities.Errored => if unseen chat then CiErrored else CiIdle
  | _ => if unseen chat then CiCompleted else CiIdle
  end.

Definition effective_indicator (session : option Session) (now : DateTime) : Indicator :=
  match session with
  | None => IndNone
  | Some session =>
      match se_status session with
      | Idle => IndNone
      | Entities.Errored => IndErrored
      | status =>
          if SESSION_STALE_MS <? since_ms now (se_updated_at session) then IndNone
          else match status with Working => IndWorking | _ => IndAwaitingInput end
      end
  end.

Definition display_status chat (session : option Session) (now : DateTime) : ChatIndicator :=
  let live := match session with
              | Some s => if decide (effective_indicator (Some s) now = IndNone) then None else Some s
              | None => None
              end in
  chat_indicator chat live.

Definition attention_rank (status : ChatIndicator) : Z :=
  match status with
  | CiAwaitingInput => 0 | CiErrored => 1 | CiWorking => 2 | CiCompleted => 3 | CiIdle => 4
  end.

(** ** Sort orders *)

Definition recency chat : Z := nanos (default (ch_created_at chat) (ch_last_message_at chat)).

Definition active_cmp (a b : ChatIndicator * Chat) : comparison :=
  then_with (recency b.2 ?= recency a.2) (String.compare (ch_id a.2) (ch_id b.2)).
Definition sort_active : list (ChatIndicator * Chat) -> list (ChatIndicator * Chat) := sort_by active_cmp.

Definition tab_cmp (a b : Chat) : comparison :=
  then_with (nanos (ch_created_at a) ?= nanos (ch_created_at b)) (String.compare (ch_id a) (ch_id b)).
Definition sort_tabs : list Chat -> list Chat := sort_by tab_cmp.

Definition space_cmp (a b : Space) : comparison :=
  then_with (nanos (sp_created_at a) ?= nanos (sp_created_at b)) (String.compare (sp_id a) (sp_id b)).
Definition sort_spaces : list Space -> list Space := sort_by space_cmp.

Definition chat_cmp (a b : Chat) : comparison :=
  then_with (then_with (recency b ?= recency a) (nanos (ch_created_at b) ?= nanos (ch_created_at a)))
    (String.compare (ch_id a) (ch_id b)).
Definition sort_chats : list Chat -> list Chat := sort_by chat_cmp.

#[export] Instance chat_cmp_ok : CmpOk chat_cmp.
Proof.
  exact (then_ok (fun a b => then_with (recency b ?= recency a)
                               (nanos (ch_created_at b) ?= nanos (ch_created_at a))) _ _ _).
Qed.

(** *** Location and groups *)

(** [str::trim_end_matches] at a set of one-byte characters. *)
Definition trim_end_chars (cs : list string) (s : string) : string :=
  reverse (trim_with (String.length s) cs (reverse s)).

(** The pieces of a text between the bytes that [sep] accepts. *)
Fixpoint split_at (sep : Ascii.ascii -> bool) (acc s : string) : list string :=
  match s with
  | EmptyString => [reverse acc]
  | String a s => if sep a then reverse acc :: split_at sep "" s else split_at sep (String a acc) s
  end.

Definition slash : Ascii.ascii := Ascii.ascii_of_nat 47.
Definition backslash : Ascii.ascii := Ascii.ascii_of_nat 92.
Definition is_slash (a : Ascii.ascii) : bool := Ascii.eqb a slash.
Definition is_any_slash (a : Ascii.ascii) : bool := Ascii.eqb a slash || Ascii.eqb a backslash.

(** [Path::file_name] on Unix: the last component when it is a normal one. *)
Definition file_name (path : string) : option string :=
  match last (filter (fun c => c <> "" /\ c <> ".") (split_at is_slash "" path)) with
  | Some c => if String.eqb c ".." then None else Some c
  | None => None
  end.

(** [Space::display_name]: a name that is not blank, else the last piece of the
    path, else the path. *)
Definition display_name (space : Space) : string :=
  let path := sp_path space in
  let base := match last (split_at is_any_slash "" (trim_end_chars ["/"; "\"] path)) with
              | Some s => if String.eqb s "" then path else s
              | None => path
              end in
  match sp_name space with
  | Some name => if String.eqb (trim name) "" then base else name
  | None => base
  end.

Definition not_blank (s : option string) : option string :=
  match s with
  | Some s => let t := trim s in if String.eqb t "" then None else Some t
  | None => None
  end.

Definition project_label (cwd : option string) : string :=
  match not_blank cwd with
  | None => "No project"
  | Some cwd => default cwd (file_name (trim_end_chars ["/"; "\"] cwd))
  end.

Record ChatGroup := mk_group { cg_label : string; cg_chats : list Chat }.

(** The first group with the label gets the chat. *)
Fixpoint add_to_group (label : string) chat (groups : list ChatGroup) : option (list ChatGroup) :=
  match groups with
  | [] => None
  | g :: groups =>
      if String.eqb (cg_label g) label then Some (mk_group (cg_label g) (cg_chats g ++ [chat]) :: groups)
      else cons g <$> add_to_group label chat groups
  end.

Definition group_step (groups : list ChatGroup) chat : list ChatGroup :=
  let label := project_label (ch_cwd chat) in
  match add_to_group label chat groups with
  | Some groups => groups
  | None => groups ++ [mk_group label [chat]]
  end.

Definition group_chats (chats : list Chat) : list ChatGroup := foldl group_step [] chats.

Definition chat_location chat : option string :=
  let project := (fun c => project_label (Some c)) <$> not_blank (ch_cwd chat) in
  let reference := not_blank (ch_branch chat) in
  match project, reference with
  | Some p, Some r => Some (p ++ " · " ++ r)%string
  | Some p, None => Some p
  | None, Some r => Some r
  | None, None => None
  end.

(** ** Relative time *)

Definition format_time_ago (then_ now : DateTime) : string :=
  let s := Z.max 0 (since_s now then_) in
  let unit n u := (pretty n ++ u)%string in
  if s <? 60 then "now" else
  let m := Z.quot s 60 in
  if m <? 60 then unit m "m" else
  let h := Z.quot m 60 in
  if h <? 24 then unit h "h" else
  let d := Z.quot h 24 in
  if d <? 7 then unit d "d" else
  let w := Z.quot d 7 in
  if w <? 5 then unit w "w" else
  let mo := Z.quot d 30 in
  if mo <? 12 then unit mo "mo" else unit (Z.quot d 365) "y".

(** ** Boot gate *)

Inductive WorkspaceScope := Local_ | Development | Synced.

Record UserProfile := mk_user { up_id : string; up_email : string; up_name : option string }.

Inductive AuthState :=
  | SignedOut
  | NeedsOrganization (user : UserProfile)
  | SignedIn (user : UserProfile) (org_id : option string).

Inductive GatePhase := Loading | GateFailed (err : string) | SignIn | OrgGate | GateReady.

Definition gate_phase (connection : ConnectionStatus) (workspace_scope : option WorkspaceScope)
    (auth : option AuthState) : GatePhase :=
  match connection with
  | Connecting => Loading
  | Failed err => GateFailed err
  | Ready =>
      match default Synced workspace_scope with
      | Local_ | Development => GateReady
      | Synced =>
          match auth with
          | Some (NeedsOrganization _) => OrgGate
          | Some (SignedIn _ _) => GateReady
          | Some SignedOut | None => SignIn
          end
      end
  end.

(** An [Option] field: absent and null are [None]. *)
Definition opt_str (v : Value) (k : string) : option (option string) :=
  match obj_get v k with
  | None | Some Null => Some None
  | Some w => Some <$> as_str w
  end.

(** serde's derived reader of [AuthState]. *)
Definition user_of_value (v : Value) : option UserProfile :=
  i ← field_req as_str v "id"; email ← field_req as_str v "email"; name ← opt_str v "name";
  Some (mk_user i email name).

Definition auth_of_value (v : Value) : option AuthState :=
  state ← field_req as_str v "state";
  if String.eqb state "signedOut" then Some SignedOut
  else if String.eqb state "needsOrganization" then NeedsOrganization <$> field_req user_of_value v "user"
  else if String.eqb state "signedIn" then
    user ← field_req user_of_value v "user"; SignedIn user <$> opt_str v "orgId"
  else None.

Definition parse_auth_state (value : Value) : option AuthState :=
  match auth_of_value value with
  | Some state => Some state
  | None =>
      tag ← obj_get value "_tag" ≫= as_str;
      let user :=
        u ← obj_get value "user";
        i ← obj_get u "id" ≫= as_str; email ← obj_get u "email" ≫= as_str;
        Some (mk_user i email (obj_get u "name" ≫= as_str)) in
      if String.eqb tag "SignedOut" then Some SignedOut
      else if String.eqb tag "NeedsOrganization" then NeedsOrganization <$> user
      else if String.eqb tag "SignedIn" then
        user ← user; Some (SignedIn user (obj_get value "orgId" ≫= as_str))
      else None
  end.

(** ** Checkout selection *)

Record RepoRef := mk_ref { rr_name : string; rr_current : bool; rr_worktree_path : option string }.

Inductive CheckoutKind := LocalKind | NewWorktreeKind.

Inductive CheckoutPlan :=
  | CurrentCheckout (branch : option string)
  | ReuseWorktree (path branch : string)
  | NewWorktree (base : option string).

Definition checkout_plan (kind : CheckoutKind) (picked : option RepoRef) : CheckoutPlan :=
  let name := rr_name <$> picked in
  match kind with
  | NewWorktreeKind => NewWorktree name
  | LocalKind =>
      match picked ≫= rr_worktree_path with
      | Some path => ReuseWorktree path (default "" name)
      | None => CurrentCheckout name
      end
  end.

Definition checkout_label (kind : CheckoutKind) (picked : option RepoRef) : string :=
  match kind with
  | NewWorktreeKind => "New worktree"
  | LocalKind => match picked ≫= rr_worktree_path with
                 | Some _ => "Current worktree" | None => "Current checkout" end
  end.

(** ** Tool summaries *)

(** [str::split_whitespace]. *)
Fixpoint words_from (fuel : nat) (acc s : string) : list string :=
  let flush := if String.eqb acc "" then [] else [reverse acc] in
  match fuel, s with
  | O, _ | _, EmptyString => flush
  | S fuel, String a rest =>
      match strip_first WHITE_SPACE s with
      | Some r => flush ++ words_from fuel "" r
      | None => words_from fuel (String a acc) rest
      end
  end.

Definition split_whitespace (s : string) : list string := words_from (S (String.length s)) "" s.

Definition single_line (text : string) : string := String.concat " " (split_whitespace text).

Definition plural (n : nat) (one many : string) : string :=
  (pretty n ++ " " ++ if (n =? 1)%nat then one else many)%string.

Definition tool_chip_content_raw (call : ToolCall) : string * string :=
  match call with
  | Exec command => ("Run", command)
  | ReadFile path => ("Read", path)
  | WriteFile path _ => ("Write", path)
  | EditFile path _ _ => ("Edit", path)
  | ApplyPatch path => ("Patch", default "workspace" path)
  | Search pattern path =>
      ("Search", match path with Some path => (pattern ++ " in " ++ path)%string | None => pattern end)
  | Glob pattern => ("Glob", pattern)
  | WebFetch url _ => ("Fetch", url)
  | WebSearch query => ("Web", query)
  | Todo items =>
      ("Todo", (pretty (length (filter (fun i => todo_done i = true) items)) ++ "/" ++
                pretty (length items) ++ " done")%string)
  | Mcp server tool _ => ("MCP", (server ++ " · " ++ tool)%string)
  | Unknown name _ =>
      match strip_prefix "Agent: " name with
      | Some description => ("Agent", description)
      | None =>
          if String.eqb name "Agent" then ("Agent", "")
          else match (match strip_prefix "Background output" name with
                      | Some rest => Some rest
                      | None => strip_prefix "Stop background task" name
                      end) with
               | Some rest =>
                   let id := trim (trim_with (String.length rest) [":"] rest) in
                   let verb := if starts_with "Stop" name then "stop" else "output" in
                   ("Task", if String.eqb id "" then verb else (verb ++ " · " ++ id)%string)
               | None => ("Tool", name)
               end
      end
  end.

Definition tool_chip_content (call : ToolCall) : string * string :=
  let '(label, detail) := tool_chip_content_raw call in (label, single_line detail).

(** The counters of [tool_group_summary]. *)
Record Tally := mk_tally {
  ty_commands : nat; ty_edited : list string; ty_reads : nat; ty_searches : nat; ty_fetches : nat;
  ty_todos : nat; ty_other : nat; ty_failed : nat;
}.

Definition tally_zero : Tally := mk_tally 0 [] 0 0 0 0 0 0.

Definition add_edited (path : string) (t : Tally) : Tally :=
  if bool_decide (path ∈ ty_edited t) then t
  else mk_tally (ty_commands t) (ty_edited t ++ [path]) (ty_reads t) (ty_searches t) (ty_fetches t)
         (ty_todos t) (ty_other t) (ty_failed t).

Definition tally_step (t : Tally) (tool : ToolCall * bool) : Tally :=
  let '(mk_tally c e r s f td o fl) := t in
  let fl := if tool.2 then S fl else fl in
  match tool.1 with
  | Exec _ => mk_tally (S c) e r s f td o fl
  | WriteFile path _ | EditFile path _ _ => add_edited path (mk_tally c e r s f td o fl)
  | ApplyPatch path => add_edited (default "patch" path) (mk_tally c e r s f td o fl)
  | ReadFile _ => mk_tally c e (S r) s f td o fl
  | Search _ _ | Glob _ | WebSearch _ => mk_tally c e r (S s) f td o fl
  | WebFetch _ _ => mk_tally c e r s (S f) td o fl
  | Todo _ => mk_tally c e r s f (S td) o fl
  | Mcp _ _ _ | Unknown _ _ => mk_tally c e r s f td (S o) fl
  end.

(** [to_uppercase] of a first character that is ASCII. *)
Definition capitalize (s : string) : string :=
  match s with
  | EmptyString => s
  | String a s' =>
      let n := Ascii.N_of_ascii a in
      if ((97 <=? n) && (n <=? 122))%N then String (Ascii.ascii_of_N (n - 32)) s' else s
  end.

Definition tool_group_summary (tools : list (ToolCall * bool)) : string :=
  let t := foldl tally_step tally_zero tools in
  let counted n verb one many := if (0 <? n)%nat then [(verb ++ " " ++ plural n one many)%string] else [] in
  let segments :=
    counted (ty_commands t) "ran" "command" "commands" ++
    counted (length (ty_edited t)) "edited" "file" "files" ++
    counted (ty_reads t) "read" "file" "files" ++
    counted (ty_searches t) "searched" "time" "times" ++
    counted (ty_fetches t) "fetched" "page" "pages" ++
    (if (0 <? ty_todos t)%nat then ["updated todos"] else []) ++
    counted (ty_other t) "called" "tool" "tools" in
  let segments := match segments with [] => [plural (length tools) "tool" "tools"] | _ => segments end in
  let segments := segments ++ (if (0 <? ty_failed t)%nat then [(pretty (ty_failed t) ++ " failed")%string]
                               else []) in
  capitalize (String.concat " · " segments).

Example summary_ex :
  tool_group_summary [(Exec "ls", false); (WriteFile "a" None, true); (EditFile "a" None None, false)] =
    "Ran 1 command · edited 1 file · 1 failed".
Proof. reflexivity. Qed.
End Views.

(** ** Theorems *)

Section Theorems.
Context {C : Chrono} {K : ConfigCodec} {I : Instants}.
Implicit Types chat : Chat.

(** The sidebar order is the same on every surface: two lists of the same
    chats, in any order, sort to the same list, a permutation of either, in
    which an earlier chat never has an older last activity, and of two with
    equal activity the newer one, then the lower id, is first. *)
Theorem sidebar_order l l' :
  NoDup (ch_id <$> l) -> l ≡ₚ l' ->
  sort_chats l = sort_chats l' /\ sort_chats l ≡ₚ l /\
  StronglySorted (fun a b => recency b <= recency a /\
    (recency a = recency b -> nanos (ch_created_at b) <= nanos (ch_created_at a) /\
       (nanos (ch_created_at a) = nanos (ch_created_at b) -> string_le (ch_id a) (ch_id b))))
    (sort_chats l).
Proof.
  intros Hnd Hp. split_and!.
  - refine (sort_by_canonical chat_cmp l l' _ Hp). intros a b Ha Hb Hc.
    apply (NoDup_fmap_inj_on ch_id l); try done. apply String.compare_eq_iff.
    unfold chat_cmp, then_with in Hc. destruct (recency b ?= recency a); [|done..].
    by destruct (nanos (ch_created_at b) ?= nanos (ch_created_at a)).
  - apply sort_by_perm.
  - eapply StronglySorted_mono; [|apply (sort_by_sorted chat_cmp)]. intros a b.
    unfold cmp_le, chat_cmp, then_with, string_le.
    destruct (Z.compare_spec (recency b) (recency a)) as [E1|E1|E1]; [|intros _; split; lia|done].
    destruct (Z.compare_spec (nanos (ch_created_at b)) (nanos (ch_created_at a))) as [E2|E2|E2];
      [|intros _; split; lia|done].
    intros Hs. split; [lia|]. intros _. split; [lia|]. intros _.
    unfold String.ltb. rewrite String.compare_antisym. by destruct (String.compare (ch_id a) (ch_id b)).
Qed.

(** Labels in the order of their first chat. *)
Definition first_labels (chats : list Chat) : list string :=
  foldl (fun acc chat => let l := project_label (ch_cwd chat) in
                         if decide (l ∈ acc) then acc else acc ++ [l]) [] chats.

Definition group_of (chats : list Chat) (label : string) : ChatGroup :=
  mk_group label (filter (fun c => project_label (ch_cwd c) = label) chats).

Lemma add_to_group_None label chat f ls :
  label ∉ ls -> add_to_group label chat ((fun l => mk_group l (f l)) <$> ls) = None.
Proof.
  induction ls as [|l ls IH]; [done|]. intros [Hn Hns]%not_elem_of_cons. cbn.
  destruct (String.eqb_spec l label) as [->|]; [done|]. by rewrite IH.
Qed.

Lemma add_to_group_Some label chat f ls :
  label ∈ ls -> NoDup ls ->
  add_to_group label chat ((fun l => mk_group l (f l)) <$> ls) =
    Some ((fun l => mk_group l (if decide (l = label) then f l ++ [chat] else f l)) <$> ls).
Proof.
  induction ls as [|l ls IH]; intros Hin Hnd; [by apply not_elem_of_nil in Hin|].
  apply NoDup_cons in Hnd as [Hl Hnd]. cbn. destruct (String.eqb_spec l label) as [->|Hne].
  - rewrite decide_True by done. do 2 f_equal. apply list_fmap_ext. intros i x Hx.
    rewrite decide_False; [done|]. intros ->. apply Hl. by eapply list_elem_of_lookup_2.
  - rewrite IH by (done || set_solver). by rewrite decide_False.
Qed.

Lemma first_labels_snoc chats chat :
  first_labels (chats ++ [chat]) =
    let l := project_label (ch_cwd chat) in
    if decide (l ∈ first_labels chats) then first_labels chats else first_labels chats ++ [l].
Proof. unfold first_labels. by rewrite foldl_app. Qed.

Lemma first_labels_NoDup chats : NoDup (first_labels chats).
Proof.
  induction chats as [|c chats IH] using rev_ind; [constructor|]. rewrite first_labels_snoc. cbn.
  case_decide; [done|]. apply NoDup_app. split_and!; [done|set_solver|apply NoDup_singleton].
Qed.

Lemma elem_of_first_labels chats c : c ∈ chats -> project_label (ch_cwd c) ∈ first_labels chats.
Proof.
  induction chats as [|d chats IH] using rev_ind; [by intros ?%not_elem_of_nil|].
  rewrite first_labels_snoc. cbn. intros [H| ->%list_elem_of_singleton]%elem_of_app.
  - case_decide; [auto|]. apply elem_of_app. auto.
  - case_decide; [done|]. apply elem_of_app. right. by apply list_elem_of_singleton.
Qed.

(** Grouping the sidebar: one group per project label, in the order of each
    label's first chat, holding exactly the chats with that label in their
    incoming order; nothing is lost or listed twice. *)
Theorem group_chats_spec chats :
  group_chats chats = group_of chats <$> first_labels chats /\
  NoDup (cg_label <$> group_chats chats) /\
  (forall c, c ∈ chats -> exists g, g ∈ group_chats chats /\ cg_label g = project_label (ch_cwd c) /\ c ∈ cg_chats g).
Proof.
  assert (group_chats chats = group_of chats <$> first_labels chats) as E.
  { unfold group_chats. induction chats as [|c chats IH] using rev_ind; [done|].
    rewrite foldl_app, IH, first_labels_snoc. cbn [foldl]. unfold group_step.
    set (l := project_label (ch_cwd c)). unfold group_of at 1.
    case_decide as Hl.
    - rewrite add_to_group_Some by (done || apply first_labels_NoDup). apply list_fmap_ext.
      intros i x _. unfold group_of. f_equal. rewrite filter_app, filter_cons, filter_nil.
      fold l. case_decide; [by rewrite decide_True|by rewrite decide_False, app_nil_r].
    - rewrite add_to_group_None by done. rewrite fmap_app. f_equal.
      + apply list_fmap_ext. intros i x Hx%list_elem_of_lookup_2. unfold group_of. f_equal.
        rewrite filter_app, filter_cons, filter_nil, decide_False, app_nil_r; [done|]. by intros <-.
      + cbn. unfold group_of. do 2 f_equal. rewrite filter_app, filter_cons, filter_nil.
        fold l. rewrite decide_True by done. rewrite list_filter_none; [done|].
        apply Forall_forall. intros y Hy E. apply Hl. rewrite <- E. by apply elem_of_first_labels. }
  split; [exact E|]. rewrite E. split.
  - rewrite <- list_fmap_compose. assert (cg_label ∘ group_of chats = id) as -> by done.
    rewrite list_fmap_id. apply first_labels_NoDup.
  - intros c Hc. exists (group_of chats (project_label (ch_cwd c))). split_and!; [|done|].
    + apply list_elem_of_fmap_2, elem_of_first_labels, Hc.
    + by apply list_elem_of_filter.
Qed.

(** A dead backend's row stops showing as running, whatever the chat. *)
Lemma stale_not_running chat s now :
  SESSION_STALE_MS < since_ms now (se_updated_at s) ->
  let st := display_status chat (Some s) now in st <> CiWorking /\ st <> CiAwaitingInput.
Proof.
  intros Hs. cbv zeta. unfold display_status.
  assert (effective_indicator (Some s) now = IndNone \/ se_status s = Entities.Errored) as [->|E].
  { unfold effective_indicator. rewrite (proj2 (Z.ltb_lt _ _) Hs). destruct (se_status s); auto. }
  - rewrite decide_True by done. unfold chat_indicator. cbn. by destruct (unseen chat).
  - case_decide; unfold chat_indicator; cbn; rewrite ?E; by destruct (unseen chat).
Qed.
End Theorems.

(** ** Witnesses and limits *)

#[export] Instance millis_instants : Instants (C := millis_chrono).
Proof. refine {| nanos := (fun t : Z => t * 10 ^ 6) : @DateTime millis_chrono -> Z |}. cbn. lia. Defined.

Lemma since_ms_millis (now u : @DateTime millis_chrono) : since_ms now u = (now : Z) - (u : Z).
Proof. unfold since_ms. cbn. rewrite <- Z.mul_sub_distr_r. by apply Z.quot_mul. Qed.

#[local] Instance no_config : ConfigCodec :=
  {| ChatConfig := unit; config_to_value := fun _ => None; config_of_value := fun _ => None |}.

Definition sample_chat (id : string) (at_ : Z) : Chat :=
  mk_chat id "d" None false (Some "/w/app/") None None None None (Some at_) 0 None None None None None.

Lemma sidebar_order_witness :
  sort_chats [sample_chat "a" 1; sample_chat "b" 2] = sort_chats [sample_chat "b" 2; sample_chat "a" 1].
Proof.
  apply (sidebar_order [sample_chat "a" 1; sample_chat "b" 2] [sample_chat "b" 2; sample_chat "a" 1]).
  - cbn. repeat (constructor; [set_solver|]). constructor.
  - apply Permutation_swap.
Defined.

(** Between 360 and 364 days the month count reaches twelve and the year count
    is still zero. *)
Lemma time_ago_zero_years : format_time_ago 0 (360 * 86400 * 1000) = "0y".
Proof. reflexivity. Qed.

(** A row stamped by a clock that runs ahead is not stale until this clock
    catches up, so a dead run of that device stays "working" for that long. *)
Lemma fast_clock_outlives_gate chat :
  let s := mk_session "c" "d" Working None (10 * 86400 * 1000) None in
  display_status chat (Some s) (9 * 86400 * 1000) = CiWorking.
Proof. reflexivity. Qed.
