(* ===== verification/Journal.v ===== *)
(** The run journal: crates/engine/src/run_journal.rs. One append-only file of
    JSON lines per chat, its torn tails, replay, the stale scan and the revival
    budget. The event type and the JSON of a journal line are parameters; a file
    is its bytes. *)
From stdpp Require Import pretty.
From S2P Require Import Prelude Text.

(** ** UTF-8

    What [String::from_utf8] accepts. *)
Definition cont (a : Ascii.ascii) : bool := byte_in 128 191 a.

Fixpoint utf8_valid (s : string) : bool :=
  match s with
  | EmptyString => true
  | String a s =>
      if byte_in 0 127 a then utf8_valid s
      else if byte_in 194 223 a then
        match s with String b s => cont b && utf8_valid s | _ => false end
      else if byte_in 224 239 a then
        match s with
        | String b (String c s) =>
            (if byte_in 224 224 a then byte_in 160 191 b
             else if byte_in 237 237 a then byte_in 128 159 b else cont b) && cont c && utf8_valid s
        | _ => false
        end
      else if byte_in 240 244 a then
        match s with
        | String b (String c (String d s)) =>
            (if byte_in 240 240 a then byte_in 144 191 b
             else if byte_in 244 244 a then byte_in 128 143 b else cont b) &&
            cont c && cont d && utf8_valid s
        | _ => false
        end
      else false
  end.

(** ** Journal lines *)

(** serde_json of a [JournalLine]: the text of a sequence number and an event,
    and the parse of a line. *)
Class JournalCodec (Event : Type) := {
  line_of : N -> Event -> string;
  parse_line : string -> option (N * Event);
}.

(** The last byte of a text. *)
Fixpoint last_byte (s : string) : option Ascii.ascii :=
  match s with
  | EmptyString => None
  | String a s => match last_byte s with Some b => Some b | None => Some a end
  end.

(** Documented behaviour: a compact JSON object is valid UTF-8 without control
    characters, is not blank, reads back, and no proper prefix of it is JSON. *)
Class JournalCodecLaws {Event} (J : JournalCodec Event) := {
  line_roundtrip n e : parse_line (line_of n e) = Some (n, e);
  line_utf8 n e : utf8_valid (line_of n e) = true;
  line_no_control n e : no_control (line_of n e) = true;
  line_not_blank n e : trim (line_of n e) <> "";
  line_prefix n e p q : (p ++ q)%string = line_of n e -> q <> "" -> parse_line p = None;
}.

Section Journal.
Context {Event : Type} {J : JournalCodec Event}.

(** [read_lines] of a file: [None] is the error of a line that is not UTF-8. *)
Definition read_line (line : string) : option (N * Event) :=
  if String.eqb (trim line) "" then None else parse_line line.

Definition read_lines (content : string) : option (list (N * Event)) :=
  if forallb utf8_valid (lines content) then Some (omap read_line (lines content)) else None.

Definition next_after (evs : list (N * Event)) : N :=
  match last evs with Some (seq, _) => (seq + 1)%N | None => 1%N end.

Definition ends_mid_line (content : string) : bool :=
  match last_byte content with Some b => negb (Ascii.eqb b newline) | None => false end.

Definition scan_tail (file : option string) : option (N * bool) :=
  match file with
  | None => Some (1%N, false)
  | Some content => evs ← read_lines content; Some (next_after evs, ends_mid_line content)
  end.

(** [sanitize_id]: a character outside the kept set becomes one underscore; the
    bytes after the first of a longer character are dropped. *)
Definition kept (a : Ascii.ascii) : bool :=
  byte_in 48 57 a || byte_in 65 90 a || byte_in 97 122 a || byte_in 45 45 a || byte_in 95 95 a.

Fixpoint sanitize_id (id : string) : string :=
  match id with
  | EmptyString => ""
  | String a id =>
      if cont a then sanitize_id id
      else String (if kept a then a else Ascii.ascii_of_nat 95) (sanitize_id id)
  end.

(** ** The store *)

Record ChatJournal := mk_cj { cj_next_seq : N; cj_needs_newline : bool }.

(** The files by their stem: journals, revival ledgers; and the open handles. *)
Record RunJournal := mk_rj {
  rj_files : gmap string string;
  rj_attempts : gmap string string;
  rj_open : gmap string ChatJournal;
}.

Definition OPEN_FILE_CAP : nat := 16.

(** The handle of a chat: cached, or opened and its tail scanned. *)
Definition open_journal (j : RunJournal) (chat_id : string) : option (RunJournal * ChatJournal) * RunJournal :=
  match rj_open j !! chat_id with
  | Some h => (Some (j, h), j)
  | None =>
      let open := if (OPEN_FILE_CAP <=? size (rj_open j))%nat then ∅ else rj_open j in
      let stem := sanitize_id chat_id in
      let j0 := mk_rj (rj_files j) (rj_attempts j) open in
      match scan_tail (rj_files j !! stem) with
      | None => (None, j0)
      | Some (next_seq, needs_newline) =>
          let h := mk_cj next_seq needs_newline in
          let j1 := mk_rj (<[stem := default "" (rj_files j !! stem)]> (rj_files j)) (rj_attempts j)
                      (<[chat_id := h]> open) in
          (Some (j1, h), j1)
      end
  end.

Definition line_buf (needs_newline : bool) (seq : N) (event : Event) : string :=
  ((if needs_newline then String newline "" else "") ++ line_of seq event ++ String newline "")%string.

(** [append]: [cut] is the number of bytes the write got to before it failed. *)
Definition append (j : RunJournal) (chat_id : string) (event : Event) (cut : option nat)
    : option N * RunJournal :=
  match open_journal j chat_id with
  | (None, j) => (None, j)
  | (Some (j, h), _) =>
      let stem := sanitize_id chat_id in
      let content := default "" (rj_files j !! stem) in
      let buf := line_buf (cj_needs_newline h) (cj_next_seq h) event in
      match cut with
      | Some n =>
          (None, mk_rj (<[stem := (content ++ String.substring 0 n buf)%string]> (rj_files j)) (rj_attempts j)
                   (rj_open j))
      | None =>
          (Some (cj_next_seq h),
           mk_rj (<[stem := (content ++ buf)%string]> (rj_files j)) (rj_attempts j)
             (<[chat_id := mk_cj (cj_next_seq h + 1) false]> (rj_open j)))
      end
  end.

Definition replay (j : RunJournal) (chat_id : string) (after_seq : N) : option (list (N * Event)) :=
  match rj_files j !! sanitize_id chat_id with
  | None => Some []
  | Some content =>
      all ← read_lines content;
      let last_seq := match last all with Some (seq, _) => seq | None => 0%N end in
      let from := if (last_seq <? after_seq)%N then 0%N else after_seq in
      Some (filter (fun se => (from < se.1)%N) all)
  end.

Definition last_event (j : RunJournal) (chat_id : string) : option (option (N * Event)) :=
  match rj_files j !! sanitize_id chat_id with
  | None => Some None
  | Some content => last <$> read_lines content
  end.

(** [stale_sessions]: the stems, sorted, whose last event [is_done] rejects; one
    unreadable file fails the scan. *)
Definition stale_sessions (is_done : Event -> bool) (j : RunJournal) : option (list string) :=
  stale ← mapM (fun f : string * string =>
                  evs ← read_lines f.2;
                  Some (match last evs with
                        | Some (_, e) => if is_done e then [] else [f.1]
                        | None => []
                        end)) (map_to_list (rj_files j));
  Some (merge_sort string_le (concat stale)).

Definition discard (j : RunJournal) (chat_id : string) : RunJournal :=
  mk_rj (delete (sanitize_id chat_id) (rj_files j)) (rj_attempts j) (delete chat_id (rj_open j)).

(** *** The revival budget *)

Definition digit_of (a : Ascii.ascii) : option N :=
  if byte_in 48 57 a then Some (N.of_nat (Ascii.nat_of_ascii a - 48)) else None.

Fixpoint parse_digits (acc : N) (s : string) : option N :=
  match s with
  | EmptyString => Some acc
  | String a s => d ← digit_of a; parse_digits (acc * 10 + d) s
  end.

(** [str::parse::<u32>]. *)
Definition parse_u32 (s : string) : option N :=
  let digits := default s (strip_prefix "+" s) in
  if String.eqb digits "" then None
  else n ← parse_digits 0 digits; if (n <? 2 ^ 32)%N then Some n else None.

Definition resume_attempts (j : RunJournal) (chat_id : string) : N :=
  default 0%N (rj_attempts j !! sanitize_id chat_id ≫= fun s => parse_u32 (trim s)).

(** [wrote] is whether the ledger write succeeded. *)
Definition note_resume_attempt (j : RunJournal) (chat_id : string) (wrote : bool) : N * RunJournal :=
  let next := (resume_attempts j chat_id + 1)%N in
  (next, if wrote then mk_rj (rj_files j) (<[sanitize_id chat_id := pretty next]> (rj_attempts j)) (rj_open j)
         else j).

Definition clear_resume_attempts (j : RunJournal) (chat_id : string) : RunJournal :=
  mk_rj (rj_files j) (delete (sanitize_id chat_id) (rj_attempts j)) (rj_open j).

(** The process ends: the handles are gone, the files stay. *)
Definition restart (j : RunJournal) : RunJournal := mk_rj (rj_files j) (rj_attempts j) ∅.
End Journal.

(** ** Lines of a file *)

(** A file of control-free lines: its bytes are newlines or no control. *)
Fixpoint file_bytes (s : string) : bool :=
  match s with
  | EmptyString => true
  | String a s => (Ascii.eqb a newline || negb (byte_in 0 31 a)) && file_bytes s
  end.

Lemma file_bytes_app s t : file_bytes (s ++ t)%string = file_bytes s && file_bytes t.
Proof. induction s as [|a s IH]; [done|]. rewrite string_app_cons. cbn. by rewrite IH, andb_assoc. Qed.

Lemma no_control_file s : no_control s = true -> file_bytes s = true.
Proof.
  induction s as [|a s IH]; [done|]. cbn. intros [Ha Hs]%andb_true_iff. by rewrite Ha, orb_true_r, IH.
Qed.

(** The last line of a file starts after its last newline. *)
Lemma file_split s :
  file_bytes s = true ->
  exists p t, s = (p ++ t)%string /\ (p = "" \/ exists q, p = (q ++ String newline "")%string) /\
              no_control t = true.
Proof.
  induction s as [|a s IH]; cbn; [by exists "", ""; auto|].
  intros [Ha Hs]%andb_true_iff. destruct (IH Hs) as (p & t & -> & Hp & Ht).
  destruct (Ascii.eqb_spec a newline) as [->|Hn].
  - exists (String newline p), t. split; [done|]. split; [|done]. right.
    destruct Hp as [->|[q ->]]; [by exists ""|by exists (String newline q)].
  - cbn in Ha. destruct Hp as [->|[q ->]].
    + exists "", (String a t). split; [done|]. split; [by left|]. cbn. by rewrite Ha.
    + exists (String a (q ++ String newline ""))%string, t. split; [done|]. split; [|done]. right.
      by exists (String a q).
Qed.

Lemma last_byte_app s a t : last_byte (s ++ String a t)%string = last_byte (String a t).
Proof.
  induction s as [|b s IH]; [done|]. rewrite string_app_cons. cbn [last_byte]. rewrite IH. cbn.
  by destruct (last_byte t).
Qed.

Lemma last_byte_plain a t :
  no_control (String a t) = true -> exists b, last_byte (String a t) = Some b /\ Ascii.eqb b newline = false.
Proof.
  revert a. induction t as [|c t IH]; intros a H; cbn in H; apply andb_true_iff in H as [Ha Ht].
  - exists a. split; [done|]. by apply no_control_no_newline.
  - destruct (IH c Ht) as (b & Hb & Hn). exists b. split; [|done]. cbn [last_byte] in *. by rewrite Hb.
Qed.

(** What the next append puts in front of its line. *)
Definition sep_of (content : string) : string := if ends_mid_line content then String newline "" else "".

Lemma lines_after_newline p r : (p = "" \/ exists q, p = (q ++ String newline "")%string) ->
  lines (p ++ r)%string = lines p ++ lines r.
Proof.
  intros [->|[q ->]]; [done|]. rewrite string_app_assoc. rewrite string_app_cons, string_app_nil_l.
  unfold lines at 1 2. apply lines_from_split.
Qed.

(** Appending after the separator adds lines and leaves the old ones. *)
Lemma lines_sep content r :
  file_bytes content = true -> lines (content ++ sep_of content ++ r)%string = lines content ++ lines r.
Proof.
  intros H. destruct (file_split content H) as (p & t & -> & Hp & Ht).
  rewrite string_app_assoc, !(lines_after_newline p) by done. rewrite <- app_assoc. f_equal.
  unfold sep_of, ends_mid_line. destruct t as [|a t].
  - rewrite !string_app_nil_r. destruct Hp as [->|[q ->]]; [done|]. rewrite last_byte_app. cbn. done.
  - rewrite last_byte_app. destruct (last_byte_plain a t Ht) as (b & -> & ->). cbn [negb].
    rewrite (lines_plain (String a t)) by done. cbn [String.eqb].
    change (String newline "" ++ r)%string with (String newline r).
    unfold lines at 1. rewrite lines_from_split. f_equal. by apply lines_line.
Qed.

Lemma substring_app k s t :
  String.substring 0 k (s ++ t)%string =
    if (k <=? String.length s)%nat then String.substring 0 k s
    else (s ++ String.substring 0 (k - String.length s) t)%string.
Proof.
  revert k. induction s as [|a s IH]; intros [|k]; try done; [by destruct t|].
  rewrite string_app_cons. cbn [String.substring String.length Nat.leb Nat.sub]. rewrite IH.
  by destruct (k <=? String.length s)%nat.
Qed.

Lemma substring_all k s : (String.length s <= k)%nat -> String.substring 0 k s = s.
Proof. revert k. induction s as [|a s IH]; intros [|k] H; cbn in *; try done; [lia|]. by rewrite IH by lia. Qed.

Lemma substring_prefix k s :
  (k < String.length s)%nat -> exists q, (String.substring 0 k s ++ q)%string = s /\ q <> "".
Proof.
  revert k. induction s as [|a s IH]; intros [|k] H; cbn in H; try lia; [by exists (String a s)|].
  destruct (IH k) as (q & Hq & Hn); [lia|]. exists q. split; [|done]. cbn [String.substring].
  by rewrite string_app_cons, Hq.
Qed.

(** ** The file is a log *)

Section Log.
Context {Event : Type} {J : JournalCodec Event} {L : JournalCodecLaws J}.
Implicit Types (h : list (N * Event)) (j : RunJournal).

Definition content_of j (chat : string) : string := default "" (rj_files j !! sanitize_id chat).

Definition numbered h : Prop := h.*1 = N.of_nat <$> seq 1 (length h).

Record log_inv (chat : string) j h : Prop := {
  li_read : read_lines (content_of j chat) = Some h;
  li_bytes : file_bytes (content_of j chat) = true;
  li_seqs : numbered h;
  li_open hd : rj_open j !! chat = Some hd ->
    cj_next_seq hd = (N.of_nat (length h) + 1)%N /\ cj_needs_newline hd = ends_mid_line (content_of j chat);
}.

Lemma numbered_snoc h e : numbered h -> numbered (h ++ [((N.of_nat (length h) + 1)%N, e)]).
Proof.
  unfold numbered. intros H. rewrite fmap_app, H, length_app, Nat.add_1_r, seq_S, fmap_app. cbn.
  do 2 f_equal. lia.
Qed.

Lemma next_numbered h : numbered h -> next_after h = (N.of_nat (length h) + 1)%N.
Proof.
  destruct h as [|x h] using rev_ind; [done|]. unfold numbered, next_after.
  rewrite last_snoc, fmap_app, length_app, Nat.add_1_r, seq_S, fmap_app. destruct x as [n e]. cbn.
  intros [_ E]%app_inj_tail. lia.
Qed.

Lemma scan_content j chat h :
  read_lines (content_of j chat) = Some h -> numbered h ->
  scan_tail (rj_files j !! sanitize_id chat) =
    Some ((N.of_nat (length h) + 1)%N, ends_mid_line (content_of j chat)).
Proof.
  intros Hr Hn. unfold content_of in *. destruct (rj_files j !! sanitize_id chat) as [c|]; cbn in *.
  - rewrite Hr. cbn. by rewrite next_numbered.
  - by injection Hr as <-.
Qed.

(** The handle an append works on. *)
Lemma open_journal_inv chat j h :
  log_inv chat j h ->
  exists j1, open_journal j chat =
      (Some (j1, mk_cj (N.of_nat (length h) + 1) (ends_mid_line (content_of j chat))), j1) /\
    content_of j1 chat = content_of j chat.
Proof.
  intros [Hr Hb Hs Ho]. unfold open_journal. destruct (rj_open j !! chat) as [[n b]|] eqn:E.
  - destruct (Ho _ eq_refl) as [E1 E2]. cbn in E1, E2. exists j. by subst.
  - rewrite (scan_content _ _ _ Hr Hs). eexists. split; [reflexivity|]. unfold content_of. cbn.
    by rewrite lookup_insert_eq.
Qed.

Lemma read_lines_sep content h r l :
  read_lines content = Some h -> file_bytes content = true -> lines r = l -> forallb utf8_valid l = true ->
  read_lines (content ++ sep_of content ++ r) = Some (h ++ omap read_line l).
Proof.
  unfold read_lines. intros Hr Hb <- Hu. rewrite lines_sep by done.
  destruct (forallb utf8_valid (lines content)) eqn:E; [|done]. injection Hr as <-.
  by rewrite forallb_app, E, Hu, omap_app.
Qed.

Lemma read_line_of n (e : Event) : read_line (line_of n e) = Some (n, e).
Proof. unfold read_line. rewrite (proj2 (String.eqb_neq _ _)) by apply line_not_blank. apply line_roundtrip. Qed.

Lemma buf_sep content seq (e : Event) :
  line_buf (ends_mid_line content) seq e = (sep_of content ++ line_of seq e ++ String newline "")%string.
Proof. done. Qed.
Lemma file_line (e : Event) n : file_bytes (line_of n e) = true.
Proof. apply no_control_file, line_no_control. Qed.

Lemma file_sep content : file_bytes (sep_of content) = true.
Proof. unfold sep_of. by destruct (ends_mid_line content). Qed.

Lemma ends_after_newline s : ends_mid_line (s ++ String newline "")%string = false.
Proof. unfold ends_mid_line. by rewrite last_byte_app. Qed.

(** A completed append adds one event with the next number. *)
Lemma append_logs chat j h e :
  log_inv chat j h ->
  exists j', append j chat e None = (Some (N.of_nat (length h) + 1)%N, j') /\
    log_inv chat j' (h ++ [((N.of_nat (length h) + 1)%N, e)]).
Proof.
  intros Hinv. destruct (open_journal_inv _ _ _ Hinv) as (j1 & E & Ec). destruct Hinv as [Hr Hb Hs Ho].
  unfold append. rewrite E. cbn [cj_needs_newline cj_next_seq].
  fold (content_of j1 chat). rewrite Ec, buf_sep. eexists. split; [reflexivity|].
  set (n := (N.of_nat (length h) + 1)%N).
  match goal with |- log_inv _ ?j2 _ =>
    assert (content_of j2 chat = content_of j chat ++ sep_of (content_of j chat) ++
              line_of n e ++ String newline "")%string as Ec2
      by (unfold content_of; cbn [rj_files]; by rewrite lookup_insert_eq) end.
  split; rewrite ?Ec2.
  - rewrite (read_lines_sep _ h _ [line_of n e]); try done.
    + cbn. by rewrite read_line_of.
    + apply lines_line, line_no_control.
    + cbn. by rewrite line_utf8.
  - rewrite !file_bytes_app, Hb, file_sep, file_line. done.
  - by apply numbered_snoc.
  - cbn [rj_open]. rewrite lookup_insert_eq. intros hd [= <-]. cbn. split; [rewrite length_app; cbn; lia|].
    by rewrite <- !string_app_assoc, ends_after_newline.
Qed.

(** What of a torn write survives: the event when its whole line did. *)
Definition torn (content : string) h (e : Event) (cut : nat) : list (N * Event) :=
  let n := (N.of_nat (length h) + 1)%N in
  if (String.length (sep_of content) + String.length (line_of n e) <=? cut)%nat then h ++ [(n, e)] else h.

Lemma no_control_substring k s : no_control s = true -> no_control (String.substring 0 k s) = true.
Proof.
  revert k. induction s as [|a s IH]; intros [|k]; cbn; try done.
  intros [-> Hs]%andb_true_iff. cbn. auto.
Qed.

(** The lines of a torn line, with its newline or without. *)
Lemma torn_line n (e : Event) k :
  omap read_line (lines (String.substring 0 k (line_of n e ++ String newline "")%string)) =
    if (String.length (line_of n e) <=? k)%nat then [(n, e)] else [].
Proof.
  rewrite substring_app. set (line := line_of n e).
  assert (no_control line = true) as Hc by apply line_no_control.
  assert (line <> "") as Hne by (intros H; apply (line_not_blank n e); fold line; by rewrite H).
  destruct (Nat.leb_spec k (String.length line)) as [Hk|Hk].
  - rewrite lines_plain by by apply no_control_substring.
    destruct (Nat.leb_spec (String.length line) k) as [Hk'|Hk'].
    + rewrite substring_all by done. rewrite (proj2 (String.eqb_neq _ _)) by done. cbn.
      unfold line. by rewrite read_line_of.
    + destruct (substring_prefix k line Hk') as (q & Hq & Hqn).
      destruct (String.eqb _ ""); [done|]. cbn. unfold read_line.
      destruct (String.eqb _ ""); [done|]. by rewrite (line_prefix n e _ q).
  - rewrite (proj2 (Nat.leb_le _ _)) by lia.
    destruct (k - String.length line)%nat as [|m] eqn:Em; [lia|].
    rewrite substring_all by (cbn; lia). rewrite lines_line by done. cbn. unfold line. by rewrite read_line_of.
Qed.

(** A crash while appending, cut at a character boundary. *)
Lemma crash_logs chat j h e cut r j' :
  log_inv chat j h -> append j chat e (Some cut) = (r, j') ->
  forallb utf8_valid (lines (content_of j' chat)) = true ->
  log_inv chat (restart j') (torn (content_of j chat) h e cut).
Proof.
  intros Hinv Ha Hu. destruct (open_journal_inv _ _ _ Hinv) as (j1 & E & Ec). destruct Hinv as [Hr Hb Hs Ho].
  unfold append in Ha. rewrite E in Ha. cbn [cj_needs_newline cj_next_seq] in Ha.
  fold (content_of j1 chat) in Ha. rewrite Ec, buf_sep in Ha. injection Ha as <- <-.
  match type of Hu with context [content_of ?j2 chat] =>
    assert (content_of j2 chat = content_of j chat ++ String.substring 0 cut (sep_of (content_of j chat) ++
              line_of (N.of_nat (length h) + 1) e ++ String newline ""))%string as Ec2
      by (unfold content_of; cbn [rj_files]; by rewrite lookup_insert_eq);
    change (content_of j2 chat) with (content_of (restart j2) chat) in Ec2, Hu end.
  match goal with |- log_inv _ ?x _ => set (j2 := x) in * end.
  assert (rj_open j2 = ∅) as Eo by done. clearbody j2.
  rewrite Ec2 in Hu. set (n := (N.of_nat (length h) + 1)%N) in *.
  set (c := content_of j chat) in *.
  assert (numbered (torn c h e cut)) as Hn.
  { unfold torn. fold n. destruct (_ <=? cut)%nat; [by apply numbered_snoc|done]. }
  rewrite substring_app in Ec2, Hu. split; rewrite ?Ec2, ?Eo; try done.
  - unfold torn. fold n. destruct (Nat.leb_spec cut (String.length (sep_of c))) as [Hk|Hk].
    + (* nothing, or the separator only *)
      rewrite (proj2 (Nat.leb_gt _ _)).
      2: { assert (line_of n e <> "") by (intros H; apply (line_not_blank n e); by rewrite H).
           destruct (line_of n e); [done|]. cbn. lia. }
      destruct (decide (cut = String.length (sep_of c))) as [->|Hne].
      * rewrite substring_all by lia.
        replace (c ++ sep_of c)%string with (c ++ sep_of c ++ "")%string by by rewrite string_app_nil_r.
        rewrite (read_lines_sep c h "" []); [by rewrite app_nil_r|done..].
      * assert (cut = 0%nat) as ->.
        { unfold sep_of in *. destruct (ends_mid_line c); cbn in *; lia. }
        replace (String.substring 0 0 (sep_of c)) with "" by by destruct (sep_of c).
        by rewrite string_app_nil_r.
    + set (k := (cut - String.length (sep_of c))%nat) in *.
      set (p := String.substring 0 k (line_of n e ++ String newline "")%string) in *.
      rewrite lines_sep, forallb_app in Hu by done. apply andb_true_iff in Hu as [_ Hu].
      rewrite (read_lines_sep c h p (lines p)) by done. f_equal. unfold p. rewrite torn_line.
      destruct (Nat.leb_spec (String.length (line_of n e)) k) as [Hl|Hl].
      * by rewrite (proj2 (Nat.leb_le _ _)) by lia.
      * by rewrite (proj2 (Nat.leb_gt _ _)), app_nil_r by lia.
  - rewrite file_bytes_app, Hb. cbn.
    assert (forall k s, file_bytes s = true -> file_bytes (String.substring 0 k s) = true) as Hf.
    { clear. intros k s. revert k. induction s as [|a s IH]; intros [|k]; cbn; try done.
      intros [-> Hs]%andb_true_iff. cbn. auto. }
    destruct (cut <=? _)%nat; [apply Hf, file_sep|]. rewrite file_bytes_app, file_sep. cbn.
    apply Hf. by rewrite file_bytes_app, file_line.
Qed.

(** *** Histories *)

(** What happens to the journal of one chat: an append, a crash that cuts an
    append at a character boundary, an end of the process, any append of a chat
    with another file, a new revival count. *)
Inductive journal_step (chat : string) : RunJournal * list (N * Event) -> RunJournal * list (N * Event) -> Prop :=
  | js_append j h e n j' :
      append j chat e None = (Some n, j') -> journal_step chat (j, h) (j', h ++ [(n, e)])
  | js_crash j h e cut r j' :
      append j chat e (Some cut) = (r, j') -> forallb utf8_valid (lines (content_of j' chat)) = true ->
      journal_step chat (j, h) (restart j', torn (content_of j chat) h e cut)
  | js_restart j h : journal_step chat (j, h) (restart j, h)
  | js_other j h other e cut r j' :
      sanitize_id other <> sanitize_id chat -> append j other e cut = (r, j') ->
      journal_step chat (j, h) (j', h)
  | js_attempt j h id wrote : journal_step chat (j, h) ((note_resume_attempt j id wrote).2, h)
  | js_clear j h id : journal_step chat (j, h) (clear_resume_attempts j id, h).

Lemma log_inv_frame chat j j' h :
  log_inv chat j h -> content_of j' chat = content_of j chat ->
  (forall hd, rj_open j' !! chat = Some hd -> rj_open j !! chat = Some hd) -> log_inv chat j' h.
Proof. intros [Hr Hb Hs Ho] Hc Hop. split; rewrite ?Hc; auto. Qed.

Lemma other_frame chat other j e cut r j' :
  sanitize_id other <> sanitize_id chat -> append j other e cut = (r, j') ->
  content_of j' chat = content_of j chat /\
  (forall hd, rj_open j' !! chat = Some hd -> rj_open j !! chat = Some hd).
Proof.
  intros Hne. assert (other <> chat) as Hoc by congruence.
  assert (forall o j1 hd, open_journal j other = (o, j1) ->
            content_of j1 chat = content_of j chat /\
            (forall hd, rj_open j1 !! chat = Some hd -> rj_open j !! chat = Some hd) /\
            (o = Some (j1, hd) \/ o = None \/ exists hd', o = Some (j1, hd'))) as Hopen.
  { intros o j1 hd. unfold open_journal. destruct (rj_open j !! other) as [h0|]; [intros [= <- <-]; eauto 6|].
    assert (forall hd, (if (OPEN_FILE_CAP <=? size (rj_open j))%nat then ∅ else rj_open j) !! chat = Some hd ->
              rj_open j !! chat = Some hd) as Hcap by (intros ?; by destruct (_ <=? _)%nat).
    destruct (scan_tail _) as [[n b]|]; intros [= <- <-]; cbn; [|eauto 6].
    split; [|split; [|eauto]].
    - unfold content_of. cbn. by rewrite lookup_insert_ne.
    - intros hd'. rewrite lookup_insert_ne by done. apply Hcap. }
  unfold append. destruct (open_journal j other) as [o j1] eqn:E.
  destruct (Hopen o j1 (mk_cj 0 false) eq_refl) as (Hc & Hop & Ho).
  destruct o as [[j2 h2]|]; [|by intros [= <- <-]].
  assert (j2 = j1) as -> by (destruct Ho as [[= ->]|[|[? [= ->]]]]; done).
  destruct cut as [k|]; intros [= <- <-]; unfold content_of in *; cbn.
  - rewrite lookup_insert_ne by congruence. done.
  - rewrite !lookup_insert_ne by congruence. done.
Qed.

Lemma journal_step_inv chat s t :
  journal_step chat s t -> log_inv chat s.1 s.2 -> log_inv chat t.1 t.2.
Proof.
  intros Hst Hinv. destruct Hst as [j h e n j' H|j h e cut r j' H Hu|j h|j h other e cut r j' Hne H|j h id wrote|j h id];
    cbn [fst snd] in *.
  - destruct (append_logs chat j h e Hinv) as (j2 & E & H2). rewrite E in H. by injection H as <- <-.
  - by eapply crash_logs.
  - by eapply log_inv_frame.
  - destruct (other_frame _ _ _ _ _ _ _ Hne H). by eapply log_inv_frame.
  - unfold note_resume_attempt. cbn. destruct wrote; [|done]. by eapply log_inv_frame.
  - by eapply log_inv_frame.
Qed.

Lemma filter_after h k :
  numbered h -> filter (fun se => (N.of_nat k < se.1)%N) h = drop k h.
Proof.
  unfold numbered. intros Hn.
  assert (forall h i, h.*1 = N.of_nat <$> seq (S i) (length h) ->
            filter (fun se : N * Event => (N.of_nat k < se.1)%N) h = drop (k - i) h) as H.
  { clear. induction h as [|[n e] h IH]; intros i Hs; [by rewrite drop_nil|].
    cbn in Hs. injection Hs as -> Hs. rewrite filter_cons, (IH (S i)) by done. cbn [fst].
    case_decide as Hk.
    - replace (k - i)%nat with 0%nat by lia. by replace (k - S i)%nat with 0%nat by lia.
    - by replace (k - i)%nat with (S (k - S i)) by lia. }
  rewrite (H h 0%nat Hn). by rewrite Nat.sub_0_r.
Qed.

Lemma Forall2_elem_l {A B} (P : A -> B -> Prop) l k x :
  Forall2 P l k -> x ∈ l -> exists y, y ∈ k /\ P x y.
Proof.
  intros H [i Hi]%list_elem_of_lookup. destruct (Forall2_lookup_l _ _ _ _ _ H Hi) as (y & Hy & HP).
  exists y. split; [|done]. by eapply list_elem_of_lookup_2.
Qed.

Lemma Forall2_elem_r {A B} (P : A -> B -> Prop) l k y :
  Forall2 P l k -> y ∈ k -> exists x, x ∈ l /\ P x y.
Proof.
  intros H [i Hi]%list_elem_of_lookup. destruct (Forall2_lookup_r _ _ _ _ _ H Hi) as (x & Hx & HP).
  exists x. split; [|done]. by eapply list_elem_of_lookup_2.
Qed.

(** The scan lists a file exactly when its last event is no turn end. *)
Lemma elem_of_stale is_done j l chat h :
  stale_sessions is_done j = Some l -> read_lines (content_of j chat) = Some h ->
  sanitize_id chat ∈ l <-> exists n e, last h = Some (n, e) /\ is_done e = false.
Proof.
  unfold stale_sessions. intros (ls & Hm & [= <-])%bind_Some Hr.
  rewrite (merge_sort_Permutation string_le (concat ls)), list_elem_of_In, in_concat.
  setoid_rewrite <- list_elem_of_In. apply mapM_Some in Hm. split.
  - intros (x & Hx & Hin). destruct (Forall2_elem_r _ _ _ _ Hm Hx) as ([stem c] & Hc%elem_of_map_to_list & Hf).
    cbn in Hf. apply bind_Some in Hf as (evs & He & [= <-]).
    destruct (last evs) as [[n e]|] eqn:El; [|by apply not_elem_of_nil in Hin].
    destruct (is_done e) eqn:Ed; [by apply not_elem_of_nil in Hin|].
    apply list_elem_of_singleton in Hin as <-. unfold content_of in Hr. rewrite Hc in Hr. cbn in Hr.
    rewrite Hr in He. injection He as <-. eauto.
  - intros (n & e & El & Ed). unfold content_of in Hr.
    destruct (rj_files j !! sanitize_id chat) as [c|] eqn:Ec; cbn in Hr; [|by injection Hr as <-].
    apply elem_of_map_to_list in Ec.
    destruct (Forall2_elem_l _ _ _ _ Hm Ec) as (x & Hx & Hf). exists x. split; [done|].
    cbn in Hf. rewrite Hr in Hf. cbn in Hf. rewrite El, Ed in Hf. injection Hf as <-. by left.
Qed.

(** The journal is a log. After any history of appends, crashes that tear
    the last write at a character boundary, restarts and other chats' appends,
    the file reads as exactly the events whose lines completed, in order,
    numbered from one without a gap; a replay after a number gives the later
    events, and everything when the cursor is ahead of the file; the scan, when it
    can read every file, lists the chat exactly when its last event is not a
    turn end; and the next append succeeds with the next number. *)
Theorem journal_is_log chat s :
  rtc (journal_step chat) (mk_rj ∅ ∅ ∅, []) s ->
  let '(j, h) := s in
  numbered h /\ read_lines (content_of j chat) = Some h /\
  (forall k, replay j chat (N.of_nat k) = Some (if (length h <? k)%nat then h else drop k h)) /\
  (forall is_done l, stale_sessions is_done j = Some l ->
     sanitize_id chat ∈ l <-> exists n e, last h = Some (n, e) /\ is_done e = false) /\
  (forall e, exists j', append j chat e None = (Some (N.of_nat (length h) + 1)%N, j')).
Proof.
  intros Hrtc. assert (log_inv chat s.1 s.2) as Hinv.
  { revert s Hrtc. apply (rtc_ind_r (fun s => log_inv chat s.1 s.2)); [by split|].
    intros y z _ Hst Hy. by eapply journal_step_inv. }
  destruct s as [j h]. cbn [fst snd] in Hinv. pose proof Hinv as [Hr Hb Hs Ho].
  split_and!; [done|done|..].
  - intros k. unfold replay, content_of in *. destruct (rj_files j !! sanitize_id chat) as [c|]; cbn [from_option] in *.
    2: { injection Hr as <-. by destruct k. }
    change (id c) with c in Hr. rewrite Hr. cbn [mbind option_bind]. f_equal.
    assert (match last h with Some (seq, _) => seq | None => 0%N end = N.of_nat (length h)) as ->.
    { pose proof (next_numbered h Hs) as Hl. unfold next_after in Hl. destruct (last h) as [[n e]|] eqn:El; [lia|].
      by apply last_None in El as ->. }
    destruct (Nat.ltb_spec (length h) k) as [Hk|Hk].
    + rewrite (proj2 (N.ltb_lt _ _)) by lia. exact (filter_after h 0 Hs).
    + rewrite (proj2 (N.ltb_ge _ _)) by lia. by apply filter_after.
  - intros is_done l Hl. by apply (elem_of_stale is_done j l chat).
  - intros e. destruct (append_logs chat j h e Hinv) as (j' & E & _). eauto.
Qed.
End Log.

(** ** The revival budget counts *)

Lemma digit_of_pretty d : (d < 10)%N -> digit_of (pretty_N_char d) = Some d /\ graphic (pretty_N_char d) = true.
Proof.
  intros H. assert (d = 0 \/ d = 1 \/ d = 2 \/ d = 3 \/ d = 4 \/ d = 5 \/ d = 6 \/ d = 7 \/ d = 8 \/ d = 9)%N
    as Hd by lia.
  by repeat (destruct Hd as [->|Hd]; [done|]); subst.
Qed.

Lemma parse_pretty_go n s : parse_digits 0 (pretty_N_go n s) = parse_digits n s.
Proof.
  revert s. induction (N.lt_wf_0 n) as [n _ IH]; intros s.
  destruct (decide (n = 0%N)) as [->|Hn]; [by rewrite pretty_N_go_0|].
  rewrite pretty_N_go_step by lia. rewrite IH by (apply N.div_lt; lia). cbn.
  destruct (digit_of_pretty (n `mod` 10)) as [-> _]; [by apply N.mod_lt|]. cbn. f_equal.
  pose proof (N.div_mod n 10). lia.
Qed.

Lemma all_graphic_go n s : all_graphic s = true -> all_graphic (pretty_N_go n s) = true.
Proof.
  revert s. induction (N.lt_wf_0 n) as [n _ IH]; intros s Hs.
  destruct (decide (n = 0%N)) as [->|Hn]; [by rewrite pretty_N_go_0|].
  rewrite pretty_N_go_step by lia. apply IH; [apply N.div_lt; lia|]. cbn.
  destruct (digit_of_pretty (n `mod` 10)) as [_ ->]; [by apply N.mod_lt|]. done.
Qed.

Lemma pretty_first (n : N) : exists a s, pretty n = String a s /\ digit_of a <> None.
Proof.
  unfold pretty, pretty_N. destruct (decide (n = 0%N)) as [->|Hn]; [by exists (Ascii.ascii_of_nat 48), ""|].
  assert (forall n s, (0 < n)%N -> exists a s', pretty_N_go n s = String a s' /\ digit_of a <> None) as H.
  { clear. intros n. induction (N.lt_wf_0 n) as [n _ IH]; intros s Hn. rewrite pretty_N_go_step by done.
    destruct (decide (n `div` 10 = 0)%N) as [E|E].
    - rewrite E, pretty_N_go_0. eexists _, _. split; [done|].
      destruct (digit_of_pretty (n `mod` 10)) as [-> _]; [by apply N.mod_lt|done].
    - apply IH; [apply N.div_lt; lia|]. by apply N.neq_0_lt_0. }
  apply H. lia.
Qed.

Lemma parse_u32_pretty (n : N) : (n < 2 ^ 32)%N -> parse_u32 (trim (pretty n)) = Some n.
Proof.
  intros Hn. rewrite trim_graphic.
  2: { unfold pretty, pretty_N. case_decide; [done|]. by apply all_graphic_go. }
  unfold parse_u32. destruct (pretty_first n) as (a & s & E & Ha).
  assert (strip_prefix "+" (pretty n) = None) as ->.
  { rewrite E. cbn [strip_prefix]. destruct (Ascii.eqb _ a) eqn:Ea; [|done].
    apply Ascii.eqb_eq in Ea. by subst a. }
  cbn [from_option]. change (id (pretty n)) with (pretty n). rewrite E at 1. cbn [String.eqb].
  assert (parse_digits 0 (pretty n) = Some n) as ->.
  { unfold pretty, pretty_N. case_decide as Hz; [by subst|]. by rewrite parse_pretty_go. }
  cbn. by rewrite (proj2 (N.ltb_lt _ _)).
Qed.

(** Noting an attempt counts it, for the next engine too. *)
Lemma note_counts j chat n j' :
  note_resume_attempt j chat true = (n, j') -> (n < 2 ^ 32)%N ->
  n = (resume_attempts j chat + 1)%N /\ resume_attempts (restart j') chat = n /\
  resume_attempts (restart (clear_resume_attempts j' chat)) chat = 0%N.
Proof.
  unfold note_resume_attempt. intros [= Hn <-] Hlt. subst n.
  split_and!; [done|..]; unfold resume_attempts at 1; cbn [rj_attempts restart clear_resume_attempts].
  - rewrite lookup_insert_eq. cbn [mbind option_bind]. by rewrite parse_u32_pretty.
  - by rewrite lookup_delete_eq.
Qed.

(** ** Witnesses and limits *)

(** A codec to run on: the number in unary after a two-byte character. *)
Fixpoint toy_tail (n : nat) (e : bool) : string :=
  match n with
  | O => if e then "t}" else "f}"
  | S n => String (Ascii.ascii_of_nat 120) (toy_tail n e)
  end.

Fixpoint toy_parse (n : nat) (s : string) : option (N * bool) :=
  if String.eqb s "t}" then Some (N.of_nat n, true)
  else if String.eqb s "f}" then Some (N.of_nat n, false)
  else match s with
       | String a s => if Ascii.eqb a (Ascii.ascii_of_nat 120) then toy_parse (S n) s else None
       | EmptyString => None
       end.

Definition toy_head : string := bytes_string [123; 195; 169]%nat.

#[local] Instance toy_codec : JournalCodec bool := {|
  line_of n e := (toy_head ++ toy_tail (N.to_nat n) e)%string;
  parse_line s := strip_prefix toy_head s ≫= toy_parse 0;
|}.

Lemma toy_tail_parse n m e : toy_parse m (toy_tail n e) = Some (N.of_nat (m + n), e).
Proof.
  revert m. induction n as [|n IH]; intros m; [rewrite Nat.add_0_r; by destruct e|].
  cbn. rewrite IH. do 3 f_equal. lia.
Qed.

Lemma toy_tail_prefix n m e p q :
  (p ++ q)%string = toy_tail n e -> q <> "" -> toy_parse m p = None.
Proof.
  revert m p. induction n as [|n IH]; intros m p Hpq Hq; cbn in Hpq.
  - destruct p as [|a [|b [|c p]]]; [done|..]; rewrite ?string_app_cons, ?string_app_nil_l in Hpq;
      destruct e; simplify_eq; done.
  - destruct p as [|a p]; [done|]. rewrite string_app_cons in Hpq. injection Hpq as -> Hpq. cbn.
    by apply IH.
Qed.

Lemma toy_tail_brace n e : exists p, toy_tail n e = (p ++ "}")%string.
Proof.
  induction n as [|n [p IH]].
  - destruct e; [by exists "t"|by exists "f"].
  - cbn. rewrite IH. by exists (String (Ascii.ascii_of_nat 120) p).
Qed.

Lemma rev_onto_snoc x a acc : exists r, rev_onto (x ++ String a "")%string acc = String a r.
Proof. revert acc. induction x as [|c x IH]; intros acc; [by eexists|]. rewrite string_app_cons. apply IH. Qed.

Lemma toy_no_control n e : no_control (toy_tail n e) = true.
Proof. induction n as [|n IH]; [by destruct e|done]. Qed.

Lemma toy_utf8 n e : utf8_valid (toy_tail n e) = true.
Proof. induction n as [|n IH]; [by destruct e|done]. Qed.

#[local] Instance toy_laws : JournalCodecLaws toy_codec.
Proof.
  split; cbn [line_of parse_line toy_codec].
  - intros n e. rewrite strip_prefix_app. cbn [mbind option_bind]. rewrite toy_tail_parse.
    do 2 f_equal. cbn. by rewrite N2Nat.id.
  - intros n e. exact (toy_utf8 _ _).
  - intros n e. exact (toy_no_control _ _).
  - intros n e. destruct (toy_tail_brace (N.to_nat n) e) as [p ->]. rewrite <- string_app_assoc.
    destruct (rev_onto_snoc (toy_head ++ p)%string (Ascii.ascii_of_nat 125) "") as [r Hr].
    unfold trim, trim_start.
    assert (trim_with (String.length ((toy_head ++ p) ++ "}")%string) WHITE_SPACE ((toy_head ++ p) ++ "}")%string
            = ((toy_head ++ p) ++ "}")%string) as -> by reflexivity.
    unfold trim_end, reverse at 3. change "}" with (String (Ascii.ascii_of_nat 125) ""). rewrite Hr.
    assert (forall k, trim_with k (reverse <$> WHITE_SPACE) (String (Ascii.ascii_of_nat 125) r) =
              String (Ascii.ascii_of_nat 125) r) as -> by by intros [].
    intros H. rewrite <- Hr, reverse_reverse in H. done.
  - intros n e p q Hpq Hq. destruct (strip_prefix toy_head p) as [p'|] eqn:E; [|done].
    apply strip_prefix_Some in E as ->. cbn. rewrite string_app_assoc in Hpq.
    eapply toy_tail_prefix; [|exact Hq].
    by apply (inj (String.append toy_head)) in Hpq.
Qed.

(** An appended event, a second one cut inside its line, a restart. *)
Definition sample_one : RunJournal := (append (mk_rj ∅ ∅ ∅) "c" true None).2.
Definition sample_torn : RunJournal := restart (append sample_one "c" false (Some 5%nat)).2.

Lemma journal_is_log_witness :
  replay sample_torn "c" 0 = Some [(1%N, true)] /\
  exists j', append sample_torn "c" true None = (Some 2%N, j').
Proof.
  assert (journal_step "c" (mk_rj ∅ ∅ ∅, []) (sample_one, [(1%N, true)])) as H1
    by exact (js_append "c" (mk_rj ∅ ∅ ∅) [] true 1%N sample_one eq_refl).
  pose proof (js_crash "c" sample_one [(1%N, true)] false 5%nat None
                (append sample_one "c" false (Some 5%nat)).2 eq_refl eq_refl) as H2.
  change (torn _ _ _ _) with [(1%N, true)] in H2.
  destruct (journal_is_log "c" (sample_torn, [(1%N, true)])) as (_ & _ & Hr & _ & Ha).
  - eapply rtc_l; [exact H1|]. by apply rtc_once.
  - split; [exact (Hr 0%nat)|exact (Ha true)].
Defined.

(** A write torn inside a character is not tolerated: the chat can no longer be
    appended to or replayed, and the boot scan fails for every chat. *)
Lemma torn_character_blocks_journal :
  let j := restart (append (append (mk_rj ∅ ∅ ∅) "c" true None).2 "c" false (Some 2%nat)).2 in
  (append j "c" true None).1 = None /\ replay j "c" 0 = None /\
  stale_sessions (fun e => e) j = None /\
  stale_sessions (fun e => e) (append j "other" false None).2 = None.
Proof. vm_compute. repeat split. Qed.

(** After a write that fails part way, the handle still believes the file ends
    in a newline: the next append reports success and is glued to the torn line,
    so both are lost and the one after reuses no number but leaves a gap. *)
Lemma failed_write_swallows_next :
  let j := (append (append (mk_rj ∅ ∅ ∅) "c" true None).2 "c" false (Some 5%nat)).2 in
  let '(n, j) := append j "c" true None in
  n = Some 2%N /\ replay j "c" 0 = Some [(1%N, true)] /\
  replay (append j "c" false None).2 "c" 0 = Some [(1%N, true); (3%N, false)].
Proof. vm_compute. repeat split. Qed.
