(* ===== verification/SourceControl.v ===== *)
(** The pull request of a checkout: crates/engine/src/source_control.rs. What
    git says of a branch, the remote it is pushed to, the questions put to the
    GitHub command line and the one pull request kept of its answers.

    Processes are a parameter: [run] answers a request and changes a world [W]
    of its own. So are the parsing of an instant and of a URL and the lossy
    decoding of bytes ([GhLibs]). A path is its text, output its bytes. *)
From S2P Require Import Prelude Json Text Entities View Journal.

Definition GIT_TIMEOUT : Z := 10000.
Definition GITHUB_TIMEOUT : Z := 20000.
Definition GIT_OUTPUT_LIMIT : Z := 64 * 1024.
Definition GITHUB_OUTPUT_LIMIT : Z := 1024 * 1024.
Definition GITHUB_RESULT_LIMIT : string := "20".
Definition GITHUB_JSON_FIELDS : string :=
  "number,title,url,state,baseRefName,headRefName,updatedAt,isCrossRepository,headRepositoryOwner".

(** ** Remotes and branches *)

Record GitRemote := mk_remote { gr_host : string; gr_owner : string; gr_repository : string }.

Record BranchHeadContext := mk_head {
  bh_local_branch : string;
  bh_upstream_ref : option string;
  bh_remote_name : option string;
  bh_remote_url : option string;
  bh_host : option string;
  bh_repository : option string;
  bh_owner : option string;
  bh_head_branch : string;
  bh_head_selectors : list string;
}.

Record CheckoutSourceContext := mk_source {
  cs_checkout_root : string;
  cs_branch : BranchHeadContext;
  cs_default_branch : option string;
}.

Inductive ChangeRequestError :=
  | RepositoryUnavailable | UnsupportedRepository | CliUnavailable | Authentication
  | RateLimited | RequestTimeout | Decode | CommandFailed.

#[export] Instance change_request_error_eq_dec : EqDecision ChangeRequestError.
Proof. solve_decision. Defined.

Definition colon : Ascii.ascii := Ascii.ascii_of_nat 58.
Definition slash : Ascii.ascii := Ascii.ascii_of_nat 47.
Definition at_sign : Ascii.ascii := Ascii.ascii_of_nat 64.

(** [chars().any(char::is_whitespace)]. *)
Fixpoint any_whitespace (s : string) : bool :=
  match s with
  | EmptyString => false
  | String _ s' => match strip_first WHITE_SPACE s with Some _ => true | None => any_whitespace s' end
  end.

(** [str::trim_matches] at a character. *)
Definition trim_matches (c s : string) : string :=
  let s := trim_with (String.length s) [c] s in
  reverse (trim_with (String.length s) [c] (reverse s)).

(** [str::rsplit_once] at a character. *)
Definition rsplit_once (c : Ascii.ascii) (s : string) : option (string * string) :=
  '(y, x) ← split_once c (reverse s); Some (reverse x, reverse y).

Definition host_from_authority (authority : string) : option string :=
  let host := match rsplit_once at_sign authority with Some (_, host) => host | None => authority end in
  let host := match split_once colon host with Some (host, _) => host | None => host end in
  if String.eqb host "" then None else Some host.

(** The host and path of a remote, in the URL and the scp-like form. *)
Definition host_and_path (url : string) : option (string * string) :=
  match split_once_str "://" url with
  | Some (scheme, remainder) =>
      if negb (bool_decide (to_ascii_lowercase scheme ∈ ["ssh"; "http"; "https"])) then None
      else
        '(authority, path) ← split_once slash remainder;
        host ← host_from_authority authority;
        Some (host, path)
  | None =>
      '(authority, path) ← split_once colon url;
      if has_char slash authority || starts_with "/" path then None
      else host ← host_from_authority authority; Some (host, path)
  end.

Definition parse_git_remote (remote_url : string) : option GitRemote :=
  let url := trim remote_url in
  if String.eqb url "" || any_whitespace url then None
  else
    '(host, path) ← host_and_path url;
    match split_on slash (trim_matches "/" path) with
    | [owner; repository] =>
        if String.eqb owner "" || String.eqb repository "" then None
        else
          let repository := default repository (strip_suffix ".git" repository) in
          if String.eqb repository "" then None
          else Some (mk_remote (to_ascii_lowercase host) owner repository)
    | _ => None
    end.

Definition non_empty (value : option string) : option string :=
  s ← trim <$> value; if String.eqb s "" then None else Some s.

Definition normalized_upstream (upstream : string) : string :=
  default upstream (strip_prefix "refs/remotes/" upstream).

Definition remote_from_upstream (upstream : string) : option string :=
  fst <$> split_once slash (normalized_upstream upstream).

Definition unless_empty (s : string) : option string := if String.eqb s "" then None else Some s.

Definition branch_from_upstream (upstream : string) (remote_name : option string) : option string :=
  let upstream := normalized_upstream upstream in
  match r ← remote_name; strip_prefix (r +:+ "/") upstream with
  | Some branch => unless_empty branch
  | None => '(_, branch) ← split_once slash upstream; unless_empty branch
  end.

Definition push_unique (values : list string) (value : string) : list string :=
  if decide (value ∈ values) then values else values ++ [value].

(** [BranchHeadContext::resolve] *)
Definition resolve (local_branch : string) (upstream_ref remote_name remote_url : option string) : BranchHeadContext :=
  let upstream_ref := non_empty upstream_ref in
  let remote_name := match non_empty remote_name with
                     | Some r => Some r
                     | None => upstream_ref ≫= remote_from_upstream
                     end in
  let remote_url := non_empty remote_url in
  let parsed := remote_url ≫= parse_git_remote in
  let upstream_branch := u ← upstream_ref; branch_from_upstream u remote_name in
  let head_branch := default local_branch upstream_branch in
  let selectors := match parsed with
                   | Some remote => push_unique [] (gr_owner remote +:+ ":" +:+ head_branch)
                   | None => []
                   end in
  let selectors := if upstream_ref is Some _ then push_unique selectors head_branch else selectors in
  let selectors :=
    if negb (bool_decide (is_Some upstream_ref)) || String.eqb local_branch head_branch
    then push_unique selectors local_branch else selectors in
  mk_head local_branch upstream_ref remote_name remote_url (gr_host <$> parsed) (gr_repository <$> parsed)
    (gr_owner <$> parsed) head_branch selectors.

Example remote_forms :
  (fun u => (fun r => (gr_host r, gr_owner r, gr_repository r)) <$> parse_git_remote u) <$>
    ["git@github.com:owner/repo.git"; "ssh://git@GitHub.com/owner/repo.git"; "https://github.com/owner/repo";
     "https://user@github.example.com/owner/repo.git/"; "ssh://git@host:22/o/r"] =
  [Some ("github.com", "owner", "repo"); Some ("github.com", "owner", "repo"); Some ("github.com", "owner", "repo");
   Some ("github.example.com", "owner", "repo"); Some ("host", "o", "r")].
Proof. vm_compute. reflexivity. Qed.

Example malformed_remotes :
  parse_git_remote <$> ["file:///tmp/repo"; "/tmp/repo"; "git://github.com/owner/repo.git"; "https://github.com/owner";
     "https://github.com/owner/repo/extra"; ""; "git@h:o/.git"] = replicate 7 None.
Proof. vm_compute. reflexivity. Qed.

Example fork_selectors :
  let b := resolve "local-name" (Some "fork/published-name") (Some "fork")
             (Some "git@github.com:contributor/postillion.git") in
  (bh_owner b, bh_head_branch b, bh_head_selectors b) =
    (Some "contributor", "published-name", ["contributor:published-name"; "published-name"]).
Proof. vm_compute. reflexivity. Qed.

(** ** Processes *)

Record ProcessRequest := mk_request {
  pq_program : string;
  pq_args : list string;
  pq_cwd : string;
  pq_env : list (string * string);
  pq_timeout : Z;
  pq_output_limit : Z;
}.

Record ProcessOutput := mk_output {
  po_success : bool;
  po_stdout : string;
  po_stderr : string;
  po_stdout_truncated : bool;
}.

Inductive ErrorKind := NotFound | OtherKind.
Inductive ProcessRunError := Spawn (kind : ErrorKind) | TimedOut | Io.

(** The loop of [read_capped] over what each read returns, empty at the end. *)
Fixpoint read_loop (limit : Z) (reads : list string) (output : string) (truncated : bool) : string * bool :=
  match reads with
  | [] | "" :: _ => (output, truncated)
  | chunk :: reads =>
      let remaining := Z.max 0 (limit - Z.of_nat (String.length output)) in
      let keep := Z.min (Z.of_nat (String.length chunk)) remaining in
      read_loop limit reads (output +:+ slice 0 (Z.to_nat keep) chunk)
        (truncated || (keep <? Z.of_nat (String.length chunk)))
  end.

Definition read_capped (limit : Z) (reads : list string) : string * bool := read_loop limit reads "" false.

(** What becomes of a child: it did not start, a pipe or a read failed, it ran
    out of time, or it ended with what it wrote. *)
Inductive Child :=
  | NoSpawn (kind : ErrorKind) | NoPipe | ReadFailed | Overran
  | Ended (success : bool) (out err : list string).

(** [SystemProcessRunner::run] on the child's fate. *)
Definition system_run (request : ProcessRequest) (child : Child) : ProcessOutput + ProcessRunError :=
  match child with
  | NoSpawn kind => inr (Spawn kind)
  | NoPipe | ReadFailed => inr Io
  | Overran => inr TimedOut
  | Ended success out err =>
      let '(stdout, truncated) := read_capped (pq_output_limit request) out in
      let '(stderr, _) := read_capped (pq_output_limit request) err in
      inl (mk_output success stdout stderr truncated)
  end.

Definition classify_run_error (error : ProcessRunError) : ChangeRequestError :=
  match error with
  | Spawn NotFound => CliUnavailable
  | TimedOut => RequestTimeout
  | Spawn _ | Io => CommandFailed
  end.

(** ** Pull requests *)

Inductive GhPullRequestState := GhOpen | GhClosed | GhMerged.
Inductive ChangeRequestState := CrsOpen | CrsMerged | CrsClosed.

#[export] Instance gh_state_eq_dec : EqDecision GhPullRequestState.
Proof. solve_decision. Defined.
#[export] Instance change_request_state_eq_dec : EqDecision ChangeRequestState.
Proof. solve_decision. Defined.

Definition state_of_gh (s : GhPullRequestState) : ChangeRequestState :=
  match s with GhOpen => CrsOpen | GhClosed => CrsClosed | GhMerged => CrsMerged end.

Record ChangeRequestSummary := mk_summary {
  sm_provider : string;
  sm_number : N;
  sm_title : string;
  sm_url : string;
  sm_state : ChangeRequestState;
  sm_base_ref : string;
  sm_head_ref : string;
}.

#[export] Instance summary_eq_dec : EqDecision ChangeRequestSummary.
Proof. solve_decision. Defined.

(** [reqwest::Url]: its text, scheme and host. *)
Record Url := mk_url { url_text : string; url_scheme : string; url_host : option string }.

(** chrono's RFC 3339 parser, [String::from_utf8_lossy], [Url::parse]. *)
Class GhLibs {C : Chrono} := {
  parse_datetime : string -> option DateTime;
  from_utf8_lossy : string -> string;
  url_parse : string -> option Url;
}.

Definition gh_state_of_value (v : Value) : option GhPullRequestState :=
  s ← as_str v;
  if String.eqb s "OPEN" then Some GhOpen
  else if String.eqb s "CLOSED" then Some GhClosed
  else if String.eqb s "MERGED" then Some GhMerged else None.

Section Provider.
Context {C : Chrono} {I : Instants} {J : JsonText} {G : GhLibs}.

Record GhPullRequest := mk_pr {
  pr_number : N;
  pr_title : string;
  pr_url : string;
  pr_state : GhPullRequestState;
  pr_base_ref_name : string;
  pr_head_ref_name : string;
  pr_updated_at : DateTime;
  pr_is_cross_repository : bool;
  pr_head_owner : string;
}.

Definition login_of_value (v : Value) : option string := is_object v ≫= fun v => field_req as_str v "login".

Definition pr_of_value (v : Value) : option GhPullRequest :=
  v ← is_object v;
  number ← field_req as_u64 v "number";
  title ← field_req as_str v "title";
  url ← field_req as_str v "url";
  state ← field_req gh_state_of_value v "state";
  base ← field_req as_str v "baseRefName";
  head ← field_req as_str v "headRefName";
  updated ← field_req (fun w => as_str w ≫= parse_datetime) v "updatedAt";
  cross ← field_req as_boolean v "isCrossRepository";
  owner ← field_req login_of_value v "headRepositoryOwner";
  Some (mk_pr number title url state base head updated cross owner).

(** [GhRepoView]: the name of the default branch, if there is one. *)
Definition repo_view_of_value (v : Value) : option (option string) :=
  v ← is_object v; field_option (fun w => is_object w ≫= fun w => field_req as_str w "name") v "defaultBranchRef".

Definition is_open (p : GhPullRequest) : bool := match pr_state p with GhOpen => true | _ => false end.

Definition needs_default_branch (source : CheckoutSourceContext) (candidates : list GhPullRequest) : bool :=
  existsb (fun c => String.eqb (pr_head_ref_name c) (bh_head_branch (cs_branch source)) && negb (is_open c)) candidates.

Definition to_summary (provider : string) (p : GhPullRequest) : ChangeRequestSummary + ChangeRequestError :=
  if (pr_number p =? 0)%N || String.eqb (trim (pr_title p)) "" || String.eqb (trim (pr_base_ref_name p)) ""
     || String.eqb (trim (pr_head_ref_name p)) "" then inr Decode
  else
    match url_parse (trim (pr_url p)) with
    | None => inr Decode
    | Some url =>
        if negb (bool_decide (url_scheme url ∈ ["http"; "https"])) || negb (bool_decide (is_Some (url_host url)))
        then inr Decode
        else inl (mk_summary provider (pr_number p) (pr_title p) (url_text url) (state_of_gh (pr_state p))
                    (pr_base_ref_name p) (pr_head_ref_name p))
    end.

(** Rust's order of [bool]. *)
Definition bool_compare (a b : bool) : comparison :=
  match a, b with false, true => Lt | true, false => Gt | _, _ => Eq end.

Definition pr_cmp (left right : GhPullRequest) : comparison :=
  then_with (then_with (bool_compare (is_open right) (is_open left))
                       (nanos (pr_updated_at right) ?= nanos (pr_updated_at left)))
    (Z.of_N (pr_number right) ?= Z.of_N (pr_number left)).

Definition matching (source : CheckoutSourceContext) (default_branch : option string) (c : GhPullRequest) : bool :=
  let b := cs_branch source in
  String.eqb (pr_head_ref_name c) (bh_head_branch b) &&
  (match bh_owner b with
   | Some owner => eq_ignore_ascii_case (pr_head_owner c) owner
   | None => negb (pr_is_cross_repository c)
   end) &&
  (negb (bool_decide (default_branch = Some (bh_head_branch b))) || is_open c).

Definition select_pull_request (provider : string) (source : CheckoutSourceContext) (default_branch : option string)
    (candidates : list GhPullRequest) : option ChangeRequestSummary + ChangeRequestError :=
  match sort_by pr_cmp (List.filter (matching source default_branch) candidates) with
  | [] => inl None
  | p :: _ => match to_summary provider p with inl s => inl (Some s) | inr e => inr e end
  end.

Definition classify_github_failure (stderr : string) : ChangeRequestError :=
  let stderr := to_ascii_lowercase (from_utf8_lossy stderr) in
  if contains "rate limit" stderr || contains "secondary rate" stderr then RateLimited
  else if contains "not logged" stderr || contains "authentication" stderr || contains "authenticate" stderr
          || contains "gh auth login" stderr || contains "bad credentials" stderr then Authentication
  else CommandFailed.

Context {W : Type} (run : ProcessRequest -> W -> (ProcessOutput + ProcessRunError) * W).

Definition gh_request (source : CheckoutSourceContext) (args : list string) : ProcessRequest :=
  mk_request "gh" args (cs_checkout_root source) [("GH_PROMPT_DISABLED", "1")] GITHUB_TIMEOUT GITHUB_OUTPUT_LIMIT.

Definition list_args (selector : string) : list string :=
  ["pr"; "list"; "--head"; selector; "--state"; "all"; "--limit"; GITHUB_RESULT_LIMIT; "--json"; GITHUB_JSON_FIELDS].

Definition read_list (answer : ProcessOutput + ProcessRunError) : list GhPullRequest + ChangeRequestError :=
  match answer with
  | inr e => inr (classify_run_error e)
  | inl output =>
      if negb (po_success output) then inr (classify_github_failure (po_stderr output))
      else if po_stdout_truncated output then inr Decode
      else match from_text (po_stdout output) ≫= as_vec pr_of_value with Some l => inl l | None => inr Decode end
  end.

Definition list_for_selector (source : CheckoutSourceContext) (selector : string) (w : W)
    : (list GhPullRequest + ChangeRequestError) * W :=
  let '(answer, w) := run (gh_request source (list_args selector)) w in (read_list answer, w).

Definition read_view (answer : ProcessOutput + ProcessRunError) : option string :=
  match answer with
  | inr _ => None
  | inl output =>
      if negb (po_success output) || po_stdout_truncated output then None
      else name ← (from_text (po_stdout output) ≫= repo_view_of_value); name ← name; unless_empty name
  end.

(** [GitHubCli::default_branch] *)
Definition default_branch (source : CheckoutSourceContext) (w : W) : option string * W :=
  let b := cs_branch source in
  match bh_host b, bh_owner b, bh_repository b with
  | Some host, Some owner, Some repository =>
      let '(answer, w) := run (gh_request source ["repo"; "view"; host +:+ "/" +:+ owner +:+ "/" +:+ repository;
                                                  "--json"; "defaultBranchRef"]) w in
      (read_view answer, w)
  | _, _, _ => (None, w)
  end.

Definition provider : string := "github".

Definition supported (source : CheckoutSourceContext) : bool :=
  let b := cs_branch source in
  bool_decide (is_Some (bh_host b)) && bool_decide (is_Some (bh_owner b)) && bool_decide (is_Some (bh_repository b)).

Definition known_default (source : CheckoutSourceContext) (candidates : list GhPullRequest) (w : W)
    : option string * W :=
  match cs_default_branch source with
  | Some branch => (Some branch, w)
  | None => if needs_default_branch source candidates then default_branch source w else (None, w)
  end.

Fixpoint try_selectors (source : CheckoutSourceContext) (selectors : list string) (w : W)
    : (option ChangeRequestSummary + ChangeRequestError) * W :=
  match selectors with
  | [] => (inl None, w)
  | selector :: selectors =>
      let '(r, w) := list_for_selector source selector w in
      match r with
      | inr e => (inr e, w)
      | inl [] => try_selectors source selectors w
      | inl candidates =>
          let '(d, w) := known_default source candidates w in
          (select_pull_request provider source d candidates, w)
      end
  end.

Definition find_for_branch (source : CheckoutSourceContext) (w : W)
    : (option ChangeRequestSummary + ChangeRequestError) * W :=
  if supported source then try_selectors source (bh_head_selectors (cs_branch source)) w
  else (inr UnsupportedRepository, w).

(** [ChangeRequestResolver::resolve_github_source] *)
Definition resolve_github_source (source : CheckoutSourceContext) (w : W)
    : (option ChangeRequestSummary + ChangeRequestError) * W :=
  if supported source then find_for_branch source w else (inr UnsupportedRepository, w).

(** ** Inspecting a checkout *)

(** [GitCheckoutInspector::git] *)
Definition git (cwd : string) (args : list string) (w : W) : option string * W :=
  let '(answer, w) := run (mk_request "git" args cwd [] GIT_TIMEOUT GIT_OUTPUT_LIMIT) w in
  (match answer with
   | inl output =>
       if negb (po_success output) || po_stdout_truncated output then None
       else if utf8_valid (po_stdout output) then Some (trim (po_stdout output)) else None
   | inr _ => None
   end, w).

(** An answer only if there is none yet. *)
Definition or_ask (have : option string) (ask : W -> option string * W) (w : W) : option string * W :=
  match have with Some x => (Some x, w) | None => ask w end.

(** [origin], or the only remote there is. *)
Definition pick_remote (text : string) : option string :=
  let remotes := List.filter (fun r => negb (String.eqb r "")) (lines text) in
  if bool_decide ("origin" ∈ remotes) then Some "origin"
  else match remotes with [r] => Some r | _ => None end.

Definition remote_name_of (root local_branch : string) (upstream_ref : option string) (w : W) : option string * W :=
  let '(configured, w) := git root ["config"; "--get"; "branch." +:+ local_branch +:+ ".remote"] w in
  let remote_name := r ← configured; if String.eqb r "." then None else Some r in
  let remote_name := match remote_name with Some r => Some r | None => upstream_ref ≫= remote_from_upstream end in
  let '(remote_name, w) := or_ask remote_name (git root ["config"; "--get"; "remote.pushDefault"]) w in
  or_ask remote_name (fun w => let '(remotes, w) := git root ["remote"] w in (remotes ≫= pick_remote, w)) w.

Definition remote_url_of (root : string) (remote_name : option string) (w : W) : option string * W :=
  match remote_name with
  | Some remote =>
      let '(url, w) := git root ["remote"; "get-url"; "--push"; remote] w in
      or_ask url (git root ["remote"; "get-url"; remote]) w
  | None => (None, w)
  end.

(** The default branch as the last fetch left it, of the resolved remote. *)
Definition local_default (root : string) (branch : BranchHeadContext) (w : W) : option string * W :=
  match bh_remote_name branch with
  | Some remote =>
      let '(r, w) := git root ["symbolic-ref"; "--quiet"; "--short"; "refs/remotes/" +:+ remote +:+ "/HEAD"] w in
      (reference ← r; branch_from_upstream reference (Some remote), w)
  | None => (None, w)
  end.

Definition inspect (cwd : string) (w : W) : (CheckoutSourceContext + ChangeRequestError) * W :=
  let '(root, w) := git cwd ["rev-parse"; "--show-toplevel"] w in
  match root ≫= unless_empty with
  | None => (inr RepositoryUnavailable, w)
  | Some root =>
      let '(local_branch, w) := git root ["branch"; "--show-current"] w in
      match local_branch ≫= unless_empty with
      | None => (inr RepositoryUnavailable, w)
      | Some local_branch =>
          if String.eqb local_branch "HEAD" then (inr RepositoryUnavailable, w)
          else
            let '(upstream_ref, w) :=
              git root ["rev-parse"; "--abbrev-ref"; "--symbolic-full-name"; "@{upstream}"] w in
            let '(remote_name, w) := remote_name_of root local_branch upstream_ref w in
            let '(remote_url, w) := remote_url_of root remote_name w in
            let branch := resolve local_branch upstream_ref remote_name remote_url in
            let '(d, w) := local_default root branch w in
            (inl (mk_source root branch d), w)
      end
  end.

(** [ChangeRequestResolver::resolve_github] *)
Definition resolve_github (cwd : string) (w : W)
    : (CheckoutSourceContext * option ChangeRequestSummary + ChangeRequestError) * W :=
  let '(source, w) := inspect cwd w in
  match source with
  | inr e => (inr e, w)
  | inl source =>
      let '(r, w) := resolve_github_source source w in
      (match r with inl c => inl (source, c) | inr e => inr e end, w)
  end.
End Provider.

(** ** Reading under a cap *)

Lemma slice_0_app n a b :
  slice 0 n (a +:+ b) = slice 0 n a +:+ slice 0 (n - String.length a) b.
Proof.
  unfold slice. rewrite !Nat.sub_0_r, !drop_0, bytes_app, take_app, length_bytes. apply string_of_app.
Qed.

Lemma slice_0_all n a : (String.length a <= n)%nat -> slice 0 n a = a.
Proof.
  intros H. unfold slice. rewrite Nat.sub_0_r, drop_0, take_ge by (rewrite length_bytes; lia).
  apply String.string_of_list_ascii_of_string.
Qed.

Lemma slice_0_length n a : String.length (slice 0 n a) = (n `min` String.length a)%nat.
Proof. unfold slice. rewrite bytes_of_list, length_take, drop_0, length_bytes. lia. Qed.

(** What was read so far is cut at the limit, and marked when it was longer. *)
Lemma read_loop_spec limit reads seen :
  0 <= limit -> Forall (fun r => r <> "") reads ->
  read_loop limit reads (slice 0 (Z.to_nat limit) seen) (limit <? Z.of_nat (String.length seen)) =
    (slice 0 (Z.to_nat limit) (seen +:+ String.concat "" reads),
     limit <? Z.of_nat (String.length (seen +:+ String.concat "" reads))).
Proof.
  intros Hl Hr. revert seen. induction Hr as [|chunk reads Hc Hr IH]; intros seen.
  { cbn. by rewrite string_app_nil_r. }
  assert (String.concat "" (chunk :: reads) = chunk +:+ String.concat "" reads) as ->.
  { destruct reads; cbn; [by rewrite string_app_nil_r|done]. }
  rewrite <- string_app_assoc, <- IH. destruct chunk as [|a chunk]; [done|]. cbn [read_loop].
  set (c := String a chunk). f_equal.
  - rewrite slice_0_app. f_equal. rewrite slice_0_length. unfold slice. rewrite !Nat.sub_0_r, !drop_0. f_equal.
    assert (length (bytes_of c) = String.length c) by apply length_bytes.
    destruct (decide (String.length c <= Z.to_nat limit - String.length seen)%nat).
    + rewrite !take_ge by lia. done.
    + f_equal. lia.
  - rewrite slice_0_length, string_length_app.
    destruct (Z.ltb_spec limit (Z.of_nat (String.length seen))),
      (Z.ltb_spec limit (Z.of_nat (String.length seen + String.length c))); cbn [orb]; try lia; try done;
      first [apply Z.ltb_lt|apply Z.ltb_ge]; lia.
Qed.

(** However the output is cut into reads, what is kept is its beginning up to the
    limit, and it is called truncated exactly when there was more. *)
Theorem read_capped_exact limit reads :
  0 <= limit -> Forall (fun r => r <> "") reads ->
  read_capped limit reads =
    (slice 0 (Z.to_nat limit) (String.concat "" reads), limit <? Z.of_nat (String.length (String.concat "" reads))).
Proof.
  intros Hl Hr. unfold read_capped. pose proof (read_loop_spec limit reads "" Hl Hr) as H.
  rewrite !string_app_nil_l in H. rewrite <- H. f_equal; [|symmetry; apply Z.ltb_ge; cbn; lia].
  symmetry. apply slice_0_all. cbn. lia.
Qed.

(** ** The chosen pull request *)

Section Selection.
Context {C : Chrono} {I : Instants} {J : JsonText} {G : GhLibs}.

#[export] Instance bool_key_desc_ok {A} (f : A -> bool) : CmpOk (fun a b => bool_compare (f b) (f a)).
Proof.
  split; [intros a b; by destruct (f a), (f b)|]. intros a b c. unfold cmp_le.
  by destruct (f a), (f b), (f c).
Qed.

#[export] Instance pr_cmp_ok : CmpOk pr_cmp.
Proof.
  apply (then_ok (fun a b => then_with (bool_compare (is_open b) (is_open a))
                                       (nanos (pr_updated_at b) ?= nanos (pr_updated_at a)))).
  - apply (then_ok (fun a b => bool_compare (is_open b) (is_open a))); apply _.
  - apply (Z_key_desc_ok (fun p => Z.of_N (pr_number p))).
Qed.

(** The pull request may stand for the branch: it is of this head and owner,
    and on the default branch only an open one counts. *)
Definition belongs (source : CheckoutSourceContext) (default_branch : option string) (p : GhPullRequest) : Prop :=
  pr_head_ref_name p = bh_head_branch (cs_branch source) /\
  (forall owner, bh_owner (cs_branch source) = Some owner ->
     to_ascii_lowercase (pr_head_owner p) = to_ascii_lowercase owner) /\
  (bh_owner (cs_branch source) = None -> pr_is_cross_repository p = false) /\
  (default_branch = Some (bh_head_branch (cs_branch source)) -> pr_state p = GhOpen).

(** An open one before a closed one, then the later update, then the number. *)
Definition at_least (p q : GhPullRequest) : Prop :=
  (pr_state q = GhOpen -> pr_state p = GhOpen) /\
  ((pr_state q = GhOpen <-> pr_state p = GhOpen) ->
   nanos (pr_updated_at q) <= nanos (pr_updated_at p) /\
   (nanos (pr_updated_at q) = nanos (pr_updated_at p) -> (pr_number q <= pr_number p)%N)).

(** The summary says what the answer said, with the address normalised. *)
Definition summarises (p : GhPullRequest) (s : ChangeRequestSummary) : Prop :=
  sm_provider s = "github" /\ sm_number s = pr_number p /\ (pr_number p <> 0)%N /\ sm_title s = pr_title p /\
  sm_state s = state_of_gh (pr_state p) /\ sm_base_ref s = pr_base_ref_name p /\
  sm_head_ref s = pr_head_ref_name p /\
  exists u, url_parse (trim (pr_url p)) = Some u /\ sm_url s = url_text u /\
    (url_scheme u = "http" \/ url_scheme u = "https") /\ is_Some (url_host u).

Lemma is_open_spec p : is_open p = true <-> pr_state p = GhOpen.
Proof. unfold is_open. by destruct (pr_state p). Qed.

Lemma matching_spec source d p : matching source d p = true <-> belongs source d p.
Proof.
  unfold matching, belongs. rewrite !andb_true_iff, orb_true_iff, String.eqb_eq, is_open_spec, negb_true_iff,
    bool_decide_eq_false.
  destruct (bh_owner (cs_branch source)) as [owner|]; [rewrite eq_ignore_lower|rewrite negb_true_iff].
  - split; [intros [[-> H] Hd]; split_and!; [done|by intros ? [= <-]|done|tauto]|].
    intros (-> & H & _ & Hd). split_and!; [done|by apply H|]. destruct (decide (d = Some (bh_head_branch (cs_branch source)))); tauto.
  - split; [intros [[-> H] Hd]; split_and!; [done|done|done|tauto]|].
    intros (-> & _ & H & Hd). split_and!; [done|by apply H|]. destruct (decide (d = Some (bh_head_branch (cs_branch source)))); tauto.
Qed.

Lemma pr_cmp_at_least p q : cmp_le pr_cmp p q -> at_least p q.
Proof.
  unfold cmp_le, pr_cmp, at_least, then_with. rewrite <- !is_open_spec.
  destruct (is_open p) eqn:Ep, (is_open q) eqn:Eq; cbn [bool_compare]; intros H; split; try done; intros Hi;
    try (exfalso; by destruct Hi as [H1 H2]; first [discriminate (H1 eq_refl)|discriminate (H2 eq_refl)]).
  all: destruct (Z.compare_spec (nanos (pr_updated_at q)) (nanos (pr_updated_at p))) as [E|E|E];
    [|split; [lia|intros; lia]|done]; split; [lia|]; intros _;
    destruct (Z.compare_spec (Z.of_N (pr_number q)) (Z.of_N (pr_number p))); [lia..|done].
Qed.

Lemma to_summary_spec p s : to_summary "github" p = inl s -> summarises p s.
Proof.
  unfold to_summary, summarises.
  destruct ((_ || _ || _ || _)%bool) eqn:E; [done|]. rewrite !orb_false_iff, N.eqb_neq in E.
  destruct (url_parse _) as [u|]; [|done].
  destruct (negb _ || negb _) eqn:Eu; [done|]. rewrite orb_false_iff, !negb_false_iff, !bool_decide_eq_true in Eu.
  intros [= <-]. cbn. split_and!; try done; [tauto|]. exists u. split_and!; [done..| |tauto].
  destruct Eu as [Hs _]. set_solver.
Qed.

Lemma pr_cmp_refl p : cmp_le pr_cmp p p.
Proof. destruct (total (cmp_le pr_cmp) p p); done. Qed.

(** The choice of an answer: the best that belongs, or none. *)
Definition chosen (source : CheckoutSourceContext) (d : option string) (l : list GhPullRequest)
    (c : option ChangeRequestSummary) : Prop :=
  match c with
  | None => forall p, p ∈ l -> ~ belongs source d p
  | Some s => exists p, p ∈ l /\ belongs source d p /\ summarises p s /\
                forall q, q ∈ l -> belongs source d q -> at_least p q
  end.

Lemma select_spec source d l :
  match select_pull_request "github" source d l with
  | inl c => chosen source d l c
  | inr e => e = Decode /\ exists p, p ∈ l /\ belongs source d p
  end.
Proof.
  unfold select_pull_request.
  assert (forall p, p ∈ sort_by pr_cmp (List.filter (matching source d) l) <-> p ∈ l /\ belongs source d p) as Hin.
  { intros p. rewrite (sort_by_perm pr_cmp), list_elem_of_In, filter_In, <- list_elem_of_In, matching_spec. done. }
  pose proof (sort_by_sorted pr_cmp (List.filter (matching source d) l)) as Hs.
  destruct (sort_by pr_cmp _) as [|p rest].
  { intros p Hp Hb. apply (not_elem_of_nil p), Hin. done. }
  apply StronglySorted_inv in Hs as [_ Hs]. rewrite Forall_forall in Hs.
  destruct (proj1 (Hin p)) as [Hp Hb]; [left|].
  destruct (to_summary "github" p) as [s|e] eqn:E.
  - exists p. split_and!; [done..|by apply to_summary_spec|]. intros q Hq Hqb. apply pr_cmp_at_least.
    pose proof (proj2 (Hin q) (conj Hq Hqb)) as [->|Hr]%elem_of_cons; [apply pr_cmp_refl|by apply Hs].
  - split; [|by exists p]. unfold to_summary in E. by repeat (case_match; try congruence).
Qed.

Lemma unneeded_open source l p :
  needs_default_branch source l = false -> p ∈ l -> pr_head_ref_name p = bh_head_branch (cs_branch source) ->
  pr_state p = GhOpen.
Proof.
  intros Hn Hp Hh. apply is_open_spec, not_false_is_true. intros Ho. apply not_true_iff_false in Hn.
  apply Hn, existsb_exists. exists p. rewrite <- list_elem_of_In, Ho, (proj2 (String.eqb_eq _ _) Hh). done.
Qed.

(** Without a closed candidate of the branch the default branch plays no part. *)
Lemma default_unneeded source d d' l c :
  needs_default_branch source l = false -> chosen source d l c -> chosen source d' l c.
Proof.
  intros Hn. assert (forall d1 d2 p, p ∈ l -> belongs source d1 p -> belongs source d2 p) as Hb.
  { intros d1 d2 p Hp H. pose proof (unneeded_open _ _ _ Hn Hp (proj1 H)). unfold belongs in *. naive_solver. }
  destruct c as [s|]; cbn.
  - intros (p & Hp & H1 & H2 & H3). exists p. split_and!; [done|by eapply Hb|done|]. intros q Hq Hq'.
    apply H3; [done|by eapply Hb].
  - intros H p Hp Hp'. apply (H p Hp). by eapply Hb.
Qed.
End Selection.

Section Finding.
Context {C : Chrono} {I : Instants} {J : JsonText} {G : GhLibs}.
Context {W : Type} (run : ProcessRequest -> W -> (ProcessOutput + ProcessRunError) * W).

(** Each of these questions was answered by an empty list. *)
Inductive tried (source : CheckoutSourceContext) : W -> list string -> W -> Prop :=
  | tried_nil w : tried source w [] w
  | tried_cons w sel w1 sels w2 :
      list_for_selector run source sel w = (inl [], w1) -> tried source w1 sels w2 ->
      tried source w (sel :: sels) w2.

(** The branch counts as the default one when the checkout or the provider says
    so; when neither was asked it makes no difference. *)
Definition default_for (source : CheckoutSourceContext) (l : list GhPullRequest) (w : W) (d : option string) (w' : W)
    : Prop :=
  match cs_default_branch source with
  | Some b => d = Some b /\ w' = w
  | None => default_branch run source w = (d, w') \/ (needs_default_branch source l = false /\ w' = w)
  end.

Lemma find_for_branch_spec source w c w' :
  find_for_branch run source w = (inl c, w') ->
  (c = None /\ tried source w (bh_head_selectors (cs_branch source)) w') \/
  exists before sel after w1 l w2 d,
    bh_head_selectors (cs_branch source) = before ++ sel :: after /\ tried source w before w1 /\
    list_for_selector run source sel w1 = (inl l, w2) /\ l <> [] /\
    default_for source l w2 d w' /\ chosen source d l c.
Proof.
  unfold find_for_branch. destruct (supported source); [|done].
  generalize (bh_head_selectors (cs_branch source)). intros sels. revert w.
  induction sels as [|sel sels IH]; intros w; cbn [try_selectors].
  { intros [= <- <-]. left. split; [done|constructor]. }
  destruct (list_for_selector run source sel w) as [[l|e] w1] eqn:El; [|done].
  destruct l as [|p l].
  { intros H. destruct (IH _ H) as [[-> Ht]|(b & s & a & v & l & v' & d & -> & Ht & Hr)].
    - left. split; [done|]. by econstructor.
    - right. exists (sel :: b), s, a, v, l, v', d. split; [done|]. split; [by econstructor|done]. }
  destruct (known_default run source (p :: l) w1) as [d w2] eqn:Ed.
  intros H. right. exists [], sel, sels, w, (p :: l), w1, d.
  pose proof (select_spec source d (p :: l)) as Hs. injection H as Hc ->.
  change provider with "github" in Hc. rewrite Hc in Hs. split_and!; try done; [constructor|].
  unfold known_default, default_for in *. destruct (cs_default_branch source); [by injection Ed as <- <-|].
  destruct (needs_default_branch source (p :: l)); [by left|right; by injection Ed as _ <-].
Qed.

Lemma found_pull_request source w s w' :
  resolve_github_source run source w = (inl (Some s), w') ->
  exists d p, belongs source d p /\ summarises p s.
Proof.
  unfold resolve_github_source. destruct (supported source); [|done]. intros H.
  destruct (find_for_branch_spec _ _ _ _ H) as [[? _]|(? & ? & ? & ? & ? & ? & d & _ & _ & _ & _ & _ & p & _ & Hb & Hs & _)];
    [done|by exists d, p].
Qed.

(** C36. The lookup of a branch keeps the best pull request of the first answer that
    is not empty: of this head branch and owner, open before closed, then the
    latest, and none but an open one on the default branch. It says there is
    none exactly when nothing in that answer belongs, or all answers were empty. *)
Theorem find_for_branch_exact source w c w' :
  find_for_branch run source w = (inl c, w') ->
  (c = None /\ tried source w (bh_head_selectors (cs_branch source)) w') \/
  exists before sel after w1 l w2 d,
    bh_head_selectors (cs_branch source) = before ++ sel :: after /\ tried source w before w1 /\
    list_for_selector run source sel w1 = (inl l, w2) /\ l <> [] /\
    default_for source l w2 d w' /\ chosen source d l c.
Proof. apply find_for_branch_spec. Qed.
End Finding.

(** ** What is run *)

(** The selectors of a branch: its head under the remote's owner, if there is
    one, then its head alone. *)
Lemma resolve_selectors local upstream remote url :
  let b := resolve local upstream remote url in
  bh_head_selectors b =
    match bh_owner b with Some owner => [owner +:+ ":" +:+ bh_head_branch b] | None => [] end ++ [bh_head_branch b].
Proof.
  cbn. set (h := default local _).
  assert (non_empty upstream = None -> h = local) as Hl by (intros E; unfold h; rewrite E; done).
  clearbody h.
  assert (forall o, o +:+ ":" +:+ h <> h) as Ho.
  { intros o H. apply (f_equal String.length) in H. rewrite !string_length_app in H. cbn in H. lia. }
  assert (forall l, h ∈ l -> push_unique l h = l) as Hp by (intros l; unfold push_unique; by case_decide).
  assert (push_unique (match non_empty url ≫= parse_git_remote with
                       | Some remote => push_unique [] (gr_owner remote +:+ ":" +:+ h) | None => [] end) h =
          match gr_owner <$> (non_empty url ≫= parse_git_remote) with
          | Some owner => [owner +:+ ":" +:+ h] | None => [] end ++ [h]) as Hq.
  { destruct (non_empty url ≫= parse_git_remote) as [r|]; [|done]. cbn. unfold push_unique.
    rewrite decide_False; [done|]. intros H%list_elem_of_singleton. by apply (Ho (gr_owner r)). }
  destruct (non_empty upstream) eqn:Eu; cbn [bool_decide negb orb].
  - rewrite Hq. destruct (_ || _) eqn:E; [|done].
    assert (local = h) as ->.
    { apply orb_true_iff in E as [E|E]; [|by apply String.eqb_eq in E].
      apply negb_true_iff, bool_decide_eq_false in E. destruct E. by eexists. }
    apply Hp, elem_of_app. right. by apply list_elem_of_singleton.
  - rewrite bool_decide_eq_false_2 by (by intros []). cbn [negb orb]. by rewrite <- (Hl eq_refl).
Qed.

Lemma resolve_selector_count local upstream remote url :
  (length (bh_head_selectors (resolve local upstream remote url)) <= 2)%nat.
Proof. rewrite resolve_selectors. destruct (bh_owner _); cbn; lia. Qed.

(** An inspection that succeeds resolves what it read. *)
Lemma inspect_resolved {C : Chrono} {W} (run : ProcessRequest -> W -> (ProcessOutput + ProcessRunError) * W)
    cwd w source w' :
  inspect run cwd w = (inl source, w') ->
  exists local upstream remote url, cs_branch source = resolve local upstream remote url.
Proof.
  unfold inspect. destruct (git run cwd _ w) as [root w1]. destruct (root ≫= unless_empty) as [r|]; [|done].
  destruct (git run r _ w1) as [local w2]. destruct (local ≫= unless_empty) as [l|]; [|done].
  destruct (String.eqb l "HEAD"); [done|]. destruct (git run r _ w2) as [up w3].
  destruct (remote_name_of run r l up w3) as [rn w4]. destruct (remote_url_of run r rn w4) as [ru w5].
  destruct (local_default run r _ w5) as [d w6]. intros [= <- _]. by exists l, up, rn, ru.
Qed.

(** A runner that writes down what it is asked to run. *)
Definition logged {W A} (run : ProcessRequest -> W -> A * W) (q : ProcessRequest)
    (s : list ProcessRequest * W) : A * (list ProcessRequest * W) :=
  let '(a, w) := run q s.2 in (a, (s.1 ++ [q], w)).

(** A computation runs processes of [P] only, at most [n] of them. *)
Definition asks {W A} (P : ProcessRequest -> Prop) (n : nat)
    (f : list ProcessRequest * W -> A * (list ProcessRequest * W)) : Prop :=
  forall s, exists asked, (f s).2.1 = s.1 ++ asked /\ Forall P asked /\ (length asked <= n)%nat.

Lemma asks_ret {W A} P n (a : A) : asks (W := W) P n (fun s => (a, s)).
Proof. intros s. exists []. rewrite app_nil_r. split_and!; [done|constructor|cbn; lia]. Qed.

Lemma asks_bind {W A B} P n k (m : list ProcessRequest * W -> A * _) (f : A -> _ -> B * _) :
  asks P n m -> (forall a, asks P k (f a)) -> asks P (n + k) (fun s => let '(a, s) := m s in f a s).
Proof.
  intros Hm Hf s. destruct (Hm s) as (l & E & H1 & H2). destruct (m s) as [a s1].
  destruct (Hf a s1) as (l' & E' & H1' & H2'). exists (l ++ l'). cbn in E.
  rewrite E', E, app_assoc, length_app. split_and!; [done|by apply Forall_app|lia].
Qed.

Lemma asks_map {W A B} P n (m : list ProcessRequest * W -> A * _) (g : A -> B) :
  asks P n m -> asks P n (fun s => let '(a, s) := m s in (g a, s)).
Proof.
  intros Hm s. destruct (Hm s) as (l & E & H). exists l. by destruct (m s).
Qed.

Lemma asks_le {W A} P n k (m : list ProcessRequest * W -> A * _) : asks P n m -> (n <= k)%nat -> asks P k m.
Proof. intros Hm Hk s. destruct (Hm s) as (l & E & H1 & H2). exists l. split_and!; [done..|lia]. Qed.

Lemma asks_one {W A B} (P : ProcessRequest -> Prop) (run : ProcessRequest -> W -> A * W) q (g : A -> B) :
  P q -> asks P 1 (fun s => let '(a, s) := logged run q s in (g a, s)).
Proof.
  intros Hq s. exists [q]. unfold logged. destruct (run q s.2). cbn. split_and!; [done|by constructor|lia].
Qed.

(** The questions to git: of the local repository only. *)
Definition local_query (q : ProcessRequest) : Prop :=
  pq_program q = "git" /\ pq_env q = [] /\ pq_timeout q = GIT_TIMEOUT /\ pq_output_limit q = GIT_OUTPUT_LIMIT /\
  match pq_args q with
  | "rev-parse" :: _ | "config" :: "--get" :: _ | ["branch"; "--show-current"] | ["remote"]
  | "remote" :: "get-url" :: _ | "symbolic-ref" :: "--quiet" :: "--short" :: _ => True
  | _ => False
  end.

(** The questions to GitHub about a checkout: the pull requests of a selector of
    its branch, or its default branch; from its root and without a prompt. *)
Definition gh_question (source : CheckoutSourceContext) (q : ProcessRequest) : Prop :=
  let b := cs_branch source in
  exists args, q = gh_request source args /\
    ((exists sel, sel ∈ bh_head_selectors b /\ args = list_args sel) \/
     (exists host owner repository, bh_host b = Some host /\ bh_owner b = Some owner /\
        bh_repository b = Some repository /\
        args = ["repo"; "view"; host +:+ "/" +:+ owner +:+ "/" +:+ repository; "--json"; "defaultBranchRef"])).

Section Asked.
Context {C : Chrono} {I : Instants} {J : JsonText} {G : GhLibs}.
Context {W : Type} (run : ProcessRequest -> W -> (ProcessOutput + ProcessRunError) * W).

Lemma asks_git cwd args :
  local_query (mk_request "git" args cwd [] GIT_TIMEOUT GIT_OUTPUT_LIMIT) ->
  asks local_query 1 (git (logged run) cwd args).
Proof. intros H. exact (asks_one _ run _ _ H). Qed.

Lemma asks_or_ask P n have (ask : list ProcessRequest * W -> option string * _) :
  asks P n ask -> asks P n (or_ask have ask).
Proof. intros H. destruct have; [apply asks_ret|exact H]. Qed.

Lemma asks_remote_name root local upstream :
  asks local_query 3 (remote_name_of (logged run) root local upstream).
Proof.
  refine (asks_bind _ 1 2 _ _ _ _); [by apply asks_git|intros a].
  refine (asks_bind _ 1 1 _ _ _ _); [by apply asks_or_ask, asks_git|intros b].
  apply asks_or_ask. refine (asks_map _ _ _ _ _). by apply asks_git.
Qed.

Lemma asks_remote_url root remote : asks local_query 2 (remote_url_of (logged run) root remote).
Proof.
  destruct remote; [|apply asks_ret].
  refine (asks_bind _ 1 1 _ _ _ _); [by apply asks_git|intros a]. by apply asks_or_ask, asks_git.
Qed.

Lemma asks_inspect cwd : asks local_query 9 (inspect (logged run) cwd).
Proof.
  refine (asks_bind _ 1 8 _ _ _ _); [by apply asks_git|intros a].
  destruct (a ≫= unless_empty) as [root|]; [|apply asks_ret].
  refine (asks_bind _ 1 7 _ _ _ _); [by apply asks_git|intros b].
  destruct (b ≫= unless_empty) as [local|]; [|apply asks_ret].
  destruct (String.eqb local "HEAD"); [apply asks_ret|].
  refine (asks_bind _ 1 6 _ _ _ _); [by apply asks_git|intros up].
  refine (asks_bind _ 3 3 _ _ _ _); [apply asks_remote_name|intros r].
  refine (asks_bind _ 2 1 _ _ _ _); [apply asks_remote_url|intros u].
  refine (asks_bind _ 1 0 _ _ _ _); [|intros d; apply asks_ret].
  unfold local_default. destruct (bh_remote_name _); [|apply asks_ret].
  refine (asks_map _ _ _ _ _). by apply asks_git.
Qed.

Lemma asks_known_default source l : asks (gh_question source) 1 (known_default (logged run) source l).
Proof.
  unfold known_default, default_branch. destruct (cs_default_branch source); [apply asks_ret|].
  destruct (needs_default_branch source l); [|apply asks_ret].
  destruct (bh_host (cs_branch source)) eqn:E1, (bh_owner (cs_branch source)) eqn:E2,
    (bh_repository (cs_branch source)) eqn:E3; try apply asks_ret.
  apply asks_one. eexists. split; [done|]. right. eauto 10.
Qed.

Lemma asks_selectors source sels :
  sels ⊆ bh_head_selectors (cs_branch source) ->
  asks (gh_question source) (length sels + 1) (try_selectors (logged run) source sels).
Proof.
  induction sels as [|sel sels IH]; intros Hs; [apply asks_ret|].
  refine (asks_bind _ 1 (length sels + 1) _ _ _ _).
  { apply asks_one. eexists. split; [done|]. left. exists sel. split; [apply Hs; left|done]. }
  intros [[|p l]|e]; [apply IH; set_solver| |apply asks_ret].
  apply (asks_le _ 1); [|lia]. refine (asks_map _ _ _ _ _). apply asks_known_default.
Qed.

End Asked.

(** ** Remotes read back *)

Lemma rsplit_once_join c x y : has_char c y = false -> rsplit_once c (x +:+ String c y) = Some (x, y).
Proof.
  intros H. unfold rsplit_once.
  assert (reverse (x +:+ String c y) = reverse y +:+ String c (reverse x)) as ->.
  { rewrite reverse_app. unfold reverse at 1. cbn. rewrite rev_onto_acc, string_app_assoc. done. }
  rewrite split_once_join by (by rewrite has_char_reverse). cbn. f_equal. f_equal; apply reverse_reverse.
Qed.

Lemma rsplit_once_none c s : has_char c s = false -> rsplit_once c s = None.
Proof. intros H. unfold rsplit_once. by rewrite split_once_none by (by rewrite has_char_reverse). Qed.

Lemma graphic_no_whitespace s : all_graphic s = true -> any_whitespace s = false.
Proof.
  induction s as [|a s IH]; [done|]. intros [Ha Hs]%andb_true_iff. cbn [any_whitespace].
  rewrite strip_first_graphic; [auto|repeat (constructor; [reflexivity|]); constructor|done].
Qed.

(** A part of a remote: visible characters without the separators. *)
Definition remote_part (s : string) : bool :=
  all_graphic s && negb (String.eqb s "") && negb (has_char slash s) && negb (has_char colon s) &&
  negb (has_char at_sign s).

Lemma remote_part_spec s :
  remote_part s = true <->
  all_graphic s = true /\ s <> "" /\ has_char slash s = false /\ has_char colon s = false /\ has_char at_sign s = false.
Proof.
  unfold remote_part. rewrite !andb_true_iff, !negb_true_iff, String.eqb_neq. tauto.
Qed.

Lemma host_alone host : remote_part host = true -> host_from_authority host = Some host.
Proof.
  intros (_ & Hn & _ & Hc & Ha)%remote_part_spec. unfold host_from_authority.
  rewrite rsplit_once_none, split_once_none by done. by destruct (String.eqb_spec host "").
Qed.

Lemma host_of_user user host port :
  remote_part host = true -> has_char at_sign port = false -> (port = "" \/ exists p, port = String colon p) ->
  host_from_authority (user +:+ "@" +:+ host +:+ port) = Some host.
Proof.
  intros (_ & Hn & _ & Hc & Ha)%remote_part_spec Hp Hport. unfold host_from_authority.
  change ("@" +:+ host +:+ port) with (String at_sign (host +:+ port)).
  rewrite rsplit_once_join by (by rewrite has_char_app, Ha, Hp).
  assert (match split_once colon (host +:+ port) with Some (h, _) => h | None => host +:+ port end = host) as ->.
  { destruct Hport as [->|[p ->]]; [by rewrite string_app_nil_r, split_once_none|by rewrite split_once_join]. }
  by destruct (String.eqb_spec host "").
Qed.

Lemma trim_matches_id s :
  s <> "" -> strip_prefix "/" s = None -> strip_prefix "/" (reverse s) = None -> trim_matches "/" s = s.
Proof.
  intros Hs H1 H2. unfold trim_matches.
  assert (trim_with (String.length s) ["/"] s = s) as ->.
  { destruct s as [|a s]; [done|]. cbn [trim_with String.length strip_first]. by rewrite H1. }
  destruct (String.length s) as [|n]; cbn [trim_with strip_first]; rewrite ?H2; apply reverse_reverse.
Qed.

Lemma no_slash_prefix s t : s <> "" -> has_char slash s = false -> strip_prefix "/" (s +:+ t) = None.
Proof.
  destruct s as [|a s]; [done|]. intros _ [Ha _]%orb_false_iff. rewrite string_app_cons.
  change "/" with (String slash ""). cbn [strip_prefix]. by rewrite Ascii.eqb_sym, Ha.
Qed.

(** The path of a repository, with or without [.git]. *)
Lemma read_path url host owner repo ext :
  remote_part owner = true -> remote_part repo = true -> strip_suffix ".git" repo = None -> ext ∈ [""; ".git"] ->
  all_graphic url = true -> url <> "" -> host_and_path url = Some (host, owner +:+ "/" +:+ repo +:+ ext) ->
  parse_git_remote url = Some (mk_remote (to_ascii_lowercase host) owner repo).
Proof.
  intros (_ & Ho & Hos & _)%remote_part_spec (_ & Hr & Hrs & _)%remote_part_spec Hg He Hu Hn Hp.
  unfold parse_git_remote. rewrite trim_graphic, graphic_no_whitespace by done.
  destruct (String.eqb_spec url "") as [|_]; [done|]. cbn [orb]. rewrite Hp. cbn [mbind option_bind].
  assert (has_char slash (repo +:+ ext) = false) as Hx.
  { rewrite has_char_app, Hrs. apply elem_of_cons in He as [->|He%list_elem_of_singleton]; [done|by subst]. }
  assert (repo +:+ ext <> "") as Hne by (by destruct repo).
  change ("/" +:+ repo +:+ ext) with (String slash (repo +:+ ext)).
  rewrite trim_matches_id.
  - rewrite split_on_join, split_on_plain by done.
    destruct (String.eqb_spec owner ""), (String.eqb_spec (repo +:+ ext) ""); [done..|]. cbn [orb].
    assert (default (repo +:+ ext) (strip_suffix ".git" (repo +:+ ext)) = repo) as ->.
    { apply elem_of_cons in He as [->|He%list_elem_of_singleton]; [by rewrite string_app_nil_r, Hg|].
      subst. by rewrite strip_suffix_app. }
    by destruct (String.eqb_spec repo "").
  - by destruct owner.
  - by apply no_slash_prefix.
  - rewrite reverse_app. change (String slash (repo +:+ ext)) with ("/" +:+ (repo +:+ ext)).
    rewrite reverse_app, string_app_assoc. apply no_slash_prefix; [|by rewrite has_char_reverse].
    intros E. apply Hne. rewrite <- (reverse_reverse (repo +:+ ext)). unfold reverse in E. by rewrite E.
Qed.

Lemma scheme_path scheme rest :
  scheme ∈ ["ssh"; "http"; "https"] ->
  host_and_path (scheme +:+ "://" +:+ rest) =
    '(authority, path) ← split_once slash rest; host ← host_from_authority authority; Some (host, path).
Proof. rewrite !elem_of_cons. intros [->|[->|[->|H%not_elem_of_nil]]]; [reflexivity..|done]. Qed.

(** Without a second colon, and no slash after the first, there is no scheme. *)
Lemma no_scheme a b :
  has_char colon a = false -> has_char colon b = false -> strip_prefix "/" b = None ->
  split_once_str "://" (a +:+ String colon b) = None.
Proof.
  intros Ha Hb Hs. change "://" with (String colon "//").
  assert (forall x t, has_char colon (String x "") = false -> split_once_str (String colon "//") t = None ->
            split_once_str (String colon "//") (String x t) = None) as Hstep.
  { intros x t [Hx _]%orb_false_iff Ht. cbn [split_once_str]. by rewrite strip_prefix_other, Ht. }
  assert (forall t, has_char colon t = false -> split_once_str (String colon "//") t = None) as Hn.
  { induction t as [|x t IH]; [done|]. intros [Hx Ht]%orb_false_iff.
    apply Hstep; [cbn; by rewrite Hx|auto]. }
  assert (strip_prefix "//" b = None) as Hs2.
  { destruct b as [|y b]; [done|]. destruct (Ascii.eqb_spec y slash) as [->|Hy]; [done|].
    apply strip_prefix_other. by apply Ascii.eqb_neq. }
  induction a as [|x a IH].
  - rewrite string_app_nil_l. cbn [split_once_str]. by rewrite strip_prefix_same, Hs2, (Hn b Hb).
  - cbn [has_char] in Ha. apply orb_false_iff in Ha as [Hx Ha]. rewrite string_app_cons.
    apply Hstep; [cbn; by rewrite Hx|auto].
Qed.

Lemma url_path scheme authority host path :
  scheme ∈ ["ssh"; "http"; "https"] -> has_char slash authority = false ->
  host_from_authority authority = Some host ->
  host_and_path (scheme +:+ "://" +:+ authority +:+ "/" +:+ path) = Some (host, path).
Proof.
  intros Hs Ha Hh. rewrite scheme_path by done. change ("/" +:+ path) with (String slash path).
  rewrite split_once_join by done. cbn [mbind option_bind]. by rewrite Hh.
Qed.

Lemma scp_path authority host path :
  has_char slash authority = false -> has_char colon authority = false -> has_char colon path = false ->
  strip_prefix "/" path = None -> host_from_authority authority = Some host ->
  host_and_path (authority +:+ ":" +:+ path) = Some (host, path).
Proof.
  intros Hs Hc Hp Hn Hh. change (":" +:+ path) with (String colon path). unfold host_and_path.
  rewrite no_scheme, split_once_join by done. cbn [mbind option_bind]. rewrite Hs, Hh.
  assert (starts_with "/" path = false) as ->; [|done].
  unfold starts_with. destruct path as [|o path]; [done|]. cbn [String.prefix].
  destruct (Ascii.ascii_dec _ o) as [<-|]; [|done]. by rewrite (strip_prefix_same slash "") in Hn.
Qed.

(** The ways a remote of GitHub is written: the scp-like form, SSH URLs and
    HTTP(S) URLs. *)
Definition remote_urls (user host port owner repo ext : string) : list string :=
  let path := owner +:+ "/" +:+ repo +:+ ext in
  [user +:+ "@" +:+ host +:+ ":" +:+ path;
   "ssh" +:+ "://" +:+ user +:+ "@" +:+ host +:+ port +:+ "/" +:+ path;
   "http" +:+ "://" +:+ user +:+ "@" +:+ host +:+ port +:+ "/" +:+ path;
   "https" +:+ "://" +:+ user +:+ "@" +:+ host +:+ port +:+ "/" +:+ path;
   "http" +:+ "://" +:+ host +:+ "/" +:+ path;
   "https" +:+ "://" +:+ host +:+ "/" +:+ path].

(** A remote written in any of the forms reads back as its host, owner and
    repository, the host in lower case. *)
Theorem remote_roundtrip user host port owner repo ext url :
  Forall (fun s => remote_part s = true) [user; host; owner; repo] ->
  port = "" \/ (exists p, port = ":" +:+ p /\ remote_part p = true) ->
  strip_suffix ".git" repo = None -> ext ∈ [""; ".git"] ->
  url ∈ remote_urls user host port owner repo ext ->
  parse_git_remote url = Some (mk_remote (to_ascii_lowercase host) owner repo).
Proof.
  rewrite !Forall_cons. intros (Hu & Hh & Ho & Hr & _) Hport Hg He Hurl.
  pose proof (proj1 (remote_part_spec _) Hu) as (Ug & _ & Us & Uc & Ua).
  pose proof (proj1 (remote_part_spec _) Hh) as (Hg' & Hn & Hs & Hc & Ha).
  pose proof (proj1 (remote_part_spec _) Ho) as (Og & On & Os & Oc & _).
  pose proof (proj1 (remote_part_spec _) Hr) as (Rg & _ & _ & Rc & _).
  assert (all_graphic ext = true /\ has_char colon ext = false) as [Eg Ec].
  { apply elem_of_cons in He as [->|He%list_elem_of_singleton]; [done|by subst]. }
  assert (all_graphic port = true /\ has_char slash port = false /\ has_char at_sign port = false /\
          (port = "" \/ exists p, port = String colon p)) as (Pg & Ps & Pa & Pp).
  { destruct Hport as [->|(p & -> & (? & ? & ? & ? & ?)%remote_part_spec)]; [by auto|].
    split_and!; [done..|]. right. by exists p. }
  assert (host_from_authority (user +:+ "@" +:+ host) = Some host) as Hu1.
  { rewrite <- (string_app_nil_r host) at 1. apply host_of_user; [done..|by left]. }
  assert (host_from_authority (user +:+ "@" +:+ host +:+ port) = Some host) as Hu2 by by apply host_of_user.
  assert (has_char slash (user +:+ "@" +:+ host +:+ port) = false) as Hus
    by (by rewrite !has_char_app, Us, Hs, Ps).
  pose proof (host_alone host Hh) as Hu3.
  unfold remote_urls in Hurl. rewrite !elem_of_cons in Hurl.
  destruct Hurl as [->|[->|[->|[->|[->|[->|E%not_elem_of_nil]]]]]]; [..|done]; (apply (read_path _ _ _ _ ext);
    [done..|rewrite !all_graphic_app, ?Ug, ?Hg', ?Pg, ?Og, ?Rg, ?Eg; reflexivity|by destruct user, host|]).
  1: { rewrite <- (string_app_assoc "@"), <- (string_app_assoc user). apply scp_path; [..|done].
       - by rewrite !has_char_app, Us, Hs.
       - by rewrite !has_char_app, Uc, Hc.
       - by rewrite !has_char_app, Oc, Rc, Ec.
       - by apply no_slash_prefix. }
  1-3: rewrite <- (string_app_assoc host), <- (string_app_assoc "@"), <- (string_app_assoc user);
       apply url_path; [set_solver|done|done].
  all: apply url_path; [set_solver|done|done].
Qed.

Lemma remote_roundtrip_witness :
  parse_git_remote "ssh://git@Git.Example.com:22/acme/postillion.git" =
    Some (mk_remote "git.example.com" "acme" "postillion").
Proof.
  apply (remote_roundtrip "git" "Git.Example.com" ":22" "acme" "postillion" ".git").
  - repeat constructor.
  - right. exists "22". split; reflexivity.
  - reflexivity.
  - set_solver.
  - unfold remote_urls. set_solver.
Defined.

Lemma read_capped_witness : read_capped 4 ["ab"; "cde"] = ("abcd", true).
Proof. rewrite (read_capped_exact 4 ["ab"; "cde"]); [reflexivity|lia|repeat constructor; done]. Defined.
