(* ===== verification/Uploads.v ===== *)
(** Attachment staging: crates/engine/src/uploads.rs. A client streams a file as
    base64 chunks into a staging directory named by its upload id; a commit
    joins them into a durable file whose name both ends of a transfer compute
    alike; a read serves a file back in chunks, behind a path jail.

    The state is the store's three directories. A staging directory maps a
    chunk's index to its text and modification time, the uploads directory maps
    a committed name to its bytes; the paths the jail resolves go through the
    operating system, a parameter ([Fs]). File-system calls on the store's own
    directories succeed here: full disks are not modelled. Times are
    milliseconds, the unsigned arithmetic is exact at the sizes the caps allow. *)
From S2P Require Import Prelude Text Base64 Commands.

Definition STAGING_TTL : Z := 10 * 60 * 1000.
Definition MAX_BYTES : Z := 32 * 1024 * 1024.
Definition READ_CHUNK_BYTES : Z := 45000.

(** [AttachmentTransfer] *)
Record AttachmentTransfer := mk_transfer { at_upload_id : string; at_file_name : string }.

#[export] Instance AttachmentTransfer_eq_dec : EqDecision AttachmentTransfer.
Proof. solve_decision. Defined.

(** ** Names *)

(** [str::chars], each character as its bytes. *)
Fixpoint chars (s : string) : list string :=
  match s with
  | EmptyString => []
  | String a s =>
      match chars s with
      | String b c :: l =>
          if continuation_byte b then String a (String b c) :: l else String a "" :: String b c :: l
      | l => String a "" :: l
      end
  end.

Definition join_chars (l : list string) : string := foldr String.append "" l.

(** [Path::file_name]: the last component that is not [.], none when it is
    [..] or when nothing is left. *)
Definition file_name (path : string) : option string :=
  match last (filter (fun p => p <> "" /\ p <> ".") (split_on slash path)) with
  | Some name => if String.eqb name ".." then None else Some name
  | None => None
  end.

Definition name_char (a : Ascii.ascii) : bool :=
  alphanumeric a || byte_in 45 46 a || byte_in 95 95 a.

Definition clean_char (c : string) : string :=
  match c with
  | String a EmptyString => if name_char a then c else "_"
  | _ => "_"
  end.

Definition sanitize (name : string) : string :=
  let cleaned := clean_char <$> chars (default "" (file_name name)) in
  let tail := join_chars (rev (take 80 (rev cleaned))) in
  if String.eqb tail "" then "upload" else tail.

Definition id8 (upload_id : string) : string := join_chars (take 8 (chars upload_id)).

(** [Path::join] with a relative name. *)
Fixpoint ends_slash (s : string) : bool :=
  match s with
  | EmptyString => false
  | String a EmptyString => Ascii.eqb a slash
  | String _ s => ends_slash s
  end.

Definition join (dir name : string) : string :=
  if String.eqb dir "" || ends_slash dir then dir +:+ name else dir +:+ String slash name.

(** The name [commit] writes and the one a reference resolves to. *)
Definition committed_name (upload_id name : string) : string :=
  id8 upload_id +:+ "-" +:+ sanitize name.
Definition pending_name (upload_id name : string) : string :=
  sanitize (id8 upload_id) +:+ "-" +:+ sanitize name.

(** [staging_dir]: the id becomes a directory name. *)
Definition id_char (a : Ascii.ascii) : bool := alphanumeric a || byte_in 45 45 a || byte_in 95 95 a.

Definition staging_ok (upload_id : string) : bool :=
  negb (String.eqb upload_id "") && (String.length upload_id <=? 64)%nat && all_chars id_char upload_id.

(** ** The store *)

Record Chunk := mk_chunk { ck_data : string; ck_mtime : Z }.

Record Staging := mk_staging { sg_created : Z; sg_chunks : gmap Z Chunk }.

Record UploadsInner := mk_uploads {
  up_dir : string;
  up_tmp : gmap string Staging;
  up_files : gmap string string;
  up_read_only : list string;
}.

Definition set_tmp (u : UploadsInner) (t : gmap string Staging) : UploadsInner :=
  mk_uploads (up_dir u) t (up_files u) (up_read_only u).
Definition set_files (u : UploadsInner) (f : gmap string string) : UploadsInner :=
  mk_uploads (up_dir u) (up_tmp u) f (up_read_only u).

Definition from_root_with_fallback (dir : string) (legacy : option string) : UploadsInner :=
  mk_uploads dir ∅ ∅ (option_list legacy).

Definition add_read_only_root (u : UploadsInner) (root : string) : UploadsInner :=
  if existsb (String.eqb root) (up_read_only u) then u
  else mk_uploads (up_dir u) (up_tmp u) (up_files u) (up_read_only u ++ [root]).

Definition pending_target (u : UploadsInner) (upload_id name : string) : string :=
  join (up_dir u) (pending_name upload_id name).

Definition resolve_upload (u : UploadsInner) (path : string) : option string :=
  '(upload_id, name) ← parse_pending_ref path;
  if bool_decide (is_Some (up_files u !! pending_name upload_id name))
  then Some (pending_target u upload_id name) else None.

(** *** Staging *)

(** [chunk_files] in the order of [sort_by_key]. *)
Definition chunk_le {A} (p q : Z * A) : Prop := p.1 <= q.1.

#[export] Instance chunk_le_dec {A} (p q : Z * A) : Decision (chunk_le p q).
Proof. unfold chunk_le. apply _. Defined.

Definition chunk_files (s : option Staging) : list (Z * Chunk) :=
  match s with Some s => merge_sort chunk_le (map_to_list (sg_chunks s)) | None => [] end.

Definition next_free_seq (s : option Staging) : Z :=
  foldr (fun p m => Z.max (p.1 + 1) m) 0 (chunk_files s).

(** The newest chunk of a directory, or its own age when it is empty. *)
Definition newest (s : Staging) : Z :=
  match map_to_list (sg_chunks s) with
  | [] => sg_created s
  | p :: l => foldr (fun q m => Z.max (ck_mtime q.2) m) (ck_mtime p.2) l
  end.

(** A clock set back reads as age unknown. *)
Definition expired (now : Z) (s : Staging) : bool := STAGING_TTL <? now - newest s.

Definition sweep_staging (now : Z) (u : UploadsInner) : UploadsInner :=
  set_tmp u (filter (fun p => expired now p.2 = false) (up_tmp u)).

Definition byte_length (s : string) : Z := Z.of_nat (String.length s).

(** The bytes staged in the other slots. *)
Definition staged_besides (at_seq : Z) (s : Staging) : Z :=
  foldr (fun p n => byte_length (ck_data p.2) + n) 0
    (filter (fun p => p.1 <> at_seq) (chunk_files (Some s))).

Definition append (now : Z) (u : UploadsInner) (upload_id data : string) (seq : option Z)
    : (string + unit) * UploadsInner :=
  if negb (staging_ok upload_id) then (inl "Invalid upload id", u)
  else
    let u := sweep_staging now u in
    let s := default (mk_staging now ∅) (up_tmp u !! upload_id) in
    let u := set_tmp u (<[upload_id := s]> (up_tmp u)) in
    let at_seq := default (next_free_seq (Some s)) seq in
    if 1000000 <? at_seq then (inl "Invalid chunk index", u)
    else if MAX_BYTES <? (staged_besides at_seq s + byte_length data) * 3 / 4 then
      (inl "Upload too large", set_tmp u (delete upload_id (up_tmp u)))
    else
      let s := mk_staging (sg_created s) (<[at_seq := mk_chunk data now]> (sg_chunks s)) in
      (inr tt, set_tmp u (<[upload_id := s]> (up_tmp u))).

(** *** Commit *)

(** The chunks joined, the holes refused. *)
Fixpoint joined (i : Z) (parts : list (Z * Chunk)) : option string :=
  match parts with
  | [] => Some ""
  | (seq, c) :: parts => if seq =? i then String.append (trim (ck_data c)) <$> joined (i + 1) parts else None
  end.

Section Codec.
Context `{B64 : Base64}.

Definition commit (u : UploadsInner) (upload_id name : string) : (string + string) * UploadsInner :=
  if negb (staging_ok upload_id) then (inl "Invalid upload id", u)
  else
    match chunk_files (up_tmp u !! upload_id) with
    | [] => (inl "Unknown or expired upload", u)
    | parts =>
        match joined 0 parts with
        | None => (inl "Upload is missing a chunk", u)
        | Some text =>
            match b64_decode text with
            | None => (inl "upload is not valid base64", u)
            | Some bytes =>
                let done := set_tmp u (delete upload_id (up_tmp u)) in
                if MAX_BYTES <? byte_length bytes then (inl "Upload too large", done)
                else
                  let target := committed_name upload_id name in
                  (inr (join (up_dir u) target), set_files done (<[target := bytes]> (up_files u)))
            end
        end
    end.
End Codec.

(** ** Reading back *)

(** The operating system: a canonical path as its components, and for a path
    that exists whether it is a file, with its bytes. *)
Record Fs := mk_fs {
  canonicalize : string -> option (list string);
  metadata : list string -> option (bool * string);
}.

(** [Path::extension] of a file name. *)
Definition extension (name : string) : option string :=
  match rev (split_on (Ascii.ascii_of_nat 46) name) with
  | ext :: stem :: rest =>
      if String.eqb stem "" && match rest with [] => true | _ => false end then None else Some ext
  | _ => None
  end.

Definition mime_table : list (string * string) :=
  [("png", "image/png"); ("jpg", "image/jpeg"); ("jpeg", "image/jpeg"); ("gif", "image/gif");
   ("webp", "image/webp"); ("svg", "image/svg+xml"); ("bmp", "image/bmp"); ("tif", "image/tiff");
   ("tiff", "image/tiff"); ("avif", "image/avif"); ("heic", "image/heic")].

Definition mime_by_ext (name : string) : option string :=
  ext ← to_ascii_lowercase <$> extension name;
  snd <$> List.find (fun p => String.eqb p.1 ext) mime_table.

Record InspectedFile := mk_inspected {
  if_resolved : list string;
  if_name : string;
  if_mime_type : string;
  if_bytes : string;
}.

(** A path strictly inside a root, component by component. *)
Definition inside (resolved root : list string) : bool :=
  bool_decide (root `prefix_of` resolved) && negb (bool_decide (resolved = root)).

Definition inspect (fs : Fs) (u : UploadsInner) (path : string) (extra_roots : list string)
    : string + InspectedFile :=
  let outside := inl "Attachment is outside the upload cache" in
  match (if is_pending_ref path then resolve_upload u path else Some path) with
  | None => outside
  | Some path =>
      match canonicalize fs path with
      | None => outside
      | Some resolved =>
          let roots := omap (canonicalize fs) (up_dir u :: up_read_only u ++ extra_roots) in
          if negb (existsb (inside resolved) roots) then outside
          else
            match metadata fs resolved with
            | None => inl "io error"
            | Some (is_file, bytes) =>
                if negb is_file then inl "Attachment is not a file"
                else if MAX_BYTES <? byte_length bytes then inl "Attachment is too large"
                else
                  match last resolved ≫= mime_by_ext with
                  | None => inl "Attachment is not a supported image"
                  | Some mime => inr (mk_inspected resolved (default "attachment" (last resolved)) mime bytes)
                  end
            end
      end
  end.

Record AttachmentChunk := mk_att_chunk {
  ac_name : string;
  ac_mime_type : string;
  ac_data : string;
  ac_next_offset : Z;
  ac_done : bool;
}.

Section Read.
Context `{B64 : Base64} (fs : Fs).

Definition read_chunk (u : UploadsInner) (path : string) (offset : Z) (extra_roots : list string)
    : string + AttachmentChunk :=
  match inspect fs u path extra_roots with
  | inl e => inl e
  | inr file =>
      let size := byte_length (if_bytes file) in
      let start := Z.min offset size in
      let next_offset := Z.min (start + READ_CHUNK_BYTES) size in
      inr (mk_att_chunk (if_name file) (if_mime_type file)
             (b64_encode (slice (Z.to_nat start) (Z.to_nat next_offset) (if_bytes file)))
             next_offset (size <=? next_offset))
  end.
End Read.

Example sanitize_ex :
  sanitize "../../etc/passwd" = "passwd" /\ sanitize "my photo (1).png" = "my_photo__1_.png" /\
  sanitize "" = "upload" /\ sanitize "a/.." = "upload" /\ pending_name "../../../etc" "../../passwd" = "upload-passwd".
Proof. done. Qed.

Example extension_ex :
  mime_by_ext "Photo.JPG" = Some "image/jpeg" /\ mime_by_ext ".png" = None /\ mime_by_ext "notes.txt" = None.
Proof. done. Qed.

(** ** Names: lemmas *)

Lemma split_on_app c s t :
  has_char c s = false ->
  split_on c (s +:+ t) = match split_on c t with x :: l => (s +:+ x) :: l | [] => [s] end.
Proof.
  induction s as [|a s IH]; intros H.
  - rewrite !string_app_nil_l. destruct t as [|b t]; [done|]. cbn. destruct (Ascii.eqb b c); [done|].
    by destruct (split_on c t).
  - rewrite string_app_cons. cbn [split_on has_char] in *. apply orb_false_iff in H as [Ha Hs].
    rewrite Ha, IH by done. by destruct (split_on c t).
Qed.

Lemma file_name_plain s :
  has_char slash s = false -> s <> "" -> s <> "." -> s <> ".." -> file_name s = Some s.
Proof.
  intros Hs H0 H1 H2. unfold file_name. rewrite split_on_plain by done.
  rewrite filter_cons, decide_True by done. cbn. by apply String.eqb_neq in H2 as ->.
Qed.

Lemma join_chars_app l l' : join_chars (l ++ l') = join_chars l +:+ join_chars l'.
Proof.
  unfold join_chars. induction l as [|c l IH]; [done|]. cbn [foldr app]. rewrite IH. by rewrite string_app_assoc.
Qed.

Lemma join_chars_of s : join_chars (chars s) = s.
Proof.
  induction s as [|a s IH]; [done|]. cbn [chars]. rewrite <- IH at 2.
  destruct (chars s) as [|[|b c] l]; cbn; [done|done|]. by destruct (continuation_byte b).
Qed.

Lemma name_char_spec a :
  name_char a = true -> continuation_byte a = false /\ Ascii.eqb a slash = false.
Proof. destruct a as [[] [] [] [] [] [] [] []]; vm_compute; intros [=]; done. Qed.

Lemma name_no_slash s : all_chars name_char s = true -> has_char slash s = false.
Proof.
  induction s as [|a s IH]; [done|]. cbn. rewrite andb_true_iff. intros [Ha Hs].
  rewrite IH by done. by destruct (name_char_spec a Ha) as [_ ->].
Qed.

(** The characters of a plain name are its bytes. *)
Lemma chars_plain s :
  all_chars name_char s = true -> chars s = (fun a => String a "") <$> bytes_of s.
Proof.
  induction s as [|a s IH]; [done|]. cbn. rewrite andb_true_iff. intros [Ha Hs]. rewrite IH by done.
  destruct s as [|b s]; [done|]. cbn in Hs |- *. apply andb_true_iff in Hs as [Hb _].
  by destruct (name_char_spec b Hb) as [-> _].
Qed.

Lemma clean_char_spec c : exists a, clean_char c = String a "" /\ name_char a = true.
Proof.
  destruct c as [|a [|b c]]; [by eexists| |by eexists]. unfold clean_char.
  destruct (name_char a) eqn:E; [by eauto|by eexists].
Qed.

Lemma clean_chars_spec l :
  all_chars name_char (join_chars (clean_char <$> l)) = true /\
  String.length (join_chars (clean_char <$> l)) = length l.
Proof.
  induction l as [|c l [IH1 IH2]]; [done|]. rewrite fmap_cons. cbn [join_chars foldr].
  destruct (clean_char_spec c) as (a & -> & Ha). unfold join_chars in *.
  rewrite string_app_cons, string_app_nil_l. cbn [all_chars String.length length]. by rewrite Ha, IH1, IH2.
Qed.

Lemma fmap_rev {A B} (f : A -> B) l : f <$> rev l = rev (f <$> l).
Proof. induction l as [|x l IH]; [done|]. cbn. by rewrite fmap_app, IH. Qed.

(** A sanitized name: one to eighty letters, digits, dots, dashes and underscores. *)
Lemma sanitize_spec name :
  all_chars name_char (sanitize name) = true /\ (1 <= String.length (sanitize name) <= 80)%nat.
Proof.
  unfold sanitize. cbv zeta. set (l := chars (default "" (file_name name))).
  assert (E : rev (take 80 (rev (clean_char <$> l))) = clean_char <$> rev (take 80 (rev l)))
    by by rewrite fmap_rev, fmap_take, fmap_rev.
  rewrite E. destruct (clean_chars_spec (rev (take 80 (rev l)))) as [Hc Hl].
  destruct (String.eqb_spec (join_chars (clean_char <$> rev (take 80 (rev l)))) "") as [_|Hne];
    [split; [done|cbn; lia]|].
  split; [done|]. split.
  - destruct (join_chars _); [done|cbn; lia].
  - rewrite Hl, length_rev, length_take. lia.
Qed.

Lemma all_chars_bytes p s : all_chars p s = true <-> Forall (fun a => p a = true) (bytes_of s).
Proof.
  induction s as [|a s IH]; [by split|]. cbn. rewrite andb_true_iff, IH. split.
  - intros [? ?]. by constructor.
  - by inversion 1.
Qed.

Lemma join_bytes l : join_chars ((fun a => String a "") <$> l) = String.string_of_list_ascii l.
Proof. unfold join_chars. induction l as [|a l IH]; [done|]. cbn. by rewrite IH. Qed.

(** A plain name no longer than eighty is left alone. *)
Lemma sanitize_plain s :
  all_chars name_char s = true -> s <> "" -> s <> "." -> s <> ".." -> (String.length s <= 80)%nat ->
  sanitize s = s.
Proof.
  intros Hs H0 H1 H2 Hl. unfold sanitize. cbv zeta. rewrite file_name_plain by auto using name_no_slash.
  cbn [default from_option id]. rewrite chars_plain by done.
  assert (E : clean_char <$> ((fun a => String a "") <$> bytes_of s) = (fun a => String a "") <$> bytes_of s).
  { rewrite <- list_fmap_compose. apply list_fmap_ext. intros i a Ha.
    apply all_chars_bytes in Hs. pose proof (proj1 (Forall_lookup _ _) Hs i a Ha) as Hn. cbv beta in Hn.
    unfold compose, clean_char. by rewrite Hn. }
  rewrite E, take_ge by (rewrite length_rev, length_fmap, length_bytes; lia).
  rewrite rev_involutive, join_bytes. unfold bytes_of.
  rewrite String.string_of_list_ascii_of_string. by apply String.eqb_neq in H0 as ->.
Qed.

Lemma id_name_char a : id_char a = true -> name_char a = true /\ continuation_byte a = false /\ Ascii.nat_of_ascii a <> 46%nat.
Proof. destruct a as [[] [] [] [] [] [] [] []]; vm_compute; intros [=]; done. Qed.

Lemma id_chars_name s : all_chars id_char s = true -> all_chars name_char s = true.
Proof. apply all_chars_mono. intros a Ha. by apply id_name_char. Qed.

Lemma staging_ok_spec upload_id :
  staging_ok upload_id = true <->
  upload_id <> "" /\ (String.length upload_id <= 64)%nat /\ all_chars id_char upload_id = true.
Proof.
  unfold staging_ok. rewrite !andb_true_iff, negb_true_iff, String.eqb_neq, Nat.leb_le. tauto.
Qed.

(** The first eight characters of a staged id are plain. *)
Lemma id8_plain upload_id :
  staging_ok upload_id = true ->
  all_chars id_char (id8 upload_id) = true /\ id8 upload_id <> "" /\ (String.length (id8 upload_id) <= 8)%nat.
Proof.
  rewrite staging_ok_spec. intros (H0 & _ & Hc). unfold id8.
  rewrite chars_plain by by apply id_chars_name.
  rewrite <- fmap_take, join_bytes, bytes_of_list, length_take. split_and!; [| |lia].
  - apply all_chars_bytes. unfold bytes_of. rewrite String.list_ascii_of_string_of_list_ascii.
    apply Forall_take, all_chars_bytes. done.
  - by destruct upload_id.
Qed.

(** Both ends of a transfer name a staged upload's file alike. *)
Lemma names_agree upload_id name :
  staging_ok upload_id = true -> committed_name upload_id name = pending_name upload_id name.
Proof.
  intros H. destruct (id8_plain _ H) as (Hc & H0 & Hl). unfold committed_name, pending_name.
  rewrite (sanitize_plain (id8 upload_id)); [done|by apply id_chars_name|done| | |lia];
    intros E; rewrite E in Hc; vm_compute in Hc; discriminate.
Qed.

(** A reference never leaves the uploads directory: whatever the upload id
    and the file name, hostile ones included, the path it resolves to is the
    directory joined with one file name of letters, digits, dots, dashes and
    underscores, at most 161 bytes long and never [.] or [..]; and for an id
    staging accepts it is the name the commit writes. *)
Theorem pending_target_jailed u upload_id name :
  let n := pending_name upload_id name in
  pending_target u upload_id name = join (up_dir u) n /\
  file_name n = Some n /\ all_chars name_char n = true /\ (String.length n <= 161)%nat /\
  (staging_ok upload_id = true -> committed_name upload_id name = n).
Proof.
  intros n. subst n.
  destruct (sanitize_spec (id8 upload_id)) as [Hc1 Hl1], (sanitize_spec name) as [Hc2 Hl2].
  assert (Hc : all_chars name_char (pending_name upload_id name) = true).
  { unfold pending_name. rewrite !all_chars_app, Hc1, Hc2. done. }
  assert (Hl : (3 <= String.length (pending_name upload_id name) <= 161)%nat).
  { unfold pending_name. rewrite !string_length_app. cbn [String.length]. lia. }
  split_and!; [done| |done|lia|apply names_agree].
  apply file_name_plain; [by apply name_no_slash|..]; intros E; rewrite E in Hl; cbn in Hl; lia.
Qed.

(** ** Staging: lemmas *)

Lemma chunk_files_perm s : chunk_files (Some s) ≡ₚ map_to_list (sg_chunks s).
Proof. apply merge_sort_Permutation. Qed.

Lemma elem_of_chunk_files s k c : (k, c) ∈ chunk_files (Some s) <-> sg_chunks s !! k = Some c.
Proof. rewrite chunk_files_perm. apply elem_of_map_to_list. Qed.

Lemma foldr_max_ge {A} (f : A -> Z) d l x : x ∈ l -> f x <= foldr (fun q m => Z.max (f q) m) d l.
Proof. induction 1; cbn; lia. Qed.

Lemma foldr_max_base {A} (f : A -> Z) d l : d <= foldr (fun q m => Z.max (f q) m) d l.
Proof. induction l; cbn; lia. Qed.

Lemma newest_ge s k c : sg_chunks s !! k = Some c -> ck_mtime c <= newest s.
Proof.
  rewrite <- elem_of_map_to_list. unfold newest. destruct (map_to_list (sg_chunks s)) as [|p l];
    [by rewrite elem_of_nil|]. rewrite elem_of_cons. intros [<-|H].
  - apply (foldr_max_base (fun q => ck_mtime q.2)).
  - exact (foldr_max_ge (fun q : Z * Chunk => ck_mtime q.2) (ck_mtime p.2) l (k, c) H).
Qed.

(** The chunks a client means to send, by index. *)
Definition agrees (plan : list string) (s : Staging) : Prop :=
  map_Forall (fun k c => exists i, k = Z.of_nat i /\ plan !! i = Some (ck_data c)) (sg_chunks s).

Definition present (s : Staging) (i : nat) (d : string) : Prop :=
  exists t, sg_chunks s !! Z.of_nat i = Some (mk_chunk d t).

Definition total (plan : list string) : nat := sum_list_with String.length plan.

Lemma sum_list_with_perm {A} (f : A -> nat) l l' : l ≡ₚ l' -> sum_list_with f l = sum_list_with f l'.
Proof. induction 1; cbn; lia. Qed.

Lemma sum_list_with_submseteq {A} (f : A -> nat) l l' :
  l ⊆+ l' -> (sum_list_with f l <= sum_list_with f l')%nat.
Proof.
  intros (k & Hk)%submseteq_Permutation. rewrite (sum_list_with_perm _ _ _ Hk), sum_list_with_app. lia.
Qed.

(** Distinct slots of a plan weigh no more than the plan. *)
Lemma slots_weight (plan : list string) (l : list nat) :
  NoDup l -> (forall i, i ∈ l -> (i < length plan)%nat) ->
  (sum_list_with (fun i => String.length (default "" (plan !! i))) l <= total plan)%nat.
Proof.
  intros Hnd Hl.
  assert (Hs : l ⊆+ seq 0 (length plan)).
  { apply NoDup_submseteq; [done|]. intros i Hi. apply elem_of_seq. specialize (Hl i Hi). lia. }
  etrans; [by apply sum_list_with_submseteq|]. clear. unfold total.
  induction plan as [|d plan IH] using rev_ind; [done|].
  rewrite length_app, seq_app, !sum_list_with_app. cbn. rewrite list_lookup_middle by done. cbn.
  assert (E : sum_list_with (fun i => String.length (default "" ((plan ++ [d]) !! i))) (seq 0 (length plan)) =
              sum_list_with (fun i => String.length (default "" (plan !! i))) (seq 0 (length plan))); [|lia].
  assert (forall k l, (forall i, i ∈ l -> (i < length plan)%nat) ->
    sum_list_with (fun i => String.length (default "" ((plan ++ [d]) !! i))) l =
    (k + sum_list_with (fun i => String.length (default "" (plan !! i))) l - k)%nat) as H.
  { intros k l. induction l as [|i l IH']; intros Hl; [cbn; lia|]. cbn.
    rewrite lookup_app_l by by apply Hl, elem_of_cons; left. rewrite IH'; [lia|]. intros; apply Hl. by constructor. }
  rewrite (H 0%nat); [lia|]. intros i Hi%elem_of_seq. lia.
Qed.

Lemma agrees_indices plan s k c :
  agrees plan s -> (k, c) ∈ chunk_files (Some s) ->
  k = Z.of_nat (Z.to_nat k) /\ plan !! Z.to_nat k = Some (ck_data c).
Proof.
  intros Ha Hk. apply elem_of_chunk_files, Ha in Hk as (i & -> & Hi). by rewrite Nat2Z.id.
Qed.

(** The bytes beside a slot and the slot's own fit the plan. *)
Lemma staged_besides_bound plan s i d :
  agrees plan s -> plan !! i = Some d ->
  staged_besides (Z.of_nat i) s + byte_length d <= Z.of_nat (total plan).
Proof.
  intros Ha Hi. unfold staged_besides.
  set (l := filter _ _). set (ks := (fun p : Z * Chunk => Z.to_nat p.1) <$> l).
  assert (Hin : forall p, p ∈ l -> p.1 <> Z.of_nat i /\ p.1 = Z.of_nat (Z.to_nat p.1) /\
                             plan !! Z.to_nat p.1 = Some (ck_data p.2)).
  { intros [k c] [Hk Hc]%list_elem_of_filter. split; [done|]. by eapply agrees_indices. }
  assert (Hnd : NoDup (i :: ks)).
  { apply NoDup_cons. split.
    - intros (p & E & Hp)%list_elem_of_fmap. destruct (Hin p Hp) as (? & ? & ?). lia.
    - apply NoDup_fmap_2_strong.
      + intros [k c] [k' c'] H1 H2 E. destruct (Hin _ H1) as (_ & E1 & _), (Hin _ H2) as (_ & E2 & _).
        cbn in *. assert (k' = k) as -> by lia. apply list_elem_of_filter in H1 as [_ H1], H2 as [_ H2].
        apply elem_of_chunk_files in H1, H2. congruence.
      + apply NoDup_filter. rewrite chunk_files_perm. apply NoDup_map_to_list. }
  pose proof (slots_weight plan (i :: ks) Hnd) as Hw. cbn [sum_list_with] in Hw.
  rewrite Hi in Hw. change (default "" (Some d)) with d in Hw.
  assert (Hlen : forall j, j ∈ i :: ks -> (j < length plan)%nat).
  { intros j [->|(p & -> & Hp)%list_elem_of_fmap]%elem_of_cons; [by eapply lookup_lt_Some|].
    destruct (Hin p Hp) as (_ & _ & H). by eapply lookup_lt_Some. }
  specialize (Hw Hlen).
  assert (E : foldr (fun (p : Z * Chunk) n => byte_length (ck_data p.2) + n) 0 l =
              Z.of_nat (sum_list_with (fun j => String.length (default "" (plan !! j))) ks)).
  { subst ks. clearbody l. clear -Hin. induction l as [|p l IH]; [done|]. rewrite fmap_cons. cbn.
    rewrite IH by (intros q Hq; apply Hin; by constructor).
    destruct (Hin p) as (_ & _ & ->); [by constructor|]. unfold byte_length. cbn. lia. }
  rewrite E. unfold byte_length. lia.
Qed.

(** A plan the store takes: at most a million chunks within the byte cap. *)
Definition plan_fits (plan : list string) : Prop :=
  Z.of_nat (length plan) <= 1000001 /\ Z.of_nat (total plan) * 3 / 4 <= MAX_BYTES.

(** What a chunk of the plan does: it lands in its slot, the directory still
    agrees with the plan, and the chunks of a directory that is not expired
    stay. *)
Lemma append_chunk now u upload_id plan i d :
  staging_ok upload_id = true -> plan_fits plan -> plan !! i = Some d ->
  (forall s, up_tmp u !! upload_id = Some s -> agrees plan s) ->
  exists s, append now u upload_id d (Some (Z.of_nat i)) =
      (inr tt, set_tmp u (<[upload_id := s]> (up_tmp (sweep_staging now u)))) /\
    agrees plan s /\ present s i d /\ now <= newest s /\
    (forall s0 j e, up_tmp u !! upload_id = Some s0 -> expired now s0 = false ->
       present s0 j e -> plan !! j = Some e -> present s j e).
Proof.
  intros Hok [Hlen Hfit] Hi Ha. unfold append. rewrite Hok. cbn [negb default from_option id].
  set (s0 := default (mk_staging now ∅) (up_tmp (sweep_staging now u) !! upload_id)).
  change (match up_tmp (sweep_staging now u) !! upload_id with Some x => x | None => mk_staging now ∅ end) with s0.
  assert (Hs0 : agrees plan s0).
  { subst s0. unfold sweep_staging. cbn. rewrite map_lookup_filter.
    destruct (up_tmp u !! upload_id) as [s|] eqn:E; cbn; [|by apply map_Forall_empty].
    case_guard; cbn; [by apply Ha|by apply map_Forall_empty]. }
  apply lookup_lt_Some in Hi as Hlt. rewrite (proj2 (Z.ltb_ge _ _)) by lia.
  pose proof (staged_besides_bound plan s0 i d Hs0 Hi) as Hb.
  rewrite (proj2 (Z.ltb_ge MAX_BYTES _))
    by (etrans; [apply Z.div_le_mono; [lia|]; apply Z.mul_le_mono_nonneg_r, Hb; lia|done]).
  eexists. split; [|split_and!].
  - f_equal. cbn [set_tmp up_tmp]. rewrite insert_insert_eq. unfold sweep_staging, set_tmp. cbn. done.
  - intros k c. cbn. rewrite lookup_insert_Some. intros [[<- <-]|[Hk Hc]]; [by exists i|by apply Hs0].
  - exists now. cbn [sg_chunks]. by rewrite lookup_insert_eq.
  - change now with (ck_mtime (mk_chunk d now)) at 1. eapply newest_ge with (k := Z.of_nat i).
    cbn [sg_chunks]. by rewrite lookup_insert_eq.
  - intros s1 j e Hs1 He [t Ht] Hj. unfold present. cbn [sg_chunks]. destruct (decide (j = i)) as [->|Hji].
    + exists now. rewrite lookup_insert_eq. congruence.
    + exists t. rewrite lookup_insert_ne by lia. subst s0. unfold sweep_staging. cbn.
      rewrite map_lookup_filter, Hs1. cbn. by rewrite option_guard_True.
Qed.

(** *** Joining *)

Lemma chunk_files_sorted s : Sorted chunk_le (chunk_files (Some s)).
Proof.
  apply Sorted_merge_sort. intros p q. unfold chunk_le. lia.
Qed.

Lemma Sorted_indices n k : Sorted Z.le (Z.of_nat <$> seq n k).
Proof.
  revert n. induction k as [|k IH]; intros n; [constructor|]. cbn. constructor; [apply IH|].
  destruct k; constructor. lia.
Qed.

(** A directory that agrees with a plan and holds all of it lists the plan in order. *)
Lemma chunk_files_full plan s :
  agrees plan s -> (forall i d, plan !! i = Some d -> present s i d) ->
  (chunk_files (Some s)).*1 = Z.of_nat <$> seq 0 (length plan) /\
  (fun p => ck_data p.2) <$> chunk_files (Some s) = plan.
Proof.
  intros Ha Hp.
  assert (Hk : (chunk_files (Some s)).*1 = Z.of_nat <$> seq 0 (length plan)).
  { apply (Sorted_unique Z.le).
    - apply (Sorted_fmap _ chunk_le); [done|]. apply chunk_files_sorted.
    - apply Sorted_indices.
    - apply NoDup_Permutation.
      + rewrite chunk_files_perm. apply NoDup_fst_map_to_list.
      + apply NoDup_fmap_2; [apply _|apply NoDup_seq].
      + intros k. rewrite !list_elem_of_fmap. split.
        * intros ([k' c] & -> & H). destruct (agrees_indices _ _ _ _ Ha H) as [E Hl].
          exists (Z.to_nat k'). split; [done|]. apply elem_of_seq. apply lookup_lt_Some in Hl. lia.
        * intros (i & -> & H%elem_of_seq). destruct (lookup_lt_is_Some_2 plan i) as [d Hd]; [lia|].
          destruct (Hp i d Hd) as [t Ht]. exists (Z.of_nat i, mk_chunk d t). split; [done|].
          by apply elem_of_chunk_files. }
  split; [done|]. apply list_eq. intros i. rewrite list_lookup_fmap.
  assert (Hi : (chunk_files (Some s)).*1 !! i = (Z.of_nat <$> seq 0 (length plan)) !! i) by by rewrite Hk.
  rewrite !list_lookup_fmap in Hi.
  destruct (chunk_files (Some s) !! i) as [[k c]|] eqn:E; cbn in Hi |- *.
  - symmetry in Hi. apply fmap_Some in Hi as (j & Hj & ->). apply lookup_seq in Hj as [-> Hj].
    apply list_elem_of_lookup_2 in E. apply (agrees_indices _ _ _ _ Ha) in E as [_ E].
    by rewrite Nat2Z.id in E.
  - symmetry in Hi. apply fmap_None, lookup_ge_None in Hi. rewrite length_seq in Hi. symmetry.
    by apply lookup_ge_None.
Qed.

(** The loop of [commit] over indices and texts. *)
Lemma joined_spec (l : list (Z * Chunk)) (n k : nat) :
  l.*1 = Z.of_nat <$> seq n k ->
  joined (Z.of_nat n) l = Some (join_chars ((fun p => trim (ck_data p.2)) <$> l)).
Proof.
  revert n k. induction l as [|[seq c] l IH]; intros n k Hl; [done|].
  destruct k as [|k]; [done|]. cbn in Hl. injection Hl as -> Hl. cbn [joined].
  rewrite Z.eqb_refl. replace (Z.of_nat n + 1) with (Z.of_nat (S n)) by lia. by rewrite (IH (S n) k).
Qed.

Section Landing.
Context `{B64 : Base64}.

(** A complete staging directory commits to exactly the bytes it encodes, under
    the name a reference resolves to, and is gone. *)
Lemma commit_full u upload_id name plan s bytes :
  staging_ok upload_id = true -> up_tmp u !! upload_id = Some s -> plan <> [] ->
  agrees plan s -> (forall i d, plan !! i = Some d -> present s i d) ->
  Forall (fun d => trim d = d) plan ->
  b64_decode (join_chars plan) = Some bytes -> byte_length bytes <= MAX_BYTES ->
  commit u upload_id name =
    (inr (pending_target u upload_id name),
     set_files (set_tmp u (delete upload_id (up_tmp u))) (<[pending_name upload_id name := bytes]> (up_files u))).
Proof.
  intros Hok Hs Hne Ha Hp Ht Hd Hm. unfold commit. rewrite Hok, Hs. cbn [negb].
  destruct (chunk_files_full plan s Ha Hp) as [Hk Hv].
  destruct (chunk_files (Some s)) as [|p l] eqn:E; [by destruct Hne|].
  rewrite <- E in *. rewrite (joined_spec _ 0 (length plan)) by done.
  assert (Hj : join_chars ((fun p => trim (ck_data p.2)) <$> chunk_files (Some s)) = join_chars plan).
  { f_equal. rewrite <- Hv in Ht. apply Forall_fmap in Ht. rewrite <- Hv.
    apply list_fmap_ext. intros i q Hq. exact (proj1 (Forall_lookup _ _) Ht i q Hq). }
  rewrite Hj, Hd. rewrite (proj2 (Z.ltb_ge _ _)) by done. by rewrite names_agree.
Qed.
End Landing.

(** ** The chunk loop of the senders

    Both senders cut a text alike: [chunk_ranges] of attachments.rs and the loop
    of doc_host.rs's [push_attachments] are this loop at their own sizes. Every
    turn but the last advances by [size], so the length is fuel enough. *)
Fixpoint ranges_from (fuel size len start seq : nat) : list (nat * (nat * nat)) :=
  match fuel with
  | O => []
  | S fuel =>
      let stop := Nat.min (start + size) len in
      (seq, (start, stop)) :: (if (len <=? stop)%nat then [] else ranges_from fuel size len stop (S seq))
  end.

Definition chunk_ranges (size len : nat) : list (nat * (nat * nat)) := ranges_from (S len) size len 0 0.

Definition chunk_plan (size : nat) (text : string) : list string :=
  (fun r => slice r.2.1 r.2.2 text) <$> chunk_ranges size (String.length text).

Lemma slice_split i j k text : (i <= j <= k)%nat -> slice i k text = slice i j text +:+ slice j k text.
Proof.
  intros H. unfold slice. change String.append with (fun a b => a +:+ b). cbv beta. rewrite <- string_of_app. f_equal.
  replace (k - i)%nat with ((j - i) + (k - j))%nat by lia. rewrite <- take_take_drop, drop_drop.
  do 3 f_equal. lia.
Qed.

Lemma slice_all text : slice 0 (String.length text) text = text.
Proof.
  unfold slice. rewrite drop_0, Nat.sub_0_r, take_ge by by rewrite length_bytes.
  apply String.string_of_list_ascii_of_string.
Qed.

Lemma all_chars_slice p i j text : all_chars p text = true -> all_chars p (slice i j text) = true.
Proof.
  rewrite !all_chars_bytes. intros H. unfold slice, bytes_of. rewrite String.list_ascii_of_string_of_list_ascii.
  by apply Forall_take, Forall_drop.
Qed.

(** What the loop gives: indices in order, pieces that join to the rest of the
    text, about one per [size] bytes. *)
Lemma ranges_from_spec text size fuel start seq :
  (0 < size)%nat -> (start <= String.length text)%nat -> (String.length text - start < fuel)%nat ->
  let l := ranges_from fuel size (String.length text) start seq in
  l.*1 = List.seq seq (length l) /\
  join_chars ((fun r => slice r.2.1 r.2.2 text) <$> l) = slice start (String.length text) text /\
  l <> [] /\ (length l <= (String.length text - start) / size + 1)%nat /\
  sum_list_with (fun r => String.length (slice r.2.1 r.2.2 text)) l = (String.length text - start)%nat.
Proof.
  intros Hz. revert start seq. induction fuel as [|fuel IH]; intros start seq Hs Hf; [lia|].
  cbn [ranges_from]. set (stop := Nat.min (start + size) (String.length text)).
  destruct (Nat.leb_spec (String.length text) stop) as [Hl|Hl].
  - assert (stop = String.length text) as -> by lia. split_and!; [done| |done|cbn; lia|].
    + unfold join_chars. cbn. by rewrite string_app_nil_r.
    + cbn [sum_list_with fst snd]. rewrite slice_length by done. lia.
  - assert (stop = start + size)%nat as E by lia.
    destruct (IH stop (S seq)) as (H1 & H2 & _ & H4 & H5); [lia|lia|].
    split_and!; [| |done| |].
    + cbn. by rewrite H1 at 1.
    + rewrite fmap_cons. unfold join_chars in *. cbn [foldr fst snd]. rewrite H2.
      symmetry. apply slice_split. lia.
    + cbn [length]. 
      replace (String.length text - start)%nat with (String.length text - stop + 1 * size)%nat by lia.
      rewrite Nat.div_add by lia. lia.
    + cbn [sum_list_with fst snd]. rewrite H5, slice_length by lia. lia.
Qed.

Lemma chunk_plan_spec size text :
  (0 < size)%nat ->
  chunk_plan size text <> [] /\ join_chars (chunk_plan size text) = text /\
  total (chunk_plan size text) = String.length text /\
  (length (chunk_plan size text) <= String.length text / size + 1)%nat /\
  (chunk_ranges size (String.length text)).*1 = List.seq 0 (length (chunk_plan size text)).
Proof.
  intros Hz. destruct (ranges_from_spec text size (S (String.length text)) 0 0 Hz) as (H1 & H2 & H3 & H4 & H5); [lia..|].
  unfold chunk_plan, chunk_ranges in *. rewrite length_fmap, Nat.sub_0_r in *. rewrite slice_all in H2.
  split_and!; [|done| |done|done].
  - intros E. by apply fmap_nil_inv in E.
  - unfold total. etrans; [|exact H5]. generalize (ranges_from (S (String.length text)) size (String.length text) 0 0).
    intros l. induction l as [|r l IH]; [done|]. rewrite fmap_cons. cbn [sum_list_with]. by rewrite IH.
Qed.

Lemma b64_graphic a : b64_char a = true -> graphic a = true.
Proof. destruct a as [[] [] [] [] [] [] [] []]; vm_compute; intros [=]; done. Qed.

Lemma b64_trimmed s : all_chars b64_char s = true -> trim s = s.
Proof.
  intros H. apply trim_graphic. induction s as [|a s IH]; [done|]. cbn in H |- *.
  apply andb_true_iff in H as [Ha Hs]. rewrite (b64_graphic a Ha). by apply IH.
Qed.

(** ** Staging a whole file *)

Section Staged.
Context (upload_id : string) (plan : list string).

(** The directory of the upload as a sender may rely on it: it holds only
    chunks of the plan, those of [idx] among them, and its newest is no older
    than [t]. *)
Record staged (u : UploadsInner) (idx : list nat) (t : Z) : Prop := {
  st_agrees : forall s, up_tmp u !! upload_id = Some s -> agrees plan s;
  st_present : forall i d, i ∈ idx -> plan !! i = Some d ->
    exists s, up_tmp u !! upload_id = Some s /\ present s i d;
  st_fresh : idx <> [] -> exists s, up_tmp u !! upload_id = Some s /\ t <= newest s;
}.

Lemma staged_weaken u idx t : staged u idx t -> staged u [] t.
Proof. intros [Ha _ _]. split; [done| |done]. intros i d H. by apply elem_of_nil in H. Qed.

(** A chunk of the plan joins the rest. *)
Lemma staged_append u idx t now i d :
  staging_ok upload_id = true -> plan_fits plan ->
  staged u idx t -> now - t <= STAGING_TTL -> plan !! i = Some d ->
  exists u', append now u upload_id d (Some (Z.of_nat i)) = (inr tt, u') /\
    staged u' (i :: idx) now /\ up_files u' = up_files u /\ up_dir u' = up_dir u.
Proof.
  intros Hok Hfit [Ha Hp Hf] Ht Hi.
  destruct (append_chunk now u upload_id plan i d Hok Hfit Hi Ha) as (s & E & Hs & Hsi & Hn & Hkeep).
  eexists. split; [exact E|]. split; [|done]. split.
  - intros s'. cbn. rewrite lookup_insert_eq. by intros [= <-].
  - intros j e [->|Hj]%elem_of_cons He; exists s; cbn; rewrite lookup_insert_eq; (split; [done|]).
    + rewrite Hi in He. by injection He as <-.
    + destruct (Hp j e Hj He) as (s0 & Hs0 & Hpr). apply (Hkeep s0); [done| |done|done].
      destruct Hf as (s1 & Hs1 & Ht1); [by intros ->; apply elem_of_nil in Hj|].
      rewrite Hs0 in Hs1. injection Hs1 as <-. unfold expired. apply Z.ltb_ge. lia.
  - intros _. exists s. cbn. by rewrite lookup_insert_eq.
Qed.

(** Other uploads' chunks leave the directory alone while it is young. *)
Lemma staged_other u idx t now other d seq :
  other <> upload_id -> staged u idx t -> now - t <= STAGING_TTL ->
  staged (append now u other d seq).2 idx t.
Proof.
  intros Hne [Ha Hp Hf] Ht.
  assert (Hl : forall u', up_tmp u' !! upload_id = up_tmp (sweep_staging now u) !! upload_id -> staged u' idx t).
  { intros u' E.
    assert (Hsub : forall s, up_tmp u' !! upload_id = Some s -> up_tmp u !! upload_id = Some s).
    { intros s. rewrite E. cbn. by intros [H _]%map_lookup_filter_Some. }
    assert (Hback : idx <> [] -> forall s, up_tmp u !! upload_id = Some s -> up_tmp u' !! upload_id = Some s).
    { intros Hi s Hs. rewrite E. cbn. apply map_lookup_filter_Some. split; [done|].
      destruct (Hf Hi) as (s1 & Hs1 & Ht1). rewrite Hs in Hs1. injection Hs1 as <-.
      unfold expired. cbn. apply Z.ltb_ge. lia. }
    assert (Hidx : forall i, i ∈ idx -> idx <> []) by (intros i Hi ->; by apply elem_of_nil in Hi).
    split; [by eauto| |].
    - intros i e Hi He. destruct (Hp i e Hi He) as (s & Hs & Hpr). exists s. eauto.
    - intros Hi. destruct (Hf Hi) as (s & Hs & ?). exists s. eauto. }
  unfold append. destruct (staging_ok other); cbn [negb]; [|by split].
  repeat case_match; apply Hl; cbn; by simplify_map_eq.
Qed.

Context `{B64 : Base64}.

(** With every chunk staged the commit writes the file. *)
Lemma staged_commit u idx t name bytes :
  staging_ok upload_id = true -> staged u idx t ->
  plan <> [] -> (forall i, (i < length plan)%nat -> i ∈ idx) ->
  Forall (fun d => trim d = d) plan ->
  b64_decode (join_chars plan) = Some bytes -> byte_length bytes <= MAX_BYTES ->
  commit u upload_id name =
    (inr (pending_target u upload_id name),
     set_files (set_tmp u (delete upload_id (up_tmp u))) (<[pending_name upload_id name := bytes]> (up_files u))).
Proof.
  intros Hok [Ha Hp Hf] Hne Hall Ht Hd Hm.
  destruct Hf as (s & Hs & _).
  { intros ->. destruct plan; [done|]. specialize (Hall 0%nat). cbn in Hall.
    apply (elem_of_nil 0%nat), Hall. lia. }
  apply (commit_full u upload_id name plan s); auto.
  intros i d Hi. destruct (Hp i d) as (s' & Hs' & ?); [|done|congruence].
  apply Hall. by eapply lookup_lt_Some.
Qed.
End Staged.

Section Encoded.
Context `{B64 : Base64} {Laws : Base64Laws B64}.

(** The chunks of an encoded file. Up to two bytes under the cap, padding
    included, the staging check takes them. *)
Definition file_plan (size : nat) (bytes : string) : list string := chunk_plan size (b64_encode bytes).

Lemma encoded_fits size bytes :
  (1000 <= size)%nat -> byte_length bytes <= MAX_BYTES - 2 -> plan_fits (file_plan size bytes).
Proof.
  intros Hz Hm. unfold plan_fits, file_plan, byte_length in *.
  destruct (chunk_plan_spec size (b64_encode bytes)) as (_ & _ & Ht & Hl & _); [lia|].
  rewrite Ht. rewrite encode_length in *. set (n := String.length bytes) in *.
  pose proof (Nat.Div0.mul_div_le (n + 2) 3) as H3.
  unfold MAX_BYTES in *. split.
  - assert ((4 * ((n + 2) / 3)) / size <= (4 * ((n + 2) / 3)) / 1000)%nat as Hd by (apply Nat.div_le_compat_l; lia).
    assert (1000 * (4 * ((n + 2) / 3) / 1000) <= 4 * ((n + 2) / 3))%nat by apply Nat.Div0.mul_div_le. lia.
  - rewrite Nat2Z.inj_mul. replace (Z.of_nat 4 * Z.of_nat ((n + 2) / 3) * 3) with (3 * Z.of_nat ((n + 2) / 3) * 4) by lia.
    rewrite Z.div_mul by lia. lia.
Qed.

Lemma file_plan_spec size bytes :
  (0 < size)%nat ->
  file_plan size bytes <> [] /\ Forall (fun d => trim d = d) (file_plan size bytes) /\
  b64_decode (join_chars (file_plan size bytes)) = Some bytes.
Proof.
  intros Hz. unfold file_plan. destruct (chunk_plan_spec size (b64_encode bytes) Hz) as (H1 & H2 & _).
  split_and!; [done| |by rewrite H2, decode_encode].
  apply Forall_fmap, Forall_forall. intros r _. apply b64_trimmed, all_chars_slice, encode_chars.
Qed.
End Encoded.
