(* ===== verification/Attachments.v ===== *)
(** Attachments on the client: crates/ui/src/attachments.rs. How attachment
    paths ride a prompt and are parsed back out of it, the chunked upload with
    its window of calls in flight and its retries, and the read-back loop, both
    against the engine's store of [Uploads].

    The upload is a step relation: which call is answered next, whether a lost
    call arrived, and the clock are the environment's choice. The image cache
    and gpui's image types are not modelled; an image is its mime type and its
    bytes. *)
From stdpp Require Import pretty.
From S2P Require Import Prelude Text Base64 Commands Uploads.

Definition MAX_ATTACHMENT_BYTES : Z := 24 * 1024 * 1024.
Definition UPLOAD_CHUNK_B64_CHARS : nat := N.to_nat 680000.
Definition MAX_READ_CHUNKS : nat := 1000.
Definition UPLOAD_CONCURRENCY : nat := 3.

(** ** The text of a message *)

Definition ATTACHMENT_ONLY_TEXT : string := "See the attached image(s).".

(** The line between the body and the references. *)
Definition refs_header : string :=
  "Attached images (local files " +:+ em_dash +:+ " open them to view):".

Fixpoint join_lines (l : list string) : string :=
  match l with
  | [] => ""
  | [x] => x
  | x :: l => x +:+ String newline (join_lines l)
  end.

Definition message_body (text : string) : string :=
  if String.eqb text "" then ATTACHMENT_ONLY_TEXT else text.

Definition with_attachments (text : string) (paths : list string) : string :=
  match paths with
  | [] => text
  | _ => message_body text +:+ String newline (String newline (refs_header +:+
           String newline (join_lines ((fun p => "- " +:+ p) <$> paths))))
  end.

Record UserImageAttachment := mk_user_image { ui_id : string; ui_path : string; ui_name : string }.

Record ParsedUserMessage := mk_parsed { pm_text : string; pm_attachments : list UserImageAttachment }.

(** [rsplit] at either separator: the part after the last one. *)
Fixpoint after_separators (s : string) : option string :=
  match s with
  | EmptyString => None
  | String a s =>
      match after_separators s with
      | Some r => Some r
      | None => if Ascii.eqb a slash || byte_in 92 92 a then Some s else None
      end
  end.

Definition name_from_path (path : string) : string :=
  let name := trim (default path (after_separators path)) in
  if String.eqb name "" then "image" else name.

(** [str::find] *)
Fixpoint find_str (pat s : string) : option nat :=
  if starts_with pat s then Some 0%nat
  else match s with String _ s => S <$> find_str pat s | EmptyString => None end.

Definition trim_end_returns (s : string) : string :=
  reverse (trim_with (String.length s) [return_char] (reverse s)).

Definition drop_str (n : nat) (s : string) : string := slice n (String.length s) s.

Definition refs_needle : string := String newline (String newline "attached images (local files").

(** [find_refs_marker] from the offset [from]; the needle advances it, so the
    text's length is fuel enough. *)
Fixpoint find_refs_from (fuel : nat) (content : string) (from : nat) : option (nat * nat) :=
  match fuel with
  | O => None
  | S fuel =>
      match find_str refs_needle (drop_str from (to_ascii_lowercase content)) with
      | None => None
      | Some rel =>
          let gap := (from + rel)%nat in
          let line_start := (gap + 2)%nat in
          let line_end :=
            match find_str (String newline "") (drop_str line_start content) with
            | Some p => (line_start + p)%nat
            | None => String.length content
            end in
          if ends_with "):" (trim_end_returns (slice line_start line_end content))
          then Some (gap, Nat.min (line_end + 1) (String.length content))
          else find_refs_from fuel content line_start
      end
  end.

Definition find_refs_marker (content : string) : option (nat * nat) :=
  find_refs_from (S (String.length content)) content 0.

Definition ref_line (line : string) : option string :=
  path ← trim <$> strip_prefix "- " (trim_start line);
  if String.eqb path "" then None else Some path.

Definition parse_user_message_images (content : string) : ParsedUserMessage :=
  match find_refs_marker content with
  | None => mk_parsed content []
  | Some (body_end, refs_start) =>
      let body := trim_end (slice 0 body_end content) in
      let attachments :=
        imap (fun index path => mk_user_image (pretty index +:+ ":" +:+ path) path (name_from_path path))
             (omap ref_line (lines (drop_str refs_start content))) in
      match attachments with
      | [] => mk_parsed content []
      | _ => mk_parsed (if String.eqb (trim body) ATTACHMENT_ONLY_TEXT then "" else body) attachments
      end
  end.

(** The rail's text; the translated word for one image is a parameter. *)
Definition user_message_rail_text (attached_image content : string) : string :=
  let parsed := parse_user_message_images content in
  if negb (String.eqb (trim (pm_text parsed)) "") then pm_text parsed
  else match length (pm_attachments parsed) with
       | O => content
       | 1%nat => attached_image
       | n => pretty n +:+ " attached images"
       end.

(** ** Staging *)

Definition has_known_extension (name : string) : bool :=
  match rev (split_on (Ascii.ascii_of_nat 46) name) with
  | ext :: stem :: rest =>
      negb (String.eqb stem "" && match rest with [] => true | _ => false end) &&
      (2 <=? String.length ext)%nat && (String.length ext <=? 5)%nat && all_chars alphanumeric ext
  | _ => false
  end.

Definition ensure_extension (name format_extension : string) : string :=
  if has_known_extension name then name else name +:+ "." +:+ format_extension.

Inductive ImageFormat := Png | Jpeg | Gif | Webp | Svg | Bmp | Tiff.

Definition format_table : list (string * ImageFormat) :=
  [("png", Png); ("jpg", Jpeg); ("jpeg", Jpeg); ("gif", Gif); ("webp", Webp); ("svg", Svg); ("bmp", Bmp);
   ("tif", Tiff); ("tiff", Tiff)].

Definition format_by_extension (name : string) : option ImageFormat :=
  ext ← to_ascii_lowercase <$> extension name;
  snd <$> List.find (fun p => String.eqb p.1 ext) format_table.

Record StagedAttachment := mk_staged { sa_name : string; sa_format : ImageFormat; sa_bytes : string }.

(** [stage_file]: [read] is the file's size and what reading it gives; the
    extension gpui names a format by is a parameter. *)
Definition stage_file (format_extension : ImageFormat -> string) (path : string) (read : option (Z * option string))
    : string + StagedAttachment :=
  let display_name := default "image" (file_name path) in
  match file_name path ≫= format_by_extension with
  | None => inl (display_name +:+ " is not a supported image.")
  | Some format =>
      match read with
      | None => inl (display_name +:+ " could not be read.")
      | Some (len, bytes) =>
          if MAX_ATTACHMENT_BYTES <? len then inl (display_name +:+ " is too large (24 MB max).")
          else
            match bytes with
            | None => inl (display_name +:+ " could not be read.")
            | Some bytes => inr (mk_staged (ensure_extension display_name (format_extension format)) format bytes)
            end
      end
  end.

Example transport_ex :
  parse_user_message_images (with_attachments "look" ["/a/b c.png"; "pending://u1/x.png"]) =
    mk_parsed "look" [mk_user_image "0:/a/b c.png" "/a/b c.png" "b c.png";
                      mk_user_image "1:pending://u1/x.png" "pending://u1/x.png" "x.png"] /\
  pm_text (parse_user_message_images (with_attachments "" ["/a.png"])) = "" /\
  pending_refs_in (with_attachments "look" ["/a/b c.png"; "pending://u1/x.png"]) = ["pending://u1/x.png"].
Proof. split_and!; vm_compute; reflexivity. Qed.

(** ** The text: lemmas *)

Lemma lower_app s t : to_ascii_lowercase (s +:+ t) = to_ascii_lowercase s +:+ to_ascii_lowercase t.
Proof. induction s as [|a s IH]; [done|]. rewrite !string_app_cons. cbn [to_ascii_lowercase]. by rewrite IH. Qed.

Lemma lower_length s : String.length (to_ascii_lowercase s) = String.length s.
Proof. induction s as [|a s IH]; [done|]. cbn. by rewrite IH. Qed.

Lemma starts_with_app p s : starts_with p (p +:+ s) = true.
Proof.
  unfold starts_with. induction p as [|a p IH]; [by destruct s|].
  rewrite string_app_cons. cbn. destruct (Ascii.ascii_dec a a); done.
Qed.

(** A prefix that runs over the end of a text splits there. *)
Lemma starts_with_over p t x :
  starts_with p (t +:+ x) = true ->
  starts_with p t = true \/ exists r, p = t +:+ r /\ starts_with r x = true.
Proof.
  unfold starts_with. revert t. induction p as [|a p IH]; intros t H.
  - left. by destruct t.
  - destruct t as [|b t]; [right; exists (String a p); by rewrite !string_app_nil_l in *|].
    rewrite string_app_cons in H. cbn in H |- *. destruct (Ascii.ascii_dec a b) as [->|]; [|done].
    destruct (IH t H) as [?|(r & -> & Hr)]; [by left|]. right. exists r. by rewrite string_app_cons.
Qed.

Fixpoint suffixes (s : string) : list string :=
  s :: match s with String _ s => suffixes s | EmptyString => [] end.

Lemma elem_of_suffixes t r : r ∈ suffixes (t +:+ r).
Proof.
  induction t as [|a t IH]; [rewrite string_app_nil_l; destruct r; by left|].
  rewrite string_app_cons. cbn. by right.
Qed.

(** Where a pattern that does not overlap what follows is first found. *)
Lemma find_str_app pat s x :
  pat <> "" -> find_str pat s = None -> starts_with pat x = true ->
  Forall (fun r => r = pat \/ r = "" \/ starts_with r x = false) (suffixes pat) ->
  find_str pat (s +:+ x) = Some (String.length s).
Proof.
  intros Hne Hs Hx Hsuf. induction s as [|a s IH].
  - rewrite string_app_nil_l. destruct x as [|b x]; cbn -[starts_with]; by rewrite Hx.
  - rewrite string_app_cons. cbn -[starts_with] in Hs |- *.
    destruct (starts_with pat (String a s)) eqn:E; [done|].
    destruct (find_str pat s) eqn:Ef; [done|]. rewrite (IH eq_refl). cbn [String.length].
    destruct (starts_with pat (String a (s +:+ x))) eqn:E2; [exfalso|done].
    rewrite <- string_app_cons in E2. apply starts_with_over in E2 as [E2|(r & Hr & Hrx)]; [congruence|].
    assert (Hin : r ∈ suffixes pat) by (rewrite Hr; apply elem_of_suffixes).
    pose proof (proj1 (Forall_forall _ _) Hsuf r Hin) as [->|[->|Hf]]; [| |congruence].
    + apply (f_equal String.length) in Hr. rewrite string_length_app in Hr. cbn in Hr. lia.
    + rewrite string_app_nil_r in Hr. subst pat. revert E. generalize (String a s). clear. intros t E.
      pose proof (starts_with_app t "") as H. rewrite string_app_nil_r in H. congruence.
Qed.

Lemma drop_str_app s t n : n = String.length s -> drop_str n (s +:+ t) = t.
Proof.
  intros ->. unfold drop_str, slice, bytes_of. rewrite string_length_app.
  rewrite Nat.add_comm, Nat.add_sub.
  induction s as [|a s IH].
  - rewrite string_app_nil_l, drop_0, take_ge, String.string_of_list_ascii_of_string; [done|].
    pose proof (length_bytes t) as H. unfold bytes_of in H. lia.
  - rewrite string_app_cons. cbn. apply IH.
Qed.

Lemma bytes_of_app s t : bytes_of (s +:+ t) = bytes_of s ++ bytes_of t.
Proof. induction s as [|a s IH]; [done|]. rewrite string_app_cons. exact (f_equal (cons a) IH). Qed.

(** The middle of three texts. *)
Lemma slice_mid a b c i j :
  i = String.length a -> j = (i + String.length b)%nat -> slice i j (a +:+ b +:+ c) = b.
Proof.
  intros -> ->. unfold slice. rewrite !bytes_of_app.
  rewrite drop_app_length' by by rewrite length_bytes.
  rewrite take_app_length' by (rewrite length_bytes; lia).
  apply String.string_of_list_ascii_of_string.
Qed.

Lemma slice_prefix s t : slice 0 (String.length s) (s +:+ t) = s.
Proof. exact (slice_mid "" s t 0 (String.length s) eq_refl eq_refl). Qed.

Lemma drop_str_0 s : drop_str 0 s = s.
Proof. apply (drop_str_app "" s). done. Qed.

(** *** Lines of a message *)

(** Everything after the blank line that opens the trailer. *)
Definition trailer (paths : list string) : string :=
  refs_header +:+ String newline (join_lines ((fun p => "- " +:+ p) <$> paths)).

Lemma with_attachments_trailer text paths :
  paths <> [] ->
  with_attachments text paths =
    message_body text +:+ String newline (String newline (trailer paths)).
Proof. by destruct paths. Qed.

(** A path that survives the trip: one line, nothing to trim, not empty. *)
Definition plain_path (p : string) : Prop := no_control p = true /\ trim p = p /\ p <> "".

Lemma trim_start_graphic a s : graphic a = true -> trim_start (String a s) = String a s.
Proof.
  intros Ha. unfold trim_start. cbn [String.length trim_with].
  rewrite strip_first_graphic; [done| |done]. repeat (constructor; [reflexivity|]). constructor.
Qed.

Lemma ref_line_path p : plain_path p -> ref_line ("- " +:+ p) = Some p.
Proof.
  intros (_ & Ht & Hne). unfold ref_line. rewrite (trim_start_graphic (Ascii.ascii_of_nat 45) (" " +:+ p) eq_refl : trim_start ("- " +:+ p) = "- " +:+ p).
  rewrite (strip_prefix_app "- " p). cbn [fmap option_fmap option_map mbind option_bind]. rewrite Ht.
  by apply String.eqb_neq in Hne as ->.
Qed.

Lemma lines_app_line p r :
  no_control p = true -> lines (p +:+ String newline r) = p :: lines r.
Proof.
  intros H. unfold lines. rewrite lines_from_split. change (lines_from "" (p +:+ String newline ""))
    with (lines (p +:+ String newline "")). by rewrite lines_line.
Qed.

Lemma lines_join_lines l :
  Forall (fun x => no_control x = true /\ x <> "") l -> lines (join_lines l) = l.
Proof.
  induction 1 as [|x l [Hc Hne] Hl IH]; [done|]. destruct l as [|y l].
  - cbn. rewrite lines_plain by done. by apply String.eqb_neq in Hne as ->.
  - change (join_lines (x :: y :: l)) with (x +:+ String newline (join_lines (y :: l))).
    by rewrite lines_app_line, IH.
Qed.

Lemma ref_lines_lines paths :
  Forall plain_path paths -> lines (join_lines ((fun p => "- " +:+ p) <$> paths)) = (fun p => "- " +:+ p) <$> paths.
Proof.
  intros Hp. apply lines_join_lines. apply Forall_fmap. eapply Forall_impl; [exact Hp|].
  intros p (Hc & _ & _). split; [|done]. by rewrite no_control_app, Hc.
Qed.

Lemma omap_ref_lines paths : Forall plain_path paths -> omap ref_line ((fun p => "- " +:+ p) <$> paths) = paths.
Proof.
  induction 1 as [|p paths Hp _ IH]; [done|]. rewrite fmap_cons. cbn [omap list_omap].
  by rewrite ref_line_path, IH.
Qed.

(** *** The marker *)

Lemma header_plain : no_control refs_header = true /\ ends_with "):" (trim_end_returns refs_header) = true.
Proof. split; vm_compute; reflexivity. Qed.

Lemma find_newline s t : no_control s = true -> find_str (String newline "") (s +:+ String newline t) = Some (String.length s).
Proof.
  intros H. apply find_str_app; [done| |exact (starts_with_app (String newline "") t)|].
  - induction s as [|a s IH]; [done|]. cbn in H. apply andb_true_iff in H as [Ha Hs].
    cbn -[newline Ascii.eqb]. unfold starts_with. cbn -[newline].
    destruct (Ascii.ascii_dec newline a) as [<-|]; [vm_compute in Ha; discriminate|]. by rewrite IH.
  - constructor; [by left|]. constructor; [by right; left|constructor].
Qed.

(** The marker of a message that has none of its own is the trailer's. *)
Lemma find_marker body paths :
  paths <> [] -> find_str refs_needle (to_ascii_lowercase body) = None ->
  find_refs_marker (body +:+ String newline (String newline (trailer paths))) =
    Some (String.length body, (String.length body + 2 + String.length refs_header + 1)%nat).
Proof.
  intros Hne Hb. unfold find_refs_marker. cbn [find_refs_from].
  rewrite drop_str_0, lower_app.
  set (rest := String newline (String newline (trailer paths))).
  pose (Y := " " +:+ em_dash +:+ " open them to view):" +:+
               String newline (join_lines ((fun p => "- " +:+ p) <$> paths))).
  assert (Hrest : rest = String newline (String newline "Attached images (local files") +:+ Y) by reflexivity.
  assert (Hlow : to_ascii_lowercase rest = refs_needle +:+ to_ascii_lowercase Y)
    by by rewrite Hrest, lower_app.
  assert (Hfind : find_str refs_needle (to_ascii_lowercase body +:+ to_ascii_lowercase rest) =
                  Some (String.length body)).
  { rewrite <- (lower_length body). apply find_str_app; [done|done|by rewrite Hlow, starts_with_app|].
    rewrite Hlow. generalize (to_ascii_lowercase Y). intros y.
    repeat (constructor; [first [by left|by right; left|right; right; reflexivity]|]). constructor. }
  rewrite Hfind, Nat.add_0_l.
  assert (Hline : drop_str (String.length body + 2) (body +:+ rest) = trailer paths).
  { change rest with (String newline (String newline "") +:+ trailer paths). rewrite <- string_app_assoc.
    apply drop_str_app. by rewrite string_length_app. }
  destruct header_plain as [Hc He].
  assert (Hnl : find_str (String newline "") (trailer paths) = Some (String.length refs_header))
    by by apply find_newline.
  rewrite Hline, Hnl.
  assert (Hslice : slice (String.length body + 2) (String.length body + 2 + String.length refs_header) (body +:+ rest)
                   = refs_header).
  { change rest with (String newline (String newline "") +:+ (refs_header +:+
      String newline (join_lines ((fun p => "- " +:+ p) <$> paths)))).
    rewrite <- string_app_assoc. apply slice_mid; [by rewrite string_length_app|done]. }
  rewrite Hslice, He, Nat.min_l; [done|].
  change rest with (String newline (String newline "") +:+ (refs_header +:+
      String newline (join_lines ((fun p => "- " +:+ p) <$> paths)))).
  rewrite !string_length_app. cbn [String.length]. lia.
Qed.

Lemma omap_pending paths :
  Forall plain_path paths ->
  omap (fun line => path ← trim <$> strip_prefix "- " (trim_start line);
                    if is_pending_ref path then Some path else None) ((fun p => "- " +:+ p) <$> paths) =
  filter (fun p => is_pending_ref p = true) paths.
Proof.
  induction 1 as [|p paths (_ & Ht & _) _ IH]; [done|]. rewrite fmap_cons, filter_cons.
  cbn [omap list_omap]. rewrite <- IH.
  rewrite (trim_start_graphic (Ascii.ascii_of_nat 45) (" " +:+ p) eq_refl : trim_start ("- " +:+ p) = "- " +:+ p).
  rewrite (strip_prefix_app "- " p). cbn [fmap option_fmap option_map mbind option_bind]. rewrite Ht.
  by destruct (is_pending_ref p).
Qed.

(** The visible text of a message as the client parses it back. *)
Definition visible_text (text : string) : string :=
  if String.eqb (trim (trim_end (message_body text))) ATTACHMENT_ONLY_TEXT then ""
  else trim_end (message_body text).

(** C29. A message's attachments survive its text: for any typed text without a
    trailer of its own, and any plain paths (one line, nothing to trim, not
    empty), parsing the composed message gives back exactly those paths in
    order and the typed text with its end trimmed, nothing for an image-only
    send. And the engine reads off the same text the pending references among
    the paths, after those of the typed text, so a steer waits for the bytes it
    names and for no others. *)
Theorem attachments_roundtrip text paths :
  paths <> [] -> Forall plain_path paths ->
  find_str refs_needle (to_ascii_lowercase (message_body text)) = None ->
  let m := with_attachments text paths in
  pm_text (parse_user_message_images m) = visible_text text /\
  ui_path <$> pm_attachments (parse_user_message_images m) = paths /\
  pending_refs_in m = pending_refs_in (message_body text +:+ String newline "") ++
                      filter (fun p => is_pending_ref p = true) paths.
Proof.
  intros Hne Hp Hn m. subst m. rewrite with_attachments_trailer by done.
  set (content := message_body text +:+ String newline (String newline (trailer paths))).
  assert (Hdrop : drop_str (String.length (message_body text) + 2 + String.length refs_header + 1) content =
                  join_lines ((fun p => "- " +:+ p) <$> paths)).
  { subst content. unfold trailer.
    change (String newline (String newline (refs_header +:+ String newline ?x))) with
      (String newline (String newline refs_header) +:+ (String newline "" +:+ x)).
    rewrite <- !string_app_assoc. apply drop_str_app. rewrite !string_length_app. cbn [String.length]. lia. }
  assert (Hrefs : omap ref_line (lines (drop_str (String.length (message_body text) + 2 + String.length refs_header + 1)
                     content)) = paths) by by rewrite Hdrop, ref_lines_lines, omap_ref_lines.
  pose proof (find_marker (message_body text) paths Hne Hn) as Hm. fold content in Hm.
  split_and!.
  - unfold parse_user_message_images. rewrite Hm, Hrefs.
    destruct paths as [|p paths]; [done|]. cbn [imap]. cbn [pm_text].
    subst content. by rewrite slice_prefix.
  - unfold parse_user_message_images. rewrite Hm, Hrefs.
    destruct paths as [|p paths]; [done|].
    change (ui_path <$> imap (fun index path => mk_user_image (pretty index +:+ ":" +:+ path) path (name_from_path path))
              (p :: paths) = p :: paths).
    rewrite fmap_imap. generalize (p :: paths). intros l. transitivity (imap (fun _ => id) l); [by apply imap_ext|].
    exact (eq_trans (imap_const id l) (list_fmap_id l)).
  - unfold pending_refs_in. subst content. unfold lines at 1. rewrite lines_from_split.
    change (lines (String newline (trailer paths))) with (lines ("" +:+ String newline (trailer paths))).
    rewrite (lines_app_line "") by done. unfold trailer.
    rewrite (lines_app_line refs_header) by exact (proj1 header_plain).
    rewrite ref_lines_lines by done. rewrite omap_app. f_equal. cbn [omap list_omap].
    apply omap_pending. done.
Qed.

(** ** Reading back *)

Section ReadBack.
Context `{B64 : Base64}.

(** [ReadAttachmentChunk], call by call: [None] is an error, a timeout or a
    reply without the fields. *)
Context (read : nat -> Z -> option AttachmentChunk).

(** The bounded loop from its [k]-th call on: name, mime type, text so far and
    whether the last chunk came. *)
Fixpoint read_loop (fuel k : nat) (offset : Z) (acc : string * string * string)
    : option (string * string * string * bool) :=
  match fuel with
  | O => Some (acc, false)
  | S fuel =>
      chunk ← read k offset;
      let acc := (ac_name chunk, ac_mime_type chunk, acc.2 +:+ ac_data chunk) in
      if ac_done chunk then Some (acc, true)
      else if ac_next_offset chunk <=? offset then None
      else read_loop fuel (S k) (ac_next_offset chunk) acc
  end.

(** [read_attachment_image]: the name, the mime type and the bytes. *)
Definition read_attachment_image (path : string) : option (string * string * string) :=
  '(name, mime, b64, is_done) ← read_loop MAX_READ_CHUNKS 0 0 ("", "", "");
  if negb is_done || String.eqb b64 "" then None
  else
    bytes ← b64_decode b64;
    Some (if String.eqb name "" then name_from_path path else name, mime, bytes).
End ReadBack.

Section ReadBackProof.
Context `{B64 : Base64} {Laws : Base64Laws B64}.
Context (fs : Fs) (u : UploadsInner) (path : string) (roots : list string).

(** Every call answered by the engine. *)
Definition engine_read (k : nat) (offset : Z) : option AttachmentChunk :=
  match read_chunk fs u path offset roots with inr c => Some c | inl _ => None end.

Lemma encode_prefix bytes o j :
  o mod 3 = 0 -> 0 <= o -> o <= j <= byte_length bytes ->
  b64_encode (slice 0 (Z.to_nat o) bytes) +:+ b64_encode (slice (Z.to_nat o) (Z.to_nat j) bytes) =
  b64_encode (slice 0 (Z.to_nat j) bytes).
Proof.
  intros Ho H0 Hj. unfold byte_length in Hj. rewrite (slice_split 0 (Z.to_nat o) (Z.to_nat j)) by lia.
  rewrite encode_app; [done|]. rewrite slice_length, Nat.sub_0_r by lia.
  apply (inj Z.of_nat). rewrite Nat2Z.inj_mod, Z2Nat.id by lia. done.
Qed.

Lemma engine_read_eq file k o :
  inspect fs u path roots = inr file ->
  engine_read k o =
    let size := byte_length (if_bytes file) in
    let start := Z.min o size in
    let next_offset := Z.min (start + READ_CHUNK_BYTES) size in
    Some (mk_att_chunk (if_name file) (if_mime_type file)
            (b64_encode (slice (Z.to_nat start) (Z.to_nat next_offset) (if_bytes file)))
            next_offset (size <=? next_offset)).
Proof. intros H. unfold engine_read, read_chunk. by rewrite H. Qed.

Lemma read_loop_reads file fuel k o name mime :
  inspect fs u path roots = inr file -> (0 < fuel)%nat ->
  o mod 3 = 0 -> 0 <= o <= byte_length (if_bytes file) ->
  byte_length (if_bytes file) <= o + Z.of_nat fuel * READ_CHUNK_BYTES ->
  read_loop engine_read fuel k o (name, mime, b64_encode (slice 0 (Z.to_nat o) (if_bytes file))) =
    Some (if_name file, if_mime_type file, b64_encode (if_bytes file), true).
Proof.
  intros Hi. revert k o name mime. induction fuel as [|fuel IH]; intros k o name mime Hf Ho H0 Hb; [lia|].
  cbn [read_loop]. rewrite (engine_read_eq file k o Hi). cbv zeta. cbn [mbind option_bind fst snd ac_name
    ac_mime_type ac_data ac_done ac_next_offset].
  set (size := byte_length (if_bytes file)) in *. rewrite (Z.min_l o) by lia.
  rewrite encode_prefix by (unfold READ_CHUNK_BYTES; lia).
  destruct (Z.leb_spec size (Z.min (o + READ_CHUNK_BYTES) size)) as [Hd|Hd].
  - rewrite Z.min_r by lia. do 2 f_equal. subst size. unfold byte_length. rewrite Nat2Z.id. by rewrite slice_all.
  - rewrite Z.min_l in * by lia. rewrite (proj2 (Z.leb_gt _ _)) by (unfold READ_CHUNK_BYTES; lia).
    apply IH; [|rewrite Z.add_mod, Ho by done; done|unfold READ_CHUNK_BYTES in *; lia|lia].
    destruct fuel; [|lia]. cbn in Hb. lia.
Qed.

(** Reading back is exact and bounded: for every file the path jail lets
    through, the client's loop, which stops after a thousand calls, assembles
    from the engine's independent 45 KB chunks the file's bytes, neither more
    nor less, with its name and mime type. The file is a file of at most 32 MB
    with an image's extension, and its canonical path lies strictly inside the
    canonical uploads directory, a read-only root or a chat's directory. *)
Theorem read_back_exact file :
  inspect fs u path roots = inr file -> if_bytes file <> "" -> if_name file <> "" ->
  read_attachment_image engine_read path = Some (if_name file, if_mime_type file, if_bytes file) /\
  metadata fs (if_resolved file) = Some (true, if_bytes file) /\
  byte_length (if_bytes file) <= MAX_BYTES /\
  exists root r, root ∈ up_dir u :: up_read_only u ++ roots /\ canonicalize fs root = Some r /\
    r `prefix_of` if_resolved file /\ if_resolved file <> r.
Proof.
  intros Hi Hne Hname. pose proof Hi as Hi2. unfold inspect in Hi2.
  destruct (if is_pending_ref path then _ else _) as [p|]; [|done].
  destruct (canonicalize fs p) as [resolved|]; [|done].
  destruct (existsb _ _) eqn:Hin; [|done]. cbn [negb] in Hi2.
  destruct (metadata fs resolved) as [[[] bytes]|] eqn:Hm; [|done..]. cbn [negb] in Hi2.
  destruct (Z.ltb_spec MAX_BYTES (byte_length bytes)) as [|Hs]; [done|].
  destruct (last resolved ≫= mime_by_ext) as [mime|]; [|done]. injection Hi2 as <-.
  cbn [if_bytes if_name if_mime_type if_resolved] in *. split_and!; [|done|done|].
  - unfold read_attachment_image.
    pose proof (read_loop_reads _ MAX_READ_CHUNKS 0 0 "" "" Hi) as Hl. cbn [if_bytes if_name if_mime_type] in Hl.
    change (b64_encode (slice 0 (Z.to_nat 0) bytes)) with (b64_encode "") in Hl.
    assert (He : b64_encode "" = "").
    { pose proof (encode_length "") as H. cbn in H. by destruct (b64_encode ""). }
    rewrite He in Hl. rewrite Hl; [|unfold MAX_READ_CHUNKS; lia|done|unfold byte_length; lia|].
    + cbn [mbind option_bind negb orb].
      destruct (String.eqb_spec (b64_encode bytes) "") as [E|_].
      { destruct Hne. pose proof (decode_encode bytes) as H1. pose proof (decode_encode "") as H2.
        rewrite E in H1. rewrite He in H2. congruence. }
      rewrite decode_encode. cbn. by apply String.eqb_neq in Hname as ->.
    + unfold READ_CHUNK_BYTES, MAX_READ_CHUNKS, MAX_BYTES in *. lia.
  - apply existsb_exists in Hin as (r & Hr & Hins). apply list_elem_of_In in Hr.
    apply list_elem_of_omap in Hr as (root & Hroot & Hc). exists root, r.
    unfold inside in Hins. apply andb_true_iff in Hins as [H1%bool_decide_eq_true H2%negb_true_iff].
    apply bool_decide_eq_false in H2. done.
Qed.
End ReadBackProof.

(** ** The upload *)

(** [attachment_deadline], in milliseconds. *)
Definition attachment_deadline (n_chunks : nat) : Z := Z.min (120 + 15 * Z.of_nat n_chunks) 900 * 1000.

Section Upload.
Context `{B64 : Base64} (upload_id name bytes : string).

Definition upload_plan : list string := file_plan UPLOAD_CHUNK_B64_CHARS bytes.

(** An upload in progress: the chunks not started, those in flight with their
    failed attempts, those acknowledged, and the commit's reply. *)
Record Uploading := mk_uploading {
  ug_store : UploadsInner;
  ug_now : Z;
  ug_last : Z;
  ug_todo : list nat;
  ug_flight : gmap nat nat;
  ug_acked : list nat;
  ug_result : option (string + string);
}.

Definition upload_start (u : UploadsInner) (now : Z) : Uploading :=
  mk_uploading u now now (chunk_ranges UPLOAD_CHUNK_B64_CHARS (String.length (b64_encode bytes))).*1 ∅ [] None.

(** [UploadChunk] arriving at the engine. *)
Definition arrive (s : Uploading) (i : nat) : (string + unit) * UploadsInner :=
  append (ug_now s) (ug_store s) upload_id (default "" (upload_plan !! i)) (Some (Z.of_nat i)).

(** What can happen while the upload runs. A lost call may have arrived; any
    error is retried twice; the third ends the upload, a state without steps.
    [up_tick] is time passing between two answers: a call is answered or times
    out within 90 s and a chunk gets three, far below the staging TTL. *)
Inductive upload_step : Uploading -> Uploading -> Prop :=
  | up_begin u t l i todo fl acked :
      (size fl < UPLOAD_CONCURRENCY)%nat ->
      upload_step (mk_uploading u t l (i :: todo) fl acked None)
                  (mk_uploading u t l todo (<[i := 0%nat]> fl) acked None)
  | up_tick u t l todo fl acked t' :
      t <= t' -> t' - l <= STAGING_TTL ->
      upload_step (mk_uploading u t l todo fl acked None) (mk_uploading u t' l todo fl acked None)
  | up_reply u t l todo fl acked i a u' :
      fl !! i = Some a -> arrive (mk_uploading u t l todo fl acked None) i = (inr tt, u') ->
      upload_step (mk_uploading u t l todo fl acked None)
                  (mk_uploading u' t t todo (delete i fl) (i :: acked) None)
  | up_retry u t l todo fl acked i a u' :
      fl !! i = Some a -> (a < 2)%nat ->
      u' = u \/ u' = (arrive (mk_uploading u t l todo fl acked None) i).2 ->
      upload_step (mk_uploading u t l todo fl acked None)
                  (mk_uploading u' t l todo (<[i := S a]> fl) acked None)
  | up_other_chunk u t l todo fl acked other data seq :
      other <> upload_id ->
      upload_step (mk_uploading u t l todo fl acked None)
                  (mk_uploading (append t u other data seq).2 t l todo fl acked None)
  | up_other_commit u t l todo fl acked other n :
      other <> upload_id ->
      upload_step (mk_uploading u t l todo fl acked None)
                  (mk_uploading (commit u other n).2 t l todo fl acked None)
  | up_commit u t l acked :
      upload_step (mk_uploading u t l [] ∅ acked None)
                  (mk_uploading (commit u upload_id name).2 t l [] ∅ acked
                     (Some (commit u upload_id name).1)).
End Upload.

(** The invariant of an upload, and its end. *)
Section UploadProof.
Context `{B64 : Base64} {Laws : Base64Laws B64} (upload_id name bytes : string).
Hypothesis Hid : staging_ok upload_id = true.
Hypothesis Hsize : byte_length bytes <= MAX_BYTES - 2.

Notation plan := (upload_plan bytes).

Record upload_inv (dir : string) (s : Uploading) : Prop := {
  ui_dir : up_dir (ug_store s) = dir;
  ui_clock : ug_last s <= ug_now s /\ ug_now s - ug_last s <= STAGING_TTL;
  ui_running : ug_result s = None ->
    staged upload_id plan (ug_store s) (ug_acked s) (ug_last s) /\
    (forall i, (i < length plan)%nat -> i ∈ ug_todo s \/ is_Some (ug_flight s !! i) \/ i ∈ ug_acked s) /\
    (forall i, i ∈ ug_todo s \/ is_Some (ug_flight s !! i) -> (i < length plan)%nat);
  ui_ended : forall r, ug_result s = Some r ->
    r = inr (join dir (pending_name upload_id name)) /\
    up_files (ug_store s) !! pending_name upload_id name = Some bytes /\
    up_tmp (ug_store s) !! upload_id = None;
}.

Lemma plan_facts :
  plan_fits plan /\ plan <> [] /\ Forall (fun d => trim d = d) plan /\ b64_decode (join_chars plan) = Some bytes.
Proof.
  assert (Hz : (1000 <= UPLOAD_CHUNK_B64_CHARS)%nat).
  { unfold UPLOAD_CHUNK_B64_CHARS. change 1000%nat with (N.to_nat 1000). lia. }
  split; [by apply encoded_fits|]. apply file_plan_spec. lia.
Qed.

Lemma append_dir now u id d seq : up_dir (append now u id d seq).2 = up_dir u.
Proof. unfold append. by repeat case_match. Qed.

Lemma commit_dir u id n : up_dir (commit u id n).2 = up_dir u.
Proof. unfold commit. by repeat case_match. Qed.

Lemma commit_other_tmp u id n : id <> upload_id -> up_tmp (commit u id n).2 !! upload_id = up_tmp u !! upload_id.
Proof. intros H. unfold commit. repeat case_match; cbn; by rewrite ?lookup_delete_ne. Qed.

Lemma staged_mono u idx idx' t t' :
  staged upload_id plan u idx t -> (forall i, i ∈ idx' -> i ∈ idx) -> t' <= t -> staged upload_id plan u idx' t'.
Proof.
  intros [Ha Hp Hf] Hs Ht. split; [done|by eauto|]. intros Hne.
  destruct Hf as (s & Hs' & ?).
  { intros ->. destruct idx' as [|i idx']; [done|]. by apply (elem_of_nil i), Hs; left. }
  exists s. split; [done|lia].
Qed.

Lemma staged_tmp u u' idx t :
  up_tmp u' !! upload_id = up_tmp u !! upload_id -> staged upload_id plan u idx t -> staged upload_id plan u' idx t.
Proof. intros E [Ha Hp Hf]. split; rewrite E; done. Qed.

Lemma start_inv u now :
  (forall s, up_tmp u !! upload_id = Some s -> agrees plan s) ->
  upload_inv (up_dir u) (upload_start bytes u now).
Proof.
  intros Ha. unfold upload_start. split; cbn [ug_store ug_now ug_last ug_todo ug_flight ug_acked ug_result];
    [done|unfold STAGING_TTL; lia| |done]. intros _.
  destruct (chunk_plan_spec UPLOAD_CHUNK_B64_CHARS (b64_encode bytes)) as (_ & _ & _ & _ & E).
  { unfold UPLOAD_CHUNK_B64_CHARS. lia. }
  rewrite E. change (chunk_plan UPLOAD_CHUNK_B64_CHARS (b64_encode bytes)) with plan. split_and!.
  - split; [done| |done]. intros i d H. by apply elem_of_nil in H.
  - intros i Hi. left. apply elem_of_seq. lia.
  - intros i [Hi%elem_of_seq|[? Hi]]; [lia|]. by rewrite lookup_empty in Hi.
Qed.

(** A chunk of the plan arriving. *)
Lemma arrive_spec u t l todo fl acked i :
  staged upload_id plan u acked l -> t - l <= STAGING_TTL -> (i < length plan)%nat ->
  exists u', arrive upload_id bytes (mk_uploading u t l todo fl acked None) i = (inr tt, u') /\
    staged upload_id plan u' (i :: acked) t /\ up_dir u' = up_dir u.
Proof.
  intros Hs Ht Hi. destruct (lookup_lt_is_Some_2 plan i Hi) as [d Hd].
  destruct (staged_append upload_id plan u acked l t i d Hid (proj1 plan_facts) Hs Ht Hd) as (u' & E & H & _ & Hdir).
  exists u'. split; [|done]. unfold arrive. cbn [ug_store ug_now]. by rewrite Hd.
Qed.

Ltac fields := cbn [ug_store ug_now ug_last ug_todo ug_flight ug_acked ug_result] in *.

Lemma step_inv dir s s' : upload_step upload_id name bytes s s' -> upload_inv dir s -> upload_inv dir s'.
Proof.
  intros Hst [Hd [Hc1 Hc2] Hr He].
  destruct Hst as [u t l i todo fl acked _|u t l todo fl acked t' Hle Hl|u t l todo fl acked i a u' Hi Harr
    |u t l todo fl acked i a u' Hi Ha Harr|u t l todo fl acked other data seq Ho|u t l todo fl acked other n Ho
    |u t l acked]; fields; destruct (Hr eq_refl) as (Hs & Hcov & Hlt); clear Hr He.
  - split; fields; [done|done| |done]. intros _. split_and!; [done| |].
    + intros j Hj. destruct (decide (j = i)) as [->|Hne]; [right; left; by rewrite lookup_insert_eq|].
      rewrite lookup_insert_ne by done. destruct (Hcov j Hj) as [H|H]; [|by right].
      apply elem_of_cons in H as [->|H]; [done|by left].
    + intros j [Hj|Hj]; [apply Hlt; left; by right|].
      destruct (decide (j = i)) as [->|Hne]; [apply Hlt; left; by left|].
      rewrite lookup_insert_ne in Hj by done. apply Hlt. by right.
  - split; fields; [done|lia|done|done].
  - assert (Hil : (i < length plan)%nat) by (apply Hlt; right; by rewrite Hi).
    destruct (arrive_spec u t l todo fl acked i Hs Hc2 Hil) as (u2 & E & Hs2 & Hd2).
    rewrite E in Harr. injection Harr as <-.
    split; fields; [congruence|unfold STAGING_TTL; lia| |done]. intros _. split_and!; [done| |].
    + intros j Hj. destruct (decide (j = i)) as [->|Hne]; [right; right; by left|].
      rewrite lookup_delete_ne by done. destruct (Hcov j Hj) as [H|[H|H]]; [by left|by right; left|].
      right; right. by right.
    + intros j [Hj|Hj]; apply Hlt; [by left|]. right.
      destruct (decide (j = i)) as [->|Hne]; [by rewrite lookup_delete_eq in Hj; destruct Hj|].
      by rewrite lookup_delete_ne in Hj.
  - assert (Hil : (i < length plan)%nat) by (apply Hlt; right; by rewrite Hi).
    assert (Hu : staged upload_id plan u' acked l /\ up_dir u' = up_dir u).
    { destruct Harr as [Hu|Hu]; rewrite Hu; [done|].
      destruct (arrive_spec u t l todo fl acked i Hs Hc2 Hil) as (u2 & E & Hs2 & Hd2). rewrite E. cbn [snd].
      split; [|done]. eapply staged_mono; [exact Hs2| |lia]. intros j Hj. by right. }
    destruct Hu as [Hs2 Hd2]. split; fields; [congruence|done| |done]. intros _. split_and!; [done| |].
    + intros j Hj. destruct (decide (j = i)) as [->|Hne]; [right; left; by rewrite lookup_insert_eq|].
      rewrite lookup_insert_ne by done. by apply Hcov.
    + intros j [Hj|Hj]; [apply Hlt; by left|].
      destruct (decide (j = i)) as [->|Hne]; [done|]. rewrite lookup_insert_ne in Hj by done. apply Hlt. by right.
  - split; fields; [by rewrite append_dir|done| |done]. intros _. split_and!; [|done|done].
    by apply staged_other.
  - split; fields; [by rewrite commit_dir|done| |done]. intros _. split_and!; [|done|done].
    eapply staged_tmp; [|exact Hs]. by apply commit_other_tmp.
  - destruct plan_facts as (Hfit & Hne & Ht & Hdec).
    assert (Hall : forall i, (i < length plan)%nat -> i ∈ acked).
    { intros i Hi. destruct (Hcov i Hi) as [H|[H|H]]; [by apply elem_of_nil in H| |done].
      rewrite lookup_empty in H. by destruct H. }
    assert (Hmax : byte_length bytes <= MAX_BYTES) by lia.
    pose proof (staged_commit upload_id plan u acked l name bytes Hid Hs Hne Hall Ht Hdec Hmax) as E.
    rewrite E. split; fields; [done|done|done|]. intros r [= <-].
    split_and!; [by unfold pending_target; rewrite Hd|apply lookup_insert_eq|apply lookup_delete_eq].
Qed.

(** C26. An upload that commits is exact. The client keeps up to three chunk
    calls in flight, answers come in any order, each chunk is retried blindly
    when its call is lost, whether or not it had arrived, and other uploads run
    at the same engine: whenever the commit is reached, from any directory an
    earlier attempt at the same file left behind, it succeeds, replies the path
    a reference to the upload resolves to, and the file there holds exactly the
    bytes; its staging directory is gone. *)
Theorem upload_exact u now s r :
  (forall s, up_tmp u !! upload_id = Some s -> agrees plan s) ->
  rtc (upload_step upload_id name bytes) (upload_start bytes u now) s -> ug_result s = Some r ->
  r = inr (pending_target u upload_id name) /\
  up_files (ug_store s) !! pending_name upload_id name = Some bytes /\
  up_tmp (ug_store s) !! upload_id = None.
Proof.
  intros Ha Hrtc Hr.
  assert (Hinv : upload_inv (up_dir u) s).
  { pose proof (start_inv u now Ha) as H0. revert H0 Hrtc. generalize (upload_start bytes u now). clear -Hid Hsize Laws.
    intros s0 H0 Hrtc. induction Hrtc; [done|]. eauto using step_inv. }
  by apply Hinv.
Qed.
End UploadProof.
