(* ===== verification/Delivery.v ===== *)
(** The delivery tasks of crates/engine/src/doc_host.rs: queueing a command with
    its attachment transfers, the escort that pushes the bytes and then relays
    the command when the rows do not flow, the user's retry, and the attachment
    references a host resolves before it runs a command.

    A task is a function of what happens to it: the fate and time of each peer
    call, the clock after each attempt, whether the rows were flushed at each
    look. The peers' stores are those of [Uploads]; the command list, ledger and
    message ids of a chat are the [Host] of [Commands]. Logging is not
    modelled. *)
From S2P Require Import Prelude Json Text Journal Agent Base64 Commands Uploads.

Definition TRANSFER_CHUNK_B64 : nat := N.to_nat 60000.
Definition RELAY_BACKOFF_CAP : Z := 30 * 1000.
Definition ROWS_GRACE : Z := 10 * 1000.
Definition RELAY_GIVE_UP : Z := 15 * 60 * 1000.
Definition RELAY_MIN_VERSION : N * N * N := (0, 2, 12)%N.

(** ** References of a command *)

Definition command_refs (e : SessionCommandEntry) : list string :=
  match ce_payload e with
  | Run request _ => filter (fun p => is_pending_ref p = true) (rq_attachments request)
  | Steer prompt _ => pending_refs_in prompt
  | _ => []
  end.

Definition command_transfers (e : SessionCommandEntry) : list AttachmentTransfer :=
  (fun p => mk_transfer p.1 p.2) <$> omap parse_pending_ref (command_refs e).

(** A store as the drain sees it: which uploads have landed. *)
Definition landed (u : UploadsInner) : Commands.Uploads :=
  fun upload_id name => bool_decide (is_Some (up_files u !! pending_name upload_id name)).

(** [str::replace]: the matches from the left, not overlapping. *)
Fixpoint replace_from (fuel : nat) (pat by_ s : string) : string :=
  match fuel with
  | O => s
  | S fuel =>
      match split_once_str pat s with
      | Some (x, y) => x +:+ by_ +:+ replace_from fuel pat by_ y
      | None => s
      end
  end.

Definition replace_str (pat by_ s : string) : string := replace_from (S (String.length s)) pat by_ s.

(** [resolve_request_attachments]: landed references become local paths, in the
    list and in the prompt. *)
Fixpoint resolve_paths (u : UploadsInner) (prompt : string) (paths : list string) : string * list string :=
  match paths with
  | [] => (prompt, [])
  | path :: paths =>
      match resolve_upload u path with
      | Some abs =>
          let '(prompt, rest) := resolve_paths u (replace_str path abs prompt) paths in (prompt, abs :: rest)
      | None => let '(prompt, rest) := resolve_paths u prompt paths in (prompt, path :: rest)
      end
  end.

Definition resolve_prompt_attachments (uploads : option UploadsInner) (prompt : string) : string :=
  match uploads with
  | None => prompt
  | Some u =>
      foldl (fun out r => match resolve_upload u r with Some abs => replace_str r abs out | None => out end)
        prompt (pending_refs_in prompt)
  end.

(** [awaiting_attachments] *)
Definition awaiting_attachments (uploads : option UploadsInner) (rd : bool) (h : Host) : bool :=
  existsb (fun c => is_pending c && negb (is_processed rd h (ce_id c)) &&
             negb (bool_decide (missing_attachments (landed <$> uploads) c = []))) (commands h).

(** ** The peers *)

Inductive Event :=
  | ENudge (device : string)
  | EInvalidate (device : string)
  | ERelay (device command_id : string).

Record World := mk_world { wo_peers : gmap string UploadsInner; wo_events : list Event }.

Definition peer (w : World) (device : string) : UploadsInner :=
  default (from_root_with_fallback "" None) (wo_peers w !! device).
Definition set_peer (w : World) (device : string) (u : UploadsInner) : World :=
  mk_world (<[device := u]> (wo_peers w)) (wo_events w).
Definition emit (w : World) (l : list Event) : World := mk_world (wo_peers w) (wo_events w ++ l).

(** [remote_host_for]: [row] is the device of the chat's workspace row. *)
Definition remote_host_for (me : string) (row : option string) : option string :=
  match row with
  | Some device => if String.eqb device me then None else Some device
  | None => None
  end.

Definition nudge_remote_host (edge : bool) (me : string) (row : option string) : list Event :=
  if edge then ENudge <$> option_list (remote_host_for me row) else [].

(** ** Pushing attachments *)

(** What became of a peer call. *)
Inductive Fate := Answered | TimedOut (arrived : bool) | Broken (arrived : bool).

Record Call := mk_call { ca_fate : Fate; ca_at : Z }.

(** [suspect]: the link is invalidated. *)
Inductive PushResult := PushOk | Transient (suspect : bool) | Permanent (why : string).

(** One call racing its deadline. *)
Definition peer_call {A} (c : Call) (handle : UploadsInner -> (string + A) * UploadsInner) (h : UploadsInner)
    : PushResult * UploadsInner :=
  match ca_fate c with
  | Answered => match handle h with (inr _, h) => (PushOk, h) | (inl err, h) => (Permanent err, h) end
  | TimedOut arrived | Broken arrived => (Transient true, if arrived then (handle h).2 else h)
  end.

Section Push.
Context `{B64 : Base64} (calls : nat -> Call).

(** The chunks in order, then nothing more of the file after a failure. [k]
    counts the calls. *)
Fixpoint push_chunks (upload_id : string) (pieces : list (nat * string)) (k : nat) (h : UploadsInner)
    : PushResult * UploadsInner * nat :=
  match pieces with
  | [] => (PushOk, h, k)
  | (seq, data) :: pieces =>
      match peer_call (calls k) (fun h => append (ca_at (calls k)) h upload_id data (Some (Z.of_nat seq))) h with
      | (PushOk, h) => push_chunks upload_id pieces (S k) h
      | (r, h) => (r, h, S k)
      end
  end.

Definition transfer_pieces (b64 : string) : list (nat * string) :=
  (fun r => (r.1, slice r.2.1 r.2.2 b64)) <$> chunk_ranges TRANSFER_CHUNK_B64 (String.length b64).

(** [push_attachments] once the link is up. [local] is the sender's store. *)
Fixpoint push_transfers (local : UploadsInner) (transfers : list AttachmentTransfer) (k : nat) (h : UploadsInner)
    : PushResult * UploadsInner * nat :=
  match transfers with
  | [] => (PushOk, h, k)
  | t :: transfers =>
      match up_files local !! pending_name (at_upload_id t) (at_file_name t) with
      | None => (Permanent "staged attachment missing", h, k)
      | Some bytes =>
          match push_chunks (at_upload_id t) (transfer_pieces (b64_encode bytes)) k h with
          | (PushOk, h, k) =>
              match peer_call (calls k) (fun h => commit h (at_upload_id t) (at_file_name t)) h with
              | (PushOk, h) => push_transfers local transfers (S k) h
              | (r, h) => (r, h, S k)
              end
          | r => r
          end
      end
  end.

Definition push_attachments (links : bool) (local : option UploadsInner) (client : bool)
    (transfers : list AttachmentTransfer) (h : UploadsInner) : PushResult * UploadsInner :=
  if negb links then (Permanent "peer links not wired", h)
  else match local with
       | None => (Permanent "uploads not wired", h)
       | Some local =>
           if negb client then (Transient false, h) else (push_transfers local transfers 0 h).1
       end.
End Push.

(** ** Delivering attachments *)

(** One turn of the loop: the chat's row, whether the link came up, the calls,
    and the clock after the attempt. *)
Record Attempt := mk_attempt {
  an_row : option string;
  an_client : bool;
  an_calls : nat -> Call;
  an_after : Z;
}.

Section Deliver.
Context `{B64 : Base64} (edge links : bool) (me : string) (local : option UploadsInner).

(** [None]: the attempts given are used up and the task is still waiting. *)
Fixpoint deliver_attachments (deadline : Z) (transfers : list AttachmentTransfer) (attempts : list Attempt)
    (w : World) : option bool * World :=
  match attempts with
  | [] => (None, w)
  | a :: attempts =>
      match remote_host_for me (an_row a) with
      | None => (Some true, w)
      | Some target =>
          let '(r, h) := push_attachments (an_calls a) links local (an_client a) transfers (peer w target) in
          let w := set_peer w target h in
          match r with
          | PushOk => (Some true, emit w (nudge_remote_host edge me (an_row a)))
          | Permanent _ => (Some false, w)
          | Transient suspect =>
              let w := emit w (if suspect then [EInvalidate target] else []) in
              if deadline <=? an_after a then (Some false, w)
              else deliver_attachments deadline transfers attempts w
          end
      end
  end.
End Deliver.

(** ** Relaying *)

(** [version_triple] *)
Definition parse_u64 (s : string) : option N :=
  let digits := default s (strip_prefix "+" s) in
  if String.eqb digits "" then None
  else n ← parse_digits 0 digits; if (n <? 2 ^ 64)%N then Some n else None.

Fixpoint before_marks (s : string) : string :=
  match s with
  | EmptyString => ""
  | String a s => if byte_in 45 45 a || byte_in 43 43 a then "" else String a (before_marks s)
  end.

Definition version_triple (version : string) : option (N * N * N) :=
  '(major, rest) ← split_once (Ascii.ascii_of_nat 46) (trim version);
  '(minor, patch) ← split_once (Ascii.ascii_of_nat 46) rest;
  major ← parse_u64 major;
  minor ← parse_u64 minor;
  patch ← parse_u64 (before_marks patch);
  Some (major, minor, patch).

(** The order of Rust's tuples. *)
Definition triple_le (a b : N * N * N) : bool :=
  ((a.1.1 <? b.1.1) || ((a.1.1 =? b.1.1) && ((a.1.2 <? b.1.2) || ((a.1.2 =? b.1.2) && (a.2 <=? b.2)))))%N.

Inductive RelayReply := RTimedOut | RRefused (err : string) | RBroken | ROutcome (outcome : option string).

(** One attempt: the version on the host's device row, the link, the reply. *)
Record RelayTry := mk_relay_try { rt_version : option string; rt_client : bool; rt_reply : RelayReply }.

Definition known_outcome (o : option string) : string :=
  match o with
  | Some s => if existsb (String.eqb s) ["executed"; "duplicate"; "expired"; "superseded"] then s else "accepted"
  | None => "accepted"
  end.

Definition relay_command (links : bool) (target command_id : string) (t : RelayTry)
    : option string * list Event :=
  match rt_version t ≫= version_triple with
  | Some v =>
      if negb (triple_le RELAY_MIN_VERSION v && links && rt_client t) then (None, [])
      else
        match rt_reply t with
        | RTimedOut | RBroken => (None, [ERelay target command_id; EInvalidate target])
        | RRefused _ => (None, [ERelay target command_id])
        | ROutcome o => (Some (known_outcome o), [ERelay target command_id])
        end
  | None => (None, [])
  end.

(** ** The escort *)

Inductive Ending := EndLocal | EndNoBytes | EndRows | EndRelayed (outcome : string) | EndGaveUp.

(** A look during the grace: the clock at the loop's test and whether the rows
    were flushed. A round of the relay loop: flushed, the try, the clock after. *)
Record Round := mk_round { ro_flushed : bool; ro_try : RelayTry; ro_after : Z }.

Definition rows_flushed (stats : option (bool * Z)) : bool :=
  match stats with Some (connected, pending_pushes) => connected && (pending_pushes =? 0) | None => false end.

Fixpoint grace_wait (grace_end : Z) (looks : list (Z * bool)) : option bool :=
  match looks with
  | [] => None
  | (now, flushed) :: looks =>
      if now <? grace_end then if flushed then Some true else grace_wait grace_end looks else Some false
  end.

Fixpoint relay_loop (links : bool) (target command_id : string) (gives_up : Z) (rounds : list Round) (w : World)
    : option Ending * World :=
  match rounds with
  | [] => (None, w)
  | r :: rounds =>
      if ro_flushed r then (Some EndRows, w)
      else
        let '(o, ev) := relay_command links target command_id (ro_try r) in
        let w := emit w ev in
        match o with
        | Some o => (Some (EndRelayed o), w)
        | None => if gives_up <=? ro_after r then (Some EndGaveUp, w)
                  else relay_loop links target command_id gives_up rounds w
        end
  end.

(** What the escort meets: the row at its start, the delivery's attempts, the
    clock after the delivery, the looks and the rounds. *)
Record Escort := mk_escort {
  es_row : option string;
  es_started : Z;
  es_attempts : list Attempt;
  es_delivered : Z;
  es_looks : list (Z * bool);
  es_rounds : list Round;
}.

Section SpawnDelivery.
Context `{B64 : Base64} (edge links : bool) (me : string) (local : option UploadsInner).

Definition spawn_command_delivery (entry : SessionCommandEntry) (transfers : list AttachmentTransfer)
    (x : Escort) (w : World) : option Ending * World :=
  match remote_host_for me (es_row x) with
  | None => (Some EndLocal, w)
  | Some target =>
      let '(delivered, w) :=
        match transfers with
        | [] => (Some true, w)
        | _ => deliver_attachments edge links me local (es_started x + ATTACHMENT_WAIT_MAX_MS) transfers
                 (es_attempts x) w
        end in
      match delivered with
      | None => (None, w)
      | Some false => (Some EndNoBytes, w)
      | Some true =>
          match grace_wait (es_delivered x + ROWS_GRACE) (es_looks x) with
          | None => (None, w)
          | Some true => (Some EndRows, w)
          | Some false =>
              relay_loop links target (ce_id entry) (es_delivered x + RELAY_GIVE_UP) (es_rounds x) w
          end
      end
  end.
End SpawnDelivery.

(** ** Queueing and retrying *)

Definition is_message (p : SessionCommandPayload) : bool :=
  match p with Run _ _ | Steer _ _ => true | _ => false end.

(** The entry [queue_command_with_transfers] and [retry_delivery] mint. *)
Definition fresh_entry (id me : string) (now : Z) (h_messages : list string) (p : SessionCommandPayload)
    : SessionCommandEntry :=
  mk_command id p me now
    ((fun m => mk_based_on (Some m) None) <$> last h_messages)
    (Some (wrap_i64 (now + COMMAND_DEFAULT_TTL_MS))) Pending None.

(** The queued entry, the chat's archived flag after it ([None]: no row), the
    nudge, and the escort to spawn. *)
Definition queue_command_with_transfers (edge : bool) (me id : string) (now : Z) (row : option string)
    (archived : option bool) (p : SessionCommandPayload) (transfers : list AttachmentTransfer) (h : Host)
    : Host * option bool * list Event * (SessionCommandEntry * list AttachmentTransfer) :=
  let e := fresh_entry id me now (messages h) p in
  (set_commands h (queue_command (commands h) e),
   if is_message p then (fun _ => false) <$> archived else archived,
   nudge_remote_host edge me row, (e, transfers)).

Definition message_of (p : SessionCommandPayload) : option string :=
  match p with Run _ m => Some m | Steer _ m => m | _ => None end.

(** Queued or being escorted. *)
Definition live (rd : bool) (h : Host) (c : SessionCommandEntry) : bool :=
  is_pending c && negb (is_processed rd h (ce_id c)).

Definition dead (rd : bool) (h : Host) (c : SessionCommandEntry) : bool :=
  match ce_status c with
  | Rejected | Expired => true
  | Pending => is_processed rd h (ce_id c) && negb (bool_decide (ce_id c ∈ executing h))
  | _ => false
  end.

(** An attempt at the same message by the same kind of command. *)
Definition same_attempt (p q : SessionCommandPayload) : bool :=
  match p, q with
  | Run _ a, Run _ b => String.eqb a b
  | Steer _ a, Steer _ b => bool_decide (a = b)
  | _, _ => false
  end.

Definition live_attempt (rd : bool) (h : Host) (c : SessionCommandEntry) : bool :=
  existsb (fun o => negb (String.eqb (ce_id o) (ce_id c)) && live rd h o &&
                    same_attempt (ce_payload o) (ce_payload c)) (commands h).

(** The message of a command a retry re-issues: not landed, dead, no live
    attempt at it. *)
Definition dead_message (rd : bool) (h : Host) (msgs : list string) (c : SessionCommandEntry) : option string :=
  m ← message_of (ce_payload c);
  if bool_decide (m ∈ msgs) || negb (dead rd h c) || live_attempt rd h c then None else Some m.

Definition note_dead (rd : bool) (h : Host) (msgs : list string) (l : gmap string SessionCommandEntry)
    (c : SessionCommandEntry) : gmap string SessionCommandEntry :=
  match dead_message rd h msgs c with
  | None => l
  | Some m =>
      match l !! m with
      | Some old => if ce_issued_at old <? ce_issued_at c then <[m := c]> l else l
      | None => <[m := c]> l
      end
  end.

Definition latest_dead (rd : bool) (h : Host) (msgs : list string) : gmap string SessionCommandEntry :=
  foldl (note_dead rd h msgs) ∅ (commands h).

Definition SUPERSEDED_BY_RETRY : string := "interrupted before completion — superseded by retry".

(** Re-issuing one dead attempt, under a new id. *)
Definition reissue (me : string) (now : Z) (msgs : list string) (h : Host) (id : string) (old : SessionCommandEntry)
    : Host :=
  let h := if is_pending old then resolve_command h (ce_id old) Rejected (Some SUPERSEDED_BY_RETRY) else h in
  set_commands h (queue_command (commands h) (fresh_entry id me now msgs (ce_payload old))).

(** [retry_delivery]. [order] lists the values of the hash map as it iterates;
    [fresh] gives an id and a clock reading for each. The second result lists
    the escorts spawned, the third is the nudge. *)
Definition retry_delivery (edge : bool) (me : string) (row : option string) (rd rm : bool)
    (order : gmap string SessionCommandEntry -> list SessionCommandEntry) (fresh : nat -> string * Z) (h : Host)
    : Host * list (SessionCommandEntry * list AttachmentTransfer) * list Event :=
  let msgs := if rm then messages h else [] in
  let pending := filter (fun c => live rd h c = true) (commands h) in
  let olds := order (latest_dead rd h msgs) in
  let news := imap (fun i old => fresh_entry (fresh i).1 me (fresh i).2 msgs (ce_payload old)) olds in
  (foldl (fun h p => reissue me (fresh p.1).2 msgs h (fresh p.1).1 p.2) h (imap pair olds),
   (fun e => (e, command_transfers e)) <$> pending ++ news,
   nudge_remote_host edge me row).

Example version_ex :
  version_triple "0.2.12" = Some (0, 2, 12)%N /\ version_triple " 1.10.3-beta+7 " = Some (1, 10, 3)%N /\
  version_triple "1.2" = None /\ triple_le RELAY_MIN_VERSION (0, 10, 1)%N = true /\
  triple_le RELAY_MIN_VERSION (0, 2, 9)%N = false.
Proof. done. Qed.

(** ** Pushing: lemmas *)

(** Neither stage nor commit loses a committed file, and nothing but the commit
    adds one. *)
Lemma append_files now u id d seq : up_files (append now u id d seq).2 = up_files u.
Proof. unfold append. by repeat case_match. Qed.

Lemma append_shrinks now u id d seq id' s :
  id' <> id -> up_tmp (append now u id d seq).2 !! id' = Some s -> up_tmp u !! id' = Some s.
Proof.
  intros Hne. unfold append.
  assert (Hsw : up_tmp (sweep_staging now u) !! id' = Some s -> up_tmp u !! id' = Some s).
  { cbn. by intros [H _]%map_lookup_filter_Some. }
  repeat case_match; cbn -[sweep_staging]; simplify_map_eq; auto.
Qed.

Section Pushing.
Context `{B64 : Base64}.

Lemma commit_keeps u id name n : is_Some (up_files u !! n) -> is_Some (up_files (commit u id name).2 !! n).
Proof.
  intros H. unfold commit. repeat case_match; try done; apply lookup_insert_is_Some'; by right.
Qed.

Lemma commit_lands u id name r : (commit u id name).1 = inr r -> is_Some (up_files (commit u id name).2 !! pending_name id name).
Proof.
  unfold commit. destruct (staging_ok id) eqn:Hok; [|done]. cbn [negb].
  repeat case_match; try done; intros _; rewrite names_agree by done; eexists; apply lookup_insert_eq.
Qed.

Lemma peer_call_spec {A} c (f : UploadsInner -> (string + A) * UploadsInner) h :
  (peer_call c f h).2 = h /\ ca_fate c <> Answered \/ (peer_call c f h).2 = (f h).2.
Proof. unfold peer_call. destruct (ca_fate c) as [|[]|[]]; [right; by destruct (f h) as [[]]|auto..]. Qed.

Lemma peer_call_ok {A} c (f : UploadsInner -> (string + A) * UploadsInner) h h' :
  peer_call c f h = (PushOk, h') -> exists r, f h = (inr r, h').
Proof.
  unfold peer_call. destruct (ca_fate c); [|done..]. destruct (f h) as [[]]; [done|]. intros [= <-]. by eexists.
Qed.

Context (calls : nat -> Call).

Lemma push_chunks_files id pieces k h : up_files (push_chunks calls id pieces k h).1.2 = up_files h.
Proof.
  revert k h. induction pieces as [|[seq d] pieces IH]; intros k h; [done|]. cbn [push_chunks].
  set (f := fun h => _).
  assert (H : up_files (peer_call (calls k) f h).2 = up_files h).
  { destruct (peer_call_spec (calls k) f h) as [[-> _]| ->]; [done|]. apply append_files. }
  destruct (peer_call (calls k) f h) as [[] h'] eqn:E; cbn in H |- *; [|done..]. by rewrite IH.
Qed.

(** A push that reports success left every file on the host. *)
Lemma push_transfers_lands local transfers k h h' k' :
  push_transfers calls local transfers k h = (PushOk, h', k') ->
  Forall (fun t => is_Some (up_files h' !! pending_name (at_upload_id t) (at_file_name t))) transfers /\
  (forall n, is_Some (up_files h !! n) -> is_Some (up_files h' !! n)).
Proof.
  revert k h. induction transfers as [|t transfers IH]; intros k h; cbn [push_transfers];
    [intros [= <- _]; by split|].
  destruct (up_files local !! _) as [bytes|]; [|done].
  pose proof (push_chunks_files (at_upload_id t) (transfer_pieces (b64_encode bytes)) k h) as Hf.
  destruct (push_chunks _ _ _ _ _) as [[[] h1] k1]; [|done..]. cbn [fst snd] in Hf.
  destruct (peer_call _ _ _) as [[] h2] eqn:E; [|done..]. apply peer_call_ok in E as [r Hc]. intros Hp.
  assert (Hl : is_Some (up_files h2 !! pending_name (at_upload_id t) (at_file_name t))).
  { pose proof (commit_lands h1 (at_upload_id t) (at_file_name t) r) as H. rewrite Hc in H. by apply H. }
  assert (Hk : forall n, is_Some (up_files h !! n) -> is_Some (up_files h2 !! n)).
  { intros n Hn. pose proof (commit_keeps h1 (at_upload_id t) (at_file_name t) n) as H. rewrite Hc in H.
    apply H. by rewrite Hf. }
  destruct (IH _ _ Hp) as [IH1 IH2]. split; [constructor; auto|auto].
Qed.
End Pushing.

(** *** An attempt from any earlier one *)

Section Attempts.
Context `{B64 : Base64} {Laws : Base64Laws B64}.

(** The host's clock between two calls stays below the staging TTL: each call
    has a deadline of at most a minute. *)
Definition paced (calls : nat -> Call) : Prop :=
  forall k, ca_at (calls (S k)) - ca_at (calls k) <= STAGING_TTL.

Definition answered (calls : nat -> Call) : Prop := forall k, ca_fate (calls k) = Answered.

Definition transfer_plan (bytes : string) : list string := file_plan TRANSFER_CHUNK_B64 bytes.

(** What holds of the host before each attempt: whatever it has staged under
    the upload's id is part of the file. *)
Definition host_ready (id bytes : string) (h : UploadsInner) : Prop :=
  forall s, up_tmp h !! id = Some s -> agrees (transfer_plan bytes) s.

Lemma chunk_size_ok : (1000 <= TRANSFER_CHUNK_B64)%nat.
Proof. unfold TRANSFER_CHUNK_B64. change 1000%nat with (N.to_nat 1000). lia. Qed.

#[local] Opaque TRANSFER_CHUNK_B64.

Lemma transfer_pieces_spec bytes :
  Forall (fun p => transfer_plan bytes !! p.1 = Some p.2) (transfer_pieces (b64_encode bytes)) /\
  (transfer_pieces (b64_encode bytes)).*1 = List.seq 0 (length (transfer_plan bytes)).
Proof.
  destruct (chunk_plan_spec TRANSFER_CHUNK_B64 (b64_encode bytes)) as (_ & _ & _ & _ & E).
  { pose proof chunk_size_ok. lia. }
  unfold transfer_pieces, transfer_plan, file_plan in *. rewrite <- list_fmap_compose. split; [|exact E].
  apply Forall_lookup. intros i p Hp. apply list_lookup_fmap_Some in Hp as (r & -> & Hr). cbn [fst snd].
  assert (Hi : (chunk_ranges TRANSFER_CHUNK_B64 (String.length (b64_encode bytes))).*1 !! i = Some r.1)
    by (rewrite list_lookup_fmap, Hr; done).
  rewrite E in Hi. apply lookup_seq in Hi as [-> _]. cbn [Nat.add].
  unfold chunk_plan. by rewrite list_lookup_fmap, Hr.
Qed.

Lemma staged_ready id bytes h idx t : staged id (transfer_plan bytes) h idx t -> host_ready id bytes h.
Proof. by intros [Ha _ _]. Qed.

Lemma push_chunks_any calls id bytes pieces k h idx t :
  staging_ok id = true -> byte_length bytes <= MAX_BYTES - 2 -> paced calls ->
  Forall (fun p => transfer_plan bytes !! p.1 = Some p.2) pieces ->
  staged id (transfer_plan bytes) h idx t -> ca_at (calls k) - t <= STAGING_TTL ->
  exists r h', push_chunks calls id pieces k h = (r, h', (push_chunks calls id pieces k h).2) /\
    up_files h' = up_files h /\ up_dir h' = up_dir h /\
    (forall id' s, id' <> id -> up_tmp h' !! id' = Some s -> up_tmp h !! id' = Some s) /\
    (r = Transient true /\ host_ready id bytes h' /\ ~ answered calls \/
     r = PushOk /\ exists t', staged id (transfer_plan bytes) h' (rev pieces.*1 ++ idx) t' /\
       ca_at (calls (push_chunks calls id pieces k h).2) - t' <= STAGING_TTL).
Proof.
  intros Hid Hm Hpace Hp. revert k h idx t. induction Hp as [|[seq d] pieces Hd Hp IH]; intros k h idx t Hs Ht.
  { exists PushOk, h. cbn. split_and!; [done..|]. right. split; [done|]. by exists t. }
  cbn [push_chunks fst snd] in *.
  pose proof (encoded_fits TRANSFER_CHUNK_B64 bytes chunk_size_ok Hm) as Hfit.
  destruct (staged_append id (transfer_plan bytes) h idx t (ca_at (calls k)) seq d Hid Hfit Hs Ht Hd)
    as (h1 & E & Hs1 & Hf1 & Hd1).
  assert (Hsh : forall id' s, id' <> id -> up_tmp h1 !! id' = Some s -> up_tmp h !! id' = Some s).
  { intros id' s Hne H. apply (append_shrinks (ca_at (calls k)) h id d (Some (Z.of_nat seq))); [done|]. by rewrite E. }
  unfold peer_call. destruct (ca_fate (calls k)) as [|arrived|arrived] eqn:Ef.
  - rewrite E. destruct (IH (S k) h1 (seq :: idx) (ca_at (calls k)) Hs1 (Hpace k)) as (r & h' & E' & H1 & H2 & H3 & H4).
    exists r, h'. split_and!; [done|congruence|congruence|by eauto|].
    destruct H4 as [?|(? & t' & Hs' & ?)]; [by left|]. right. split; [done|]. exists t'. split; [|done].
    cbn. by rewrite <- app_assoc.
  - rewrite E. cbn [snd]. exists (Transient true), (if arrived then h1 else h).
    split_and!; [done|by destruct arrived|by destruct arrived|destruct arrived; by eauto|].
    left. split_and!; [done| |intros H; specialize (H k); congruence].
    destruct arrived; by eapply staged_ready.
  - rewrite E. cbn [snd]. exists (Transient true), (if arrived then h1 else h).
    split_and!; [done|by destruct arrived|by destruct arrived|destruct arrived; by eauto|].
    left. split_and!; [done| |intros H; specialize (H k); congruence].
    destruct arrived; by eapply staged_ready.
Qed.

(** A transfer the sender can make: its upload was staged under an id both ends
    accept, and its bytes are in the sender's uploads directory. *)
Definition sendable (local : UploadsInner) (t : AttachmentTransfer) (bytes : string) : Prop :=
  staging_ok (at_upload_id t) = true /\
  up_files local !! pending_name (at_upload_id t) (at_file_name t) = Some bytes /\
  byte_length bytes <= MAX_BYTES - 2.

Definition tr_name (t : AttachmentTransfer) : string := pending_name (at_upload_id t) (at_file_name t).

Definition all_ready (local : UploadsInner) (transfers : list AttachmentTransfer) (h : UploadsInner) : Prop :=
  Forall (fun t => exists bytes, sendable local t bytes /\ host_ready (at_upload_id t) bytes h) transfers.

(** The bytes of the sender's files, copied name by name. *)
Definition copied (local : UploadsInner) (names : list string) (h h' : UploadsInner) : Prop :=
  up_dir h' = up_dir h /\
  forall n, up_files h' !! n = up_files h !! n \/ n ∈ names /\ up_files h' !! n = up_files local !! n.

Lemma copied_trans local ns ns' h h1 h2 :
  copied local ns h h1 -> copied local ns' h1 h2 -> copied local (ns ++ ns') h h2.
Proof.
  intros [D1 H1] [D2 H2]. split; [congruence|]. intros n.
  destruct (H2 n) as [E|[Hn E]]; [|right; split; [apply elem_of_app; by right|done]].
  destruct (H1 n) as [E1|[Hn E1]]; [left; congruence|]. right. split; [apply elem_of_app; by left|congruence].
Qed.

Lemma staged_all bytes i :
  (i < length (transfer_plan bytes))%nat -> i ∈ rev (transfer_pieces (b64_encode bytes)).*1 ++ [].
Proof.
  intros Hi. rewrite app_nil_r. apply list_elem_of_In, in_rev. rewrite rev_involutive.
  destruct (transfer_pieces_spec bytes) as [_ ->]. apply list_elem_of_In, elem_of_seq. lia.
Qed.

(** One file, whatever becomes of the calls: it lands, or the link is blamed
    and the next attempt may start over. *)
Lemma push_file_any calls local t bytes k h :
  sendable local t bytes -> host_ready (at_upload_id t) bytes h -> paced calls ->
  let id := at_upload_id t in
  let '(r, h1, k1) := push_chunks calls id (transfer_pieces (b64_encode bytes)) k h in
  r = Transient true /\ ~ answered calls /\ copied local [tr_name t] h h1 /\ host_ready id bytes h1 /\
    (forall id' s, id' <> id -> up_tmp h1 !! id' = Some s -> up_tmp h !! id' = Some s) \/
  r = PushOk /\
    let '(r, h2) := peer_call (calls k1) (fun h => commit h id (at_file_name t)) h1 in
    copied local [tr_name t] h h2 /\ host_ready id bytes h2 /\
    (forall id' s, id' <> id -> up_tmp h2 !! id' = Some s -> up_tmp h !! id' = Some s) /\
    (r = Transient true /\ ~ answered calls \/
     r = PushOk /\ up_files h2 !! tr_name t = Some bytes /\ up_tmp h2 !! id = None).
Proof.
  intros (Hid & Hl & Hm) Hr Hpace id.
  destruct (transfer_pieces_spec bytes) as [Hp _].
  destruct (push_chunks_any calls id bytes _ k h [] (ca_at (calls k)) Hid Hm Hpace Hp) as (r & h1 & E & Hf & Hd & Hsh & H).
  { split; [done| |done]. intros i d Hi. by apply elem_of_nil in Hi. }
  { unfold STAGING_TTL. lia. }
  rewrite E. assert (Hc1 : copied local [tr_name t] h h1) by (split; [done|]; intros n; left; by rewrite Hf).
  destruct H as [(-> & Hr1 & Hna)|(-> & t1 & Hs1 & Ht1)]; [by left|right; split; [done|]].
  set (k1 := (push_chunks calls id (transfer_pieces (b64_encode bytes)) k h).2) in *.
  destruct (file_plan_spec TRANSFER_CHUNK_B64 bytes) as (Hne & Htr & Hdec); [pose proof chunk_size_ok; lia|].
  assert (Hmax : byte_length bytes <= MAX_BYTES) by lia.
  pose proof (staged_commit id (transfer_plan bytes) h1 _ t1 (at_file_name t) bytes Hid Hs1 Hne
                (staged_all bytes) Htr Hdec Hmax) as Ec.
  set (h2 := set_files (set_tmp h1 (delete id (up_tmp h1))) (<[pending_name id (at_file_name t) := bytes]> (up_files h1))) in *.
  assert (H2 : copied local [tr_name t] h h2 /\ host_ready id bytes h2 /\
               (forall id' s, id' <> id -> up_tmp h2 !! id' = Some s -> up_tmp h !! id' = Some s) /\
               up_files h2 !! tr_name t = Some bytes /\ up_tmp h2 !! id = None).
  { split_and!.
    - split; [done|]. intros n. destruct (decide (n = tr_name t)) as [->|Hn].
      + right. split; [by left|]. unfold tr_name. rewrite Hl. apply lookup_insert_eq.
      + left. subst h2. cbn. rewrite lookup_insert_ne by done. by rewrite Hf.
    - intros s. subst h2. cbn. by rewrite lookup_delete_eq.
    - intros id' s Hn. subst h2. cbn. rewrite lookup_delete_ne by done. by apply Hsh.
    - apply lookup_insert_eq.
    - apply lookup_delete_eq. }
  unfold peer_call. destruct (ca_fate (calls k1)) as [|arrived|arrived] eqn:Ef.
  - rewrite Ec. destruct H2 as (? & ? & ? & ? & ?). split_and!; [done..|]. by right.
  - rewrite Ec. assert (Hna : ~ answered calls) by (intros H; specialize (H k1); congruence).
    destruct arrived; cbn [snd]; [destruct H2 as (? & ? & ? & _); split_and!; [done..|]; by left|].
    split_and!; [done|by eapply staged_ready|done|by left].
  - rewrite Ec. assert (Hna : ~ answered calls) by (intros H; specialize (H k1); congruence).
    destruct arrived; cbn [snd]; [destruct H2 as (? & ? & ? & _); split_and!; [done..|]; by left|].
    split_and!; [done|by eapply staged_ready|done|by left].
Qed.

Lemma host_ready_shrink id bytes h h' :
  (forall s, up_tmp h' !! id = Some s -> up_tmp h !! id = Some s) -> host_ready id bytes h -> host_ready id bytes h'.
Proof. intros H Hr s Hs. eauto. Qed.

(** All the transfers, from any state an earlier attempt left. *)
Lemma push_transfers_any calls local transfers k h :
  all_ready local transfers h -> NoDup (at_upload_id <$> transfers) -> NoDup (tr_name <$> transfers) -> paced calls ->
  exists r h' k', push_transfers calls local transfers k h = (r, h', k') /\
    copied local (tr_name <$> transfers) h h' /\
    (forall id' s, id' ∉ at_upload_id <$> transfers -> up_tmp h' !! id' = Some s -> up_tmp h !! id' = Some s) /\
    (r = Transient true /\ ~ answered calls /\ all_ready local transfers h' \/
     r = PushOk /\ Forall (fun t => up_files h' !! tr_name t = up_files local !! tr_name t) transfers).
Proof.
  intros Hall Hids Hnames Hpace. revert k h Hall. induction transfers as [|t transfers IH]; intros k h Hall.
  { exists PushOk, h, k. split_and!; [done| |done|by right]. split; [done|by left]. }
  rewrite !fmap_cons in *. apply NoDup_cons in Hids as [Hid Hids], Hnames as [Hname Hnames].
  inversion_clear Hall as [|? ? (bytes & Hs & Hr) Hrest].
  pose proof Hs as (_ & Hl & _). cbn [push_transfers]. unfold tr_name in *. rewrite Hl.
  pose proof (push_file_any calls local t bytes k h Hs Hr Hpace) as H. cbv zeta in H.
  destruct (push_chunks calls (at_upload_id t) (transfer_pieces (b64_encode bytes)) k h) as [[r h1] k1].
  assert (Hothers : forall h1, (forall id' s, id' <> at_upload_id t -> up_tmp h1 !! id' = Some s -> up_tmp h !! id' = Some s) ->
                    all_ready local transfers h1).
  { intros hx Hsub. apply Forall_forall. intros t' Ht'.
    destruct (proj1 (Forall_forall _ _) Hrest t' Ht') as (b & Hs' & Hr'). exists b. split; [done|].
    eapply host_ready_shrink; [|exact Hr']. intros s. apply Hsub. intros E. apply Hid. rewrite <- E.
    by apply list_elem_of_fmap_2. }
  assert (Hweak : forall h1, copied local [pending_name (at_upload_id t) (at_file_name t)] h h1 ->
    copied local (pending_name (at_upload_id t) (at_file_name t) ::
      ((fun t => pending_name (at_upload_id t) (at_file_name t)) <$> transfers)) h h1).
  { intros hx [? Hc]. split; [done|]. intros n. destruct (Hc n) as [?|[Hn ?]]; [by left|right].
    split; [|done]. apply list_elem_of_singleton in Hn as ->. by left. }
  destruct H as [(-> & Hna & Hc & Hr1 & Hsub)|[-> H]].
  { exists (Transient true), h1, k1. split_and!; [done|by apply Hweak| |].
    - intros id' s Hn. apply Hsub. intros ->. apply Hn. by left.
    - left. split_and!; [done..|]. constructor; [by exists bytes|by apply Hothers]. }
  destruct (peer_call (calls k1) _ h1) as [r h2]. destruct H as (Hc & Hr2 & Hsub & H).
  destruct H as [[-> Hna]|(-> & Hland & Htmp)].
  { exists (Transient true), h2, (S k1). split_and!; [done|by apply Hweak| |].
    - intros id' s Hn. apply Hsub. intros ->. apply Hn. by left.
    - left. split_and!; [done..|]. constructor; [by exists bytes|by apply Hothers]. }
  destruct (IH Hids Hnames (S k1) h2 (Hothers h2 Hsub)) as (r & h' & k' & E & Hc' & Hsub' & H).
  exists r, h', k'. split_and!; [done|exact (copied_trans _ _ _ _ _ _ Hc Hc')| |].
  - intros id' s Hn Hh. assert (id' <> at_upload_id t) by (intros ->; apply Hn; by left).
    apply Hsub; [done|]. apply Hsub'; [|done]. intros Hin. apply Hn. by right.
  - destruct H as [(-> & Hna & Hall)|[-> Hall]]; [left|right]; (split_and!; [done..|]); (constructor; [|done]).
    + exists bytes. split; [done|]. intros s Hh. apply Hsub' in Hh; [|done]. by rewrite Htmp in Hh.
    + unfold tr_name in Hland. destruct Hc' as [_ Hc']. destruct (Hc' (pending_name (at_upload_id t) (at_file_name t))) as [->|[_ ->]]; congruence.
Qed.

(** ** Delivering *)

Context (edge links : bool) (me : string) (local : UploadsInner).

(** An attempt at a host that stays the chat's. *)
Definition attempt_at (target : string) (a : Attempt) : Prop :=
  remote_host_for me (an_row a) = Some target /\ paced (an_calls a).

Lemma peer_set w target h : peer (set_peer w target h) target = h.
Proof. unfold peer, set_peer. cbn. by rewrite lookup_insert_eq. Qed.

Definition delivered (target : string) (transfers : list AttachmentTransfer) (w w' : World) : Prop :=
  Forall (fun t => up_files (peer w' target) !! tr_name t = up_files local !! tr_name t) transfers /\
  copied local (tr_name <$> transfers) (peer w target) (peer w' target).

(** One turn of the loop at a host that stays. *)
Lemma deliver_turn target deadline transfers b rest w :
  all_ready local transfers (peer w target) ->
  NoDup (at_upload_id <$> transfers) -> NoDup (tr_name <$> transfers) -> attempt_at target b -> links = true ->
  exists w1, 
    (deliver_attachments edge links me (Some local) deadline transfers (b :: rest) w = (Some true, w1) /\
       delivered target transfers w w1) \/
    (deliver_attachments edge links me (Some local) deadline transfers (b :: rest) w =
       (if deadline <=? an_after b then (Some false, w1)
        else deliver_attachments edge links me (Some local) deadline transfers rest w1) /\
     (an_client b = false \/ ~ answered (an_calls b)) /\
     all_ready local transfers (peer w1 target) /\ copied local (tr_name <$> transfers) (peer w target) (peer w1 target)).
Proof.
  intros Hall Hids Hnames [Hrow Hp] Hlinks. cbn [deliver_attachments]. rewrite Hrow.
  unfold push_attachments. rewrite Hlinks. cbn [negb].
  assert (Hrefl : copied local (tr_name <$> transfers) (peer w target) (peer w target)) by (split; [done|by left]).
  destruct (an_client b); cbn [negb].
  2: { eexists. right. split_and!; [reflexivity|by left|..]; change (peer (emit ?w ?l)) with (peer w);
       by rewrite peer_set. }
  destruct (push_transfers_any (an_calls b) local transfers 0 (peer w target) Hall Hids Hnames Hp)
    as (r & h & k & -> & Hc & _ & [(-> & Hna & Hr)|[-> Hl]]); cbn [fst].
  - eexists. right. split_and!; [reflexivity|by right|..]; change (peer (emit ?w ?l)) with (peer w); by rewrite peer_set.
  - eexists. left. split; [reflexivity|]. unfold delivered. change (peer (emit ?w ?l)) with (peer w).
    by rewrite peer_set.
Qed.

End Attempts.

(** ** The escort *)

Section EscortProof.
Context `{B64 : Base64} (edge links : bool) (me : string) (local : option UploadsInner).

(** A delivery that ends with success at a host that stays left every file
    there. *)
Lemma deliver_lands target deadline transfers attempts w w' :
  Forall (fun a => remote_host_for me (an_row a) = Some target) attempts ->
  deliver_attachments edge links me local deadline transfers attempts w = (Some true, w') ->
  Forall (fun t => is_Some (up_files (peer w' target) !! pending_name (at_upload_id t) (at_file_name t))) transfers.
Proof.
  intros Ha. revert w. induction Ha as [|a attempts Hrow _ IH]; intros w; cbn [deliver_attachments]; [done|].
  rewrite Hrow. destruct (push_attachments _ _ _ _ _ _) as [r h] eqn:Ep.
  destruct r as [|suspect|]; [|destruct (deadline <=? an_after a); [done|]; intros Hd; exact (IH _ Hd)|done].
  intros [= <-]. change (peer (emit ?w ?l)) with (peer w). rewrite peer_set.
  unfold push_attachments in Ep. destruct links; [|done]. cbn [negb] in Ep.
  destruct local as [u|]; [|done]. destruct (an_client a); [|done]. cbn [negb] in Ep.
  destruct (push_transfers _ _ _ _ _) as [[r' h'] k'] eqn:E. cbn [fst] in Ep. injection Ep as -> ->.
  by apply push_transfers_lands in E as [? _].
Qed.

Lemma deliver_events deadline transfers attempts w o w' d c :
  deliver_attachments edge links me local deadline transfers attempts w = (o, w') ->
  ERelay d c ∈ wo_events w' -> ERelay d c ∈ wo_events w.
Proof.
  revert w. induction attempts as [|a attempts IH]; intros w; cbn [deliver_attachments]; [by intros [= <- <-]|].
  destruct (remote_host_for me (an_row a)) as [target|] eqn:Hr; [|by intros [= <- <-]].
  destruct (push_attachments _ _ _ _ _ _) as [[|suspect|] h].
  - intros [= <- <-]. cbn. rewrite elem_of_app. intros [H|H]; [done|]. unfold nudge_remote_host in H.
    rewrite Hr in H. destruct edge; cbn in H; set_solver.
  - assert (Hs : ERelay d c ∈ wo_events (emit (set_peer w target h) (if suspect then [EInvalidate target] else [])) ->
                 ERelay d c ∈ wo_events w) by (cbn; destruct suspect; set_solver).
    destruct (deadline <=? an_after a); [intros [= <- <-]; exact Hs|]. intros H1 H2. exact (Hs (IH _ H1 H2)).
  - by intros [= <- <-].
Qed.

Lemma relay_events target id t d c : ERelay d c ∈ (relay_command links target id t).2 -> d = target /\ c = id.
Proof. unfold relay_command. repeat case_match; cbn; set_solver. Qed.

Lemma relay_loop_spec target id gives_up rounds w o w' :
  relay_loop links target id gives_up rounds w = (o, w') ->
  wo_peers w' = wo_peers w /\
  (forall d c, ERelay d c ∈ wo_events w' -> ERelay d c ∈ wo_events w \/ d = target /\ c = id).
Proof.
  revert w. induction rounds as [|r rounds IH]; intros w; cbn [relay_loop]; [intros [= <- <-]; auto|].
  destruct (ro_flushed r); [intros [= <- <-]; auto|].
  pose proof (relay_events target id (ro_try r)) as He.
  destruct (relay_command links target id (ro_try r)) as [out ev]. cbn [snd] in He.
  assert (Hw : forall d c, ERelay d c ∈ wo_events (emit w ev) -> ERelay d c ∈ wo_events w \/ d = target /\ c = id).
  { intros d c. cbn. rewrite elem_of_app. intros [?|H]; [by left|right; by apply He]. }
  destruct out; [intros [= <- <-]; auto|].
  destruct (gives_up <=? ro_after r); [intros [= <- <-]; auto|].
  intros Hl. destruct (IH _ Hl) as [Hp Hev]. split; [done|]. intros d c Hin. destruct (Hev d c Hin); auto.
Qed.

(** References whose files a store holds are not missing there. *)
Lemma nothing_missing u e :
  Forall (fun r => is_Some (parse_pending_ref r)) (command_refs e) ->
  Forall (fun t => is_Some (up_files u !! pending_name (at_upload_id t) (at_file_name t))) (command_transfers e) ->
  missing_attachments (Some (landed u)) e = [].
Proof.
  intros Hp Hl. change (match command_refs e with [] => [] | _ => filter (fun r => resolve_pending (landed u) r = false)
    (command_refs e) end = []).
  assert (Hf : filter (fun r => resolve_pending (landed u) r = false) (command_refs e) = []).
  { apply list_filter_none. unfold command_transfers in Hl. clear -Hp Hl.
    induction Hp as [|r refs [[id name] Hr] _ IH]; [constructor|].
    cbn [omap list_omap] in Hl. rewrite Hr in Hl. rewrite fmap_cons in Hl.
    inversion_clear Hl as [|? ? Hhead Htail]. constructor; [|by apply IH].
    unfold resolve_pending. rewrite Hr. unfold landed. cbn in Hhead. by rewrite bool_decide_true. }
  rewrite Hf. by destruct (command_refs e).
Qed.


(** The relay loop ends at the first round that finds the rows flushed, is
    answered, or comes back after the deadline; and no round before it did. *)
Lemma relay_loop_ends target id gives_up rounds w :
  is_Some (relay_loop links target id gives_up rounds w).1 <->
  Exists (fun r => ro_flushed r = true \/ is_Some (relay_command links target id (ro_try r)).1 \/
                   gives_up <= ro_after r) rounds.
Proof.
  revert w. induction rounds as [|r rounds IH]; intros w; cbn [relay_loop].
  { split; [by intros [? ?]|by intros H; inversion H]. }
  rewrite Exists_cons. destruct (ro_flushed r); [split; [auto|by eexists]|].
  destruct (relay_command links target id (ro_try r)) as [[out|] ev]; cbn [fst].
  - split; [intros _; left; right; left; by eexists|by eexists].
  - destruct (Z.leb_spec gives_up (ro_after r)); [split; [auto|by eexists]|].
    rewrite IH. split; [auto|]. intros [[?|[[? ?]|?]]|?]; [done|done|lia|done].
Qed.
End EscortProof.

(** ** The retry *)

Section Retry.
Context (rd rm : bool).

(** *** Which attempts speak *)

Lemma note_dead_some h msgs l m c :
  c ∈ l -> dead_message rd h msgs c = Some m -> is_Some (foldl (note_dead rd h msgs) ∅ l !! m).
Proof.
  intros Hc Hd. induction l as [|y l IH] using rev_ind; [by apply elem_of_nil in Hc|].
  rewrite foldl_snoc. unfold note_dead at 1. apply elem_of_app in Hc as [Hc| ->%list_elem_of_singleton].
  - specialize (IH Hc). destruct (dead_message rd h msgs y) as [my|]; [|done].
    destruct (foldl _ ∅ l !! my) as [old|]; [destruct (ce_issued_at old <? ce_issued_at y)|];
      [|done|]; apply lookup_insert_is_Some'; by right.
  - rewrite Hd. destruct (foldl _ ∅ l !! m) as [old|] eqn:E;
      [case_match|]; [|by rewrite E|]; rewrite lookup_insert_eq; by eexists.
Qed.

Lemma note_dead_spec h msgs l m c :
  foldl (note_dead rd h msgs) ∅ l !! m = Some c ->
  c ∈ l /\ dead_message rd h msgs c = Some m /\
  forall c', c' ∈ l -> dead_message rd h msgs c' = Some m -> ce_issued_at c' <= ce_issued_at c.
Proof.
  revert c. induction l as [|x l IH] using rev_ind; intros c; [done|].
  rewrite foldl_snoc. unfold note_dead at 1.
  assert (Hskip : foldl (note_dead rd h msgs) ∅ l !! m = Some c ->
    (dead_message rd h msgs x = Some m -> ce_issued_at x <= ce_issued_at c) ->
    c ∈ l ++ [x] /\ dead_message rd h msgs c = Some m /\
    forall c', c' ∈ l ++ [x] -> dead_message rd h msgs c' = Some m -> ce_issued_at c' <= ce_issued_at c).
  { intros H Hx. destruct (IH c H) as (Hin & Hd & Hmax). split_and!; [apply elem_of_app; by left|done|].
    intros c' [H'| ->%list_elem_of_singleton]%elem_of_app; auto. }
  destruct (dead_message rd h msgs x) as [mx|] eqn:Ex; [|intros H; by apply Hskip].
  assert (Hnew : m = mx -> (forall c', c' ∈ l -> dead_message rd h msgs c' = Some m -> ce_issued_at c' <= ce_issued_at x) ->
    x = c -> c ∈ l ++ [x] /\ dead_message rd h msgs c = Some m /\
    forall c', c' ∈ l ++ [x] -> dead_message rd h msgs c' = Some m -> ce_issued_at c' <= ce_issued_at c).
  { intros -> Hmax <-. split_and!; [apply elem_of_app; right; by left|done|].
    intros c' [H'| ->%list_elem_of_singleton]%elem_of_app Hc'; [auto|lia]. }
  destruct (foldl (note_dead rd h msgs) ∅ l !! mx) as [old|] eqn:Eo.
  - destruct (Z.ltb_spec (ce_issued_at old) (ce_issued_at x)) as [Hlt|Hge].
    + destruct (decide (m = mx)) as [->|Hne].
      * rewrite lookup_insert_eq. intros [= Heq]. apply Hnew; [done| |done]. intros c' Hc' Hd'.
        destruct (IH old Eo) as (_ & _ & Hmax). specialize (Hmax c' Hc' Hd'). lia.
      * rewrite lookup_insert_ne by done. intros H. apply Hskip; [done|]. congruence.
    + intros H. apply Hskip; [done|]. intros [= ->]. rewrite Eo in H. by injection H as <-.
  - destruct (decide (m = mx)) as [->|Hne].
    + rewrite lookup_insert_eq. intros [= Heq]. apply Hnew; [done| |done]. intros c' Hc' Hd'. exfalso.
      destruct (note_dead_some h msgs l mx c' Hc' Hd') as [? E]. congruence.
    + rewrite lookup_insert_ne by done. intros H. apply Hskip; [done|]. congruence.
Qed.

(** *** What the retry writes *)

Definition marks (olds : list SessionCommandEntry) (c : SessionCommandEntry) : bool :=
  existsb (fun o => is_pending o && String.eqb (ce_id o) (ce_id c)) olds.

Definition mark (olds : list SessionCommandEntry) (c : SessionCommandEntry) : SessionCommandEntry :=
  if marks olds c then set_status Rejected (Some SUPERSEDED_BY_RETRY) c else c.

Lemma set_command_status_map id st res l :
  NoDup (ce_id <$> l) -> id ∈ (ce_id <$> l) ->
  set_command_status id st res l = Some ((fun c => if String.eqb id (ce_id c) then set_status st res c else c) <$> l).
Proof.
  induction l as [|c l IH]; [by intros _ ?%elem_of_nil|]. rewrite fmap_cons. intros [Hc Hnd]%NoDup_cons Hin.
  cbn [set_command_status]. rewrite fmap_cons, String.eqb_sym. destruct (String.eqb_spec id (ce_id c)) as [->|Hne].
  - do 2 f_equal. symmetry. etrans; [|apply list_fmap_id]. apply list_fmap_ext. intros i x Hx.
    destruct (String.eqb_spec (ce_id c) (ce_id x)) as [E|]; [|done]. destruct Hc. rewrite E.
    apply list_elem_of_fmap_2. by eapply list_elem_of_lookup_2.
  - apply elem_of_cons in Hin as [?|Hin]; [done|]. by rewrite (IH Hnd Hin).
Qed.

Lemma mark_one old c : is_pending old = true ->
  mark [old] c = if String.eqb (ce_id old) (ce_id c) then set_status Rejected (Some SUPERSEDED_BY_RETRY) c else c.
Proof. intros H. unfold mark, marks. cbn. rewrite H. cbn. by rewrite orb_false_r. Qed.

Lemma mark_id olds c : ce_id (mark olds c) = ce_id c.
Proof. unfold mark. by destruct (marks olds c). Qed.

Lemma mark_cons old olds c : mark olds (mark [old] c) = mark (old :: olds) c.
Proof.
  assert (E : marks olds (mark [old] c) = marks olds c).
  { unfold marks. by rewrite mark_id. }
  unfold mark at 1. rewrite E. unfold mark, marks. cbn. rewrite orb_false_r.
  by destruct (is_pending old && String.eqb (ce_id old) (ce_id c)), (existsb _ olds).
Qed.

Context (me : string) (fresh : nat -> string * Z).

Definition new_entry (msgs : list string) (p : nat * SessionCommandEntry) : SessionCommandEntry :=
  fresh_entry (fresh p.1).1 me (fresh p.1).2 msgs (ce_payload p.2).

Lemma reissue_spec msgs h p :
  NoDup (ids h) -> ce_id p.2 ∈ ids h ->
  commands (reissue me (fresh p.1).2 msgs h (fresh p.1).1 p.2) = (mark [p.2] <$> commands h) ++ [new_entry msgs p].
Proof.
  intros Hnd Hin. destruct p as [i old]. unfold reissue, new_entry. cbn [fst snd] in *.
  unfold queue_command. cbn [set_commands commands].
  destruct (is_pending old) eqn:Ep.
  - unfold resolve_command. rewrite set_command_status_map by done. cbn [set_commands commands]. f_equal.
    apply list_fmap_ext. intros j c _. by rewrite mark_one.
  - f_equal. symmetry. etrans; [|apply list_fmap_id]. apply list_fmap_ext. intros j c _. unfold mark, marks. cbn.
    by rewrite Ep.
Qed.

Lemma reissue_books msgs h now id old :
  messages (reissue me now msgs h id old) = messages h /\ ledger (reissue me now msgs h id old) = ledger h /\
  executing (reissue me now msgs h id old) = executing h.
Proof. unfold reissue, resolve_command. by repeat case_match. Qed.

Lemma reissues_spec msgs h l :
  NoDup (ids h) -> Forall (fun p => ce_id p.2 ∈ ids h) l ->
  NoDup ((fun p => (fresh p.1).1) <$> l) -> (forall p, p ∈ l -> ~ (fresh p.1).1 ∈ ids h) ->
  let h' := foldl (fun h p => reissue me (fresh p.1).2 msgs h (fresh p.1).1 p.2) h l in
  commands h' = (mark l.*2 <$> commands h) ++ (new_entry msgs <$> l) /\
  messages h' = messages h /\ ledger h' = ledger h /\ executing h' = executing h.
Proof.
  revert h. induction l as [|p l IH]; intros h Hnd Hin Hf Hfr; cbn [foldl].
  { split_and!; [|done..]. rewrite app_nil_r. symmetry. apply list_fmap_id. }
  inversion_clear Hin as [|? ? Hp Hl]. rewrite fmap_cons in Hf. apply NoDup_cons in Hf as [Hfp Hf].
  set (h1 := reissue _ _ _ _ _ _).
  assert (Hc : commands h1 = (mark [p.2] <$> commands h) ++ [new_entry msgs p]) by by apply reissue_spec.
  assert (Hids : ids h1 = ids h ++ [(fresh p.1).1]).
  { unfold ids. rewrite Hc, fmap_app. f_equal. rewrite <- list_fmap_compose.
    apply list_fmap_ext. intros i c _. apply mark_id. }
  destruct (reissue_books msgs h (fresh p.1).2 (fresh p.1).1 p.2) as (Hm & Hle & Hex). fold h1 in Hm, Hle, Hex.
  destruct (IH h1) as (IHc & IHm & IHl & IHe).
  - rewrite Hids. apply NoDup_app. split_and!; [done| |by apply NoDup_singleton].
    intros x Hx ->%list_elem_of_singleton. by apply (Hfr p); [left|].
  - eapply Forall_impl; [exact Hl|]. intros q Hq. cbv beta in Hq |- *. rewrite Hids. apply elem_of_app. by left.
  - done.
  - intros q Hq. rewrite Hids, not_elem_of_app. split; [apply Hfr; by right|].
    intros E%list_elem_of_singleton. apply Hfp. rewrite <- E. by apply (list_elem_of_fmap_2 (fun p => (fresh p.1).1)).
  - split_and!; [|congruence..]. rewrite IHc, Hc, fmap_app, <- app_assoc. rewrite !fmap_cons. cbn [app].
    f_equal; [rewrite <- list_fmap_compose; apply list_fmap_ext; intros; apply mark_cons|].
    rewrite fmap_nil. cbn [app]. f_equal. unfold mark.
    destruct (marks l.*2 (new_entry msgs p)) eqn:E; [exfalso|done].
    apply existsb_exists in E as (o & Ho & [_ Eo%String.eqb_eq]%andb_true_iff).
    apply list_elem_of_In, list_elem_of_fmap in Ho as (q & -> & Hq).
    apply (Hfr p); [by left|]. change (ce_id (new_entry msgs p)) with (fresh p.1).1 in Eo. rewrite <- Eo.
    exact (proj1 (Forall_forall _ _) Hl q Hq).
Qed.

(** *** The retry as a whole *)

Context (order : gmap string SessionCommandEntry -> list SessionCommandEntry).
Hypothesis Horder : forall m, order m ≡ₚ (map_to_list m).*2.

Section Once.
Context (h : Host).
Hypothesis Hids : NoDup (ids h).
Hypothesis Hfresh : forall i, ~ (fresh i).1 ∈ ids h /\ ~ (fresh i).1 ∈ ledger h.
Hypothesis Hinj : forall i j, (fresh i).1 = (fresh j).1 -> i = j.

Notation msgs := (if rm then messages h else []).
Notation olds := (order (latest_dead rd h msgs)).

Definition retried : Host := foldl (fun h p => reissue me (fresh p.1).2 msgs h (fresh p.1).1 p.2) h (imap pair olds).

Definition news : list SessionCommandEntry := new_entry msgs <$> imap pair olds.

Lemma elem_of_olds c :
  c ∈ olds <-> exists m, latest_dead rd h msgs !! m = Some c.
Proof.
  rewrite Horder, list_elem_of_fmap. split.
  - intros ([m c'] & -> & H%elem_of_map_to_list). by exists m.
  - intros [m H]. exists (m, c). split; [done|]. by apply elem_of_map_to_list.
Qed.

Lemma olds_dead c : c ∈ olds -> c ∈ commands h /\ exists m, dead_message rd h msgs c = Some m.
Proof. intros (m & H)%elem_of_olds. destruct (note_dead_spec _ _ _ _ _ H) as (? & ? & _). eauto. Qed.

Lemma fmap_imap_pair {A} (l : list A) : (imap pair l).*2 = l.
Proof. rewrite fmap_imap. exact (eq_trans (imap_const id l) (list_fmap_id l)). Qed.

Lemma elem_of_imap_pair {A} (l : list A) p : p ∈ imap pair l -> p.2 ∈ l.
Proof. intros H. rewrite <- (fmap_imap_pair l). by apply list_elem_of_fmap_2. Qed.

Lemma retried_spec :
  commands retried = (mark olds <$> commands h) ++ news /\
  messages retried = messages h /\ ledger retried = ledger h /\ executing retried = executing h.
Proof.
  assert (Hl : Forall (fun p => ce_id p.2 ∈ ids h) (imap pair olds)).
  { apply Forall_forall. intros p Hp%elem_of_imap_pair. apply list_elem_of_fmap_2. by apply olds_dead in Hp as [? _]. }
  destruct (reissues_spec msgs h (imap pair olds) Hids Hl) as (E & H).
  - apply NoDup_fmap_2_strong; [|].
    + intros [i x] [j y] H1 H2 Eij. cbn in Eij. apply Hinj in Eij as ->.
      apply list_elem_of_lookup in H1 as [a Ha], H2 as [b Hb].
      rewrite list_lookup_imap in Ha, Hb.
      destruct (olds !! a) as [x'|] eqn:Ea; [|done]. destruct (olds !! b) as [y'|] eqn:Eb; [|done].
      cbn in Ha, Hb. injection Ha as <- <-. injection Hb as <- <-. congruence.
    + apply (NoDup_fmap_1 fst). rewrite fmap_imap.
      assert (Ei : imap (fun i => fst ∘ pair i) olds = seq 0 (length olds)).
      { apply list_eq. intros i. rewrite list_lookup_imap. destruct (olds !! i) as [x|] eqn:E; cbn.
        - symmetry. apply lookup_seq. split; [done|]. by eapply lookup_lt_Some.
        - symmetry. apply lookup_seq_ge. by apply lookup_ge_None. }
      rewrite Ei. apply NoDup_seq.
  - intros p _. apply Hfresh.
  - rewrite fmap_imap_pair in E. by split.
Qed.

Lemma processed_same c : is_processed rd retried c = is_processed rd h c.
Proof. unfold is_processed. by destruct retried_spec as (_ & _ & -> & _). Qed.

Lemma same_entry c c' : c ∈ commands h -> c' ∈ commands h -> ce_id c = ce_id c' -> c = c'.
Proof. intros H1 H2 E. by apply (NoDup_fmap_inj_on ce_id (commands h)). Qed.

(** A marked entry was dead; so a live one is never marked. *)
Lemma marked_dead c : c ∈ commands h -> marks olds c = true -> c ∈ olds /\ is_pending c = true /\ dead rd h c = true.
Proof.
  intros Hc (o & Ho & [Hp E%String.eqb_eq]%andb_true_iff)%existsb_exists. apply list_elem_of_In in Ho.
  destruct (olds_dead o Ho) as (Hin & m & Hd). assert (o = c) as -> by by apply same_entry.
  split_and!; [done|done|]. unfold dead_message in Hd. destruct (message_of (ce_payload c)); [|done]. cbn in Hd.
  destruct (dead rd h c); [done|]. by rewrite orb_true_r in Hd.
Qed.

Lemma live_unmarked c : c ∈ commands h -> live rd h c = true -> mark olds c = c.
Proof.
  intros Hc Hl. unfold mark. destruct (marks olds c) eqn:E; [exfalso|done].
  destruct (marked_dead c Hc E) as (_ & Hp & Hd). unfold live in Hl. rewrite Hp in Hl. cbn in Hl.
  unfold dead in Hd. apply is_pending_true in Hp. rewrite Hp in Hd.
  destruct (is_processed rd h (ce_id c)); done.
Qed.

Lemma new_live e : e ∈ news -> live rd retried e = true.
Proof.
  intros (p & -> & _)%list_elem_of_fmap. unfold live. rewrite processed_same.
  cbn. unfold is_processed. rewrite bool_decide_false by apply Hfresh. by rewrite andb_false_r.
Qed.

Lemma live_kept c : c ∈ commands h -> live rd retried (mark olds c) = live rd h c.
Proof.
  intros Hc. unfold live. rewrite processed_same, mark_id. unfold mark.
  destruct (marks olds c) eqn:E; [|done]. destruct (marked_dead c Hc E) as (_ & Hp & Hd).
  unfold dead in Hd. pose proof Hp as Hp'. apply is_pending_true in Hp'. rewrite Hp' in Hd. rewrite Hp.
  apply andb_true_iff in Hd as [-> _]. by rewrite andb_false_r.
Qed.

Lemma live_filter :
  filter (fun c => live rd retried c = true) (commands retried) =
  filter (fun c => live rd h c = true) (commands h) ++ news.
Proof.
  destruct retried_spec as (-> & _). rewrite filter_app. f_equal.
  - assert (H : forall l : list SessionCommandEntry, (forall c, c ∈ l -> c ∈ commands h) ->
      filter (fun c => live rd retried c = true) (mark olds <$> l) = filter (fun c => live rd h c = true) l);
      [|by apply H]. intros l. induction l as [|c l IH]; intros Hl; [done|].
    rewrite fmap_cons, !filter_cons. rewrite live_kept by (apply Hl; by left).
    rewrite IH by (intros; apply Hl; by right). case_decide as D; [|done]. f_equal.
    apply live_unmarked; [apply Hl; by left|done].
  - apply list_filter_all, Forall_forall. apply new_live.
Qed.

(** A message is one kind of command: no id is used by a run and a steer. *)
Definition one_kind : Prop :=
  forall c c' m, c ∈ commands h -> c' ∈ commands h ->
    message_of (ce_payload c) = Some m -> message_of (ce_payload c') = Some m ->
    same_attempt (ce_payload c) (ce_payload c') = true.

Lemma dead_message_inv (g : Host) l c m :
  dead_message rd g l c = Some m ->
  message_of (ce_payload c) = Some m /\ ~ m ∈ l /\ dead rd g c = true /\ live_attempt rd g c = false.
Proof.
  unfold dead_message. destruct (message_of (ce_payload c)) as [x|]; [|done]. cbn.
  destruct (bool_decide (x ∈ l)) eqn:E; [done|]. apply bool_decide_eq_false in E.
  destruct (dead rd g c), (live_attempt rd g c); try done. cbn. by intros [= ->].
Qed.

Lemma dead_message_intro (g : Host) l c m :
  message_of (ce_payload c) = Some m -> ~ m ∈ l -> dead rd g c = true -> live_attempt rd g c = false ->
  dead_message rd g l c = Some m.
Proof. intros H1 H2 H3 H4. unfold dead_message. rewrite H1. cbn. by rewrite bool_decide_false, H3, H4. Qed.

(** After the retry no message is dead any more. *)
Lemma none_dead c : one_kind -> c ∈ commands retried -> dead_message rd retried msgs c = None.
Proof.
  intros Hkind Hc. destruct (dead_message rd retried msgs c) as [m|] eqn:Hd; [exfalso|done].
  apply dead_message_inv in Hd as (Hm & Hnl & Hdead & Hlive).
  destruct retried_spec as (Ec & _ & Hle & Hex). pose proof Hc as Hc'. rewrite Ec in Hc.
  apply elem_of_app in Hc as [(c0 & -> & Hc0)%list_elem_of_fmap|Hnew].
  2: { apply new_live in Hnew. unfold live in Hnew. apply andb_true_iff in Hnew as [Hp Hn].
       unfold dead in Hdead. apply is_pending_true in Hp. rewrite Hp in Hdead.
       by destruct (is_processed rd retried (ce_id c)). }
  assert (Hpay : ce_payload (mark olds c0) = ce_payload c0) by (unfold mark; by destruct (marks olds c0)).
  rewrite Hpay in Hm.
  assert (Hd0 : dead rd h c0 = true).
  { destruct (marks olds c0) eqn:Em; [by apply marked_dead in Em as (_ & _ & ?)|].
    unfold mark in Hdead. rewrite Em in Hdead. unfold dead in *. destruct (ce_status c0); try done.
    by rewrite processed_same, Hex in Hdead. }
  assert (Hnew : forall o, o ∈ commands h -> live rd h o = true -> ce_id o <> ce_id c0 ->
                   same_attempt (ce_payload o) (ce_payload c0) = true -> False).
  { intros o Ho Hl Hne Hs. assert (Hx : live_attempt rd retried (mark olds c0) = true); [|congruence].
    apply existsb_exists. exists o. rewrite mark_id, Hpay. split.
    - apply list_elem_of_In. rewrite Ec. apply elem_of_app. left. rewrite <- (live_unmarked o Ho Hl).
      by apply list_elem_of_fmap_2.
    - rewrite Hs. rewrite <- (live_unmarked o Ho Hl) at 2. rewrite live_kept, Hl by done.
      apply String.eqb_neq in Hne as ->. done. }
  destruct (live_attempt rd h c0) eqn:El.
  { apply existsb_exists in El as (o & Ho%list_elem_of_In & [[Hne%negb_true_iff Hl]%andb_true_iff Hs]%andb_true_iff).
    apply String.eqb_neq in Hne. by apply (Hnew o). }
  destruct (note_dead_some h msgs (commands h) m c0 Hc0) as [old Hold]; [by apply dead_message_intro|].
  destruct (note_dead_spec _ _ _ _ _ Hold) as (Hin & Hdm & _).
  assert (Ho : old ∈ olds) by (apply elem_of_olds; by exists m).
  rewrite <- (fmap_imap_pair olds) in Ho. apply list_elem_of_fmap in Ho as ([i o] & -> & Hp). cbn in *.
  assert (Hn : new_entry msgs (i, o) ∈ news) by by apply list_elem_of_fmap_2.
  assert (Hx : live_attempt rd retried (mark olds c0) = true); [|congruence].
  apply existsb_exists. exists (new_entry msgs (i, o)). rewrite mark_id, Hpay. split.
  - apply list_elem_of_In. rewrite Ec. apply elem_of_app. by right.
  - rewrite new_live by done. apply dead_message_inv in Hdm as (Hom & _).
    change (ce_payload (new_entry msgs (i, o))) with (ce_payload o). rewrite (Hkind o c0 m) by done.
    destruct (String.eqb_spec (ce_id (new_entry msgs (i, o))) (ce_id c0)) as [E|]; [|done].
    destruct (Hfresh i) as [H _]. destruct H. change (ce_id (new_entry msgs (i, o))) with (fresh i).1 in E.
    rewrite E. by apply list_elem_of_fmap_2.
Qed.

(** A user's retry re-issues each dead send once. After it the commands are
    the old ones, some dead ones terminalized, followed by new pending entries
    under fresh ids: exactly one for each message that has a dead attempt, has
    not landed and has no live attempt, carrying the payload of the latest such
    attempt. Every live command, old or new, gets exactly one delivery escort
    with the transfers of its references. And the retry is idempotent: retrying
    again at once queues nothing, whatever the ids and the order. *)
Theorem retry_once edge row :
  one_kind ->
  let '(h', escorts, _) := retry_delivery edge me row rd rm order fresh h in
  (exists new, commands h' = (mark olds <$> commands h) ++ new /\
    NoDup ((fun e => message_of (ce_payload e)) <$> new) /\
    (forall m, Some m ∈ ((fun e => message_of (ce_payload e)) <$> new) <->
       exists c, c ∈ commands h /\ dead_message rd h msgs c = Some m) /\
    (forall e, e ∈ new -> ce_status e = Pending /\ ~ ce_id e ∈ ids h /\
       exists c m, c ∈ commands h /\ ce_payload e = ce_payload c /\ dead_message rd h msgs c = Some m /\
         forall c', c' ∈ commands h -> dead_message rd h msgs c' = Some m -> ce_issued_at c' <= ce_issued_at c)) /\
  escorts = (fun e => (e, command_transfers e)) <$> filter (fun c => live rd h' c = true) (commands h') /\
  (forall fresh' order', (forall m, order' m ≡ₚ (map_to_list m).*2) ->
     (retry_delivery edge me row rd rm order' fresh' h').1.1 = h').
Proof.
  intros Hkind. unfold retry_delivery. cbv zeta.
  assert (En : imap (fun i old => fresh_entry (fresh i).1 me (fresh i).2 msgs (ce_payload old)) olds = news).
  { unfold news. rewrite fmap_imap. by apply imap_ext. }
  rewrite En. change (foldl _ h (imap pair olds)) with retried.
  destruct retried_spec as (Ec & Em & _). split_and!.
  - exists news. split; [done|].
    assert (Emsg : (fun e => message_of (ce_payload e)) <$> news = (fun c => message_of (ce_payload c)) <$> olds).
    { transitivity ((fun c => message_of (ce_payload c)) <$> (imap pair olds).*2); [|by rewrite fmap_imap_pair].
      unfold news. by rewrite <- !list_fmap_compose. }
    assert (Ekeys : (fun c => message_of (ce_payload c)) <$> olds ≡ₚ Some <$> (map_to_list (latest_dead rd h msgs)).*1).
    { rewrite Horder, <- !list_fmap_compose. apply Permutation_refl', list_fmap_ext. intros i [m c] H.
      apply list_elem_of_lookup_2, elem_of_map_to_list in H. cbn.
      destruct (note_dead_spec _ _ _ _ _ H) as (_ & Hd & _). by apply dead_message_inv in Hd as [? _]. }
    split_and!.
    + rewrite Emsg, Ekeys. apply NoDup_fmap_2; [apply _|]. apply NoDup_fst_map_to_list.
    + intros m. rewrite Emsg, Ekeys, list_elem_of_fmap. split.
      * intros (m' & [= <-] & ([k c] & -> & H%elem_of_map_to_list)%list_elem_of_fmap).
        destruct (note_dead_spec _ _ _ _ _ H) as (? & ? & _). by exists c.
      * intros (c & Hc & Hd). exists m. split; [done|].
        destruct (note_dead_some h msgs (commands h) m c Hc Hd) as [o Ho].
        apply list_elem_of_fmap. exists (m, o). split; [done|]. by apply elem_of_map_to_list.
    + intros e (p & -> & Hp)%list_elem_of_fmap. split_and!; [done|apply Hfresh|].
      apply elem_of_imap_pair, elem_of_olds in Hp as (m & H).
      destruct (note_dead_spec _ _ _ _ _ H) as (Hc & Hd & Hmax). by exists p.2, m.
  - by rewrite live_filter.
  - intros fresh' order' Horder'. rewrite Em.
    assert (E : latest_dead rd retried msgs = ∅).
    { apply map_empty. intros m. destruct (latest_dead rd retried msgs !! m) as [c|] eqn:E; [exfalso|done].
      destruct (note_dead_spec _ _ _ _ _ E) as (Hc & Hd & _). by rewrite none_dead in Hd. }
    rewrite E. specialize (Horder' ∅). rewrite map_to_list_empty in Horder'. cbn in Horder'.
    by apply Permutation_nil_r in Horder' as ->.
Qed.
End Once.
End Retry.
