(* ===== verification/DeliveryLimits.v ===== *)
(** Uploads, attachments and deliveries on concrete runs, and where their
    promises end: files at the very cap, a commit that comes too late, uploads
    that share a name, a relay to the host a chat has left, a message retried
    as two kinds. *)
From S2P Require Import Prelude Json Text Journal Agent Base64 Commands Uploads Attachments Delivery.

(** ** Samples *)

Definition sample_store : UploadsInner := from_root_with_fallback "/data/uploads" None.

Definition sample_id : string := "abcd1234-rest".

Lemma attachments_roundtrip_witness :
  let m := with_attachments "look" ["/a/b c.png"; "pending://u1/x.png"] in
  pm_text (parse_user_message_images m) = "look" /\
  ui_path <$> pm_attachments (parse_user_message_images m) = ["/a/b c.png"; "pending://u1/x.png"] /\
  pending_refs_in m = ["pending://u1/x.png"].
Proof.
  assert (Hp : Forall plain_path ["/a/b c.png"; "pending://u1/x.png"])
    by (repeat constructor; try (vm_compute; reflexivity); discriminate).
  exact (attachments_roundtrip "look" ["/a/b c.png"; "pending://u1/x.png"] ltac:(discriminate) Hp
           ltac:(vm_compute; reflexivity)).
Defined.

(** A file of three bytes, one directory below the root. *)
Definition sample_fs : Fs :=
  mk_fs (fun p => if String.eqb p "/data/uploads" then Some ["data"; "uploads"]
                  else if String.eqb p "/data/uploads/x.png" then Some ["data"; "uploads"; "x.png"] else None)
        (fun _ => Some (true, "img")).

Definition sample_file : InspectedFile := mk_inspected ["data"; "uploads"; "x.png"] "x.png" "image/png" "img".

Lemma read_back_exact_witness :
  inspect sample_fs sample_store "/data/uploads/x.png" [] = inr sample_file /\
  read_attachment_image (engine_read sample_fs sample_store "/data/uploads/x.png" []) "/data/uploads/x.png" =
    Some ("x.png", "image/png", "img").
Proof.
  assert (Hi : inspect sample_fs sample_store "/data/uploads/x.png" [] = inr sample_file) by (vm_compute; reflexivity).
  split; [exact Hi|].
  exact (proj1 (read_back_exact sample_fs sample_store "/data/uploads/x.png" [] sample_file Hi
                  ltac:(discriminate) ltac:(discriminate))).
Defined.

(** An upload whose only chunk arrives twice, its first reply lost. *)
Definition arrived_once : UploadsInner :=
  (arrive sample_id "img" (mk_uploading sample_store 1000 0 [] {[0%nat := 0%nat]} [] None) 0).2.
Definition arrived_twice : UploadsInner :=
  (arrive sample_id "img" (mk_uploading arrived_once 1000 0 [] {[0%nat := 1%nat]} [] None) 0).2.

Lemma sample_upload :
  rtc (upload_step sample_id "x.png" "img") (upload_start "img" sample_store 0)
    (mk_uploading (commit arrived_twice sample_id "x.png").2 1000 1000 [] ∅ [0%nat]
       (Some (commit arrived_twice sample_id "x.png").1)).
Proof.
  assert (E : upload_start "img" sample_store 0 = mk_uploading sample_store 0 0 [0%nat] ∅ [] None)
    by (vm_compute; reflexivity).
  rewrite E. clear E.
  eapply rtc_l; [apply up_tick with (t' := 1000); vm_compute; discriminate|].
  eapply rtc_l; [apply up_begin; vm_compute; lia|].
  eapply rtc_l.
  { apply (up_retry sample_id "x.png" "img" sample_store 1000 0 [] _ [] 0 0 arrived_once);
      [reflexivity|lia|right; reflexivity]. }
  change (<[0%nat:=1%nat]> (<[0%nat:=0%nat]> ∅)) with ({[0%nat := 1%nat]} : gmap nat nat).
  eapply rtc_l.
  { apply (up_reply sample_id "x.png" "img" arrived_once 1000 0 [] _ [] 0 1 arrived_twice);
      [reflexivity|vm_compute; reflexivity]. }
  change (delete 0%nat ({[0%nat := 1%nat]} : gmap nat nat)) with (∅ : gmap nat nat).
  eapply rtc_l; [apply up_commit|apply rtc_refl].
Qed.

Lemma upload_exact_witness :
  up_files (commit arrived_twice sample_id "x.png").2 !! "abcd1234-x.png" = Some "img".
Proof.
  assert (Hid : staging_ok sample_id = true) by reflexivity.
  assert (Hs : byte_length "img" <= MAX_BYTES - 2) by (vm_compute; discriminate).
  assert (Ha : forall s, up_tmp sample_store !! sample_id = Some s -> agrees (upload_plan "img") s)
    by (intros s H; discriminate H).
  exact (proj1 (proj2 (upload_exact sample_id "x.png" "img" Hid Hs sample_store 0 _ _ Ha sample_upload eq_refl))).
Defined.

(** The sender's store, its transfer, and the fates of the calls: an attempt
    whose first call is lost after it arrived, then one that is answered. *)
Definition sender_store : UploadsInner :=
  set_files sample_store {[pending_name sample_id "x.png" := "img"]}.
Definition sample_transfer : AttachmentTransfer := mk_transfer sample_id "x.png".
Definition lost_calls : nat -> Call := fun k => mk_call (TimedOut true) (Z.of_nat k * 1000).
Definition good_calls : nat -> Call := fun k => mk_call Answered (60000 + Z.of_nat k * 1000).
Definition sample_attempts : list Attempt :=
  [mk_attempt (Some "laptop") true lost_calls 30000; mk_attempt (Some "laptop") true good_calls 62000].
Definition sample_world : World := mk_world ∅ [].


Definition sample_request : RunRequest :=
  mk_run_request "look" None None None [] "/repo" ReadOnly false None None [pending_ref sample_id "x.png"] None.

Definition sample_command : SessionCommandEntry :=
  mk_command "c1" (Run sample_request "m1") "me" 0 None None Pending None.

(** The bytes land at the second attempt, the rows do not flow in ten looks,
    the host refuses once and then runs the command. *)
Definition sample_escort : Escort :=
  mk_escort (Some "laptop") 0 sample_attempts 62000
    [(62000, false); (67000, false); (72000, false)]
    [mk_round false (mk_relay_try (Some "0.2.12") true (RRefused "executor unavailable")) 73000;
     mk_round false (mk_relay_try (Some "0.2.12") true (ROutcome (Some "executed"))) 79000].


(** A chat with a send rejected twice and a steer still queued. *)
Definition dead_send (id : string) (at_ms : Z) : SessionCommandEntry :=
  mk_command id (Run sample_request "m1") "me" at_ms None None Rejected (Some "attachments never arrived").

Definition queued_steer : SessionCommandEntry :=
  mk_command "c3" (Steer "go on" (Some "m2")) "me" 3 None None Pending None.

Definition sample_chat : Host :=
  mk_host [dead_send "c1" 1; dead_send "c2" 2; queued_steer] ["m0"] {["c1"; "c2"]} ∅ [].

Definition map_order (m : gmap string SessionCommandEntry) : list SessionCommandEntry := (map_to_list m).*2.

Fixpoint new_id (i : nat) : string := match i with O => "new" | S i => String (Ascii.ascii_of_nat 43) (new_id i) end.

Definition sample_fresh (i : nat) : string * Z := (new_id i, 100).

Definition retried_chat : Host :=
  (retry_delivery true "me" (Some "laptop") true true map_order sample_fresh sample_chat).1.1.

Lemma new_id_length i : String.length (new_id i) = (i + 3)%nat.
Proof. induction i as [|i IH]; [done|]. cbn. by rewrite IH. Qed.

Lemma new_id_inj i j : new_id i = new_id j -> i = j.
Proof. intros H. apply (f_equal String.length) in H. rewrite !new_id_length in H. lia. Qed.

Lemma retry_once_witness :
  commands retried_chat = commands sample_chat ++
    [fresh_entry "new" "me" 100 ["m0"] (Run sample_request "m1")] /\
  (retry_delivery true "me" (Some "laptop") true true map_order sample_fresh retried_chat).1.1 = retried_chat.
Proof.
  assert (Hids : NoDup (ids sample_chat)) by (vm_compute; repeat constructor; set_solver).
  assert (Hf : forall i, ~ (sample_fresh i).1 ∈ ids sample_chat /\ ~ (sample_fresh i).1 ∈ ledger sample_chat).
  { intros i. pose proof (new_id_length i) as Hl. cbn [sample_fresh fst]. split; intros H.
    - assert (new_id i = "c1" \/ new_id i = "c2" \/ new_id i = "c3") as Hc by (vm_compute in H; set_solver).
      destruct Hc as [E|[E|E]]; rewrite E in Hl; cbn in Hl; lia.
    - assert (new_id i = "c1" \/ new_id i = "c2") as Hc by (cbn [ledger sample_chat] in H; set_solver).
      destruct Hc as [E|E]; rewrite E in Hl; cbn in Hl; lia. }
  assert (Hk : one_kind sample_chat).
  { intros c c' m Hc Hc'. cbn in Hc, Hc'.
    assert (c = dead_send "c1" 1 \/ c = dead_send "c2" 2 \/ c = queued_steer) as Ec by set_solver.
    assert (c' = dead_send "c1" 1 \/ c' = dead_send "c2" 2 \/ c' = queued_steer) as Ec' by set_solver.
    destruct Ec as [-> |[-> | ->]], Ec' as [-> |[-> | ->]]; cbn; intros [= <-] [=]; reflexivity. }
  pose proof (retry_once true true "me" sample_fresh map_order (fun m => reflexivity _) sample_chat Hids Hf
    new_id_inj true (Some "laptop") Hk) as H.
  split; [vm_compute; reflexivity|].
  change (retry_delivery true "me" (Some "laptop") true true map_order sample_fresh sample_chat)
    with ((retried_chat, (retry_delivery true "me" (Some "laptop") true true map_order sample_fresh sample_chat).1.2,
           (retry_delivery true "me" (Some "laptop") true true map_order sample_fresh sample_chat).2)) in H.
  exact (proj2 (proj2 H) sample_fresh map_order (fun m => reflexivity _)).
Defined.

(** ** Limits *)

Section ExactCap.
Context {B64 : Base64} {Laws : Base64Laws B64}.

(** The upload check counts padding: a file of one or two bytes under the cap,
    or at it, is refused although the commit would take it. *)
Theorem exact_cap_refused now u upload_id bytes :
  staging_ok upload_id = true -> up_tmp u !! upload_id = None ->
  MAX_BYTES - 2 < byte_length bytes <= MAX_BYTES ->
  (append now u upload_id (b64_encode bytes) (Some 0)).1 = inl "Upload too large".
Proof.
  intros Hok Hu Hb. unfold append. rewrite Hok. cbn [negb default from_option id].
  assert (E : up_tmp (sweep_staging now u) !! upload_id = None) by (cbn; by rewrite map_lookup_filter, Hu).
  rewrite E. change (1000000 <? 0) with false. cbv iota.
  assert (Hs : staged_besides 0 (mk_staging now ∅) = 0) by (vm_compute; reflexivity).
  change (default (mk_staging now ∅) None) with (mk_staging now ∅). rewrite Hs.
  rewrite (proj2 (Z.ltb_lt MAX_BYTES _)); [done|]. unfold byte_length in *. rewrite encode_length.
  unfold MAX_BYTES in *. set (n := String.length bytes) in *.
  pose proof (Nat.Div0.div_mod (n + 2) 3) as Hdm. pose proof (Nat.mod_upper_bound (n + 2) 3 ltac:(lia)) as Hmod.
  rewrite Nat2Z.inj_mul. replace ((0 + Z.of_nat 4 * Z.of_nat ((n + 2) / 3)) * 3) with (3 * Z.of_nat ((n + 2) / 3) * 4) by lia.
  rewrite Z.div_mul by lia. lia.
Qed.
End ExactCap.

(** A commit does not know how many chunks the file has. One that runs late,
    after the file was committed and a retry has begun to stage it again,
    replaces the file by what is staged: a prefix. *)
Definition staged_two (u : UploadsInner) : UploadsInner :=
  (append 1 (append 0 u sample_id "TWFu" (Some 0)).2 sample_id "IE1h" (Some 1)).2.

Theorem late_commit_truncates :
  let u1 := (commit (staged_two sample_store) sample_id "x.png").2 in
  let u2 := (append 2 u1 sample_id "TWFu" (Some 0)).2 in
  let u3 := (commit u2 sample_id "x.png").2 in
  up_files u1 !! "abcd1234-x.png" = Some "Man Ma" /\ up_files u3 !! "abcd1234-x.png" = Some "Man".
Proof. split; vm_compute; reflexivity. Qed.

(** Committed names keep eight characters of the id: two uploads that share
    them and a file name share a file. *)
Theorem same_prefix_overwrites :
  let u1 := (commit (append 0 sample_store "abcd1234-1" "TWFu" (Some 0)).2 "abcd1234-1" "image.png").2 in
  let u2 := (commit (append 1 u1 "abcd1234-2" "IE1h" (Some 0)).2 "abcd1234-2" "image.png").2 in
  resolve_upload u1 (pending_ref "abcd1234-1" "image.png") = resolve_upload u2 (pending_ref "abcd1234-2" "image.png") /\
  up_files u1 !! "abcd1234-image.png" = Some "Man" /\ up_files u2 !! "abcd1234-image.png" = Some " Ma".
Proof. split_and!; vm_compute; reflexivity. Qed.

(** The delivery resolves the host anew at each attempt, the relay does not: a
    chat that became this device's own while its bytes were in transit is still
    relayed to the host it has left. *)
Definition moved_escort : Escort :=
  mk_escort (Some "laptop") 0 [mk_attempt (Some "me") true good_calls 1000] 1000 [(11000, false)]
    [mk_round false (mk_relay_try (Some "0.2.12") true (ROutcome (Some "executed"))) 12000].

Theorem relay_to_old_host :
  (spawn_command_delivery true true "me" (Some sender_store) sample_command (command_transfers sample_command)
     moved_escort sample_world).1 = Some (EndRelayed "executed") /\
  wo_events (spawn_command_delivery true true "me" (Some sender_store) sample_command
     (command_transfers sample_command) moved_escort sample_world).2 = [ERelay "laptop" "c1"].
Proof. split; vm_compute; reflexivity. Qed.

(** A message id dead as a run and as a steer: the live attempt a retry mints
    does not speak for the other kind, so every further retry sends again. *)
Definition two_kinds : Host :=
  mk_host [dead_send "c1" 1;
           mk_command "c2" (Steer "look" (Some "m1")) "me" 2 None None Rejected (Some "no run")] [] ∅ ∅ [].

Definition sample_fresh2 (i : nat) : string * Z := ("again" +:+ new_id i, 200).

Theorem two_kinds_sent_again :
  let h1 := (retry_delivery true "me" None true true map_order sample_fresh two_kinds).1.1 in
  let h2 := (retry_delivery true "me" None true true map_order sample_fresh2 h1).1.1 in
  length (filter (fun c => live true h1 c = true) (commands h1)) = 1%nat /\
  length (filter (fun c => live true h2 c = true) (commands h2)) = 2%nat.
Proof. split; vm_compute; reflexivity. Qed.

(** A failed read of the messages reads as none landed: a retry sends a message
    again that the transcript already holds. *)
Theorem unreadable_messages_resend :
  let h := mk_host [dead_send "c1" 1] ["m1"] ∅ ∅ [] in
  commands (retry_delivery true "me" None true true map_order sample_fresh h).1.1 = commands h /\
  length (commands (retry_delivery true "me" None true false map_order sample_fresh h).1.1) = 2%nat.
Proof. split; vm_compute; reflexivity. Qed.
