(* ===== verification/DocHost.v ===== *)
(** The warm documents and the connectivity of crates/engine/src/doc_host.rs:
    what pins an open document, the eviction of the others over budget, and the
    show-slow, hide-fast posture the interface watches.

    A handle keeps what eviction reads of it: its last access, the size of its
    snapshot, how many watch its messages, how many hold its document, and its
    commands ([None]: unreadable). Eviction gives its locks back between two
    candidates, so other tasks may change the handles there: [env] says how.
    [clock] gives the time at each candidate. Times are milliseconds. *)
From S2P Require Import Prelude Json Text Agent Commands.

Definition WARM_DOC_CAP : nat := 12.
Definition DOC_LRU_BYTE_BUDGET : Z := 80 * 1024 * 1024.
Definition RESIDENT_BYTES_PER_SNAPSHOT_BYTE : Z := 6.
Definition DOC_RESIDENT_FLOOR_BYTES : Z := 512 * 1024.
Definition EVICT_MIN_IDLE_MS : Z := 30000.

Record ChatDocHandle := mk_handle {
  dh_last_access : Z;
  dh_snapshot_bytes : Z;
  dh_watchers : nat;
  dh_doc_refs : nat;
  dh_commands : option (list SessionCommandEntry);
}.

Definition resident_estimate (h : ChatDocHandle) : Z :=
  Z.max (dh_snapshot_bytes h * RESIDENT_BYTES_PER_SNAPSHOT_BYTE) DOC_RESIDENT_FLOOR_BYTES.

(** [touch], under the map lock of [open]. *)
Definition touch (now : Z) (h : ChatDocHandle) : ChatDocHandle :=
  mk_handle now (dh_snapshot_bytes h) (dh_watchers h) (dh_doc_refs h) (dh_commands h).

Section Eviction.
Context (is_host : string -> bool) (is_processed : string -> bool).

(** Commands the host owes work; an unreadable ledger counts. *)
Definition owes_work (chat : string) (h : ChatDocHandle) : bool :=
  is_host chat &&
  match dh_commands h with
  | Some l => existsb (fun c => is_pending c && negb (is_processed (ce_id c))) l
  | None => true
  end.

(** The handle itself holds one reference. *)
Definition seed_blocked (chat : string) (h : ChatDocHandle) : bool :=
  (1 <? dh_doc_refs h)%nat || owes_work chat h.

Definition pinned (chat : string) (h : ChatDocHandle) : bool :=
  (0 <? dh_watchers h)%nat || (1 <? dh_doc_refs h)%nat || owes_work chat h.

Notation handles := (gmap string ChatDocHandle).

Definition resident (hs : handles) : Z :=
  foldr (fun p n => resident_estimate p.2 + n) 0 (map_to_list hs).

Definition within_budget (hs : handles) : bool :=
  (size hs <=? WARM_DOC_CAP)%nat && (resident hs <=? DOC_LRU_BYTE_BUDGET).

(** The order of Rust's pairs. *)
Definition age_le (p q : Z * string) : Prop := p.1 < q.1 \/ p.1 = q.1 /\ string_le p.2 q.2.

#[export] Instance age_le_dec p q : Decision (age_le p q).
Proof. unfold age_le. apply _. Defined.

Definition by_age (hs : handles) : list (Z * string) :=
  merge_sort age_le ((fun p => (dh_last_access p.2, p.1)) <$> map_to_list hs).

Context (env : nat -> handles -> handles) (clock : nat -> Z).

(** The loop over the ages read at its start; the second result lists the final
    snapshots saved. *)
Fixpoint evict_loop (k : nat) (ages : list (Z * string)) (hs : handles) (saved : list string)
    : handles * list string :=
  match ages with
  | [] => (hs, saved)
  | (last_access, chat) :: ages =>
      let hs := env k hs in
      if clock k - last_access <? EVICT_MIN_IDLE_MS then (hs, saved)
      else if within_budget hs then (hs, saved)
      else
        match hs !! chat with
        | Some h =>
            if pinned chat h then evict_loop (S k) ages hs saved
            else evict_loop (S k) ages (delete chat hs) (saved ++ [chat])
        | None => evict_loop (S k) ages hs saved
        end
  end.

Definition evict_over_budget (hs : handles) : handles * list string := evict_loop 0 (by_age hs) hs [].
End Eviction.

(** ** Connectivity *)

Definition DEGRADE_GRACE : Z := 4000.

Inductive GraceKey := OsPath | Registry | Chat (id : string).

#[export] Instance GraceKey_eq_dec : EqDecision GraceKey.
Proof. solve_decision. Defined.

Record DegradeGrace := mk_grace {
  dg_os_path : option Z;
  dg_registry : option Z;
  dg_chats : gmap string Z;
}.

Definition grace_default : DegradeGrace := mk_grace None None ∅.

(** [duration_since] saturates. *)
Definition persisted (since now : Z) : bool := DEGRADE_GRACE <=? Z.max 0 (now - since).

Definition slot_degraded (slot : option Z) (raw : bool) (now : Z) : bool * option Z :=
  if raw then let since := default now slot in (persisted since now, Some since) else (false, None).

(** [DegradeGrace::degraded] *)
Definition degraded (g : DegradeGrace) (key : GraceKey) (raw : bool) (now : Z) : bool * DegradeGrace :=
  match key with
  | OsPath =>
      let '(r, s) := slot_degraded (dg_os_path g) raw now in (r, mk_grace s (dg_registry g) (dg_chats g))
  | Registry =>
      let '(r, s) := slot_degraded (dg_registry g) raw now in (r, mk_grace (dg_os_path g) s (dg_chats g))
  | Chat id =>
      let chats := if raw && negb (bool_decide (is_Some (dg_chats g !! id))) then <[id := now]> (dg_chats g)
                   else dg_chats g in
      match chats !! id with
      | Some since =>
          if raw then (persisted since now, mk_grace (dg_os_path g) (dg_registry g) chats)
          else (false, mk_grace (dg_os_path g) (dg_registry g) (delete id chats))
      | None => (false, mk_grace (dg_os_path g) (dg_registry g) chats)
      end
  end.

Definition retain_chats (g : DegradeGrace) (keep : string -> bool) : DegradeGrace :=
  mk_grace (dg_os_path g) (dg_registry g) (filter (fun p => keep p.1 = true) (dg_chats g)).

Inductive ConnectivityState := Disabled | Offline | Reconnecting | Connected.

Record ChatConnectivity := mk_chat_conn { cc_chat_id : string; cc_connected : bool; cc_pending_pushes : Z }.

Record Connectivity := mk_connectivity {
  cn_state : ConnectivityState;
  cn_retry_at_ms : Z;
  cn_last_failure : option string;
  cn_chats : list ChatConnectivity;
}.

(** What one snapshot reads: each open chat's room ([None]: still dialing), the
    reconnect state, the registry's room, the OS path. *)
Record Signals := mk_signals {
  sg_edge_expected : bool;
  sg_statuses : list (string * option (bool * Z));
  sg_reconnect : option (Z * option string);
  sg_registry_connected : bool;
  sg_path_offline : bool;
}.

Fixpoint chat_postures (g : DegradeGrace) (now : Z) (l : list (string * option (bool * Z)))
    : DegradeGrace * list ChatConnectivity :=
  match l with
  | [] => (g, [])
  | (chat, stats) :: l =>
      let '(connected, pending_pushes) := default (false, 0) stats in
      let '(down, g) := degraded g (Chat chat) (negb connected) now in
      let '(g, rest) := chat_postures g now l in
      (g, mk_chat_conn chat (negb down) pending_pushes :: rest)
  end.

(** [compute_connectivity] *)
Definition compute_connectivity (g : DegradeGrace) (s : Signals) (now : Z) : Connectivity * DegradeGrace :=
  if negb (sg_edge_expected s) then (mk_connectivity Disabled 0 None [], g)
  else
    let g := retain_chats g (fun id => existsb (fun p => String.eqb p.1 id) (sg_statuses s)) in
    let '(g, chats) := chat_postures g now (sg_statuses s) in
    let '(path_offline, g) := degraded g OsPath (sg_path_offline s) now in
    let '(registry_down, g) := degraded g Registry (negb (sg_registry_connected s)) now in
    let '(state, retry_at_ms, last_failure) :=
      if path_offline then (Offline, 0, sg_reconnect s ≫= snd)
      else if negb registry_down then (Connected, 0, None)
      else let reconnect := default (0, None) (sg_reconnect s) in (Reconnecting, reconnect.1, reconnect.2) in
    (mk_connectivity state retry_at_ms last_failure chats, g).

#[export] Instance ConnectivityState_eq_dec : EqDecision ConnectivityState.
Proof. solve_decision. Defined.
#[export] Instance ChatConnectivity_eq_dec : EqDecision ChatConnectivity.
Proof. solve_decision. Defined.
#[export] Instance Connectivity_eq_dec : EqDecision Connectivity.
Proof. solve_decision. Defined.

(** The monitor of [watch_connectivity]: a snapshot a second, published when it
    differs from the current one. *)
Fixpoint monitor (g : DegradeGrace) (current : Connectivity) (samples : list (Signals * Z)) : list Connectivity :=
  match samples with
  | [] => []
  | (s, now) :: samples =>
      let '(next, g) := compute_connectivity g s now in
      if decide (current = next) then monitor g current samples else next :: monitor g next samples
  end.

(** ** Eviction *)

Section EvictionProof.
Context (is_host : string -> bool) (is_processed : string -> bool) (clock : nat -> Z).

Notation pinned := (pinned is_host is_processed).
Notation handles := (gmap string ChatDocHandle).

#[export] Instance age_le_total : Total age_le.
Proof.
  intros p q. unfold age_le. destruct (Z.lt_trichotomy p.1 q.1) as [H|[H|H]].
  - left. by left.
  - destruct (total string_le p.2 q.2) as [?|?]; [left|right]; by right.
  - right. by left.
Qed.

#[export] Instance age_le_trans : Transitive age_le.
Proof.
  intros p q r [H1|[H1 H1']] [H2|[H2 H2']]; [left; lia..|]. right. split; [lia|by etrans].
Qed.

Lemma by_age_sorted hs : StronglySorted age_le (by_age hs).
Proof. apply StronglySorted_merge_sort; apply _. Qed.

Lemma elem_of_by_age hs t chat :
  (t, chat) ∈ by_age hs <-> exists h, hs !! chat = Some h /\ dh_last_access h = t.
Proof.
  unfold by_age. rewrite merge_sort_Permutation, list_elem_of_fmap. split.
  - intros ([c h] & [= -> ->] & H%elem_of_map_to_list). by exists h.
  - intros (h & H & <-). exists (chat, h). split; [done|]. by apply elem_of_map_to_list.
Qed.

Definition evictable (hs : handles) (chat : string) : bool :=
  match hs !! chat with Some h => negb (pinned chat h) | None => false end.

Lemma foldr_delete_lookup (hs : handles) gone c :
  foldr delete hs gone !! c = if decide (c ∈ gone) then None else hs !! c.
Proof.
  induction gone as [|x gone IH]; [done|]. cbn [foldr]. destruct (decide (c = x)) as [-> |Hne].
  - rewrite lookup_delete_eq, decide_True by by left. done.
  - rewrite lookup_delete_ne, IH by done. destruct (decide (c ∈ gone)).
    + by rewrite decide_True by by right.
    + rewrite decide_False; [done|]. by intros [?|?]%elem_of_cons.
Qed.

(** Eviction walks a prefix of the ages and drops the unpinned of it; it stops
    within budget, at the first young age, or at the end. *)
Lemma evict_loop_spec k ages hs saved hs' saved' :
  NoDup ages.*2 ->
  evict_loop is_host is_processed (fun _ hs => hs) clock k ages hs saved = (hs', saved') ->
  exists pre post gone,
    ages = pre ++ post /\ gone = filter (fun c => evictable hs c = true) pre.*2 /\
    saved' = saved ++ gone /\ hs' = foldr delete hs gone /\
    Forall (fun p => exists j, EVICT_MIN_IDLE_MS <= clock j - p.1) pre /\
    (within_budget hs' = true \/ post = [] \/
     exists t p post', post = p :: post' /\ t - p.1 < EVICT_MIN_IDLE_MS).
Proof.
  revert k hs saved. induction ages as [|[la chat] ages IH]; intros k hs saved Hnd; cbn [evict_loop].
  { intros [= <- <-]. exists [], [], []. rewrite (app_nil_r saved).
    split_and!; [done..|constructor|by right; left]. }
  rewrite fmap_cons in Hnd. apply NoDup_cons in Hnd as [Hc Hnd].
  destruct (Z.ltb_spec (clock k - la) EVICT_MIN_IDLE_MS) as [Hy|Hold].
  { intros [= <- <-]. exists [], ((la, chat) :: ages), []. rewrite (app_nil_r saved).
    split_and!; [done..|constructor|]. right; right. by eexists (clock k), (la, chat), ages. }
  destruct (within_budget hs) eqn:Eb.
  { intros [= <- <-]. exists [], ((la, chat) :: ages), []. rewrite (app_nil_r saved).
    split_and!; [done..|constructor|by left]. }
  match goal with |- _ -> ?G => assert (Hskip : evictable hs chat = false ->
    evict_loop is_host is_processed (fun _ hs => hs) clock (S k) ages hs saved = (hs', saved') -> G) end.
  { intros He Hl. destruct (IH _ _ _ Hnd Hl) as (pre & post & gone & -> & Hg & E1 & E2 & Hi & Hb).
    exists ((la, chat) :: pre), post, gone. split_and!; [done| |done|done| |done].
    - rewrite fmap_cons, filter_cons_False; [done|]. cbn. by rewrite He.
    - constructor; [by exists k|done]. }
  unfold evictable in Hskip. destruct (hs !! chat) as [h|] eqn:Hh; [|by apply Hskip].
  destruct (pinned chat h) eqn:Ep; [by apply Hskip|]. clear Hskip. intros Hl.
  destruct (IH _ _ _ Hnd Hl) as (pre & post & gone & -> & Hg & E1 & E2 & Hi & Hb).
  exists ((la, chat) :: pre), post, (chat :: gone). split_and!.
  - done.
  - assert (He : evictable hs chat = true) by (unfold evictable; by rewrite Hh, Ep).
    rewrite fmap_cons, filter_cons_True by done. f_equal. rewrite Hg.
    rewrite fmap_app in Hc. apply not_elem_of_app in Hc as [Hc _]. revert Hc.
    generalize (pre.*2). intros l. induction l as [|c l IHl]; intros Hcl; [done|].
    apply not_elem_of_cons in Hcl as [Hne Hcl]. rewrite !filter_cons, IHl by done.
    unfold evictable. by rewrite lookup_delete_ne by done.
  - by rewrite E1, <- app_assoc.
  - rewrite E2. apply map_eq. intros c. rewrite !foldr_delete_lookup.
    destruct (decide (c = chat)) as [-> |Hne].
    + rewrite lookup_delete_eq. destruct (decide (chat ∈ chat :: gone)) as [_|H]; [|by destruct H; left].
      by destruct (decide (chat ∈ gone)).
    + rewrite lookup_delete_ne by done. destruct (decide (c ∈ gone)).
      * by rewrite decide_True by by right.
      * rewrite decide_False; [done|]. by intros [?|?]%elem_of_cons.
  - constructor; [by exists k|done].
  - done.
Qed.

(** C30. Eviction is safe, least recent first, and ends only for a reason. With
    no other task in between, a pass removes exactly the documents it saved a
    final snapshot of; none of them is watched, held by a writer or owed work by
    this host, and each had been idle for thirty seconds. No unpinned document
    that stays is older than one that went. And afterwards the warm set is
    within its count and byte budgets, or every document left is pinned or was
    touched in the last thirty seconds. *)
Theorem evict_spec hs hs' saved :
  evict_over_budget is_host is_processed (fun _ hs => hs) clock hs = (hs', saved) ->
  (forall c, hs' !! c = if decide (c ∈ saved) then None else hs !! c) /\
  (forall c, c ∈ saved -> exists j h, hs !! c = Some h /\ pinned c h = false /\
     EVICT_MIN_IDLE_MS <= clock j - dh_last_access h) /\
  (forall c h b hb, c ∈ saved -> hs !! c = Some h -> hs' !! b = Some hb -> pinned b hb = false ->
     age_le (dh_last_access h, c) (dh_last_access hb, b)) /\
  (within_budget hs' = true \/
   exists t, forall c h, hs' !! c = Some h -> pinned c h = true \/ t - dh_last_access h < EVICT_MIN_IDLE_MS).
Proof.
  intros He.
  assert (Hnd : NoDup (by_age hs).*2).
  { unfold by_age. rewrite merge_sort_Permutation, <- list_fmap_compose. apply NoDup_fst_map_to_list. }
  destruct (evict_loop_spec _ _ _ _ _ _ Hnd He) as (pre & post & gone & Ea & Hg & -> & -> & Hi & Hb).
  cbn [app]. pose proof (by_age_sorted hs) as Hs. rewrite Ea in Hs.
  assert (Hgone : forall c, c ∈ gone <-> exists t, (t, c) ∈ pre /\ evictable hs c = true).
  { intros c. rewrite Hg, list_elem_of_filter, list_elem_of_fmap. split.
    - intros [H ([t x] & -> & Hx)]. by exists t.
    - intros (t & Hx & H). split; [done|]. by exists (t, c). }
  assert (Hage : forall t c, (t, c) ∈ pre \/ (t, c) ∈ post -> exists h, hs !! c = Some h /\ dh_last_access h = t).
  { intros t c H. apply elem_of_by_age. rewrite Ea. by apply elem_of_app. }
  assert (Hleft : forall c h, foldr delete hs gone !! c = Some h -> hs !! c = Some h /\
    (pinned c h = true \/ (dh_last_access h, c) ∈ post)).
  { intros c h. rewrite foldr_delete_lookup. destruct (decide (c ∈ gone)) as [|Hn]; [done|]. intros Hc.
    split; [done|]. destruct (pinned c h) eqn:Ep; [by left|right].
    assert (Hin : (dh_last_access h, c) ∈ by_age hs) by (apply elem_of_by_age; by exists h).
    rewrite Ea in Hin. apply elem_of_app in Hin as [Hin|]; [|done]. destruct Hn. apply Hgone.
    exists (dh_last_access h). split; [done|]. unfold evictable. by rewrite Hc, Ep. }
  split_and!.
  - intros c. apply foldr_delete_lookup.
  - intros c (t & Hin & Hev)%Hgone. destruct (Hage t c) as (h & Hh & <-); [by left|].
    destruct (proj1 (Forall_forall _ _) Hi _ Hin) as [j Hj]. exists j, h. split_and!; [done| |done].
    unfold evictable in Hev. rewrite Hh in Hev. by destruct (pinned c h).
  - intros c h b hb (t & Hin & _)%Hgone Hh Hb' Hp. destruct (Hage t c) as (h' & Hh' & <-); [by left|].
    assert (h' = h) as -> by congruence. destruct (Hleft b hb Hb') as [_ [?|Hpost]]; [congruence|].
    apply StronglySorted_app in Hs as (Hcross & _ & _). by apply Hcross.
  - destruct Hb as [?|[-> |(t & p & post' & -> & Ht)]]; [by left|right; exists 0|right; exists t].
    + intros c h Hc. destruct (Hleft c h Hc) as [_ [?|H]]; [by left|by apply elem_of_nil in H].
    + intros c h Hc. destruct (Hleft c h Hc) as [_ [?|H]]; [by left|right].
      apply StronglySorted_app in Hs as (_ & _ & Hpost). inversion_clear Hpost as [|? ? _ Hle].
      apply elem_of_cons in H as [<-|H]; [done|].
      destruct (proj1 (Forall_forall _ _) Hle _ H) as [?|[? _]]; cbn in *; lia.
Qed.
End EvictionProof.

(** The ages are read once: a document another task opens while the pass runs
    is still evicted at its old age, before its opener can watch it. *)
Definition big_doc (at_ms : Z) : ChatDocHandle := mk_handle at_ms (80 * 1024 * 1024) 0 1 (Some []).

Theorem opened_doc_evicted :
  let hs := <["a" := big_doc 0]> {["b" := big_doc 1]} in
  let env := fun k hs => if (k =? 1)%nat then alter (touch 60000) "b" hs else hs in
  let r := evict_over_budget (fun _ => true) (fun _ => false) env (fun _ => 60000) hs in
  r.2 = ["a"; "b"] /\ r.1 = ∅.
Proof. split; vm_compute; reflexivity. Qed.

(** ** Connectivity *)

(** A source's timer. *)
Definition timer (g : DegradeGrace) (key : GraceKey) : option Z :=
  match key with OsPath => dg_os_path g | Registry => dg_registry g | Chat id => dg_chats g !! id end.

Definition shown (t : option Z) (now : Z) : bool :=
  match t with Some since => persisted since now | None => false end.

Lemma persisted_now now : persisted now now = false.
Proof. unfold persisted. by rewrite Z.sub_diag. Qed.

(** One sample: the timer runs from the first degraded one, a healthy one clears
    it at once, the other sources are untouched. *)
Lemma degraded_spec g key raw now :
  let '(r, g') := degraded g key raw now in
  timer g' key = (if raw then Some (default now (timer g key)) else None) /\
  r = shown (timer g' key) now /\ (forall k, k <> key -> timer g' k = timer g k).
Proof.
  destruct key as [| |id]; cbn [degraded].
  - unfold slot_degraded. destruct raw; cbn; split_and!; [done..|by intros []|done|done|by intros []].
  - unfold slot_degraded. destruct raw; cbn; split_and!; [done..|by intros []|done|done|by intros []].
  - destruct raw; cbn [andb].
    + destruct (dg_chats g !! id) as [since|] eqn:E.
      * rewrite bool_decide_true by by eexists. cbn [negb]. rewrite E. cbn. rewrite E. by split_and!.
      * rewrite bool_decide_false by by intros [? ?]. cbn [negb]. rewrite lookup_insert_eq. cbn.
        rewrite E, lookup_insert_eq. split_and!; [done|done|]. intros [| |k] Hk; [done..|]. cbn.
        apply lookup_insert_ne. congruence.
    + destruct (dg_chats g !! id) as [since|] eqn:E; cbn.
      * rewrite lookup_delete_eq. split_and!; [done|done|]. intros [| |k] Hk; [done..|]. cbn.
        apply lookup_delete_ne. congruence.
      * rewrite E. by split_and!.
Qed.

(** How a source reads in a snapshot; [None]: a chat that is not open. *)
Definition raw_of (key : GraceKey) (s : Signals) : option bool :=
  match key with
  | OsPath => Some (sg_path_offline s)
  | Registry => Some (negb (sg_registry_connected s))
  | Chat id => (fun p => negb (default (false, 0) p.2).1) <$> List.find (fun p => String.eqb p.1 id) (sg_statuses s)
  end.

(** Since when a source has been degraded in every sample, the last included. *)
Definition since_step (key : GraceKey) (t : option Z) (x : Signals * Z) : option Z :=
  match raw_of key x.1 with Some true => Some (default x.2 t) | _ => None end.

Definition degraded_since (key : GraceKey) (samples : list (Signals * Z)) : option Z :=
  foldl (since_step key) None samples.

Lemma degraded_since_spec key samples s :
  degraded_since key samples = Some s <->
  exists pre x post, samples = pre ++ x :: post /\ x.2 = s /\
    Forall (fun y => raw_of key y.1 = Some true) (x :: post) /\
    (forall y, last pre = Some y -> raw_of key y.1 <> Some true).
Proof.
  unfold degraded_since. revert s. induction samples as [|x samples IH] using rev_ind; intros s.
  { split; [done|]. intros ([|] & ? & ? & ? & _); done. }
  rewrite foldl_snoc. unfold since_step at 1. destruct (decide (raw_of key x.1 = Some true)) as [Ex|Ex].
  - rewrite Ex. destruct (foldl (since_step key) None samples) as [t|] eqn:Et; cbn [default from_option id].
    + split.
      * intros [= <-]. destruct (proj1 (IH t) eq_refl) as (pre & y & post & -> & Hy & Hf & Hl).
        exists pre, y, (post ++ [x]). rewrite <- app_assoc. split_and!; [done|done| |done].
        change (Forall (fun y => raw_of key y.1 = Some true) ((y :: post) ++ [x])). apply Forall_app. auto.
      * intros (pre & y & post & E & Hy & Hf & Hl). f_equal.
        destruct post as [|z post _] using rev_ind.
        -- apply app_inj_tail in E as [-> <-]. destruct (proj1 (IH t) eq_refl) as (pre' & z & post & Ez & _ & Hf' & _).
           exfalso. destruct (last (z :: post)) as [w|] eqn:Ew; [|by apply last_None in Ew].
           apply (Hl w); [by rewrite Ez, last_app, Ew|].
           apply (proj1 (Forall_forall _ _) Hf'). by apply last_Some_elem_of in Ew.
        -- rewrite app_comm_cons, app_assoc in E. apply app_inj_tail in E as [E <-].
           assert (Some t = Some s) as [= ->]; [|done]. rewrite <- (proj2 (IH s)) at 1; [done|].
           exists pre, y, post. split_and!; [done|done| |done]. rewrite app_comm_cons in Hf. by apply Forall_app in Hf as [? _].
    + split.
      * intros [= <-]. exists samples, x, []. split_and!; [done|done|by repeat constructor|].
        intros y Hy Hr. destruct (exists_last (l := samples)) as (l & z & ->); [by intros ->|].
        rewrite last_snoc in Hy. injection Hy as ->. rewrite foldl_snoc in Et. unfold since_step at 1 in Et.
        by rewrite Hr in Et.
      * intros (pre & y & post & E & Hy & Hf & Hl). f_equal.
        destruct post as [|z post _] using rev_ind; [apply app_inj_tail in E as [_ ->]; done|].
        rewrite app_comm_cons, app_assoc in E. apply app_inj_tail in E as [E <-]. exfalso.
        enough (None = Some s) by done. apply (IH s).
        exists pre, y, post. split_and!; [done|done| |done]. rewrite app_comm_cons in Hf. by apply Forall_app in Hf as [? _].
  - assert (En : (match raw_of key x.1 with Some true => Some (default x.2 (foldl (since_step key) None samples))
                  | _ => None end) = None) by (destruct (raw_of key x.1) as [[]|]; done).
    rewrite En. split; [done|]. intros (pre & y & post & E & Hy & Hf & Hl). exfalso.
    destruct post as [|z post _] using rev_ind.
    + apply app_inj_tail in E as [_ ->]. by inversion Hf.
    + rewrite app_comm_cons, app_assoc in E. apply app_inj_tail in E as [_ ->]. rewrite app_comm_cons in Hf.
      apply Forall_app in Hf as [_ Hf]. by inversion Hf.
Qed.

Lemma find_status l id :
  NoDup l.*1 -> forall st, (id, st) ∈ l -> List.find (fun p : string * option (bool * Z) => String.eqb p.1 id) l = Some (id, st).
Proof.
  intros Hnd st. induction l as [|[c x] l IH]; [by intros ?%elem_of_nil|]. rewrite fmap_cons in Hnd.
  apply NoDup_cons in Hnd as [Hc Hnd]. cbn. intros [[= -> ->]|Hin]%elem_of_cons; [by rewrite String.eqb_refl|].
  destruct (String.eqb_spec c id) as [->|_]; [|by apply IH].
  destruct Hc. by apply (list_elem_of_fmap_2 fst) in Hin.
Qed.

Lemma find_status_none l id :
  ~ id ∈ l.*1 -> List.find (fun p : string * option (bool * Z) => String.eqb p.1 id) l = None.
Proof.
  intros H. destruct (List.find _ l) as [[c x]|] eqn:E; [|done]. apply find_some in E as [Hin E].
  apply String.eqb_eq in E. cbn in E. subst. destruct H. apply list_elem_of_In in Hin.
  by apply (list_elem_of_fmap_2 fst) in Hin.
Qed.

Definition chat_raw (st : option (bool * Z)) : bool := negb (default (false, 0) st).1.

Lemma chat_postures_spec g now l :
  NoDup l.*1 ->
  let '(g', rest) := chat_postures g now l in
  (forall k, (forall id, id ∈ l.*1 -> k <> Chat id) -> timer g' k = timer g k) /\
  (forall id st, (id, st) ∈ l ->
     timer g' (Chat id) = if chat_raw st then Some (default now (timer g (Chat id))) else None) /\
  rest = (fun p => mk_chat_conn p.1 (negb (shown (timer g' (Chat p.1)) now)) (default (false, 0) p.2).2) <$> l.
Proof.
  revert g. induction l as [|[c st] l IH]; intros g Hnd.
  { split_and!; [done| |done]. intros id st H. by apply elem_of_nil in H. }
  rewrite fmap_cons in Hnd. apply NoDup_cons in Hnd as [Hc Hnd]. cbn [chat_postures].
  destruct (default (false, 0) st) as [connected pushes] eqn:Est.
  pose proof (degraded_spec g (Chat c) (negb connected) now) as Hd.
  destruct (degraded g (Chat c) (negb connected) now) as [down g1]. destruct Hd as (Ht & Hr & Hk).
  specialize (IH g1 Hnd). destruct (chat_postures g1 now l) as [g2 rest]. destruct IH as (IHk & IHl & ->).
  assert (Hc2 : timer g2 (Chat c) = timer g1 (Chat c)).
  { apply IHk. intros id Hid [= ->]. done. }
  split_and!.
  - intros k Hkl. rewrite IHk by (intros id Hid; apply Hkl; by right). apply Hk. apply Hkl. by left.
  - intros id st' [[= -> ->]|Hin]%elem_of_cons.
    + rewrite Hc2, Ht. unfold chat_raw. by rewrite Est.
    + rewrite (IHl id st' Hin), Hk; [done|]. intros [= ->]. apply Hc. by apply (list_elem_of_fmap_2 fst) in Hin.
  - rewrite fmap_cons. cbn [fst snd]. by rewrite Hc2, <- Hr, Est.
Qed.

(** A snapshot in which rooms are expected and each open chat appears once. *)
Definition proper (s : Signals) : Prop := sg_edge_expected s = true /\ NoDup (sg_statuses s).*1.

Lemma compute_spec g s now :
  proper s ->
  let '(c, g') := compute_connectivity g s now in
  (forall key, timer g' key = since_step key (timer g key) (s, now)) /\
  cn_state c = (if shown (timer g' OsPath) now then Offline
                else if shown (timer g' Registry) now then Reconnecting else Connected) /\
  cn_chats c = (fun p => mk_chat_conn p.1 (negb (shown (timer g' (Chat p.1)) now)) (default (false, 0) p.2).2)
                 <$> sg_statuses s.
Proof.
  intros [He Hnd]. unfold compute_connectivity. rewrite He. cbn [negb].
  set (g0 := retain_chats g _).
  pose proof (chat_postures_spec g0 now (sg_statuses s) Hnd) as Hc.
  destruct (chat_postures g0 now (sg_statuses s)) as [g1 chats]. destruct Hc as (Hk & Hl & ->).
  pose proof (degraded_spec g1 OsPath (sg_path_offline s) now) as Ho.
  destruct (degraded g1 OsPath (sg_path_offline s) now) as [path_offline g2]. destruct Ho as (Ho1 & Ho2 & Ho3).
  pose proof (degraded_spec g2 Registry (negb (sg_registry_connected s)) now) as Hr.
  destruct (degraded g2 Registry (negb (sg_registry_connected s)) now) as [registry_down g3]. destruct Hr as (Hr1 & Hr2 & Hr3).
  assert (Ht : forall key, timer g3 key = since_step key (timer g key) (s, now)).
  { intros [| |id]; unfold since_step; cbn [raw_of fst snd].
    - rewrite Hr3, Ho1, Hk by done. by destruct (sg_path_offline s).
    - rewrite Hr1, Ho3, Hk by done. by destruct (sg_registry_connected s).
    - rewrite Hr3, Ho3 by done. destruct (decide (id ∈ (sg_statuses s).*1)) as [Hin|Hin].
      + apply list_elem_of_fmap in Hin as ([c st] & -> & Hin). cbn [fst]. rewrite (Hl c st Hin).
        rewrite (find_status _ c Hnd st Hin). unfold chat_raw.
        cbn [fmap option_fmap option_map snd].
        assert (Hg0 : timer g0 (Chat c) = timer g (Chat c)).
        { subst g0. cbn. rewrite map_lookup_filter. destruct (dg_chats g !! c); cbn; [|done].
          rewrite option_guard_True; [done|]. apply existsb_exists. exists (c, st).
          split; [by apply list_elem_of_In|apply String.eqb_refl]. }
        rewrite Hg0. by destruct (negb _).
      + rewrite find_status_none by done. cbn [fmap option_fmap option_map]. rewrite Hk by (intros i Hi [= ->]; done).
        subst g0. cbn. apply map_lookup_filter_None. right. intros x _ H.
        apply existsb_exists in H as (p & Hp & E%String.eqb_eq). cbn in E. apply Hin. rewrite <- E.
        by apply list_elem_of_fmap_2, list_elem_of_In. }
  assert (Hpath : path_offline = shown (timer g3 OsPath) now) by (rewrite Hr3 by done; exact Ho2).
  assert (Hchats : forall id, timer g3 (Chat id) = timer g1 (Chat id)) by (intros id; by rewrite Hr3, Ho3 by done).
  destruct path_offline; [|destruct registry_down]; cbn [negb];
    (split_and!; [exact Ht | cbn [cn_state]; rewrite <- Hpath, <- ?Hr2; reflexivity
                 | cbn [cn_chats]; apply list_fmap_ext; intros i p _; by rewrite Hchats]).
Qed.

(** The timers after a run of snapshots. *)
Definition grace_after (samples : list (Signals * Z)) : DegradeGrace :=
  foldl (fun g x => (compute_connectivity g x.1 x.2).2) grace_default samples.

Lemma grace_after_spec samples key :
  Forall (fun x => proper x.1) samples -> timer (grace_after samples) key = degraded_since key samples.
Proof.
  unfold grace_after, degraded_since. induction samples as [|[s now] samples IH] using rev_ind; intros H.
  { by destruct key. }
  apply Forall_app in H as [H Hx]. inversion_clear Hx as [|? ? Hp _]. rewrite !foldl_snoc. cbn [fst snd].
  pose proof (compute_spec (foldl (fun g x => (compute_connectivity g x.1 x.2).2) grace_default samples) s now Hp) as Hc.
  destruct (compute_connectivity _ s now) as [c g']. destruct Hc as [Hc _]. cbn [snd].
  rewrite Hc. f_equal. exact (IH H).
Qed.

(** The posture is slow to show and fast to hide, exactly. After any run of
    snapshots, the next one reports the OS path, else the registry, else
    nothing, as down precisely when that source has been degraded in every
    snapshot since one at least four seconds ago, and reports each open chat as
    disconnected precisely when its room has been down, and the chat open, in
    every snapshot since one at least four seconds ago. So a single healthy
    sample clears a report at once, and no outage under four seconds shows. *)
Theorem posture_exact samples s now :
  Forall (fun x => proper x.1) samples -> proper s ->
  let c := (compute_connectivity (grace_after samples) s now).1 in
  let down key := shown (degraded_since key (samples ++ [(s, now)])) now in
  cn_state c = (if down OsPath then Offline else if down Registry then Reconnecting else Connected) /\
  (forall id st, (id, st) ∈ sg_statuses s ->
     mk_chat_conn id (negb (down (Chat id))) (default (false, 0) st).2 ∈ cn_chats c) /\
  (forall key, down key = true <->
     exists pre x post, samples ++ [(s, now)] = pre ++ x :: post /\
       Forall (fun y => raw_of key y.1 = Some true) (x :: post) /\
       (forall y, last pre = Some y -> raw_of key y.1 <> Some true) /\ DEGRADE_GRACE <= now - x.2).
Proof.
  intros Hs Hp c down.
  pose proof (compute_spec (grace_after samples) s now Hp) as Hc. subst c.
  destruct (compute_connectivity (grace_after samples) s now) as [c g']. destruct Hc as (Ht & Hst & Hch).
  assert (Hd : forall key, timer g' key = degraded_since key (samples ++ [(s, now)])).
  { intros key. rewrite Ht, grace_after_spec by done. unfold degraded_since. by rewrite foldl_snoc. }
  cbn [fst]. split_and!.
  - rewrite Hst. subst down. by rewrite !Hd.
  - intros id st Hin. rewrite Hch. subst down. cbv beta. rewrite <- Hd.
    exact (list_elem_of_fmap_2 (fun p => mk_chat_conn p.1 (negb (shown (timer g' (Chat p.1)) now)) (default (false, 0) p.2).2)
      _ (id, st) Hin).
  - intros key. subst down. cbv beta. unfold shown, persisted.
    destruct (degraded_since key (samples ++ [(s, now)])) as [t|] eqn:E.
    + rewrite Z.leb_le. destruct (proj1 (degraded_since_spec key _ t) E) as (pre & x & post & E1 & E2 & Hf & Hl).
      split.
      * intros H. exists pre, x, post. split_and!; [done..|]. rewrite E2. unfold DEGRADE_GRACE in *. lia.
      * intros (pre' & x' & post' & E1' & Hf' & Hl' & H).
        assert (Some x'.2 = Some t) as [= <-]; [|unfold DEGRADE_GRACE in *; lia].
        rewrite <- E. symmetry. apply degraded_since_spec. by exists pre', x', post'.
    + split; [done|]. intros (pre' & x' & post' & E1' & Hf' & Hl' & H). exfalso.
      enough (None = Some x'.2) by done. rewrite <- E. apply degraded_since_spec. by exists pre', x', post'.
Qed.

(** ** On concrete runs *)

Definition small_doc (at_ms : Z) (watchers : nat) : ChatDocHandle := mk_handle at_ms 1000 watchers 1 (Some []).

(** Thirteen documents, the oldest watched. *)
Definition sample_docs : gmap string ChatDocHandle :=
  list_to_map (("a", small_doc 0 1) :: ((fun i => (String (Ascii.ascii_of_nat (98 + i)) "", small_doc (Z.of_nat i) 0)) <$> seq 0 12)).

Lemma evict_spec_witness :
  (evict_over_budget (fun _ => false) (fun _ => false) (fun _ hs => hs) (fun _ => 90000) sample_docs).2 = ["b"] /\
  exists j h, sample_docs !! "b" = Some h /\ pinned (fun _ => false) (fun _ => false) "b" h = false /\
    EVICT_MIN_IDLE_MS <= (fun _ : nat => 90000) j - dh_last_access h.
Proof.
  assert (E : (evict_over_budget (fun _ => false) (fun _ => false) (fun _ hs => hs) (fun _ => 90000) sample_docs).2 = ["b"])
    by (vm_compute; reflexivity).
  split; [exact E|].
  destruct (evict_spec (fun _ => false) (fun _ => false) (fun _ => 90000) sample_docs _ _ (surjective_pairing _))
    as (_ & H & _ & _).
  apply H. rewrite E. left.
Defined.

Definition down_sample (path_offline registry : bool) : Signals :=
  mk_signals true [("a", Some (registry, 2))] None registry path_offline.

(** The registry and the room of the open chat are down for four seconds. *)
Definition sample_outage : list (Signals * Z) :=
  [(down_sample false true, 0); (down_sample false false, 1000); (down_sample true false, 2000); (down_sample false false, 3000)].

Lemma posture_exact_witness :
  let c := (compute_connectivity (grace_after sample_outage) (down_sample false false) 5000).1 in
  cn_state c = Reconnecting /\ cn_chats c = [mk_chat_conn "a" false 2] /\
  exists pre x post, sample_outage ++ [(down_sample false false, 5000)] = pre ++ x :: post /\
    Forall (fun y => raw_of Registry y.1 = Some true) (x :: post) /\ 4000 <= 5000 - x.2.
Proof.
  assert (Hs : Forall (fun x => proper x.1) sample_outage) by (repeat constructor; set_solver).
  assert (Hp : proper (down_sample false false)) by (repeat constructor; set_solver).
  destruct (posture_exact sample_outage (down_sample false false) 5000 Hs Hp) as (Hst & _ & Hd).
  split; [exact (eq_trans Hst eq_refl)|split; [vm_compute; reflexivity|]].
  destruct (proj1 (Hd Registry) eq_refl) as (pre & x & post & E & Hf & _ & Ht).
  exists pre, x, post. split; [exact E|split; [exact Hf|exact Ht]].
Defined.
