(* ===== verification/AppState.v ===== *)
(** The state of the interface: crates/ui/src/state.rs, with the online window
    of crates/ui/src/settings/devices.rs and the send of
    crates/ui/src/composer.rs. Reducers of the engine's watches, the selection,
    and the way of a message from the composer to the transcript: its echo, its
    pending overlay, its confirmation.

    Tasks are what they wait for: the watch of the selected transcript is
    subscribing, has subscribed, or flows. A desynchronised frame is applied in
    place as far as it goes, as the code does. What the state sends to the
    engine and forgets is a list of calls. [lower] is [to_lowercase] and [tr]
    the translation table. *)
From S2P Require Import Prelude Json Entities Text Agent Parts Transcript View Delivery DocHost.

(** ** The reducer of a frame, in place *)

Fixpoint upserts_in_place (current : list SessionMessageEntry) (us : list TranscriptUpsert)
    : list SessionMessageEntry * bool :=
  match us with
  | [] => (current, true)
  | u :: us =>
      let current := match position (me_id (tu_entry u)) current with
                     | Some existing => delete existing current
                     | None => current
                     end in
      match (match tu_after u with None => Some O | Some anchor => S <$> position anchor current end) with
      | Some at_ => upserts_in_place (take at_ current ++ tu_entry u :: drop at_ current) us
      | None => (current, false)
      end
  end.

(** [tail.push_str(&text)] happens before its length is looked at. *)
Fixpoint part_in_place (a : TextAppend) (parts : list MessagePart) : list MessagePart * bool :=
  match parts with
  | [] => ([], false)
  | TextPart id text :: parts =>
      if String.eqb id (ta_part a) then
        let text := (text ++ ta_text a)%string in
        (TextPart id text :: parts, (String.length text =? ta_len a)%nat)
      else let '(parts, ok) := part_in_place a parts in (TextPart id text :: parts, ok)
  | p :: parts => let '(parts, ok) := part_in_place a parts in (p :: parts, ok)
  end.

Fixpoint append_in_place (current : list SessionMessageEntry) (a : TextAppend) : list SessionMessageEntry * bool :=
  match current with
  | [] => ([], false)
  | e :: current =>
      if String.eqb (me_id e) (ta_entry a) then
        let '(parts, ok) := part_in_place a (me_parts e) in (set_parts e parts :: current, ok)
      else let '(current, ok) := append_in_place current a in (e :: current, ok)
  end.

Fixpoint appends_in_place (current : list SessionMessageEntry) (l : list TextAppend) : list SessionMessageEntry * bool :=
  match l with
  | [] => (current, true)
  | a :: l => let '(current, ok) := append_in_place current a in if ok then appends_in_place current l else (current, false)
  end.

Definition frame_in_place (current : list SessionMessageEntry) (f : TranscriptFrame) : list SessionMessageEntry * bool :=
  match f with
  | Reset reset => (reset, true)
  | Delta upsert append remove count =>
      let current := filter (fun e => ~ me_id e ∈ remove) current in
      let '(current, ok) := upserts_in_place current upsert in
      if ok then
        let '(current, ok) := appends_in_place current append in
        if ok then (current, (length current =? count)%nat) else (current, false)
      else (current, false)
  end.

(** ** The state *)

Record PendingSend `{Chrono} := mk_pending { ps_message_id : string; ps_started : DateTime }.

Record UploadProgress := mk_progress { up_done : Z; up_total : Z }.

Inductive CommentSide := Old | New.

Record DiffComment := mk_comment {
  dc_id : string;
  dc_path : string;
  dc_old_path : option string;
  dc_side : CommentSide;
  dc_line : Z;
  dc_body : string;
}.

(** The watch of a transcript: asking for its stream, before the stream's first
    frame, behind one that was applied. *)
Inductive TranscriptTask := TSubscribing | TFresh | TFlowing.

Definition UNDELIVERED_GRACE_MS : Z := 120000.
Definition DEVICE_ONLINE_WINDOW_SECS : Z := 70.

Section App.
Context {C : Chrono} {K : ConfigCodec} {I : Instants}.
Context (lower tr : string -> string).

Record Rows := mk_rows {
  rw_devices : list Device;
  rw_spaces : list Space;
  rw_chats : list Entities.Chat;
  rw_sessions : list Session;
  rw_chats_synced : bool;
  rw_spaces_synced : bool;
}.

(** What is selected: the canvas' project, the opt-out of projects, the picked
    device, the chat. *)
Record Picks := mk_picks {
  pk_space : option string;
  pk_no_project : bool;
  pk_device : option string;
  pk_chat : option string;
  pk_auto : bool;
}.

Record Sends := mk_sends {
  sn_echoes : gmap string (list SessionMessageEntry);
  sn_pending : gmap string PendingSend;
  sn_upload : option UploadProgress;
}.

(** The selected chat's transcript with its watch, and the subagents': the rows
    and whether a watch feeds them. *)
Record Feed := mk_feed {
  fd_transcript : list SessionMessageEntry;
  fd_task : option TranscriptTask;
  fd_subs : gmap string (list SessionMessageEntry * bool);
}.

Record AppState := mk_app {
  app_connection : ConnectionStatus;
  app_scope : option WorkspaceScope;
  app_auth : option AuthState;
  app_connectivity : Connectivity;
  app_local_device : option string;
  app_engine : bool;
  app_rows : Rows;
  app_picks : Picks;
  app_sends : Sends;
  app_feed : Feed;
  app_comments : gmap string (list DiffComment);
  app_seen_calls : list string;
}.

Definition set_connectivity (c : Connectivity) (s : AppState) : AppState :=
  mk_app (app_connection s) (app_scope s) (app_auth s) c (app_local_device s) (app_engine s) (app_rows s) (app_picks s)
    (app_sends s) (app_feed s) (app_comments s) (app_seen_calls s).
Definition set_auth (a : option AuthState) (s : AppState) : AppState :=
  mk_app (app_connection s) (app_scope s) a (app_connectivity s) (app_local_device s) (app_engine s) (app_rows s)
    (app_picks s) (app_sends s) (app_feed s) (app_comments s) (app_seen_calls s).
Definition set_local_device (d : option string) (s : AppState) : AppState :=
  mk_app (app_connection s) (app_scope s) (app_auth s) (app_connectivity s) d (app_engine s) (app_rows s) (app_picks s)
    (app_sends s) (app_feed s) (app_comments s) (app_seen_calls s).
Definition set_attached (c : ConnectionStatus) (scope : option WorkspaceScope) (engine : bool) (s : AppState) : AppState :=
  mk_app c scope (app_auth s) (app_connectivity s) (app_local_device s) engine (app_rows s) (app_picks s) (app_sends s)
    (app_feed s) (app_comments s) (app_seen_calls s).
Definition set_rows (r : Rows) (s : AppState) : AppState :=
  mk_app (app_connection s) (app_scope s) (app_auth s) (app_connectivity s) (app_local_device s) (app_engine s) r
    (app_picks s) (app_sends s) (app_feed s) (app_comments s) (app_seen_calls s).
Definition set_picks (p : Picks) (s : AppState) : AppState :=
  mk_app (app_connection s) (app_scope s) (app_auth s) (app_connectivity s) (app_local_device s) (app_engine s) (app_rows s)
    p (app_sends s) (app_feed s) (app_comments s) (app_seen_calls s).
Definition set_sends (x : Sends) (s : AppState) : AppState :=
  mk_app (app_connection s) (app_scope s) (app_auth s) (app_connectivity s) (app_local_device s) (app_engine s) (app_rows s)
    (app_picks s) x (app_feed s) (app_comments s) (app_seen_calls s).
Definition set_feed (f : Feed) (s : AppState) : AppState :=
  mk_app (app_connection s) (app_scope s) (app_auth s) (app_connectivity s) (app_local_device s) (app_engine s) (app_rows s)
    (app_picks s) (app_sends s) f (app_comments s) (app_seen_calls s).
Definition set_comments (c : gmap string (list DiffComment)) (s : AppState) : AppState :=
  mk_app (app_connection s) (app_scope s) (app_auth s) (app_connectivity s) (app_local_device s) (app_engine s) (app_rows s)
    (app_picks s) (app_sends s) (app_feed s) c (app_seen_calls s).
Definition set_seen_calls (l : list string) (s : AppState) : AppState :=
  mk_app (app_connection s) (app_scope s) (app_auth s) (app_connectivity s) (app_local_device s) (app_engine s) (app_rows s)
    (app_picks s) (app_sends s) (app_feed s) (app_comments s) l.

Definition set_chats (l : list Entities.Chat) (r : Rows) : Rows :=
  mk_rows (rw_devices r) (rw_spaces r) l (rw_sessions r) (rw_chats_synced r) (rw_spaces_synced r).
Definition set_devices (l : list Device) (r : Rows) : Rows :=
  mk_rows l (rw_spaces r) (rw_chats r) (rw_sessions r) (rw_chats_synced r) (rw_spaces_synced r).
Definition set_sessions (l : list Session) (r : Rows) : Rows :=
  mk_rows (rw_devices r) (rw_spaces r) (rw_chats r) l (rw_chats_synced r) (rw_spaces_synced r).
Definition set_echoes (e : gmap string (list SessionMessageEntry)) (x : Sends) : Sends :=
  mk_sends e (sn_pending x) (sn_upload x).
Definition set_pending (p : gmap string PendingSend) (x : Sends) : Sends := mk_sends (sn_echoes x) p (sn_upload x).
Definition set_upload (u : option UploadProgress) (x : Sends) : Sends := mk_sends (sn_echoes x) (sn_pending x) u.
Definition set_subs (m : gmap string (list SessionMessageEntry * bool)) (f : Feed) : Feed :=
  mk_feed (fd_transcript f) (fd_task f) m.

Definition on_rows (f : Rows -> Rows) (s : AppState) : AppState := set_rows (f (app_rows s)) s.
Definition on_sends (f : Sends -> Sends) (s : AppState) : AppState := set_sends (f (app_sends s)) s.
Definition on_feed (f : Feed -> Feed) (s : AppState) : AppState := set_feed (f (app_feed s)) s.

Definition chats (s : AppState) : list Entities.Chat := rw_chats (app_rows s).
Definition spaces (s : AppState) : list Space := rw_spaces (app_rows s).
Definition selected_chat (s : AppState) : option string := pk_chat (app_picks s).
Definition transcript (s : AppState) : list SessionMessageEntry := fd_transcript (app_feed s).
Definition echoes_of (s : AppState) (chat_id : string) : list SessionMessageEntry :=
  default [] (sn_echoes (app_sends s) !! chat_id).
Definition pending_of (s : AppState) (chat_id : string) : option PendingSend := sn_pending (app_sends s) !! chat_id.

Definition app_new : AppState :=
  mk_app Connecting None None (mk_connectivity Disabled 0 None []) None false (mk_rows [] [] [] [] false false)
    (mk_picks None false None None false) (mk_sends ∅ ∅ None) (mk_feed [] None ∅) ∅ [].

(** ** Rows of the registry *)

Definition chat_row (s : AppState) (id : string) : option Entities.Chat := List.find (fun c => String.eqb (ch_id c) id) (chats s).

Definition space_row (s : AppState) (id : string) : option Space := List.find (fun x => String.eqb (sp_id x) id) (spaces s).

(** [sort_by_key] on the lowercased name and the id. *)
Definition name_cmp (a b : Space) : comparison :=
  then_with (String.compare (lower (display_name a)) (lower (display_name b))) (String.compare (sp_id a) (sp_id b)).

Definition spaces_sorted (s : AppState) : list Space := sort_by name_cmp (spaces s).

Definition first_space_on_picked_device (s : AppState) : option string :=
  let device := match pk_device (app_picks s) with Some d => Some d | None => app_local_device s end in
  let sorted := spaces_sorted s in
  sp_id <$> match device ≫= (fun d => List.find (fun x => String.eqb (sp_device_id x) d) sorted) with
            | Some x => Some x
            | None => head sorted
            end.

(** A selected chat that vanished takes its transcript with it. *)
Definition apply_chats (l : list Entities.Chat) (s : AppState) : AppState :=
  let s := on_rows (fun r => mk_rows (rw_devices r) (rw_spaces r) (sort_chats l) (rw_sessions r) true (rw_spaces_synced r)) s in
  match selected_chat s with
  | Some selected =>
      if existsb (fun c => String.eqb (ch_id c) selected) (chats s) then s
      else let p := app_picks s in
           on_feed (fun f => mk_feed [] None (fd_subs f))
             (set_picks (mk_picks (pk_space p) (pk_no_project p) (pk_device p) None (pk_auto p)) s)
  | None => s
  end.

Definition apply_sessions (l : list Session) : AppState -> AppState := on_rows (set_sessions l).

Definition heal (s : AppState) : AppState :=
  let p := app_picks s in
  set_picks (mk_picks (first_space_on_picked_device s) (pk_no_project p) (pk_device p) (pk_chat p) (pk_auto p)) s.

Definition apply_spaces (l : list Space) (s : AppState) : AppState :=
  let s := on_rows (fun r => mk_rows (rw_devices r) (sort_spaces l) (rw_chats r) (rw_sessions r) (rw_chats_synced r) true) s in
  let s := match pk_space (app_picks s) with
           | Some selected => if existsb (fun x => String.eqb (sp_id x) selected) (spaces s) then s else heal s
           | None => s
           end in
  match pk_space (app_picks s) with
  | None => if pk_no_project (app_picks s) then s else heal s
  | Some _ => s
  end.

Definition set_config (config : ChatConfig) (c : Entities.Chat) : Entities.Chat :=
  mk_chat (ch_id c) (ch_device_id c) (ch_title c) (ch_archived c) (ch_cwd c) (ch_branch c) (ch_checkout_id c) (Some config)
    (ch_last_message_preview c) (ch_last_message_at c) (ch_created_at c) (ch_harness_session_id c)
    (ch_harness_session_cwd c) (ch_space_id c) (ch_last_seen_at c) (ch_room_gen c).

(** The first row with the id is changed. *)
Fixpoint change_first {A} (p : A -> bool) (f : A -> A) (l : list A) : list A :=
  match l with
  | [] => []
  | x :: l => if p x then f x :: l else x :: change_first p f l
  end.

Definition apply_chat_config (chat_id : string) (config : ChatConfig) : AppState -> AppState :=
  on_rows (fun r => set_chats (change_first (fun c => String.eqb (ch_id c) chat_id) (set_config config) (rw_chats r)) r).

Definition rename_device (name : string) (d : Device) : Device :=
  mk_device (dev_id d) name (dev_platform d) (dev_last_seen_at d) (dev_created_at d) (dev_version d).

(** The sentinel of a local workspace's own device is given a name. *)
Definition named_device (d : Device) : Device :=
  if String.eqb (dev_name d) "unknown-device" then rename_device (tr "Local") d else d.

Definition apply_devices (l : list Device) (s : AppState) : AppState :=
  let l := match app_scope s, app_local_device s with
           | Some Local_, Some local_id => change_first (fun d => String.eqb (dev_id d) local_id) named_device l
           | _, _ => l
           end in
  on_rows (set_devices l) s.

Definition apply_auth_value (v : Value) (s : AppState) : AppState :=
  match parse_auth_state v with Some auth => set_auth (Some auth) s | None => s end.

(** ** Delivery *)

Definition online_window (last_seen : option DateTime) (now : DateTime) : bool :=
  match last_seen with Some t => since_s now t <=? DEVICE_ONLINE_WINDOW_SECS | None => false end.

Definition device_row (s : AppState) (id : string) : option Device :=
  List.find (fun d => String.eqb (dev_id d) id) (rw_devices (app_rows s)).

Definition device_online (s : AppState) (device_id : string) (now : DateTime) : bool :=
  bool_decide (app_local_device s = Some device_id) ||
  match device_row s device_id with Some d => online_window (dev_last_seen_at d) now | None => true end.

Definition state_is (c : ConnectivityState) (s : AppState) : bool :=
  match cn_state (app_connectivity s), c with
  | Disabled, Disabled | Offline, Offline | Reconnecting, Reconnecting | DocHost.Connected, DocHost.Connected => true
  | _, _ => false
  end.

(** Will a send queue? [now] is the clock the presence is read at. *)
Definition chat_delivery_degraded (s : AppState) (chat_id : string) (now : DateTime) : bool :=
  if state_is Disabled s then false
  else
    match chat_row s chat_id with
    | None => state_is Offline s
    | Some chat =>
        if bool_decide (app_local_device s = Some (ch_device_id chat)) then false
        else if state_is Offline s then true
        else
          let room_down :=
            match List.find (fun c => String.eqb (cc_chat_id c) chat_id) (cn_chats (app_connectivity s)) with
            | Some net => negb (cc_connected net)
            | None => negb (state_is DocHost.Connected s)
            end in
          room_down || negb (device_online s (ch_device_id chat) now)
    end.

Definition device_version_at_least (s : AppState) (device_id : string) (min : N * N * N) : bool :=
  match (d ← device_row s device_id; version ← dev_version d; version_triple version) with
  | Some v => triple_le min v
  | None => false
  end.

(** ** Echoes and pending sends *)

Definition push_echo (chat_id : string) (entry : SessionMessageEntry) (s : AppState) : AppState :=
  let l := echoes_of s chat_id in
  on_sends (fun x => set_echoes
    (<[chat_id := if existsb (fun e => String.eqb (me_id e) (me_id entry)) l then l else l ++ [entry]]> (sn_echoes x)) x) s.

Definition without (ids : list string) (l : list SessionMessageEntry) : list SessionMessageEntry :=
  filter (fun e => ~ me_id e ∈ ids) l.

Definition retain_echoes (chat_id : string) (gone : list string) (s : AppState) : AppState :=
  on_sends (fun x => set_echoes (alter (without gone) chat_id (sn_echoes x)) x) s.

Definition remove_echo (chat_id message_id : string) : AppState -> AppState := retain_echoes chat_id [message_id].

Definition begin_pending_send (chat_id message_id : string) (now : DateTime) : AppState -> AppState :=
  on_sends (fun x => set_pending (<[chat_id := mk_pending _ message_id now]> (sn_pending x)) x).

Definition end_pending_send (chat_id message_id : string) (s : AppState) : AppState :=
  match pending_of s chat_id with
  | Some p =>
      if String.eqb (ps_message_id p) message_id then on_sends (fun x => set_pending (delete chat_id (sn_pending x)) x) s else s
  | None => s
  end.

Definition retry_pending_send (chat_id : string) (now : DateTime) : AppState -> AppState :=
  on_sends (fun x => set_pending (alter (fun p => mk_pending _ (ps_message_id p) now) chat_id (sn_pending x)) x).

Definition begin_upload_progress (total : Z) : AppState -> AppState := on_sends (set_upload (Some (mk_progress 0 total))).
Definition end_upload_progress : AppState -> AppState := on_sends (set_upload None).

Definition upload_progress_percent (s : AppState) : option Z :=
  p ← sn_upload (app_sends s);
  if up_total p =? 0 then None else Some ((up_done p `min` up_total p) * 100 / up_total p `min` 99).

(** The pending send, in its grace or held by a degraded path. *)
Definition in_grace (p : PendingSend) (now : DateTime) : bool := since_ms now (ps_started p) <=? UNDELIVERED_GRACE_MS.

Definition send_pending (s : AppState) (chat_id : string) (now : DateTime) : bool :=
  match pending_of s chat_id with
  | Some p => in_grace p now || chat_delivery_degraded s chat_id now
  | None => false
  end.

Definition send_queued (s : AppState) (chat_id : string) (now : DateTime) : bool :=
  send_pending s chat_id now && chat_delivery_degraded s chat_id now.

Definition send_undelivered (s : AppState) (chat_id : string) (now : DateTime) : bool :=
  match pending_of s chat_id with Some p => negb (in_grace p now) | None => false end.

Definition pending_send_started (s : AppState) (chat_id : string) (now : DateTime) : option DateTime :=
  p ← pending_of s chat_id;
  if in_grace p now || chat_delivery_degraded s chat_id now then Some (ps_started p) else None.

Definition pending_echoes (s : AppState) : list SessionMessageEntry :=
  match selected_chat s with Some id => echoes_of s id | None => [] end.

Definition ack_pending_send (s : AppState) : AppState :=
  match selected_chat s with
  | Some chat_id =>
      match pending_of s chat_id with
      | Some p =>
          if existsb (fun e => String.eqb (me_id e) (ps_message_id p)) (transcript s)
          then on_sends (fun x => set_pending (delete chat_id (sn_pending x)) x) s else s
      | None => s
      end
  | None => s
  end.

(** ** The transcript *)

Definition prune_echoes (s : AppState) : AppState :=
  match selected_chat s with Some chat_id => retain_echoes chat_id (me_id <$> transcript s) s | None => s end.

Definition set_transcript (l : list SessionMessageEntry) (t : option TranscriptTask) (s : AppState) : AppState :=
  on_feed (fun f => mk_feed l t (fd_subs f)) s.

Definition apply_transcript (entries : list SessionMessageEntry) (s : AppState) : AppState :=
  ack_pending_send (prune_echoes (set_transcript entries (fd_task (app_feed s)) s)).

(** [false]: a desync; the copy is left as far as the frame went, and the watch
    asks for a new stream. *)
Definition app_transcript_frame (f : TranscriptFrame) (s : AppState) : AppState * bool :=
  let '(l, ok) := frame_in_place (transcript s) f in
  if ok then (ack_pending_send (prune_echoes (set_transcript l (Some TFlowing) s)), true)
  else (set_transcript l (Some TSubscribing) s, false).

(** ** Subagents *)

Definition sub_transcript (s : AppState) (doc_id : string) : list SessionMessageEntry :=
  default [] (fst <$> fd_subs (app_feed s) !! doc_id).

Definition watch_subagent_doc (doc_id : string) (s : AppState) : AppState :=
  match fd_subs (app_feed s) !! doc_id with
  | Some (_, true) => s
  | o => if app_engine s then on_feed (fun f => set_subs (<[doc_id := (default [] (fst <$> o), true)]> (fd_subs f)) f) s else s
  end.

Definition unwatch_subagent_doc (doc_id : string) : AppState -> AppState :=
  on_feed (fun f => set_subs (delete doc_id (fd_subs f)) f).

Definition set_subagent_snapshot (doc_id : string) (entries : list SessionMessageEntry) : AppState -> AppState :=
  on_feed (fun f => set_subs (<[doc_id := (entries, false)]> (fd_subs f)) f).

Definition app_subagent_frame (doc_id : string) (f : TranscriptFrame) (s : AppState) : AppState * bool :=
  match fd_subs (app_feed s) !! doc_id with
  | Some (rows, w) =>
      let '(rows, ok) := frame_in_place rows f in
      (on_feed (fun f => set_subs (<[doc_id := (rows, w)]> (fd_subs f)) f) s, ok)
  | None => (s, true)
  end.

(** ** Selection *)

Definition selected_space_row (s : AppState) : option Space :=
  if pk_no_project (app_picks s) then None else pk_space (app_picks s) ≫= space_row s.

Definition effective_device_id (s : AppState) : option string :=
  match selected_space_row s with
  | Some x => Some (sp_device_id x)
  | None => match pk_device (app_picks s) with Some d => Some d | None => app_local_device s end
  end.

Definition select_device (device_id : string) (s : AppState) : AppState :=
  let p := app_picks s in
  let project_moves := match selected_space_row s with Some x => negb (String.eqb (sp_device_id x) device_id) | None => false end in
  let '(space, no_project) :=
    if project_moves then
      match List.find (fun x => String.eqb (sp_device_id x) device_id) (spaces_sorted s) with
      | Some x => (Some (sp_id x), false)
      | None => (pk_space p, true)
      end
    else (pk_space p, pk_no_project p) in
  set_picks (mk_picks space no_project (Some device_id) (pk_chat p) (pk_auto p)) s.

Definition select_space (space_id : option string) (s : AppState) : AppState :=
  let p := app_picks s in
  match space_id with
  | Some id =>
      let device := match space_row s id with Some x => Some (sp_device_id x) | None => pk_device p end in
      set_picks (mk_picks (Some id) false device (pk_chat p) (pk_auto p)) s
  | None => set_picks (mk_picks (pk_space p) true (pk_device p) (pk_chat p) (pk_auto p)) s
  end.

Definition stamp_seen (now : DateTime) (c : Entities.Chat) : Entities.Chat :=
  mk_chat (ch_id c) (ch_device_id c) (ch_title c) (ch_archived c) (ch_cwd c) (ch_branch c) (ch_checkout_id c) (ch_config c)
    (ch_last_message_preview c) (ch_last_message_at c) (ch_created_at c) (ch_harness_session_id c)
    (ch_harness_session_cwd c) (ch_space_id c) (Some now) (ch_room_gen c).

Definition mark_chat_seen (chat_id : string) (now : DateTime) (s : AppState) : AppState :=
  match chat_row s chat_id with
  | Some c =>
      if unseen c then
        let s := on_rows (fun r => set_chats (change_first (fun c => String.eqb (ch_id c) chat_id) (stamp_seen now) (rw_chats r)) r) s in
        if app_engine s then set_seen_calls (app_seen_calls s ++ [chat_id]) s else s
      else s
  | None => s
  end.

Definition select_chat (chat_id : option string) (now : DateTime) (s : AppState) : AppState :=
  if bool_decide (selected_chat s = chat_id) then
    match chat_id with Some id => mark_chat_seen id now s | None => s end
  else
    let p := app_picks s in
    let s := set_transcript [] None (set_picks (mk_picks (pk_space p) (pk_no_project p) (pk_device p) chat_id true) s) in
    match chat_id with
    | Some id =>
        let p := app_picks s in
        let s := match chat_row s id with
                 | Some c =>
                     set_picks match ch_space_id c with
                               | Some space => mk_picks (Some space) false (pk_device p) (pk_chat p) (pk_auto p)
                               | None => mk_picks (pk_space p) true (Some (ch_device_id c)) (pk_chat p) (pk_auto p)
                               end s
                 | None => s
                 end in
        let s := mark_chat_seen id now s in
        if app_engine s then set_transcript (transcript s) (Some TSubscribing) s else s
    | None => s
    end.

(** The engine is attached: a selected chat's transcript is watched again. *)
Definition attach_engine (scope : WorkspaceScope) (device_id : string) (s : AppState) : AppState :=
  let s := set_local_device (Some device_id) (set_attached Ready (Some scope) true s) in
  match selected_chat s with Some _ => set_transcript (transcript s) (Some TSubscribing) s | None => s end.

(** ** Queries *)

Definition visible_chats (s : AppState) : list Entities.Chat := filter (fun c => ch_archived c = false) (chats s).

Definition chats_in_space (s : AppState) (space_id : string) : list Entities.Chat :=
  sort_tabs (filter (fun c => ch_space_id c = Some space_id) (visible_chats s)).

Definition session_for (s : AppState) (chat_id : string) : option Session :=
  List.find (fun x => String.eqb (se_chat_id x) chat_id) (rw_sessions (app_rows s)).

Definition display_status_for (s : AppState) (chat : Entities.Chat) (now : DateTime) : ChatIndicator :=
  if send_pending s (ch_id chat) now then CiWorking else display_status chat (session_for s (ch_id chat)) now.

Definition indicator_for (s : AppState) (chat_id : string) (now : DateTime) : Indicator :=
  if send_pending s chat_id now then IndWorking else effective_indicator (session_for s chat_id) now.

(** Project-less chats are rows of their own. *)
Definition in_live_space (s : AppState) (c : Entities.Chat) : bool :=
  match ch_space_id c with None => true | Some id => bool_decide (is_Some (space_row s id)) end.

Definition overview_chats (s : AppState) (now : DateTime) : list (ChatIndicator * Entities.Chat) :=
  sort_active ((fun c => (display_status_for s c now, c)) <$>
    filter (fun c => in_live_space s c = true) (visible_chats s)).

Definition device_name (s : AppState) (device_id : string) : option string := dev_name <$> device_row s device_id.

Definition space_device_tag (s : AppState) (space : Space) (now : DateTime) : string * bool :=
  ("@ " +:+ default (tr "Unknown device") (device_name s (sp_device_id space)), negb (device_online s (sp_device_id space) now)).

Definition gate (s : AppState) : GatePhase := gate_phase (app_connection s) (app_scope s) (app_auth s).

(** ** Comments *)

Definition composer_key (s : AppState) : string := default "" (selected_chat s).

Definition add_diff_comment (key : string) (c : DiffComment) (s : AppState) : AppState :=
  set_comments (<[key := default [] (app_comments s !! key) ++ [c]]> (app_comments s)) s.

Definition remove_diff_comment (key id : string) (s : AppState) : AppState :=
  match app_comments s !! key with
  | Some l =>
      let l := filter (fun c => dc_id c <> id) l in
      set_comments (if decide (l = []) then delete key (app_comments s) else <[key := l]> (app_comments s)) s
  | None => s
  end.

Definition take_diff_comments (key : string) (s : AppState) : AppState * list DiffComment :=
  (set_comments (delete key (app_comments s)) s, default [] (app_comments s !! key)).

(** ** The composer's send *)

(** The [Sent] of the composer: a new chat is selected, the message echoed, the
    overlay begun. *)
Definition composer_send (is_new : bool) (chat_id : string) (echo : SessionMessageEntry) (now : DateTime) (s : AppState) : AppState :=
  let s := if is_new then select_chat (Some chat_id) now s else s in
  begin_pending_send chat_id (me_id echo) now (push_echo chat_id echo s).

(** The upload of an old engine gives the echo its paths, before the command is
    queued. *)
Definition refresh_echo (chat_id : string) (echo : SessionMessageEntry) (s : AppState) : AppState :=
  push_echo chat_id echo (remove_echo chat_id (me_id echo) s).

(** The send failed: the comments go back to the draft, a new chat to the
    canvas. *)
Definition composer_failed (is_new : bool) (chat_id message_id : string) (comments : list DiffComment) (now : DateTime)
    (s : AppState) : AppState :=
  let s := end_pending_send chat_id message_id (remove_echo chat_id message_id (end_upload_progress s)) in
  let s := if is_new && bool_decide (selected_chat s = Some chat_id) then select_chat None now s else s in
  foldl (fun s c => add_diff_comment (if is_new then "" else chat_id) c s) s comments.

(** ** Steps *)

Inductive AppStep :=
  | UAttach (scope : WorkspaceScope) (device_id : string)
  | ULocalDevice (device_id : string)
  | UChats (l : list Entities.Chat)
  | USessions (l : list Session)
  | USpaces (l : list Space)
  | UDevices (l : list Device)
  | UConnectivity (c : Connectivity)
  | UAuth (v : Value)
  | USubscribed
  | UFrame (f : TranscriptFrame)
  | UEnded
  | USelectChat (chat_id : option string) (now : DateTime)
  | USelectSpace (space_id : option string)
  | USelectDevice (device_id : string)
  | UConfig (chat_id : string) (config : ChatConfig)
  | USend (is_new : bool) (chat_id : string) (echo : SessionMessageEntry) (now : DateTime)
  | URefresh (chat_id : string) (echo : SessionMessageEntry)
  | UFailed (is_new : bool) (chat_id message_id : string) (comments : list DiffComment) (now : DateTime)
  | URetry (chat_id : string) (now : DateTime).

Definition set_task (t : TranscriptTask) (s : AppState) : AppState := set_transcript (transcript s) (Some t) s.

(** A fresh uuid: nothing on the screen has it. *)
Definition unused (id : string) (chat_id : string) (s : AppState) : bool :=
  negb (bool_decide (id ∈ ids (echoes_of s chat_id))) && negb (bool_decide (id ∈ ids (transcript s))).

(** [None]: not enabled. Before its command is queued nobody else writes the id
    of a message. *)
Definition app_step (k : AppStep) (s : AppState) : option AppState :=
  match k with
  | UAttach scope device => Some (attach_engine scope device s)
  | ULocalDevice d => Some (set_local_device (Some d) s)
  | UChats l => Some (apply_chats l s)
  | USessions l => Some (apply_sessions l s)
  | USpaces l => Some (apply_spaces l s)
  | UDevices l => Some (apply_devices l s)
  | UConnectivity c => Some (set_connectivity c s)
  | UAuth v => Some (apply_auth_value v s)
  | USubscribed => match fd_task (app_feed s) with Some TSubscribing => Some (set_task TFresh s) | _ => None end
  | UFrame f =>
      match fd_task (app_feed s) with
      | Some TFresh | Some TFlowing => Some (app_transcript_frame f s).1
      | _ => None
      end
  | UEnded =>
      match fd_task (app_feed s) with Some TFresh | Some TFlowing => Some (set_task TSubscribing s) | _ => None end
  | USelectChat c now => Some (select_chat c now s)
  | USelectSpace x => Some (select_space x s)
  | USelectDevice d => Some (select_device d s)
  | UConfig c config => Some (apply_chat_config c config s)
  | USend is_new c echo now => if unused (me_id echo) c s then Some (composer_send is_new c echo now s) else None
  | URefresh c echo =>
      if bool_decide (me_id echo ∈ ids (echoes_of s c)) && negb (bool_decide (me_id echo ∈ ids (transcript s)))
      then Some (refresh_echo c echo s) else None
  | UFailed is_new c id comments now => Some (composer_failed is_new c id comments now s)
  | URetry c now => Some (retry_pending_send c now s)
  end.

Definition app_run (ks : list AppStep) (s : AppState) : AppState := foldl (fun s k => default s (app_step k s)) s ks.
End App.
