(* ===== verification/AppSafety.v ===== *)
(** What the interface keeps of a message from its send to its confirmation,
    and where its canvas points. *)
From S2P Require Import Prelude Json Entities Text Agent Parts Transcript View Delivery DocHost AppState.

(** ** Frames in place *)

(** In place or not, a frame that applies gives the same copy. *)
Lemma upserts_in_place_spec us : forall l l',
  upserts_in_place l us = (l', true) <-> apply_upserts l us = Some l'.
Proof.
  induction us as [|u us IH]; intros l l'; cbn [upserts_in_place apply_upserts]; [by split; intros [= ->]|].
  unfold apply_upsert. set (current := match position _ l with Some _ => _ | None => _ end).
  destruct (tu_after u) as [anchor|]; cbn [mbind option_bind]; [|by apply IH].
  destruct (position anchor current); cbn [fmap option_fmap option_map mbind option_bind]; [by apply IH|done].
Qed.

Lemma part_in_place_spec a ps : forall ps',
  part_in_place a ps = (ps', true) <-> append_part a ps = Some ps'.
Proof.
  induction ps as [|p ps IH]; intros ps'; [done|].
  assert (Hrec : forall q, (let '(ps0, ok) := part_in_place a ps in (q :: ps0, ok)) = (ps', true) <->
      cons q <$> append_part a ps = Some ps').
  { intros q. destruct (part_in_place a ps) as [ps0 ok] eqn:E, (append_part a ps) as [ps1|] eqn:E1; cbn.
    - pose proof (proj2 (IH ps1) eq_refl) as [= -> ->]. by split; intros [= <-].
    - split; [|done]. intros [= <- ->]. by specialize (proj1 (IH ps0) eq_refl). }
  destruct p as [id text|id text|t|id]; cbn [part_in_place append_part]; try apply Hrec.
  destruct (String.eqb id (ta_part a)); [|apply Hrec]. destruct (_ =? _)%nat; by split; intros [= <-].
Qed.

Lemma append_in_place_spec a l : forall l',
  append_in_place l a = (l', true) <-> apply_append l a = Some l'.
Proof.
  induction l as [|e l IH]; intros l'; [done|]. cbn [append_in_place apply_append].
  destruct (String.eqb (me_id e) (ta_entry a)).
  - destruct (part_in_place a (me_parts e)) as [ps ok] eqn:E, (append_part a (me_parts e)) as [ps1|] eqn:E1;
      cbn [mbind option_bind].
    + pose proof (proj2 (part_in_place_spec a _ ps1) E1) as H. rewrite E in H. injection H as -> ->. by split; intros [= <-].
    + split; [|done]. intros [= <- ->]. apply part_in_place_spec in E. congruence.
  - destruct (append_in_place l a) as [l0 ok] eqn:E, (apply_append l a) as [l1|] eqn:E1; cbn.
    + pose proof (proj2 (IH l1) eq_refl) as [= -> ->]. by split; intros [= <-].
    + split; [|done]. intros [= <- ->]. by specialize (proj1 (IH l0) eq_refl).
Qed.

Lemma appends_in_place_spec al : forall l l',
  appends_in_place l al = (l', true) <-> apply_appends l al = Some l'.
Proof.
  induction al as [|a al IH]; intros l l'; cbn [appends_in_place apply_appends]; [by split; intros [= ->]|].
  destruct (append_in_place l a) as [l0 ok] eqn:E. destruct ok.
  - apply append_in_place_spec in E. rewrite E. cbn. apply IH.
  - destruct (apply_append l a) as [l1|] eqn:E1; [|done]. apply append_in_place_spec in E1. congruence.
Qed.

Lemma frame_in_place_spec l f l' :
  frame_in_place l f = (l', true) <-> apply_transcript_frame l f = Some l'.
Proof.
  destruct f as [reset|upsert append remove count]; cbn [frame_in_place apply_transcript_frame]; [by split; intros [= <-]|].
  destruct (upserts_in_place _ upsert) as [l1 ok] eqn:E1. destruct ok.
  2:{ destruct (apply_upserts _ upsert) as [l2|] eqn:E2; [|done]. apply upserts_in_place_spec in E2. congruence. }
  apply upserts_in_place_spec in E1. rewrite E1. cbn [mbind option_bind].
  destruct (appends_in_place l1 append) as [l2 ok] eqn:E2. destruct ok.
  2:{ destruct (apply_appends l1 append) as [l3|] eqn:E3; [|done]. apply appends_in_place_spec in E3. congruence. }
  apply appends_in_place_spec in E2. rewrite E2. cbn [mbind option_bind].
  destruct (length l2 =? count)%nat; by split; intros [= <-].
Qed.

Section Safety.
Context {C : Chrono} {K : ConfigCodec} {I : Instants}.
Context (lower tr : string -> string).

Abbreviation step := (app_step lower tr).
Abbreviation run := (app_run lower tr).

(** ** Messages on the screen *)

Lemma elem_without id gone l : id ∈ ids (without gone l) <-> id ∈ ids l /\ ~ id ∈ gone.
Proof.
  unfold ids, without. rewrite !list_elem_of_fmap. split.
  - intros (e & -> & [H1 H2]%list_elem_of_filter). split; [by exists e|done].
  - intros [(e & -> & H) Hn]. exists e. split; [done|]. by apply list_elem_of_filter.
Qed.

Lemma without_NoDup gone l : NoDup (ids l) -> NoDup (ids (without gone l)).
Proof.
  unfold ids, without. induction l as [|e l IH]; intros H; [done|]. cbn in H. apply NoDup_cons in H as [He H].
  rewrite filter_cons. destruct (decide _); [|by apply IH]. cbn. apply NoDup_cons. split; [|by apply IH].
  intros Hin. apply He. by apply (elem_without _ gone) in Hin as [? _].
Qed.

Lemma echoes_retain c c' gone s :
  echoes_of (retain_echoes c gone s) c' = if decide (c = c') then without gone (echoes_of s c') else echoes_of s c'.
Proof.
  unfold echoes_of, retain_echoes. cbn. destruct (decide (c = c')) as [->|Hne].
  - rewrite lookup_alter_eq. by destruct (sn_echoes _ !! c').
  - by rewrite lookup_alter_ne.
Qed.

Lemma echoes_push c c' e s :
  echoes_of (push_echo c e s) c' =
    if decide (c = c') then
      if existsb (fun x => String.eqb (me_id x) (me_id e)) (echoes_of s c') then echoes_of s c' else echoes_of s c' ++ [e]
    else echoes_of s c'.
Proof.
  unfold push_echo. unfold echoes_of at 1. cbn. destruct (decide (c = c')) as [->|Hne].
  - by rewrite lookup_insert_eq.
  - by rewrite lookup_insert_ne.
Qed.

Lemma existsb_ids id l : existsb (fun x => String.eqb (me_id x) id) l = true <-> id ∈ ids l.
Proof.
  rewrite existsb_exists. unfold ids. rewrite list_elem_of_fmap. split.
  - intros (x & Hx & E%String.eqb_eq). exists x. split; [done|]. by apply list_elem_of_In.
  - intros (x & -> & Hx). exists x. split; [by apply list_elem_of_In|]. apply String.eqb_refl.
Qed.

(** What a reducer may change of it. *)
Record screen (s s' : AppState) : Prop := {
  sc_echoes : forall c, echoes_of s' c = echoes_of s c;
  sc_pending : forall c, pending_of s' c = pending_of s c;
  sc_chat : selected_chat s' = selected_chat s;
  sc_transcript : transcript s' = transcript s;
}.

Lemma screen_refl s : screen s s.
Proof. by split. Qed.

(** Every echo once; none of a message the flowing transcript shows; every
    pending send on the screen. *)
Record shown (s : AppState) : Prop := {
  sh_echoes : forall c, NoDup (ids (echoes_of s c));
  sh_apart : fd_task (app_feed s) = Some TFlowing -> forall id, id ∈ ids (pending_echoes s) -> ~ id ∈ ids (transcript s);
  sh_pending : forall c p, pending_of s c = Some p -> ps_message_id p ∈ ids (echoes_of s c);
}.

Lemma shown_same s s' :
  screen s s' -> (fd_task (app_feed s') = Some TFlowing -> fd_task (app_feed s) = Some TFlowing) -> shown s -> shown s'.
Proof.
  intros [E1 E2 E3 E4] Ht [H1 H2 H3]. split.
  - intros c. by rewrite E1.
  - unfold pending_echoes. rewrite E3, E4. intros Hf id. specialize (H2 (Ht Hf) id). unfold pending_echoes in H2.
    destruct (selected_chat s); [by rewrite E1|done].
  - intros c p. rewrite E1, E2. apply H3.
Qed.

(** Away from a flowing transcript only the echoes matter. *)
Lemma shown_still s s' :
  (forall c, echoes_of s' c = echoes_of s c) -> (forall c, pending_of s' c = pending_of s c) ->
  fd_task (app_feed s') <> Some TFlowing -> shown s -> shown s'.
Proof.
  intros E1 E2 Ht [H1 _ H3]. split; [intros c; by rewrite E1|done|]. intros c p. rewrite E1, E2. apply H3.
Qed.

Lemma shown_chats l s : shown s -> shown (apply_chats l s).
Proof.
  intros H. unfold apply_chats. cbn [selected_chat on_rows set_rows app_picks].
  destruct (pk_chat (app_picks s)) as [c|] eqn:E; unfold selected_chat; cbn [app_picks on_rows set_rows]; rewrite E.
  - destruct (existsb _ _); [by apply (shown_same s)|]. by apply (shown_still s).
  - by apply (shown_same s).
Qed.

Lemma seen_screen c now s : screen s (mark_chat_seen c now s) /\ fd_task (app_feed (mark_chat_seen c now s)) = fd_task (app_feed s).
Proof.
  unfold mark_chat_seen. destruct (chat_row s c); [|by split]. destruct (unseen _); [|by split]. cbn.
  destruct (app_engine s); by split.
Qed.

Lemma select_still c now s :
  selected_chat s <> c ->
  (forall x, echoes_of (select_chat c now s) x = echoes_of s x) /\
  (forall x, pending_of (select_chat c now s) x = pending_of s x) /\
  selected_chat (select_chat c now s) = c /\ transcript (select_chat c now s) = [] /\
  (fd_task (app_feed (select_chat c now s)) = None \/ fd_task (app_feed (select_chat c now s)) = Some TSubscribing).
Proof.
  intros Hne. unfold select_chat. rewrite bool_decide_false by done. destruct c as [id|]; [|by split_and!; [..|left]].
  set (s1 := set_transcript [] None _).
  set (s2 := match chat_row s1 id with Some _ => _ | None => _ end).
  assert (H2 : screen s1 s2 /\ fd_task (app_feed s2) = fd_task (app_feed s1)).
  { unfold s2. destruct (chat_row s1 id) as [r|]; [|by split]. by destruct (ch_space_id r). }
  destruct H2 as [[A1 A2 A3 A4] A5]. destruct (seen_screen id now s2) as [[B1 B2 B3 B4] B5].
  destruct (app_engine (mark_chat_seen id now s2)).
  - split_and!; [intros x; etrans; [apply B1|apply A1]|intros x; etrans; [apply B2|apply A2]| | |by right].
    + etrans; [apply B3|]. by rewrite A3.
    + etrans; [apply B4|]. by rewrite A4.
  - split_and!; [intros x; etrans; [apply B1|apply A1]|intros x; etrans; [apply B2|apply A2]| | |left].
    + by rewrite B3, A3.
    + by rewrite B4, A4.
    + by rewrite B5, A5.
Qed.

Lemma shown_select c now s : shown s -> shown (select_chat c now s).
Proof.
  intros H. destruct (decide (selected_chat s = c)) as [E|Hne].
  - unfold select_chat. rewrite bool_decide_true by done. destruct c as [id|]; [|done].
    destruct (seen_screen id now s) as [Hs Ht]. apply (shown_same s); [done|by rewrite Ht|done].
  - destruct (select_still c now s Hne) as (H1 & H2 & _ & _ & Ht). apply (shown_still s); [done..| |done].
    destruct Ht as [->| ->]; done.
Qed.

Lemma push_ids c e s id :
  id ∈ ids (echoes_of (push_echo c e s) c) <-> id ∈ ids (echoes_of s c) \/ id = me_id e.
Proof.
  rewrite echoes_push, decide_True by done. destruct (existsb _ _) eqn:Ex.
  - apply existsb_ids in Ex. split; [by left|]. by intros [?| ->].
  - unfold ids. rewrite fmap_app, elem_of_app. cbn. by rewrite list_elem_of_singleton.
Qed.

Lemma push_NoDup c c' e s : NoDup (ids (echoes_of s c')) -> NoDup (ids (echoes_of (push_echo c e s) c')).
Proof.
  intros H. rewrite echoes_push. destruct (decide (c = c')); [|done]. destruct (existsb _ _) eqn:Ex; [done|].
  unfold ids. rewrite fmap_app. apply NoDup_app. split; [done|]. split; [|apply NoDup_singleton].
  intros id Hin ->%list_elem_of_singleton. apply existsb_ids in Hin. congruence.
Qed.

Lemma shown_push c e s :
  (selected_chat s = Some c -> ~ me_id e ∈ ids (transcript s)) -> shown s -> shown (push_echo c e s).
Proof.
  intros Hf [H1 H2 H3]. split.
  - intros c'. apply push_NoDup, H1.
  - intros Ht id. specialize (H2 Ht id). unfold pending_echoes in *. cbn [selected_chat push_echo on_sends set_sends app_picks].
    change (selected_chat (push_echo c e s)) with (selected_chat s).
    change (transcript (push_echo c e s)) with (transcript s).
    destruct (selected_chat s) as [c'|] eqn:Es; [|done]. destruct (decide (c = c')) as [->|Hne].
    + rewrite push_ids. intros [Hin| ->]; [by apply H2|by apply Hf].
    + rewrite echoes_push, decide_False by done. done.
  - intros c' p Hp. specialize (H3 c' p Hp). destruct (decide (c = c')) as [->|Hne].
    + apply push_ids. by left.
    + by rewrite echoes_push, decide_False.
Qed.

Lemma shown_begin c e now s :
  me_id e ∈ ids (echoes_of s c) -> shown s -> shown (begin_pending_send c (me_id e) now s).
Proof.
  intros He [H1 H2 H3]. split; [exact H1|exact H2|]. intros c' p. unfold begin_pending_send, pending_of. cbn.
  destruct (decide (c = c')) as [->|Hne].
  - rewrite lookup_insert_eq. by intros [= <-].
  - rewrite lookup_insert_ne by done. apply H3.
Qed.

Lemma shown_send is_new c e now s :
  unused (me_id e) c s = true -> shown s -> shown (composer_send is_new c e now s).
Proof.
  intros Hu H. apply andb_true_iff in Hu as [Hu1 Hu2]. apply negb_true_iff, bool_decide_eq_false in Hu1, Hu2.
  unfold composer_send. set (s1 := if is_new then _ else s).
  assert (H1 : shown s1) by (unfold s1; destruct is_new; [by apply shown_select|done]).
  assert (Hf : selected_chat s1 = Some c -> ~ me_id e ∈ ids (transcript s1)).
  { intros _. unfold s1. destruct is_new; [|done]. destruct (decide (selected_chat s = Some c)) as [E|Hne].
    - unfold select_chat. rewrite bool_decide_true by done. destruct (seen_screen c now s) as [[_ _ _ ->] _]. done.
    - destruct (select_still (Some c) now s Hne) as (_ & _ & _ & -> & _). by intros ?%elem_of_nil. }
  apply shown_begin; [apply push_ids; by right|]. by apply shown_push.
Qed.

(** Echoes go, with the pending sends that were theirs. *)
Lemma shown_retained c gone pending s :
  (forall c' p, pending !! c' = Some p -> pending_of s c' = Some p /\ (c' = c -> ~ ps_message_id p ∈ gone)) ->
  shown s -> shown (on_sends (set_pending pending) (retain_echoes c gone s)).
Proof.
  intros Hp [H1 H2 H3]. split.
  - intros c'. change (echoes_of (on_sends _ _) c') with (echoes_of (retain_echoes c gone s) c'). rewrite echoes_retain.
    destruct (decide (c = c')); [|done]. by apply without_NoDup.
  - intros Ht id. specialize (H2 Ht id). unfold pending_echoes in *.
    change (selected_chat (on_sends _ _)) with (selected_chat s). change (transcript (on_sends _ _)) with (transcript s).
    destruct (selected_chat s) as [c'|]; [|done].
    change (echoes_of (on_sends _ _) c') with (echoes_of (retain_echoes c gone s) c'). rewrite echoes_retain.
    destruct (decide (c = c')); [|done]. rewrite elem_without. intros [Hin _]. by apply H2.
  - intros c' p Hin. change (pending !! c' = Some p) in Hin. destruct (Hp c' p Hin) as [Hin' Hn].
    specialize (H3 c' p Hin'). change (echoes_of (on_sends _ _) c') with (echoes_of (retain_echoes c gone s) c').
    rewrite echoes_retain. destruct (decide (c = c')) as [->|]; [|done]. apply elem_without. auto.
Qed.

(** A frame that applied: the echoes it confirms go, with their pending send. *)
Lemma shown_confirmed l s :
  shown s -> shown (ack_pending_send (prune_echoes (set_transcript l (Some TFlowing) s))).
Proof.
  intros [H1 H2 H3]. set (s1 := set_transcript l (Some TFlowing) s).
  unfold prune_echoes, ack_pending_send. change (selected_chat s1) with (selected_chat s).
  destruct (selected_chat s) as [c|] eqn:Ec.
  2:{ change (selected_chat s1) with (selected_chat s). rewrite Ec. split; [exact H1| |exact H3].
      intros _ id. unfold pending_echoes. change (selected_chat s1) with (selected_chat s). rewrite Ec.
      by intros ?%elem_of_nil. }
  set (s2 := retain_echoes c (me_id <$> transcript s1) s1).
  change (selected_chat s2) with (selected_chat s). rewrite Ec. change (pending_of s2 c) with (pending_of s c).
  change (transcript s2) with l.
  assert (Hall : forall pending, (forall c' p, pending !! c' = Some p -> pending_of s c' = Some p /\
      (c' = c -> ~ ps_message_id p ∈ ids l)) -> shown (on_sends (set_pending pending) s2)).
  { intros pending Hp. split.
    - intros c'. change (echoes_of (on_sends _ _) c') with (echoes_of s2 c'). unfold s2. rewrite echoes_retain.
      destruct (decide (c = c')); [apply without_NoDup, H1|apply H1].
    - intros _ id. unfold pending_echoes. change (selected_chat (on_sends _ s2)) with (selected_chat s). rewrite Ec.
      change (echoes_of (on_sends _ _) c) with (echoes_of s2 c). unfold s2. rewrite echoes_retain, decide_True by done.
      rewrite elem_without. by intros [_ Hn].
    - intros c' p Hin. change (pending !! c' = Some p) in Hin. destruct (Hp c' p Hin) as [Hin' Hn].
      specialize (H3 c' p Hin'). change (echoes_of (on_sends _ _) c') with (echoes_of s2 c'). unfold s2.
      rewrite echoes_retain. destruct (decide (c = c')) as [<-|]; [|done]. apply elem_without. auto. }
  assert (Hid : forall c' p, sn_pending (app_sends s) !! c' = Some p -> pending_of s c' = Some p) by done.
  assert (Esame : s2 = on_sends (set_pending (sn_pending (app_sends s2))) s2).
  { unfold s2, on_sends, set_pending, set_sends. by destruct s as [? ? ? ? ? ? ? ? [] ? ? ?]. }
  destruct (pending_of s c) as [p|] eqn:Ep.
  - destruct (existsb _ l) eqn:Ex.
    + apply Hall. intros c' q [Hne Hq]%lookup_delete_Some. split; [done|]. congruence.
    + rewrite Esame. apply Hall. intros c' q Hq. split; [done|]. intros ->. assert (q = p) as ->.
      { change (pending_of s c = Some q) in Hq. congruence. }
      rewrite <- existsb_ids. by rewrite Ex.
  - rewrite Esame. apply Hall. intros c' q Hq. split; [done|]. intros ->. change (pending_of s c = Some q) in Hq. congruence.
Qed.

Lemma shown_frame f s : shown s -> shown (app_transcript_frame f s).1.
Proof.
  intros H. unfold app_transcript_frame. destruct (frame_in_place (transcript s) f) as [l []].
  - by apply shown_confirmed.
  - by apply (shown_still s).
Qed.

Lemma shown_refresh c e s :
  ~ me_id e ∈ ids (transcript s) -> me_id e ∈ ids (echoes_of s c) -> shown s -> shown (refresh_echo c e s).
Proof.
  intros Hf Hin [H1 H2 H3]. unfold refresh_echo, remove_echo. set (s1 := retain_echoes c [me_id e] s).
  assert (Hids : forall c' id, id ∈ ids (echoes_of (push_echo c e s1) c') <-> id ∈ ids (echoes_of s c')).
  { intros c' id. destruct (decide (c = c')) as [<-|Hne].
    - rewrite push_ids. unfold s1. rewrite echoes_retain, decide_True, elem_without by done. split.
      + intros [[? _]| ->]; done.
      + intros Hi. destruct (decide (id = me_id e)) as [->|Hne]; [by right|left]. split; [done|].
        by rewrite list_elem_of_singleton.
    - rewrite echoes_push, decide_False by done. unfold s1. by rewrite echoes_retain, decide_False. }
  split.
  - intros c'. apply push_NoDup. unfold s1. rewrite echoes_retain. destruct (decide _); [by apply without_NoDup|done].
  - intros Ht id. specialize (H2 Ht id). unfold pending_echoes in *.
    change (selected_chat (push_echo c e s1)) with (selected_chat s).
    change (transcript (push_echo c e s1)) with (transcript s).
    destruct (selected_chat s) as [c'|]; [|done]. by rewrite Hids.
  - intros c' p Hp. apply Hids. by apply H3.
Qed.

Lemma comments_screen key l s :
  screen s (foldl (fun s c => add_diff_comment key c s) s l) /\
  fd_task (app_feed (foldl (fun s c => add_diff_comment key c s) s l)) = fd_task (app_feed s).
Proof.
  revert s. induction l as [|c l IH]; intros s; [by split|]. cbn [foldl].
  destruct (IH (add_diff_comment key c s)) as [[A1 A2 A3 A4] A5]. by split.
Qed.

Lemma failed_shown c id s :
  shown s -> shown (end_pending_send c id (remove_echo c id (end_upload_progress s))).
Proof.
  intros H. assert (H0 : shown (end_upload_progress s)) by by apply (shown_same s).
  revert H0. generalize (end_upload_progress s). clear s H. intros s H. unfold end_pending_send, remove_echo.
  set (s1 := retain_echoes c [id] s). change (pending_of s1 c) with (pending_of s c).
  assert (Esame : s1 = on_sends (set_pending (sn_pending (app_sends s))) s1).
  { unfold s1, retain_echoes, on_sends, set_pending, set_echoes, set_sends. by destruct s as [? ? ? ? ? ? ? ? [] ? ? ?]. }
  assert (Hkeep : (forall p, pending_of s c = Some p -> ps_message_id p <> id) -> shown s1).
  { intros Hn. rewrite Esame. apply shown_retained; [|done]. intros c' p Hp. split; [done|]. intros ->.
    rewrite list_elem_of_singleton. by apply Hn. }
  destruct (pending_of s c) as [p|] eqn:Ep; [|by apply Hkeep].
  destruct (String.eqb_spec (ps_message_id p) id) as [<-|Hne]; [|apply Hkeep; by intros q [= <-]].
  apply (shown_retained c [ps_message_id p] (delete c (sn_pending (app_sends s))) s); [|done].
  intros c' q [Hne Hq]%lookup_delete_Some. split; [done|congruence].
Qed.

Lemma shown_failed is_new c id comments now s : shown s -> shown (composer_failed is_new c id comments now s).
Proof.
  intros H. unfold composer_failed. set (s1 := end_pending_send c id _).
  assert (H1 : shown s1) by by apply failed_shown.
  set (s2 := if is_new && bool_decide (selected_chat s1 = Some c) then select_chat None now s1 else s1).
  assert (H2 : shown s2) by (unfold s2; destruct (_ && _); [by apply shown_select|done]).
  destruct (comments_screen (if is_new then "" else c) comments s2) as [Hs Ht].
  apply (shown_same s2); [done|by rewrite Ht|done].
Qed.

Lemma shown_retry c now s : shown s -> shown (retry_pending_send c now s).
Proof.
  intros [H1 H2 H3]. split; [exact H1|exact H2|]. intros c' p. unfold retry_pending_send, pending_of. cbn.
  destruct (decide (c = c')) as [->|Hne]; [|rewrite lookup_alter_ne by done; apply H3].
  rewrite lookup_alter_eq. intros (q & Hq & ->)%fmap_Some. cbn. by apply (H3 c').
Qed.

Lemma shown_spaces l s : shown s -> shown (apply_spaces lower l s).
Proof.
  apply shown_same.
  - unfold apply_spaces. cbn. destruct (pk_space (app_picks s)) as [x|] eqn:E; cbn.
    + destruct (existsb _ _); cbn; rewrite ?E; [by split|]. destruct (first_space_on_picked_device _ _); [by split|].
      by destruct (pk_no_project (app_picks s)).
    + rewrite E. by destruct (pk_no_project (app_picks s)).
  - unfold apply_spaces. cbn. destruct (pk_space (app_picks s)) as [x|] eqn:E; cbn.
    + destruct (existsb _ _); cbn; rewrite ?E; [done|]. destruct (first_space_on_picked_device _ _); [done|].
      by destruct (pk_no_project (app_picks s)).
    + rewrite E. by destruct (pk_no_project (app_picks s)).
Qed.

Lemma shown_step k s s' : step k s = Some s' -> shown s -> shown s'.
Proof.
  destruct k as [scope d|d|l|l|l|l|c|v| |f| |c now|x|d|c cfg|is_new c e now|c e|is_new c id comments now|c now];
    cbn [app_step]; intros E H.
  - injection E as <-. unfold attach_engine. cbn [selected_chat set_local_device set_attached app_picks].
    change (selected_chat _) with (selected_chat s). destruct (selected_chat s); [by apply (shown_still s)|].
    by apply (shown_same s).
  - injection E as <-. by apply (shown_same s).
  - injection E as <-. by apply shown_chats.
  - injection E as <-. by apply (shown_same s).
  - injection E as <-. by apply shown_spaces.
  - injection E as <-. by apply (shown_same s).
  - injection E as <-. by apply (shown_same s).
  - injection E as <-. unfold apply_auth_value. destruct (parse_auth_state v); [by apply (shown_same s)|done].
  - destruct (fd_task _) as [[]|]; try done. injection E as <-. by apply (shown_still s).
  - destruct (fd_task _) as [[]|]; try done; injection E as <-; by apply shown_frame.
  - destruct (fd_task _) as [[]|]; try done; injection E as <-; by apply (shown_still s).
  - injection E as <-. by apply shown_select.
  - injection E as <-. unfold select_space. destruct x; by apply (shown_same s).
  - injection E as <-. apply (shown_same s); [|by unfold select_device; repeat case_match|done].
    unfold select_device. by repeat case_match.
  - injection E as <-. by apply (shown_same s).
  - destruct (unused _ _ _) eqn:Hu; [injection E as <-|done]. by apply shown_send.
  - destruct (_ && _) eqn:Hu; [injection E as <-|done]. apply andb_true_iff in Hu as [Hu1 Hu2].
    apply bool_decide_eq_true in Hu1. apply negb_true_iff, bool_decide_eq_false in Hu2. by apply shown_refresh.
  - injection E as <-. by apply shown_failed.
  - injection E as <-. by apply shown_retry.
Qed.

Lemma shown_run ks : shown (run ks app_new).
Proof.
  assert (H0 : shown app_new).
  { split; [intros c; apply NoDup_nil_2|done|done]. }
  revert H0. generalize app_new. induction ks as [|k ks IH]; intros s H; [done|]. cbn. apply IH.
  destruct (step k s) as [s'|] eqn:E; [by eapply shown_step|done].
Qed.

(** *** How an echo leaves *)

Lemma echo_kept_step k s s' c id :
  step k s = Some s' -> id ∈ ids (echoes_of s c) ->
  id ∈ ids (echoes_of s' c) \/
  (exists f, k = UFrame f /\ selected_chat s = Some c /\ id ∈ ids (transcript s')) \/
  (exists is_new comments now, k = UFailed is_new c id comments now).
Proof.
  assert (Hsel : forall c' now s x, echoes_of (select_chat c' now s) x = echoes_of s x).
  { intros c' now s0 x. destruct (decide (selected_chat s0 = c')) as [E|Hne]; [|by apply select_still].
    unfold select_chat. rewrite bool_decide_true by done. destruct c' as [y|]; [|done]. by destruct (seen_screen y now s0) as [[-> _ _ _] _]. }
  destruct k as [scope d|d|l|l|l|l|cn|v| |f| |c' now|x|d|c' cfg|is_new c' e now|c' e|is_new c' m comments now|c' now];
    cbn [app_step]; intros E Hin.
  - injection E as <-. left. unfold attach_engine. by destruct (selected_chat _).
  - injection E as <-. by left.
  - injection E as <-. left. unfold apply_chats. destruct (selected_chat _); [by destruct (existsb _ _)|done].
  - injection E as <-. by left.
  - injection E as <-. left. unfold apply_spaces. by repeat case_match.
  - injection E as <-. by left.
  - injection E as <-. by left.
  - injection E as <-. left. unfold apply_auth_value. by destruct (parse_auth_state v).
  - destruct (fd_task _) as [[]|]; try done. injection E as <-. by left.
  - assert (E' : s' = (app_transcript_frame f s).1) by (destruct (fd_task _) as [[]|]; try done; by injection E as <-).
    clear E. subst s'. unfold app_transcript_frame. destruct (frame_in_place (transcript s) f) as [l []]; [|by left].
    set (s1 := set_transcript l (Some TFlowing) s). cbn [fst].
    assert (Hack : forall s x, echoes_of (ack_pending_send s) x = echoes_of s x /\ transcript (ack_pending_send s) = transcript s).
    { intros s0 x. unfold ack_pending_send. destruct (selected_chat s0) as [y|]; [|done].
      destruct (pending_of s0 y) as [p|]; [|done]. by destruct (existsb _ _). }
    destruct (Hack (prune_echoes s1) c) as [-> ->]. unfold prune_echoes. change (selected_chat s1) with (selected_chat s).
    destruct (selected_chat s) as [y|] eqn:Es; [|by left]. rewrite echoes_retain. destruct (decide (y = c)) as [->|]; [|by left].
    destruct (decide (id ∈ ids l)) as [Hl|Hl]; [right; left; by exists f|left].
    apply elem_without. by split.
  - destruct (fd_task _) as [[]|]; try done; injection E as <-; by left.
  - injection E as <-. left. by rewrite Hsel.
  - injection E as <-. left. by destruct x.
  - injection E as <-. left. unfold select_device. by repeat case_match.
  - injection E as <-. by left.
  - destruct (unused _ _ _); [injection E as <-|done]. left. unfold composer_send.
    set (s1 := if is_new then _ else s). assert (H1 : echoes_of s1 c = echoes_of s c) by (unfold s1; destruct is_new; [apply Hsel|done]).
    change (id ∈ ids (echoes_of (push_echo c' e s1) c)). rewrite echoes_push, H1. destruct (decide _); [|done].
    destruct (existsb _ _); [done|]. unfold ids. rewrite fmap_app, elem_of_app. by left.
  - destruct (_ && _) eqn:Hu; [injection E as <-|done]. left. unfold refresh_echo, remove_echo.
    set (s1 := retain_echoes c' [me_id e] s). destruct (decide (c' = c)) as [->|Hne].
    + apply push_ids. unfold s1. rewrite echoes_retain, decide_True, elem_without by done.
      destruct (decide (id = me_id e)); [by right|left]. by rewrite list_elem_of_singleton.
    + rewrite echoes_push, decide_False by done. unfold s1. by rewrite echoes_retain, decide_False.
  - injection E as <-. unfold composer_failed. set (s1 := end_pending_send c' m _).
    assert (H1 : echoes_of s1 c = echoes_of (remove_echo c' m (end_upload_progress s)) c).
    { unfold s1, end_pending_send. destruct (pending_of _ c'); [by destruct (String.eqb _ _)|done]. }
    set (s2 := if _ : bool then _ else s1). assert (H2 : echoes_of s2 c = echoes_of s1 c) by (unfold s2; destruct (_ && _); [apply Hsel|done]).
    destruct (comments_screen (if is_new then "" else c') comments s2) as [[-> _ _ _] _]. rewrite H2, H1.
    unfold remove_echo. rewrite echoes_retain. destruct (decide (c' = c)) as [->|]; [|by left].
    destruct (decide (id = m)) as [->|Hne]; [right; right; by exists is_new, comments, now|left].
    apply elem_without. by rewrite list_elem_of_singleton.
  - injection E as <-. by left.
Qed.

(** C34. A message is on the screen once, from its send to its confirmation,
    whatever frames, losses, selections, sends, failures and retries come in
    any order. While the transcript flows, no message shows both as a row and as
    an echo, and no echo twice. A send that is pending has its echo, and at any
    time its chat reads as working or as not delivered, never as idle. And an
    echo leaves only for the row that confirms it, or with the failure of its
    own send. *)
Theorem message_shown_once ks :
  let s := run ks app_new in
  (fd_task (app_feed s) = Some TFlowing -> NoDup (ids (transcript s)) -> NoDup (ids (transcript s ++ pending_echoes s))) /\
  (forall c p, pending_of s c = Some p ->
     ps_message_id p ∈ ids (echoes_of s c) /\
     forall now, send_undelivered s c now = true \/ indicator_for s c now = IndWorking) /\
  (forall k s' c id, step k s = Some s' -> id ∈ ids (echoes_of s c) -> ~ id ∈ ids (echoes_of s' c) ->
     (exists f, k = UFrame f /\ selected_chat s = Some c /\ id ∈ ids (transcript s')) \/
     (exists is_new comments now, k = UFailed is_new c id comments now)).
Proof.
  cbn zeta. destruct (shown_run ks) as [H1 H2 H3]. split_and!.
  - intros Ht Hn. unfold ids. rewrite fmap_app. apply NoDup_app. split_and!; [done| |].
    + intros id Hin He. by apply (H2 Ht id).
    + unfold pending_echoes. destruct (selected_chat _); [apply H1|apply NoDup_nil_2].
  - intros c p Hp. split; [by apply (H3 c)|]. intros now. unfold send_undelivered, indicator_for, send_pending. rewrite Hp.
    destruct (in_grace p now); [by right|by left].
  - intros k s' c id E Hin Hout. by destruct (echo_kept_step k _ s' c id E Hin) as [?|?].
Qed.

(** C35. The engine's delta confirms what it carries. When the copy of the
    selected transcript is what the engine last sent, the frame to any later
    transcript -- distinct ids, surviving rows in their order, distinct text
    parts -- makes the copy that transcript and keeps the watch flowing; exactly
    the echoes of the messages it holds are gone, the others stay in the order
    they were sent, and the chat's pending send is over if and only if its
    message is among them. Nothing changes for any other chat. *)
Theorem frame_confirms s next c :
  selected_chat s = Some c -> fd_task (app_feed s) = Some TFlowing ->
  NoDup (ids (transcript s)) -> NoDup (ids next) ->
  filter (fun id => id ∈ ids next) (ids (transcript s)) = filter (fun id => id ∈ ids (transcript s)) (ids next) ->
  Forall (fun e => NoDup (text_ids e)) (transcript s) ->
  exists s', step (UFrame (diff_transcript (transcript s) next)) s = Some s' /\
    transcript s' = next /\ fd_task (app_feed s') = Some TFlowing /\
    pending_echoes s' = filter (fun e => ~ me_id e ∈ ids next) (pending_echoes s) /\
    pending_of s' c = (p ← pending_of s c; if decide (ps_message_id p ∈ ids next) then None else Some p) /\
    forall c', c' <> c -> echoes_of s' c' = echoes_of s c' /\ pending_of s' c' = pending_of s c'.
Proof.
  intros Hc Ht Hn Hn' Hord Htext. cbn [app_step]. rewrite Ht. eexists. split; [reflexivity|].
  unfold app_transcript_frame.
  rewrite (proj2 (frame_in_place_spec _ _ _) (diff_applies _ _ Hn Hn' Hord Htext)). cbn [fst].
  set (s1 := set_transcript next (Some TFlowing) s). unfold prune_echoes. change (selected_chat s1) with (selected_chat s).
  rewrite Hc. set (s2 := retain_echoes c (me_id <$> transcript s1) s1).
  assert (Hack : forall x, screen s2 (ack_pending_send s2) -> echoes_of (ack_pending_send s2) x = echoes_of s2 x) by by intros x [].
  unfold ack_pending_send. change (selected_chat s2) with (selected_chat s). rewrite Hc.
  change (pending_of s2 c) with (pending_of s c). change (transcript s2) with next.
  assert (He : forall x, echoes_of s2 x = if decide (c = x) then without (ids next) (echoes_of s x) else echoes_of s x).
  { intros x. unfold s2. by rewrite echoes_retain. }
  assert (Hpe : pending_echoes s = echoes_of s c) by (unfold pending_echoes; by rewrite Hc).
  destruct (pending_of s c) as [p|] eqn:Ep; [destruct (existsb _ next) eqn:Ex|]; cbn [mbind option_bind].
  - apply existsb_ids in Ex. rewrite decide_True by done. split_and!; [done|done| | |].
    + unfold pending_echoes at 1. change (selected_chat (on_sends _ s2)) with (selected_chat s). rewrite Hc, Hpe.
      etrans; [apply (He c)|]. by rewrite decide_True.
    + apply lookup_delete_eq.
    + intros c' Hne. split; [etrans; [apply (He c')|]; by rewrite decide_False|]. by apply lookup_delete_ne.
  - rewrite decide_False by (rewrite <- existsb_ids; by rewrite Ex). split_and!; [done|done| |done|].
    + unfold pending_echoes at 1. change (selected_chat s2) with (selected_chat s). rewrite Hc, Hpe, He. by rewrite decide_True.
    + intros c' Hne. split; [rewrite He; by rewrite decide_False|done].
  - split_and!; [done|done| |done|].
    + unfold pending_echoes at 1. change (selected_chat s2) with (selected_chat s). rewrite Hc, Hpe, He. by rewrite decide_True.
    + intros c' Hne. split; [rewrite He; by rewrite decide_False|done].
Qed.

(** ** Where the canvas points *)

Lemma find_row {A} (key : A -> string) (l : list A) x :
  NoDup (key <$> l) -> x ∈ l -> List.find (fun y => String.eqb (key y) (key x)) l = Some x.
Proof.
  induction l as [|y l IH]; intros Hn Hx; [by apply elem_of_nil in Hx|]. cbn in Hn. apply NoDup_cons in Hn as [Hy Hn].
  cbn. apply elem_of_cons in Hx as [->|Hx]; [by rewrite String.eqb_refl|].
  destruct (String.eqb_spec (key y) (key x)) as [E|_]; [|by apply IH].
  exfalso. apply Hy. rewrite E. by apply list_elem_of_fmap_2.
Qed.

Lemma sorted_row s x : NoDup (sp_id <$> spaces s) -> x ∈ spaces_sorted lower s -> space_row s (sp_id x) = Some x.
Proof. intros Hn Hx. apply find_row; [done|]. unfold spaces_sorted in Hx. by rewrite sort_by_perm in Hx. Qed.

Lemma find_in {A} (f : A -> bool) l x : List.find f l = Some x -> x ∈ l /\ f x = true.
Proof. intros H. apply find_some in H as [H1 H2]. by rewrite list_elem_of_In. Qed.

(** The project a spaces frame falls back to: the first in display order on the
    picked device, or else the first. *)
Lemma fallback_row s x :
  NoDup (sp_id <$> spaces s) -> first_space_on_picked_device lower s = Some x ->
  exists r, space_row s x = Some r /\ r ∈ spaces s /\ sp_id r = x.
Proof.
  unfold first_space_on_picked_device. set (d := match pk_device _ with Some _ => _ | None => _ end).
  intros Hn Hx. apply fmap_Some in Hx as (r & Hr & ->).
  assert (Hin : r ∈ spaces_sorted lower s).
  { destruct (d ≫= _) as [y|] eqn:E.
    - injection Hr as ->. destruct d; [|done]. cbn in E. by apply find_in in E as [? _].
    - destruct (spaces_sorted lower s); [done|]. injection Hr as ->. by left. }
  exists r. split; [by apply sorted_row|]. split; [|done]. unfold spaces_sorted in Hin. by rewrite sort_by_perm in Hin.
Qed.

Lemma device_pick d s :
  NoDup (sp_id <$> spaces s) -> effective_device_id (select_device lower d s) = Some d.
Proof.
  intros Hn. unfold select_device.
  destruct (selected_space_row s) as [x|] eqn:Ex.
  + destruct (String.eqb_spec (sp_device_id x) d) as [<-|Hne]; cbn [negb].
    * unfold effective_device_id, selected_space_row in *. cbn. destruct (pk_no_project (app_picks s)); [done|].
      change (space_row (set_picks _ s)) with (space_row s). by rewrite Ex.
    * destruct (List.find _ _) as [y|] eqn:Ey; [|done].
      apply find_in in Ey as [Hy Hd%String.eqb_eq]. unfold effective_device_id, selected_space_row. cbn.
      change (space_row (set_picks _ s)) with (space_row s). rewrite (sorted_row s y) by done. by rewrite Hd.
  + unfold effective_device_id, selected_space_row in *. cbn. destruct (pk_no_project (app_picks s)); [done|].
    change (space_row (set_picks _ s)) with (space_row s). by rewrite Ex.
Qed.

Lemma chat_pick r now s :
  chat_row s (ch_id r) = Some r -> selected_chat s <> Some (ch_id r) ->
  match ch_space_id r with
  | None => selected_space_row (select_chat (Some (ch_id r)) now s) = None /\
            effective_device_id (select_chat (Some (ch_id r)) now s) = Some (ch_device_id r)
  | Some x => selected_space_row (select_chat (Some (ch_id r)) now s) = space_row s x
  end.
Proof.
  intros Hr Hne. unfold select_chat. rewrite bool_decide_false by done. set (s1 := set_transcript [] None _).
  change (chat_row s1 (ch_id r)) with (chat_row s (ch_id r)). rewrite Hr.
  assert (Hpicks : forall s0, app_picks (mark_chat_seen (ch_id r) now s0) = app_picks s0 /\
      spaces (mark_chat_seen (ch_id r) now s0) = spaces s0).
  { intros s0. unfold mark_chat_seen. destruct (chat_row s0 _); [|done]. destruct (unseen _); [|done].
    cbn. by destruct (app_engine s0). }
  set (s2 := set_picks _ s1). destruct (Hpicks s2) as [E1 E2].
  set (s3 := mark_chat_seen (ch_id r) now s2) in *.
  assert (E : app_picks (if app_engine s3 then set_transcript (transcript s3) (Some TSubscribing) s3 else s3) = app_picks s2 /\
    spaces (if app_engine s3 then set_transcript (transcript s3) (Some TSubscribing) s3 else s3) = spaces s)
    by by destruct (app_engine s3).
  destruct E as [Ep Es]. unfold effective_device_id, selected_space_row, space_row. rewrite Ep, Es. unfold s2. cbn.
  by destruct (ch_space_id r).
Qed.

Lemma healed s1 l :
  NoDup (sp_id <$> spaces s1) -> (forall x, x ∈ spaces s1 <-> x ∈ l) -> l <> [] ->
  exists x, x ∈ l /\ pk_space (app_picks (heal lower s1)) = Some (sp_id x) /\ space_row s1 (sp_id x) = Some x.
Proof.
  intros Hl1 Hin1 Hne.
  destruct (first_space_on_picked_device lower s1) as [i|] eqn:Ef.
  - destruct (fallback_row s1 i Hl1 Ef) as (r & Hr & Hin & <-). exists r. split; [by apply Hin1|]. by rewrite <- Ef.
  - exfalso. unfold first_space_on_picked_device in Ef. destruct (_ ≫= _); [done|].
    destruct (spaces_sorted lower s1) as [|y ys] eqn:Es; [|done].
    destruct l as [|x l]; [done|]. assert (x ∈ spaces_sorted lower s1) as Hx.
    { unfold spaces_sorted. rewrite sort_by_perm. apply Hin1. by left. }
    rewrite Es in Hx. by apply elem_of_nil in Hx.
Qed.

Lemma spaces_frame s l :
  NoDup (sp_id <$> l) ->
  let s' := apply_spaces lower l s in
  (forall x, pk_space (app_picks s) = Some (sp_id x) -> x ∈ l -> pk_space (app_picks s') = Some (sp_id x)) /\
  (l <> [] -> pk_no_project (app_picks s) = false -> exists x, x ∈ l /\ selected_space_row s' = Some x).
Proof.
  intros Hl. cbn zeta.
  unfold apply_spaces. set (s1 := on_rows _ s).
  assert (Hl1 : NoDup (sp_id <$> spaces s1)).
  { change (NoDup (sp_id <$> sort_spaces l)). unfold sort_spaces. by rewrite sort_by_perm. }
  assert (Hin1 : forall x, x ∈ spaces s1 <-> x ∈ l).
  { intros x. change (x ∈ sort_spaces l <-> x ∈ l). unfold sort_spaces. by rewrite sort_by_perm. }
  change (pk_space (app_picks s1)) with (pk_space (app_picks s)).
  pose proof (healed s1 l Hl1 Hin1) as Hheal.
  destruct (pk_space (app_picks s)) as [sel|] eqn:Esel.
  + destruct (existsb _ (spaces s1)) eqn:Ex.
    * change (pk_space (app_picks s1)) with (pk_space (app_picks s)). rewrite Esel. split.
      { intros x [= ->] _. by rewrite <- Esel. }
      intros _ Hnp. apply existsb_exists in Ex as (x & Hx & E%String.eqb_eq). apply list_elem_of_In in Hx.
      exists x. split; [by apply Hin1|]. unfold selected_space_row. change (app_picks s1) with (app_picks s).
      rewrite Hnp, Esel. cbn. rewrite <- E. by apply find_row.
    * split.
      { intros x [= ->] Hx. exfalso. apply Hin1 in Hx. assert (existsb (fun y => String.eqb (sp_id y) (sp_id x)) (spaces s1) = true); [|congruence].
        apply existsb_exists. exists x. split; [by apply list_elem_of_In|apply String.eqb_refl]. }
      intros Hne Hnp. destruct (Hheal Hne) as (x & Hx & Ep & Hr). exists x. split; [done|]. rewrite Ep.
      unfold selected_space_row. rewrite Ep. cbn. change (pk_no_project (app_picks (heal lower s1))) with (pk_no_project (app_picks s)).
      rewrite Hnp. exact Hr.
  + change (pk_space (app_picks s1)) with (pk_space (app_picks s)). rewrite Esel. split; [done|].
    intros Hne Hnp. change (pk_no_project (app_picks s1)) with (pk_no_project (app_picks s)). rewrite Hnp.
    destruct (Hheal Hne) as (x & Hx & Ep & Hr). exists x. split; [done|].
    unfold selected_space_row. rewrite Ep. change (pk_no_project (app_picks (heal lower s1))) with (pk_no_project (app_picks s)).
    rewrite Hnp. exact Hr.
Qed.

(** The canvas points where it was told. With one row per project, picking
    a device makes the new session run on that device, whatever project was
    selected; picking a project makes it run on the project's host; going to a
    chat lands in the chat's project, or on its device without one. And after a
    frame of the projects a selected project that still exists stays selected,
    while a vanished one, or none without the opt-out, is replaced by a project
    that exists whenever there is one. *)
Theorem canvas_follows_pick s :
  NoDup (sp_id <$> spaces s) ->
  (forall d, effective_device_id (select_device lower d s) = Some d) /\
  (forall x, x ∈ spaces s -> effective_device_id (select_space (Some (sp_id x)) s) = Some (sp_device_id x)) /\
  (forall r now, chat_row s (ch_id r) = Some r -> selected_chat s <> Some (ch_id r) ->
     match ch_space_id r with
     | None => selected_space_row (select_chat (Some (ch_id r)) now s) = None /\
               effective_device_id (select_chat (Some (ch_id r)) now s) = Some (ch_device_id r)
     | Some x => selected_space_row (select_chat (Some (ch_id r)) now s) = space_row s x
     end) /\
  (forall l, NoDup (sp_id <$> l) ->
     let s' := apply_spaces lower l s in
     (forall x, pk_space (app_picks s) = Some (sp_id x) -> x ∈ l -> pk_space (app_picks s') = Some (sp_id x)) /\
     (l <> [] -> pk_no_project (app_picks s) = false -> exists x, x ∈ l /\ selected_space_row s' = Some x)).
Proof.
  intros Hn. split_and!; [intros d; by apply device_pick| |intros r now; apply chat_pick|intros l; apply spaces_frame].
  intros x Hx. assert (Hr : space_row s (sp_id x) = Some x) by by apply find_row.
  unfold select_space, effective_device_id, selected_space_row. rewrite Hr. cbn.
  change (space_row (set_picks _ s)) with (space_row s). by rewrite Hr.
Qed.
End Safety.
