(* ===== verification/AppLimits.v ===== *)
(** The confirmed send on a concrete transcript, and where the interface's
    promises about a send end. *)
From S2P Require Import Prelude Json Entities Text Agent Parts Transcript View RegistryApi Delivery DocHost AppState AppSafety.

#[local] Existing Instance millis_chrono.
#[local] Existing Instance string_config.
#[local] Existing Instance millis_instants.

Definition app_sample (ks : list AppStep) : AppState := app_run id id ks app_new.
Definition app_apply (k : AppStep) (s : AppState) : option AppState := app_step id id k s.

Definition app_row (id_ device : string) : Entities.Chat :=
  mk_chat id_ device None false None None None None None None 0 None None None None None.
Definition user_entry (id_ text : string) : SessionMessageEntry := mk_entry id_ User [TextPart "t0" text] 0 "local" None None.
Definition reply_entry (id_ text : string) : SessionMessageEntry := mk_entry id_ Assistant [TextPart "t0" text] 0 "local" None None.

(** Attached as device [d], chat [c] of device [h] selected, its transcript flowing. *)
Definition app_setup : list AppStep :=
  [UAttach Synced "d"; UConnectivity (mk_connectivity DocHost.Connected 0 None [mk_chat_conn "c" true 0]);
   UChats [app_row "c" "h"; app_row "o" "h"]; USelectChat (Some "c") 0; USubscribed; UFrame (Reset [reply_entry "r" "hi"])].

(** No send is pending. *)
Definition settled_send (o : option PendingSend) : bool := match o with None => true | Some _ => false end.

Lemma settled_None o : settled_send o = true -> o = None.
Proof. by destruct o. Qed.

Definition sent_state : AppState := app_sample (app_setup ++ [USend false "c" (user_entry "m" "go") 10]).

Lemma frame_confirms_witness :
  let next := [reply_entry "r" "hi"; user_entry "m" "go"; reply_entry "s" "ok"] in
  exists s', app_apply (UFrame (diff_transcript (transcript sent_state) next)) sent_state = Some s' /\
    transcript s' = next /\ pending_echoes s' = [] /\ pending_of s' "c" = None.
Proof.
  intros next.
  destruct (frame_confirms id id sent_state next "c") as (s' & E & Ht & _ & He & Hp & _).
  - vm_compute. reflexivity.
  - vm_compute. reflexivity.
  - apply (bool_decide_unpack _). vm_compute. exact I.
  - apply (bool_decide_unpack _). vm_compute. exact I.
  - vm_compute. reflexivity.
  - apply (bool_decide_unpack _). vm_compute. exact I.
  - exists s'. split; [exact E|]. split; [exact Ht|]. rewrite He, Hp.
    split; [vm_compute; reflexivity|]. apply settled_None. vm_compute. reflexivity.
Defined.

Definition project (id_ device : string) (at_ : Z) : Space := mk_space id_ device ("/" ++ id_) None true None None at_.

Lemma canvas_follows_pick_witness :
  let s := app_sample (app_setup ++ [USpaces [project "p" "d" 1; project "q" "h" 2]; USelectSpace (Some "p")]) in
  effective_device_id (select_device id "h" s) = Some "h" /\ sp_id <$> selected_space_row (select_device id "h" s) = Some "q".
Proof.
  intros s. destruct (canvas_follows_pick id s) as [Hd _]; [apply (bool_decide_unpack _); vm_compute; exact I|].
  split; [apply Hd|vm_compute; reflexivity].
Defined.

(** ** Limits *)

(** The overlay has one slot for a chat: a second send takes it, and when that
    one fails the first reads as idle, echoed and never confirmed. *)
Example failed_resend_hides_first :
  let s := app_sample (app_setup ++ [USend false "c" (user_entry "m" "go") 10; USend false "c" (user_entry "n" "and") 20;
    UFailed false "c" "n" [] 30]) in
  ids (pending_echoes s) = ["m"] /\ settled_send (pending_of s "c") = true /\ indicator_for s "c" 40 = IndNone /\
  send_undelivered s "c" 500000 = false.
Proof. split_and!; vm_compute; reflexivity. Qed.

(** Only the selected transcript confirms: leave the chat before its frame and
    the delivered message reads as failed once its grace is over, although the
    host's session ran and settled. *)
Example delivered_reads_failed :
  let s := app_sample (app_setup ++ [USend false "c" (user_entry "m" "go") 10; USelectChat (Some "o") 20; USubscribed;
    UFrame (Reset []); USessions [mk_session "c" "h" Entities.Idle (Some 30) 60000 None]]) in
  indicator_for s "c" 100000 = IndWorking /\ send_undelivered s "c" 130000 = true.
Proof. split; vm_compute; reflexivity. Qed.

(** A new chat is selected before it is created: a frame of the chats in
    between takes the selection away. *)
Example chats_frame_deselects_new :
  let s := app_sample (app_setup ++ [USend true "new" (user_entry "m" "go") 10; UChats [app_row "c" "h"; app_row "o" "h"]]) in
  selected_chat s = None /\ ids (echoes_of s "new") = ["m"].
Proof. split; vm_compute; reflexivity. Qed.

(** A frame that does not apply leaves what it did: until the next stream's first
    frame a message may show twice. *)
Example desync_shows_twice :
  let s := app_sample (app_setup ++ [USend false "c" (user_entry "m" "go") 10;
    UFrame (Delta [mk_upsert (Some "r") (user_entry "m" "go")] [] [] 3)]) in
  ids (transcript s ++ pending_echoes s) = ["r"; "m"; "m"] /\ fd_task (app_feed s) = Some TSubscribing.
Proof. split; vm_compute; reflexivity. Qed.
