(* ===== verification/Sessions.v ===== *)
(** The session rows of the engine: crates/engine/src/sessions.rs outside the
    run loop. Status rows and their freshness, the harness session a run
    resumes, and the boot recovery of interrupted runs. Clocks are whole
    milliseconds. *)
From stdpp Require Import pretty.
From S2P Require Import Prelude Json Entities Text Agent Parts Transcript SessionDoc Journal View.

(** ** Status rows *)

Abbreviation Row := (Session (C := millis_chrono)).
Abbreviation Rows := (gmap string Row).

Definition is_active (status : SessionStatus) : bool :=
  match status with Working | AwaitingInput => true | _ => false end.

(** [set_status]. *)
Definition set_row (row : Row) (status : SessionStatus) (fresh_start : bool) (now : Z) : Row :=
  let was_active := is_active (se_status row) in
  let started := match status with
                 | Working => if fresh_start || negb was_active then Some now else se_started_at row
                 | AwaitingInput => se_started_at row
                 | _ => None
                 end in
  mk_session (se_chat_id row) (se_device_id row) status started now (se_context_tokens row).

Definition new_row (chat device : string) (status : SessionStatus) (now : Z) : Row :=
  mk_session chat device status None now None.

Definition set_status (rows : Rows) (device chat : string) (status : SessionStatus) (fresh_start : bool)
    (now : Z) : Rows :=
  <[chat := set_row (default (new_row chat device status now) (rows !! chat)) status fresh_start now]> rows.

Definition TOUCH_THROTTLE_MS : Z := 10000.

Definition touch_row (row : Row) (now : Z) : Row :=
  if now - se_updated_at row <? TOUCH_THROTTLE_MS then row
  else mk_session (se_chat_id row) (se_device_id row) (se_status row) (se_started_at row) now
         (se_context_tokens row).

Definition touch_session (rows : Rows) (chat : string) (now : Z) : Rows :=
  alter (fun row => touch_row row now) chat rows.

Definition set_context_tokens (rows : Rows) (chat : string) (tokens : Z) : Rows :=
  alter (fun row => mk_session (se_chat_id row) (se_device_id row) (se_status row) (se_started_at row)
                      (se_updated_at row) (Some tokens)) chat rows.

(** The published list: by chat id. *)
Definition session_list (rows : Rows) : list Row := (btree_iter rows).*2.

Definition any_active (rows : Rows) : bool := existsb (fun row => is_active (se_status row)) (session_list rows).

(** ** The harness session to resume *)

Record HarnessSessionRef := mk_hsr { hs_session_id : string; hs_cwd : string }.

(** [journal_harness_session]: the last session id of the journal, with the
    directory of the [SessionStarted] that governs it. *)
Definition journal_scan (st : string * option (string * string)) (event : AgentEvent)
    : string * option (string * string) :=
  match event with
  | SessionStarted _ _ _ cwd session_id _ =>
      (cwd, if String.eqb session_id "" then st.2 else Some (session_id, cwd))
  | Done _ _ _ (Some session_id) =>
      (st.1, if String.eqb session_id "" then st.2 else Some (session_id, st.1))
  | _ => st
  end.

Definition journal_harness_session (events : list AgentEvent) : option (string * string) :=
  (foldl journal_scan ("", None) events).2.

Definition remember_harness_session (known : gmap string HarnessSessionRef) (chat session_id cwd : string)
    : gmap string HarnessSessionRef :=
  if String.eqb session_id "" then known else <[chat := mk_hsr session_id cwd]> known.

Definition cwd_ok (session_cwd cwd : string) : bool := String.eqb session_cwd "" || String.eqb session_cwd cwd.

(** [resume_for]: the cache, then the chat row, then the journal. *)
Definition resume_for (known : gmap string HarnessSessionRef) (row : option (string * option string))
    (journal : list AgentEvent) (chat cwd : string) : option string * gmap string HarnessSessionRef :=
  match known !! chat with
  | Some r =>
      (if negb (String.eqb (hs_session_id r) "") && cwd_ok (hs_cwd r) cwd then Some (hs_session_id r) else None,
       known)
  | None =>
      match row with
      | Some (session_id, session_cwd) =>
          (if negb (String.eqb session_id "") && cwd_ok (default "" session_cwd) cwd then Some session_id
           else None, known)
      | None =>
          match journal_harness_session journal with
          | Some (session_id, session_cwd) =>
              (if cwd_ok session_cwd cwd then Some session_id else None,
               remember_harness_session known chat session_id session_cwd)
          | None => (None, known)
          end
      end
  end.

(** ** Boot recovery *)

Definition MAX_AUTO_RESUME : N := 3.
Definition RESUME_FRESH_MS : Z := 12 * 60 * 60 * 1000.

(** The text of the last user message. *)
Definition first_text (parts : list MessagePart) : option string :=
  head (omap (fun p => match p with TextPart _ text => Some text | _ => None end) parts).

Fixpoint find_entry (test : SessionMessageEntry -> bool) (entries : list SessionMessageEntry)
    : option SessionMessageEntry :=
  match entries with
  | [] => None
  | e :: entries => if test e then Some e else find_entry test entries
  end.

Definition revival_prompt (entries : list SessionMessageEntry) : option (string * string) :=
  e ← find_entry (fun e => bool_decide (me_role e = User)) (rev entries);
  text ← first_text (me_parts e); Some (me_id e, text).

Definition is_fresh (entries : list SessionMessageEntry) (now : Z) : bool :=
  match find_entry (fun e => bool_decide (me_status e = Some Streaming)) (rev entries) with
  | Some e => now - me_created_at e <? RESUME_FRESH_MS
  | None => false
  end.

Definition will_resume (entries : list SessionMessageEntry) (attempts : N) (now : Z) : bool :=
  is_fresh entries now && (match revival_prompt entries with Some _ => true | None => false end) &&
  (attempts <? MAX_AUTO_RESUME)%N.

Definition recovery_note (resume : bool) : string :=
  if resume then "Run interrupted by engine restart — resuming" else "Run interrupted by engine restart".

(** [mark_abandoned_streams]: the streaming assistant entries of the device. *)
Definition abandoned (device : string) (e : SessionMessageEntry) : bool :=
  bool_decide (me_role e = Assistant /\ me_status e = Some Streaming /\ me_device_id e = device).

Definition mark_one (device note : string) (doc : list EntryMap) (e : SessionMessageEntry) : list EntryMap :=
  if abandoned device e then
    match set_message_status doc (me_id e) Aborted with
    | (true, doc) => (append_error_part doc (me_id e) (me_id e ++ "-recovery") note).2
    | (false, doc) => doc
    end
  else doc.

Definition mark_abandoned_streams (stable_hash : Value -> string) (device note : string)
    (doc : list EntryMap) : list EntryMap :=
  foldl (mark_one device note) doc (read_entries stable_hash doc).

(** [write_user_message]: nothing when the id is there already. *)
Definition write_user_message (stable_hash : Value -> string) (device : string) (doc : list EntryMap)
    (message_id text : string) (created_at : Z) : list EntryMap :=
  if existsb (fun e => String.eqb (me_id e) message_id) (read_entries stable_hash doc) then doc
  else push_message doc (mk_entry message_id User [TextPart "t0" text] created_at device (Some Complete) None).

(** ** Theorems *)

(** The elapsed base is only there while a turn runs. *)
Lemma set_row_started row status fresh now :
  (is_active status = false -> se_started_at (set_row row status fresh now) = None) /\
  (status = Working -> is_active (se_status row) = false -> se_started_at (set_row row status fresh now) = Some now) /\
  (status = Working -> fresh = true -> se_started_at (set_row row status fresh now) = Some now).
Proof.
  unfold set_row. split_and!.
  - by destruct status.
  - intros -> H. cbn. by rewrite H, orb_true_r.
  - by intros -> ->.
Qed.

(** A touched row is younger than the throttle. *)
Lemma touch_row_young row now :
  se_updated_at row <= now -> now - se_updated_at (touch_row row now) < TOUCH_THROTTLE_MS /\
  se_updated_at row <= se_updated_at (touch_row row now) <= now /\ se_status (touch_row row now) = se_status row.
Proof.
  unfold touch_row, TOUCH_THROTTLE_MS. destruct row as [i d st started u tokens]. cbn in u |- *. intros H.
  destruct (Z.ltb_spec (now - u) 10000); cbn; split_and!; done || lia.
Qed.

(** A resumed session was created under the run's directory, or under one that
    was never recorded. *)
Lemma resume_for_cwd known row journal chat cwd id :
  (resume_for known row journal chat cwd).1 = Some id ->
  exists session_cwd, cwd_ok session_cwd cwd = true /\
    (known !! chat = Some (mk_hsr id session_cwd) \/
     known !! chat = None /\ (exists c, row = Some (id, c) /\ session_cwd = default "" c) \/
     known !! chat = None /\ row = None /\ journal_harness_session journal = Some (id, session_cwd)).
Proof.
  unfold resume_for. destruct (known !! chat) as [[i c]|]; cbn.
  - destruct (negb _); [|done]. destruct (cwd_ok c cwd) eqn:E; [|done]. intros [= ->]. eauto.
  - destruct row as [[i c]|]; cbn.
    + destruct (negb _); [|done]. destruct (cwd_ok _ cwd) eqn:E; [|done]. intros [= ->].
      exists (default "" c). split; [done|]. right. left. eauto.
    + destruct (journal_harness_session journal) as [[i c]|]; [|done]. cbn.
      destruct (cwd_ok c cwd) eqn:E; [|done]. intros [= ->]. exists c. split; [done|]. by right; right.
Qed.

(** *** Recovery *)

(** A device whose every boot finds the turn interrupted and fresh, and whose
    revived runs never complete: the engine boots [n] times, each noting its
    attempt when it revives; [wrote] is whether the ledger write works. *)
Fixpoint crash_loop (wrote : bool) (j : RunJournal) (chat : string)
    (boots : list (list SessionMessageEntry * Z)) : nat :=
  match boots with
  | [] => 0
  | (entries, now) :: boots =>
      let j := restart j in
      if will_resume entries (resume_attempts j chat) now then
        S (crash_loop wrote (note_resume_attempt j chat wrote).2 chat boots)
      else crash_loop wrote j chat boots
  end.

(** The revival budget: however often the engine crashes in a row, an
    interrupted run is revived at most three times, whatever its transcript and
    the clocks, as long as the ledger can be written. *)
Theorem revivals_bounded j chat boots :
  (N.of_nat (crash_loop true j chat boots) <= MAX_AUTO_RESUME - resume_attempts j chat)%N.
Proof.
  revert j. induction boots as [|[entries now] boots IH]; intros j; cbn [crash_loop]; [lia|].
  change (resume_attempts (restart j) chat) with (resume_attempts j chat).
  destruct (will_resume entries (resume_attempts j chat) now) eqn:E; [|apply (IH (restart j))].
  unfold will_resume in E. apply andb_true_iff in E as [_ Hlt%N.ltb_lt]. unfold MAX_AUTO_RESUME in *.
  destruct (note_resume_attempt (restart j) chat true) as [n j'] eqn:En.
  assert (n < 2 ^ 32)%N as Hn.
  { unfold note_resume_attempt in En. injection En as <- _.
    change (resume_attempts (restart j) chat) with (resume_attempts j chat). lia. }
  destruct (note_counts _ _ _ _ En Hn) as (H1 & H2 & _).
  change (resume_attempts (restart j) chat) with (resume_attempts j chat) in H1.
  change (resume_attempts (restart j') chat) with (resume_attempts j' chat) in H2.
  cbn [snd]. specialize (IH j'). lia.
Qed.

(** With a ledger that cannot be written the budget never runs out. *)
Lemma failing_ledger_never_exhausts j chat entries now n :
  will_resume entries (resume_attempts j chat) now = true ->
  crash_loop false j chat (replicate n (entries, now)) = n.
Proof.
  intros H. revert j H. induction n as [|n IH]; intros j H; [done|]. cbn [replicate crash_loop].
  change (resume_attempts (restart j) chat) with (resume_attempts j chat). rewrite H.
  f_equal. by apply IH.
Qed.

(** *** Recovery settles the transcript *)

Section Recovery.
Context (stable_hash : Value -> string).

(** An entry map reads back with its own scalar fields, whatever its parts. *)
Lemma entry_map_scalars e :
  exists r, entry_from_json stable_hash (entry_to_value e) = Some r /\ me_id r = em_id e /\
    me_role r = em_role e /\ me_status r = em_status e /\ me_device_id r = em_device_id e.
Proof.
  rewrite entry_from_json_salvage. unfold salvage_entry, entry_to_value.
  cbn [app obj_get assoc_get String.eqb Ascii.eqb Bool.eqb mbind option_bind as_str].
  eexists. split; [reflexivity|]. cbn [me_id me_role me_status me_device_id from_option].
  split_and!; [done|by destruct (em_role e)| |done].
  destruct (em_status e) as [[]|]; cbn; try done. by destruct (em_continuation_of e).
Qed.

Lemma at_entry_index f doc k e :
  NoDup (em_id <$> doc) -> doc !! k = Some e -> at_entry (em_id e) f doc = Some (<[k := f e]> doc).
Proof.
  revert k. induction doc as [|d doc IH]; intros k Hnd Hk; [done|].
  rewrite fmap_cons in Hnd. apply NoDup_cons in Hnd as [Hd Hnd]. cbn [at_entry].
  destruct k as [|k]; cbn in Hk.
  - injection Hk as ->. by rewrite String.eqb_refl.
  - destruct (String.eqb_spec (em_id d) (em_id e)) as [E|_].
    + destruct Hd. rewrite E. apply list_elem_of_fmap_2. by eapply list_elem_of_lookup_2.
    + by rewrite (IH k).
Qed.

Definition abandoned_map (device : string) (e : EntryMap) : bool :=
  bool_decide (em_role e = Assistant /\ em_status e = Some Streaming /\ em_device_id e = device).

(** What recovery makes of one entry. *)
Definition stamped (device note : string) (e : EntryMap) : EntryMap :=
  if abandoned_map device e then
    let id := (em_id e ++ "-recovery")%string in
    let e := set_em_status e Aborted in
    if existsb (fun p => String.eqb (dp_id p) id) (em_parts e) then e
    else set_em_parts e (em_parts e ++ [to_doc_part (ErrorPart id note)])
  else e.

Lemma mark_one_index device note doc k e r :
  NoDup (em_id <$> doc) -> doc !! k = Some e ->
  me_id r = em_id e -> me_role r = em_role e -> me_status r = em_status e -> me_device_id r = em_device_id e ->
  mark_one device note doc r = <[k := stamped device note e]> doc.
Proof.
  intros Hnd Hk E1 E2 E3 E4. unfold mark_one, stamped.
  assert (abandoned device r = abandoned_map device e) as ->
    by (unfold abandoned, abandoned_map; by rewrite E2, E3, E4).
  destruct (abandoned_map device e); [|by rewrite list_insert_id].
  unfold set_message_status. rewrite E1, (at_entry_index _ _ k e) by done.
  unfold append_error_part. change (em_id e) with (em_id (set_em_status e Aborted)).
  rewrite (at_entry_index _ _ k (set_em_status e Aborted)).
  - cbn [snd]. by rewrite list_insert_insert_eq.
  - rewrite list_fmap_insert. cbn. rewrite list_insert_id; [done|]. by rewrite list_lookup_fmap, Hk.
  - apply list_lookup_insert_eq. by eapply lookup_lt_Some.
Qed.

(** C20. Recovery settles the transcript: in a document whose entries have
    distinct ids, exactly the assistant entries this device left streaming are
    stamped aborted, each with the note as an error part of its own, once;
    every other entry is untouched, and nothing of this device still streams. *)
Theorem recovery_settles device note doc :
  NoDup (em_id <$> doc) ->
  mark_abandoned_streams stable_hash device note doc = stamped device note <$> doc /\
  Forall (fun e => abandoned_map device e = false) (mark_abandoned_streams stable_hash device note doc) /\
  mark_abandoned_streams stable_hash device note (mark_abandoned_streams stable_hash device note doc) =
    mark_abandoned_streams stable_hash device note doc.
Proof.
  intros Hnd.
  assert (forall d, NoDup (em_id <$> d) ->
            mark_abandoned_streams stable_hash device note d = stamped device note <$> d) as H.
  { clear doc Hnd. intros d Hnd. unfold mark_abandoned_streams, read_entries, read_values.
    assert (forall pre suf, NoDup (em_id <$> (pre ++ suf)) ->
              foldl (mark_one device note) (pre ++ suf)
                (omap (entry_from_json stable_hash) (entry_to_value <$> suf)) =
              pre ++ (stamped device note <$> suf)) as H; [|exact (H [] d Hnd)].
    intros pre suf. revert pre. induction suf as [|e suf IH]; intros pre Hnd'; [done|].
    rewrite fmap_cons. cbn [omap list_omap]. destruct (entry_map_scalars e) as (r & -> & E1 & E2 & E3 & E4).
    cbn [foldl]. rewrite (mark_one_index device note _ (length pre) e r); try done.
    2: by rewrite list_lookup_middle.
    rewrite insert_app_r_alt by lia. rewrite Nat.sub_diag. cbn [insert list_insert].
    rewrite (cons_middle (stamped device note e)), (app_assoc pre), IH, <- app_assoc; [done|].
    rewrite <- app_assoc. cbn [app]. rewrite fmap_app, fmap_cons in *.
    assert (em_id (stamped device note e) = em_id e) as ->; [|done].
    unfold stamped. destruct (abandoned_map device e); [|done]. by destruct (existsb _ _). }
  assert (forall e, em_id (stamped device note e) = em_id e /\ abandoned_map device (stamped device note e) = false)
    as Hs.
  { intros e. unfold stamped. destruct (abandoned_map device e) eqn:E; [|done].
    destruct (existsb _ _); (split; [done|]); unfold abandoned_map; apply bool_decide_eq_false_2;
      cbn; by intros (_ & ? & _). }
  rewrite (H doc Hnd). split_and!; [done|apply Forall_fmap, Forall_true; intros e; apply Hs|].
  rewrite H.
  - rewrite <- list_fmap_compose. apply list_fmap_ext. intros i e _. cbn.
    unfold stamped at 1. by rewrite (proj2 (Hs e)).
  - rewrite <- list_fmap_compose. erewrite list_fmap_ext; [exact Hnd|]. intros i e _. apply Hs.
Qed.
End Recovery.

Lemma recovery_settles_witness :
  let e := mk_entry_map "a" Assistant [] 0 "d" (Some Streaming) None in
  mark_abandoned_streams (fun _ => "") "d" "why" [e] =
    [mk_entry_map "a" Assistant [to_doc_part (ErrorPart "a-recovery" "why")] 0 "d" (Some Aborted) None].
Proof.
  destruct (recovery_settles (fun _ => "") "d" "why"
              [mk_entry_map "a" Assistant [] 0 "d" (Some Streaming) None]) as [-> _]; [|reflexivity].
  cbn. apply NoDup_singleton.
Defined.
