(* ===== verification/Run.v ===== *)
(** The run loop of the engine: [drive_run], the subagent sinks and the segment
    helpers of crates/engine/src/sessions.rs, with the auto-compaction threshold
    of crates/proto/src/entities.rs. One run of one chat: the task's local state,
    the shared state it touches, and one definition per arm and per stage of the
    loop. Fresh ids, the SHA-256 digest, the line diff and the content hash of the
    reader are parameters. An iteration reads its clocks once; one transcript is
    one replica that other writers only append to. *)
From stdpp Require Import pretty.
From S2P Require Import Prelude Json Entities Text Agent Parts Transcript SessionDoc Journal View Sessions Writer.

(** ** The compaction threshold *)

Definition DEFAULT_CONTEXT_WINDOW : N := 200000.
Definition LONG_CONTEXT_WINDOW : N := 1000000.

Fixpoint contains (pat s : string) : bool :=
  starts_with pat s || match s with EmptyString => false | String _ s => contains pat s end.

Definition context_window_for (model : option string) (options : list (string * Value)) : N :=
  let by_suffix := match model with Some m => contains "[1m]" m | None => false end in
  let by_option := match assoc_get "contextWindow" options ≫= as_str with
                   | Some choice => String.eqb choice "1m"
                   | None => false
                   end in
  if by_suffix || by_option then LONG_CONTEXT_WINDOW else DEFAULT_CONTEXT_WINDOW.

(** Rounding to the 24 significant bits of an f32, ties to even. *)
Definition round24 (n : N) : N :=
  let sh := (N.size n - 24)%N in
  if (sh =? 0)%N then n
  else
    let q := N.shiftr n sh in
    let r := (n - N.shiftl q sh)%N in
    let half := N.shiftl 1 (sh - 1) in
    let up := (half <? r)%N || ((half =? r)%N && N.odd q) in
    N.shiftl (if up then q + 1 else q)%N sh.

(** 0.85 as an f32, in units of 2^-24. *)
Definition AUTO_COMPACT_FRACTION : N := 14260634.

Definition compact_threshold (window : N) : N :=
  N.shiftr (round24 (round24 window * AUTO_COMPACT_FRACTION)) 24.

Example thresholds :
  compact_threshold DEFAULT_CONTEXT_WINDOW = 170000%N /\ compact_threshold LONG_CONTEXT_WINDOW = 850000%N.
Proof. split; reflexivity. Qed.

(** ** Constants *)

Definition LIVE_PLAN_TOOL_ID : string := "acp-plan".
Definition STREAM_COMMIT_MS : Z := 120.
Definition SESSION_IDLE : Z := 30 * 60 * 1000.
Definition RESUME_GATE : Z := 1000.
Definition INTERRUPT_GRACE : Z := 3000.
Definition STEER_MAILBOX : nat := 32.

(** ** Data *)

(** The monotonic and the wall clock, in milliseconds. *)
Record Clock := mk_clock { mono : Z; wall : Z }.

Record RoutedSteer := mk_routed { rt_prompt : string; rt_message_id : string }.

Record SteerMessage := mk_steer { sm_prompt : string; sm_message_id : option string }.

(** [RunHandle]: what the other tasks reach of a run. *)
Record RunHandle := mk_handle {
  rh_run_id : string;
  rh_steerable : bool;
  rh_mailbox : list SteerMessage;
  rh_mailbox_open : bool;
  rh_pending : gset string;
  rh_routed : list RoutedSteer;
}.

(** What leaves the modelled state: published events, previews, resolver
    answers, frozen subagent transcripts and spawned dispatches. *)
Inductive Effect :=
  | Publish (e : AgentEvent)
  | Note (text : string)
  | ClearAttempts
  | MaybeTitle
  | AnswerEmpty (request_id : string)
  | CancelToken
  | Freeze (doc_id : string) (entries : list SessionMessageEntry)
  | RetryDispatch (message_id : string)
  | Redispatch (steers : list RoutedSteer).

Record World := mk_world {
  w_run : option RunHandle;
  w_rows : Rows;
  w_doc : list EntryMap;
  w_subdocs : gmap string (list EntryMap);
  w_known : gmap string HarnessSessionRef;
  w_out : list Effect;
}.

(** The open segment of the assistant's answer. *)
Record Segment := mk_segment {
  sg_folded : list MessagePart;
  sg_entry_id : string;
  sg_started : Z;
  sg_writer : option SegmentWriter;
  sg_dirty : bool;
}.

Record SubagentSink := mk_sink {
  sk_doc_id : string;
  sk_entry_id : string;
  sk_started_at : Z;
  sk_entry_index : option nat;
  sk_written : list MessagePart;
  sk_folded : list MessagePart;
  sk_dirty : bool;
}.

(** The flags and instants of the loop. *)
Record Turn := mk_turn {
  tn_interrupted : bool;
  tn_deadline : option Z;
  tn_saw_started : bool;
  tn_idle_since : option Z;
  tn_last_activity : Z;
  tn_self_continued : bool;
  tn_compact_pending : bool;
}.

Record RunState := mk_run {
  rs_seg : Segment;
  rs_turn : Turn;
  rs_seen : gset string;
  rs_settled : gset string;
  rs_sinks : gmap string SubagentSink;
  rs_flush_at : Z;
  rs_ids : nat;
  rs_world : World;
}.

(** What is fixed when the run starts. *)
Record Env := mk_env {
  v_chat : string;
  v_device : string;
  v_run_id : string;
  v_cwd : string;
  v_message_id : string;
  v_steerable : bool;
  v_deterministic_end : bool;
  v_turn_quiesce_ms : option Z;
  v_self_quiesce_ms : option Z;
  v_compact_at : N;
  v_resume_injected : bool;
  v_startup_retry : bool;
  v_can_open : string -> bool;
  v_titles : bool;
}.

(** *** Updates *)

Definition set_seg (g : Segment) (s : RunState) : RunState :=
  mk_run g (rs_turn s) (rs_seen s) (rs_settled s) (rs_sinks s) (rs_flush_at s) (rs_ids s) (rs_world s).
Definition set_turn (t : Turn) (s : RunState) : RunState :=
  mk_run (rs_seg s) t (rs_seen s) (rs_settled s) (rs_sinks s) (rs_flush_at s) (rs_ids s) (rs_world s).
Definition set_seen (x : gset string) (s : RunState) : RunState :=
  mk_run (rs_seg s) (rs_turn s) x (rs_settled s) (rs_sinks s) (rs_flush_at s) (rs_ids s) (rs_world s).
Definition set_settled (x : gset string) (s : RunState) : RunState :=
  mk_run (rs_seg s) (rs_turn s) (rs_seen s) x (rs_sinks s) (rs_flush_at s) (rs_ids s) (rs_world s).
Definition set_sinks (x : gmap string SubagentSink) (s : RunState) : RunState :=
  mk_run (rs_seg s) (rs_turn s) (rs_seen s) (rs_settled s) x (rs_flush_at s) (rs_ids s) (rs_world s).
Definition set_flush_at (x : Z) (s : RunState) : RunState :=
  mk_run (rs_seg s) (rs_turn s) (rs_seen s) (rs_settled s) (rs_sinks s) x (rs_ids s) (rs_world s).
Definition set_ids (x : nat) (s : RunState) : RunState :=
  mk_run (rs_seg s) (rs_turn s) (rs_seen s) (rs_settled s) (rs_sinks s) (rs_flush_at s) x (rs_world s).
Definition set_world (w : World) (s : RunState) : RunState :=
  mk_run (rs_seg s) (rs_turn s) (rs_seen s) (rs_settled s) (rs_sinks s) (rs_flush_at s) (rs_ids s) w.

Definition set_folded (x : list MessagePart) (g : Segment) : Segment :=
  mk_segment x (sg_entry_id g) (sg_started g) (sg_writer g) (sg_dirty g).
Definition set_writer (x : option SegmentWriter) (g : Segment) : Segment :=
  mk_segment (sg_folded g) (sg_entry_id g) (sg_started g) x (sg_dirty g).
Definition set_dirty (x : bool) (g : Segment) : Segment :=
  mk_segment (sg_folded g) (sg_entry_id g) (sg_started g) (sg_writer g) x.

Definition set_interrupted (deadline : Z) (t : Turn) : Turn :=
  mk_turn true (Some deadline) (tn_saw_started t) (tn_idle_since t) (tn_last_activity t)
    (tn_self_continued t) (tn_compact_pending t).
Definition set_saw_started (t : Turn) : Turn :=
  mk_turn (tn_interrupted t) (tn_deadline t) true (tn_idle_since t) (tn_last_activity t)
    (tn_self_continued t) (tn_compact_pending t).
Definition set_idle_since (x : option Z) (t : Turn) : Turn :=
  mk_turn (tn_interrupted t) (tn_deadline t) (tn_saw_started t) x (tn_last_activity t)
    (tn_self_continued t) (tn_compact_pending t).
Definition set_last_activity (x : Z) (t : Turn) : Turn :=
  mk_turn (tn_interrupted t) (tn_deadline t) (tn_saw_started t) (tn_idle_since t) x
    (tn_self_continued t) (tn_compact_pending t).
Definition set_self_continued (x : bool) (t : Turn) : Turn :=
  mk_turn (tn_interrupted t) (tn_deadline t) (tn_saw_started t) (tn_idle_since t) (tn_last_activity t)
    x (tn_compact_pending t).
Definition set_compact_pending (x : bool) (t : Turn) : Turn :=
  mk_turn (tn_interrupted t) (tn_deadline t) (tn_saw_started t) (tn_idle_since t) (tn_last_activity t)
    (tn_self_continued t) x.

Definition set_w_run (x : option RunHandle) (w : World) : World :=
  mk_world x (w_rows w) (w_doc w) (w_subdocs w) (w_known w) (w_out w).
Definition set_w_rows (x : Rows) (w : World) : World :=
  mk_world (w_run w) x (w_doc w) (w_subdocs w) (w_known w) (w_out w).
Definition set_w_doc (x : list EntryMap) (w : World) : World :=
  mk_world (w_run w) (w_rows w) x (w_subdocs w) (w_known w) (w_out w).
Definition set_w_subdocs (x : gmap string (list EntryMap)) (w : World) : World :=
  mk_world (w_run w) (w_rows w) (w_doc w) x (w_known w) (w_out w).
Definition set_w_known (x : gmap string HarnessSessionRef) (w : World) : World :=
  mk_world (w_run w) (w_rows w) (w_doc w) (w_subdocs w) x (w_out w).
Definition w_emit (x : Effect) (w : World) : World :=
  mk_world (w_run w) (w_rows w) (w_doc w) (w_subdocs w) (w_known w) (w_out w ++ [x]).

Definition set_pending (x : gset string) (h : RunHandle) : RunHandle :=
  mk_handle (rh_run_id h) (rh_steerable h) (rh_mailbox h) (rh_mailbox_open h) x (rh_routed h).
Definition set_routed (x : list RoutedSteer) (h : RunHandle) : RunHandle :=
  mk_handle (rh_run_id h) (rh_steerable h) (rh_mailbox h) (rh_mailbox_open h) (rh_pending h) x.
Definition set_mailbox (x : list SteerMessage) (h : RunHandle) : RunHandle :=
  mk_handle (rh_run_id h) (rh_steerable h) x (rh_mailbox_open h) (rh_pending h) (rh_routed h).

Definition upd_seg (f : Segment -> Segment) (s : RunState) : RunState := set_seg (f (rs_seg s)) s.
Definition upd_turn (f : Turn -> Turn) (s : RunState) : RunState := set_turn (f (rs_turn s)) s.
Definition upd_world (f : World -> World) (s : RunState) : RunState := set_world (f (rs_world s)) s.
Definition emit (x : Effect) : RunState -> RunState := upd_world (w_emit x).

Definition folded (s : RunState) : list MessagePart := sg_folded (rs_seg s).
Definition idle_since (s : RunState) : option Z := tn_idle_since (rs_turn s).
Definition interrupted (s : RunState) : bool := tn_interrupted (rs_turn s).

(** ** Helpers *)

Definition folded_text (parts : list MessagePart) : string :=
  String.concat (String newline "")
    (omap (fun p => match p with TextPart _ text => Some text | _ => None end) parts).

(** [render_parts]: heavy tool inputs are stripped before the document. *)
Definition render_part (p : MessagePart) : MessagePart :=
  match p with Tool t => Tool (set_call (sanitize_tool_call (tp_call t)) t) | p => p end.
Definition render_parts (parts : list MessagePart) : list MessagePart := render_part <$> parts.

Definition is_tool (id : string) (p : MessagePart) : bool :=
  match p with Tool t => String.eqb (tp_id t) id | _ => false end.
Definition in_segment (parts : list MessagePart) (id : string) : bool := existsb (is_tool id) parts.

(** [fold_has_in_flight_work]: the live plan never resolves and never counts. *)
Definition fold_has_in_flight_work (parts : list MessagePart) : bool :=
  existsb (fun p => match p with
                    | Tool t => negb (tp_resolved t) && negb (String.eqb (tp_id t) LIVE_PLAN_TOOL_ID)
                    | Input _ _ _ resolved => negb resolved
                    | _ => false
                    end) parts.

(** [PathBuf::join] of the standard library. *)
Definition path_join (base p : string) : string :=
  if starts_with "/" p then p
  else if bool_decide (last_byte base = Some slash) then (base ++ p)%string
  else (base ++ String slash p)%string.

Definition expand_home (home_dir cwd : string) : string :=
  match strip_prefix "~" cwd with
  | Some EmptyString => home_dir
  | Some (String a rest) => if Ascii.eqb a slash then path_join home_dir rest else cwd
  | None => cwd
  end.

Definition is_done (e : AgentEvent) : bool := match e with Done _ _ _ _ => true | _ => false end.
Definition is_steer (e : AgentEvent) : bool := match e with UserMessage _ => true | _ => false end.

Definition subagent_chip_update (e : AgentEvent) : option string :=
  match e with
  | Done Errored _ _ _ => Some "failed"
  | Done _ _ _ _ => Some "done"
  | _ => Some "running"
  end.

(** The status a turn end stamps on its entry, and the one it leaves on the row. *)
Definition message_status (st : DoneStatus) : MessageStatus :=
  match st with Interrupted => Aborted | _ => Complete end.
Definition settled_status (st : DoneStatus) : SessionStatus :=
  match st with Errored => Entities.Errored | _ => Idle end.

Definition set_subagent_ref (sub_id : string) (t : ToolPart) : ToolPart :=
  mk_tool_part (tp_id t) (tp_call t) (tp_is_error t) (tp_resolved t) (tp_output t) (tp_diff t)
    (tp_output_ref t) (tp_output_bytes t) (tp_diff_ref t) (tp_diff_stats t) (Some sub_id)
    (tp_subagent_status t) (tp_subagent_tail t).

Definition stamp_ref (parent sub_id : string) (p : MessagePart) : MessagePart :=
  match p with
  | Tool t => if String.eqb (tp_id t) parent then Tool (set_subagent_ref sub_id t) else p
  | _ => p
  end.

Definition close_input (p : MessagePart) : MessagePart :=
  match p with Input id rid questions _ => Input id rid questions true | _ => p end.

(** ** The outcome of a stage *)

Inductive Flow :=
  | Pass (s : RunState)                            (* fall through to the next stage *)
  | Continue (s : RunState)                        (* [continue] *)
  | Break (s : RunState) (st : SessionStatus)      (* [break st] *)
  | Return (s : RunState).                         (* [return] *)

Definition and_then (f : Flow) (k : RunState -> Flow) : Flow :=
  match f with Pass s => k s | _ => f end.

Declare Scope flow_scope.
Delimit Scope flow_scope with flow.
Notation "f >=> g" := (fun s => and_then (f s) g) (at level 60, right associativity) : flow_scope.

(** ** The loop *)

Section Run.
Context (new_id : nat -> string) (digest_hex : string -> string).
Context (text_diff : string -> string -> N * N) (stable_hash : Value -> string).
Context (v : Env).

Abbreviation fold := (fold_event_into_parts text_diff).

(** Clean ids of a fitting length ride verbatim, others hash. *)
Definition subagent_doc_id (chat tool_use_id : string) : string :=
  let clean := forallb kept (String.list_ascii_of_string tool_use_id) in
  let budget := (128 - (String.length chat + String.length "--sub--"))%nat in
  if clean && negb (String.eqb tool_use_id "") && (String.length tool_use_id <=? budget)%nat
  then (chat ++ "--sub--" ++ tool_use_id)%string
  else (chat ++ "--sub--" ++ digest_hex tool_use_id)%string.

(** *** Shared state *)

(** The handle, if it is still this run's. *)
Definition live_handle (w : World) : option RunHandle :=
  match w_run w with
  | Some h => if String.eqb (rh_run_id h) (v_run_id v) then Some h else None
  | None => None
  end.

Definition upd_live (f : RunHandle -> RunHandle) (w : World) : World :=
  match live_handle w with Some h => set_w_run (Some (f h)) w | None => w end.

Definition remove_run (w : World) : World :=
  match live_handle w with Some _ => set_w_run None w | None => w end.

Definition publish_event (e : AgentEvent) : RunState -> RunState := emit (Publish e).

Definition note_message (text : string) (s : RunState) : RunState :=
  if String.eqb text "" then s else emit (Note text) s.

Definition set_row_status (st : SessionStatus) (fresh_start : bool) (c : Clock) : RunState -> RunState :=
  upd_world (fun w => set_w_rows (set_status (w_rows w) (v_device v) (v_chat v) st fresh_start (wall c)) w).

Definition touch_chat (c : Clock) : RunState -> RunState :=
  upd_world (fun w => set_w_rows (touch_session (w_rows w) (v_chat v) (wall c)) w).

Definition remember (session_id cwd : string) : RunState -> RunState :=
  upd_world (fun w => set_w_known (remember_harness_session (w_known w) (v_chat v) session_id cwd) w).

Definition update_chip (parent : string) (r st : option string) : RunState -> RunState :=
  upd_world (fun w => set_w_doc (update_subagent_chip (w_doc w) parent r st None).2 w).

(** Dropping every parked resolver with an empty answer. *)
Definition drain_pending (s : RunState) : RunState :=
  match live_handle (rs_world s) with
  | Some h =>
      let s := upd_world (upd_live (set_pending ∅)) s in
      foldl (fun s id => emit (AnswerEmpty id) s) s (elements (rh_pending h))
  | None => s
  end.

Definition take_id (s : RunState) : string * RunState := (new_id (rs_ids s), set_ids (S (rs_ids s)) s).

(** *** Segments *)

Definition sync_segment (s : RunState) : RunState :=
  let g := rs_seg s in
  match sg_folded g with
  | [] => s
  | _ =>
      let '(doc, w) := match sg_writer g with
                       | Some w => (w_doc (rs_world s), w)
                       | None => begin (w_doc (rs_world s)) (sg_entry_id g) (v_device v) (sg_started g)
                       end in
      let '(doc, w) := default (doc, w) (sync doc w (render_parts (sg_folded g))) in
      upd_world (set_w_doc doc) (upd_seg (set_writer (Some w)) s)
  end.

Definition finish_segment (st : MessageStatus) (s : RunState) : RunState :=
  let g := rs_seg s in
  let rendered := render_parts (sg_folded g) in
  let s' := upd_seg (set_writer None) s in
  match sg_writer g, sg_folded g with
  | Some w, _ => upd_world (set_w_doc (default (w_doc (rs_world s)) (finish (w_doc (rs_world s)) w rendered st))) s'
  | None, [] => s'
  | None, _ =>
      let '(doc, w) := begin (w_doc (rs_world s)) (sg_entry_id g) (v_device v) (sg_started g) in
      upd_world (set_w_doc (default doc (finish doc w rendered st))) s'
  end.

(** The reset of a segment: a new entry id and start, nothing folded. *)
Definition next_segment (entry_id : option string) (c : Clock) (s : RunState) : RunState :=
  let '(id, s) := match entry_id with Some id => (id, s) | None => take_id s end in
  upd_seg (fun g => mk_segment [] id (wall c) (sg_writer g) false) s.

Definition mark_dirty (c : Clock) (s : RunState) : RunState :=
  if sg_dirty (rs_seg s) then s
  else set_flush_at (mono c + STREAM_COMMIT_MS) (upd_seg (set_dirty true) s).

(** A new entry id and start, the fold kept. *)
Definition rotate (c : Clock) (s : RunState) : RunState :=
  let '(id, s) := take_id s in
  upd_seg (fun g => mk_segment (sg_folded g) id (wall c) (sg_writer g) (sg_dirty g)) s.

(** *** Subagent sinks

    Each works on the sink's own document. *)
Definition sink_writer (doc : list EntryMap) (k : SubagentSink) : list EntryMap * SegmentWriter :=
  match sk_entry_index k with
  | Some ix => (doc, mk_writer ix (sk_written k))
  | None => begin doc (sk_entry_id k) (v_device v) (sk_started_at k)
  end.

Definition sink_flush (doc : list EntryMap) (k : SubagentSink) : list EntryMap * SubagentSink :=
  if negb (sk_dirty k) || match sk_folded k with [] => true | _ => false end then (doc, k)
  else
    let '(doc, w) := sink_writer doc k in
    let '(doc, w) := default (doc, w) (sync doc w (render_parts (sk_folded k))) in
    (doc, mk_sink (sk_doc_id k) (sk_entry_id k) (sk_started_at k) (Some (sw_entry_index w)) (sw_written w)
            (sk_folded k) false).

(** The open entry of a sink finished under a status. *)
Definition sink_close (st : MessageStatus) (doc : list EntryMap) (k : SubagentSink) : list EntryMap :=
  match sk_entry_index k, sk_folded k with
  | None, [] => doc
  | _, _ =>
      let '(doc, w) := sink_writer doc k in
      default doc (finish doc w (render_parts (sk_folded k)) st)
  end.

Definition sink_push_user (user_id next_id text : string) (c : Clock) (doc : list EntryMap)
    (k : SubagentSink) : list EntryMap * SubagentSink :=
  let doc := sink_close Complete doc k in
  (push_message doc (mk_entry user_id User [TextPart "t0" text] (wall c) (v_device v) (Some Complete) None),
   mk_sink (sk_doc_id k) next_id (wall c) None [] [] false).

Definition sink_doc (w : World) (k : SubagentSink) : list EntryMap := default [] (w_subdocs w !! sk_doc_id k).
Definition set_sink_doc (k : SubagentSink) (doc : list EntryMap) (w : World) : World :=
  set_w_subdocs (<[sk_doc_id k := doc]> (w_subdocs w)) w.

(** [finish] and the upload of the frozen transcript. *)
Definition freeze_sink (st : MessageStatus) (k : SubagentSink) (s : RunState) : RunState :=
  let doc := sink_close st (sink_doc (rs_world s) k) k in
  emit (Freeze (sk_doc_id k) (join_continuation_entries (read_entries stable_hash doc)))
    (upd_world (set_sink_doc k doc) s).

(** A tick over every sink; the order of the map is not observable while the
    sinks have different documents. *)
Definition flush_sink (s : RunState) (e : string * SubagentSink) : RunState :=
  let '(parent, k) := e in
  let '(doc, k) := sink_flush (sink_doc (rs_world s) k) k in
  set_sinks (<[parent := k]> (rs_sinks s)) (upd_world (set_sink_doc k doc) s).

Definition flush_sinks (s : RunState) : RunState := foldl flush_sink s (map_to_list (rs_sinks s)).

(** *** Subagent routing *)

(** A tagged event on a chip of the open segment. *)
Definition chip_fold (parent sub_id : string) (known : bool) (e : AgentEvent) (c : Clock) (s : RunState)
    : RunState :=
  let s := if known then s else upd_seg (fun g => set_folded (stamp_ref parent sub_id <$> sg_folded g) g) s in
  mark_dirty c (upd_seg (fun g => set_folded (fold (sg_folded g) e) g) s).

Definition open_sink (parent sub_id : string) (chip : bool) (c : Clock) (s : RunState) : RunState :=
  if v_can_open v sub_id then
    let '(id, s) := take_id s in
    let k := mk_sink sub_id id (wall c) None [] [] false in
    let s := set_sinks (<[parent := k]> (rs_sinks s)) (upd_world (set_sink_doc k (sink_doc (rs_world s) k)) s) in
    if chip then s else update_chip parent (Some sub_id) (Some "running") s
  else s.

(** What the sink does with the event. *)
Definition feed_sink (parent : string) (chip : bool) (e : AgentEvent) (c : Clock) (k : SubagentSink)
    (s : RunState) : RunState :=
  match e with
  | UserMessage text =>
      let '(user_id, s) := take_id s in
      let '(next_id, s) := take_id s in
      let '(doc, k) := sink_push_user user_id next_id text c (sink_doc (rs_world s) k) k in
      set_sinks (<[parent := k]> (rs_sinks s)) (upd_world (set_sink_doc k doc) s)
  | _ =>
      let k := mk_sink (sk_doc_id k) (sk_entry_id k) (sk_started_at k) (sk_entry_index k) (sk_written k)
                 (fold (sk_folded k) e) true in
      let s := set_sinks (<[parent := k]> (rs_sinks s)) s in
      match e with
      | Done st _ _ _ =>
          let s := if chip then s else update_chip parent None (subagent_chip_update e) s in
          freeze_sink (message_status st) k (set_sinks (delete parent (rs_sinks s)) s)
      | _ => s
      end
  end.

Definition route_subagent (parent : string) (e : AgentEvent) (c : Clock) (s : RunState) : RunState :=
  let s := publish_event (Subagent parent e) s in
  let known := match rs_sinks s !! parent with Some _ => true | None => false end in
  if negb (is_steer e) && bool_decide (parent ∈ rs_settled s) && negb known then s
  else
    let s := if is_steer e then set_settled (rs_settled s ∖ {[parent]}) s else s in
    let sub_id := subagent_doc_id (v_chat v) parent in
    let chip := in_segment (folded s) parent in
    let s := if chip then chip_fold parent sub_id known (Subagent parent e) c s else s in
    let s := if negb known && negb (is_done e) then open_sink parent sub_id chip c s else s in
    let s := if is_done e then set_settled ({[parent]} ∪ rs_settled s) s else s in
    match rs_sinks s !! parent with
    | Some k => feed_sink parent chip e c k s
    | None => s
    end.

(** *** The stages of an event *)

(** The engine's bridge parks a resolver before it emits: an unknown request is
    a harness's own copy. *)
Definition drop_unknown_input (e : AgentEvent) (s : RunState) : Flow :=
  match e with
  | InputRequested id _ =>
      if match w_run (rs_world s) with Some h => bool_decide (id ∈ rh_pending h) | None => false end
      then Pass s else Continue s
  | _ => Pass s
  end.

(** Output that resumes a parked session by itself. *)
Definition self_continues (e : AgentEvent) (at_ : Z) (c : Clock) (s : RunState) : bool :=
  (RESUME_GATE <=? mono c - at_) &&
  match e with
  | TextDelta text => negb (String.eqb text "")
  | ToolCallEv id _ => String.eqb id LIVE_PLAN_TOOL_ID || negb (bool_decide (id ∈ rs_seen s))
  | _ => false
  end.

Definition answer_empty (id : string) (s : RunState) : RunState :=
  match w_run (rs_world s) with
  | Some h =>
      if bool_decide (id ∈ rh_pending h) then
        emit (AnswerEmpty id) (upd_world (set_w_run (Some (set_pending (rh_pending h ∖ {[id]}) h))) s)
      else s
  | None => s
  end.

Definition unpark : RunState -> RunState := upd_turn (set_idle_since None).

Definition parked_gate (e : AgentEvent) (c : Clock) (s : RunState) : Flow :=
  match idle_since s with
  | None => Pass s
  | Some at_ =>
      if self_continues e at_ c s then
        Pass (set_row_status Working true c (rotate c (upd_turn (set_self_continued true) (unpark s))))
      else
        match e with
        | Steered _ _ => Pass (set_row_status Working true c (unpark s))
        | Done _ _ _ _ => Pass (unpark s)
        | InputRequested id _ => Continue (answer_empty id s)
        | _ => Continue s
        end
  end.

Definition drop_heartbeat (e : AgentEvent) (s : RunState) : Flow :=
  match e with
  | ReasoningDelta text => if String.eqb text "" then Continue s else Pass s
  | _ => Pass s
  end.

(** An echo of a tool of an earlier segment. *)
Definition drop_echo (e : AgentEvent) (s : RunState) : Flow :=
  let stale id := negb (in_segment (folded s) id) && bool_decide (id ∈ rs_seen s) in
  match e with
  | ToolCallEv id _ =>
      if String.eqb id LIVE_PLAN_TOOL_ID then Pass s
      else if stale id then Continue s else Pass (set_seen ({[id]} ∪ rs_seen s) s)
  | ToolResult id _ _ _ =>
      if String.eqb id LIVE_PLAN_TOOL_ID then Pass s else if stale id then Continue s else Pass s
  | _ => Pass s
  end.

(** The child died before it started: one retry. The kept request is taken only
    here, where the run returns. *)
Definition startup_retry (e : AgentEvent) (s : RunState) : Flow :=
  match e with
  | Done Errored _ _ _ =>
      if v_resume_injected v && negb (v_startup_retry v) && negb (tn_saw_started (rs_turn s)) &&
         match folded s with [] => true | _ => false end && negb (interrupted s)
      then Return (emit (RetryDispatch (v_message_id v)) (upd_world remove_run s))
      else Pass s
  | _ => Pass s
  end.

(** A steer boundary splits the entry where the fold resets, and confirms the
    oldest accepted steer. *)
Definition steer_boundary (e : AgentEvent) (c : Clock) (s : RunState) : Flow :=
  match e with
  | Steered _ next =>
      let s := upd_turn (set_self_continued false) (publish_event e s) in
      let text := folded_text (folded s) in
      let s := note_message text (finish_segment Complete s) in
      let s := set_row_status Working true c (next_segment next c s) in
      Continue (upd_world (upd_live (fun h => set_routed (tail (rh_routed h)) h)) s)
  | _ => Pass s
  end.

(** The events that touch the session's row, ids and context size. *)
Definition session_effects (e : AgentEvent) (c : Clock) (s : RunState) : Flow :=
  match e with
  | SessionStarted _ _ _ cwd session_id _ => Pass (remember session_id cwd (upd_turn set_saw_started s))
  | Done _ _ _ (Some session_id) => Pass (remember session_id (v_cwd v) s)
  | InputRequested _ _ => Pass (set_row_status AwaitingInput false c s)
  | InputResolved _ => Pass (set_row_status Working false c s)
  | Usage _ _ tokens =>
      if (0 <? tokens)%N then
        let s := upd_world (fun w => set_w_rows
                   (Sessions.set_context_tokens (w_rows w) (v_chat v) (Z.of_N tokens)) w) s in
        Pass (if (v_compact_at v <=? tokens)%N then upd_turn (set_compact_pending true) s else s)
      else Pass s
  | _ => Pass s
  end.

(** A re-emitted [SessionStarted] must not wipe the open segment. *)
Definition publish_and_fold (e : AgentEvent) (s : RunState) : Flow :=
  let s := publish_event e s in
  let skip := match e, folded s with SessionStarted _ _ _ _ _ _, _ :: _ => true | _, _ => false end in
  Pass (if skip then s else upd_seg (fun g => set_folded (fold (sg_folded g) e) g) s).

(** [/compact] into the mailbox, without a ledger entry. *)
Definition send_compact (s : RunState) : option RunState :=
  match live_handle (rs_world s) with
  | Some h =>
      if rh_mailbox_open h && (length (rh_mailbox h) <? STEER_MAILBOX)%nat then
        Some (upd_world (set_w_run (Some (set_mailbox (rh_mailbox h ++ [mk_steer "/compact" None]) h))) s)
      else None
  | None => None
  end.

Definition park (st : SessionStatus) (c : Clock) (s : RunState) : RunState :=
  let s := upd_turn (set_idle_since (Some (mono c))) (next_segment None c s) in
  set_row_status st false c (upd_turn (set_self_continued false) s).

(** A completed turn of a steerable harness stays: compacting, or parked. *)
Definition keep_session (c : Clock) (s : RunState) : RunState :=
  let parked s := park Idle c (upd_turn set_saw_started s) in
  if tn_compact_pending (rs_turn s) then
    let s := upd_turn (set_compact_pending false) s in
    match send_compact s with
    | Some s => upd_turn (fun t => set_self_continued false (set_saw_started t)) (next_segment None c s)
    | None => parked s
    end
  else parked s.

Definition turn_end (e : AgentEvent) (c : Clock) (s : RunState) : Flow :=
  match e with
  | Done st _ _ _ =>
      let s := upd_seg (fun g => set_folded (close_input <$> sg_folded g) g) (drain_pending s) in
      let text := folded_text (folded s) in
      let s := match sg_writer (rs_seg s), folded s with
               | None, [] => s
               | _, _ => note_message text (finish_segment (message_status st) s)
               end in
      let completed := match st with Completed => true | _ => false end in
      let s := if completed then emit ClearAttempts s else s in
      let s := if completed && v_titles v then emit MaybeTitle s else s in
      if completed && v_steerable v && negb (interrupted s) then Continue (keep_session c s)
      else Break s (settled_status st)
  | _ => Pass s
  end.

Definition schedule_flush (c : Clock) (s : RunState) : Flow :=
  Pass (match folded s with [] => s | _ => mark_dirty c s end).

(** One event through the stages, in the order of the source. *)
Definition handle_event (e : AgentEvent) (c : Clock) (s : RunState) : Flow :=
  match e with
  | Subagent parent e => Continue (route_subagent parent e c s)
  | _ =>
      (drop_unknown_input e >=> parked_gate e c >=> drop_heartbeat e >=> drop_echo e >=> startup_retry e >=>
       steer_boundary e c >=> session_effects e c >=> publish_and_fold e >=> turn_end e c >=>
       schedule_flush c)%flow (upd_turn (set_last_activity (mono c)) (touch_chat c s))
  end.

(** *** The arms of the select *)

Inductive StreamItem := ItemOk (e : AgentEvent) | ItemErr (message : string) | ItemEnd.

(** What is ready when the select polls: the cancel signal, the heartbeat tick,
    the heads of the engine channel and of the harness stream. *)
Record Ready := mk_ready {
  rd_cancel : bool;
  rd_heartbeat : bool;
  rd_engine : option AgentEvent;
  rd_stream : option StreamItem;
}.

Definition quiesce_after : option Z :=
  match v_turn_quiesce_ms v with
  | Some ms => if ms =? 0 then None else Some ms
  | None => if v_deterministic_end v then None else Some 120000
  end.

Definition self_quiesce_after : option Z :=
  match v_self_quiesce_ms v with Some ms => if ms =? 0 then None else Some ms | None => Some 20000 end.

Definition quiesce_window (s : RunState) (window : Z) : Z :=
  match self_quiesce_after with
  | Some short => if tn_self_continued (rs_turn s) then Z.min window short else window
  | None => window
  end.

Definition synthetic (st : DoneStatus) (error : option string) : AgentEvent := Done st None error None.

Definition due (at_ : option Z) (c : Clock) : bool := match at_ with Some t => t <=? mono c | None => false end.

Inductive Arm :=
  | ArmCancel | ArmDeadline | ArmHeartbeat | ArmReap | ArmEngine (e : AgentEvent) | ArmStream (i : StreamItem)
  | ArmFlush | ArmQuiesce.

Definition any_dirty (s : RunState) : bool :=
  sg_dirty (rs_seg s) || existsb (fun e => sk_dirty e.2) (map_to_list (rs_sinks s)).

Definition quiesce_armed (s : RunState) : bool :=
  match idle_since s with None => true | _ => false end && negb (interrupted s) && v_steerable v &&
  negb (fold_has_in_flight_work (folded s)).

(** The biased select: the first ready arm, top to bottom; [None] waits. *)
Definition select (rd : Ready) (c : Clock) (s : RunState) : option Arm :=
  if rd_cancel rd && negb (interrupted s) then Some ArmCancel
  else if due (tn_deadline (rs_turn s)) c then Some ArmDeadline
  else if rd_heartbeat rd then Some ArmHeartbeat
  else if due (Z.add SESSION_IDLE <$> idle_since s) c then Some ArmReap
  else match rd_engine rd, rd_stream rd with
  | Some e, _ => Some (ArmEngine e)
  | None, Some i => Some (ArmStream i)
  | None, None =>
      if any_dirty s && (rs_flush_at s <=? mono c) then Some ArmFlush
      else match quiesce_after with
           | Some window =>
               if quiesce_armed s && (tn_last_activity (rs_turn s) + quiesce_window s window <=? mono c)
               then Some ArmQuiesce else None
           | None => None
           end
  end.

Definition flush (s : RunState) : RunState :=
  let s := if sg_dirty (rs_seg s) then upd_seg (set_dirty false) (sync_segment s) else s in
  flush_sinks s.

(** The watchdog's settle of a silent turn. *)
Definition quiesce (c : Clock) (s : RunState) : RunState :=
  let s := if tn_self_continued (rs_turn s) then s
           else upd_seg (fun g => set_folded
                  (fold (sg_folded g) (ErrorEv "Turn settled — agent went quiet.")) g) s in
  let text := folded_text (folded s) in
  let s := match sg_writer (rs_seg s), folded s with
           | None, [] => s
           | _, _ => note_message text (finish_segment Complete s)
           end in
  park (if tn_self_continued (rs_turn s) then Idle else Entities.Errored) c s.

Definition stream_item (i : StreamItem) (c : Clock) (s : RunState) : Flow :=
  let parked := match idle_since s with Some _ => true | None => false end in
  match i with
  | ItemOk e => handle_event e c s
  | ItemErr m => if parked then Break s Idle else handle_event (synthetic Errored (Some m)) c s
  | ItemEnd =>
      if interrupted s then handle_event (synthetic Interrupted None) c s
      else if parked then Break s Idle
      else handle_event (synthetic Errored (Some "harness stream ended without Done")) c s
  end.

Definition run_arm (a : Arm) (c : Clock) (s : RunState) : Flow :=
  match a with
  | ArmCancel => Continue (upd_turn (set_interrupted (mono c + INTERRUPT_GRACE)) s)
  | ArmDeadline => handle_event (synthetic Interrupted None) c s
  | ArmHeartbeat =>
      Continue (if match idle_since s with None => fold_has_in_flight_work (folded s) | _ => false end
                then touch_chat c s else s)
  | ArmReap =>
      Break (match live_handle (rs_world s) with Some _ => emit CancelToken s | None => s end) Idle
  | ArmEngine e => handle_event e c s
  | ArmStream i => stream_item i c s
  | ArmFlush => Continue (flush s)
  | ArmQuiesce => Continue (quiesce c s)
  end.

(** One turn of the loop: what the end of an event's body does counts as going
    round. *)
Definition iteration (rd : Ready) (c : Clock) (s : RunState) : option Flow :=
  a ← select rd c s;
  Some (match run_arm a c s with Pass s => Continue s | f => f end).

(** *** Start and exit *)

Definition start_run (c : Clock) (ids : nat) (w : World) : RunState :=
  mk_run (mk_segment [] (new_id ids) (wall c) None false) (mk_turn false None false None (mono c) false false)
    ∅ ∅ ∅ (mono c) (S ids) w.

(** The fresh half of [dispatch]: the user entry, the handle, then the row. *)
Definition dispatch_new (steerable : bool) (prompt message_id : string) (c : Clock) (w : World) : World :=
  let w := set_w_doc (write_user_message stable_hash (v_device v) (w_doc w) message_id prompt (wall c)) w in
  let w := set_w_run (Some (mk_handle (v_run_id v) steerable [] true ∅ [])) w in
  let w := set_w_rows (set_status (w_rows w) (v_device v) (v_chat v) Working true (wall c)) w in
  if String.eqb prompt "" then w else w_emit (Note prompt) w.

(** [harness.run] failed. *)
Definition start_failed (message : string) (c : Clock) (s : RunState) : RunState :=
  set_row_status Entities.Errored false c
    (upd_world remove_run (publish_event (synthetic Errored (Some message)) (publish_event (ErrorEv message) s))).

Definition end_sink (s : RunState) (e : string * SubagentSink) : RunState :=
  freeze_sink Aborted e.2 (update_chip e.1 None (Some "failed") s).

(** After the loop: the sinks freeze, the unconfirmed steers are claimed, the
    handle goes and the row settles. *)
Definition exit_run (final : SessionStatus) (c : Clock) (s : RunState) : RunState :=
  let s := set_sinks ∅ (foldl end_sink s (map_to_list (rs_sinks s))) in
  let orphans := match live_handle (rs_world s) with Some h => rh_routed h | None => [] end in
  let s := set_row_status final false c (upd_world remove_run s) in
  match orphans with
  | [] => s
  | _ => if interrupted s then s else emit (Redispatch orphans) s
  end.

(** *** The other tasks

    [steer] and the routed half of [dispatch] in their parts: the mailbox, the
    ledger with the transcript, the row. *)
Definition steer_send (m : SteerMessage) (w : World) : option World :=
  h ← w_run w;
  if rh_steerable h && rh_mailbox_open h && (length (rh_mailbox h) <? STEER_MAILBOX)%nat
  then Some (set_w_run (Some (set_mailbox (rh_mailbox h ++ [m]) h)) w) else None.

Definition steer_record (r : RoutedSteer) (c : Clock) (w : World) : World :=
  let w := match w_run w with Some h => set_w_run (Some (set_routed (rh_routed h ++ [r]) h)) w | None => w end in
  set_w_doc (write_user_message stable_hash (v_device v) (w_doc w) (rt_message_id r) (rt_prompt r) (wall c)) w.

Definition steer_confirm (prompt : string) (c : Clock) (w : World) : World :=
  match live_handle w with
  | Some _ =>
      let w := set_w_rows (set_status (w_rows w) (v_device v) (v_chat v) Working false (wall c)) w in
      if String.eqb prompt "" then w else w_emit (Note prompt) w
  | None => w
  end.

(** The harness takes a message from its mailbox. *)
Definition mailbox_take (w : World) : option (SteerMessage * World) :=
  h ← w_run w;
  match rh_mailbox h with
  | m :: rest => Some (m, set_w_run (Some (set_mailbox rest h)) w)
  | [] => None
  end.

(** The input bridge parks a resolver; [respond_input] takes it. *)
Definition request_input (id : string) (w : World) : World :=
  match w_run w with Some h => set_w_run (Some (set_pending ({[id]} ∪ rh_pending h) h)) w | None => w end.

Definition respond_input (id : string) (w : World) : bool * World :=
  match w_run w with
  | Some h =>
      if bool_decide (id ∈ rh_pending h)
      then (true, set_w_run (Some (set_pending (rh_pending h ∖ {[id]}) h)) w) else (false, w)
  | None => (false, w)
  end.

(** [interrupt]: every parked question answered, the token cancelled; the cancel
    signal is an input of the loop. *)
Definition interrupt (w : World) : bool * World :=
  match w_run w with
  | Some h =>
      (true, w_emit CancelToken
               (foldl (fun w id => w_emit (AnswerEmpty id) w) (set_w_run (Some (set_pending ∅ h)) w)
                  (elements (rh_pending h))))
  | None => (false, w)
  end.

(** A step of another task. *)
Inductive world_step : World -> World -> Prop :=
  | ws_send m w w' : steer_send m w = Some w' -> world_step w w'
  | ws_record r c w h : w_run w = Some h -> world_step w (steer_record r c w)
  | ws_confirm prompt c w : world_step w (steer_confirm prompt c w)
  | ws_take m w w' : mailbox_take w = Some (m, w') -> world_step w w'
  | ws_request id w : world_step w (request_input id w)
  | ws_respond id w : world_step w (respond_input id w).2
  | ws_interrupt w : world_step w (interrupt w).2.

(** A step of the run in its world, while the loop goes on. *)
Inductive run_step : RunState -> RunState -> Prop :=
  | rs_loop rd c s s' : iteration rd c s = Some (Continue s') -> run_step s s'
  | rs_world_step s w : world_step (rs_world s) w -> run_step s (set_world w s).
End Run.
