(* ===== verification/RunSafety.v ===== *)
(** What the run loop guarantees: the open segment and its entry, tool chips,
    steers, interrupts and the liveness of its row; and where it does not. *)
From stdpp Require Import pretty.
From S2P Require Import Prelude Json Entities Text Agent Parts Transcript SessionDoc Journal View Sessions Writer Run.

Create HintDb stops.
Create HintDb calms.
Create HintDb pops.

(** ** The open segment

    The writer's entry is the only one the run leaves streaming; it covers what
    was written, and the fold only extends that. *)

Definition open_entry (n0 : nat) (doc : list EntryMap) (w : SegmentWriter) (parts : list MessagePart) : Prop :=
  (n0 <= sw_entry_index w)%nat /\ parts <> [] /\
  (shape <$> sw_written w) `prefix_of` (shape <$> parts) /\
  exists e, doc !! sw_entry_index w = Some e /\ Forall2 covers (sw_written w) (em_parts e).

Definition only_streaming (n0 : nat) (doc : list EntryMap) (wr : option SegmentWriter) : Prop :=
  forall k e, (n0 <= k)%nat -> doc !! k = Some e -> em_status e = Some Streaming ->
    exists w, wr = Some w /\ sw_entry_index w = k.

Definition doc_ok (n0 : nat) (doc : list EntryMap) (wr : option SegmentWriter) (parts : list MessagePart) : Prop :=
  match wr with Some w => open_entry n0 doc w parts | None => True end /\ only_streaming n0 doc wr /\
  (n0 <= length doc)%nat.

Definition quiet (n0 : nat) (doc : list EntryMap) : Prop := doc_ok n0 doc None [].

Lemma prefix_nonempty {A} (l l' : list A) : l `prefix_of` l' -> l <> [] -> l' <> [].
Proof. intros [r ->]. by destruct l. Qed.

Lemma doc_ok_grow n0 doc wr parts parts' :
  doc_ok n0 doc wr parts -> (shape <$> parts) `prefix_of` (shape <$> parts') -> doc_ok n0 doc wr parts'.
Proof.
  intros (Hw & Hs & Hl) Hp. split; [|done]. destruct wr as [w|]; [|done].
  destruct Hw as (Hn & Hne & Hpre & He). split_and!; try done; [|by etrans].
  intros ->. destruct parts; [done|]. by destruct Hp as [? [=]].
Qed.

Lemma doc_ok_none n0 doc parts parts' : doc_ok n0 doc None parts -> doc_ok n0 doc None parts'.
Proof. by intros (_ & ? & ?). Qed.

Lemma quiet_any n0 doc parts : quiet n0 doc -> doc_ok n0 doc None parts.
Proof. done. Qed.

(** Another writer's entry at the end. *)
Lemma doc_ok_append n0 doc wr parts e :
  doc_ok n0 doc wr parts -> em_status e <> Some Streaming -> doc_ok n0 (doc ++ [e]) wr parts.
Proof.
  intros (Hw & Hs & Hl) He. split_and!.
  - destruct wr as [w|]; [|done]. destruct Hw as (Hn & Hne & Hpre & x & Hx & Hc).
    split_and!; try done. exists x. split; [|done]. by apply lookup_app_l_Some.
  - intros k x Hk Hx Hst. apply lookup_app_Some in Hx as [Hx|[_ Hx]]; [by eapply Hs|].
    apply list_lookup_singleton_Some in Hx as [_ <-]. done.
  - rewrite length_app. lia.
Qed.

(** An entry's parts changed in a way the cover survives, or of an entry that is
    not the open one. *)
Lemma doc_ok_begin n0 doc parts id device at_ms :
  doc_ok n0 doc None parts -> parts <> [] ->
  let '(doc', w) := begin doc id device at_ms in doc_ok n0 doc' (Some w) parts.
Proof.
  intros (_ & Hs & Hl) Hne. cbn [begin]. split_and!.
  - split_and!; cbn; [done|done|apply prefix_nil|]. eexists. split; [by apply list_lookup_middle|constructor].
  - intros k x Hk Hx Hst. apply lookup_app_Some in Hx as [Hx|[Hle Hx]].
    + by destruct (Hs k x Hk Hx Hst) as (w & [=] & _).
    + apply list_lookup_singleton_Some in Hx as [Hk' _]. eexists. split; [done|]. cbn. lia.
  - rewrite length_app. cbn. lia.
Qed.

Lemma only_streaming_set n0 doc k e e' w :
  doc !! k = Some e -> sw_entry_index w = k -> only_streaming n0 doc (Some w) ->
  only_streaming n0 (<[k := e']> doc) (Some w) /\
  (em_status e' <> Some Streaming -> only_streaming n0 (<[k := e']> doc) None).
Proof.
  intros He <- Hs. split.
  - intros j x Hj Hx Hst. destruct (decide (sw_entry_index w = j)) as [<-|Hne]; [by exists w|].
    rewrite list_lookup_insert_ne in Hx by done. by eapply Hs.
  - intros Hne j x Hj Hx Hst. destruct (decide (sw_entry_index w = j)) as [<-|Hne'].
    + rewrite list_lookup_insert_eq in Hx by (by eapply lookup_lt_Some). by injection Hx as <-.
    + rewrite list_lookup_insert_ne in Hx by done.
      destruct (Hs j x Hj Hx Hst) as (w' & [= <-] & E). done.
Qed.

Lemma render_shape parts : shape <$> render_parts parts = shape <$> parts.
Proof.
  unfold render_parts. rewrite <- list_fmap_compose. apply list_fmap_ext. by intros i [] _.
Qed.

(** A tick. *)
Lemma doc_ok_sync n0 doc w parts :
  doc_ok n0 doc (Some w) parts ->
  exists doc' w', sync doc w (render_parts parts) = Some (doc', w') /\ doc_ok n0 doc' (Some w') parts /\
    length doc' = length doc.
Proof.
  intros ((Hn & Hne & Hp & e & He & Hc) & Hs & Hl).
  destruct (sync_covers doc w e (render_parts parts) He Hc) as (ds & E & Hd); [by rewrite render_shape|].
  eexists _, _. split; [exact E|]. split; [|by rewrite length_insert]. split_and!.
  - split_and!; cbn; [done|done|by rewrite render_shape|].
    eexists. split; [by apply list_lookup_insert_eq, (lookup_lt_Some _ _ e)|]. done.
  - intros k x Hk Hx Hst.
    destruct (only_streaming_set n0 doc _ e (set_em_parts e ds) w He eq_refl Hs) as [H _].
    destruct (H k x Hk Hx Hst) as (w' & [= <-] & E'). by eexists.
  - by rewrite length_insert.
Qed.

(** The finished entry, complete under its status; nothing streams. *)
Lemma doc_ok_finish n0 doc w parts st :
  doc_ok n0 doc (Some w) parts -> st <> Streaming ->
  exists e ds, doc !! sw_entry_index w = Some e /\ Forall2 covers (render_parts parts) ds /\
    finish doc w (render_parts parts) st =
      Some (<[sw_entry_index w := set_em_status (set_em_parts e ds) st]> doc) /\
    quiet n0 (<[sw_entry_index w := set_em_status (set_em_parts e ds) st]> doc).
Proof.
  intros ((Hn & Hne & Hp & e & He & Hc) & Hs & Hl) Hst.
  destruct (finish_covers doc w e (render_parts parts) st He Hc) as (ds & E & Hd); [by rewrite render_shape|].
  exists e, ds. split_and!; try done. split_and!; [done| |].
  - destruct (only_streaming_set n0 doc _ e (set_em_status (set_em_parts e ds) st) w He eq_refl Hs) as [_ H].
    apply H. cbn. congruence.
  - by rewrite length_insert.
Qed.

(** *** Subagent chips *)

Lemma at_part_Some test f parts parts' :
  at_part test f parts = Some parts' ->
  exists i d, parts !! i = Some d /\ test d = true /\ parts' = <[i := f d]> parts.
Proof.
  revert parts'. induction parts as [|d parts IH]; intros parts'; cbn; [done|].
  destruct (test d) eqn:E.
  - intros [= <-]. by exists 0%nat, d.
  - destruct (at_part test f parts) as [l|]; [|done]. intros [= <-].
    destruct (IH l eq_refl) as (i & d' & Hi & Ht & ->). by exists (S i), d'.
Qed.

Lemma at_any_entry_Some test f doc doc' :
  at_any_entry test f doc = Some doc' ->
  exists k e parts, doc !! k = Some e /\ at_part test f (em_parts e) = Some parts /\
    doc' = <[k := set_em_parts e parts]> doc.
Proof.
  revert doc'. induction doc as [|e doc IH]; intros doc'; cbn; [done|].
  destruct (at_part test f (em_parts e)) as [parts|] eqn:E.
  - intros [= <-]. by exists 0%nat, e, parts.
  - destruct (at_any_entry test f doc) as [l|]; [|done]. intros [= <-].
    destruct (IH l eq_refl) as (k & e' & parts & Hk & Hp & ->). by exists (S k), e', parts.
Qed.

(** A chip update touches one tool part of one entry, or nothing. *)
Lemma update_chip_spec doc id r s t :
  (update_subagent_chip doc id r s t).2 = doc \/
  exists k e i d, doc !! k = Some e /\ em_parts e !! i = Some d /\ dp_kind d = "tool" /\ dp_id d = id /\
    (update_subagent_chip doc id r s t).2 =
      <[k := set_em_parts e (<[i := set_dp_subagent r s t d]> (em_parts e))]> doc.
Proof.
  assert (forall l : list EntryMap, rev l = list.reverse l) as Hr by (intros l; apply rev_alt).
  unfold update_subagent_chip. destruct (at_any_entry _ _ (rev doc)) as [doc'|] eqn:E; [|by left].
  right. apply at_any_entry_Some in E as (k & e & parts & Hk & Hp & ->).
  apply at_part_Some in Hp as (i & d & Hi & Ht & ->).
  unfold is_part in Ht. apply andb_true_iff in Ht as [Hkd%String.eqb_eq Hid%String.eqb_eq].
  pose proof (lookup_lt_Some _ _ _ Hk) as Hlt. rewrite length_rev in Hlt.
  exists (length doc - S k)%nat, e, i, d. split_and!; try done.
  - rewrite Hr in Hk. by apply reverse_lookup_Some in Hk as [? _].
  - cbn [snd]. rewrite !Hr. apply list_eq. intros j.
    destruct (decide (j < length doc)%nat) as [Hj|Hj].
    + rewrite reverse_lookup, length_insert, length_reverse by (by rewrite length_insert, length_reverse).
      destruct (decide (k = length doc - S j)%nat) as [->|Hne].
      * rewrite list_lookup_insert_eq by (rewrite length_reverse; lia).
        replace (length doc - S (length doc - S j))%nat with j by lia.
        by rewrite list_lookup_insert_eq.
      * rewrite list_lookup_insert_ne by done. rewrite reverse_lookup by lia.
        rewrite list_lookup_insert_ne by lia. f_equal. lia.
    + rewrite !lookup_ge_None_2; [done|rewrite length_insert; lia|].
      rewrite length_reverse, length_insert, length_reverse. lia.
Qed.

(** A chip that is not in the open segment is in no part of the open entry. *)
Lemma doc_ok_chip n0 doc wr parts id r s t :
  doc_ok n0 doc wr parts -> in_segment parts id = false ->
  doc_ok n0 (update_subagent_chip doc id r s t).2 wr parts.
Proof.
  intros (Hw & Hs & Hl) Hno. destruct (update_chip_spec doc id r s t) as [->|(k & e & i & d & Hk & Hi & Hkd & Hid & ->)];
    [done|]. split_and!; [| |by rewrite length_insert].
  - destruct wr as [w|]; [|done]. destruct Hw as (Hn & Hne & Hp & x & Hx & Hc). split_and!; try done.
    exists x. split; [|done]. rewrite list_lookup_insert_ne; [done|]. intros ->.
    rewrite Hk in Hx. injection Hx as <-.
    apply Forall2_lookup_r with (i := i) (y := d) in Hc as (p & Hp' & Hcov); [|done].
    pose proof (cv_kind _ _ Hcov) as H1. pose proof (cv_id _ _ Hcov) as H2. rewrite Hkd in H1. rewrite Hid in H2.
    destruct p as [|t'| |]; cbn in H1; try done. cbn in H2.
    assert ((shape <$> sw_written w) !! i = Some (STool id)) as Hsh.
    { rewrite list_lookup_fmap, Hp'. cbn. by rewrite H2. }
    apply (prefix_lookup_Some _ _ _ _ Hsh) in Hp. rewrite list_lookup_fmap in Hp.
    destruct (parts !! i) as [q|] eqn:Eq; [|done]. cbn in Hp. injection Hp as Hq.
    apply not_true_iff_false in Hno. apply Hno. unfold in_segment. apply existsb_exists.
    exists q. split; [by apply list_elem_of_In, list_elem_of_lookup_2 with i|].
    destruct q; cbn in Hq; try done. injection Hq as Hq. cbn. rewrite Hq. apply String.eqb_refl.
  - intros j x Hj Hx Hst. destruct (decide (k = j)) as [<-|Hne].
    + rewrite list_lookup_insert_eq in Hx by (by eapply lookup_lt_Some). injection Hx as <-. by apply (Hs k e).
    + rewrite list_lookup_insert_ne in Hx by done. by eapply Hs.
Qed.

(** ** The invariant of the loop *)

Definition core_ok (n0 : nat) (doc : list EntryMap) (g : Segment) (t : Turn) : Prop :=
  doc_ok n0 doc (sg_writer g) (sg_folded g) /\
  (tn_idle_since t <> None -> sg_writer g = None /\ sg_folded g = [] /\ sg_dirty g = false) /\
  (tn_interrupted t = true -> tn_deadline t <> None).

Definition run_ok (n0 : nat) (s : RunState) : Prop :=
  core_ok n0 (w_doc (rs_world s)) (rs_seg s) (rs_turn s).

(** Past the parked gate the session is open. *)
Definition live_ok (n0 : nat) (s : RunState) : Prop := run_ok n0 s /\ idle_since s = None.

Definition settled (n0 : nat) (s : RunState) : Prop :=
  sg_writer (rs_seg s) = None /\ quiet n0 (w_doc (rs_world s)).

Definition flow_ok (P : RunState -> Prop) (n0 : nat) (f : Flow) : Prop :=
  match f with
  | Pass s => P s
  | Continue s => run_ok n0 s
  | Break s _ | Return s => settled n0 s
  end.

Lemma and_then_ok (P Q : RunState -> Prop) n0 f k :
  flow_ok P n0 f -> (forall s, P s -> flow_ok Q n0 (k s)) -> flow_ok Q n0 (and_then f k).
Proof. destruct f; cbn; auto. Qed.

(** What the bookkeeping leaves alone. *)
Definition same_core (s s' : RunState) : Prop :=
  rs_seg s' = rs_seg s /\ rs_turn s' = rs_turn s /\ w_doc (rs_world s') = w_doc (rs_world s).

#[export] Instance same_core_pre : PreOrder same_core.
Proof. split; [by intros s|]. intros s1 s2 s3 (? & ? & ?) (? & ? & ?). split_and!; congruence. Qed.

Lemma run_ok_frame n0 s s' : same_core s s' -> run_ok n0 s -> run_ok n0 s'.
Proof. intros (E1 & E2 & E3). unfold run_ok. by rewrite E1, E2, E3. Qed.

Lemma live_ok_frame n0 s s' : same_core s s' -> live_ok n0 s -> live_ok n0 s'.
Proof.
  intros Hf [H Hi]. split; [by eapply run_ok_frame|]. unfold idle_since in *. by rewrite (proj1 (proj2 Hf)).
Qed.

Lemma emits_core {A} (f : A -> Effect) l s : same_core s (foldl (fun s x => emit (f x) s) s l).
Proof.
  revert s. induction l as [|x l IH]; intros s; [done|]. cbn. etrans; [|apply IH]. done.
Qed.

Section Stages.
Context (new_id : nat -> string) (digest_hex : string -> string).
Context (text_diff : string -> string -> N * N) (stable_hash : Value -> string).
Context (v : Env) (n0 : nat).

Abbreviation fold := (fold_event_into_parts text_diff).

Lemma upd_live_doc f w : w_doc (upd_live v f w) = w_doc w.
Proof. unfold upd_live. by destruct (live_handle v w). Qed.

Lemma remove_run_doc w : w_doc (remove_run v w) = w_doc w.
Proof. unfold remove_run. by destruct (live_handle v w). Qed.

Lemma upd_live_core f s : same_core s (upd_world (upd_live v f) s).
Proof. split_and!; [done|done|]. apply upd_live_doc. Qed.

Lemma drain_pending_core s : same_core s (drain_pending v s).
Proof.
  unfold drain_pending. destruct (live_handle v (rs_world s)); [|done].
  etrans; [apply upd_live_core|]. apply emits_core.
Qed.

Lemma note_message_core text s : same_core s (note_message text s).
Proof. unfold note_message. by destruct (String.eqb _ _). Qed.

Lemma answer_empty_core id s : same_core s (answer_empty id s).
Proof. unfold answer_empty. destruct (w_run _); [|done]. by destruct (bool_decide _). Qed.

(** *** Documents and segments *)

Lemma sync_segment_ok s : run_ok n0 s -> run_ok n0 (sync_segment v s).
Proof.
  intros Hok. unfold sync_segment. destruct (sg_folded (rs_seg s)) as [|p0 ps] eqn:Ef; [exact Hok|].
  destruct Hok as (Hd & Hp & Hi).
  assert (tn_idle_since (rs_turn s) = None) as Hidle.
  { destruct (tn_idle_since (rs_turn s)); [|done]. rewrite Ef in Hp. by destruct Hp as (_ & [=] & _). }
  rewrite <- Ef in *.
  assert (exists doc w, match sg_writer (rs_seg s) with
                        | Some w => (w_doc (rs_world s), w)
                        | None => begin (w_doc (rs_world s)) (sg_entry_id (rs_seg s)) (v_device v) (sg_started (rs_seg s))
                        end = (doc, w) /\ doc_ok n0 doc (Some w) (sg_folded (rs_seg s))) as (doc & w & -> & Hb).
  { destruct (sg_writer (rs_seg s)) as [w|] eqn:Ew; [by eexists _, _|].
    assert (sg_folded (rs_seg s) <> []) as Hne by (by rewrite Ef).
    pose proof (doc_ok_begin n0 _ _ (sg_entry_id (rs_seg s)) (v_device v) (sg_started (rs_seg s)) Hd Hne) as Hb.
    destruct (begin _ _ _ _) as [doc w]. by eexists _, _. }
  destruct (doc_ok_sync _ _ _ _ Hb) as (doc' & w' & E & Hok & _). rewrite E. cbn.
  split; [exact Hok|]. split; [cbn; by intros []|exact Hi].
Qed.

(** Finishing closes the segment and loses nothing: the entry is there, under
    its status, and covers the fold. *)
Definition closed_with (doc : list EntryMap) (parts : list MessagePart) (st : MessageStatus) : Prop :=
  exists k e, (n0 <= k)%nat /\ doc !! k = Some e /\ em_status e = Some st /\
    Forall2 covers (render_parts parts) (em_parts e).

Lemma finish_segment_spec st s :
  run_ok n0 s -> st <> Streaming ->
  let s' := finish_segment v st s in
  sg_writer (rs_seg s') = None /\ sg_folded (rs_seg s') = folded s /\ sg_dirty (rs_seg s') = sg_dirty (rs_seg s) /\
  rs_turn s' = rs_turn s /\ quiet n0 (w_doc (rs_world s')) /\
  (folded s <> [] -> closed_with (w_doc (rs_world s')) (folded s) st).
Proof.
  intros (Hd & _ & _) Hst. unfold finish_segment, folded.
  assert (forall doc w, doc_ok n0 doc (Some w) (sg_folded (rs_seg s)) ->
            exists doc', finish doc w (render_parts (sg_folded (rs_seg s))) st = Some doc' /\ quiet n0 doc' /\
              closed_with doc' (sg_folded (rs_seg s)) st) as H.
  { intros doc w Hok. destruct (doc_ok_finish n0 doc w _ st Hok Hst) as (e & ds & He & Hc & E & Hq).
    eexists. split; [exact E|]. split; [exact Hq|]. destruct Hok as ((Hn & _) & _).
    exists (sw_entry_index w), (set_em_status (set_em_parts e ds) st). split_and!; [done| |done|done].
    apply list_lookup_insert_eq. by eapply lookup_lt_Some. }
  destruct (sg_writer (rs_seg s)) as [w|] eqn:Ew.
  - destruct (H _ w Hd) as (doc' & E & Hq & Hcl). rewrite E. cbn. done.
  - destruct (sg_folded (rs_seg s)) as [|p0 ps] eqn:Ef.
    + cbn. rewrite Ef. split_and!; try done.
    + rewrite <- Ef in *. pose proof (doc_ok_begin n0 _ _ (sg_entry_id (rs_seg s)) (v_device v)
                                        (sg_started (rs_seg s)) Hd) as Hb.
      specialize (Hb ltac:(by rewrite Ef)). destruct (begin _ _ _ _) as [doc w].
      destruct (H _ _ Hb) as (doc' & E & Hq & Hcl). rewrite E. cbn. done.
Qed.

(** A reset segment on a quiet document. *)
Lemma next_segment_core entry_id c s :
  let s' := next_segment new_id entry_id c s in
  sg_folded (rs_seg s') = [] /\ sg_writer (rs_seg s') = sg_writer (rs_seg s) /\ sg_dirty (rs_seg s') = false /\
  rs_turn s' = rs_turn s /\ w_doc (rs_world s') = w_doc (rs_world s).
Proof. by destruct entry_id. Qed.

Lemma settled_ok s :
  settled n0 s -> (tn_interrupted (rs_turn s) = true -> tn_deadline (rs_turn s) <> None) ->
  (idle_since s <> None -> folded s = [] /\ sg_dirty (rs_seg s) = false) -> run_ok n0 s.
Proof.
  intros [Hw Hq] Hi Hp. split; [|split; [|done]].
  - rewrite Hw. by apply quiet_any.
  - intros H. split; [done|]. by apply Hp.
Qed.

Lemma park_ok st c s :
  settled n0 s -> (tn_interrupted (rs_turn s) = true -> tn_deadline (rs_turn s) <> None) ->
  run_ok n0 (park new_id v st c s).
Proof.
  intros [Hw Hq] Hi. pose proof (next_segment_core None c s) as (H1 & H2 & H3 & H4 & H5).
  unfold park. split; [|split]; cbn -[next_segment].
  - rewrite H2, Hw, H5. by apply quiet_any.
  - intros _. by rewrite H2.
  - by rewrite H4.
Qed.
(** *** Subagents *)

Lemma sinks_core (f : RunState -> string * SubagentSink -> RunState) l s :
  (forall s e, same_core s (f s e)) -> same_core s (foldl f s l).
Proof. intros Hf. revert s. induction l as [|e l IH]; intros s; [done|]. cbn. etrans; [apply Hf|apply IH]. Qed.

Lemma flush_sinks_core s : same_core s (flush_sinks v s).
Proof. apply sinks_core. intros s' [p k]. unfold flush_sink. by destruct (sink_flush _ _ _). Qed.

Lemma update_chip_ok parent r st s :
  run_ok n0 s -> in_segment (folded s) parent = false -> run_ok n0 (update_chip parent r st s).
Proof. intros (Hd & Hp & Hi) Hc. split; [by apply doc_ok_chip|done]. Qed.

(** Lengthening the fold of an open segment. *)
Lemma extend_ok s f :
  run_ok n0 s -> idle_since s = None ->
  (shape <$> folded s) `prefix_of` (shape <$> f (folded s)) ->
  run_ok n0 (upd_seg (fun g => set_folded (f (sg_folded g)) g) s).
Proof.
  intros (Hd & _ & Hi) Hidle Hp. split; [by eapply doc_ok_grow|]. split; [|done]. intros H. by destruct H.
Qed.

Lemma mark_dirty_ok c s : run_ok n0 s -> idle_since s = None -> run_ok n0 (mark_dirty c s).
Proof.
  intros (Hd & _ & Hi) Hidle. unfold mark_dirty. destruct (sg_dirty (rs_seg s));
    (split; [done|split; [|done]]; intros H; by destruct H).
Qed.

Lemma in_segment_open parent s : run_ok n0 s -> in_segment (folded s) parent = true -> idle_since s = None.
Proof.
  intros (_ & Hp & _) Hin. unfold idle_since. destruct (tn_idle_since (rs_turn s)); [|done].
  unfold folded in Hin. destruct Hp as (_ & E & _); [done|]. by rewrite E in Hin.
Qed.

Lemma stamp_ref_shape parent sub_id (parts : list MessagePart) : shape <$> (stamp_ref parent sub_id <$> parts) = shape <$> parts.
Proof. apply shape_fmap. intros [|t| |]; try done. cbn. by destruct (String.eqb _ _). Qed.

Lemma chip_fold_ok parent sub_id known e c s :
  run_ok n0 s -> idle_since s = None ->
  run_ok n0 (chip_fold text_diff parent sub_id known (Subagent parent e) c s).
Proof.
  intros H Hidle. unfold chip_fold.
  assert (run_ok n0 (if known then s
            else upd_seg (fun g => set_folded (stamp_ref parent sub_id <$> sg_folded g) g) s)) as H'.
  { destruct known; [done|]. apply (extend_ok s (fmap (stamp_ref parent sub_id)) H Hidle).
    by rewrite stamp_ref_shape. }
  set (s' := if known then s else _) in *. assert (idle_since s' = None) as Hidle' by (by destruct known).
  apply mark_dirty_ok; [|done]. apply (extend_ok s' (fun parts => fold parts (Subagent parent e)) H' Hidle').
  by apply fold_extends.
Qed.

Lemma freeze_sink_core st k s : same_core s (freeze_sink stable_hash v st k s).
Proof. done. Qed.

Lemma feed_sink_ok parent chip e c k s :
  run_ok n0 s -> (chip = false -> in_segment (folded s) parent = false) ->
  run_ok n0 (feed_sink new_id text_diff stable_hash v parent chip e c k s).
Proof.
  intros H Hc. destruct e; try exact H. cbn -[freeze_sink].
  eapply run_ok_frame; [apply freeze_sink_core|]. destruct chip; [exact H|]. apply update_chip_ok; [exact H|by apply Hc].
Qed.

Lemma route_subagent_ok parent e c s :
  run_ok n0 s -> run_ok n0 (route_subagent new_id digest_hex text_diff stable_hash v parent e c s).
Proof.
  intros H. unfold route_subagent. set (s1 := publish_event (Subagent parent e) s).
  assert (run_ok n0 s1) as H1 by exact H. destruct (negb (is_steer e) && _ && _); [exact H1|].
  set (known := match rs_sinks s1 !! parent with Some _ => true | None => false end).
  set (s2 := if is_steer e then _ else s1).
  assert (run_ok n0 s2 /\ folded s2 = folded s1) as [H2 Hf2] by (by destruct (is_steer e)).
  set (sub_id := subagent_doc_id _ _ _).
  set (chip := in_segment (folded s2) parent).
  set (s3 := if chip then _ else s2).
  assert (run_ok n0 s3 /\ (chip = false -> in_segment (folded s3) parent = false)) as [H3 Hc3].
  { unfold s3. destruct chip eqn:Ec; [|done]. split; [|done].
    apply chip_fold_ok; [done|]. by eapply in_segment_open. }
  set (s4 := if negb known && negb (is_done e) then _ else s3).
  assert (run_ok n0 s4 /\ (chip = false -> in_segment (folded s4) parent = false)) as [H4 Hc4].
  { unfold s4. destruct (negb known && negb (is_done e)); [|done].
    unfold open_sink. destruct (v_can_open v sub_id); [|done]. cbn [take_id]. destruct chip; [done|].
    split; [|exact Hc3]. apply update_chip_ok; [exact H3|by apply Hc3]. }
  set (s5 := if is_done e then _ else s4).
  assert (run_ok n0 s5 /\ (chip = false -> in_segment (folded s5) parent = false)) as [H5 Hc5]
    by (by unfold s5; destruct (is_done e)).
  destruct (rs_sinks s5 !! parent) as [k|]; [|done]. by apply feed_sink_ok.
Qed.

(** *** The stages *)

Lemma live_of s s' : live_ok n0 s -> same_core s s' -> live_ok n0 s'.
Proof. intros. by eapply live_ok_frame. Qed.

Lemma drop_unknown_input_ok e s : run_ok n0 s -> flow_ok (run_ok n0) n0 (drop_unknown_input e s).
Proof. intros H. destruct e; try exact H. unfold drop_unknown_input. by destruct (match w_run _ with Some _ => _ | None => _ end). Qed.

Lemma unpark_ok s : run_ok n0 s -> live_ok n0 (unpark s).
Proof. intros (Hd & _ & Hi). split; [|done]. split; [done|]. split; [|done]. intros H. by destruct H. Qed.

Lemma parked_gate_ok e c s : run_ok n0 s -> flow_ok (live_ok n0) n0 (parked_gate new_id v e c s).
Proof.
  intros H. unfold parked_gate. destruct (idle_since s) as [at_|] eqn:Ei; [|by split].
  pose proof (unpark_ok s H) as Hu. destruct (self_continues e at_ c s); [exact Hu|].
  destruct e; try exact H; try exact Hu. eapply run_ok_frame; [apply answer_empty_core|done].
Qed.

Lemma drop_heartbeat_ok e s : live_ok n0 s -> flow_ok (live_ok n0) n0 (drop_heartbeat e s).
Proof. intros H. destruct e; try exact H. cbn. destruct (String.eqb _ _); [apply H|exact H]. Qed.

Lemma drop_echo_ok e s : live_ok n0 s -> flow_ok (live_ok n0) n0 (drop_echo e s).
Proof.
  intros H. destruct e; try exact H; cbn; (destruct (String.eqb _ _); [exact H|]);
    (destruct (_ && _); [apply H|exact H]).
Qed.

Lemma settled_startup s : live_ok n0 s -> folded s = [] -> settled n0 (upd_world (remove_run v) s).
Proof.
  intros [(Hd & _ & _) _] Hf. unfold settled. cbn. rewrite remove_run_doc.
  destruct (sg_writer (rs_seg s)) as [w|] eqn:Ew; [|done].
  destruct Hd as ((_ & Hne & _) & _). by destruct Hne.
Qed.

Lemma startup_retry_ok e s : live_ok n0 s -> flow_ok (live_ok n0) n0 (startup_retry v e s).
Proof.
  intros H. destruct e; try exact H. destruct status; try exact H. cbn.
  destruct (folded s) as [|p ps] eqn:Ef.
  - destruct (_ && _); [|exact H]. by apply settled_startup.
  - by rewrite andb_false_r.
Qed.

(** After a finish the session can go on with an empty segment, or stop. *)
Lemma finish_settled st s :
  run_ok n0 s -> st <> Streaming ->
  settled n0 (finish_segment v st s) /\ rs_turn (finish_segment v st s) = rs_turn s.
Proof. intros H Hst. by destruct (finish_segment_spec st s H Hst) as (? & ? & ? & ? & ? & _). Qed.

Lemma settled_frame s s' : same_core s s' -> settled n0 s -> settled n0 s'.
Proof. intros (E1 & _ & E3). unfold settled. by rewrite E1, E3. Qed.

Lemma next_segment_ok entry_id c s :
  settled n0 s -> (tn_interrupted (rs_turn s) = true -> tn_deadline (rs_turn s) <> None) ->
  idle_since s = None -> live_ok n0 (next_segment new_id entry_id c s).
Proof.
  intros [Hw Hq] Hi Hidle. pose proof (next_segment_core entry_id c s) as (H1 & H2 & H3 & H4 & H5).
  unfold live_ok, run_ok, core_ok, idle_since. rewrite H2, H4, H5, Hw. split; [|done].
  split; [by apply quiet_any|]. split; [|done]. intros H. by destruct H.
Qed.

Lemma steer_boundary_ok e c s : live_ok n0 s -> flow_ok (live_ok n0) n0 (steer_boundary new_id v e c s).
Proof.
  intros H. destruct e as [| | | | | | | | | | |am next| | |]; try exact H.
  destruct H as [H Hidle]. unfold steer_boundary. set (s1 := upd_turn _ _).
  assert (run_ok n0 s1) as H1 by exact H.
  destruct (finish_settled Complete s1 H1) as [Hs Ht]; [done|].
  set (s2 := finish_segment v Complete s1) in *.
  pose proof (note_message_core (folded_text (folded s1)) s2) as Hf. set (s3 := note_message _ s2) in *.
  apply (settled_frame _ _ Hf) in Hs. assert (rs_turn s3 = rs_turn s1) as Ht3 by (destruct Hf as (_ & E & _); by rewrite E).
  assert (live_ok n0 (next_segment new_id next c s3)) as [Hn _].
  { apply next_segment_ok; [done| |]; unfold idle_since; rewrite Ht3; [apply H1|exact Hidle]. }
  cbn -[next_segment]. eapply run_ok_frame; [|exact Hn]. etrans; [|apply upd_live_core]. done.
Qed.

Lemma session_effects_ok e c s : live_ok n0 s -> flow_ok (live_ok n0) n0 (session_effects v e c s).
Proof.
  intros H. destruct e; try exact H; cbn.
  - destruct (0 <? context_tokens)%N; [|exact H]. by destruct (v_compact_at v <=? context_tokens)%N.
  - by destruct session_id.
Qed.

Lemma publish_and_fold_ok e s :
  live_ok n0 s -> (forall a b, e <> Steered a b) -> flow_ok (live_ok n0) n0 (publish_and_fold text_diff e s).
Proof.
  intros [H Hidle] Hst. unfold publish_and_fold. set (s1 := publish_event e s).
  assert (run_ok n0 s1) as H1 by exact H.
  assert (is_boundary e = false ->
          live_ok n0 (upd_seg (fun g => set_folded (fold (sg_folded g) e) g) s1)) as Hx.
  { intros Hb. split; [|exact Hidle]. apply (extend_ok s1 (fun parts => fold parts e) H1 Hidle).
    by apply fold_extends. }
  destruct e; try (by apply Hx); [|by edestruct Hst].
  destruct (folded s1) as [|p ps] eqn:Ef; [|done]. split; [|exact Hidle].
  apply (extend_ok s1 (fun _ => []) H1 Hidle). by rewrite Ef.
Qed.

Lemma close_inputs_ok s :
  live_ok n0 s -> live_ok n0 (upd_seg (fun g => set_folded (close_input <$> sg_folded g) g) s).
Proof.
  intros [H Hidle]. split; [|exact Hidle]. apply (extend_ok s (fmap close_input) H Hidle).
  rewrite shape_fmap; [done|]. by intros [].
Qed.

(** A turn end: the segment is finished, whole, under the status of the end. *)
Lemma turn_end_spec st r err sid c s :
  live_ok n0 s ->
  exists s1, settled n0 s1 /\ rs_turn s1 = rs_turn s /\
    (folded s <> [] -> closed_with (w_doc (rs_world s1)) (close_input <$> folded s) (message_status st)) /\
    turn_end new_id v (Done st r err sid) c s =
      if (match st with Completed => true | _ => false end) && v_steerable v && negb (interrupted s)
      then Continue (keep_session new_id v c s1) else Break s1 (settled_status st).
Proof.
  intros H. unfold turn_end. pose proof (drain_pending_core s) as Hd.
  set (s1 := upd_seg _ (drain_pending v s)).
  assert (live_ok n0 s1) as H1 by (by apply close_inputs_ok; eapply live_of).
  assert (rs_turn s1 = rs_turn s) as Ht1 by apply Hd.
  assert (folded s1 = close_input <$> folded s) as Hf1.
  { unfold s1, folded. cbn. by rewrite (proj1 Hd). }
  assert (message_status st <> Streaming) as Hst by (by destruct st).
  set (s2 := match sg_writer (rs_seg s1) with Some _ => _ | None => _ end).
  assert (settled n0 s2 /\ rs_turn s2 = rs_turn s /\
          (folded s <> [] -> closed_with (w_doc (rs_world s2)) (close_input <$> folded s) (message_status st)))
    as (H2 & Ht2 & Hc2).
  { destruct (finish_segment_spec (message_status st) s1 (proj1 H1) Hst) as (Hw & _ & _ & Ht & Hq & Hc).
    pose proof (note_message_core (folded_text (folded s1)) (finish_segment v (message_status st) s1)) as Hn.
    rewrite Hf1 in Hc. unfold s2.
    assert (settled n0 (note_message (folded_text (folded s1)) (finish_segment v (message_status st) s1)) /\
            rs_turn (note_message (folded_text (folded s1)) (finish_segment v (message_status st) s1)) = rs_turn s /\
            (folded s <> [] -> closed_with (w_doc (rs_world (note_message (folded_text (folded s1))
               (finish_segment v (message_status st) s1)))) (close_input <$> folded s) (message_status st))) as Hx.
    { split; [by apply (settled_frame _ _ Hn)|]. destruct Hn as (_ & Hnt & Hnd). rewrite Hnt, Hnd.
      split; [by rewrite Ht|]. intros Hne. apply Hc. by destruct (folded s). }
    destruct (sg_writer (rs_seg s1)) as [w|] eqn:Ew; [exact Hx|].
    destruct (folded s1) as [|p ps] eqn:Ef; [|exact Hx]. split_and!; [|done|].
    - split; [done|]. destruct H1 as [(Hd1 & _) _]. rewrite Ew in Hd1. exact Hd1.
    - intros Hne. destruct (folded s); [done|]. by rewrite fmap_cons in Hf1. }
  assert (interrupted s2 = interrupted s) as Hint by (unfold interrupted; by rewrite Ht2).
  set (s3 := if (match st with Completed => true | _ => false end) then emit ClearAttempts s2 else s2).
  set (s4 := if (match st with Completed => true | _ => false end) && v_titles v then emit MaybeTitle s3 else s3).
  assert (same_core s2 s4) as H24 by (unfold s4, s3; destruct st, (v_titles v); done).
  exists s4. split; [by apply (settled_frame s2)|]. destruct H24 as (_ & Et & Ed). rewrite Et, Ed.
  split; [done|]. split; [done|]. assert (interrupted s4 = interrupted s) as -> by (unfold interrupted; by rewrite Et, Ht2).
  done.
Qed.

Definition armed (s : RunState) : Prop := tn_interrupted (rs_turn s) = true -> tn_deadline (rs_turn s) <> None.

Lemma send_compact_core s s' : send_compact v s = Some s' -> same_core s s'.
Proof.
  unfold send_compact. destruct (live_handle v (rs_world s)); [|done]. destruct (_ && _); [|done].
  by intros [= <-].
Qed.

Lemma keep_session_ok c s :
  settled n0 s -> armed s -> idle_since s = None -> run_ok n0 (keep_session new_id v c s).
Proof.
  intros Hs Ha Hidle. unfold keep_session.
  destruct (tn_compact_pending (rs_turn s)); [|by apply park_ok].
  set (s1 := upd_turn (set_compact_pending false) s). assert (settled n0 s1) as H1 by exact Hs.
  destruct (send_compact v s1) as [s2|] eqn:E; [|by apply park_ok].
  apply send_compact_core in E. apply (settled_frame _ _ E) in H1. destruct E as (_ & Et & _).
  assert (live_ok n0 (next_segment new_id None c s2)) as [Hn Hi].
  { apply next_segment_ok; [done| |]; unfold idle_since; rewrite Et; done. }
  destruct Hn as (Hd & _ & Hx). split; [exact Hd|]. split; [|exact Hx]. intros H. by destruct H.
Qed.

Lemma turn_end_ok e c s : live_ok n0 s -> flow_ok (live_ok n0) n0 (turn_end new_id v e c s).
Proof.
  intros H. destruct e as [| | | | | | | | | | | |st r err sid| |]; try exact H.
  destruct (turn_end_spec st r err sid c s H) as (s1 & Hs & Ht & _ & ->).
  destruct (_ && _ && _); [|exact Hs]. apply keep_session_ok; [done| |].
  - unfold armed. rewrite Ht. apply H.
  - unfold idle_since. rewrite Ht. apply H.
Qed.

Lemma schedule_flush_ok c s : live_ok n0 s -> flow_ok (live_ok n0) n0 (schedule_flush c s).
Proof.
  intros H. unfold schedule_flush. destruct (folded s) as [|p ps]; [exact H|]. destruct H as [H Hidle].
  split; [by apply mark_dirty_ok|]. unfold mark_dirty. by destruct (sg_dirty _).
Qed.

Lemma handle_event_ok e c s :
  run_ok n0 s -> flow_ok (live_ok n0) n0 (handle_event new_id digest_hex text_diff stable_hash v e c s).
Proof.
  intros H. set (s1 := upd_turn (set_last_activity (mono c)) (touch_chat v c s)).
  assert (run_ok n0 s1) as H1 by exact H.
  destruct (match e with Subagent _ _ => true | _ => false end) eqn:Esub.
  { destruct e; try done. by apply route_subagent_ok. }
  assert (forall s, live_ok n0 s -> flow_ok (live_ok n0) n0
            ((steer_boundary new_id v e c >=> session_effects v e c >=> publish_and_fold text_diff e >=>
              turn_end new_id v e c >=> schedule_flush c)%flow s)) as Htail.
  { intros s2 H2. destruct (match e with Steered _ _ => true | _ => false end) eqn:Est.
    - destruct e; try done. exact (steer_boundary_ok _ c s2 H2).
    - eapply and_then_ok; [by apply steer_boundary_ok|]. intros s3 H3.
      eapply and_then_ok; [by apply session_effects_ok|]. intros s4 H4.
      eapply and_then_ok; [apply publish_and_fold_ok; [done|by destruct e]|]. intros s5 H5.
      eapply and_then_ok; [by apply turn_end_ok|]. apply schedule_flush_ok. }
  assert (flow_ok (live_ok n0) n0
    ((drop_unknown_input e >=> parked_gate new_id v e c >=> drop_heartbeat e >=> drop_echo e >=> startup_retry v e >=>
      steer_boundary new_id v e c >=> session_effects v e c >=> publish_and_fold text_diff e >=>
      turn_end new_id v e c >=> schedule_flush c)%flow s1)) as Hall.
  { eapply and_then_ok; [by apply drop_unknown_input_ok|]. intros s2 H2.
    eapply and_then_ok; [by apply parked_gate_ok|]. intros s3 H3.
    eapply and_then_ok; [by apply drop_heartbeat_ok|]. intros s4 H4.
    eapply and_then_ok; [by apply drop_echo_ok|]. intros s5 H5.
    eapply and_then_ok; [by apply startup_retry_ok|]. exact Htail. }
  by destruct e.
Qed.

Lemma flush_ok s : run_ok n0 s -> run_ok n0 (flush v s).
Proof.
  intros H. unfold flush. eapply run_ok_frame; [apply flush_sinks_core|].
  destruct (sg_dirty (rs_seg s)) eqn:E; [|done]. pose proof (sync_segment_ok s H) as (Hd & Hp & Hi).
  split; [exact Hd|]. split; [|exact Hi]. intros Hn. destruct (Hp Hn) as (Hw & Hf & _). done.
Qed.

Lemma quiesce_ok c s :
  run_ok n0 s -> idle_since s = None -> run_ok n0 (quiesce new_id text_diff v c s).
Proof.
  intros H Hidle. unfold quiesce. set (s1 := if tn_self_continued (rs_turn s) then s else _).
  assert (run_ok n0 s1 /\ rs_turn s1 = rs_turn s) as [H1 Ht1].
  { unfold s1. destruct (tn_self_continued (rs_turn s)); [done|]. split; [|done].
    apply (extend_ok s (fun parts => fold parts (ErrorEv _)) H Hidle). by apply fold_extends. }
  destruct (finish_settled Complete s1 H1) as [Hs Ht]; [done|].
  pose proof (note_message_core (folded_text (folded s1)) (finish_segment v Complete s1)) as Hn.
  set (s2 := match sg_writer (rs_seg s1) with Some _ => _ | None => _ end).
  assert (settled n0 s2 /\ rs_turn s2 = rs_turn s) as [H2 Ht2].
  { assert (settled n0 (note_message (folded_text (folded s1)) (finish_segment v Complete s1)) /\
            rs_turn (note_message (folded_text (folded s1)) (finish_segment v Complete s1)) = rs_turn s) as Hx.
    { split; [by apply (settled_frame _ _ Hn)|]. destruct Hn as (_ & Hnt & _). by rewrite Hnt, Ht. }
    unfold s2. destruct (sg_writer (rs_seg s1)) eqn:Ew; [exact Hx|].
    destruct (folded s1); [|exact Hx]. split; [|done]. split; [done|]. destruct H1 as (Hd & _).
    rewrite Ew in Hd. exact Hd. }
  apply park_ok; [done|]. rewrite Ht2. apply H.
Qed.

Lemma run_arm_ok a c s rd :
  run_ok n0 s -> select v rd c s = Some a ->
  flow_ok (run_ok n0) n0 (run_arm new_id digest_hex text_diff stable_hash v a c s).
Proof.
  intros H Hsel.
  assert (forall e, flow_ok (run_ok n0) n0 (handle_event new_id digest_hex text_diff stable_hash v e c s)) as He.
  { intros e. pose proof (handle_event_ok e c s H) as Hf.
    destruct (handle_event _ _ _ _ _ e c s); try exact Hf. apply Hf. }
  assert (forall at_, idle_since s = Some at_ -> settled n0 s) as Hparked.
  { intros at_ E. destruct H as (Hd & Hp & _). unfold idle_since in E. rewrite E in Hp.
    destruct Hp as (Hw & Hf & _); [done|]. split; [done|]. rewrite Hw in Hd. exact Hd. }
  destruct a; cbn [run_arm].
  - destruct H as (Hd & Hp & _). split; [exact Hd|]. by split.
  - apply He.
  - cbn [flow_ok]. destruct (idle_since s); [done|]. by destruct (fold_has_in_flight_work _).
  - assert (exists at_, idle_since s = Some at_) as [at_ E].
    { unfold select in Hsel. destruct (_ && _); [done|]. destruct (due _ c); [done|].
      destruct (rd_heartbeat rd); [done|]. destruct (idle_since s) eqn:E; [eauto|]. exfalso. revert Hsel. cbn.
      destruct (rd_engine rd), (rd_stream rd); try done. destruct (_ && _); [done|].
      destruct (quiesce_after v); [|done]. by destruct (_ && _). }
    destruct (live_handle v (rs_world s)); exact (Hparked at_ E).
  - apply He.
  - unfold stream_item. destruct i; [apply He| |].
    + destruct (idle_since s) eqn:E; [by eapply Hparked|apply He].
    + destruct (interrupted s); [apply He|]. destruct (idle_since s) eqn:E; [by eapply Hparked|apply He].
  - by apply flush_ok.
  - apply quiesce_ok; [done|]. revert Hsel. unfold select.
    destruct (_ && _); [done|]. destruct (due _ c); [done|]. destruct (rd_heartbeat rd); [done|].
    destruct (due (Z.add _ <$> _) c); [done|]. destruct (rd_engine rd), (rd_stream rd); try done.
    destruct (any_dirty s && _); [done|]. destruct (quiesce_after v); [|done].
    unfold quiesce_armed. by destruct (idle_since s).
Qed.

Lemma iteration_ok rd c s f :
  run_ok n0 s -> iteration new_id digest_hex text_diff stable_hash v rd c s = Some f -> flow_ok (fun _ => False) n0 f.
Proof.
  intros H. unfold iteration. destruct (select v rd c s) as [a|] eqn:E; [|done]. cbn [mbind option_bind].
  intros [= <-]. pose proof (run_arm_ok a c s rd H E) as Hf.
  by destruct (run_arm new_id digest_hex text_diff stable_hash v a c s).
Qed.

(** *** The other tasks *)

Lemma world_emits {A} (f : A -> Effect) l w :
  w_doc (foldl (fun w x => w_emit (f x) w) w l) = w_doc w /\ w_rows (foldl (fun w x => w_emit (f x) w) w l) = w_rows w.
Proof. revert w. induction l as [|x l IH]; intros w; [done|]. cbn. exact (IH (w_emit (f x) w)). Qed.

Lemma world_step_doc w w' :
  world_step stable_hash v w w' ->
  w_doc w' = w_doc w \/ exists e, w_doc w' = w_doc w ++ [e] /\ em_status e = Some Complete /\ em_role e = User.
Proof.
  intros Hw. destruct Hw as [m w w' H|r c w h H|prompt c w|m w w' H|id w|id w|w].
  - unfold steer_send in H. destruct (w_run w); [|done]. cbn in H. destruct (_ && _); [|done].
    injection H as <-. by left.
  - unfold steer_record. rewrite H. cbn. unfold write_user_message. destruct (existsb _ _); [by left|right].
    by eexists.
  - left. unfold steer_confirm. destruct (live_handle v w); [|done]. by destruct (String.eqb _ _).
  - left. unfold mailbox_take in H. destruct (w_run w) as [h|]; [|done]. cbn in H.
    destruct (rh_mailbox h); [done|]. by injection H as <- <-.
  - left. unfold request_input. by destruct (w_run w).
  - left. unfold respond_input. destruct (w_run w); [|done]. by destruct (bool_decide _).
  - left. unfold interrupt. destruct (w_run w) as [h|]; [|done].
    exact (proj1 (world_emits AnswerEmpty _ _)).
Qed.

Lemma world_step_ok s w : run_ok n0 s -> world_step stable_hash v (rs_world s) w -> run_ok n0 (set_world w s).
Proof.
  intros (Hd & Hp & Hi) Hw. destruct (world_step_doc _ _ Hw) as [E|(e & E & Hst & _)].
  - split; [|done]. cbn. by rewrite E.
  - split; [|done]. cbn. rewrite E. apply doc_ok_append; [done|]. by rewrite Hst.
Qed.

Lemma run_step_ok s s' :
  run_ok n0 s -> run_step new_id digest_hex text_diff stable_hash v s s' -> run_ok n0 s'.
Proof.
  intros H Hs. destruct Hs as [rd c s s' E|s w Hw].
  - exact (iteration_ok _ _ _ _ H E).
  - by apply world_step_ok.
Qed.

Lemma reachable_ok s s' :
  run_ok n0 s -> rtc (run_step new_id digest_hex text_diff stable_hash v) s s' -> run_ok n0 s'.
Proof. intros H Hs. induction Hs; [done|]. apply IHHs. by eapply run_step_ok. Qed.

(** *** Start and exit *)

Definition none_streaming (doc : list EntryMap) : Prop :=
  forall k e, (n0 <= k)%nat -> doc !! k = Some e -> em_status e <> Some Streaming.

Lemma quiet_none doc : quiet n0 doc -> none_streaming doc.
Proof. intros (_ & H & _) k e Hk He Hst. by destruct (H k e Hk He Hst) as (w & [=] & _). Qed.

Lemma end_sinks_quiet l s : settled n0 s -> settled n0 (foldl (end_sink stable_hash v) s l).
Proof.
  revert s. induction l as [|e l IH]; intros s H; [done|]. cbn. apply IH. destruct H as [Hw Hq].
  split; [done|]. by apply (doc_ok_chip n0 _ None [] e.1).
Qed.

Lemma exit_quiet st c s : settled n0 s -> quiet n0 (w_doc (rs_world (exit_run stable_hash v st c s))).
Proof.
  intros H. pose proof (end_sinks_quiet (map_to_list (rs_sinks s)) s H) as [_ Hq]. unfold exit_run.
  set (s1 := foldl _ s _) in *. destruct (match live_handle v _ with Some _ => _ | None => _ end);
    [|destruct (interrupted _)]; cbn; by rewrite remove_run_doc.
Qed.

Lemma start_ok steerable prompt message_id c c' ids w :
  length (w_doc w) = n0 ->
  run_ok n0 (start_run new_id c' ids (dispatch_new stable_hash v steerable prompt message_id c w)).
Proof.
  intros Hl. split; [|done]. cbn. unfold dispatch_new. split; [done|].
  assert (only_streaming n0 (write_user_message stable_hash (v_device v) (w_doc w) message_id prompt (wall c))
            None /\ (n0 <= length (write_user_message stable_hash (v_device v) (w_doc w) message_id prompt (wall c)))%nat)
    as H.
  { assert (doc_ok n0 (w_doc w) None []) as Hok.
    { split_and!; [done| |lia]. intros k e Hk He. apply lookup_lt_Some in He. lia. }
    unfold write_user_message. destruct (existsb _ _); [apply Hok|].
    by apply (doc_ok_append n0 (w_doc w) None [] (mk_entry_map message_id User [to_doc_part (TextPart "t0" prompt)]
                (wall c) (v_device v) (Some Complete) None)). }
  destruct (String.eqb prompt ""); exact H.
Qed.
End Stages.

(** ** Interrupts

    Nothing but the cancel signal touches the interrupt flag and its deadline. *)

Definition flow_state (f : Flow) : RunState :=
  match f with Pass s | Continue s | Break s _ | Return s => s end.

Definition same_stop (s s' : RunState) : Prop :=
  tn_interrupted (rs_turn s') = tn_interrupted (rs_turn s) /\ tn_deadline (rs_turn s') = tn_deadline (rs_turn s).

#[export] Instance same_stop_pre : PreOrder same_stop.
Proof. split; [by intros s|]. intros s1 s2 s3 (? & ?) (? & ?). split; congruence. Qed.

Lemma same_core_stop s s' : same_core s s' -> same_stop s s'.
Proof. intros (_ & E & _). unfold same_stop. by rewrite E. Qed.

Lemma same_turn_stop s s' : rs_turn s' = rs_turn s -> same_stop s s'.
Proof. intros E. unfold same_stop. by rewrite E. Qed.

Lemma and_then_keeps (R : RunState -> RunState -> Prop) `{!PreOrder R} s f k :
  R s (flow_state f) -> (forall s', R s' (flow_state (k s'))) -> R s (flow_state (and_then f k)).
Proof. intros Hf Hk. destruct f; cbn in *; [|done..]. etrans; [exact Hf|apply Hk]. Qed.

Section Stops.
Context (new_id : nat -> string) (digest_hex : string -> string).
Context (text_diff : string -> string -> N * N) (stable_hash : Value -> string).
Context (v : Env).

Lemma finish_segment_turn st s : rs_turn (finish_segment v st s) = rs_turn s.
Proof. unfold finish_segment. by destruct (sg_writer _), (sg_folded _). Qed.

Lemma next_segment_turn entry_id c s : rs_turn (next_segment new_id entry_id c s) = rs_turn s.
Proof. by destruct entry_id. Qed.

Lemma note_message_turn text s : rs_turn (note_message text s) = rs_turn s.
Proof. apply (note_message_core text s). Qed.

Lemma park_stop st c s : same_stop s (park new_id v st c s).
Proof. unfold park, same_stop. cbn -[next_segment]. by rewrite next_segment_turn. Qed.

Lemma keep_session_stop c s : same_stop s (keep_session new_id v c s).
Proof.
  unfold keep_session. destruct (tn_compact_pending _).
  - set (s1 := upd_turn _ s). destruct (send_compact v s1) as [s2|] eqn:E.
    + apply send_compact_core, same_core_stop in E. transitivity s1; [done|]. transitivity s2; [done|].
      unfold same_stop. cbn -[next_segment]. by rewrite next_segment_turn.
    + transitivity (upd_turn set_saw_started s1); [done|]. apply park_stop.
  - transitivity (upd_turn set_saw_started s); [done|]. apply park_stop.
Qed.

Lemma turn_end_stop e c s : same_stop s (flow_state (turn_end new_id v e c s)).
Proof.
  destruct e; try done. unfold turn_end. set (s1 := upd_seg _ _).
  assert (same_stop s s1) as H1 by exact (same_turn_stop s s1 (proj1 (proj2 (drain_pending_core v s)))).
  set (s2 := match sg_writer (rs_seg s1) with Some _ => _ | None => _ end).
  assert (same_stop s1 s2) as H2.
  { apply same_turn_stop. unfold s2. destruct (sg_writer _), (folded s1);
      by rewrite ?note_message_turn, ?finish_segment_turn. }
  set (s3 := if match status with Completed => true | _ => false end then _ else s2).
  set (s4 := if _ && v_titles v then _ else s3).
  assert (same_stop s s4) as H4.
  { transitivity s1; [done|]. transitivity s2; [done|]. apply same_turn_stop.
    unfold s4, s3. by destruct status, (v_titles v). }
  destruct (_ && v_steerable v && _); [|done]. etrans; [exact H4|apply keep_session_stop].
Qed.

Lemma steer_boundary_stop e c s : same_stop s (flow_state (steer_boundary new_id v e c s)).
Proof.
  destruct e; try done. unfold steer_boundary. set (s1 := upd_turn _ _). transitivity s1; [done|].
  apply same_turn_stop. cbn -[next_segment]. by rewrite next_segment_turn, note_message_turn, finish_segment_turn.
Qed.

Lemma mark_dirty_turn c s : rs_turn (mark_dirty c s) = rs_turn s.
Proof. unfold mark_dirty. by destruct (sg_dirty _). Qed.

Lemma chip_fold_turn parent sub_id known e c s :
  rs_turn (chip_fold text_diff parent sub_id known e c s) = rs_turn s.
Proof. unfold chip_fold. rewrite mark_dirty_turn. by destruct known. Qed.

Lemma open_sink_turn parent sub_id chip c s : rs_turn (open_sink new_id v parent sub_id chip c s) = rs_turn s.
Proof. unfold open_sink. destruct (v_can_open v sub_id); [|done]. by destruct chip. Qed.

Lemma feed_sink_turn parent chip e c k s :
  rs_turn (feed_sink new_id text_diff stable_hash v parent chip e c k s) = rs_turn s.
Proof. destruct e; try done. by destruct chip. Qed.

Lemma route_subagent_turn parent e c s :
  rs_turn (route_subagent new_id digest_hex text_diff stable_hash v parent e c s) = rs_turn s.
Proof.
  unfold route_subagent. set (s1 := publish_event (Subagent parent e) s). change (rs_turn s) with (rs_turn s1).
  destruct (_ && _ && _); [done|].
  set (s2 := if is_steer e then _ else s1). set (s3 := if in_segment _ _ then _ else s2).
  set (s4 := if _ && negb (is_done e) then _ else s3). set (s5 := if is_done e then _ else s4).
  assert (rs_turn s2 = rs_turn s1) as E2 by (unfold s2; by destruct (is_steer e)).
  assert (rs_turn s3 = rs_turn s1) as E3 by (unfold s3; destruct (in_segment _ _); [by rewrite chip_fold_turn|done]).
  assert (rs_turn s4 = rs_turn s1) as E4 by (unfold s4; destruct (_ && _); [by rewrite open_sink_turn|done]).
  assert (rs_turn s5 = rs_turn s1) as E5 by (unfold s5; by destruct (is_done e)).
  destruct (rs_sinks s5 !! parent); [by rewrite feed_sink_turn|done].
Qed.

Ltac plain_stage := intros; apply same_turn_stop; repeat case_match; done.

Lemma drop_unknown_input_stop e s : same_stop s (flow_state (drop_unknown_input e s)).
Proof. unfold drop_unknown_input. plain_stage. Qed.

Lemma parked_gate_stop e c s : same_stop s (flow_state (parked_gate new_id v e c s)).
Proof. unfold parked_gate, answer_empty. repeat case_match; done. Qed.

Lemma drop_heartbeat_stop e s : same_stop s (flow_state (drop_heartbeat e s)).
Proof. unfold drop_heartbeat. plain_stage. Qed.

Lemma drop_echo_stop e s : same_stop s (flow_state (drop_echo e s)).
Proof. unfold drop_echo. plain_stage. Qed.

Lemma startup_retry_stop e s : same_stop s (flow_state (startup_retry v e s)).
Proof. unfold startup_retry. plain_stage. Qed.

Lemma session_effects_stop e c s : same_stop s (flow_state (session_effects v e c s)).
Proof. unfold session_effects. repeat case_match; done. Qed.

Lemma publish_and_fold_stop e s : same_stop s (flow_state (publish_and_fold text_diff e s)).
Proof. unfold publish_and_fold. repeat case_match; done. Qed.

Lemma schedule_flush_stop c s : same_stop s (flow_state (schedule_flush c s)).
Proof. unfold schedule_flush, mark_dirty. repeat case_match; done. Qed.

Hint Resolve drop_unknown_input_stop parked_gate_stop drop_heartbeat_stop drop_echo_stop startup_retry_stop
  steer_boundary_stop session_effects_stop publish_and_fold_stop turn_end_stop schedule_flush_stop : stops.

Lemma handle_event_stop e c s :
  same_stop s (flow_state (handle_event new_id digest_hex text_diff stable_hash v e c s)).
Proof.
  set (s0 := upd_turn (set_last_activity (mono c)) (touch_chat v c s)).
  assert (same_stop s0 (flow_state
    ((drop_unknown_input e >=> parked_gate new_id v e c >=> drop_heartbeat e >=> drop_echo e >=> startup_retry v e >=>
      steer_boundary new_id v e c >=> session_effects v e c >=> publish_and_fold text_diff e >=>
      turn_end new_id v e c >=> schedule_flush c)%flow s0))) as Hall.
  { do 9 (apply (and_then_keeps same_stop); [auto with stops|intros ?]). auto with stops. }
  destruct e; try exact Hall. apply same_turn_stop, route_subagent_turn.
Qed.

Lemma flush_stop s : same_stop s (flush v s).
Proof.
  unfold flush. etrans; [|apply same_core_stop, flush_sinks_core].
  destruct (sg_dirty (rs_seg s)); [|done]. apply same_turn_stop. cbn. unfold sync_segment.
  destruct (sg_folded _); [done|]. destruct (match sg_writer _ with Some _ => _ | None => _ end) as [doc w].
  by destruct (default _ _).
Qed.

(** The stop is armed once and stays. *)
Lemma iteration_stop rd c s f :
  iteration new_id digest_hex text_diff stable_hash v rd c s = Some f -> interrupted s = true ->
  same_stop s (flow_state f).
Proof.
  unfold iteration. intros Hf Hint. destruct (select v rd c s) as [a|] eqn:Esel; [|done]. cbn [mbind option_bind] in Hf.
  assert (same_stop s (flow_state (run_arm new_id digest_hex text_diff stable_hash v a c s))) as H.
  { destruct a; cbn [run_arm flow_state].
    - unfold select in Esel. unfold interrupted in *. rewrite Hint, andb_false_r in Esel.
      repeat case_match; done.
    - apply handle_event_stop.
    - by destruct (match idle_since s with Some _ => _ | None => _ end).
    - by destruct (live_handle v _).
    - apply handle_event_stop.
    - unfold stream_item. repeat case_match; try done; apply handle_event_stop.
    - apply flush_stop.
    - unfold quiesce. etrans; [|apply park_stop]. apply same_turn_stop.
      repeat case_match; by rewrite ?note_message_turn, ?finish_segment_turn. }
  by destruct (run_arm new_id digest_hex text_diff stable_hash v a c s); injection Hf as <-.
Qed.

Lemma keep_session_doc c s : w_doc (rs_world (keep_session new_id v c s)) = w_doc (rs_world s).
Proof.
  unfold keep_session. destruct (tn_compact_pending _); [|done]. set (s1 := upd_turn _ s).
  destruct (send_compact v s1) as [s2|] eqn:E; [|done]. apply send_compact_core in E as (_ & _ & E).
  cbn. by rewrite E.
Qed.

(** The row an exit leaves. *)
Lemma exit_row st c s :
  exists row, w_rows (rs_world (exit_run stable_hash v st c s)) !! v_chat v = Some row /\ se_status row = st.
Proof.
  unfold exit_run. set (s1 := foldl _ s _).
  assert (forall w, exists row, w_rows (set_w_rows (set_status (w_rows (remove_run v w)) (v_device v) (v_chat v) st false
            (wall c)) (remove_run v w)) !! v_chat v = Some row /\ se_status row = st) as H.
  { intros w. eexists. split; [apply lookup_insert_eq|done]. }
  destruct (match live_handle v _ with Some _ => _ | None => _ end); [exact (H _)|].
  destruct (interrupted _); exact (H _).
Qed.

(** A turn end of an open session reaches the end of the turn. *)
Lemma done_event st r err sid c s n0 :
  live_ok n0 s -> (st = Errored -> folded s <> []) ->
  exists s1, live_ok n0 s1 /\ rs_turn s1 = set_last_activity (mono c) (rs_turn s) /\
    folded s1 = fold_event_into_parts text_diff (folded s) (Done st r err sid) /\
    handle_event new_id digest_hex text_diff stable_hash v (Done st r err sid) c s =
      and_then (turn_end new_id v (Done st r err sid) c s1) (schedule_flush c).
Proof.
  intros H Hret. set (s0 := upd_turn (set_last_activity (mono c)) (touch_chat v c s)).
  assert (live_ok n0 s0) as H0 by exact H.
  assert (parked_gate new_id v (Done st r err sid) c s0 = Pass s0) as Eg.
  { unfold parked_gate. assert (idle_since s0 = None) as -> by exact (proj2 H). done. }
  assert (startup_retry v (Done st r err sid) s0 = Pass s0) as Er.
  { destruct st; try done. cbn. assert (folded s0 = folded s) as -> by done.
    destruct (folded s); [by destruct (Hret eq_refl)|]. by rewrite andb_false_r. }
  assert (exists s1, session_effects v (Done st r err sid) c s0 = Pass s1 /\ live_ok n0 s1 /\
            rs_seg s1 = rs_seg s /\ rs_turn s1 = rs_turn s0) as (s1 & Es & H1 & Eg1 & Et1).
  { destruct sid; (eexists; split; [reflexivity|]); done. }
  pose proof (publish_and_fold_ok text_diff n0 (Done st r err sid) s1 H1) as Hp.
  unfold handle_event. cbn [and_then drop_unknown_input]. fold s0. rewrite Eg. cbn [and_then drop_heartbeat drop_echo].
  rewrite Er. cbn [and_then steer_boundary]. rewrite Es. cbn [and_then].
  unfold publish_and_fold in *. cbn [and_then flow_ok] in *. eexists. split; [by apply Hp|].
  split; [exact Et1|]. split; [|done]. unfold folded. cbn. by rewrite Eg1.
Qed.

End Stops.

(** ** The ledger of steers

    The run and its unconfirmed steers, against the boundaries published. *)

Definition is_boundary_out (x : Effect) : bool :=
  match x with Publish (Steered _ _) => true | _ => false end.

Definition boundaries (s : RunState) : nat := length (List.filter is_boundary_out (w_out (rs_world s))).

Definition ledger_of (w : World) : option (string * list RoutedSteer) :=
  (fun h => (rh_run_id h, rh_routed h)) <$> w_run w.

(** Neither the ledger nor the run changes. *)
Definition calm (s s' : RunState) : Prop :=
  ledger_of (rs_world s') = ledger_of (rs_world s) /\ (boundaries s <= boundaries s')%nat.

(** At most one entry goes, the oldest, per boundary. *)
Definition pops (s s' : RunState) : Prop :=
  (boundaries s <= boundaries s')%nat /\
  exists k, (k <= boundaries s' - boundaries s)%nat /\
    ledger_of (rs_world s') = (fun p => (p.1, drop k p.2)) <$> ledger_of (rs_world s).

#[export] Instance calm_pre : PreOrder calm.
Proof. split; [by intros s|]. intros s1 s2 s3 [? ?] [? ?]. split; [congruence|lia]. Qed.

Lemma calm_pops s s' : calm s s' -> pops s s'.
Proof.
  intros [E H]. split; [done|]. exists 0%nat. split; [lia|]. rewrite E.
  destruct (ledger_of (rs_world s)) as [[i l]|]; [|done]. cbn. by rewrite drop_0.
Qed.

#[export] Instance pops_pre : PreOrder pops.
Proof.
  split; [intros s; by apply calm_pops|].
  intros s1 s2 s3 (H1 & k1 & Hk1 & E1) (H2 & k2 & Hk2 & E2). split; [lia|]. exists (k1 + k2)%nat. split; [lia|].
  rewrite E2, E1. destruct (ledger_of (rs_world s1)) as [[i l]|]; [|done]. cbn. by rewrite drop_drop.
Qed.

Lemma boundaries_emit x s : boundaries (emit x s) = (boundaries s + (if is_boundary_out x then 1 else 0))%nat.
Proof.
  unfold boundaries. cbn. rewrite List.filter_app, length_app. cbn. by destruct (is_boundary_out x).
Qed.

Lemma calm_emit x s : calm s (emit x s).
Proof. split; [done|]. rewrite boundaries_emit. lia. Qed.

Lemma calm_seg f s : calm s (upd_seg f s). Proof. done. Qed.
Lemma calm_turn f s : calm s (upd_turn f s). Proof. done. Qed.
Lemma calm_seen x s : calm s (set_seen x s). Proof. done. Qed.
Lemma calm_settled x s : calm s (set_settled x s). Proof. done. Qed.
Lemma calm_sinks x s : calm s (set_sinks x s). Proof. done. Qed.
Lemma calm_ids x s : calm s (set_ids x s). Proof. done. Qed.
Lemma calm_doc f s : calm s (upd_world (fun w => set_w_doc (f w) w) s). Proof. done. Qed.
Lemma calm_rows f s : calm s (upd_world (fun w => set_w_rows (f w) w) s). Proof. done. Qed.
Lemma calm_known f s : calm s (upd_world (fun w => set_w_known (f w) w) s). Proof. done. Qed.
Lemma calm_sink_doc k doc s : calm s (upd_world (set_sink_doc k doc) s). Proof. done. Qed.

Lemma calm_handle f h s :
  w_run (rs_world s) = Some h -> rh_run_id (f h) = rh_run_id h -> rh_routed (f h) = rh_routed h ->
  calm s (upd_world (set_w_run (Some (f h))) s).
Proof. intros E H1 H2. split; [|done]. unfold ledger_of. rewrite E. cbn. by rewrite H1, H2. Qed.

Lemma calm_foldl {A} (f : RunState -> A -> RunState) l s :
  (forall s x, calm s (f s x)) -> calm s (foldl f s l).
Proof. intros Hf. revert s. induction l as [|x l IH]; intros s; [done|]. cbn. etrans; [apply Hf|apply IH]. Qed.

#[export] Hint Resolve calm_emit calm_seg calm_turn calm_seen calm_settled calm_sinks calm_ids calm_doc
  calm_rows calm_known calm_sink_doc : calms.

Ltac calms :=
  repeat case_match;
  repeat first [reflexivity | eapply (transitivity (R := calm)); [|solve [auto with calms]]].

Section Ledger.
Context (new_id : nat -> string) (digest_hex : string -> string).
Context (text_diff : string -> string -> N * N) (stable_hash : Value -> string).
Context (v : Env).

Lemma live_handle_Some w h : live_handle v w = Some h -> w_run w = Some h /\ rh_run_id h = v_run_id v.
Proof.
  unfold live_handle. destruct (w_run w) as [h'|]; [|done]. destruct (String.eqb_spec (rh_run_id h') (v_run_id v)); [|done].
  by intros [= <-].
Qed.

Lemma drain_pending_calm s : calm s (drain_pending v s).
Proof.
  unfold drain_pending. destruct (live_handle v (rs_world s)) as [h|] eqn:E; [|done].
  transitivity (upd_world (upd_live v (set_pending ∅)) s).
  - split; [|unfold boundaries; cbn; unfold upd_live; by rewrite E].
    unfold upd_world, ledger_of, upd_live. rewrite E. cbn. by apply live_handle_Some in E as [-> _].
  - apply calm_foldl. intros s' x. apply calm_emit.
Qed.

Lemma answer_empty_calm id s : calm s (answer_empty id s).
Proof.
  unfold answer_empty. destruct (w_run (rs_world s)) as [h|] eqn:E; [|done]. destruct (bool_decide _); [|done].
  etrans; [|apply calm_emit]. by apply (calm_handle (fun h => set_pending (rh_pending h ∖ {[id]}) h)).
Qed.

Lemma send_compact_calm s s' : send_compact v s = Some s' -> calm s s'.
Proof.
  unfold send_compact. destruct (live_handle v (rs_world s)) as [h|] eqn:E; [|done]. destruct (_ && _); [|done].
  intros [= <-]. apply live_handle_Some in E as [E _].
  by apply (calm_handle (fun h => set_mailbox (rh_mailbox h ++ [mk_steer "/compact" None]) h)).
Qed.

Lemma finish_segment_calm st s : calm s (finish_segment v st s).
Proof. unfold finish_segment. by destruct (sg_writer _), (sg_folded _). Qed.

Lemma sync_segment_calm s : calm s (sync_segment v s).
Proof.
  unfold sync_segment. destruct (sg_folded _); [done|]. destruct (match sg_writer _ with Some _ => _ | None => _ end).
  by destruct (default _ _).
Qed.

Lemma next_segment_calm entry_id c s : calm s (next_segment new_id entry_id c s).
Proof. by destruct entry_id. Qed.

Lemma rotate_calm c s : calm s (rotate new_id c s).
Proof. done. Qed.

Lemma note_message_calm text s : calm s (note_message text s).
Proof. unfold note_message. calms. Qed.

Lemma row_status_calm st fresh c s : calm s (set_row_status v st fresh c s).
Proof. done. Qed.

Lemma update_chip_calm parent r st s : calm s (update_chip parent r st s).
Proof. done. Qed.

Lemma mark_dirty_calm c s : calm s (mark_dirty c s).
Proof. unfold mark_dirty. by destruct (sg_dirty _). Qed.

Lemma freeze_sink_calm st k s : calm s (freeze_sink stable_hash v st k s).
Proof. unfold freeze_sink. calms. Qed.

#[local] Hint Resolve drain_pending_calm answer_empty_calm finish_segment_calm next_segment_calm note_message_calm
  rotate_calm row_status_calm update_chip_calm mark_dirty_calm freeze_sink_calm sync_segment_calm : calms.

Lemma park_calm st c s : calm s (park new_id v st c s).
Proof. unfold park. calms. Qed.
#[local] Hint Resolve park_calm : calms.

Lemma keep_session_calm c s : calm s (keep_session new_id v c s).
Proof.
  unfold keep_session. destruct (tn_compact_pending _); [|calms].
  destruct (send_compact v _) as [s'|] eqn:E; [|calms]. apply send_compact_calm in E.
  eapply transitivity; [|auto with calms]. eapply transitivity; [|auto with calms]. exact E.
Qed.
#[local] Hint Resolve keep_session_calm : calms.

Lemma route_subagent_calm parent e c s :
  calm s (route_subagent new_id digest_hex text_diff stable_hash v parent e c s).
Proof.
  unfold route_subagent. set (s1 := publish_event (Subagent parent e) s).
  transitivity s1; [apply calm_emit|]. destruct (_ && _ && _); [done|].
  set (s2 := if is_steer e then _ else s1). set (s3 := if in_segment _ _ then _ else s2).
  set (s4 := if _ && negb (is_done e) then _ else s3). set (s5 := if is_done e then _ else s4).
  transitivity s2; [by unfold s2; destruct (is_steer e)|].
  transitivity s3.
  { unfold s3. destruct (in_segment _ _); [|done]. unfold chip_fold. etrans; [|apply mark_dirty_calm].
    by destruct (match rs_sinks s1 !! parent with Some _ => _ | None => _ end). }
  transitivity s4.
  { unfold s4, open_sink. destruct (_ && _); [|done]. destruct (v_can_open v _); [|done].
    by destruct (in_segment _ _). }
  transitivity s5; [by unfold s5; destruct (is_done e)|].
  destruct (rs_sinks s5 !! parent) as [k|]; [|done]. destruct e; try done. cbn -[freeze_sink].
  eapply transitivity; [|apply freeze_sink_calm]. by destruct (in_segment _ _).
Qed.

(** A stage pops nothing, or is the boundary. *)
Definition flow_pops (s : RunState) (f : Flow) : Prop :=
  match f with Pass s' | Continue s' | Break s' _ => pops s s' | Return _ => True end.

Lemma and_then_pops s f k :
  flow_pops s f -> (forall s', flow_pops s' (k s')) -> flow_pops s (and_then f k).
Proof.
  intros Hf Hk. destruct f as [s'|s'|s' st|s']; cbn in *; try done. specialize (Hk s').
  destruct (k s'); cbn in *; try done; by etrans.
Qed.

Lemma steer_boundary_pops e c s : flow_pops s (steer_boundary new_id v e c s).
Proof.
  destruct e as [| | | | | | | | | | |am next| | |]; try (cbn; reflexivity). unfold steer_boundary.
  set (s1 := upd_turn _ _). set (s2 := set_row_status v Working true c _).
  assert (calm s1 s2) as H12 by (unfold s2; calms).
  assert (boundaries s1 = S (boundaries s)) as Hb by (unfold s1; change (boundaries (emit (Publish (Steered am next)) s) = S (boundaries s)); rewrite boundaries_emit; cbn; lia).
  assert (ledger_of (rs_world s2) = ledger_of (rs_world s)) as Hl by (rewrite (proj1 H12); done).
  destruct H12 as [_ H12]. cbn [flow_pops]. unfold upd_live. unfold upd_world at 1.
  destruct (live_handle v (rs_world s2)) as [h|] eqn:E.
  - apply live_handle_Some in E as [E _].
    split; [unfold boundaries in *; cbn in *; lia|]. exists 1%nat.
    split; [unfold boundaries in *; cbn in *; lia|]. rewrite <- Hl. unfold ledger_of. rewrite E. cbn.
    by destruct (rh_routed h).
  - apply calm_pops. split; [exact Hl|]. unfold boundaries in *. cbn in *. lia.
Qed.

Ltac calm_flow := cbn [flow_pops]; repeat case_match; cbn [flow_pops]; try done; apply calm_pops; calms.

Lemma drop_unknown_input_pops e s : flow_pops s (drop_unknown_input e s).
Proof. unfold drop_unknown_input. calm_flow. Qed.

Lemma parked_gate_pops e c s : flow_pops s (parked_gate new_id v e c s).
Proof. unfold parked_gate, unpark. calm_flow. Qed.

Lemma drop_heartbeat_pops e s : flow_pops s (drop_heartbeat e s).
Proof. unfold drop_heartbeat. calm_flow. Qed.

Lemma drop_echo_pops e s : flow_pops s (drop_echo e s).
Proof. unfold drop_echo. calm_flow. Qed.

Lemma startup_retry_pops e s : flow_pops s (startup_retry v e s).
Proof. unfold startup_retry. calm_flow. Qed.

Lemma session_effects_pops e c s : flow_pops s (session_effects v e c s).
Proof. unfold session_effects, remember. calm_flow. Qed.

Lemma publish_and_fold_pops e s : flow_pops s (publish_and_fold text_diff e s).
Proof. unfold publish_and_fold, publish_event. calm_flow. Qed.

Lemma schedule_flush_pops c s : flow_pops s (schedule_flush c s).
Proof. unfold schedule_flush. calm_flow. Qed.

Lemma turn_end_pops e c s : flow_pops s (turn_end new_id v e c s).
Proof.
  destruct e; try (cbn; reflexivity). unfold turn_end. set (s1 := upd_seg _ _).
  assert (calm s s1) as H1 by (unfold s1; calms).
  set (s2 := match sg_writer (rs_seg s1) with Some _ => _ | None => _ end).
  assert (calm s1 s2) as H2 by (unfold s2; destruct (sg_writer _), (folded s1); calms).
  set (s3 := if match status with Completed => true | _ => false end then _ else s2).
  assert (calm s2 s3) as H3 by (unfold s3; destruct status; calms).
  set (s4 := if _ && v_titles v then _ else s3).
  assert (calm s3 s4) as H4 by (unfold s4; destruct status, (v_titles v); calms).
  assert (calm s s4) as H by (by transitivity s1; [|transitivity s2; [|transitivity s3]]).
  destruct (_ && v_steerable v && _); apply calm_pops; [|done]. etrans; [exact H|apply keep_session_calm].
Qed.

#[local] Hint Resolve drop_unknown_input_pops parked_gate_pops drop_heartbeat_pops drop_echo_pops startup_retry_pops
  steer_boundary_pops session_effects_pops publish_and_fold_pops turn_end_pops schedule_flush_pops : pops.

Lemma handle_event_pops e c s :
  flow_pops s (handle_event new_id digest_hex text_diff stable_hash v e c s).
Proof.
  set (s0 := upd_turn (set_last_activity (mono c)) (touch_chat v c s)).
  assert (flow_pops s0
    ((drop_unknown_input e >=> parked_gate new_id v e c >=> drop_heartbeat e >=> drop_echo e >=> startup_retry v e >=>
      steer_boundary new_id v e c >=> session_effects v e c >=> publish_and_fold text_diff e >=>
      turn_end new_id v e c >=> schedule_flush c)%flow s0)) as Hall.
  { do 9 (apply and_then_pops; [auto with pops|intros ?]). auto with pops. }
  destruct e; try exact Hall. apply calm_pops, route_subagent_calm.
Qed.

Lemma iteration_pops rd c s f :
  iteration new_id digest_hex text_diff stable_hash v rd c s = Some f -> flow_pops s f.
Proof.
  unfold iteration. destruct (select v rd c s) as [a|] eqn:Esel; [|done]. cbn [mbind option_bind]. intros [= <-].
  assert (flow_pops s (run_arm new_id digest_hex text_diff stable_hash v a c s)) as H.
  { destruct a; cbn [run_arm].
    - by apply calm_pops.
    - apply handle_event_pops.
    - apply calm_pops. by destruct (match idle_since s with Some _ => _ | None => _ end).
    - apply calm_pops. destruct (live_handle v _); [apply calm_emit|done].
    - apply handle_event_pops.
    - unfold stream_item. destruct i; [apply handle_event_pops| |]; repeat case_match;
        try apply handle_event_pops; by apply calm_pops.
    - apply calm_pops. unfold flush, flush_sinks. etrans; [|apply calm_foldl].
      + destruct (sg_dirty _); [|done]. etrans; [apply sync_segment_calm|apply calm_seg].
      + intros s' [p k]. cbn. by destruct (sink_flush _ _ _).
    - apply calm_pops. unfold quiesce. etrans; [|apply park_calm].
      set (s1 := if tn_self_continued _ then s else _). assert (calm s s1) as H1 by (unfold s1; by destruct (tn_self_continued _)).
      etrans; [exact H1|]. destruct (sg_writer _), (folded s1); calms. }
  by destruct (run_arm new_id digest_hex text_diff stable_hash v a c s).
Qed.

Lemma world_foldl_boundaries l w :
  List.filter is_boundary_out (w_out (foldl (fun w id => w_emit (AnswerEmpty id) w) w l)) =
    List.filter is_boundary_out (w_out w).
Proof.
  revert w. induction l as [|x l IH]; intros w; [done|]. cbn [foldl]. rewrite IH. cbn.
  rewrite List.filter_app. by rewrite app_nil_r.
Qed.

(** The other tasks publish no boundary. *)
Lemma world_step_boundaries w w' :
  world_step stable_hash v w w' ->
  List.filter is_boundary_out (w_out w') = List.filter is_boundary_out (w_out w).
Proof.
  intros Hw. destruct Hw as [m w w' H|r c w h H|prompt c w|m w w' H|id w|id w|w].
  - unfold steer_send in H. destruct (w_run w); [|done]. cbn in H. destruct (_ && _); [|done].
    by injection H as <-.
  - unfold steer_record. by rewrite H.
  - unfold steer_confirm. destruct (live_handle v w); [|done]. destruct (String.eqb _ _); [done|].
    cbn. rewrite List.filter_app. by rewrite app_nil_r.
  - unfold mailbox_take in H. destruct (w_run w) as [h|]; [|done]. cbn in H.
    destruct (rh_mailbox h); [done|]. by injection H as <- <-.
  - unfold request_input. by destruct (w_run w).
  - unfold respond_input. destruct (w_run w); [|done]. by destruct (bool_decide _).
  - unfold interrupt. destruct (w_run w) as [h|]; [|done]. cbn. rewrite List.filter_app, app_nil_r.
    by rewrite world_foldl_boundaries.
Qed.

Lemma exit_redispatches st c s l :
  ledger_of (rs_world s) = Some (v_run_id v, l) -> interrupted s = false ->
  l = [] \/ Redispatch l ∈ w_out (rs_world (exit_run stable_hash v st c s)).
Proof.
  intros Hl Hi. destruct l as [|x l]; [by left|right]. unfold exit_run.
  set (s1 := set_sinks ∅ _).
  assert (calm s s1) as [Hc _].
  { etrans; [|apply calm_sinks]. apply calm_foldl. intros s' [p k]. cbn -[freeze_sink].
    etrans; [|apply freeze_sink_calm]. apply update_chip_calm. }
  assert (rs_turn s1 = rs_turn s) as Ht.
  { unfold s1. cbn. generalize (map_to_list (rs_sinks s)). intros m. clear. revert s.
    induction m as [|e m IH]; intros s; [done|]. cbn [foldl]. by rewrite IH. }
  rewrite Hl in Hc. unfold ledger_of in Hc. destruct (w_run (rs_world s1)) as [h|] eqn:Eh; [|done].
  cbn in Hc. injection Hc as Hid Hrt. unfold live_handle. rewrite Eh, Hid, String.eqb_refl, Hrt.
  assert (interrupted (set_row_status v st false c (upd_world (remove_run v) s1)) = false) as ->
    by (change (tn_interrupted (rs_turn s1) = false); rewrite Ht; exact Hi).
  cbn. apply elem_of_app. right. by apply list_elem_of_singleton.
Qed.
End Ledger.

(** ** Theorems *)

Section Theorems.
Context (new_id : nat -> string) (digest_hex : string -> string).
Context (text_diff : string -> string -> N * N) (stable_hash : Value -> string).
Context (v : Env).

Abbreviation iterate := (iteration new_id digest_hex text_diff stable_hash v).
Abbreviation steps := (rtc (run_step new_id digest_hex text_diff stable_hash v)).

(** A run dispatched on a document, and its loop entered. *)
Definition started (w0 : World) (s : RunState) : Prop :=
  exists steerable prompt message_id c c' ids,
    s = start_run new_id c' ids (dispatch_new stable_hash v steerable prompt message_id c w0).

Definition reachable (w0 : World) (s : RunState) : Prop := exists s0, started w0 s0 /\ steps s0 s.

Lemma reachable_run_ok w0 s : reachable w0 s -> run_ok (length (w_doc w0)) s.
Proof.
  intros (s0 & (st & p & m & c & c' & ids & ->) & Hs). eapply reachable_ok; [|exact Hs]. by apply start_ok.
Qed.

(** C21. Every segment settles: whatever the harness, the engine's own events,
    the timers and the other tasks do in any order, at most one entry of the run
    streams, the open segment's; none does while the session is parked; and
    when the loop breaks, or gives up for its retry, none is left streaming. *)
Theorem segments_settle w0 s :
  reachable w0 s ->
  let n0 := length (w_doc w0) in
  only_streaming n0 (w_doc (rs_world s)) (sg_writer (rs_seg s)) /\
  (idle_since s <> None -> none_streaming n0 (w_doc (rs_world s)) /\ folded s = []) /\
  (forall rd c f, iterate rd c s = Some f ->
     match f with
     | Break s' st => forall c', none_streaming n0 (w_doc (rs_world (exit_run stable_hash v st c' s')))
     | Return s' => none_streaming n0 (w_doc (rs_world s'))
     | Continue _ => True
     | Pass _ => False
     end).
Proof.
  intros Hr n0. apply reachable_run_ok in Hr. fold n0 in Hr. pose proof Hr as (Hd & Hp & _).
  split; [apply Hd|]. split.
  - intros Hn. destruct (Hp Hn) as (Hw & Hf & _). rewrite Hw in Hd. split; [|done]. by apply quiet_none.
  - intros rd c f Hf. pose proof (iteration_ok _ _ _ _ _ n0 rd c s f Hr Hf) as H.
    destruct f as [s'|s'|s' st|s']; try done.
    + intros c'. by apply quiet_none, exit_quiet.
    + apply quiet_none. apply H.
Qed.

(** Steps that note the steers the other tasks record. *)
Inductive steer_step : RunState * list RoutedSteer -> RunState * list RoutedSteer -> Prop :=
  | st_loop rd c s s' acc : iterate rd c s = Some (Continue s') -> steer_step (s, acc) (s', acc)
  | st_record r c s h acc :
      w_run (rs_world s) = Some h ->
      steer_step (s, acc) (set_world (steer_record stable_hash v r c (rs_world s)) s, acc ++ [r])
  | st_world s w acc :
      world_step stable_hash v (rs_world s) w -> ledger_of w = ledger_of (rs_world s) ->
      steer_step (s, acc) (set_world w s, acc).


(** What was streamed is recorded: a turn end of an open session with
    anything folded finishes the open entry under the end's status, and every
    part of the final fold, its open questions closed, is in the entry with
    every field the fold gives it; no schema error stands in the way. *)
Theorem turn_end_recorded w0 s st r err sid c :
  reachable w0 s -> idle_since s = None -> folded s <> [] ->
  let final := close_input <$> fold_event_into_parts text_diff (folded s) (Done st r err sid) in
  exists f, handle_event new_id digest_hex text_diff stable_hash v (Done st r err sid) c s = f /\
    (match f with Continue _ | Break _ _ => True | _ => False end) /\
    closed_with (length (w_doc w0)) (w_doc (rs_world (flow_state f))) final (message_status st).
Proof.
  intros Hr Hi Hne final. apply reachable_run_ok in Hr.
  destruct (done_event new_id digest_hex text_diff stable_hash v st r err sid c s _ (conj Hr Hi) (fun _ => Hne))
    as (s1 & H1 & _ & Hf & ->).
  destruct (turn_end_spec new_id v _ st r err sid c s1 H1) as (s2 & Hs & _ & Hc & ->).
  rewrite Hf in Hc. eexists. split; [reflexivity|].
  assert (fold_event_into_parts text_diff (folded s) (Done st r err sid) <> []) as Hfn.
  { intros E. pose proof (fold_extends text_diff (folded s) (Done st r err sid) eq_refl) as Hp.
    rewrite E in Hp. destruct (folded s); [done|]. by destruct Hp as [? [=]]. }
  destruct (_ && _ && _); cbn [and_then flow_state]; (split; [done|]); [|by apply Hc].
  rewrite keep_session_doc. by apply Hc.
Qed.

(** A stop always ends the run: the cancel signal arms a deadline three
    seconds out, nothing moves or disarms it, and from then on the next turn of
    the loop breaks, whatever else is ready and whatever the harness does: the
    open answer is stamped aborted with all that was folded, nothing is left
    streaming, and the row settles idle. *)
Theorem interrupt_settles w0 s :
  reachable w0 s ->
  let n0 := length (w_doc w0) in
  (interrupted s = false -> forall rd c, rd_cancel rd = true ->
     exists s', iterate rd c s = Some (Continue s') /\ interrupted s' = true /\
       tn_deadline (rs_turn s') = Some (mono c + INTERRUPT_GRACE)) /\
  (interrupted s = true -> exists d, tn_deadline (rs_turn s) = Some d /\
     (forall rd c s', iterate rd c s = Some (Continue s') ->
        interrupted s' = true /\ tn_deadline (rs_turn s') = Some d) /\
     (forall rd c, d <= mono c -> exists s', iterate rd c s = Some (Break s' Idle) /\
        (folded s <> [] -> closed_with n0 (w_doc (rs_world s')) (close_input <$> folded s) Aborted) /\
        forall c', none_streaming n0 (w_doc (rs_world (exit_run stable_hash v Idle c' s'))) /\
          exists row, w_rows (rs_world (exit_run stable_hash v Idle c' s')) !! v_chat v = Some row /\
            se_status row = Idle)).
Proof.
  intros Hr n0. apply reachable_run_ok in Hr. fold n0 in Hr. split.
  - intros Hi rd c Hc. unfold iteration, select. rewrite Hc, Hi. by eexists.
  - intros Hi. destruct (tn_deadline (rs_turn s)) as [d|] eqn:Ed; [|by destruct (proj2 (proj2 Hr) Hi)].
    exists d. split; [done|]. split.
    + intros rd c s' E. destruct (iteration_stop _ _ _ _ _ rd c s _ E Hi) as [E1 E2]. cbn in E1, E2.
      unfold interrupted in *. by rewrite E1, E2.
    + intros rd c Hd.
      assert (select v rd c s = Some ArmDeadline) as Esel.
      { unfold select. rewrite Hi, andb_false_r, Ed. cbn. by rewrite (proj2 (Z.leb_le _ _) Hd). }
      assert (exists s0, live_ok n0 s0 /\ folded s0 = folded s /\ interrupted s0 = true /\
                handle_event new_id digest_hex text_diff stable_hash v (synthetic Interrupted None) c s =
                handle_event new_id digest_hex text_diff stable_hash v (synthetic Interrupted None) c s0)
        as (s0 & H0 & Hf0 & Hi0 & E0).
      { destruct (idle_since s) as [at_|] eqn:Eidle; [|by exists s].
        exists (unpark s). split; [by apply unpark_ok|]. split; [done|]. split; [done|].
        unfold handle_event. cbn [and_then drop_unknown_input synthetic]. unfold parked_gate at 1.
        assert (idle_since (upd_turn (set_last_activity (mono c)) (touch_chat v c s)) = Some at_) as -> by exact Eidle.
        assert (forall t s, self_continues (Done Interrupted None None None) t c s = false) as Hsc
          by (intros; unfold self_continues; by rewrite andb_false_r).
        rewrite Hsc. reflexivity. }
      destruct (done_event new_id digest_hex text_diff stable_hash v Interrupted None None None c s0 _ H0
                  ltac:(done)) as (s1 & H1 & Ht & Hf & E1).
      destruct (turn_end_spec new_id v _ Interrupted None None None c s1 H1) as (s2 & Hs & _ & Hc & E2).
      exists s2. split; [|split].
      * unfold iteration. rewrite Esel. cbn [mbind option_bind run_arm].
        rewrite E0. unfold synthetic. rewrite E1, E2. done.
      * cbn in Hf. rewrite Hf, Hf0 in Hc. exact Hc.
      * intros c'. split; [by apply quiet_none, exit_quiet|apply exit_row].
Qed.
End Theorems.

(** ** Concrete runs *)

Section Samples.

Definition sample_id (n : nat) : string := ("n" ++ pretty n)%string.
Definition sample_digest (s : string) : string := "0123456789abcdef".
Definition sample_diff (a b : string) : N * N := (0%N, 0%N).
Definition sample_hash (x : Value) : string := "00".

Definition sample_env (steerable resume : bool) : Env :=
  mk_env "c1" "d1" "r1" "/w" "m1" steerable true None None 170000 resume false (fun _ => true) false.

Definition nothing_ready : Ready := mk_ready false false None None.
Definition streams (e : AgentEvent) : Ready := mk_ready false false None (Some (ItemOk e)).
Definition at_ms (t : Z) : Clock := mk_clock t t.

Definition empty_world : World := mk_world None ∅ [] ∅ ∅ [].

Definition sample_start (v : Env) : RunState :=
  start_run sample_id (at_ms 0) 0 (dispatch_new sample_hash v (v_steerable v) "hi" "m1" (at_ms 0) empty_world).

Definition sample_iterate (v : Env) : Ready -> Clock -> RunState -> option Flow :=
  iteration sample_id sample_digest sample_diff sample_hash v.

(** The loop over a list of readings, as long as it goes on. *)
Fixpoint sample_run (v : Env) (l : list (Ready * Clock)) (s : RunState) : option Flow :=
  match l with
  | [] => Some (Continue s)
  | (rd, c) :: l =>
      match sample_iterate v rd c s with
      | Some (Continue s) => sample_run v l s
      | f => f
      end
  end.

Definition state_after (v : Env) (l : list (Ready * Clock)) : RunState :=
  match sample_run v l (sample_start v) with Some f => flow_state f | None => sample_start v end.

Definition goes_on (f : option Flow) : bool := match f with Some (Continue _) => true | _ => false end.

Lemma sample_steps v l s :
  goes_on (sample_run v l s) = true ->
  rtc (run_step sample_id sample_digest sample_diff sample_hash v) s
    (match sample_run v l s with Some f => flow_state f | None => s end).
Proof.
  revert s. induction l as [|[rd c] l IH]; intros s H; [done|]. cbn in *.
  destruct (sample_iterate v rd c s) as [[]|] eqn:E; try done.
  eapply rtc_l; [apply (rs_loop _ _ _ _ _ rd c _ _ E)|]. specialize (IH _ H).
  by destruct (sample_run v l _).
Qed.

Lemma sample_reachable v l :
  goes_on (sample_run v l (sample_start v)) = true ->
  reachable sample_id sample_digest sample_diff sample_hash v empty_world (state_after v l).
Proof.
  intros H. exists (sample_start v). split; [by eexists _, _, _, _, _, _|].
  unfold state_after. by apply sample_steps.
Qed.
End Samples.

(** A reply that streams a text and a tool call, ticks and streams on. *)
Definition sample_reply : list (Ready * Clock) :=
  [(streams (TextDelta "Hel"), at_ms 10); (nothing_ready, at_ms 140); (streams (TextDelta "lo"), at_ms 150);
   (streams (ToolCallEv "x1" (Exec "ls")), at_ms 160)].

Lemma segments_settle_witness :
  only_streaming 0 (w_doc (rs_world (state_after (sample_env true false) sample_reply)))
    (sg_writer (rs_seg (state_after (sample_env true false) sample_reply))) /\
  (fun e => (em_role e, em_status e)) <$> w_doc (rs_world (state_after (sample_env true false) sample_reply)) =
    [(User, Some Complete); (Assistant, Some Streaming)].
Proof.
  split; [|vm_compute; reflexivity].
  apply (segments_settle sample_id sample_digest sample_diff sample_hash (sample_env true false) empty_world).
  apply sample_reachable. vm_compute. reflexivity.
Defined.

Lemma turn_end_recorded_witness :
  exists f, handle_event sample_id sample_digest sample_diff sample_hash (sample_env true false)
              (Done Completed None None None) (at_ms 200) (state_after (sample_env true false) sample_reply) = f /\
    closed_with 0 (w_doc (rs_world (flow_state f)))
      [TextPart "t0" "Hello"; Tool (new_tool "x1" (Exec "ls"))] Complete.
Proof.
  destruct (turn_end_recorded sample_id sample_digest sample_diff sample_hash (sample_env true false) empty_world
              (state_after (sample_env true false) sample_reply) Completed None None None (at_ms 200))
    as (f & E & _ & H).
  - apply sample_reachable. vm_compute. reflexivity.
  - vm_compute. reflexivity.
  - vm_compute. discriminate.
  - exists f. split; [exact E|]. exact H.
Defined.

Lemma interrupt_settles_witness :
  exists s', sample_iterate (sample_env true false) nothing_ready (at_ms 3200)
      (state_after (sample_env true false) (sample_reply ++ [(mk_ready true false None None, at_ms 170)])) =
      Some (Break s' Idle) /\ none_streaming 0 (w_doc (rs_world (exit_run sample_hash (sample_env true false) Idle (at_ms 3200) s'))).
Proof.
  destruct (interrupt_settles sample_id sample_digest sample_diff sample_hash (sample_env true false) empty_world
              (state_after (sample_env true false) (sample_reply ++ [(mk_ready true false None None, at_ms 170)])))
    as [_ H].
  - apply sample_reachable. vm_compute. reflexivity.
  - destruct H as (d & Hd & _ & H); [vm_compute; reflexivity|].
    assert (d = 3170) as -> by (vm_compute in Hd; congruence).
    destruct (H nothing_ready (at_ms 3200)) as (s' & E & _ & Hn); [vm_compute; discriminate|].
    exists s'. split; [exact E|]. apply (Hn (at_ms 3200)).
Defined.

