(* ===== verification/RunLimits.v ===== *)
(** The run loop's row against the viewers' staleness gate, and where the loop
    of crates/engine/src/sessions.rs falls short of what its comments promise. *)
From stdpp Require Import pretty.
From S2P Require Import Prelude Json Entities Text Agent Parts Transcript SessionDoc Journal View Sessions Writer Run RunSafety.

(** ** Liveness of the row *)

Section Fresh.
Context (new_id : nat -> string) (digest_hex : string -> string).
Context (text_diff : string -> string -> N * N) (stable_hash : Value -> string).
Context (v : Env).

Abbreviation iterate := (iteration new_id digest_hex text_diff stable_hash v).

(** Work in flight: an open session with an unresolved tool or question. *)
Definition in_flight (s : RunState) : Prop :=
  idle_since s = None /\ fold_has_in_flight_work (folded s) = true.

Definition row_of (s : RunState) : option Row := w_rows (rs_world s) !! v_chat v.

(** What a viewer sees of the row. *)
Definition shown (s : RunState) (now : Z) : Indicator := effective_indicator (row_of s) now.

Definition heartbeat : Ready := mk_ready false true None None.

Lemma heartbeat_touches c s :
  in_flight s -> due (tn_deadline (rs_turn s)) c = false ->
  iterate heartbeat c s = Some (Continue (touch_chat v c s)).
Proof.
  intros [Hi Hf] Hd. unfold iteration, select. rewrite andb_false_l, Hd. cbn [heartbeat rd_heartbeat].
  cbn [mbind option_bind run_arm]. by rewrite Hi, Hf.
Qed.

(** A quiet agent stays visible: a heartbeat that finds work in flight
    leaves a row that was active, and not stamped in the future, showing its
    status to every viewer whose clock agrees for the next 35 seconds, so
    heartbeats 15 seconds apart, or twice as far, never let the 45-second gate
    close on a silent tool or a parked question. *)
Theorem in_flight_stays_visible s c row now :
  in_flight s -> due (tn_deadline (rs_turn s)) c = false -> row_of s = Some row ->
  is_active (se_status row) = true -> se_updated_at row <= wall c ->
  wall c <= now <= wall c + (SESSION_STALE_MS - TOUCH_THROTTLE_MS) ->
  exists s', iterate heartbeat c s = Some (Continue s') /\ in_flight s' /\
    shown s' now = (match se_status row with AwaitingInput => IndAwaitingInput | _ => IndWorking end).
Proof.
  intros Hin Hd Hrow Hact Hu Hnow. exists (touch_chat v c s). split; [by apply heartbeat_touches|]. split; [exact Hin|].
  unfold shown, row_of. cbn. unfold touch_session. rewrite lookup_alter_eq.
  unfold row_of in Hrow. rewrite Hrow. cbn.
  destruct (touch_row_young row (wall c) Hu) as (H1 & H2 & H3).
  unfold effective_indicator. rewrite H3, since_ms_millis.
  rewrite (proj2 (Z.ltb_ge _ _)); [by destruct (se_status row)|].
  clear -H1 H2 Hnow. unfold SESSION_STALE_MS, TOUCH_THROTTLE_MS in *.
  generalize dependent (se_updated_at (touch_row row (wall c))). cbn. intros u H1 H2. lia.
Qed.

(** *** Limits *)

(** A tagged event that folds to nothing leaves its sink dirty: the flush arm is
    due, does nothing, and is due again at the same instant, for as long as the
    sink stays empty. *)
Lemma empty_sink_spins s c parent k :
  rs_sinks s !! parent = Some k -> sk_dirty k = true -> sk_folded k = [] -> rs_flush_at s <= mono c ->
  due (tn_deadline (rs_turn s)) c = false -> due (Z.add SESSION_IDLE <$> idle_since s) c = false ->
  exists s', iterate nothing_ready c s = Some (Continue s') /\
    rs_sinks s' !! parent = Some k /\ rs_flush_at s' = rs_flush_at s /\ rs_turn s' = rs_turn s.
Proof.
  intros Hk Hd Hf Hfl H1 H2. exists (flush v s).
  assert (any_dirty s = true) as Ha.
  { unfold any_dirty. apply orb_true_iff. right. apply existsb_exists. exists (parent, k). split; [|done].
    by apply list_elem_of_In, elem_of_map_to_list. }
  split.
  { unfold iteration, select. rewrite andb_false_l, H1. cbn [nothing_ready rd_heartbeat rd_engine rd_stream].
    rewrite H2, Ha, (proj2 (Z.leb_le _ _) Hfl). done. }
  unfold flush. set (s1 := if sg_dirty (rs_seg s) then _ else s).
  assert (rs_sinks s1 = rs_sinks s /\ rs_flush_at s1 = rs_flush_at s /\ rs_turn s1 = rs_turn s) as (E1 & E2 & E3).
  { unfold s1, sync_segment. destruct (sg_dirty (rs_seg s)); [|done]. destruct (sg_folded _); [done|].
    destruct (match sg_writer _ with Some _ => _ | None => _ end) as [doc w]. by destruct (default _ _). }
  rewrite <- E2, <- E3. unfold flush_sinks.
  assert (forall p k', (p, k') ∈ map_to_list (rs_sinks s1) -> p = parent -> k' = k) as Hu.
  { intros p k' Hin ->. apply elem_of_map_to_list in Hin. rewrite E1, Hk in Hin. congruence. }
  rewrite <- E1 in Hk. revert Hk Hu. generalize (map_to_list (rs_sinks s1)). clearbody s1. clear -Hd Hf. intros l.
  revert s1. induction l as [|[p k'] l IH]; intros s1 Hk Hu; [done|]. cbn [foldl].
  assert (rs_sinks (flush_sink v s1 (p, k')) !! parent = Some k /\
          rs_flush_at (flush_sink v s1 (p, k')) = rs_flush_at s1 /\
          rs_turn (flush_sink v s1 (p, k')) = rs_turn s1) as (F1 & F2 & F3).
  { unfold flush_sink. destruct (sink_flush v (sink_doc (rs_world s1) k') k') as [doc k2] eqn:E. cbn.
    split; [|done]. destruct (decide (p = parent)) as [->|Hne]; [|by rewrite lookup_insert_ne].
    rewrite (Hu parent k') in E; [|by left|done]. unfold sink_flush in E. rewrite Hd, Hf in E. cbn in E.
    injection E as _ <-. by rewrite lookup_insert_eq. }
  destruct (IH (flush_sink v s1 (p, k')) F1) as (G1 & G2 & G3).
  { intros q k2 Hin Hq. apply (Hu q k2); [by right|done]. }
  by rewrite G1, G2, G3, F2, F3.
Qed.

(** A run whose handle another run replaced still settles the shared row. *)
Lemma late_exit_overwrites_row s st c h :
  w_run (rs_world s) = Some h -> rh_run_id h <> v_run_id v -> rs_sinks s = ∅ ->
  w_run (rs_world (exit_run stable_hash v st c s)) = Some h /\
  exists row, row_of (exit_run stable_hash v st c s) = Some row /\ se_status row = st.
Proof.
  intros Hh Hne Hs. split; [|apply exit_row]. unfold exit_run. rewrite Hs, map_to_list_empty. cbn [foldl].
  assert (live_handle v (rs_world s) = None) as E.
  { unfold live_handle. rewrite Hh. by destruct (String.eqb_spec (rh_run_id h) (v_run_id v)). }
  change (rs_world (set_sinks ∅ s)) with (rs_world s). rewrite E. cbn. unfold remove_run. rewrite E. done.
Qed.

(** The watchdog settles a prompted turn as an error, not idle. *)
Lemma quiesce_parks_errored c s :
  tn_self_continued (rs_turn s) = false ->
  exists row, row_of (quiesce new_id text_diff v c s) = Some row /\ se_status row = Entities.Errored.
Proof.
  intros E. unfold quiesce. rewrite E. set (s1 := upd_seg _ s). set (s2 := match sg_writer _ with Some _ => _ | None => _ end).
  assert (rs_turn s2 = rs_turn s) as ->.
  { unfold s2. destruct (sg_writer _), (folded s1); by rewrite ?note_message_turn, ?finish_segment_turn. }
  rewrite E. eexists. split; [apply lookup_insert_eq|done].
Qed.
End Fresh.

(** *** Concrete runs that fall short *)

(** A steer boundary over an open question leaves its chip unresolved in a
    complete entry, for good. *)
Definition asks_then_steered : list (Ready * Clock) :=
  [(mk_ready false false (Some (InputRequested "q1" [])) None, at_ms 10); (streams (Steered None None), at_ms 20)].

Definition asked (v : Env) : RunState :=
  set_world (request_input "q1" (rs_world (sample_start v))) (sample_start v).

Lemma boundary_leaves_question_open :
  let v := sample_env true false in
  match sample_run v (asks_then_steered ++ [(streams (Done Completed None None None), at_ms 30)]) (asked v) with
  | Some (Continue s) =>
      (fun e => (em_status e, (fun d => (dp_kind d, dp_resolved d)) <$> em_parts e)) <$> w_doc (rs_world s) =
        [(Some Complete, [("text", None)]); (Some Complete, [("input", Some false)])]
  | _ => False
  end.
Proof. vm_compute. reflexivity. Qed.

(** A run that dies before it starts retries its own message and drops the
    steers it accepted, with the handle. *)
Lemma startup_retry_drops_steers :
  let v := sample_env true true in
  let s := set_world (steer_record sample_hash v (mk_routed "more" "m2") (at_ms 5) (rs_world (sample_start v)))
             (sample_start v) in
  match sample_iterate v (streams (Done Errored None (Some "spawn failed") None)) (at_ms 10) s with
  | Some (Return s') => w_run (rs_world s') = None /\ w_out (rs_world s') = [Note "hi"; RetryDispatch "m1"]
  | _ => False
  end.
Proof. vm_compute. split; reflexivity. Qed.

(** The loop's own [/compact] has no ledger entry, but its boundary confirms the
    oldest steer of the user: when the child then dies, that message is lost. *)
Lemma compact_boundary_drops_steer :
  let v := sample_env true false in
  match sample_run v [(streams (TextDelta "ok"), at_ms 10); (streams (Usage 0 0 180000), at_ms 20);
                      (streams (Done Completed None None None), at_ms 30)] (sample_start v) with
  | Some (Continue s) =>
      match steer_send (mk_steer "more" (Some "m2")) (rs_world s) with
      | Some w =>
          let s := set_world (steer_record sample_hash v (mk_routed "more" "m2") (at_ms 40) w) s in
          match sample_run v [(streams (Steered None None), at_ms 50);
                              (mk_ready false false None (Some ItemEnd), at_ms 60)] s with
          | Some (Break s st) =>
              let s' := exit_run sample_hash v st (at_ms 60) s in
              (rh_mailbox <$> w_run (rs_world s)) =
                Some [mk_steer "/compact" None; mk_steer "more" (Some "m2")] /\
              forallb (fun x => match x with Redispatch _ => false | _ => true end) (w_out (rs_world s')) = true
          | _ => False
          end
      | None => False
      end
  | _ => False
  end.
Proof. vm_compute. split; reflexivity. Qed.

(** A confirmation that lands after its turn was steered in and done leaves a
    parked session shown as working. *)
Lemma late_confirm_strands_working :
  let v := sample_env true false in
  let s := set_world (steer_record sample_hash v (mk_routed "more" "m2") (at_ms 5) (rs_world (sample_start v)))
             (sample_start v) in
  match sample_run v [(streams (Steered None None), at_ms 10); (streams (Done Completed None None None), at_ms 20)] s with
  | Some (Continue s) =>
      let s := set_world (steer_confirm v "more" (at_ms 30) (rs_world s)) s in
      idle_since s = Some 20 /\ se_status <$> row_of v s = Some Working
  | _ => False
  end.
Proof. vm_compute. split; reflexivity. Qed.
