(* ===== verification/Samples.v ===== *)
(** Concrete codecs for the witnesses: every positive, and so every countable
    type, has a text of bits; JSON values have one that is a plain line. *)
From S2P Require Import Prelude Json Text Journal.
From stdpp Require Import countable.

Definition bit0 : Ascii.ascii := Ascii.ascii_of_N 48.
Definition bit1 : Ascii.ascii := Ascii.ascii_of_N 49.

(** Bits of a positive, lowest first, as text. *)
Fixpoint pos_bits (p : positive) : string :=
  match p with xH => "" | xO p => String bit0 (pos_bits p) | xI p => String bit1 (pos_bits p) end.

Fixpoint bits_pos (s : string) : option positive :=
  match s with
  | EmptyString => Some xH
  | String a s => p ← bits_pos s; if decide (a = bit0) then Some (xO p) else Some (xI p)
  end.

Lemma bits_roundtrip p : bits_pos (pos_bits p) = Some p.
Proof. by induction p as [p IH|p IH|]; cbn; rewrite ?IH. Qed.

(** JSON values are trees. *)
Abbreviation Leaf := (bool + Z + Z + string)%type.

Fixpoint value_tree (v : Value) : gen_tree Leaf :=
  match v with
  | Null => GenNode 0 []
  | Bool b => GenLeaf (inl (inl (inl b)))
  | Int z => GenLeaf (inl (inl (inr z)))
  | Float z => GenLeaf (inl (inr z))
  | Str s => GenLeaf (inr s)
  | Array l => GenNode 1 (map value_tree l)
  | Object l => GenNode 2 (map (fun kv => GenNode 3 [GenLeaf (inr kv.1); value_tree kv.2]) l)
  end.

Fixpoint tree_value (t : gen_tree Leaf) : Value :=
  match t with
  | GenLeaf (inl (inl (inl b))) => Bool b
  | GenLeaf (inl (inl (inr z))) => Int z
  | GenLeaf (inl (inr z)) => Float z
  | GenLeaf (inr s) => Str s
  | GenNode 1 l => Array (map tree_value l)
  | GenNode 2 l =>
      Object (map (fun t => match t with GenNode 3 [GenLeaf (inr k); v] => (k, tree_value v) | _ => ("", Null) end) l)
  | GenNode _ _ => Null
  end.

Lemma tree_value_tree v : tree_value (value_tree v) = v.
Proof.
  induction v as [| | | | |l IH|l IH] using Value_nested_ind; try done; cbn; f_equal; rewrite map_map;
    induction IH as [|x l Hx _ IHl]; try done; cbn; rewrite Hx.
  - by rewrite IHl.
  - rewrite IHl. by destruct x.
Qed.

#[export] Instance Value_countable : Countable Value := inj_countable' value_tree tree_value tree_value_tree.

Definition value_text (v : Value) : string := String bit1 (pos_bits (encode v)).
Definition text_value (s : string) : option Value :=
  match s with String _ s => bits_pos s ≫= decode | EmptyString => None end.

Lemma text_value_text v : text_value (value_text v) = Some v.
Proof. cbn. rewrite bits_roundtrip. cbn. apply decode_encode. Qed.

Lemma pos_bits_plain p : no_control (pos_bits p) = true /\ all_graphic (pos_bits p) = true.
Proof. induction p as [p [H1 H2]|p [H1 H2]|]; cbn; by rewrite ?H1, ?H2. Qed.

Lemma value_text_line v : lines (value_text v) = [value_text v].
Proof.
  rewrite lines_plain; [done|]. apply (pos_bits_plain (encode v)).
Qed.

Lemma value_text_trimmed v : trim (value_text v) = value_text v.
Proof.
  apply trim_graphic. apply (pos_bits_plain (encode v)).
Qed.

(** ** A concrete text of JSON *)

Definition sample_json : JsonText := {| to_text := value_text; from_text := text_value |}.

Lemma sample_json_laws : @JsonTextLaws sample_json.
Proof. split; [apply text_value_text|apply value_text_line|apply value_text_trimmed|done]. Qed.
