(* ===== verification/SourceLimits.v ===== *)
(** The lookup of a pull request on concrete answers, and where what it is meant
    to guarantee ends: an option smuggled in by a remote. *)
From S2P Require Import Prelude Json Text Entities View Journal Samples SourceControl.

#[local] Existing Instance millis_chrono.
#[local] Existing Instance millis_instants.
#[local] Existing Instance sample_json.

(** An instant is the length of its text, a URL an address of GitHub. *)
#[local] Instance sample_gh : GhLibs (C := millis_chrono) :=
  { parse_datetime s := Some (Z.of_nat (String.length s));
    from_utf8_lossy s := s;
    url_parse s := if starts_with "https://github.com/" s then Some (mk_url s "https" (Some "github.com")) else None }.

(** Processes that answer in order. *)
Definition script (q : ProcessRequest) (w : list (ProcessOutput + ProcessRunError))
    : (ProcessOutput + ProcessRunError) * list (ProcessOutput + ProcessRunError) :=
  match w with a :: w => (a, w) | [] => (inr Io, []) end.

Definition says (s : string) : ProcessOutput + ProcessRunError := inl (mk_output true s "" false).
Definition fails (s : string) : ProcessOutput + ProcessRunError := inl (mk_output false "" s false).

Definition pr_json (number : Z) (state owner head updated : string) : Value :=
  Object [("number", Int number); ("title", Str "Fix"); ("url", Str "https://github.com/acme/postillion/pull/1");
          ("state", Str state); ("baseRefName", Str "main"); ("headRefName", Str head); ("updatedAt", Str updated);
          ("isCrossRepository", Bool false); ("headRepositoryOwner", Object [("login", Str owner)])].

Definition sample_source (branch : string) : CheckoutSourceContext :=
  mk_source "/co" (resolve branch (Some ("origin/" +:+ branch)) (Some "origin")
                     (Some "git@github.com:acme/postillion.git")) None.

Definition number_of (r : option ChangeRequestSummary + ChangeRequestError) : option (option N) + ChangeRequestError :=
  match r with inl c => inl (Some (sm_number <$> c)) | inr e => inr e end.

(** An open pull request before newer closed ones. *)
Definition branch_answers : list (ProcessOutput + ProcessRunError) :=
  [says (to_text (Array [])); says (to_text (Array
     [pr_json 93 "MERGED" "acme" "feature" "zzz"; pr_json 94 "OPEN" "Acme" "feature" "z";
      pr_json 95 "CLOSED" "acme" "feature" "zzzz"; pr_json 96 "OPEN" "other" "feature" "zzzzz"]));
   says (to_text (Object [("defaultBranchRef", Object [("name", Str "main")])]))].

Example open_before_closed :
  number_of (find_for_branch script (sample_source "feature") branch_answers).1 = inl (Some (Some 94%N)).
Proof. vm_compute. reflexivity. Qed.

Example nothing_closed_on_default :
  number_of (find_for_branch script (sample_source "main")
    [says (to_text (Array [pr_json 99 "MERGED" "acme" "main" "z"]));
     says (to_text (Object [("defaultBranchRef", Object [("name", Str "main")])]))]).1 = inl (Some None).
Proof. vm_compute. reflexivity. Qed.

(** A provider that does not say which branch is the default one leaves it. *)
Example unknown_default_keeps :
  number_of (find_for_branch script (sample_source "main")
    [says (to_text (Array [pr_json 99 "MERGED" "acme" "main" "z"])); fails "could not resolve"]).1 = inl (Some (Some 99%N)).
Proof. vm_compute. reflexivity. Qed.

Example failures_are_classified :
  (fun e => number_of (find_for_branch script (sample_source "main") [e]).1) <$>
    [fails "GraphQL: API rate limit exceeded"; fails "not logged into host; token x"; fails "boom"; inr TimedOut;
     inr (Spawn NotFound); says "x"] =
  [inr RateLimited; inr Authentication; inr CommandFailed; inr RequestTimeout; inr CliUnavailable; inr Decode].
Proof. vm_compute. reflexivity. Qed.

Lemma find_for_branch_witness :
  let source := sample_source "feature" in
  let c := Some (mk_summary "github" 94 "Fix" "https://github.com/acme/postillion/pull/1" CrsOpen "main" "feature") in
  (c = None /\ tried script source branch_answers (bh_head_selectors (cs_branch source)) []) \/
  exists before sel after w1 l w2 d,
    bh_head_selectors (cs_branch source) = before ++ sel :: after /\ tried script source branch_answers before w1 /\
    list_for_selector script source sel w1 = (inl l, w2) /\ l <> [] /\
    default_for script source l w2 d [] /\ chosen source d l c.
Proof.
  intros source c. apply (find_for_branch_exact script source branch_answers c []). vm_compute. reflexivity.
Defined.

(** ** Limits *)

(** The host of a remote is not checked to be one: a checkout's configuration can
    make it start with a dash, and the question for the default branch, made
    for a branch with a merged pull request, carries it as an option of [gh]. *)
Example remote_smuggles_option :
  let source := mk_source "/co" (resolve "main" (Some "origin/main") (Some "origin") (Some "--web:acme/repo")) None in
  pq_args <$> (resolve_github_source (logged script) source
    ([], [says (to_text (Array [pr_json 1 "MERGED" "acme" "main" "z"])); fails ""])).2.1 =
  [list_args "acme:main"; ["repo"; "view"; "--web/acme/repo"; "--json"; "defaultBranchRef"]].
Proof. vm_compute. reflexivity. Qed.

(** An answer is taken from the first question that has one: a selector whose
    answer holds only other people's pull requests hides the next selector's. *)
Example first_answer_decides :
  number_of (find_for_branch script (sample_source "feature")
    [says (to_text (Array [pr_json 7 "OPEN" "other" "feature" "z"]));
     says (to_text (Array [pr_json 8 "OPEN" "acme" "feature" "z"]))]).1 = inl (Some None).
Proof. vm_compute. reflexivity. Qed.
