(* ===== verification/ChangeRequests.v ===== *)
(** The cache of change requests and the streams that watch it:
    crates/engine/src/change_requests.rs.

    A subscription is where its loop stands; every lock section, every await and
    every count of an atomic is a step, so subscriptions and the drops of their
    leases interleave freely. An [Arc] is an address of the heap. The drop of a
    lease runs beside its former owner, which only adds interleavings. Instants
    and durations are milliseconds; what git and the provider may answer is the
    class [CheckoutChangeRequestLookup], which [SourceControl] implements. *)
From S2P Require Import Prelude Json Text Entities View Journal SourceControl.

Definition WITH_CHANGE_REQUEST_TTL : Z := 2 * 60 * 1000.
Definition WITHOUT_CHANGE_REQUEST_TTL : Z := 45 * 1000.
Definition FAILURE_INITIAL_BACKOFF : Z := 20 * 1000.
Definition FAILURE_MAX_BACKOFF : Z := 15 * 60 * 1000.
Definition CONTEXT_POLL_INTERVAL : Z := 15 * 1000.

Record ChangeRequestCacheKey := mk_key {
  ck_checkout_id : string;
  ck_branch : string;
  ck_upstream_ref : string;
  ck_remote : string;
}.

#[export] Instance cache_key_eq_dec : EqDecision ChangeRequestCacheKey.
Proof. solve_decision. Defined.

#[export] Instance cache_key_countable : Countable ChangeRequestCacheKey.
Proof.
  refine (inj_countable' (fun k => (ck_checkout_id k, ck_branch k, ck_upstream_ref k, ck_remote k))
            (fun '(a, b, c, d) => mk_key a b c d) _).
  by intros [].
Defined.

Definition cache_key (checkout_id : string) (source : CheckoutSourceContext) : ChangeRequestCacheKey :=
  let b := cs_branch source in
  let remote :=
    default "" ((fun r => to_ascii_lowercase (gr_host r) +:+ "/" +:+ to_ascii_lowercase (gr_owner r) +:+ "/" +:+
                          to_ascii_lowercase (gr_repository r)) <$> (bh_remote_url b ≫= parse_git_remote)) in
  mk_key checkout_id (bh_local_branch b) (default "" (bh_upstream_ref b)) remote.

(** [failures] is a [u32]; the product saturates far above the maximum. *)
Definition failure_backoff (initial maximum failures : Z) : Z :=
  let exponent := Z.min (Z.max 0 (failures - 1)) 31 in
  Z.min (initial * 2 ^ exponent) maximum.

Definition U32_MAX : Z := 2 ^ 32 - 1.

(** What git and the provider may answer. *)
Class CheckoutChangeRequestLookup := {
  may_inspect : string -> CheckoutSourceContext -> Prop;
  may_answer : CheckoutSourceContext -> option ChangeRequestSummary -> Prop;
}.

Definition resolver_lookup {C : Chrono} {I : Instants} {J : JsonText} {G : GhLibs} {W : Type}
    (run : ProcessRequest -> W -> (ProcessOutput + ProcessRunError) * W) : CheckoutChangeRequestLookup :=
  {| may_inspect cwd source := exists w w', inspect run cwd w = (inl source, w');
     may_answer source c := exists w w', resolve_github_source run source w = (inl c, w') |}.

Record Timing := mk_timing {
  with_change_request_ttl : Z;
  without_change_request_ttl : Z;
  failure_initial_backoff : Z;
  failure_max_backoff : Z;
  context_poll_interval : Z;
}.

Definition timing_default : Timing :=
  mk_timing WITH_CHANGE_REQUEST_TTL WITHOUT_CHANGE_REQUEST_TTL FAILURE_INITIAL_BACKOFF FAILURE_MAX_BACKOFF
    CONTEXT_POLL_INTERVAL.

(** A lease: its key and the address of its entry. *)
Abbreviation DemandLease := (ChangeRequestCacheKey * nat)%type.

Section Cache.
Context {C : Chrono}.

Record CheckoutChangeRequestStatus := mk_status {
  st_checkout_id : string;
  st_device_id : string;
  st_cwd : string;
  st_branch : string;
  st_change_request : option ChangeRequestSummary;
  st_updated_at : DateTime;
}.

(** All of a status but its time. *)
Record SemanticStatus := mk_semantic {
  sem_checkout_id : string;
  sem_device_id : string;
  sem_cwd : string;
  sem_branch : string;
  sem_change_request : option ChangeRequestSummary;
}.

#[export] Instance semantic_eq_dec : EqDecision SemanticStatus.
Proof. solve_decision. Defined.

Definition semantic (s : CheckoutChangeRequestStatus) : SemanticStatus :=
  mk_semantic (st_checkout_id s) (st_device_id s) (st_cwd s) (st_branch s) (st_change_request s).

Record CacheState := mk_cache {
  ca_last_success : option CheckoutChangeRequestStatus;
  ca_next_refresh : Z;
  ca_failures : Z;
  ca_last_error : option ChangeRequestError;
}.

(** The entry's mutex is the subscription that holds it. *)
Record CacheEntry := mk_centry { en_state : CacheState; en_demand : Z; en_holder : option nat }.

(** Where the loop of a subscription stands: between two polls or at its top,
    inspecting the checkout, about to look the entry up, waiting for its lock,
    asking the provider under the lock, sleeping, past its end. *)
Inductive Phase :=
  | AtTop | Inspecting
  | Refreshing (source : CheckoutSourceContext)
  | Wanting (source : CheckoutSourceContext) (entry : nat)
  | Asking (source : CheckoutSourceContext) (entry : nat)
  | Sleeping (until : Z)
  | Finished | Panicked.

Record SubscriptionState := mk_sub {
  su_cwd : string;
  su_identity : string;
  su_lease : option DemandLease;
  su_last_emitted : option SemanticStatus;
  su_phase : Phase;
  su_received : list CheckoutChangeRequestStatus;
}.

Record CheckoutChangeRequests := mk_service {
  sv_entries : gmap ChangeRequestCacheKey nat;
  sv_heap : gmap nat CacheEntry;
  sv_subs : gmap nat SubscriptionState;
  sv_dropping : list DemandLease;
  sv_evicting : list DemandLease;
  sv_now : Z;
  sv_shutdown : bool;
}.

Definition service_new (now : Z) : CheckoutChangeRequests := mk_service ∅ ∅ ∅ [] [] now false.

Definition set_sub (i : nat) (u : SubscriptionState) (s : CheckoutChangeRequests) : CheckoutChangeRequests :=
  mk_service (sv_entries s) (sv_heap s) (<[i := u]> (sv_subs s)) (sv_dropping s) (sv_evicting s) (sv_now s) (sv_shutdown s).
Definition remove_sub (i : nat) (s : CheckoutChangeRequests) : CheckoutChangeRequests :=
  mk_service (sv_entries s) (sv_heap s) (delete i (sv_subs s)) (sv_dropping s) (sv_evicting s) (sv_now s) (sv_shutdown s).
Definition set_entry (e : nat) (c : CacheEntry) (s : CheckoutChangeRequests) : CheckoutChangeRequests :=
  mk_service (sv_entries s) (<[e := c]> (sv_heap s)) (sv_subs s) (sv_dropping s) (sv_evicting s) (sv_now s) (sv_shutdown s).
Definition set_cached (m : gmap ChangeRequestCacheKey nat) (s : CheckoutChangeRequests) : CheckoutChangeRequests :=
  mk_service m (sv_heap s) (sv_subs s) (sv_dropping s) (sv_evicting s) (sv_now s) (sv_shutdown s).
Definition set_drops (d e : list DemandLease) (s : CheckoutChangeRequests) : CheckoutChangeRequests :=
  mk_service (sv_entries s) (sv_heap s) (sv_subs s) d e (sv_now s) (sv_shutdown s).

Definition set_phase (p : Phase) (u : SubscriptionState) : SubscriptionState :=
  mk_sub (su_cwd u) (su_identity u) (su_lease u) (su_last_emitted u) p (su_received u).
Definition set_lease (l : option DemandLease) (u : SubscriptionState) : SubscriptionState :=
  mk_sub (su_cwd u) (su_identity u) l (su_last_emitted u) (su_phase u) (su_received u).

Definition drop_lease (l : option DemandLease) (s : CheckoutChangeRequests) : CheckoutChangeRequests :=
  match l with Some l => set_drops (l :: sv_dropping s) (sv_evicting s) s | None => s end.

Definition add_demand (d : Z) (c : CacheEntry) : CacheEntry := mk_centry (en_state c) (en_demand c + d) (en_holder c).
Definition set_holder (h : option nat) (c : CacheEntry) : CacheEntry := mk_centry (en_state c) (en_demand c) h.

(** *** Leases *)

(** [acquire], under the lock of the entries. *)
Definition acquire (k : ChangeRequestCacheKey) (s : CheckoutChangeRequests) : DemandLease * CheckoutChangeRequests :=
  match sv_entries s !! k with
  | Some e =>
      match sv_heap s !! e with
      | Some c => ((k, e), set_entry e (add_demand 1 c) s)
      | None => ((k, e), s)
      end
  | None =>
      let e := fresh (dom (sv_heap s)) in
      ((k, e), set_cached (<[k := e]> (sv_entries s))
                 (set_entry e (mk_centry (mk_cache None (sv_now s) 0 None) 1 None) s))
  end.

(** The count of [Drop for DemandLease]: the last one goes on to the lock. *)
Definition decrement (l : DemandLease) (s : CheckoutChangeRequests) : CheckoutChangeRequests :=
  match sv_heap s !! l.2 with
  | Some c =>
      let s := set_entry l.2 (add_demand (-1) c) s in
      if en_demand c =? 1 then set_drops (sv_dropping s) (l :: sv_evicting s) s else s
  | None => s
  end.

(** Its section under the lock of the entries. *)
Definition evict (l : DemandLease) (s : CheckoutChangeRequests) : CheckoutChangeRequests :=
  let demand := match sv_heap s !! l.2 with Some c => en_demand c | None => 0 end in
  if bool_decide (sv_entries s !! l.1 = Some l.2) && (demand =? 0)
  then set_cached (delete l.1 (sv_entries s)) s else s.

(** *** Refreshing *)

Context (timing : Timing) (device_id : string).

Definition ttl (change_request : option ChangeRequestSummary) : Z :=
  match change_request with
  | Some _ => with_change_request_ttl timing
  | None => without_change_request_ttl timing
  end.

(** The end of [refresh] once the provider has answered. *)
Definition refreshed (now : Z) (wall : DateTime) (k : ChangeRequestCacheKey) (source : CheckoutSourceContext)
    (answer : option ChangeRequestSummary + ChangeRequestError) (c : CacheState) : CacheState :=
  match answer with
  | inl change_request =>
      let snapshot := mk_status (ck_checkout_id k) device_id (cs_checkout_root source)
                        (bh_local_branch (cs_branch source)) change_request wall in
      mk_cache (Some snapshot) (now + ttl change_request) 0 None
  | inr error =>
      let failures := Z.min (ca_failures c + 1) U32_MAX in
      mk_cache (ca_last_success c)
        (now + failure_backoff (failure_initial_backoff timing) (failure_max_backoff timing) failures)
        failures (Some error)
  end.

(** What the loop does with what [refresh] returned. *)
Definition returned (now : Z) (c : CacheState) (u : SubscriptionState) : SubscriptionState :=
  let rest := set_phase (Sleeping (now + Z.min (Z.max 0 (ca_next_refresh c - now)) (context_poll_interval timing))) u in
  match ca_last_success c with
  | Some snapshot =>
      if decide (su_last_emitted u = Some (semantic snapshot)) then rest
      else mk_sub (su_cwd u) (su_identity u) (su_lease u) (Some (semantic snapshot)) AtTop
             (su_received u ++ [snapshot])
  | None => rest
  end.

(** The stream is over: its state is dropped, with the lease. *)
Definition finish (i : nat) (u : SubscriptionState) (s : CheckoutChangeRequests) : CheckoutChangeRequests :=
  drop_lease (su_lease u) (set_sub i (set_lease None (set_phase Finished u)) s).

(** A lease of the key, the one held or a new one. *)
Definition with_lease (i : nat) (u : SubscriptionState) (source : CheckoutSourceContext) (s : CheckoutChangeRequests)
    : CheckoutChangeRequests :=
  let k := cache_key (su_identity u) source in
  if decide (fst <$> su_lease u = Some k) then set_sub i (set_phase (Refreshing source) u) s
  else
    let '(l, s) := acquire k s in
    drop_lease (su_lease u) (set_sub i (set_lease (Some l) (set_phase (Refreshing source) u)) s).

Inductive CrStep :=
  | KWatch (i : nat) (cwd identity : string)
  | KPoll (i : nat)
  | KInspected (i : nat) (answer : CheckoutSourceContext + ChangeRequestError)
  | KEntry (i : nat)
  | KLock (i : nat)
  | KAnswered (i : nat) (wall : DateTime) (answer : option ChangeRequestSummary + ChangeRequestError)
  | KWake (i : nat)
  | KCancelled (i : nat)
  | KDropStream (i : nat)
  | KDecrement (n : nat)
  | KEvict (n : nat)
  | KShutdown
  | KTick (d : Z).

(** The entry's lock is given back when a future that holds it is dropped. *)
Definition abandon (u : SubscriptionState) (s : CheckoutChangeRequests) : CheckoutChangeRequests :=
  match su_phase u with
  | Asking _ e => match sv_heap s !! e with Some c => set_entry e (set_holder None c) s | None => s end
  | _ => s
  end.

Definition cr_step (k : CrStep) (s : CheckoutChangeRequests) : option CheckoutChangeRequests :=
  match k with
  | KWatch i cwd identity =>
      match sv_subs s !! i with
      | None => Some (set_sub i (mk_sub cwd identity None None AtTop []) s)
      | Some _ => None
      end
  | KPoll i =>
      u ← sv_subs s !! i;
      match su_phase u with
      | AtTop => Some (if sv_shutdown s then finish i u s else set_sub i (set_phase Inspecting u) s)
      | _ => None
      end
  | KInspected i answer =>
      u ← sv_subs s !! i;
      match su_phase u, answer with
      | Inspecting, inl source => Some (with_lease i u source s)
      | Inspecting, inr _ => Some (set_sub i (set_phase (Sleeping (sv_now s + context_poll_interval timing)) u) s)
      | _, _ => None
      end
  | KEntry i =>
      u ← sv_subs s !! i;
      match su_phase u with
      | Refreshing source =>
          Some (set_sub i (set_phase (match sv_entries s !! cache_key (su_identity u) source with
                                      | Some e => Wanting source e
                                      | None => Panicked
                                      end) u) s)
      | _ => None
      end
  | KLock i =>
      u ← sv_subs s !! i;
      match su_phase u with
      | Wanting source e =>
          c ← sv_heap s !! e;
          match en_holder c with
          | Some _ => None
          | None =>
              if sv_now s <? ca_next_refresh (en_state c) then Some (set_sub i (returned (sv_now s) (en_state c) u) s)
              else Some (set_entry e (set_holder (Some i) c) (set_sub i (set_phase (Asking source e) u) s))
          end
      | _ => None
      end
  | KAnswered i wall answer =>
      u ← sv_subs s !! i;
      match su_phase u with
      | Asking source e =>
          c ← sv_heap s !! e;
          let st := refreshed (sv_now s) wall (cache_key (su_identity u) source) source answer (en_state c) in
          Some (set_entry e (mk_centry st (en_demand c) None) (set_sub i (returned (sv_now s) st u) s))
      | _ => None
      end
  | KWake i =>
      u ← sv_subs s !! i;
      match su_phase u with
      | Sleeping until => if until <=? sv_now s then Some (set_sub i (set_phase AtTop u) s) else None
      | _ => None
      end
  | KCancelled i =>
      u ← sv_subs s !! i;
      match su_phase u with
      | Sleeping _ => if sv_shutdown s then Some (finish i u s) else None
      | _ => None
      end
  | KDropStream i =>
      u ← sv_subs s !! i; Some (drop_lease (su_lease u) (remove_sub i (abandon u s)))
  | KDecrement n =>
      l ← sv_dropping s !! n; Some (decrement l (set_drops (delete n (sv_dropping s)) (sv_evicting s) s))
  | KEvict n =>
      l ← sv_evicting s !! n; Some (evict l (set_drops (sv_dropping s) (delete n (sv_evicting s)) s))
  | KShutdown =>
      Some (mk_service (sv_entries s) (sv_heap s) (sv_subs s) (sv_dropping s) (sv_evicting s) (sv_now s) true)
  | KTick d =>
      if 0 <=? d then Some (mk_service (sv_entries s) (sv_heap s) (sv_subs s) (sv_dropping s) (sv_evicting s)
                              (sv_now s + d) (sv_shutdown s)) else None
  end.

Fixpoint cr_run (ks : list CrStep) (s : CheckoutChangeRequests) : option CheckoutChangeRequests :=
  match ks with [] => Some s | k :: ks => s ← cr_step k s; cr_run ks s end.
End Cache.
