(* ===== verification/ChangeRequestsSafety.v ===== *)
(** What the cache of change requests guarantees: a lease keeps its entry cached
    and the last one frees it, whatever threads do between; the provider is asked
    one question at a time and no sooner than agreed; a stream tells only what
    was answered for its checkout, and never the same thing twice in a row. *)
From S2P Require Import Prelude Json Text Entities View Journal SourceControl ChangeRequests.

(** ** Counted leases

    The specification of the entries: who holds a lease of what, which leases
    are being dropped, and how often each entry is counted. *)
Record Leases := mk_leases {
  le_entries : gmap ChangeRequestCacheKey nat;
  le_demand : gmap nat Z;
  le_held : gmap nat DemandLease;
  le_dropping : list DemandLease;
  le_evicting : list DemandLease;
}.

Definition replaced (o : option DemandLease) (l : list DemandLease) : list DemandLease :=
  match o with Some x => x :: l | None => l end.

Inductive lease_step : Leases -> Leases -> Prop :=
  | ls_join L i k e d :
      le_entries L !! k = Some e -> le_demand L !! e = Some d ->
      lease_step L (mk_leases (le_entries L) (<[e := d + 1]> (le_demand L)) (<[i := (k, e)]> (le_held L))
                      (replaced (le_held L !! i) (le_dropping L)) (le_evicting L))
  | ls_create L i k e :
      le_entries L !! k = None -> le_demand L !! e = None ->
      lease_step L (mk_leases (<[k := e]> (le_entries L)) (<[e := 1]> (le_demand L)) (<[i := (k, e)]> (le_held L))
                      (replaced (le_held L !! i) (le_dropping L)) (le_evicting L))
  | ls_release L i l :
      le_held L !! i = Some l ->
      lease_step L (mk_leases (le_entries L) (le_demand L) (delete i (le_held L)) (l :: le_dropping L) (le_evicting L))
  | ls_decrement L n l d :
      le_dropping L !! n = Some l -> le_demand L !! l.2 = Some d ->
      lease_step L (mk_leases (le_entries L) (<[l.2 := d - 1]> (le_demand L)) (le_held L) (delete n (le_dropping L))
                      (if d =? 1 then l :: le_evicting L else le_evicting L))
  | ls_evict L n l :
      le_evicting L !! n = Some l ->
      lease_step L (mk_leases
        (if bool_decide (le_entries L !! l.1 = Some l.2) && (default 0 (le_demand L !! l.2) =? 0)
         then delete l.1 (le_entries L) else le_entries L)
        (le_demand L) (le_held L) (le_dropping L) (delete n (le_evicting L))).

Definition one (b : bool) : Z := if b then 1 else 0.

Definition held_count (e : nat) (m : gmap nat DemandLease) : Z :=
  Z.of_nat (size (filter (fun p => p.2.2 = e) m)).
Definition drop_count (e : nat) (l : list DemandLease) : Z :=
  Z.of_nat (length (filter (fun x : DemandLease => x.2 = e) l)).

Lemma held_count_insert e i l m :
  held_count e (<[i := l]> m) = held_count e (delete i m) + one (bool_decide (l.2 = e)).
Proof.
  unfold held_count. rewrite <- insert_delete_eq. case_bool_decide as H.
  - rewrite map_filter_insert_True by done. rewrite map_size_insert_None.
    + cbn. lia.
    + apply map_lookup_filter_None. left. apply lookup_delete_eq.
  - rewrite map_filter_insert_False by done. rewrite delete_delete_eq. cbn. lia.
Qed.

Lemma held_count_delete e i m :
  held_count e m = held_count e (delete i m) + match m !! i with Some l => one (bool_decide (l.2 = e)) | None => 0 end.
Proof.
  destruct (m !! i) as [l|] eqn:E.
  - rewrite <- (held_count_insert e i l m). by rewrite insert_id.
  - rewrite delete_id by done. lia.
Qed.

Lemma drop_count_cons e l ls : drop_count e (l :: ls) = drop_count e ls + one (bool_decide (l.2 = e)).
Proof. unfold drop_count. rewrite filter_cons. case_bool_decide; case_decide; cbn; lia || done. Qed.

Lemma drop_count_delete e n l ls :
  ls !! n = Some l -> drop_count e ls = drop_count e (delete n ls) + one (bool_decide (l.2 = e)).
Proof.
  intros H. rewrite <- drop_count_cons. unfold drop_count. f_equal. apply Permutation_length.
  apply filter_Permutation. by apply delete_Permutation.
Qed.

Lemma counted_held e m i l : m !! i = Some l -> l.2 = e -> 0 < held_count e m.
Proof.
  intros H He. rewrite (held_count_delete e i), H, bool_decide_eq_true_2 by done. unfold held_count, one. lia.
Qed.

Lemma counted_dropping e ls l : l ∈ ls -> l.2 = e -> 0 < drop_count e ls.
Proof.
  intros [n Hn]%list_elem_of_lookup He. rewrite (drop_count_delete e n l ls Hn), bool_decide_eq_true_2 by done.
  unfold drop_count, one. lia.
Qed.

(** An entry is counted by the leases held and those not yet counted down; all
    of them find it cached; one that nobody counts is about to be evicted. *)
Record leases_ok (L : Leases) : Prop := {
  lo_alive k e : le_entries L !! k = Some e -> is_Some (le_demand L !! e);
  lo_inj k k' e : le_entries L !! k = Some e -> le_entries L !! k' = Some e -> k = k';
  lo_held i l : le_held L !! i = Some l -> le_entries L !! l.1 = Some l.2;
  lo_dropping l : l ∈ le_dropping L -> le_entries L !! l.1 = Some l.2;
  lo_count e d : le_demand L !! e = Some d -> d = held_count e (le_held L) + drop_count e (le_dropping L);
  lo_idle k e : le_entries L !! k = Some e -> le_demand L !! e = Some 0 -> (k, e) ∈ le_evicting L;
}.

Lemma held_count_pos e m : 0 <= held_count e m.
Proof. unfold held_count. lia. Qed.
Lemma drop_count_pos e ls : 0 <= drop_count e ls.
Proof. unfold drop_count. lia. Qed.

Lemma count_replaced e i l m ls :
  held_count e (<[i := l]> m) + drop_count e (replaced (m !! i) ls) =
    held_count e m + drop_count e ls + one (bool_decide (l.2 = e)).
Proof.
  rewrite held_count_insert, (held_count_delete e i m). destruct (m !! i); cbn [replaced]; rewrite ?drop_count_cons; lia.
Qed.

Lemma elem_replaced x (o : option DemandLease) l : x ∈ replaced o l -> o = Some x \/ x ∈ l.
Proof. destruct o; cbn; [intros [->|]%elem_of_cons; auto|auto]. Qed.

Lemma lease_join L i k e d :
  leases_ok L -> le_entries L !! k = Some e -> le_demand L !! e = Some d ->
  leases_ok (mk_leases (le_entries L) (<[e := d + 1]> (le_demand L)) (<[i := (k, e)]> (le_held L))
               (replaced (le_held L !! i) (le_dropping L)) (le_evicting L)).
Proof.
  intros [Ha Hi Hh Hd Hc Hz] Hk He. split; cbn.
  - intros k' e' H. destruct (decide (e' = e)) as [->|]; [rewrite lookup_insert_eq; eauto|].
    rewrite lookup_insert_ne by done. eauto.
  - exact Hi.
  - intros j l [[<- <-]|[_ H]]%lookup_insert_Some; eauto.
  - intros l [H|H]%elem_replaced; eauto.
  - intros e' d'. rewrite count_replaced. cbn. intros [[<- <-]|[Hn H]]%lookup_insert_Some.
    + rewrite bool_decide_eq_true_2, (Hc _ _ He) by done. cbn. lia.
    + rewrite bool_decide_eq_false_2, (Hc _ _ H) by done. cbn. lia.
  - intros k' e' H. intros [[<- Hd']|[Hn H']]%lookup_insert_Some; [|by eauto].
    pose proof (Hc _ _ He). pose proof (held_count_pos e (le_held L)). pose proof (drop_count_pos e (le_dropping L)). lia.
Qed.

Lemma lease_create L i k e :
  leases_ok L -> le_entries L !! k = None -> le_demand L !! e = None ->
  leases_ok (mk_leases (<[k := e]> (le_entries L)) (<[e := 1]> (le_demand L)) (<[i := (k, e)]> (le_held L))
               (replaced (le_held L !! i) (le_dropping L)) (le_evicting L)).
Proof.
  intros [Ha Hi Hh Hd Hc Hz] Hk He.
  assert (forall k', le_entries L !! k' <> Some e) as Hf by (intros k' H; destruct (Ha _ _ H); congruence).
  assert (forall l, le_entries L !! l.1 = Some l.2 -> <[k := e]> (le_entries L) !! l.1 = Some l.2) as Hin.
  { intros l H. rewrite lookup_insert_ne; [done|]. intros ->. congruence. }
  assert (held_count e (le_held L) = 0 /\ drop_count e (le_dropping L) = 0) as [H1 H2].
  { split.
    - unfold held_count. rewrite map_empty_filter_2; [done|]. intros j l H E. cbn in E. subst e.
      by apply (Hf l.1), (Hh j).
    - unfold drop_count. rewrite list_filter_none; [done|]. apply Forall_forall. intros l H <-.
      by apply (Hf l.1), Hd. }
  split; cbn.
  - intros k' e' [[<- <-]|[_ H]]%lookup_insert_Some; [rewrite lookup_insert_eq; eauto|].
    rewrite lookup_insert_ne; [eauto|]. intros <-. by apply (Hf k').
  - intros k1 k2 e' [[<- <-]|[_ A]]%lookup_insert_Some [[<- E]|[_ B]]%lookup_insert_Some; try done;
      [by apply Hf in B|subst; by apply Hf in A|by eauto].
  - intros j l [[<- <-]|[_ H]]%lookup_insert_Some; [apply lookup_insert_eq|]. eauto.
  - intros l [H|H]%elem_replaced; eauto.
  - intros e' d'. rewrite count_replaced. cbn. intros [[<- <-]|[Hn H]]%lookup_insert_Some.
    + rewrite bool_decide_eq_true_2, H1, H2 by done. done.
    + rewrite bool_decide_eq_false_2, (Hc _ _ H) by done. cbn. lia.
  - intros k' e' [[<- <-]|[_ H]]%lookup_insert_Some; [by rewrite lookup_insert_eq|].
    intros [[<- Hd']|[Hn H']]%lookup_insert_Some; [done|by eauto].
Qed.

Lemma lease_release L i l :
  leases_ok L -> le_held L !! i = Some l ->
  leases_ok (mk_leases (le_entries L) (le_demand L) (delete i (le_held L)) (l :: le_dropping L) (le_evicting L)).
Proof.
  intros [Ha Hi Hh Hd Hc Hz] Hl. split; cbn; try done.
  - intros j l' [_ H]%lookup_delete_Some. eauto.
  - intros l' [->|H]%elem_of_cons; eauto.
  - intros e d H. rewrite (Hc _ _ H), (held_count_delete e i), Hl, drop_count_cons. lia.
Qed.

Lemma lease_decrement L n l d :
  leases_ok L -> le_dropping L !! n = Some l -> le_demand L !! l.2 = Some d ->
  leases_ok (mk_leases (le_entries L) (<[l.2 := d - 1]> (le_demand L)) (le_held L) (delete n (le_dropping L))
               (if d =? 1 then l :: le_evicting L else le_evicting L)).
Proof.
  intros [Ha Hi Hh Hd Hc Hz] Hn He.
  assert (l ∈ le_dropping L) as Hl by (by eapply list_elem_of_lookup_2). split; cbn.
  - intros k e H. destruct (decide (e = l.2)) as [->|]; [rewrite lookup_insert_eq; eauto|].
    rewrite lookup_insert_ne by done. eauto.
  - exact Hi.
  - exact Hh.
  - intros l' H. apply Hd. rewrite (delete_Permutation _ _ _ Hn). by right.
  - intros e d' [[<- <-]|[Hne H]]%lookup_insert_Some.
    + rewrite (Hc _ _ He), (drop_count_delete _ _ _ _ Hn), bool_decide_eq_true_2 by done. cbn. lia.
    + rewrite (Hc _ _ H), (drop_count_delete _ _ _ _ Hn), bool_decide_eq_false_2 by done. cbn. lia.
  - intros k e H [[<- E]|[Hne H']]%lookup_insert_Some.
    + assert (k = l.1) as -> by (eapply Hi; [exact H|by apply Hd]).
      rewrite (proj2 (Z.eqb_eq d 1)) by lia. apply elem_of_cons. left. by destruct l.
    + destruct (d =? 1); [right|]; eauto.
Qed.

Lemma lease_evict L n l :
  leases_ok L -> le_evicting L !! n = Some l ->
  leases_ok (mk_leases
    (if bool_decide (le_entries L !! l.1 = Some l.2) && (default 0 (le_demand L !! l.2) =? 0)
     then delete l.1 (le_entries L) else le_entries L)
    (le_demand L) (le_held L) (le_dropping L) (delete n (le_evicting L))).
Proof.
  intros [Ha Hi Hh Hd Hc Hz] Hn. destruct (bool_decide _ && _) eqn:E.
  - apply andb_true_iff in E as [Hl%bool_decide_eq_true Hdz%Z.eqb_eq].
    destruct (Ha _ _ Hl) as [d He]. rewrite He in Hdz. cbn in Hdz. subst d.
    pose proof (Hc _ _ He) as H0. pose proof (held_count_pos l.2 (le_held L)).
    pose proof (drop_count_pos l.2 (le_dropping L)).
    assert (forall x, le_entries L !! x.1 = Some x.2 -> x.2 <> l.2 -> delete l.1 (le_entries L) !! x.1 = Some x.2) as Hk.
    { intros x Hx Hne. rewrite lookup_delete_ne; [done|]. intros E. rewrite <- E in Hx. congruence. }
    split; cbn.
    + intros k e [_ H']%lookup_delete_Some. eauto.
    + intros k k' e [_ A]%lookup_delete_Some [_ B]%lookup_delete_Some. eauto.
    + intros i x Hx. apply Hk; [eauto|]. intros Ex. pose proof (counted_held _ _ _ _ Hx Ex). lia.
    + intros x Hx. apply Hk; [eauto|]. intros Ex. pose proof (counted_dropping _ _ _ Hx Ex). lia.
    + exact Hc.
    + intros k e [Hne H']%lookup_delete_Some Hz'. pose proof (Hz _ _ H' Hz') as Hin.
      rewrite (delete_Permutation _ _ _ Hn) in Hin. apply elem_of_cons in Hin as [<-|]; done.
  - split; cbn; try done. intros k e H' Hz'. pose proof (Hz _ _ H' Hz') as Hin.
    rewrite (delete_Permutation _ _ _ Hn) in Hin. apply elem_of_cons in Hin as [<-|]; [|done]. cbn in E.
    rewrite Hz', bool_decide_eq_true_2 in E by done. done.
Qed.

Lemma lease_step_ok L L' : lease_step L L' -> leases_ok L -> leases_ok L'.
Proof.
  intros Hs Hok. destruct Hs; [by apply lease_join|by apply lease_create|by apply lease_release|by apply lease_decrement|
                by apply lease_evict].
Qed.

(** ** The service keeps the specification *)

Section Safety.
Context {C : Chrono} {Lk : CheckoutChangeRequestLookup}.
Context (timing : Timing) (device_id : string).
Implicit Types s : CheckoutChangeRequests.

(** What of the service the specification speaks of. *)
Definition leases_of s : Leases :=
  mk_leases (sv_entries s) (en_demand <$> sv_heap s) (omap su_lease (sv_subs s)) (sv_dropping s) (sv_evicting s).

(** Answers are those git and the provider may give. *)
Definition allowed s (k : CrStep) : Prop :=
  match k with
  | KInspected i (inl source) => exists u, sv_subs s !! i = Some u /\ may_inspect (su_cwd u) source
  | KAnswered i _ (inl c) =>
      exists u source e, sv_subs s !! i = Some u /\ su_phase u = Asking source e /\ may_answer source c
  | _ => True
  end.

Definition cr_move s s' : Prop := exists k, allowed s k /\ cr_step timing device_id k s = Some s'.

Lemma omap_insert_same i u u' (m : gmap nat SubscriptionState) :
  m !! i = Some u -> su_lease u' = su_lease u -> omap su_lease (<[i := u']> m) = omap su_lease m.
Proof.
  intros H E. apply map_eq. intros j. rewrite !lookup_omap. destruct (decide (i = j)) as [->|].
  - rewrite lookup_insert_eq, H. done.
  - by rewrite lookup_insert_ne.
Qed.

Lemma leases_set_sub i u u' s :
  sv_subs s !! i = Some u -> su_lease u' = su_lease u -> leases_of (set_sub i u' s) = leases_of s.
Proof. intros H E. unfold leases_of. cbn. by rewrite (omap_insert_same i u). Qed.

Lemma leases_set_entry e c c' s :
  sv_heap s !! e = Some c -> en_demand c' = en_demand c -> leases_of (set_entry e c' s) = leases_of s.
Proof.
  intros H E. unfold leases_of. cbn. f_equal. rewrite fmap_insert, E. apply insert_id. by rewrite lookup_fmap, H.
Qed.

Lemma leases_held i u s : sv_subs s !! i = Some u -> le_held (leases_of s) !! i = su_lease u.
Proof. intros H. cbn. by rewrite lookup_omap, H. Qed.

(** A subscription that gives its lease up, staying or going. *)
Lemma leases_finish i u s :
  sv_subs s !! i = Some u ->
  leases_of (finish i u s) = leases_of s \/ lease_step (leases_of s) (leases_of (finish i u s)).
Proof.
  intros H. unfold finish. destruct (su_lease u) as [l|] eqn:E.
  - right. assert (leases_of (drop_lease (Some l) (set_sub i (set_lease None (set_phase Finished u)) s)) =
      mk_leases (le_entries (leases_of s)) (le_demand (leases_of s)) (delete i (le_held (leases_of s)))
        (l :: le_dropping (leases_of s)) (le_evicting (leases_of s))) as ->.
    { unfold leases_of. cbn. f_equal. by rewrite omap_insert_None. }
    apply ls_release. by rewrite (leases_held i u), E.
  - left. by apply (leases_set_sub i u).
Qed.

Lemma leases_abandon u s : leases_of (abandon u s) = leases_of s.
Proof.
  unfold abandon. destruct (su_phase u); try done. destruct (sv_heap s !! entry) as [c|] eqn:E; [|done].
  by apply (leases_set_entry entry c).
Qed.

Lemma leases_remove i u s :
  sv_subs s !! i = Some u ->
  leases_of (drop_lease (su_lease u) (remove_sub i s)) = leases_of s \/
  lease_step (leases_of s) (leases_of (drop_lease (su_lease u) (remove_sub i s))).
Proof.
  intros H. assert (omap su_lease (delete i (sv_subs s)) = delete i (omap su_lease (sv_subs s))) as Ho
    by apply omap_delete.
  destruct (su_lease u) as [l|] eqn:E.
  - right. assert (leases_of (drop_lease (Some l) (remove_sub i s)) =
      mk_leases (le_entries (leases_of s)) (le_demand (leases_of s)) (delete i (le_held (leases_of s)))
        (l :: le_dropping (leases_of s)) (le_evicting (leases_of s))) as ->.
    { unfold leases_of. cbn. by rewrite Ho. }
    apply ls_release. by rewrite (leases_held i u), E.
  - left. unfold leases_of. cbn. rewrite Ho, delete_id; [done|]. by rewrite lookup_omap, H.
Qed.

(** [acquire] and the drop of the lease it replaces. *)
Lemma leases_take i u source s :
  sv_subs s !! i = Some u -> leases_ok (leases_of s) ->
  leases_of (with_lease i u source s) = leases_of s \/
  lease_step (leases_of s) (leases_of (with_lease i u source s)).
Proof.
  intros H Hok. unfold with_lease. set (k := cache_key _ _). case_decide; [left; by apply (leases_set_sub i u)|].
  right. unfold acquire. destruct (sv_entries s !! k) as [e|] eqn:Ek.
  - destruct (lo_alive _ Hok k e Ek) as [d Hd]. cbn in Hd. rewrite lookup_fmap in Hd.
    destruct (sv_heap s !! e) as [c|] eqn:Ee; [|done]. injection Hd as <-.
    pose proof (ls_join (leases_of s) i k e (en_demand c) Ek) as Hj. rewrite (leases_held i u) in Hj by done.
    match goal with |- lease_step _ ?R => match type of Hj with _ -> lease_step _ ?R' => assert (R = R') as -> end end;
      [|apply Hj; cbn; by rewrite lookup_fmap, Ee].
    unfold leases_of. destruct (su_lease u) as [l|]; cbn; rewrite fmap_insert, (omap_insert_Some _ _ _ _ (k, e)) by done; done.
  - set (e := fresh _). assert (sv_heap s !! e = None) as Ee by (apply not_elem_of_dom, is_fresh).
    pose proof (ls_create (leases_of s) i k e Ek) as Hj. rewrite (leases_held i u) in Hj by done.
    match goal with |- lease_step _ ?R => match type of Hj with _ -> lease_step _ ?R' => assert (R = R') as -> end end;
      [|apply Hj; cbn; by rewrite lookup_fmap, Ee].
    unfold leases_of. destruct (su_lease u) as [l|]; cbn; rewrite fmap_insert, (omap_insert_Some _ _ _ _ (k, e)) by done; done.
Qed.

Lemma leases_decrement n l s :
  sv_dropping s !! n = Some l ->
  let s' := decrement l (set_drops (delete n (sv_dropping s)) (sv_evicting s) s) in
  is_Some (sv_heap s !! l.2) -> lease_step (leases_of s) (leases_of s').
Proof.
  intros Hn s' [c Hc]. pose proof (ls_decrement (leases_of s) n l (en_demand c) Hn) as Hd.
  match goal with |- lease_step _ ?R => match type of Hd with _ -> lease_step _ ?R' => assert (R = R') as -> end end;
    [|apply Hd; cbn; by rewrite lookup_fmap, Hc].
  unfold s', decrement, leases_of. cbn. rewrite Hc. destruct (en_demand c =? 1); cbn; by rewrite fmap_insert.
Qed.

Lemma leases_evict n l s :
  sv_evicting s !! n = Some l ->
  lease_step (leases_of s) (leases_of (evict l (set_drops (sv_dropping s) (delete n (sv_evicting s)) s))).
Proof.
  intros Hn. pose proof (ls_evict (leases_of s) n l Hn) as Hd.
  match goal with |- lease_step _ ?R => match type of Hd with lease_step _ ?R' => assert (R = R') as -> end end; [|done].
  unfold evict, leases_of. cbn. rewrite lookup_fmap. destruct (bool_decide (sv_entries s !! l.1 = Some l.2)).
  - destruct (sv_heap s !! l.2) as [c|]; cbn; [by destruct (en_demand c =? 0)|done].
  - by destruct (sv_heap s !! l.2).
Qed.

Lemma dropping_alive n l s :
  leases_ok (leases_of s) -> sv_dropping s !! n = Some l -> is_Some (sv_heap s !! l.2).
Proof.
  intros Hok Hn. assert (l ∈ sv_dropping s) as Hl by by eapply list_elem_of_lookup_2.
  destruct (lo_alive _ Hok l.1 l.2) as [d Hd]; [by apply (lo_dropping _ Hok)|]. cbn in Hd.
  rewrite lookup_fmap in Hd. by destruct (sv_heap s !! l.2).
Qed.

Lemma leases_new_sub i u s :
  sv_subs s !! i = None -> su_lease u = None -> leases_of (set_sub i u s) = leases_of s.
Proof.
  intros H E. unfold leases_of. cbn. rewrite omap_insert_None, delete_id; [done| |done]. by rewrite lookup_omap, H.
Qed.

Lemma returned_lease now c u : su_lease (returned timing now c u) = su_lease u.
Proof. unfold returned. by repeat case_match. Qed.

(** Every step of the service is a step of the counted leases, or none. *)
Lemma step_refines k s s' :
  leases_ok (leases_of s) -> cr_step timing device_id k s = Some s' ->
  leases_of s' = leases_of s \/ lease_step (leases_of s) (leases_of s').
Proof.
  intros Hok. destruct k; cbn [cr_step]; intros Hs.
  - destruct (sv_subs s !! i) eqn:E; [done|]. injection Hs as <-. left. by apply leases_new_sub.
  - destruct (sv_subs s !! i) as [u|] eqn:E; [|done]. cbn in Hs. destruct (su_phase u); try done.
    injection Hs as <-. destruct (sv_shutdown s); [by apply leases_finish|left; by apply (leases_set_sub i u)].
  - destruct (sv_subs s !! i) as [u|] eqn:E; [|done]. cbn in Hs. destruct (su_phase u), answer; try done;
      injection Hs as <-; [by apply leases_take|left; by apply (leases_set_sub i u)].
  - destruct (sv_subs s !! i) as [u|] eqn:E; [|done]. cbn in Hs. destruct (su_phase u); try done.
    injection Hs as <-. left. by apply (leases_set_sub i u).
  - destruct (sv_subs s !! i) as [u|] eqn:E; [|done]. cbn in Hs. destruct (su_phase u); try done.
    destruct (sv_heap s !! entry) as [c|] eqn:Ec; [|done]. cbn in Hs. destruct (en_holder c); [done|].
    destruct (_ <? _); injection Hs as <-; left.
    + apply (leases_set_sub i u); [done|apply returned_lease].
    + rewrite (leases_set_entry entry c) by done. by apply (leases_set_sub i u).
  - destruct (sv_subs s !! i) as [u|] eqn:E; [|done]. cbn in Hs. destruct (su_phase u); try done.
    destruct (sv_heap s !! entry) as [c|] eqn:Ec; [|done]. injection Hs as <-. left.
    rewrite (leases_set_entry entry c) by done. apply (leases_set_sub i u); [done|apply returned_lease].
  - destruct (sv_subs s !! i) as [u|] eqn:E; [|done]. cbn in Hs. destruct (su_phase u); try done.
    destruct (_ <=? _); [|done]. injection Hs as <-. left. by apply (leases_set_sub i u).
  - destruct (sv_subs s !! i) as [u|] eqn:E; [|done]. cbn in Hs. destruct (su_phase u); try done.
    destruct (sv_shutdown s); [|done]. injection Hs as <-. by apply leases_finish.
  - destruct (sv_subs s !! i) as [u|] eqn:E; [|done]. injection Hs as <-.
    rewrite <- (leases_abandon u s). apply leases_remove. unfold abandon. destruct (su_phase u); try done.
    by destruct (sv_heap s !! entry).
  - destruct (sv_dropping s !! n) as [l|] eqn:E; [|done]. injection Hs as <-. right.
    apply leases_decrement; [done|by eapply dropping_alive].
  - destruct (sv_evicting s !! n) as [l|] eqn:E; [|done]. injection Hs as <-. right. by apply leases_evict.
  - injection Hs as <-. by left.
  - destruct (0 <=? d); [|done]. injection Hs as <-. by left.
Qed.

Lemma step_leases k s s' :
  leases_ok (leases_of s) -> cr_step timing device_id k s = Some s' -> leases_ok (leases_of s').
Proof.
  intros Hok Hs. destruct (step_refines k s s' Hok Hs) as [->|H]; [done|by eapply lease_step_ok].
Qed.

(** ** What is told *)

(** A status of a checkout: what the provider answered for a state of it that
    git reported; with the key of its cache entry. *)
Definition genuine (k : ChangeRequestCacheKey) (snapshot : CheckoutChangeRequestStatus) : Prop :=
  exists cwd source, may_inspect cwd source /\ may_answer source (st_change_request snapshot) /\
    cache_key (ck_checkout_id k) source = k /\
    semantic snapshot = mk_semantic (ck_checkout_id k) device_id (cs_checkout_root source)
                          (bh_local_branch (cs_branch source)) (st_change_request snapshot).

Record sub_ok (u : SubscriptionState) : Prop := {
  so_phase :
    match su_phase u with
    | Refreshing source =>
        may_inspect (su_cwd u) source /\ fst <$> su_lease u = Some (cache_key (su_identity u) source)
    | Wanting source e | Asking source e =>
        may_inspect (su_cwd u) source /\ su_lease u = Some (cache_key (su_identity u) source, e)
    | Panicked => False
    | _ => True
    end;
  so_received snapshot :
    snapshot ∈ su_received u -> exists k, ck_checkout_id k = su_identity u /\ genuine k snapshot;
  so_last : su_last_emitted u = semantic <$> last (su_received u);
  so_changes n a b : su_received u !! n = Some a -> su_received u !! S n = Some b -> semantic a <> semantic b;
}.

Definition asking (u : SubscriptionState) (e : nat) : bool :=
  match su_phase u with Asking _ e' => (e' =? e)%nat | _ => false end.

Record cr_ok s : Prop := {
  co_leases : leases_ok (leases_of s);
  co_sub i u : sv_subs s !! i = Some u -> sub_ok u;
  co_holder e c i : sv_heap s !! e = Some c ->
    en_holder c = Some i <-> exists u, sv_subs s !! i = Some u /\ asking u e = true;
  co_cached k e c snapshot :
    sv_entries s !! k = Some e -> sv_heap s !! e = Some c -> ca_last_success (en_state c) = Some snapshot ->
    genuine k snapshot;
}.

(** A subscription moves to a phase that needs nothing. *)
Lemma sub_ok_phase u p :
  sub_ok u -> match p with AtTop | Inspecting | Sleeping _ | Finished => True | _ => False end -> sub_ok (set_phase p u).
Proof. intros [H1 H2 H3 H4] Hp. split; cbn; [by destruct p|done..]. Qed.

Lemma sub_ok_lease u l :
  sub_ok u -> match su_phase u with Refreshing _ | Wanting _ _ | Asking _ _ => False | _ => True end ->
  sub_ok (set_lease l u).
Proof. intros [H1 H2 H3 H4] Hp. split; cbn; [by destruct (su_phase u)|done..]. Qed.

(** The loop takes what [refresh] returns: it tells news only. *)
Lemma sub_ok_returned now c u k :
  sub_ok u -> ck_checkout_id k = su_identity u -> (forall x, ca_last_success c = Some x -> genuine k x) ->
  sub_ok (returned timing now c u) /\ forall e, asking (returned timing now c u) e = false.
Proof.
  intros Hu Hk Hg. unfold returned. destruct (ca_last_success c) as [x|]; [|split; [by apply sub_ok_phase|done]].
  case_decide as Hn; [split; [by apply sub_ok_phase|done]|]. split; [|done].
  destruct Hu as [H1 H2 H3 H4]. split; cbn.
  - done.
  - intros y [Hy|Hy]%elem_of_app; [by apply H2|]. apply list_elem_of_singleton in Hy as ->. exists k. auto.
  - by rewrite last_snoc.
  - intros n a b Ha Hb. destruct (decide (S n < length (su_received u))%nat).
    + rewrite !lookup_app_l in * by lia. eauto.
    + assert (S n = length (su_received u)) as E.
      { apply lookup_lt_Some in Hb. rewrite length_app in Hb. cbn in Hb. lia. }
      rewrite lookup_app_l in Ha by lia. rewrite lookup_app_r, E, Nat.sub_diag in Hb by lia. injection Hb as <-.
      intros Es. apply Hn. rewrite H3, last_lookup, <- E. cbn. by rewrite Ha, <- Es.
Qed.

Lemma refreshed_genuine now wall u source answer c e :
  sub_ok u -> su_phase u = Asking source e ->
  (forall x, ca_last_success c = Some x -> genuine (cache_key (su_identity u) source) x) ->
  match answer with inl cr => may_answer source cr | inr _ => True end ->
  forall x, ca_last_success (refreshed timing device_id now wall (cache_key (su_identity u) source) source answer c) = Some x ->
    genuine (cache_key (su_identity u) source) x.
Proof.
  intros Hu Hp Hc Ha x. destruct answer as [cr|err]; cbn; [|apply Hc]. intros [= <-].
  pose proof (so_phase u Hu) as Hi. rewrite Hp in Hi. exists (su_cwd u), source. cbn. split_and!; [apply Hi|done..].
Qed.

Lemma holder_sub s i u u' :
  (forall e c j, sv_heap s !! e = Some c ->
     en_holder c = Some j <-> exists v, sv_subs s !! j = Some v /\ asking v e = true) ->
  sv_subs s !! i = Some u -> (forall e, asking u' e = asking u e) ->
  forall e c j, sv_heap s !! e = Some c ->
     en_holder c = Some j <-> exists v, <[i := u']> (sv_subs s) !! j = Some v /\ asking v e = true.
Proof.
  intros H Hi Hu e c j Hc. rewrite (H e c j Hc). destruct (decide (i = j)) as [->|Hn].
  - rewrite lookup_insert_eq, Hi. split; intros (v & [= <-] & Hv); eexists; split; [done| |done|]; [by rewrite Hu|by rewrite <- Hu].
  - by rewrite lookup_insert_ne.
Qed.

(** Entries keep their state and lock, or are new; subscriptions keep what they ask. *)
Definition heap_kept s s' : Prop := forall e c', sv_heap s' !! e = Some c' ->
  (exists c, sv_heap s !! e = Some c /\ en_state c' = en_state c /\ en_holder c' = en_holder c) \/
  (sv_heap s !! e = None /\ en_holder c' = None /\ ca_last_success (en_state c') = None).

Definition entries_kept s s' : Prop := forall k e, sv_entries s' !! k = Some e ->
  sv_entries s !! k = Some e \/ sv_heap s !! e = None.

Definition asks_entry s j e : Prop := exists v, sv_subs s !! j = Some v /\ asking v e = true.

Lemma leased_alive s j v e k :
  leases_ok (leases_of s) -> sv_subs s !! j = Some v -> su_lease v = Some (k, e) ->
  sv_entries s !! k = Some e /\ is_Some (sv_heap s !! e).
Proof.
  intros Hok Hj Hl. assert (sv_entries s !! k = Some e) as Hk.
  { apply (lo_held _ Hok j (k, e)). by rewrite (leases_held j v). }
  split; [done|]. destruct (lo_alive _ Hok k e Hk) as [d Hd]. cbn in Hd. rewrite lookup_fmap in Hd.
  by destruct (sv_heap s !! e).
Qed.

Lemma asking_lease u e :
  sub_ok u -> asking u e = true ->
  exists source, su_phase u = Asking source e /\ su_lease u = Some (cache_key (su_identity u) source, e).
Proof.
  intros Hu. unfold asking. pose proof (so_phase u Hu) as Hp. destruct (su_phase u); try done.
  intros ->%Nat.eqb_eq. eexists. split; [done|apply Hp].
Qed.

Lemma ok_kept s s' :
  cr_ok s -> leases_ok (leases_of s') -> heap_kept s s' -> entries_kept s s' ->
  (forall j e, asks_entry s' j e <-> asks_entry s j e) ->
  (forall i u, sv_subs s' !! i = Some u -> sub_ok u) -> cr_ok s'.
Proof.
  intros Hok Hl Hh He Ha Hs. split; [done|done| |].
  - intros e c' i Hc. fold (asks_entry s' i e). rewrite Ha.
    destruct (Hh e c' Hc) as [(c & H & _ & ->)|(H & -> & _)]; [by apply (co_holder _ Hok)|].
    split; [done|]. intros (v & Hv & Hask).
    destruct (asking_lease v e (co_sub _ Hok _ _ Hv) Hask) as (src & _ & Hle).
    destruct (leased_alive s i v e _ (co_leases _ Hok) Hv Hle) as [_ [? ?]]. congruence.
  - intros k e c' x Hk Hc Hx. destruct (Hh e c' Hc) as [(c & H & E & _)|(H & _ & Hn)]; [|congruence].
    destruct (He k e Hk) as [Hk'|]; [|congruence]. rewrite E in Hx. by apply (co_cached _ Hok k e c).
Qed.

Lemma same_heap s s' : sv_heap s' = sv_heap s -> heap_kept s s'.
Proof. intros E e c. rewrite E. left. eauto. Qed.

Lemma same_entries s s' : sv_entries s' = sv_entries s -> entries_kept s s'.
Proof. intros E k e. rewrite E. by left. Qed.

(** One subscription changes, and neither asks nor stops asking. *)
Lemma asks_insert s s' i u u' :
  sv_subs s !! i = Some u -> sv_subs s' = <[i := u']> (sv_subs s) -> (forall e, asking u' e = asking u e) ->
  forall j e, asks_entry s' j e <-> asks_entry s j e.
Proof.
  intros Hi E Hu j e. unfold asks_entry. rewrite E. destruct (decide (i = j)) as [->|Hn].
  - rewrite lookup_insert_eq, Hi. split; intros (v & [= <-] & Hv); eexists; (split; [done|]); congruence.
  - by rewrite lookup_insert_ne.
Qed.

Lemma subs_insert s s' i u' :
  cr_ok s -> sv_subs s' = <[i := u']> (sv_subs s) -> sub_ok u' -> forall j u, sv_subs s' !! j = Some u -> sub_ok u.
Proof. intros Hok E Hu j u. rewrite E. intros [[<- <-]|[_ H]]%lookup_insert_Some; [done|by eapply co_sub]. Qed.

Lemma ok_sub_step s s' i u u' :
  cr_ok s -> leases_ok (leases_of s') -> sv_subs s !! i = Some u -> sv_subs s' = <[i := u']> (sv_subs s) ->
  heap_kept s s' -> entries_kept s s' -> (forall e, asking u' e = asking u e) -> sub_ok u' -> cr_ok s'.
Proof.
  intros Hok Hl Hi E Hh He Ha Hu. apply (ok_kept s); [done..|by eapply asks_insert|by eapply subs_insert].
Qed.

Lemma heap_kept_demand s s' e c d :
  sv_heap s !! e = Some c -> sv_heap s' = <[e := add_demand d c]> (sv_heap s) -> heap_kept s s'.
Proof.
  intros Hc E e' c'. rewrite E. intros [[<- <-]|[_ H]]%lookup_insert_Some; left; eauto.
Qed.

Lemma ok_with_lease i u source s :
  cr_ok s -> sv_subs s !! i = Some u -> su_phase u = Inspecting -> may_inspect (su_cwd u) source ->
  leases_ok (leases_of (with_lease i u source s)) -> cr_ok (with_lease i u source s).
Proof.
  intros Hok Hi Hp Hm Hl. unfold with_lease in *. set (k := cache_key _ _) in *.
  pose proof (co_sub _ Hok _ _ Hi) as Hu.
  assert (forall l, fst <$> l = Some k -> sub_ok (set_lease l (set_phase (Refreshing source) u))) as Hu'.
  { intros l El. destruct Hu as [H1 H2 H3 H4]. by split. }
  assert (forall l e, asking (set_lease l (set_phase (Refreshing source) u)) e = asking u e) as Ha.
  { intros l e. unfold asking. cbn. by rewrite Hp. }
  case_decide as Hk.
  - eapply (ok_sub_step s _ i u); [done..|by apply same_heap|by apply same_entries|apply (Ha (su_lease u))|].
    apply (Hu' (su_lease u) Hk).
  - unfold acquire in *. destruct (sv_entries s !! k) as [e|] eqn:Ek.
    + destruct (lo_alive _ (co_leases _ Hok) k e Ek) as [d Hd]. cbn in Hd. rewrite lookup_fmap in Hd.
      destruct (sv_heap s !! e) as [c|] eqn:Ee; [|done].
      apply (ok_sub_step s _ i u (set_lease (Some (k, e)) (set_phase (Refreshing source) u))); try done.
      * by destruct (su_lease u).
      * eapply (heap_kept_demand s _ e c 1); [done|]. by destruct (su_lease u).
      * apply same_entries. by destruct (su_lease u).
      * by apply Hu'.
    + set (e := fresh _) in *. assert (sv_heap s !! e = None) as Ee by (apply not_elem_of_dom, is_fresh).
      apply (ok_sub_step s _ i u (set_lease (Some (k, e)) (set_phase (Refreshing source) u))); try done.
      * by destruct (su_lease u).
      * intros e' c'. destruct (su_lease u); cbn; (intros [[<- <-]|[_ H]]%lookup_insert_Some; [by right|left; eauto]).
      * intros k' e'. destruct (su_lease u); cbn; (intros [[<- <-]|[_ H]]%lookup_insert_Some; [by right|by left]).
      * by apply Hu'.
Qed.

Lemma ok_finish i u s :
  cr_ok s -> sv_subs s !! i = Some u -> match su_phase u with AtTop | Sleeping _ => True | _ => False end ->
  leases_ok (leases_of (finish i u s)) -> cr_ok (finish i u s).
Proof.
  intros Hok Hi Hp Hl. apply (ok_sub_step s _ i u (set_lease None (set_phase Finished u))); try done.
  - unfold finish. by destruct (su_lease u).
  - apply same_heap. unfold finish. by destruct (su_lease u).
  - apply same_entries. unfold finish. by destruct (su_lease u).
  - intros e. unfold asking. by destruct (su_phase u).
  - apply sub_ok_lease; [|done]. apply sub_ok_phase; [by eapply co_sub|done].
Qed.

(** The lock of entry [e] changes hands: of the subscriptions only [i] changes. *)
Lemma ok_lock s s' i u u' e c c' :
  cr_ok s -> leases_ok (leases_of s') -> sv_subs s !! i = Some u -> sv_heap s !! e = Some c ->
  sv_subs s' = <[i := u']> (sv_subs s) -> sv_heap s' = <[e := c']> (sv_heap s) -> sv_entries s' = sv_entries s ->
  sub_ok u' -> (en_holder c = None \/ en_holder c = Some i) ->
  (forall e', e' <> e -> asking u e' = false /\ asking u' e' = false) ->
  en_holder c' = (if asking u' e then Some i else None) ->
  (forall k x, sv_entries s !! k = Some e -> ca_last_success (en_state c') = Some x -> genuine k x) -> cr_ok s'.
Proof.
  intros Hok Hl Hi Hc Es Eh Ee Hu Hold Hoth Hnew Hg. split; [done|by eapply subs_insert| |].
  - intros e' d j. rewrite Eh, Es. intros [[<- <-]|[Hne Hd]]%lookup_insert_Some.
    + rewrite Hnew. destruct (decide (i = j)) as [->|Hn].
      * rewrite lookup_insert_eq. destruct (asking u' e) eqn:Ea; [by split; eauto|].
        split; [done|]. intros (v & [= <-] & Hv). congruence.
      * rewrite lookup_insert_ne by done. split; [destruct (asking u' e); congruence|].
        intros Hv. apply (co_holder _ Hok e c j Hc) in Hv. destruct Hold; congruence.
    + rewrite (co_holder _ Hok e' d j Hd). destruct (Hoth e') as [H1 H2]; [done|].
      destruct (decide (i = j)) as [->|Hn]; [|by rewrite lookup_insert_ne].
      rewrite lookup_insert_eq, Hi. split; intros (v & [= <-] & Hv); congruence.
  - intros k e' d x. rewrite Ee, Eh. intros Hk [[<- <-]|[_ Hd]]%lookup_insert_Some Hx; [eauto|].
    by eapply (co_cached _ Hok).
Qed.

Lemma lock_none s s' i :
  (forall e, sv_heap s' !! e = sv_heap s !! e) -> sv_subs s' = delete i (sv_subs s) ->
  (forall u e, sv_subs s !! i = Some u -> asking u e = false) -> forall j e, asks_entry s' j e <-> asks_entry s j e.
Proof.
  intros _ Es Hn j e. unfold asks_entry. rewrite Es. destruct (decide (i = j)) as [->|].
  - rewrite lookup_delete_eq. split; [by intros (v & ? & _)|]. intros (v & Hv & Ha). rewrite (Hn v e Hv) in Ha. done.
  - by rewrite lookup_delete_ne.
Qed.

Lemma ok_drop_stream i u s :
  cr_ok s -> sv_subs s !! i = Some u ->
  let s' := drop_lease (su_lease u) (remove_sub i (abandon u s)) in leases_ok (leases_of s') -> cr_ok s'.
Proof.
  intros Hok Hi s' Hl.
  assert (sv_subs s' = delete i (sv_subs s) /\ sv_entries s' = sv_entries s) as [Es Ee].
  { unfold s', abandon. destruct (su_lease u), (su_phase u); try done; by destruct (sv_heap s !! entry). }
  assert (forall j v, sv_subs s' !! j = Some v -> sub_ok v) as Hs.
  { intros j v. rewrite Es. intros [_ H]%lookup_delete_Some. by eapply co_sub. }
  destruct (asking u (match su_phase u with Asking _ e => e | _ => 0%nat end)) eqn:Ea.
  - destruct (su_phase u) as [| | | |src e| | |] eqn:Ep; try (by unfold asking in Ea; rewrite Ep in Ea).
    pose proof (so_phase u (co_sub _ Hok _ _ Hi)) as Hp. rewrite Ep in Hp. destruct Hp as [_ Hle].
    destruct (leased_alive s i u e _ (co_leases _ Hok) Hi Hle) as [_ [c Hc]].
    assert (sv_heap s' = <[e := set_holder None c]> (sv_heap s)) as Eh.
    { unfold s', abandon. rewrite Ep, Hc, Hle. done. }
    assert (en_holder c = Some i) as Hh by (apply (co_holder _ Hok e c i Hc); eauto).
    split; [done|done| |].
    + intros e' d j. rewrite Eh, Es. intros [[<- <-]|[Hne Hd]]%lookup_insert_Some.
      * split; [done|]. intros (v & [Hj Hv]%lookup_delete_Some & Hask). destruct Hj.
        assert (en_holder c = Some j) by (apply (co_holder _ Hok e c j Hc); eauto). congruence.
      * rewrite (co_holder _ Hok e' d j Hd). destruct (decide (i = j)) as [->|Hn]; [|by rewrite lookup_delete_ne].
        rewrite lookup_delete_eq. split; [|by intros (? & ? & _)]. intros (v & Hv & Hask).
        rewrite Hi in Hv. injection Hv as <-. unfold asking in Hask. rewrite Ep in Hask.
        apply Nat.eqb_eq in Hask. congruence.
    + intros k e' d x. rewrite Ee, Eh. intros Hk [[<- <-]|[_ Hd]]%lookup_insert_Some Hx; by eapply (co_cached _ Hok).
  - assert (forall src e, su_phase u <> Asking src e) as Hna.
    { intros src e E. unfold asking in Ea. by rewrite E, Nat.eqb_refl in Ea. }
    assert (sv_heap s' = sv_heap s) as Eh.
    { unfold s', abandon. destruct (su_lease u), (su_phase u) eqn:E; try done; by destruct (Hna _ _ eq_refl). }
    apply (ok_kept s); [done|done|by apply same_heap|by apply same_entries| |done].
    eapply (lock_none s s' i); [by rewrite Eh|done|]. intros v e Hv. rewrite Hi in Hv. injection Hv as <-.
    unfold asking. destruct (su_phase u) eqn:E; try done. by destruct (Hna _ _ eq_refl).
Qed.

Lemma ok_demand_only l s s' :
  cr_ok s -> leases_ok (leases_of s') -> sv_subs s' = sv_subs s ->
  (forall k e, sv_entries s' !! k = Some e -> sv_entries s !! k = Some e) ->
  (sv_heap s' = sv_heap s \/ exists c d, sv_heap s !! l = Some c /\ sv_heap s' = <[l := add_demand d c]> (sv_heap s)) ->
  cr_ok s'.
Proof.
  intros Hok Hl Es Ee Hh. apply (ok_kept s); [done|done| |intros k e H; left; by apply Ee| |].
  - destruct Hh as [Hh|(c & d & Hc & Hh)]; [by apply same_heap|by eapply heap_kept_demand].
  - intros j e. unfold asks_entry. by rewrite Es.
  - intros i u. rewrite Es. by apply co_sub.
Qed.

Lemma ok_answered i u source e c wall answer s :
  cr_ok s -> sv_subs s !! i = Some u -> su_phase u = Asking source e -> sv_heap s !! e = Some c ->
  match answer with inl cr => may_answer source cr | inr _ => True end ->
  let st := refreshed timing device_id (sv_now s) wall (cache_key (su_identity u) source) source answer (en_state c) in
  let s' := set_entry e (mk_centry st (en_demand c) None) (set_sub i (returned timing (sv_now s) st u) s) in
  leases_ok (leases_of s') -> cr_ok s'.
Proof.
  intros Hok Hi Hp Hc Ha st s' Hl. pose proof (co_sub _ Hok _ _ Hi) as Hu.
  pose proof (so_phase u Hu) as Hph. rewrite Hp in Hph. destruct Hph as [_ Hle].
  destruct (leased_alive s i u e _ (co_leases _ Hok) Hi Hle) as [Hk _].
  assert (forall x, ca_last_success st = Some x -> genuine (cache_key (su_identity u) source) x) as Hg.
  { eapply refreshed_genuine; [done|done| |done]. intros x. by eapply (co_cached _ Hok). }
  destruct (sub_ok_returned (sv_now s) st u (cache_key (su_identity u) source) Hu eq_refl Hg) as [Hu' Hno].
  apply (ok_lock s s' i u (returned timing (sv_now s) st u) e c (mk_centry st (en_demand c) None)); try done.
  - right. apply (co_holder _ Hok e c i Hc). exists u. unfold asking. by rewrite Hp, Nat.eqb_refl.
  - intros e' Hne. split; [|apply Hno]. unfold asking. rewrite Hp. by apply Nat.eqb_neq.
  - by rewrite Hno.
  - intros k x Hk' Hx. rewrite (lo_inj _ (co_leases _ Hok) k _ e Hk' Hk). by apply Hg.
Qed.

Lemma ok_locked i u source e c s :
  cr_ok s -> sv_subs s !! i = Some u -> su_phase u = Wanting source e -> sv_heap s !! e = Some c ->
  en_holder c = None ->
  let s' := set_entry e (set_holder (Some i) c) (set_sub i (set_phase (Asking source e) u) s) in
  leases_ok (leases_of s') -> cr_ok s'.
Proof.
  intros Hok Hi Hp Hc Hn s' Hl. pose proof (co_sub _ Hok _ _ Hi) as [H1 H2 H3 H4]. rewrite Hp in H1.
  apply (ok_lock s s' i u (set_phase (Asking source e) u) e c (set_holder (Some i) c)); try done.
  - by left.
  - intros e' Hne. unfold asking. rewrite Hp. split; [done|]. cbn. by apply Nat.eqb_neq.
  - unfold asking. cbn. by rewrite Nat.eqb_refl.
  - intros k x Hk Hx. by eapply (co_cached _ Hok).
Qed.

(** A cached answer is handed over at once. *)
Lemma ok_hit i u source e c s :
  cr_ok s -> sv_subs s !! i = Some u -> su_phase u = Wanting source e -> sv_heap s !! e = Some c ->
  let s' := set_sub i (returned timing (sv_now s) (en_state c) u) s in leases_ok (leases_of s') -> cr_ok s'.
Proof.
  intros Hok Hi Hp Hc s' Hl. pose proof (co_sub _ Hok _ _ Hi) as Hu.
  pose proof (so_phase u Hu) as Hph. rewrite Hp in Hph. destruct Hph as [_ Hle].
  destruct (leased_alive s i u e _ (co_leases _ Hok) Hi Hle) as [Hk _].
  destruct (sub_ok_returned (sv_now s) (en_state c) u (cache_key (su_identity u) source) Hu eq_refl) as [Hu' Hno].
  { intros x. by eapply (co_cached _ Hok). }
  eapply (ok_sub_step s _ i u); [done..|by apply same_heap|by apply same_entries| |done].
  intros e'. rewrite Hno. unfold asking. by rewrite Hp.
Qed.

Lemma step_ok s s' : cr_ok s -> cr_move s s' -> cr_ok s'.
Proof.
  intros Hok (k & Ha & Hs). pose proof (step_leases k s s' (co_leases _ Hok) Hs) as Hl.
  destruct k; cbn [cr_step allowed] in *;
    try (destruct (sv_subs s !! i) as [u|] eqn:E; [|done]; cbn [mbind option_bind] in Hs;
         pose proof (co_sub _ Hok _ _ E) as Hu).
  - destruct (sv_subs s !! i) eqn:E; [done|]. injection Hs as <-.
    apply (ok_kept s); [done|done|by apply same_heap|by apply same_entries| |].
    + intros j e. unfold asks_entry. cbn. destruct (decide (i = j)) as [->|]; [|by rewrite lookup_insert_ne].
      rewrite lookup_insert_eq, E. split; [by intros (v & [= <-] & Hv)|by intros (v & ? & _)].
    + eapply subs_insert; [done..|]. split; cbn; [done|by intros x []%not_elem_of_nil|done|done].
  - destruct (su_phase u) eqn:Ep; try done. injection Hs as <-.
    destruct (sv_shutdown s); [apply ok_finish; [done|done|by rewrite Ep|done]|].
    eapply (ok_sub_step s _ i u); [done..|by apply same_heap|by apply same_entries| |by apply sub_ok_phase].
    intros e. unfold asking. by rewrite Ep.
  - destruct (su_phase u) eqn:Ep, answer as [src0|err]; try done; injection Hs as <-.
    + destruct Ha as (u' & Hu' & Hm). injection Hu' as <-. by apply ok_with_lease.
    + eapply (ok_sub_step s _ i u); [done..|by apply same_heap|by apply same_entries| |by apply sub_ok_phase].
      intros e. unfold asking. by rewrite Ep.
  - destruct (su_phase u) as [| |source| | | | |] eqn:Ep; try done. injection Hs as <-.
    destruct Hu as [H1 H2 H3 H4]. rewrite Ep in H1. destruct H1 as [Hm Hle].
    destruct (su_lease u) as [[k e]|] eqn:El; [|done]. injection Hle as ->.
    destruct (leased_alive s i u e _ (co_leases _ Hok) E El) as [Hk _]. rewrite Hk in *.
    eapply (ok_sub_step s _ i u); [done..|by apply same_heap|by apply same_entries| |].
    + intros e'. unfold asking. by rewrite Ep.
    + split; cbn; [split; [done|by rewrite El]|done..].
  - destruct (su_phase u) as [| | |source e| | | |] eqn:Ep; try done.
    destruct (sv_heap s !! e) as [c|] eqn:Ec; [|done]. cbn [mbind option_bind] in Hs.
    destruct (en_holder c) eqn:Eh; [done|]. destruct (_ <? _); injection Hs as <-; [by eapply ok_hit|by eapply ok_locked].
  - destruct (su_phase u) as [| | | |source e| | |] eqn:Ep; try done.
    destruct (sv_heap s !! e) as [c|] eqn:Ec; [|done]. injection Hs as <-. eapply ok_answered; try done.
    destruct answer as [cr|err]; [|done]. destruct Ha as (u' & src & e' & Hu' & Hp' & Hm).
    injection Hu' as <-. rewrite Ep in Hp'. by injection Hp' as -> _.
  - destruct (su_phase u) eqn:Ep; try done. destruct (_ <=? _); [|done]. injection Hs as <-.
    eapply (ok_sub_step s _ i u); [done..|by apply same_heap|by apply same_entries| |by apply sub_ok_phase].
    intros e. unfold asking. by rewrite Ep.
  - destruct (su_phase u) eqn:Ep; try done. destruct (sv_shutdown s); [|done]. injection Hs as <-.
    apply ok_finish; [done|done|by rewrite Ep|done].
  - injection Hs as <-. by apply ok_drop_stream.
  - destruct (sv_dropping s !! n) as [l|] eqn:E; [|done]. injection Hs as <-.
    destruct (dropping_alive n l s (co_leases _ Hok) E) as [c Hc].
    apply (ok_demand_only l.2 s); [done|done|..]; unfold decrement; cbn; rewrite Hc;
      (destruct (en_demand c =? 1); cbn; [..|]; eauto 10).
  - destruct (sv_evicting s !! n) as [l|] eqn:E; [|done]. injection Hs as <-.
    apply (ok_demand_only l.2 s); [done|done|..]; unfold evict; cbn; (destruct (_ && _); cbn; eauto).
    intros k e [_ H]%lookup_delete_Some. done.
  - injection Hs as <-. apply (ok_demand_only 0%nat s); cbn; auto.
  - destruct (0 <=? d); [|done]. injection Hs as <-. apply (ok_demand_only 0%nat s); cbn; auto.
Qed.

Lemma new_ok now : cr_ok (service_new now).
Proof.
  split; cbn; [|intros i u H|intros e c i H|intros k e c x H]; try (by rewrite lookup_empty in H).
  split; cbn.
  - intros k e. by rewrite lookup_empty.
  - intros k k' e. by rewrite lookup_empty.
  - intros i l. by rewrite omap_empty, lookup_empty.
  - intros l []%not_elem_of_nil.
  - intros e d. by rewrite fmap_empty, lookup_empty.
  - intros k e. by rewrite lookup_empty.
Qed.

Lemma reached_ok s s' : cr_ok s -> rtc cr_move s s' -> cr_ok s'.
Proof. intros Hok. induction 1; [done|]. eauto using step_ok. Qed.

(** *** The theorems *)

Lemma held_count_some e m : 0 < held_count e m -> exists i l, m !! i = Some l /\ l.2 = e.
Proof.
  unfold held_count. intros H. destruct (decide (filter (fun p => p.2.2 = e) m = ∅)) as [E|E].
  - rewrite E, map_size_empty in H. lia.
  - destruct (map_choose _ E) as (i & l & [Hl He]%map_lookup_filter_Some). eauto.
Qed.

(** C38. A lease keeps its entry. However subscriptions, key changes, dropped
    streams and the two halves of each drop interleave, the entry of a lease
    is the cached one until it is given back, so the lookup that expects it
    never fails; two subscriptions never ask about one key at a time; and when
    no drop is under way the cache holds exactly the keys somebody leases. *)
Theorem leases_keep_entries now s :
  rtc cr_move (service_new now) s ->
  (forall i u, sv_subs s !! i = Some u ->
     su_phase u <> Panicked /\
     (forall k e, su_lease u = Some (k, e) -> sv_entries s !! k = Some e) /\
     (forall source, su_phase u = Refreshing source -> is_Some (sv_entries s !! cache_key (su_identity u) source))) /\
  (forall i j u v source source' e e', sv_subs s !! i = Some u -> sv_subs s !! j = Some v ->
     su_phase u = Asking source e -> su_phase v = Asking source' e' ->
     cache_key (su_identity u) source = cache_key (su_identity v) source' -> i = j) /\
  (sv_dropping s = [] -> sv_evicting s = [] -> forall k,
     is_Some (sv_entries s !! k) <-> exists i u e, sv_subs s !! i = Some u /\ su_lease u = Some (k, e)).
Proof.
  intros Hr. pose proof (reached_ok _ _ (new_ok now) Hr) as Hok. pose proof (co_leases _ Hok) as Hl.
  assert (forall i u k e, sv_subs s !! i = Some u -> su_lease u = Some (k, e) -> sv_entries s !! k = Some e) as Hle.
  { intros i u k e Hi Hu. by destruct (leased_alive s i u e k Hl Hi Hu). }
  split_and!.
  - intros i u Hi. pose proof (so_phase u (co_sub _ Hok _ _ Hi)) as Hp. split_and!; [by intros E; rewrite E in Hp|eauto|].
    intros source E. rewrite E in Hp. destruct Hp as [_ Hp]. destruct (su_lease u) as [[k e]|] eqn:Eu; [|done].
    injection Hp as <-. eauto.
  - intros i j u v src src' e e' Hi Hj Hu Hv Hk.
    pose proof (so_phase u (co_sub _ Hok _ _ Hi)) as Hpu. pose proof (so_phase v (co_sub _ Hok _ _ Hj)) as Hpv.
    rewrite Hu in Hpu. rewrite Hv in Hpv. destruct Hpu as [_ Hpu], Hpv as [_ Hpv].
    destruct (leased_alive s i u e _ Hl Hi Hpu) as [He [c Hc]]. pose proof (Hle _ _ _ _ Hj Hpv) as He'.
    rewrite <- Hk, He in He'. injection He' as <-.
    assert (en_holder c = Some i) as H1 by (apply (co_holder _ Hok e c i Hc); exists u; unfold asking; by rewrite Hu, Nat.eqb_refl).
    assert (en_holder c = Some j) as H2 by (apply (co_holder _ Hok e c j Hc); exists v; unfold asking; by rewrite Hv, Nat.eqb_refl).
    congruence.
  - intros Hd Hev k. split; [|intros (i & u & e & Hi & Hu); eauto].
    intros [e He]. destruct (lo_alive _ Hl k e He) as [d Hdm]. pose proof (lo_count _ Hl e d Hdm) as Hc. cbn in Hc.
    rewrite Hd in Hc. change (drop_count e []) with 0 in Hc.
    assert (d <> 0) as Hd0.
    { intros ->. pose proof (lo_idle _ Hl k e He Hdm) as Hin. cbn in Hin. rewrite Hev in Hin. by apply not_elem_of_nil in Hin. }
    destruct (held_count_some e (le_held (leases_of s))) as (i & [k' e'] & Hi & He').
    { pose proof (held_count_pos e (omap su_lease (sv_subs s))). cbn. lia. }
    cbn in He'. subst e'. cbn in Hi. rewrite lookup_omap in Hi. destruct (sv_subs s !! i) as [u|] eqn:Eu; [|done].
    cbn in Hi. exists i, u, e. split; [done|]. by rewrite (lo_inj _ Hl k k' e He (Hle _ _ _ _ Eu Hi)).
Qed.

(** What a subscriber is told: each status is what the provider answered for a
    state of its checkout that git reported, and no two in a row say the same. *)
Theorem told_what_was_answered now s i u :
  rtc cr_move (service_new now) s -> sv_subs s !! i = Some u ->
  (forall snapshot, snapshot ∈ su_received u -> exists k, ck_checkout_id k = su_identity u /\ genuine k snapshot) /\
  (forall n a b, su_received u !! n = Some a -> su_received u !! S n = Some b -> semantic a <> semantic b).
Proof.
  intros Hr Hi. pose proof (co_sub _ (reached_ok _ _ (new_ok now) Hr) _ _ Hi) as Hu.
  split; [apply (so_received u Hu)|apply (so_changes u Hu)].
Qed.

(** How long the provider is left alone after an answer. *)
Definition pause (answer : option ChangeRequestSummary + ChangeRequestError) (c : CacheState) : Z :=
  match answer with
  | inl change_request => ttl timing change_request
  | inr _ => failure_backoff (failure_initial_backoff timing) (failure_max_backoff timing) (Z.min (ca_failures c + 1) U32_MAX)
  end.

Lemma refreshed_pause now wall k source answer c :
  ca_next_refresh (refreshed timing device_id now wall k source answer c) = now + pause answer c.
Proof. by destruct answer. Qed.

(** Entry [e] is not asked about before [t]. *)
Definition quiet (e : nat) (t : Z) s : Prop :=
  t <= sv_now s \/ exists c, sv_heap s !! e = Some c /\ t <= ca_next_refresh (en_state c) /\ en_holder c = None.

Definition undisturbed (e : nat) s s' : Prop := forall c, sv_heap s !! e = Some c ->
  exists c', sv_heap s' !! e = Some c' /\ en_state c' = en_state c /\ (en_holder c = None -> en_holder c' = None).

Lemma undisturbed_heap e s s' : sv_heap s' = sv_heap s -> undisturbed e s s'.
Proof. intros E c Hc. exists c. by rewrite E. Qed.

Lemma undisturbed_insert e e' c c' s s' :
  sv_heap s !! e' = Some c -> sv_heap s' = <[e' := c']> (sv_heap s) -> en_state c' = en_state c ->
  (en_holder c = None -> en_holder c' = None) -> undisturbed e s s'.
Proof.
  intros Hc E Hs Hh d Hd. rewrite E. destruct (decide (e' = e)) as [->|Hn].
  - rewrite lookup_insert_eq. exists c'. rewrite Hc in Hd. by injection Hd as <-.
  - rewrite lookup_insert_ne by done. eauto.
Qed.

Lemma with_lease_undisturbed e i u source s : undisturbed e s (with_lease i u source s).
Proof.
  unfold with_lease, acquire. set (k := cache_key _ _). case_decide; [by apply undisturbed_heap|].
  destruct (sv_entries s !! k) as [e'|].
  - destruct (sv_heap s !! e') as [c|] eqn:Ec; [|by apply undisturbed_heap; destruct (su_lease u)].
    eapply (undisturbed_insert e e' c (add_demand 1 c)); try done. by destruct (su_lease u).
  - intros c Hc. exists c. split; [|done]. assert (sv_heap s !! fresh (dom (sv_heap s)) = None) as Hf
      by (apply not_elem_of_dom, is_fresh).
    assert (fresh (dom (sv_heap s)) <> e) by congruence.
    destruct (su_lease u); cbn; by rewrite lookup_insert_ne.
Qed.

(** A step leaves an entry as it is, gives it back, answers it or begins to ask. *)
Lemma step_entry e k s s' :
  cr_step timing device_id k s = Some s' ->
  undisturbed e s s' \/
  (exists i u source, sv_subs s !! i = Some u /\ su_phase u = Asking source e) \/
  (exists c, sv_heap s !! e = Some c /\ en_holder c = None /\ ca_next_refresh (en_state c) <= sv_now s).
Proof.
  destruct k; cbn [cr_step]; intros Hs;
    try (destruct (sv_subs s !! i) as [u|] eqn:E; [|done]; cbn [mbind option_bind] in Hs).
  - destruct (sv_subs s !! i); [done|]. injection Hs as <-. left. by apply undisturbed_heap.
  - destruct (su_phase u); try done. injection Hs as <-. left. apply undisturbed_heap.
    unfold finish. by destruct (sv_shutdown s), (su_lease u).
  - destruct (su_phase u), answer; try done; injection Hs as <-; left;
      [apply with_lease_undisturbed|by apply undisturbed_heap].
  - destruct (su_phase u); try done. injection Hs as <-. left. by apply undisturbed_heap.
  - destruct (su_phase u) as [| | |source e'| | | |] eqn:Ep; try done.
    destruct (sv_heap s !! e') as [c|] eqn:Ec; [|done]. cbn [mbind option_bind] in Hs.
    destruct (en_holder c) eqn:Eh; [done|]. destruct (Z.ltb_spec (sv_now s) (ca_next_refresh (en_state c))).
    + injection Hs as <-. left. by apply undisturbed_heap.
    + injection Hs as <-. destruct (decide (e' = e)) as [->|Hn]; [right; right; eauto|]. left.
      intros d Hd. exists d. cbn. by rewrite lookup_insert_ne.
  - destruct (su_phase u) as [| | | |source e'| | |] eqn:Ep; try done.
    destruct (sv_heap s !! e') as [c|] eqn:Ec; [|done]. injection Hs as <-.
    destruct (decide (e' = e)) as [->|Hn]; [right; left; eauto 10|]. left.
    intros d Hd. exists d. cbn. by rewrite lookup_insert_ne.
  - destruct (su_phase u); try done. destruct (_ <=? _); [|done]. injection Hs as <-. left. by apply undisturbed_heap.
  - destruct (su_phase u); try done. destruct (sv_shutdown s); [|done]. injection Hs as <-. left.
    apply undisturbed_heap. unfold finish. by destruct (su_lease u).
  - injection Hs as <-. left. unfold abandon.
    destruct (su_phase u) as [| | | |source e'| | |]; try (apply undisturbed_heap; by destruct (su_lease u)).
    destruct (sv_heap s !! e') as [c|] eqn:Ec; [|apply undisturbed_heap; by destruct (su_lease u)].
    apply (undisturbed_insert e e' c (set_holder None c)); try done. by destruct (su_lease u).
  - destruct (sv_dropping s !! n) as [l|]; [|done]. injection Hs as <-. left. unfold decrement. cbn.
    destruct (sv_heap s !! l.2) as [c|] eqn:Ec; [|by apply undisturbed_heap].
    apply (undisturbed_insert e l.2 c (add_demand (-1) c)); try done. by destruct (en_demand c =? 1).
  - destruct (sv_evicting s !! n) as [l|]; [|done]. injection Hs as <-. left. apply undisturbed_heap.
    unfold evict. by destruct (_ && _).
  - injection Hs as <-. left. by apply undisturbed_heap.
  - destruct (0 <=? d); [|done]. injection Hs as <-. left. by apply undisturbed_heap.
Qed.

Lemma with_lease_now i u source s : sv_now (with_lease i u source s) = sv_now s.
Proof.
  unfold with_lease, acquire. case_decide; [done|].
  destruct (sv_entries s !! _); [destruct (sv_heap s !! _)|]; by destruct (su_lease u).
Qed.

Lemma step_now k s s' : cr_step timing device_id k s = Some s' -> sv_now s <= sv_now s'.
Proof.
  destruct k; cbn [cr_step]; intros Hs;
    try (destruct (sv_subs s !! i) as [u|] eqn:E; [|done]; cbn [mbind option_bind] in Hs).
  - destruct (sv_subs s !! i); [done|]. by injection Hs as <-.
  - destruct (su_phase u); try done. injection Hs as <-. unfold finish. by destruct (sv_shutdown s), (su_lease u).
  - destruct (su_phase u), answer; try done; injection Hs as <-; [by rewrite with_lease_now|done].
  - destruct (su_phase u); try done. by injection Hs as <-.
  - destruct (su_phase u); try done. destruct (sv_heap s !! entry) as [c|]; [|done]. cbn [mbind option_bind] in Hs.
    destruct (en_holder c); [done|]. by destruct (_ <? _); injection Hs as <-.
  - destruct (su_phase u); try done. destruct (sv_heap s !! entry); [|done]. by injection Hs as <-.
  - destruct (su_phase u); try done. destruct (_ <=? _); [|done]. by injection Hs as <-.
  - destruct (su_phase u); try done. destruct (sv_shutdown s); [|done]. injection Hs as <-. unfold finish.
    by destruct (su_lease u).
  - injection Hs as <-. unfold abandon. destruct (su_phase u), (su_lease u); try done; by destruct (sv_heap s !! entry).
  - destruct (sv_dropping s !! n) as [l|]; [|done]. injection Hs as <-. unfold decrement. cbn.
    destruct (sv_heap s !! l.2) as [c|]; [|done]. by destruct (en_demand c =? 1).
  - destruct (sv_evicting s !! n) as [l|]; [|done]. injection Hs as <-. unfold evict. by destruct (_ && _).
  - by injection Hs as <-.
  - destruct (Z.leb_spec 0 d); [|done]. injection Hs as <-. cbn. lia.
Qed.

Lemma quiet_step e t s s' : cr_ok s -> cr_move s s' -> quiet e t s -> quiet e t s'.
Proof.
  intros Hok (k & _ & Hs) Hq. pose proof (step_now k s s' Hs).
  destruct Hq as [Hq|(c & Hc & Hn & Hh)]; [left; lia|].
  destruct (step_entry e k s s' Hs) as [Hu|[(i & u & source & Hi & Hp)|(d & Hd & _ & Hd')]].
  - destruct (Hu c Hc) as (c' & Hc' & E & Hh'). right. exists c'. rewrite E. auto.
  - assert (en_holder c = Some i); [|congruence]. apply (co_holder _ Hok e c i Hc). exists u.
    unfold asking. by rewrite Hp, Nat.eqb_refl.
  - rewrite Hc in Hd. injection Hd as <-. left. lia.
Qed.

Lemma quiet_run e t s s' : cr_ok s -> rtc cr_move s s' -> quiet e t s -> quiet e t s'.
Proof. intros Hok Hr. revert Hok. induction Hr; [done|]. eauto using step_ok, quiet_step. Qed.

(** C39. Questions about an entry are spaced. After an answer nobody asks about
    that entry again before its time to live is over, or after a failure its
    backoff, whatever happens in between and whoever asks. *)
Theorem questions_spaced now s i u source e c wall answer s1 s2 j v source' :
  rtc cr_move (service_new now) s -> sv_subs s !! i = Some u -> su_phase u = Asking source e ->
  sv_heap s !! e = Some c -> allowed s (KAnswered i wall answer) ->
  cr_step timing device_id (KAnswered i wall answer) s = Some s1 -> rtc cr_move s1 s2 ->
  sv_subs s2 !! j = Some v -> su_phase v = Asking source' e ->
  sv_now s + pause answer (en_state c) <= sv_now s2.
Proof.
  intros Hr Hi Hp Hc Ha Hs Hr2 Hj Hv. pose proof (reached_ok _ _ (new_ok now) Hr) as Hok.
  assert (cr_ok s1) as Hok1 by (eapply step_ok; [done|by eexists]).
  pose proof (reached_ok _ _ Hok1 Hr2) as Hok2.
  assert (quiet e (sv_now s + pause answer (en_state c)) s1) as Hq.
  { cbn [cr_step] in Hs. rewrite Hi in Hs. cbn [mbind option_bind] in Hs. rewrite Hp, Hc in Hs.
    cbn [mbind option_bind] in Hs. injection Hs as <-. right. eexists. cbn. rewrite lookup_insert_eq.
    split; [done|]. cbn. rewrite refreshed_pause. done. }
  destruct (quiet_run _ _ _ _ Hok1 Hr2 Hq) as [|(c' & Hc' & _ & Hh)]; [done|].
  assert (en_holder c' = Some j); [|congruence]. apply (co_holder _ Hok2 e c' j Hc'). exists v.
  unfold asking. by rewrite Hv, Nat.eqb_refl.
Qed.
End Safety.

(** The [n]th failure in a row: twenty seconds doubled each time, a quarter of an
    hour at most. *)
Lemma failure_backoff_bounds failures :
  FAILURE_INITIAL_BACKOFF <= failure_backoff FAILURE_INITIAL_BACKOFF FAILURE_MAX_BACKOFF failures <= FAILURE_MAX_BACKOFF.
Proof.
  unfold failure_backoff, FAILURE_INITIAL_BACKOFF, FAILURE_MAX_BACKOFF. set (e := Z.min _ 31).
  assert (0 < 2 ^ e) by (apply Z.pow_pos_nonneg; lia). lia.
Qed.

Lemma pause_bounds answer c :
  FAILURE_INITIAL_BACKOFF <= pause timing_default answer c <= FAILURE_MAX_BACKOFF.
Proof.
  destruct answer as [[cr|]|err]; cbn [pause ttl]; [..|apply failure_backoff_bounds];
    unfold FAILURE_INITIAL_BACKOFF, FAILURE_MAX_BACKOFF; cbn; unfold WITH_CHANGE_REQUEST_TTL, WITHOUT_CHANGE_REQUEST_TTL; lia.
Qed.

Example backoffs :
  failure_backoff FAILURE_INITIAL_BACKOFF FAILURE_MAX_BACKOFF <$> [1; 2; 3; 6; 7; 100] =
    [20000; 40000; 80000; 640000; 900000; 900000].
Proof. reflexivity. Qed.
