(* ===== verification/BadgeState.v ===== *)
(** Pull request badges of the interface: crates/ui/src/change_requests.rs and the
    watches crates/ui/src/state.rs keeps for them. Which checkouts are watched,
    what a device that does not know the method costs, and which snapshot a
    chat may show.

    A watch task is subscribed or has ended; the retries of its connection are
    not visible here. A hash map is visited in some order: the lookup takes a
    list. *)
From S2P Require Import Prelude Json Text Entities View Journal SourceControl ChangeRequests ChangeRequestsSafety.

Record ChangeRequestWatchKey := mk_watch_key { wk_device_id : string; wk_cwd : string }.

#[export] Instance watch_key_eq_dec : EqDecision ChangeRequestWatchKey.
Proof. solve_decision. Defined.

#[export] Instance watch_key_countable : Countable ChangeRequestWatchKey.
Proof. refine (inj_countable' (fun k => (wk_device_id k, wk_cwd k)) (fun '(a, b) => mk_watch_key a b) _). by intros []. Defined.

Section Badges.
Context {C : Chrono} {K : ConfigCodec}.

Record ChangeRequestClientState := mk_client {
  cl_snapshots : gmap ChangeRequestWatchKey CheckoutChangeRequestStatus;
  cl_unsupported_devices : gmap string (option string);
}.

Definition client_default : ChangeRequestClientState := mk_client ∅ ∅.

Definition is_supported (device_id : string) (c : ChangeRequestClientState) : bool :=
  bool_decide (cl_unsupported_devices c !! device_id = None).

Definition mark_unsupported (device_id : string) (version : option string) (c : ChangeRequestClientState)
    : ChangeRequestClientState :=
  mk_client (filter (fun p => wk_device_id p.1 <> device_id) (cl_snapshots c))
    (<[device_id := version]> (cl_unsupported_devices c)).

Definition clear_unsupported_on_version_change (device_id : string) (version : option string)
    (c : ChangeRequestClientState) : ChangeRequestClientState :=
  match cl_unsupported_devices c !! device_id with
  | Some rejected =>
      if decide (rejected = version) then c
      else mk_client (cl_snapshots c) (delete device_id (cl_unsupported_devices c))
  | None => c
  end.

Definition store (k : ChangeRequestWatchKey) (snapshot : CheckoutChangeRequestStatus) (c : ChangeRequestClientState)
    : ChangeRequestClientState :=
  mk_client (<[k := snapshot]> (cl_snapshots c)) (cl_unsupported_devices c).

Definition retain_targets (targets : gset ChangeRequestWatchKey) (c : ChangeRequestClientState)
    : ChangeRequestClientState :=
  mk_client (filter (fun p => p.1 ∈ targets) (cl_snapshots c)) (cl_unsupported_devices c).

(** Not empty once trimmed; the text itself is kept. *)
Definition unless_blank (s : string) : option string := if String.eqb (trim s) "" then None else Some s.

Definition effective_chat_cwd (chat : Chat) (spaces : list Space) : option string :=
  match ch_cwd chat ≫= unless_blank with
  | Some cwd => Some cwd
  | None =>
      space_id ← ch_space_id chat;
      space ← List.find (fun sp => String.eqb (sp_id sp) space_id && String.eqb (sp_device_id sp) (ch_device_id chat)) spaces;
      unless_blank (sp_path space)
  end.

Definition watched (is_unsupported : string -> bool) (spaces : list Space) (chat : Chat) : option ChangeRequestWatchKey :=
  if ch_archived chat then None
  else
    _ ← ch_branch chat ≫= unless_blank;
    if is_unsupported (ch_device_id chat) then None
    else cwd ← effective_chat_cwd chat spaces; Some (mk_watch_key (ch_device_id chat) cwd).

Definition desired_watch_targets (chats : list Chat) (spaces : list Space) (is_unsupported : string -> bool)
    : gset ChangeRequestWatchKey :=
  list_to_set (omap (watched is_unsupported spaces) chats).

Definition watch_params (target : ChangeRequestWatchKey) (local_device_id : option string) : Value :=
  Object (("cwd", Str (wk_cwd target)) ::
    (if decide (local_device_id = Some (wk_device_id target)) then []
     else [("targetDeviceId", Str (wk_device_id target))])).

Definition snapshot_fits (chat : Chat) (cwd branch : string) (s : CheckoutChangeRequestStatus) : bool :=
  String.eqb (st_device_id s) (ch_device_id chat) && String.eqb (st_cwd s) cwd && String.eqb (st_branch s) branch &&
  match ch_checkout_id chat with
  | Some checkout_id => negb (String.eqb (st_checkout_id s) "") && String.eqb (st_checkout_id s) checkout_id
  | None => true
  end.

Definition change_request_for_chat (chat : Chat) (spaces : list Space) (snapshots : list CheckoutChangeRequestStatus)
    : option ChangeRequestSummary :=
  branch ← trim <$> ch_branch chat;
  if String.eqb branch "" then None
  else
    cwd ← effective_chat_cwd chat spaces;
    s ← List.find (snapshot_fits chat cwd branch) snapshots;
    st_change_request s.

(** ** The watches *)

Inductive WatchTask := Watching | Over.

#[export] Instance watch_task_eq_dec : EqDecision WatchTask.
Proof. solve_decision. Defined.

Record Watches := mk_watches {
  wa_attached : bool;
  wa_chats : list Chat;
  wa_spaces : list Space;
  wa_devices : list Device;
  wa_change_requests : ChangeRequestClientState;
  wa_tasks : gmap ChangeRequestWatchKey WatchTask;
}.

Definition watches_new : Watches := mk_watches false [] [] [] client_default ∅.

Definition set_client (c : ChangeRequestClientState) (w : Watches) : Watches :=
  mk_watches (wa_attached w) (wa_chats w) (wa_spaces w) (wa_devices w) c (wa_tasks w).
Definition set_tasks (t : gmap ChangeRequestWatchKey WatchTask) (w : Watches) : Watches :=
  mk_watches (wa_attached w) (wa_chats w) (wa_spaces w) (wa_devices w) (wa_change_requests w) t.

Definition wanted (w : Watches) : gset ChangeRequestWatchKey :=
  desired_watch_targets (wa_chats w) (wa_spaces w) (fun d => negb (is_supported d (wa_change_requests w))).

(** [reconcile_change_request_watches] *)
Definition reconcile (w : Watches) : Watches :=
  if wa_attached w then
    let targets := wanted w in
    let kept := filter (fun p => p.1 ∈ targets) (wa_tasks w) in
    set_tasks (kept ∪ gset_to_gmap Watching targets) (set_client (retain_targets targets (wa_change_requests w)) w)
  else set_tasks ∅ w.

Inductive WatchStep :=
  | WAttach
  | WReplace
  | WChats (chats : list Chat)
  | WSpaces (spaces : list Space)
  | WDevices (devices : list Device)
  | WSnapshot (target : ChangeRequestWatchKey) (snapshot : CheckoutChangeRequestStatus)
  | WUnknownMethod (target : ChangeRequestWatchKey).

Definition version_of (device_id : string) (devices : list Device) : option string :=
  d ← List.find (fun d => String.eqb (dev_id d) device_id) devices; dev_version d.

Definition clear_changed (devices : list Device) (c : ChangeRequestClientState) : ChangeRequestClientState :=
  foldl (fun c d => clear_unsupported_on_version_change (dev_id d) (dev_version d) c) c devices.

(** The frames of the engine, and what a live watch task is answered. *)
Definition watch_step (k : WatchStep) (w : Watches) : Watches :=
  match k with
  | WAttach => reconcile (mk_watches true (wa_chats w) (wa_spaces w) (wa_devices w) (wa_change_requests w) (wa_tasks w))
  | WReplace => watches_new
  | WChats chats => reconcile (mk_watches (wa_attached w) chats (wa_spaces w) (wa_devices w) (wa_change_requests w) (wa_tasks w))
  | WSpaces spaces => reconcile (mk_watches (wa_attached w) (wa_chats w) spaces (wa_devices w) (wa_change_requests w) (wa_tasks w))
  | WDevices devices =>
      reconcile (mk_watches (wa_attached w) (wa_chats w) (wa_spaces w) devices
                   (clear_changed devices (wa_change_requests w)) (wa_tasks w))
  | WSnapshot target snapshot =>
      if decide (wa_tasks w !! target = Some Watching) then set_client (store target snapshot (wa_change_requests w)) w else w
  | WUnknownMethod target =>
      if decide (wa_tasks w !! target = Some Watching) then
        set_tasks (<[target := Over]> (wa_tasks w))
          (set_client (mark_unsupported (wk_device_id target) (version_of (wk_device_id target) (wa_devices w))
                         (wa_change_requests w)) w)
      else w
  end.

Definition watch_run (ks : list WatchStep) (w : Watches) : Watches := foldl (flip watch_step) w ks.

(** The badge of a chat: the snapshots in the order of some visit of the map. *)
Definition badge (w : Watches) (order : list CheckoutChangeRequestStatus) (chat : Chat) : option ChangeRequestSummary :=
  change_request_for_chat chat (wa_spaces w) order.
End Badges.

(** ** What a badge shows *)

Section Shown.
Context {C : Chrono} {K : ConfigCodec}.

Lemma badge_fits chat spaces snapshots cr :
  change_request_for_chat chat spaces snapshots = Some cr ->
  exists s branch cwd, s ∈ snapshots /\ st_change_request s = Some cr /\ st_device_id s = ch_device_id chat /\
    ch_branch chat = Some branch /\ st_branch s = trim branch /\ trim branch <> "" /\
    effective_chat_cwd chat spaces = Some cwd /\ st_cwd s = cwd /\
    (forall id, ch_checkout_id chat = Some id -> st_checkout_id s = id).
Proof.
  unfold change_request_for_chat. destruct (ch_branch chat) as [branch|]; [|done]. cbn [fmap option_fmap option_map mbind option_bind].
  destruct (String.eqb_spec (trim branch) "") as [|Hb]; [done|].
  destruct (effective_chat_cwd chat spaces) as [cwd|]; [|done]. cbn [mbind option_bind].
  destruct (List.find _ snapshots) as [s|] eqn:Ef; [|done]. cbn. intros Hc.
  apply find_some in Ef as [Hin Hf]. unfold snapshot_fits in Hf. rewrite !andb_true_iff, !String.eqb_eq in Hf.
  destruct Hf as [[[H1 H2] H3] H4]. exists s, branch, cwd. split_and!; try done; [by apply list_elem_of_In|].
  intros id E. rewrite E, andb_true_iff, String.eqb_eq in H4. apply H4.
Qed.

(** A reconciled interface watches exactly what it wants, and keeps no snapshot of
    anything else. *)
Lemma reconcile_exact w :
  wa_attached w = true ->
  dom (wa_tasks (reconcile w)) = wanted w /\ wanted (reconcile w) = wanted w /\
  (forall k s, cl_snapshots (wa_change_requests (reconcile w)) !! k = Some s ->
     k ∈ wanted w /\ cl_snapshots (wa_change_requests w) !! k = Some s).
Proof.
  intros Ha. unfold reconcile. rewrite Ha. cbn. split_and!.
  - rewrite dom_union_L, dom_gset_to_gmap. apply set_eq. intros k. rewrite elem_of_union. split; [|by right].
    intros [[t [_ Ht]%map_lookup_filter_Some]%elem_of_dom|H]; done.
  - done.
  - intros k s [Hs Hk]%map_lookup_filter_Some. done.
Qed.

(** What a device that refused is not asked again, until its version changes. *)
Lemma wanted_supported w k : k ∈ wanted w -> is_supported (wk_device_id k) (wa_change_requests w) = true.
Proof.
  unfold wanted, desired_watch_targets. rewrite elem_of_list_to_set, list_elem_of_omap. intros (chat & _ & H).
  unfold watched in H. destruct (ch_archived chat); [done|].
  destruct (ch_branch chat ≫= unless_blank); [|done]. cbn in H. destruct (is_supported _ _) eqn:E; [|done]. cbn in H.
  destruct (effective_chat_cwd chat _); [|done]. by injection H as <-.
Qed.

(** *** From the provider to the badge *)

Context {I : Instants} {J : JsonText} {G : GhLibs}.
Context {W : Type} (run : ProcessRequest -> W -> (ProcessOutput + ProcessRunError) * W).

(** A subscriber of some engine's cache was told this. *)
Definition told (x : CheckoutChangeRequestStatus) : Prop :=
  exists timing device now s i u,
    rtc (cr_move (Lk := resolver_lookup run) timing device) (service_new now) s /\
    sv_subs s !! i = Some u /\ x ∈ su_received u.

Definition all_told (w : Watches) : Prop :=
  forall k x, cl_snapshots (wa_change_requests w) !! k = Some x -> told x.

Lemma reconcile_told w : all_told w -> all_told (reconcile w).
Proof.
  intros H. unfold reconcile. destruct (wa_attached w); [|done]. intros k x [Hx _]%map_lookup_filter_Some. by apply (H k).
Qed.

Lemma clear_changed_snapshots devices c : cl_snapshots (clear_changed devices c) = cl_snapshots c.
Proof.
  unfold clear_changed. revert c. induction devices as [|d l IH]; intros c; [done|]. cbn. rewrite IH.
  unfold clear_unsupported_on_version_change. destruct (cl_unsupported_devices c !! dev_id d); [|done]. by case_decide.
Qed.

Lemma watch_step_told k w :
  all_told w -> (forall t x, k = WSnapshot t x -> told x) -> all_told (watch_step k w).
Proof.
  intros Hw Hk. destruct k; cbn [watch_step]; try (by apply reconcile_told).
  - intros k x. cbn. by rewrite lookup_empty.
  - apply reconcile_told. intros k x. cbn. rewrite clear_changed_snapshots. apply Hw.
  - case_decide; [|done]. intros k x. cbn. intros [[_ <-]|[_ H1]]%lookup_insert_Some; [by eapply Hk|by apply (Hw k)].
  - case_decide; [|done]. intros k x. cbn. intros [H1 _]%map_lookup_filter_Some. by apply (Hw k).
Qed.

Lemma watch_run_told ks w :
  all_told w -> (forall t x, WSnapshot t x ∈ ks -> told x) -> all_told (watch_run ks w).
Proof.
  revert w. induction ks as [|k ks IH]; intros w Hw Hk; [done|]. cbn. apply IH; [apply watch_step_told; [done|]|].
  - intros t x ->. apply (Hk t). left.
  - intros t x H. apply (Hk t). by right.
Qed.

End Shown.
