(* ===== verification/ChangeRequestsLimits.v ===== *)
(** The cache and the badges on concrete runs: the witnesses, a race the cache is
    written for, and where a badge is missing although its answer is there. *)
From S2P Require Import Prelude Json Text Entities View RegistryApi Journal Samples SourceControl SourceLimits ChangeRequests ChangeRequestsSafety BadgeState.

#[local] Existing Instance millis_chrono.
#[local] Existing Instance millis_instants.
#[local] Existing Instance string_config.
#[local] Existing Instance sample_json.
#[local] Existing Instance sample_gh.

(** Any answer is possible. *)
#[local] Instance any_lookup : CheckoutChangeRequestLookup :=
  {| may_inspect _ _ := True; may_answer _ _ := True |}.

Definition cr_play (ks : list CrStep) : option CheckoutChangeRequests := cr_run timing_default "d" ks (service_new 0).
Definition cr_sample (ks : list CrStep) : CheckoutChangeRequests := default (service_new 0) (cr_play ks).
Definition plays (ks : list CrStep) : bool := match cr_play ks with Some _ => true | None => false end.

Lemma step_allowed k s s' : cr_step timing_default "d" k s = Some s' -> allowed s k.
Proof.
  destruct k; cbn [cr_step allowed]; try done.
  - destruct answer; [|done]. destruct (sv_subs s !! i) as [u|]; [|done]. intros _. by exists u.
  - destruct answer; [|done]. destruct (sv_subs s !! i) as [u|]; [|done]. cbn. destruct (su_phase u) eqn:E; try done.
    intros _. by exists u, source, entry.
Qed.

Lemma run_reaches ks s s' : cr_run timing_default "d" ks s = Some s' -> rtc (cr_move timing_default "d") s s'.
Proof.
  revert s. induction ks as [|k ks IH]; intros s; cbn [cr_run]; [by intros [= ->]|].
  destruct (cr_step _ _ k s) as [s1|] eqn:E; [|done]. intros H. eapply rtc_l; [|by apply IH].
  exists k. split; [by eapply step_allowed|done].
Qed.

Lemma cr_run_app ks ks' s :
  cr_run timing_default "d" (ks ++ ks') s = s1 ← cr_run timing_default "d" ks s; cr_run timing_default "d" ks' s1.
Proof.
  revert s. induction ks as [|k ks IH]; intros s; [done|]. cbn. destruct (cr_step _ _ k s); [apply IH|done].
Qed.

Lemma sample_reached ks : plays ks = true -> rtc (cr_move timing_default "d") (service_new 0) (cr_sample ks).
Proof.
  unfold plays, cr_sample. destruct (cr_play ks) as [s|] eqn:E; [|done]. intros _. by eapply run_reaches.
Qed.

Lemma sample_more ks ks' :
  plays (ks ++ ks') = true -> cr_run timing_default "d" ks' (cr_sample ks) = Some (cr_sample (ks ++ ks')).
Proof.
  unfold plays, cr_sample, cr_play. rewrite cr_run_app.
  destruct (cr_run _ _ ks _) as [s|]; [|done]. cbn. by destruct (cr_run _ _ ks' s).
Qed.

Lemma one_step k s s' :
  cr_run timing_default "d" [k] s = Some s' -> exists s1, cr_step timing_default "d" k s = Some s1 /\ s1 = s'.
Proof. cbn. destruct (cr_step _ _ k s) as [s1|]; [|done]. intros [= ->]. eauto. Qed.

(** Subscription [i] asks about entry [e]. *)
Definition asks_b (i e : nat) (s : CheckoutChangeRequests) : bool :=
  match sv_subs s !! i with Some u => asking u e | None => false end.

Lemma asks_b_spec i e s :
  asks_b i e s = true -> exists u source, sv_subs s !! i = Some u /\ su_phase u = Asking source e.
Proof.
  unfold asks_b, asking. destruct (sv_subs s !! i) as [u|]; [|done]. destruct (su_phase u) eqn:E; try done.
  intros ->%Nat.eqb_eq. eauto.
Qed.

Definition heap_has (e : nat) (s : CheckoutChangeRequests) : bool := bool_decide (e ∈ dom (sv_heap s)).

Lemma heap_has_spec e s : heap_has e s = true -> exists c, sv_heap s !! e = Some c.
Proof. unfold heap_has. intros H%bool_decide_eq_true%elem_of_dom. exact H. Qed.

Definition feature : CheckoutSourceContext := sample_source "feature".
Definition to_question (i : nat) : list CrStep := [KPoll i; KInspected i (inl feature); KEntry i; KLock i].
Definition a_pull : ChangeRequestSummary :=
  mk_summary "github" 94 "Fix" "https://github.com/acme/postillion/pull/1" CrsOpen "main" "feature".

Definition first_question : list CrStep := KWatch 0 "/co" "id" :: to_question 0.
Definition first_answer : list CrStep := [KAnswered 0 7 (inl (Some a_pull))].
(** Told at once, polled again, it sleeps fifteen seconds at a time. *)
Definition later : list CrStep := to_question 0 ++ [KTick 120000; KWake 0] ++ to_question 0.

Lemma questions_spaced_witness :
  sv_now (cr_sample first_question) + 120000 <= sv_now (cr_sample ((first_question ++ first_answer) ++ later)).
Proof.
  destruct (asks_b_spec 0 0 (cr_sample first_question)) as (u & source & Hi & Hp); [vm_compute; reflexivity|].
  destruct (asks_b_spec 0 0 (cr_sample ((first_question ++ first_answer) ++ later))) as (v & source' & Hj & Hv);
    [vm_compute; reflexivity|].
  destruct (heap_has_spec 0 (cr_sample first_question)) as [c Hc]; [vm_compute; reflexivity|].
  assert (cr_run timing_default "d" first_answer (cr_sample first_question) =
          Some (cr_sample (first_question ++ first_answer))) as Hr by (apply sample_more; vm_compute; reflexivity).
  destruct (one_step _ _ _ Hr) as (s1 & Hs & Hs1).
  apply (questions_spaced timing_default "d" 0 (cr_sample first_question) 0 u source 0 c 7 (inl (Some a_pull)) s1
           (cr_sample ((first_question ++ first_answer) ++ later)) 0 v source'); try assumption.
  - apply sample_reached. vm_compute. reflexivity.
  - by eapply step_allowed.
  - rewrite Hs1. eapply run_reaches. apply sample_more. vm_compute. reflexivity.
Defined.

(** *** Leases *)

(** Two counts reach nothing before either takes the lock: the first of them
    evicts, a new watcher caches a new entry, and the second leaves it alone
    because it is not its own. *)
Definition race : list CrStep :=
  [KWatch 0 "/a" "id"; KPoll 0; KInspected 0 (inl feature); KDropStream 0; KDecrement 0;
   KWatch 1 "/a" "id"; KPoll 1; KInspected 1 (inl feature); KDropStream 1; KDecrement 0;
   KEvict 0; KWatch 2 "/a" "id"; KPoll 2; KInspected 2 (inl feature); KEvict 0; KEntry 2].

Definition wants_b (i e : nat) (s : CheckoutChangeRequests) : bool :=
  match sv_subs s !! i with
  | Some u => match su_phase u with Wanting _ e' => (e' =? e)%nat | _ => false end
  | None => false
  end.

Example late_evict_spares_new_entry :
  (plays race && wants_b 2 1 (cr_sample race) && bool_decide (size (sv_entries (cr_sample race)) = 1%nat))%bool = true.
Proof. vm_compute. reflexivity. Qed.

Definition cached_b (k : ChangeRequestCacheKey) (s : CheckoutChangeRequests) : bool :=
  bool_decide (is_Some (sv_entries s !! k)).

Lemma leases_keep_entries_witness :
  exists i u e, sv_subs (cr_sample race) !! i = Some u /\ su_lease u = Some (cache_key "id" feature, e).
Proof.
  destruct (leases_keep_entries timing_default "d" 0 (cr_sample race)) as (_ & _ & H).
  - apply sample_reached. vm_compute. reflexivity.
  - apply H.
    + apply nil_length_inv. vm_compute. reflexivity.
    + apply nil_length_inv. vm_compute. reflexivity.
    + apply (bool_decide_unpack _). vm_compute. exact I.
Defined.

(** A stream that is dropped while it asks gives the lock back and no answer is
    counted: the next one asks again at once. *)
Definition abandoned_question : list CrStep :=
  first_question ++ [KWatch 1 "/co" "id"; KPoll 1; KInspected 1 (inl feature); KEntry 1; KDropStream 0; KLock 1].

Example dropped_question_is_repeated :
  (plays abandoned_question && asks_b 1 0 (cr_sample abandoned_question) && (sv_now (cr_sample abandoned_question) =? 0))%bool = true.
Proof. vm_compute. reflexivity. Qed.

(** *** Badges *)

Definition badge_chat (cwd branch checkout : string) : Chat :=
  mk_chat "c" "d" None false (Some cwd) (Some branch) (Some checkout) None None None 0 None None None None None.

Definition told_status : CheckoutChangeRequestStatus := mk_status "id" "d" "/co" "feature" (Some a_pull) 7.

(** What git says of the checkout. *)
Definition git_answers : list (ProcessOutput + ProcessRunError) :=
  [says "/co"; says "feature"; says "origin/feature"; says "origin"; says "git@github.com:acme/postillion.git"; fails ""].

Example feature_inspected : inspect script "/co" git_answers = (inl feature, []).
Proof. vm_compute. reflexivity. Qed.

Example feature_answered : resolve_github_source script feature branch_answers = (inl (Some a_pull), []).
Proof. vm_compute. reflexivity. Qed.

Definition cwd_of (i : nat) (s : CheckoutChangeRequests) : option string := su_cwd <$> sv_subs s !! i.
Definition asked_source (i : nat) (s : CheckoutChangeRequests) : option CheckoutSourceContext :=
  u ← sv_subs s !! i; match su_phase u with Asking source _ => Some source | _ => None end.
Definition fields (x : CheckoutChangeRequestStatus)
    : string * string * string * string * option ChangeRequestSummary * Z :=
  (st_checkout_id x, st_device_id x, st_cwd x, st_branch x, st_change_request x, st_updated_at x).
Definition received (i : nat) (s : CheckoutChangeRequests) :=
  match sv_subs s !! i with Some u => fields <$> su_received u | None => [] end.

Lemma cwd_of_spec i s cwd : cwd_of i s = Some cwd -> exists u, sv_subs s !! i = Some u /\ su_cwd u = cwd.
Proof. unfold cwd_of. destruct (sv_subs s !! i) as [u|]; [|done]. intros [= <-]. eauto. Qed.

Lemma asked_source_spec i s source :
  asked_source i s = Some source -> exists u e, sv_subs s !! i = Some u /\ su_phase u = Asking source e.
Proof.
  unfold asked_source. destruct (sv_subs s !! i) as [u|]; [|done]. cbn. destruct (su_phase u) eqn:E; try done.
  intros [= ->]. eauto.
Qed.

Lemma received_spec i s x : received i s = [fields x] -> exists u, sv_subs s !! i = Some u /\ x ∈ su_received u.
Proof.
  unfold received. destruct (sv_subs s !! i) as [u|]; [|done]. intros H. exists u. split; [done|].
  destruct (su_received u) as [|y [|z l]]; try done. apply list_elem_of_singleton.
  destruct x, y. cbn in H. unfold fields in H. cbn in H. by injection H as -> -> -> -> -> ->.
Qed.

(** A step of a sample that the lookup at hand allows. *)
Lemma sample_step (Lk : CheckoutChangeRequestLookup) ks k :
  plays (ks ++ [k]) = true -> allowed (Lk := Lk) (cr_sample ks) k ->
  rtc (cr_move (Lk := Lk) timing_default "d") (service_new 0) (cr_sample ks) ->
  rtc (cr_move (Lk := Lk) timing_default "d") (service_new 0) (cr_sample (ks ++ [k])).
Proof.
  intros Hp Ha Hr. eapply rtc_r; [exact Hr|]. exists k. split; [done|].
  destruct (one_step k _ _ (sample_more ks [k] Hp)) as (s1 & Hs & <-). exact Hs.
Qed.

Lemma told_by_script : told script told_status.
Proof.
  set (Lk := resolver_lookup script). set (ks := first_question ++ first_answer).
  assert (rtc (cr_move (Lk := Lk) timing_default "d") (service_new 0) (cr_sample ks)) as Hr.
  { change ks with (((((([] ++ [KWatch 0 "/co" "id"]) ++ [KPoll 0]) ++ [KInspected 0 (inl feature)]) ++ [KEntry 0]) ++
                      [KLock 0]) ++ first_answer).
    apply sample_step; [vm_compute; reflexivity| |].
    { destruct (asked_source_spec 0 (cr_sample first_question) feature) as (u & e & Hi & Hp); [vm_compute; reflexivity|].
      exists u, feature, e. split; [exact Hi|]. split; [exact Hp|]. exists branch_answers, []. exact feature_answered. }
    apply sample_step; [vm_compute; reflexivity|exact I|].
    apply sample_step; [vm_compute; reflexivity|exact I|].
    apply sample_step; [vm_compute; reflexivity| |].
    { destruct (cwd_of_spec 0 (cr_sample [KWatch 0 "/co" "id"; KPoll 0]) "/co") as (u & Hi & Hc); [vm_compute; reflexivity|].
      exists u. split; [exact Hi|]. rewrite Hc. exists git_answers, []. exact feature_inspected. }
    apply sample_step; [vm_compute; reflexivity|exact I|].
    apply sample_step; [vm_compute; reflexivity|exact I|]. apply rtc_refl. }
  destruct (received_spec 0 (cr_sample ks) told_status) as (u & Hi & Hx); [vm_compute; reflexivity|].
  exists timing_default, "d", 0, (cr_sample ks), 0%nat, u. split; [exact Hr|]. split; [exact Hi|exact Hx].
Qed.

Definition badge_steps (cwd : string) : list WatchStep :=
  [WAttach; WChats [badge_chat cwd "feature " "id"]; WSnapshot (mk_watch_key "d" cwd) told_status].

Definition snapshots_of (w : Watches) : list CheckoutChangeRequestStatus :=
  (map_to_list (cl_snapshots (wa_change_requests w))).*2.


(** ** Limits *)

Definition shows (ks : list WatchStep) (chat : Chat) : option N :=
  let w := watch_run ks watches_new in sm_number <$> badge w (snapshots_of w) chat.

Example badge_shown : shows (badge_steps "/co") (badge_chat "/co" "feature " "id") = Some 94%N.
Proof. vm_compute. reflexivity. Qed.

(** A chat that works in a subdirectory of its checkout never has a badge: the
    status carries the root, and the directories are compared even when both
    sides name the same checkout. *)
Example subdirectory_hides_badge : shows (badge_steps "/co/sub") (badge_chat "/co/sub" "feature " "id") = None.
Proof. vm_compute. reflexivity. Qed.

(** A device refuses the method and its next word is a newer version: the refusal
    is forgotten before the ended task is, so the checkout counts as watched
    and is never watched again. *)
Definition old_device (version : string) : Device := mk_device "d" "D" "linux" None None (Some version).

Definition upgrade : list WatchStep :=
  [WAttach; WDevices [old_device "1"]; WChats [badge_chat "/co" "feature" "id"];
   WUnknownMethod (mk_watch_key "d" "/co"); WDevices [old_device "2"]].

Definition ended_but_wanted (w : Watches) : bool :=
  bool_decide (mk_watch_key "d" "/co" ∈ wanted w) && bool_decide (wa_tasks w !! mk_watch_key "d" "/co" = Some Over).

Example upgrade_keeps_ended_watch :
  ended_but_wanted (watch_run (upgrade ++ [WChats [badge_chat "/co" "feature" "id"]; WDevices [old_device "3"]]) watches_new)
    = true.
Proof. vm_compute. reflexivity. Qed.

(** With a frame in between the watch comes back. *)
Example upgrade_after_a_frame :
  ended_but_wanted (watch_run ([WAttach; WDevices [old_device "1"]; WChats [badge_chat "/co" "feature" "id"];
    WUnknownMethod (mk_watch_key "d" "/co"); WSpaces []; WDevices [old_device "2"]]) watches_new) = false.
Proof. vm_compute. reflexivity. Qed.
