(* ===== verification/Relay.v ===== *)
(** The device relay: crates/server/src/device_room.rs and
    crates/rpc/src/device_room.rs. The byte-frame codec, the server's rooms and
    routing, the host's virtual connections, the client link and the cache of
    peer links with its backoff. A text is its bytes; the JSON of a frame header
    and of a control payload, and the lossy decoding of invalid UTF-8, are
    parameters. *)
From S2P Require Import Prelude Text Journal View Samples.

(** ** Frames *)

Definition RELAY_KIND : string := " relay".
Definition NUDGE_KIND : string := "nudge".
Definition RPC_KIND : string := "rpc".
Definition ECHO_KIND : string := "echo".
Definition HOST_OFFLINE : string := "host_offline".
Definition HOST_CLOSED : string := "host_closed".

Record DeviceFrameHeader := mk_header {
  fh_s : string;
  fh_k : string;
  fh_to : option string;
  fh_from : option string;
}.

#[export] Instance DeviceFrameHeader_eq_dec : EqDecision DeviceFrameHeader.
Proof. solve_decision. Defined.

Definition header_new (s k : string) : DeviceFrameHeader := mk_header s k None None.
Definition with_to (conn_id : string) (h : DeviceFrameHeader) : DeviceFrameHeader :=
  mk_header (fh_s h) (fh_k h) (Some conn_id) (fh_from h).

(** serde_json on the header and the control payloads, and
    [String::from_utf8_lossy] on bytes that are not UTF-8. *)
Class FrameCodec := {
  header_to_vec : DeviceFrameHeader -> string;
  header_from_slice : string -> option DeviceFrameHeader;
  relay_error : string -> string;
  relay_error_code : string -> option string;
  nudge_chat : string -> option string;
  replace_invalid : string -> string;
}.

Class FrameCodecLaws (F : FrameCodec) := {
  header_roundtrip h : header_from_slice (header_to_vec h) = Some h;
  relay_error_roundtrip code : relay_error_code (relay_error code) = Some code;
}.

(** The groups of seven bits of a length, lowest first; ten are enough for 64
    bits. *)
Fixpoint uleb_bytes (fuel : nat) (n : N) : string :=
  match fuel with
  | O => ""
  | S fuel =>
      let low := N.land n 127 in
      let rest := N.shiftr n 7 in
      if (rest =? 0)%N then String (Ascii.ascii_of_N low) ""
      else String (Ascii.ascii_of_N (N.lor low 128)) (uleb_bytes fuel rest)
  end.

(** The reading loop: [None] is truncated, or a sixth group. *)
Fixpoint uleb_read (s : string) (len shift : N) : option (N * string) :=
  match s with
  | EmptyString => None
  | String a s =>
      if (32 <=? shift)%N then None
      else
        let byte := Ascii.N_of_ascii a in
        let len := N.lor len (N.shiftl (N.land byte 127) shift) in
        if (N.land byte 128 =? 0)%N then Some (len, s) else uleb_read s len (shift + 7)
  end.

(** [bytes.get(..n)] and the rest. *)
Fixpoint split_str (n : nat) (s : string) : option (string * string) :=
  match n, s with
  | O, _ => Some ("", s)
  | S n, String a s => '(x, y) ← split_str n s; Some (String a x, y)
  | S _, EmptyString => None
  end.

(** A header longer than any string that fits is answered by [split_str] alone;
    the length is compared before it is counted out. *)
Definition take_header (n : N) (s : string) : option (string * string) :=
  if (N.of_nat (String.length s) <? n)%N then None else split_str (N.to_nat n) s.

Section Codec.
Context {F : FrameCodec}.

Definition encode_device_frame (h : DeviceFrameHeader) (payload : string) : string :=
  let json := header_to_vec h in
  (uleb_bytes 10 (N.of_nat (String.length json)) ++ json ++ payload)%string.

Definition decode_device_frame (bytes : string) : option (DeviceFrameHeader * string) :=
  '(len, rest) ← uleb_read bytes 0 0;
  '(json, payload) ← take_header len rest;
  h ← header_from_slice json;
  Some (h, payload).

(** The server's control frame. *)
Definition control (stream code : string) : string :=
  encode_device_frame (header_new stream RELAY_KIND) (relay_error code).

(** ** The server's rooms *)

Inductive Role := RoleHost | RoleClient.

Definition role_parse (raw : option string) : Role :=
  match raw with Some r => if String.eqb r "host" then RoleHost else RoleClient | None => RoleClient end.

Definition OUTBOX : nat := 64.

(** A served connection and its outbox. *)
Record Conn := mk_conn { cn_device : string; cn_role : Role; cn_conn_id : string; cn_queue : list string }.

Record DeviceRoom := mk_room { dr_host : option nat; dr_clients : gmap string nat }.

Definition room_default : DeviceRoom := mk_room None ∅.

(** The hub, and the connections that are served, by channel. *)
Record Relay := mk_relay { rl_rooms : gmap string DeviceRoom; rl_conns : gmap nat Conn }.

Definition PING : string := "ping".
Definition PONG : string := "pong".
Definition is_ping (text : string) : bool := String.eqb text PING.

(** A text message: the keepalive is answered, anything else is ignored. *)
Definition serve_text (text : string) : option string := if is_ping text then Some PONG else None.

(** [send]: into the outbox of a live connection. A full outbox holds the sender
    back, which is not modelled. *)
Definition send_to (c : nat) (frame : string) (st : Relay) : Relay :=
  mk_relay (rl_rooms st)
    (alter (fun n => mk_conn (cn_device n) (cn_role n) (cn_conn_id n) (cn_queue n ++ [frame])) c (rl_conns st)).

(** [try_send]: nothing when the outbox is full. *)
Definition try_send_to (c : nat) (frame : string) (st : Relay) : Relay :=
  match rl_conns st !! c with
  | Some n => if (length (cn_queue n) <? OUTBOX)%nat then send_to c frame st else st
  | None => st
  end.

Definition room_of (device : string) (st : Relay) : DeviceRoom := default room_default (rl_rooms st !! device).
Definition set_room (device : string) (r : DeviceRoom) (st : Relay) : Relay :=
  mk_relay (<[device := r]> (rl_rooms st)) (rl_conns st).

Definition join_host (device : string) (c : nat) (st : Relay) : option nat * Relay :=
  let r := room_of device st in (dr_host r, set_room device (mk_room (Some c) (dr_clients r)) st).

Definition join_client (device conn_id : string) (c : nat) (st : Relay) : Relay :=
  let r := room_of device st in set_room device (mk_room (dr_host r) (<[conn_id := c]> (dr_clients r))) st.

Definition host_outbox (device : string) (st : Relay) : option nat := rl_rooms st !! device ≫= dr_host.
Definition client_outbox (device conn_id : string) (st : Relay) : option nat :=
  r ← rl_rooms st !! device; dr_clients r !! conn_id.
Definition client_outboxes (device : string) (st : Relay) : list nat :=
  match rl_rooms st !! device with Some r => (map_to_list (dr_clients r)).*2 | None => [] end.

(** A room with nobody in it goes. *)
Definition put_room (device : string) (r : DeviceRoom) (st : Relay) : Relay :=
  match dr_host r with
  | None => if decide (dr_clients r = ∅) then mk_relay (delete device (rl_rooms st)) (rl_conns st)
            else set_room device r st
  | Some _ => set_room device r st
  end.

Definition leave_host (device : string) (c : nat) (st : Relay) : Relay :=
  match rl_rooms st !! device with
  | Some r => put_room device (if decide (dr_host r = Some c) then mk_room None (dr_clients r) else r) st
  | None => st
  end.

Definition leave_client (device conn_id : string) (st : Relay) : Relay :=
  match rl_rooms st !! device with
  | Some r => put_room device (mk_room (dr_host r) (delete conn_id (dr_clients r))) st
  | None => st
  end.

Definition open_rooms (st : Relay) : nat := size (rl_rooms st).

(** [serve], from its start: the outbox is made and registered, and a superseded
    host told. *)
Definition serve_start (c : nat) (device : string) (role : Role) (conn_id : string) (st : Relay) : Relay :=
  let st := mk_relay (rl_rooms st) (<[c := mk_conn device role conn_id []]> (rl_conns st)) in
  match role with
  | RoleHost =>
      let '(old, st) := join_host device c st in
      match old with Some o => try_send_to o (control RELAY_KIND HOST_CLOSED) st | None => st end
  | RoleClient => join_client device conn_id c st
  end.

(** A binary message of a connection. *)
Definition serve_binary (c : nat) (bytes : string) (st : Relay) : Relay :=
  match rl_conns st !! c, decode_device_frame bytes with
  | Some n, Some (h, payload) =>
      match cn_role n with
      | RoleClient =>
          match host_outbox (cn_device n) st with
          | Some host =>
              send_to host (encode_device_frame (mk_header (fh_s h) (fh_k h) None (Some (cn_conn_id n))) payload) st
          | None => send_to c (control (fh_s h) HOST_OFFLINE) st
          end
      | RoleHost =>
          match fh_to h with
          | Some target =>
              match client_outbox (cn_device n) target st with
              | Some client =>
                  send_to client (encode_device_frame (mk_header (fh_s h) (fh_k h) None None) payload) st
              | None => st
              end
          | None => st
          end
      end
  | _, _ => st
  end.

(** The outbox's head goes out on the socket. *)
Definition serve_out (c : nat) (st : Relay) : option (string * Relay) :=
  n ← rl_conns st !! c;
  match cn_queue n with
  | frame :: rest =>
      Some (frame, mk_relay (rl_rooms st) (<[c := mk_conn (cn_device n) (cn_role n) (cn_conn_id n) rest]> (rl_conns st)))
  | [] => None
  end.

(** The end of [serve]: the connection unregisters and its outbox closes. *)
Definition serve_end (c : nat) (st : Relay) : Relay :=
  match rl_conns st !! c with
  | Some n =>
      let st :=
        match cn_role n with
        | RoleHost =>
            let st := leave_host (cn_device n) c st in
            foldl (fun st k => try_send_to k (control RELAY_KIND HOST_CLOSED) st) st (client_outboxes (cn_device n) st)
        | RoleClient => leave_client (cn_device n) (cn_conn_id n) st
        end in
      mk_relay (rl_rooms st) (delete c (rl_conns st))
  | None => st
  end.

(** ** The host's end

    One virtual connection per client connection id; what a frame makes the host
    do. *)
Inductive HostOut :=
  | OpenConn (conn_id : string)
  | Feed (conn_id text : string)
  | Reply (frame : string)
  | Nudge (chat_id : string).

Definition from_utf8_lossy (bytes : string) : string := if utf8_valid bytes then bytes else replace_invalid bytes.

(** [make_virtual_conn]'s pump: a reply of the connection, addressed. *)
Definition virtual_reply (conn_id text : string) : string :=
  encode_device_frame (with_to conn_id (header_new RPC_KIND RPC_KIND)) text.

Definition handle_host_frame (conns : gset string) (bytes : string) : gset string * list HostOut :=
  match decode_device_frame bytes with
  | None => (conns, [])
  | Some (h, payload) =>
      if String.eqb (fh_k h) RELAY_KIND then
        match (match fh_from h with Some c => Some c | None => fh_to h end) with
        | Some conn_id => (conns ∖ {[conn_id]}, [])
        | None => (conns, [])
        end
      else if String.eqb (fh_k h) ECHO_KIND then
        match fh_from h with
        | Some from => (conns, [Reply (encode_device_frame (with_to from (header_new ECHO_KIND ECHO_KIND)) payload)])
        | None => (conns, [])
        end
      else if String.eqb (fh_k h) NUDGE_KIND then
        (conns, match nudge_chat payload with Some chat => [Nudge chat] | None => [] end)
      else if String.eqb (fh_k h) RPC_KIND then
        match fh_from h with
        | Some from =>
            ({[from]} ∪ conns,
             (if decide (from ∈ conns) then [] else [OpenConn from]) ++ [Feed from (from_utf8_lossy payload)])
        | None => (conns, [])
        end
      else (conns, [])
  end.

(** ** The client link *)

Definition PING_INTERVAL : Z := 10000.
Definition SILENCE_LEASE : Z := 25000.
Definition ECHO_DEADLINE : Z := 20000.

Record Link := mk_link {
  lk_last_rx : Z; lk_last_echo : Z; lk_echo_seen : bool; lk_closed : option string }.

Definition link_start (now : Z) : Link := mk_link now now false None.

(** The frames the link writes: at its start, for a text of the client, and at a
    keepalive tick. *)
Definition echo_frame : string := encode_device_frame (header_new ECHO_KIND ECHO_KIND) "".
Definition link_send (text : string) : string := encode_device_frame (header_new RPC_KIND RPC_KIND) text.

(** A binary message: the new state and the text it hands to the client. *)
Definition link_binary (now : Z) (bytes : string) (l : Link) : Link * option string :=
  let l := mk_link now (lk_last_echo l) (lk_echo_seen l) (lk_closed l) in
  match decode_device_frame bytes with
  | None => (l, None)
  | Some (h, payload) =>
      if String.eqb (fh_k h) RELAY_KIND then
        (mk_link now (lk_last_echo l) (lk_echo_seen l) (Some (default "relay error" (relay_error_code payload))), None)
      else if String.eqb (fh_k h) RPC_KIND then
        (mk_link now now (lk_echo_seen l) (lk_closed l), Some (from_utf8_lossy payload))
      else if String.eqb (fh_k h) ECHO_KIND then (mk_link now now true (lk_closed l), None)
      else (l, None)
  end.

(** A text or control message is proof of life of the near leg only. *)
Definition link_other (now : Z) (l : Link) : Link :=
  mk_link now (lk_last_echo l) (lk_echo_seen l) (lk_closed l).

(** The timers of the pump. *)
Definition link_timer (now : Z) (l : Link) : Link :=
  if lk_last_rx l + SILENCE_LEASE <=? now then
    mk_link (lk_last_rx l) (lk_last_echo l) (lk_echo_seen l) (Some "silent past lease")
  else if lk_echo_seen l && (lk_last_echo l + ECHO_DEADLINE <=? now) then
    mk_link (lk_last_rx l) (lk_last_echo l) (lk_echo_seen l) (Some "host echo silent")
  else l.
End Codec.

(** [device_room_ws_url]: the first [http] becomes [ws]. *)
Fixpoint replacen_first (pat by_ s : string) : string :=
  match strip_prefix pat s with
  | Some rest => (by_ ++ rest)%string
  | None => match s with EmptyString => "" | String a s => String a (replacen_first pat by_ s) end
  end.

Definition device_room_ws_url (edge_url device_id role : string) (conn_id : option string) (token : string)
    : string :=
  let ws_base := trim_end_chars ["/"] (replacen_first "http" "ws" edge_url) in
  let conn := match conn_id with Some c => ("&connId=" ++ c)%string | None => "" end in
  (ws_base ++ "/device/" ++ device_id ++ "/ws?role=" ++ role ++ conn ++ "&token=" ++ token)%string.

Example url_ex : device_room_ws_url "https://e.x/" "d1" "client" (Some "c9") "t" =
  "wss://e.x/device/d1/ws?role=client&connId=c9&token=t".
Proof. reflexivity. Qed.

(** The host supervisor's delay after a session. *)
Definition HOST_REJOIN_MIN : Z := 250.
Definition HOST_HEALTHY_SESSION : Z := 30000.

Inductive SessionOutcome := Ended | SessionFailed (lasted : Z) | SignedOut.

Definition host_delay (retry delay : Z) (o : SessionOutcome) : Z :=
  match o with
  | Ended => HOST_REJOIN_MIN
  | SessionFailed lasted => if HOST_HEALTHY_SESSION <=? lasted then HOST_REJOIN_MIN else Z.min (delay * 2) retry
  | SignedOut => retry
  end.

(** ** The cache of peer links

    A link is its identity; [closed] holds the links whose transport dropped. *)
Definition DIAL_ATTEMPTS : nat := 3.
Definition FAILURE_DECAY : Z := 600000.

Record DialState := mk_dial { ds_failures : N; ds_last_failure : option Z; ds_cooldown_until : option Z }.

Definition dial_default : DialState := mk_dial 0 None None.

Record LinkCache := mk_cache {
  lc_revoked : bool;
  lc_links : gmap string nat;
  lc_dial : gmap string DialState;
}.

Record LinkCacheConfig := mk_cache_config { cooldown_base : Z; cooldown_max : Z }.

Inductive PeerLiveness := Live | Dark | UnknownPeer.

#[global] Instance peer_liveness_eq_dec : EqDecision PeerLiveness := ltac:(solve_decision).

Definition cached (closed : gset nat) (device : string) (k : LinkCache) : option nat * LinkCache :=
  match lc_links k !! device with
  | Some l =>
      if decide (l ∈ closed) then (None, mk_cache (lc_revoked k) (delete device (lc_links k)) (lc_dial k))
      else (Some l, k)
  | None => (None, k)
  end.

Definition cooling (device : string) (now : Z) (k : LinkCache) : bool :=
  match lc_dial k !! device ≫= ds_cooldown_until with Some until => now <? until | None => false end.

Definition backoff (cfg : LinkCacheConfig) (failures : N) : Z :=
  Z.min (cooldown_base cfg * 2 ^ Z.of_N (N.min (failures - 1) 16)) (cooldown_max cfg).

Definition fail_dial (cfg : LinkCacheConfig) (now : Z) (d : DialState) : DialState :=
  let stale := match ds_last_failure d with Some at_ => FAILURE_DECAY <? now - at_ | None => false end in
  let failures := ((if stale then 0 else ds_failures d) + 1)%N in
  mk_dial failures (Some now) (Some (now + backoff cfg failures)).

Definition note_failure (cfg : LinkCacheConfig) (device : string) (now : Z) (k : LinkCache) : LinkCache :=
  mk_cache (lc_revoked k) (lc_links k)
    (<[device := fail_dial cfg now (default dial_default (lc_dial k !! device))]> (lc_dial k)).

Inductive ClientResult := Linked (l : nat) | NotSignedIn | DeviceDark | CoolingDown | DialFailed.

(** The attempts of one call: the first that connects, and how many were made. *)
Fixpoint dial_loop (outcomes : list (option nat)) : option nat * nat :=
  match outcomes with
  | Some l :: _ => (Some l, 1%nat)
  | None :: rest => let '(r, n) := dial_loop rest in (r, S n)
  | [] => (None, O)
  end.

(** [client]: [outcomes] are what its dials would give, [revoked_after] the flag
    read when a dial returns, [now] and [later] the readings of the cooldown
    check and of the failure note. A call is serialised with the others to its
    device by the dial lock. *)
Definition client (cfg : LinkCacheConfig) (liveness : option PeerLiveness) (closed : gset nat)
    (outcomes : list (option nat)) (revoked_after : bool) (now later : Z) (device : string) (k : LinkCache)
    : ClientResult * nat * LinkCache :=
  if lc_revoked k then (NotSignedIn, O, k)
  else
    match cached closed device k with
    | (Some l, k) => (Linked l, O, k)
    | (None, k) =>
        match liveness with
        | Some Dark => (DeviceDark, O, k)
        | _ =>
            if cooling device now k then (CoolingDown, O, k)
            else
              match dial_loop (take DIAL_ATTEMPTS outcomes) with
              | (Some l, n) =>
                  let k := mk_cache (lc_revoked k) (lc_links k) (delete device (lc_dial k)) in
                  if revoked_after then (NotSignedIn, n, k)
                  else (Linked l, n, mk_cache (lc_revoked k) (<[device := l]> (lc_links k)) (lc_dial k))
              | (None, n) => (DialFailed, n, note_failure cfg device later k)
              end
        end
    end.

Definition invalidate (device : string) (k : LinkCache) : LinkCache :=
  mk_cache (lc_revoked k) (delete device (lc_links k)) (lc_dial k).
Definition disconnect_all (k : LinkCache) : LinkCache := mk_cache true ∅ ∅.
Definition reset_cooldown (device : string) (k : LinkCache) : LinkCache :=
  mk_cache (lc_revoked k) (lc_links k) (delete device (lc_dial k)).

(** The watcher's events: a wake, the network back, new or removed credentials;
    and the evictor of one link. *)
Definition on_wake (k : LinkCache) : LinkCache := mk_cache (lc_revoked k) ∅ ∅.
Definition on_online (k : LinkCache) : LinkCache := mk_cache (lc_revoked k) (lc_links k) ∅.
Definition on_token (signed_out : bool) (k : LinkCache) : LinkCache :=
  mk_cache signed_out (if signed_out then ∅ else lc_links k) ∅.
Definition evict (device : string) (l : nat) (k : LinkCache) : LinkCache :=
  if decide (lc_links k !! device = Some l) then invalidate device k else k.

(** ** The codec's theorems *)

Lemma low_group n : (N.land n 127 < 128)%N.
Proof. change 127%N with (N.ones 7). rewrite N.land_ones. by apply N.mod_lt. Qed.

Lemma ascii_low n : (n < 256)%N -> Ascii.N_of_ascii (Ascii.ascii_of_N n) = n.
Proof. apply Ascii.N_ascii_embedding. Qed.

Lemma group_flag n : (n < 128)%N -> N.land (N.lor n 128) 127 = n /\ N.land (N.lor n 128) 128 = 128%N /\
  (N.lor n 128 < 256)%N /\ N.land n 127 = n /\ N.land n 128 = 0%N.
Proof.
  intros H. assert (N.land n 127 = n) as E
    by (change 127%N with (N.ones 7); rewrite N.land_ones; by apply N.mod_small).
  assert (N.land n 128 = 0%N) as E0.
  { apply N.bits_inj. intros i. rewrite N.land_spec, N.bits_0. change 128%N with (2 ^ 7)%N.
    rewrite N.pow2_bits_eqb. destruct (N.eqb_spec 7 i) as [<-|]; [|by rewrite andb_false_r].
    rewrite N.testbit_eqb. rewrite N.div_small by done. done. }
  split_and!; try done.
  - rewrite N.land_lor_distr_l, E. by rewrite N.lor_0_r.
  - rewrite N.land_lor_distr_l, E0. done.
  - assert (N.lor n 128 = n + 128)%N as ->; [|lia]. symmetry. apply N.add_nocarry_lxor in E0 as E1.
    rewrite E1. by apply N.lxor_lor.
Qed.

Lemma split_group n : n = N.lor (N.land n 127) (N.shiftl (N.shiftr n 7) 7).
Proof.
  apply N.bits_inj. intros i. rewrite N.lor_spec, N.land_spec. change 127%N with (N.ones 7).
  destruct (N.lt_ge_cases i 7) as [H|H].
  - rewrite N.ones_spec_low, N.shiftl_spec_low by done. by rewrite andb_true_r, orb_false_r.
  - rewrite N.ones_spec_high, N.shiftl_spec_high' by done. rewrite N.shiftr_spec'. rewrite andb_false_r. cbn.
    f_equal. lia.
Qed.

(** Groups read back, at any shift that leaves room. *)
Lemma uleb_roundtrip fuel n r len shift :
  (n < 2 ^ (7 * N.of_nat (S fuel)))%N -> (shift + 7 * N.of_nat fuel < 32)%N ->
  forall more, uleb_read (uleb_bytes (S fuel + more) n ++ r) len shift = Some (N.lor len (N.shiftl n shift), r).
Proof.
  revert n len shift. induction fuel as [|fuel IH]; intros n len shift Hn Hs more; cbn [Nat.add uleb_bytes];
    pose proof (group_flag _ (low_group n)) as (F1 & F2 & F3 & F4 & F5); pose proof (low_group n) as Hlow.
  - assert (N.shiftr n 7 = 0)%N as E by (rewrite N.shiftr_div_pow2; by apply N.div_small).
    rewrite E. cbn [N.eqb]. rewrite string_app_cons, string_app_nil_l. cbn [uleb_read].
    rewrite (proj2 (N.leb_gt _ _)) by lia. rewrite ascii_low by lia. rewrite F5, F4. cbn.
    pose proof (split_group n) as Hsp. rewrite E, N.shiftl_0_l, N.lor_0_r in Hsp. by rewrite <- Hsp.
  - destruct (N.eqb_spec (N.shiftr n 7) 0) as [E|Hne].
    + rewrite string_app_cons, string_app_nil_l. cbn [uleb_read].
      rewrite (proj2 (N.leb_gt _ _)) by lia. rewrite ascii_low by lia. rewrite F5, F4. cbn.
      pose proof (split_group n) as Hsp. rewrite E, N.shiftl_0_l, N.lor_0_r in Hsp. by rewrite <- Hsp.
    + rewrite string_app_cons. cbn [uleb_read]. rewrite (proj2 (N.leb_gt _ _)) by lia.
      rewrite ascii_low, F1, F2 by done. cbn [N.eqb].
      specialize (IH (N.shiftr n 7) (N.lor len (N.shiftl (N.land n 127) shift)) (shift + 7)%N).
      cbn [Nat.add uleb_bytes] in IH. rewrite IH; [| |lia].
      * f_equal. f_equal. rewrite <- N.lor_assoc. f_equal. rewrite (split_group n) at 3.
        rewrite N.shiftl_lor, N.shiftl_shiftl. f_equal. f_equal. lia.
      * rewrite N.shiftr_div_pow2. apply N.Div0.div_lt_upper_bound. rewrite <- N.pow_add_r.
        replace (7 + 7 * N.of_nat (S fuel))%N with (7 * N.of_nat (S (S fuel)))%N by lia. done.
Qed.

Lemma split_str_app s t : split_str (String.length s) (s ++ t) = Some (s, t).
Proof. induction s as [|a s IH]; [done|]. rewrite string_app_cons. cbn. by rewrite IH. Qed.

Section CodecTheorems.
Context {F : FrameCodec} {L : FrameCodecLaws F}.

(** A frame decodes to its header and payload, whatever the payload's bytes,
    as long as the header's JSON is shorter than the five groups of the length
    can say. *)
Theorem device_frame_roundtrip h payload :
  (N.of_nat (String.length (header_to_vec h)) < 2 ^ 35)%N ->
  decode_device_frame (encode_device_frame h payload) = Some (h, payload).
Proof.
  intros Hl. unfold decode_device_frame, encode_device_frame.
  rewrite (uleb_roundtrip 4 _ _ 0 0 Hl ltac:(lia) 5). cbn [mbind option_bind]. rewrite N.lor_0_l, N.shiftl_0_r.
  unfold take_header. rewrite string_length_app.
  rewrite (proj2 (N.ltb_ge _ _)) by lia. rewrite Nat2N.id, split_str_app. cbn [mbind option_bind].
  by rewrite header_roundtrip.
Qed.
End CodecTheorems.

(** ** The rooms' theorems *)

Abbreviation Ident := (string * Role * string)%type.
Definition ident (n : Conn) : Ident := (cn_device n, cn_role n, cn_conn_id n).
Definition idents (st : Relay) : gmap nat Ident := ident <$> rl_conns st.

(** What the rooms register is served, under its own device, role and id; and no
    room is empty. *)
Record room_ok (ids : gmap nat Ident) (device : string) (r : DeviceRoom) : Prop := {
  ro_host c : dr_host r = Some c -> exists id, ids !! c = Some (device, RoleHost, id);
  ro_clients id c : dr_clients r !! id = Some c -> ids !! c = Some (device, RoleClient, id);
}.

Definition populated (r : DeviceRoom) : Prop := dr_host r <> None \/ dr_clients r <> ∅.

Definition rooms_ok (st : Relay) : Prop :=
  forall device r, rl_rooms st !! device = Some r -> room_ok (idents st) device r /\ populated r.

Section Rooms.
Context {F : FrameCodec}.

Lemma send_to_idents c f st : idents (send_to c f st) = idents st.
Proof.
  unfold idents, send_to. cbn. apply map_eq. intros k. rewrite !lookup_fmap.
  destruct (decide (k = c)) as [->|Hne]; [|by rewrite lookup_alter_ne].
  rewrite lookup_alter_eq. by destruct (rl_conns st !! c).
Qed.

Lemma try_send_to_same c f st :
  idents (try_send_to c f st) = idents st /\ rl_rooms (try_send_to c f st) = rl_rooms st.
Proof.
  unfold try_send_to. destruct (rl_conns st !! c); [|done]. destruct (_ <? _)%nat; [|done].
  by rewrite send_to_idents.
Qed.

Lemma try_sends_same f l st :
  idents (foldl (fun st k => try_send_to k f st) st l) = idents st /\
  rl_rooms (foldl (fun st k => try_send_to k f st) st l) = rl_rooms st.
Proof.
  revert st. induction l as [|k l IH]; intros st; [done|]. cbn.
  destruct (IH (try_send_to k f st)) as [-> ->]. apply try_send_to_same.
Qed.

Lemma room_ok_default ids device : room_ok ids device room_default.
Proof. split; [done|]. intros id c H. cbn in H. by rewrite lookup_empty in H. Qed.

Lemma room_of_ok st device : rooms_ok st -> room_ok (idents st) device (room_of device st).
Proof.
  intros H. unfold room_of. destruct (rl_rooms st !! device) as [r|] eqn:E; [by apply H in E as [? _]|].
  apply room_ok_default.
Qed.

Lemma room_ok_fresh ids device r c i :
  ids !! c = None -> room_ok ids device r -> room_ok (<[c := i]> ids) device r.
Proof.
  intros Hc [H1 H2]. split.
  - intros k Hk. destruct (H1 k Hk) as [id E]. exists id. rewrite lookup_insert_ne; [done|]. intros ->; congruence.
  - intros id k Hk. rewrite lookup_insert_ne; [by apply H2|]. intros ->. apply H2 in Hk. congruence.
Qed.

Lemma set_room_ok st device r :
  rooms_ok st -> room_ok (idents st) device r -> populated r -> rooms_ok (set_room device r st).
Proof.
  intros H Hr Hp d r' E. cbn in E. destruct (decide (d = device)) as [->|Hne].
  - rewrite lookup_insert_eq in E. by injection E as <-.
  - rewrite lookup_insert_ne in E by done. by apply H.
Qed.

Lemma serve_start_ok c device role conn_id st :
  rl_conns st !! c = None -> rooms_ok st -> rooms_ok (serve_start c device role conn_id st).
Proof.
  intros Hc H. unfold serve_start. set (st1 := mk_relay _ _).
  assert (idents st1 = <[c := (device, role, conn_id)]> (idents st)) as Ei
    by (unfold idents; cbn; by rewrite fmap_insert).
  assert (idents st !! c = None) as Hc' by (unfold idents; by rewrite lookup_fmap, Hc).
  assert (rooms_ok st1) as H1.
  { intros d r E. destruct (H d r E) as [Hr Hp]. split; [|done]. rewrite Ei. by apply room_ok_fresh. }
  pose proof (room_of_ok st1 device H1) as Hr.
  assert (idents st1 !! c = Some (device, role, conn_id)) as Hme by (rewrite Ei; apply lookup_insert_eq).
  destruct role.
  - cbn [join_host]. set (st2 := set_room device _ st1).
    assert (rooms_ok st2) as H2.
    { apply set_room_ok; [done| |by left]. split; [|apply Hr]. cbn. intros k [= <-]. by exists conn_id. }
    destruct (dr_host (room_of device st1)) as [o|]; [|done].
    intros d r E. destruct (try_send_to_same o (control RELAY_KIND HOST_CLOSED) st2) as [E1 E2].
    rewrite E1. rewrite E2 in E. by apply H2.
  - apply set_room_ok; [done| |].
    + split; [apply Hr|]. cbn. intros id k Hk. destruct (decide (id = conn_id)) as [->|Hne].
      * rewrite lookup_insert_eq in Hk. injection Hk as <-. done.
      * rewrite lookup_insert_ne in Hk by done. by apply Hr.
    + right. cbn. apply insert_non_empty.
Qed.

Lemma put_room_ok st device r :
  rooms_ok st -> room_ok (idents st) device r -> rooms_ok (put_room device r st).
Proof.
  intros H Hr. unfold put_room. destruct (dr_host r) eqn:Eh; [apply set_room_ok; [done..|left; by rewrite Eh]|].
  destruct (decide (dr_clients r = ∅)); [|apply set_room_ok; [done..|by right]].
  intros d r' E. cbn in E. apply lookup_delete_Some in E as [_ E]. by apply H.
Qed.

Lemma put_room_lookup st device r d r' :
  rl_rooms (put_room device r st) !! d = Some r' -> d = device /\ r' = r \/ d <> device /\ rl_rooms st !! d = Some r'.
Proof.
  assert (rl_rooms (set_room device r st) !! d = Some r' -> d = device /\ r' = r \/ d <> device /\ rl_rooms st !! d = Some r') as Hs.
  { cbn. intros E. destruct (decide (d = device)) as [->|Hne].
    - rewrite lookup_insert_eq in E. injection E as <-. by left.
    - rewrite lookup_insert_ne in E by done. by right. }
  unfold put_room. destruct (dr_host r); [done|]. destruct (decide _); [|done].
  cbn. intros E. apply lookup_delete_Some in E as [? E]. by right.
Qed.

Lemma put_room_idents st device r : idents (put_room device r st) = idents st.
Proof. unfold put_room. destruct (dr_host r); [done|]. by destruct (decide _). Qed.

Lemma room_ok_delete ids device r c :
  room_ok ids device r -> dr_host r <> Some c -> (forall id, dr_clients r !! id <> Some c) ->
  room_ok (delete c ids) device r.
Proof.
  intros [H1 H2] Hh Hc. split.
  - intros k Hk. destruct (H1 k Hk) as [id E]. exists id. rewrite lookup_delete_ne; [done|]. by intros ->.
  - intros id k Hk. rewrite lookup_delete_ne; [by apply H2|]. intros ->. by apply (Hc id).
Qed.

(** After its end a connection is registered nowhere. *)
Lemma serve_end_ok c st : rooms_ok st -> rooms_ok (serve_end c st).
Proof.
  intros H. unfold serve_end. destruct (rl_conns st !! c) as [n|] eqn:Ec; [|done].
  assert (idents st !! c = Some (ident n)) as Hi by (unfold idents; by rewrite lookup_fmap, Ec).
  set (st1 := match cn_role n with RoleHost => _ | RoleClient => _ end).
  assert (rooms_ok st1 /\ idents st1 = idents st /\ (forall d r, rl_rooms st1 !! d = Some r ->
            dr_host r <> Some c /\ forall id, dr_clients r !! id <> Some c)) as (H1 & Ei & Hgone).
  { assert (forall d r, rl_rooms st !! d = Some r -> (dr_host r = Some c -> d = cn_device n /\ cn_role n = RoleHost) /\
              (forall id, dr_clients r !! id = Some c -> d = cn_device n /\ cn_role n = RoleClient /\ id = cn_conn_id n)) as Hreg.
    { intros d r E. destruct (H d r E) as [[Hh Hc] _]. split.
      - intros Hk. destruct (Hh c Hk) as [id E']. rewrite Hi in E'. unfold ident in E'. by injection E' as -> -> _.
      - intros id Hk. apply Hc in Hk. rewrite Hi in Hk. unfold ident in Hk. by injection Hk as -> -> ->. }
    unfold st1. destruct (cn_role n) eqn:Er.
    - set (st2 := leave_host (cn_device n) c st).
      assert (rooms_ok st2 /\ idents st2 = idents st /\ (forall d r, rl_rooms st2 !! d = Some r ->
            dr_host r <> Some c /\ forall id, dr_clients r !! id <> Some c)) as (H2 & Ei2 & Hg2).
      { unfold st2, leave_host. destruct (rl_rooms st !! cn_device n) as [r|] eqn:E.
        - destruct (H _ _ E) as [Hr _]. set (r1 := if decide (dr_host r = Some c) then _ else r).
          assert (room_ok (idents st) (cn_device n) r1 /\ dr_host r1 <> Some c /\ dr_clients r1 = dr_clients r) as (Hr1 & Hh1 & Hc1).
          { unfold r1. destruct (decide (dr_host r = Some c)); [|done]. split; [|done]. split; [done|apply Hr]. }
          split; [by apply put_room_ok|]. split; [apply put_room_idents|].
          intros d r' E'. apply put_room_lookup in E' as [[-> ->]|[Hne E']].
          + split; [done|]. rewrite Hc1. intros id Hk. by destruct (proj2 (Hreg _ _ E) id Hk) as (_ & [=] & _).
          + destruct (Hreg _ _ E') as [Hx Hy]. split; [by intros Hk; destruct (Hx Hk)|].
            intros id Hk. by destruct (Hy id Hk).
        - split; [done|]. split; [done|]. intros d r E'. destruct (Hreg _ _ E') as [Hx Hy]. split.
          + intros Hk. destruct (Hx Hk) as [-> _]. by rewrite E in E'.
          + intros id Hk. by destruct (Hy id Hk) as (_ & [=] & _). }
      destruct (try_sends_same (control RELAY_KIND HOST_CLOSED) (client_outboxes (cn_device n) st2) st2) as [E1 E2].
      split; [|split].
      + intros d r E. rewrite E1. rewrite E2 in E. by apply H2.
      + by rewrite E1.
      + intros d r E. rewrite E2 in E. by apply Hg2 in E.
    - unfold leave_client. destruct (rl_rooms st !! cn_device n) as [r|] eqn:E.
      + destruct (H _ _ E) as [Hr _]. split; [|split; [apply put_room_idents|]].
        * apply put_room_ok; [done|]. split; [apply Hr|]. cbn. intros id k Hk. apply lookup_delete_Some in Hk as [_ Hk].
          by apply Hr.
        * intros d r' E'. apply put_room_lookup in E' as [[-> ->]|[Hne E']].
          -- cbn. split; [intros Hk; by destruct (proj1 (Hreg _ _ E) Hk)|]. intros id Hk.
             apply lookup_delete_Some in Hk as [Hne Hk]. destruct (proj2 (Hreg _ _ E) id Hk) as (_ & _ & Hid). by apply Hne.
          -- destruct (Hreg _ _ E') as [Hx Hy]. split; [by intros Hk; destruct (Hx Hk)|].
             intros id Hk. by destruct (Hy id Hk).
      + split; [done|]. split; [done|]. intros d r E'. destruct (Hreg _ _ E') as [Hx Hy]. split.
        * intros Hk. by destruct (Hx Hk) as [_ [=]].
        * intros id Hk. destruct (Hy id Hk) as (-> & _). by rewrite E in E'. }
  intros d r E. cbn in E. destruct (H1 d r E) as [Hr Hp]. split; [|done]. destruct (Hgone d r E) as [Hh Hc].
  assert (idents (mk_relay (rl_rooms st1) (delete c (rl_conns st1))) = delete c (idents st1)) as ->
    by (unfold idents; cbn; by rewrite fmap_delete).
  by apply room_ok_delete.
Qed.
End Rooms.

(** ** What a connection can be sent *)

Section Provenance.
Context {F : FrameCodec}.

(** A message a connection sent in. *)
Definition Received : Type := (string * Role * string) * string.

(** Where a frame in the outbox of a connection comes from: the relay itself, or
    a message of the other role in the same device's room, addressed to it, with
    the routing keys the relay stamped. *)
Definition genuine (log : list Received) (to_ : Ident) (frame : string) : Prop :=
  (exists s code, frame = control s code) \/
  exists device role conn_id bytes h payload,
    ((device, role, conn_id), bytes) ∈ log /\ device = to_.1.1 /\
    decode_device_frame bytes = Some (h, payload) /\
    match to_.1.2 with
    | RoleHost => role = RoleClient /\
        frame = encode_device_frame (mk_header (fh_s h) (fh_k h) None (Some conn_id)) payload
    | RoleClient => role = RoleHost /\ fh_to h = Some to_.2 /\
        frame = encode_device_frame (mk_header (fh_s h) (fh_k h) None None) payload
    end.

Definition queues_ok (log : list Received) (st : Relay) : Prop :=
  forall c n f, rl_conns st !! c = Some n -> f ∈ cn_queue n -> genuine log (ident n) f.

Lemma genuine_mono log log' i f : (forall x, x ∈ log -> x ∈ log') -> genuine log i f -> genuine log' i f.
Proof.
  intros Hl [H|(d & ro & cid & b & h & p & Hin & H)]; [by left|right].
  exists d, ro, cid, b, h, p. split; [by apply Hl|done].
Qed.

Lemma send_to_queues log c f st :
  queues_ok log st -> (forall n, rl_conns st !! c = Some n -> genuine log (ident n) f) ->
  queues_ok log (send_to c f st).
Proof.
  intros H Hf k n g E Hg. cbn in E. destruct (decide (k = c)) as [->|Hne].
  - rewrite lookup_alter_eq in E. destruct (rl_conns st !! c) as [n0|] eqn:E0; [|done]. cbn in E.
    injection E as <-. cbn in Hg. change (ident _) with (ident n0).
    apply elem_of_app in Hg as [Hg|Hg%list_elem_of_singleton]; [by eapply H|subst g; by apply Hf].
  - rewrite lookup_alter_ne in E by done. by eapply H.
Qed.

Lemma try_send_control log c s code st : queues_ok log st -> queues_ok log (try_send_to c (control s code) st).
Proof.
  intros H. unfold try_send_to. destruct (rl_conns st !! c); [|done]. destruct (_ <? _)%nat; [|done].
  apply send_to_queues; [done|]. intros n _. left. eauto.
Qed.

Lemma try_sends_control log l s code st :
  queues_ok log st -> queues_ok log (foldl (fun st k => try_send_to k (control s code) st) st l).
Proof. revert st. induction l as [|k l IH]; intros st H; [done|]. cbn. by apply IH, try_send_control. Qed.

(** One turn of a connection's task, or of a new one. *)
Inductive relay_step : Relay * list Received -> Relay * list Received -> Prop :=
  | rl_start c device role conn_id st log :
      rl_conns st !! c = None -> relay_step (st, log) (serve_start c device role conn_id st, log)
  | rl_binary c n bytes st log :
      rl_conns st !! c = Some n -> relay_step (st, log) (serve_binary c bytes st, log ++ [(ident n, bytes)])
  | rl_out c frame st st' log : serve_out c st = Some (frame, st') -> relay_step (st, log) (st', log)
  | rl_end c st log : relay_step (st, log) (serve_end c st, log).

Definition relay_new : Relay := mk_relay ∅ ∅.

Definition relay_ok (p : Relay * list Received) : Prop := rooms_ok p.1 /\ queues_ok p.2 p.1.

Lemma serve_binary_ok c n bytes st log :
  rl_conns st !! c = Some n -> relay_ok (st, log) -> relay_ok (serve_binary c bytes st, log ++ [(ident n, bytes)]).
Proof.
  intros Ec [Hr Hq]. cbn [fst snd] in *.
  assert (queues_ok (log ++ [(ident n, bytes)]) st) as Hq'.
  { intros k m f E Hf. apply (genuine_mono log); [|by eapply Hq]. intros x Hx. apply elem_of_app. by left. }
  assert ((ident n, bytes) ∈ log ++ [(ident n, bytes)]) as Hin by (apply elem_of_app; right; by apply list_elem_of_singleton).
  unfold serve_binary. rewrite Ec. destruct (decode_device_frame bytes) as [[h payload]|] eqn:Ed; [|done].
  assert (forall k f, (forall m, rl_conns st !! k = Some m -> genuine (log ++ [(ident n, bytes)]) (ident m) f) ->
            relay_ok (send_to k f st, log ++ [(ident n, bytes)])) as Hsend.
  { intros k f Hf. split; cbn [fst snd]; [|by apply send_to_queues]. intros d r E.
    rewrite send_to_idents. by apply Hr. }
  destruct (cn_role n) eqn:Er; (assert (ident n = (cn_device n, cn_role n, cn_conn_id n)) as Eid by done); rewrite Er in Eid.
  - destruct (fh_to h) as [target|] eqn:Et; [|done].
    destruct (client_outbox (cn_device n) target st) as [k|] eqn:Ek; [|done]. apply Hsend. intros m Em. right.
    unfold client_outbox in Ek. destruct (rl_rooms st !! cn_device n) as [r|] eqn:E; [|done]. cbn in Ek.
    destruct (Hr _ _ E) as [[_ Hc] _]. apply Hc in Ek. unfold idents in Ek. rewrite lookup_fmap, Em in Ek.
    injection Ek as H1 H2 H3. exists (cn_device n), RoleHost, (cn_conn_id n), bytes, h, payload.
    rewrite <- Eid. split; [done|]. unfold ident. cbn [fst snd]. rewrite H1, H2, H3. by split_and!.
  - destruct (host_outbox (cn_device n) st) as [k|] eqn:Ek.
    + apply Hsend. intros m Em. right. unfold host_outbox in Ek.
      destruct (rl_rooms st !! cn_device n) as [r|] eqn:E; [|done]. cbn in Ek.
      destruct (Hr _ _ E) as [[Hh _] _]. apply Hh in Ek as [id Ek]. unfold idents in Ek. rewrite lookup_fmap, Em in Ek.
      injection Ek as H1 H2 H3. exists (cn_device n), RoleClient, (cn_conn_id n), bytes, h, payload.
      rewrite <- Eid. split; [done|]. unfold ident. cbn [fst snd]. rewrite H1, H2. by split_and!.
    + apply Hsend. intros m Em. left. eauto.
Qed.

Lemma relay_step_ok p q : relay_ok p -> relay_step p q -> relay_ok q.
Proof.
  intros H Hs. destruct Hs as [c device role conn_id st log Hc|c n bytes st log Hc|c frame st st' log E|c st log].
  - destruct H as [Hr Hq]. split; cbn [fst snd] in *; [by apply serve_start_ok|]. unfold serve_start.
    set (st1 := mk_relay _ _).
    assert (queues_ok log st1) as H1.
    { intros k m f E Hf. cbn in E. destruct (decide (k = c)) as [->|Hne].
      - rewrite lookup_insert_eq in E. injection E as <-. by apply elem_of_nil in Hf.
      - rewrite lookup_insert_ne in E by done. by eapply Hq. }
    destruct role; [|exact H1]. cbn [join_host]. destruct (dr_host (room_of device st1)); [|exact H1].
    by apply try_send_control.
  - by apply serve_binary_ok.
  - destruct H as [Hr Hq]. unfold serve_out in E. destruct (rl_conns st !! c) as [n|] eqn:Ec; [|done]. cbn in E.
    destruct (cn_queue n) as [|f0 rest] eqn:Eq; [done|]. injection E as -> <-. split; cbn [fst snd] in *.
    + intros d r E. cbn in E. assert (idents (mk_relay (rl_rooms st) (<[c:=mk_conn (cn_device n) (cn_role n) (cn_conn_id n) rest]> (rl_conns st))) = idents st) as ->.
      { unfold idents. cbn. rewrite fmap_insert. apply insert_id. rewrite lookup_fmap, Ec. done. }
      by apply Hr.
    + intros k m f E Hf. cbn in E. destruct (decide (k = c)) as [->|Hne].
      * rewrite lookup_insert_eq in E. injection E as <-. change (ident _) with (ident n).
        eapply Hq; [exact Ec|]. rewrite Eq. by right.
      * rewrite lookup_insert_ne in E by done. by eapply Hq.
  - destruct H as [Hr Hq]. split; cbn [fst snd] in *; [by apply serve_end_ok|]. unfold serve_end.
    destruct (rl_conns st !! c) as [n|] eqn:Ec; [|done].
    set (st1 := match cn_role n with RoleHost => _ | RoleClient => _ end).
    assert (forall st', rl_conns st' = rl_conns st -> queues_ok log st') as Hsame
      by (intros st' E k m f; rewrite E; apply Hq).
    assert (forall d r s, rl_conns (put_room d r s) = rl_conns s) as Hput.
    { intros d r s. unfold put_room. destruct (dr_host r); [done|]. by destruct (decide _). }
    assert (queues_ok log st1) as H1.
    { unfold st1. destruct (cn_role n).
      - apply try_sends_control, Hsame. unfold leave_host. destruct (rl_rooms st !! _); [apply Hput|done].
      - apply Hsame. unfold leave_client. destruct (rl_rooms st !! _); [apply Hput|done]. }
    intros k m f E Hf. cbn in E. apply lookup_delete_Some in E as [_ E]. by eapply H1.
Qed.

(** C23. The relay keeps rooms apart and sources honest: whatever connections
    come, send and go, every frame waiting for a connection is the relay's own
    control frame, or what a connection of the other role in the same device's
    room sent, to it by name if it is a client; a host reads the sender's true
    connection id, whatever the sender wrote, and a client reads no routing
    keys. The rooms list only served connections, under their own device, role
    and id, and no room is empty. *)
Theorem relay_keeps_rooms_apart st log :
  rtc relay_step (relay_new, []) (st, log) ->
  (forall c n f, rl_conns st !! c = Some n -> f ∈ cn_queue n -> genuine log (ident n) f) /\
  (forall device r, rl_rooms st !! device = Some r ->
     populated r /\
     (forall c, dr_host r = Some c -> exists n, rl_conns st !! c = Some n /\ cn_device n = device /\ cn_role n = RoleHost) /\
     (forall id c, dr_clients r !! id = Some c ->
        exists n, rl_conns st !! c = Some n /\ ident n = (device, RoleClient, id))).
Proof.
  intros Hs. assert (relay_ok (st, log)) as [Hr Hq].
  { revert Hs. generalize (st, log). apply (rtc_ind_r (R := relay_step) relay_ok (relay_new, [])).
    - split; intros x y; cbn; by rewrite lookup_empty.
    - intros p q _ Hpq H. by eapply relay_step_ok. }
  split; [exact Hq|]. intros device r E. destruct (Hr device r E) as [[Hh Hc] Hp]. split; [done|].
  assert (forall c i, idents st !! c = Some i -> exists n, rl_conns st !! c = Some n /\ ident n = i) as Hi.
  { intros c i. unfold idents. rewrite lookup_fmap. destruct (rl_conns st !! c) as [n|]; [|done]. intros [= <-]. eauto. }
  split.
  - intros c Hc'. destruct (Hh c Hc') as [id E']. apply Hi in E' as (n & En & E'). unfold ident in E'.
    injection E' as H1 H2 H3. eauto.
  - intros id c Hc'. by apply Hi, Hc.
Qed.

(** A call crosses the relay: a client's text reaches the host's end as fed
    to the virtual connection of that client, opened at the first, under the
    client's own connection id whatever it wrote; and what that virtual
    connection answers reaches the client's link as the same text. *)
Theorem rpc_crosses_relay `{!FrameCodecLaws F} st c k n m text :
  rl_conns st !! c = Some n -> cn_role n = RoleClient ->
  rl_conns st !! k = Some m -> cn_role m = RoleHost -> cn_device m = cn_device n ->
  host_outbox (cn_device n) st = Some k -> client_outbox (cn_device n) (cn_conn_id n) st = Some c ->
  utf8_valid text = true ->
  Forall (fun h => N.of_nat (String.length (header_to_vec h)) < 2 ^ 35)%N
    [mk_header RPC_KIND RPC_KIND None None; mk_header RPC_KIND RPC_KIND None (Some (cn_conn_id n));
     mk_header RPC_KIND RPC_KIND (Some (cn_conn_id n)) None] ->
  (exists frame, serve_binary c (link_send text) st = send_to k frame st /\
     forall conns, handle_host_frame conns frame =
       ({[cn_conn_id n]} ∪ conns,
        (if decide (cn_conn_id n ∈ conns) then [] else [OpenConn (cn_conn_id n)]) ++ [Feed (cn_conn_id n) text])) /\
  (exists frame, serve_binary k (virtual_reply (cn_conn_id n) text) st = send_to c frame st /\
     forall now l, link_binary now frame l = (mk_link now now (lk_echo_seen l) (lk_closed l), Some text)).
Proof.
  intros Ec Er Ek Em Ed Hh Hcl Hu Hlen. rewrite !Forall_cons in Hlen. destruct Hlen as (L1 & L2 & L3 & _). split.
  - eexists. split.
    + unfold serve_binary, link_send. rewrite Ec, device_frame_roundtrip by done. rewrite Er, Hh. reflexivity.
    + intros conns. unfold handle_host_frame. cbn [fh_s fh_k header_new].
      rewrite device_frame_roundtrip by done. cbn. unfold from_utf8_lossy. by rewrite Hu.
  - eexists. split.
    + unfold serve_binary, virtual_reply. rewrite Ek, device_frame_roundtrip by done. rewrite Em. cbn [fh_to with_to].
      rewrite Ed, Hcl. reflexivity.
    + intros now l. unfold link_binary. cbn [fh_s fh_k header_new with_to].
      rewrite device_frame_roundtrip by done. cbn. unfold from_utf8_lossy. by rewrite Hu.
Qed.
End Provenance.

(** ** Dialing peers *)

Lemma backoff_bounds cfg n :
  0 < cooldown_base cfg <= cooldown_max cfg -> cooldown_base cfg <= backoff cfg n <= cooldown_max cfg.
Proof.
  intros H. unfold backoff. assert (1 <= 2 ^ Z.of_N (N.min (n - 1) 16)) by (apply (Z.pow_le_mono_r 2 0); lia). nia.
Qed.

Lemma dial_loop_bound outcomes : ((dial_loop outcomes).2 <= length outcomes)%nat.
Proof. induction outcomes as [|[l|] rest IH]; cbn; [lia|lia|]. destruct (dial_loop rest). cbn in *. lia. Qed.

(** Failures that follow each other within the decay climb the curve one by one. *)
Lemma failures_climb cfg times d last n :
  ds_failures d = n -> ds_last_failure d = Some last ->
  (forall i t u, (last :: times) !! i = Some t -> times !! i = Some u -> u - t <= FAILURE_DECAY) ->
  ds_failures (foldl (fun d t => fail_dial cfg t d) d times) = (n + N.of_nat (length times))%N.
Proof.
  revert d last n. induction times as [|t times IH]; intros d last n Hn Hl Hgap; cbn; [lia|].
  rewrite (IH (fail_dial cfg t d) t (n + 1)%N); [lia| |done|].
  - unfold fail_dial. cbn. rewrite Hl, Hn. rewrite (proj2 (Z.ltb_ge _ _)); [done|]. apply (Hgap 0%nat); done.
  - intros i x u Hx Hu. apply (Hgap (S i)); done.
Qed.

(** A cache miss leaves the cache as it was, but for the dead link of the device. *)
Record missed (closed : gset nat) (device : string) (k k1 : LinkCache) : Prop := mk_missed {
  ms_active : lc_revoked k = false;
  ms_revoked : lc_revoked k1 = false;
  ms_dial : lc_dial k1 = lc_dial k;
  ms_gone : lc_links k1 !! device = None;
  ms_dead : forall l, lc_links k !! device = Some l -> l ∈ closed;
  ms_other : forall other, other <> device -> lc_links k1 !! other = lc_links k !! other;
}.

(** The ways a call can go. *)
Inductive call_spec cfg live closed revoked_after now later device k : ClientResult * nat * LinkCache -> Prop :=
  | call_revoked : lc_revoked k = true -> call_spec _ _ _ _ _ _ _ _ (NotSignedIn, O, k)
  | call_hit l : lc_revoked k = false -> lc_links k !! device = Some l -> l ∉ closed ->
      call_spec _ _ _ _ _ _ _ _ (Linked l, O, k)
  | call_dark k1 : missed closed device k k1 -> live = Some Dark -> call_spec _ _ _ _ _ _ _ _ (DeviceDark, O, k1)
  | call_cooling k1 : missed closed device k k1 -> cooling device now k = true ->
      call_spec _ _ _ _ _ _ _ _ (CoolingDown, O, k1)
  | call_linked k1 n l : missed closed device k k1 -> live <> Some Dark ->
      cooling device now k = false -> (n <= DIAL_ATTEMPTS)%nat ->
      call_spec _ _ _ _ _ _ _ _ (if revoked_after : bool
        then (NotSignedIn, n, mk_cache false (lc_links k1) (delete device (lc_dial k1)))
        else (Linked l, n, mk_cache false (<[device := l]> (lc_links k1)) (delete device (lc_dial k1))))
  | call_failed k1 n : missed closed device k k1 -> live <> Some Dark ->
      cooling device now k = false -> (n <= DIAL_ATTEMPTS)%nat ->
      call_spec _ _ _ _ _ _ _ _ (DialFailed, n, note_failure cfg device later k1).

Lemma cached_missed closed device k k1 :
  lc_revoked k = false -> cached closed device k = (None, k1) -> missed closed device k k1.
Proof.
  intros Hr. unfold cached. destruct (lc_links k !! device) as [l|] eqn:El.
  - destruct (decide (l ∈ closed)); [|done]. intros [= <-]. split; cbn; try done.
    + apply lookup_delete_eq.
    + congruence.
    + intros. by apply lookup_delete_ne.
  - intros [= <-]. split; congruence.
Qed.

Lemma client_cases cfg live closed outcomes revoked_after now later device k :
  call_spec cfg live closed revoked_after now later device k
    (client cfg live closed outcomes revoked_after now later device k).
Proof.
  unfold client. destruct (lc_revoked k) eqn:Er; [by constructor|].
  destruct (cached closed device k) as [[l|] k1] eqn:Ec.
  { unfold cached in Ec. destruct (lc_links k !! device) as [l0|] eqn:El; [|done].
    destruct (decide (l0 ∈ closed)); [done|]. injection Ec as -> <-. by constructor. }
  apply cached_missed in Ec; [|done].
  assert (cooling device now k1 = cooling device now k) as ->
    by (unfold cooling; by rewrite (ms_dial _ _ _ _ Ec)).
  pose proof (dial_loop_bound (take DIAL_ATTEMPTS outcomes)) as Hb. rewrite length_take in Hb.
  destruct (decide (live = Some Dark)) as [->|Hl]; [by constructor|].
  destruct (cooling device now k) eqn:Eco; [destruct live as [[]|]; by constructor|].
  destruct (dial_loop (take DIAL_ATTEMPTS outcomes)) as [[l|] n]; cbn [snd] in Hb.
  - rewrite (ms_revoked _ _ _ _ Ec). destruct live as [[]|]; try done; (apply call_linked; [done..|lia]).
  - destruct live as [[]|]; try done; (apply call_failed; [done..|lia]).
Qed.

Lemma client_cooled cfg live closed outcomes revoked_after now later device k :
  (forall l, lc_links k !! device = Some l -> l ∈ closed) -> cooling device now k = true ->
  (client cfg live closed outcomes revoked_after now later device k).1.2 = 0%nat.
Proof.
  intros Hl Hco. destruct (client_cases cfg live closed outcomes revoked_after now later device k); try done; congruence.
Qed.

(** Peer calls dial with restraint: a call makes at most three dials, none
    after sign-out, for a dark device or a live cached link; a call whose dials
    all fail counts once, and closes the device to dials for the backoff of its
    failures, between the base and the cap; a call that connects forgets the
    failures and is cached, so the next one reuses its link while it lives; and
    no call touches another device's link or backoff. *)
Theorem peer_dialing cfg live closed outcomes revoked_after now later device k r n k' :
  0 < cooldown_base cfg <= cooldown_max cfg ->
  client cfg live closed outcomes revoked_after now later device k = (r, n, k') ->
  (n <= DIAL_ATTEMPTS)%nat /\
  (lc_revoked k = true -> r = NotSignedIn /\ n = 0%nat /\ k' = k) /\
  (n <> 0%nat -> live <> Some Dark /\ cooling device now k = false /\
     forall l, lc_links k !! device = Some l -> l ∈ closed) /\
  (r = DialFailed -> exists d until, lc_dial k' !! device = Some d /\ ds_cooldown_until d = Some until /\
     until = later + backoff cfg (ds_failures d) /\ later + cooldown_base cfg <= until <= later + cooldown_max cfg /\
     forall live' closed' outcomes' revoked' now' later', now' < until ->
       (client cfg live' closed' outcomes' revoked' now' later' device k').1.2 = 0%nat) /\
  (forall l, r = Linked l -> (n <> 0%nat -> lc_dial k' !! device = None) /\
     forall live' closed' outcomes' revoked' now' later', l ∉ closed' ->
       client cfg live' closed' outcomes' revoked' now' later' device k' = (Linked l, 0%nat, k')) /\
  (forall other, other <> device ->
     lc_links k' !! other = lc_links k !! other /\ lc_dial k' !! other = lc_dial k !! other).
Proof.
  intros Hcfg Ecl. pose proof (client_cases cfg live closed outcomes revoked_after now later device k) as H.
  rewrite Ecl in H. remember (r, n, k') as res eqn:Eres.
  destruct H as [Hr|l Hr El Hl|k1 [] Hd|k1 [] Hc|k1 m l [] Hd Hc Hm|k1 m [] Hd Hc Hm].
  1-4: injection Eres as <- <- <-; split_and!; try (done || lia || congruence).
  - intros l' [= <-]. split; [done|]. intros. unfold client, cached. rewrite Hr, El. by rewrite decide_False.
  - intros other Hne. rewrite ms_dial0. by rewrite ms_other0.
  - intros other Hne. rewrite ms_dial0. by rewrite ms_other0.
  - destruct revoked_after; injection Eres as <- <- <-; split_and!; try (done || lia || congruence).
    + intros other Hne. cbn. rewrite ms_dial0, lookup_delete_ne by done. by rewrite ms_other0.
    + intros l' [= <-]. split; [intros _; apply lookup_delete_eq|]. intros. unfold client, cached. cbn.
      rewrite lookup_insert_eq. by rewrite decide_False.
    + intros other Hne. cbn. rewrite ms_dial0, lookup_insert_ne, lookup_delete_ne by done. by rewrite ms_other0.
  - injection Eres as <- <- <-. split_and!; try (done || lia || congruence).
    + intros _. set (d := fail_dial cfg later (default dial_default (lc_dial k1 !! device))).
      pose proof (backoff_bounds cfg (ds_failures d) Hcfg) as Hbb.
      exists d, (later + backoff cfg (ds_failures d)). split_and!; try (done || lia); [cbn; apply lookup_insert_eq|].
      intros. apply client_cooled; cbn; [by rewrite ms_gone0|]. unfold cooling. cbn. rewrite lookup_insert_eq. cbn.
      by apply Z.ltb_lt.
    + intros other Hne. cbn. rewrite ms_dial0, lookup_insert_ne by done. by rewrite ms_other0.
Qed.

(** ** A concrete codec and the runs of a room *)

Definition header_tuple (h : DeviceFrameHeader) : string * string * option string * option string :=
  (fh_s h, fh_k h, fh_to h, fh_from h).

Definition header_bits (s : string) : option DeviceFrameHeader :=
  '(s, k, to_, from) ← bits_pos s ≫= decode; Some (mk_header s k to_ from).

Definition bit_codec : FrameCodec := {|
  header_to_vec h := pos_bits (encode (header_tuple h));
  header_from_slice := header_bits;
  relay_error code := code;
  relay_error_code := Some;
  nudge_chat := Some;
  replace_invalid _ := "?";
|}.

Lemma bit_codec_laws : @FrameCodecLaws bit_codec.
Proof.
  split; [|done]. intros [s k t f]. cbn. unfold header_bits. rewrite bits_roundtrip. cbn.
  by rewrite decode_encode.
Qed.

#[local] Existing Instances bit_codec bit_codec_laws.

(** A host on connection 0 and a client "c1" on connection 1. *)
Definition pair_room : Relay := serve_start 1 "d1" RoleClient "c1" (serve_start 0 "d1" RoleHost "" relay_new).

(** A client that claims another's id. *)
Definition forged : string := encode_device_frame (mk_header RPC_KIND RPC_KIND (Some "x") (Some "c2")) "hi".

Lemma device_frame_roundtrip_witness :
  (N.of_nat (String.length (header_to_vec (mk_header RPC_KIND RPC_KIND (Some "c1") None))) < 2 ^ 35)%N /\
  decode_device_frame (encode_device_frame (mk_header RPC_KIND RPC_KIND (Some "c1") None) "hi") =
    Some (mk_header RPC_KIND RPC_KIND (Some "c1") None, "hi").
Proof.
  assert (N.of_nat (String.length (header_to_vec (mk_header RPC_KIND RPC_KIND (Some "c1") None))) < 2 ^ 35)%N as H
    by (vm_compute; done).
  split; [exact H|exact (device_frame_roundtrip _ "hi" H)].
Defined.

Lemma pair_room_reached : rtc relay_step (relay_new, [])
  (serve_binary 1 forged pair_room, [(("d1", RoleClient, "c1"), forged)]).
Proof.
  eapply rtc_l; [by apply (rl_start 0 "d1" RoleHost "")|].
  eapply rtc_l; [by apply (rl_start 1 "d1" RoleClient "c1")|].
  eapply rtc_l; [|apply rtc_refl]. by apply (rl_binary 1 (mk_conn "d1" RoleClient "c1" [])).
Qed.

Definition stamped_forged : string :=
  encode_device_frame (mk_header RPC_KIND RPC_KIND None (Some "c1")) "hi".

Lemma relay_keeps_rooms_apart_witness :
  rl_conns (serve_binary 1 forged pair_room) !! 0%nat = Some (mk_conn "d1" RoleHost "" [stamped_forged]) /\
  genuine [(("d1", RoleClient, "c1"), forged)] ("d1", RoleHost, "") stamped_forged.
Proof.
  assert (rl_conns (serve_binary 1 forged pair_room) !! 0%nat = Some (mk_conn "d1" RoleHost "" [stamped_forged])) as E
    by (vm_compute; reflexivity).
  split; [exact E|]. exact (proj1 (relay_keeps_rooms_apart _ _ pair_room_reached) _ _ _ E ltac:(by left)).
Defined.

Lemma rpc_crosses_relay_witness : exists frame,
  serve_binary 1 (link_send "hi") pair_room = send_to 0 frame pair_room /\
  handle_host_frame ∅ frame = ({["c1"]} ∪ ∅, [OpenConn "c1"; Feed "c1" "hi"]).
Proof.
  destruct (rpc_crosses_relay pair_room 1 0 (mk_conn "d1" RoleClient "c1" []) (mk_conn "d1" RoleHost "" []) "hi"
    eq_refl eq_refl eq_refl eq_refl eq_refl eq_refl eq_refl eq_refl
    ltac:(repeat constructor; vm_compute; done)) as [(frame & E & H) _].
  exists frame. split; [exact E|exact (H ∅)].
Defined.

Definition sample_cfg : LinkCacheConfig := mk_cache_config 2000 60000.
Definition sample_cache : LinkCache := mk_cache false ∅ ∅.

Lemma peer_dialing_witness : exists k,
  client sample_cfg None ∅ [None; None; None; Some 7%nat] false 0 900 "d1" sample_cache = (DialFailed, 3%nat, k) /\
  (client sample_cfg None ∅ [Some 7%nat] false 1000 1000 "d1" k).1.2 = 0%nat.
Proof.
  destruct (client sample_cfg None ∅ [None; None; None; Some 7%nat] false 0 900 "d1" sample_cache) as [[r n] k] eqn:E.
  assert (r = DialFailed /\ n = 3%nat) as [-> ->] by (vm_compute in E; by injection E as <- <- _).
  exists k. split; [reflexivity|].
  destruct (peer_dialing sample_cfg None ∅ _ false 0 900 "d1" sample_cache DialFailed 3 k ltac:(cbn; lia) E)
    as (_ & _ & _ & H & _). destruct (H eq_refl) as (d & until & _ & _ & _ & Hu & Hc).
  apply Hc. cbn in Hu. lia.
Defined.

(** ** Limits *)

(** The departure of a host that was superseded closes the links of the clients
    of the host that is live. *)
Lemma superseded_host_closes_clients :
  let st := serve_end 0 (serve_start 2 "d1" RoleHost "" pair_room) in
  host_outbox "d1" st = Some 2%nat /\ exists frame,
    rl_conns st !! 1%nat = Some (mk_conn "d1" RoleClient "c1" [frame]) /\
  lk_closed (link_binary 5 frame (link_start 0)).1 = Some HOST_CLOSED.
Proof. split; [vm_compute; reflexivity|]. eexists. split; vm_compute; reflexivity. Qed.

(** A client that comes back under its id before its old connection ends is
    unregistered by that end: served, and reached by nothing. *)
Lemma rejoined_client_unregistered :
  let st := serve_end 1 (serve_start 2 "d1" RoleClient "c1" pair_room) in
  rl_conns st !! 2%nat = Some (mk_conn "d1" RoleClient "c1" []) /\
  client_outbox "d1" "c1" st = None /\
  serve_binary 0 (virtual_reply "c1" "answer") st = st.
Proof. split_and!; vm_compute; reflexivity. Qed.

Section Departure.
Context {F : FrameCodec}.

(** A client's departure is not told to the host. *)
Lemma client_end_is_silent st c n k m :
  rl_conns st !! c = Some n -> cn_role n = RoleClient -> k <> c -> rl_conns st !! k = Some m ->
  rl_conns (serve_end c st) !! k = Some m.
Proof.
  intros Ec Er Hne Ek. unfold serve_end. rewrite Ec, Er. cbn. rewrite lookup_delete_ne by done.
  unfold leave_client. destruct (rl_rooms st !! cn_device n) as [r|]; [|done].
  unfold put_room. cbn. destruct (dr_host r); [done|]. by destruct (decide _).
Qed.
End Departure.
