(* ===== verification/Rpc.v ===== *)
(** The typed control plane: crates/rpc/src/lib.rs, client.rs and server.rs. One
    connection with both its ends: the client's table of pending requests, the
    server's dispatch loop and request tasks, and the two channels of frames
    between them. The service is arbitrary: what it answers is an argument of
    the step. [serde_json] between a value and its text is a class. *)
From S2P Require Import Prelude Json Text Samples.

(** ** Frames *)

Record ClientFrame := mk_cframe {
  cf_id : N; cf_method : option string; cf_params : Value; cf_cancel : bool }.

Record ServerFrame := mk_sframe {
  sf_id : N; sf_ok : option Value; sf_err : option string; sf_item : option Value; sf_done : bool }.

Definition WATCH_CHECKOUT_CHANGE_REQUEST : string := "WatchCheckoutChangeRequest".

Inductive RpcError :=
  | UnknownMethod (method : string)
  | BadParams (message : string)
  | Failed (message : string)
  | Transport (message : string)
  | Closed.

(** The [Display] of an error, and what the client makes of it. *)
Definition error_text (e : RpcError) : string :=
  match e with
  | UnknownMethod m => "unknown method: " ++ m
  | BadParams m => "bad params: " ++ m
  | Failed m => m
  | Transport m => "transport: " ++ m
  | Closed => "connection closed"
  end.

Definition wire_error (error : string) : RpcError :=
  match strip_prefix "unknown method: " error with
  | Some method => UnknownMethod method
  | None => Failed error
  end.

(** A field that serde skips when empty. *)
Definition skip_none {A} (k : string) (f : A -> Value) (x : option A) : list (string * Value) :=
  match x with Some x => [(k, f x)] | None => [] end.
Definition skip_false (k : string) (b : bool) : list (string * Value) := if b then [(k, Bool true)] else [].

Definition client_value (f : ClientFrame) : Value :=
  Object ([("id", Int (Z.of_N (cf_id f)))] ++ skip_none "method" Str (cf_method f) ++
          (if is_null (cf_params f) then [] else [("params", cf_params f)]) ++ skip_false "cancel" (cf_cancel f)).

Definition client_of_value (v : Value) : option ClientFrame :=
  id ← field_req as_u64 v "id";
  method ← field_option as_str v "method";
  params ← field_default Some Null v "params";
  cancel ← field_default as_boolean false v "cancel";
  Some (mk_cframe id method params cancel).

Definition server_value (f : ServerFrame) : Value :=
  Object ([("id", Int (Z.of_N (sf_id f)))] ++ skip_none "ok" (fun v => v) (sf_ok f) ++ skip_none "err" Str (sf_err f) ++
          skip_none "item" (fun v => v) (sf_item f) ++ skip_false "done" (sf_done f)).

Definition server_of_value (v : Value) : option ServerFrame :=
  id ← field_req as_u64 v "id";
  ok ← field_option Some v "ok";
  err ← field_option as_str v "err";
  item ← field_option Some v "item";
  done_ ← field_default as_boolean false v "done";
  Some (mk_sframe id ok err item done_).

(** The frames of a message: its lines, the blank ones and the malformed ones
    dropped. *)
Definition frames {J : JsonText} {A} (parse : Value -> option A) (payload : string) : list A :=
  omap (fun line => let line := trim line in if String.eqb line "" then None else from_text line ≫= parse)
    (lines payload).

(** ** The client *)

(** A pending request: a call, a stream, or a stream with an acknowledgement,
    which still holds its [ready] sender or not. *)
Inductive Pending := PCall | PStream | PChecked (ready : bool).

#[export] Instance Pending_eq_dec : EqDecision Pending.
Proof. solve_decision. Defined.

(** [rc_deaf]: the plain streams whose receiver was dropped. *)
Record Client := mk_client { rc_pending : gmap N Pending; rc_next : N; rc_deaf : gset N }.

Definition client_new : Client := mk_client ∅ 1 ∅.

(** What the callers see: the result of a call, the result of opening a stream, an
    item of a stream, its end. *)
Inductive Seen :=
  | Answered (id : N) (r : RpcError + Value)
  | Opened (id : N) (r : RpcError + ())
  | Item (id : N) (v : Value)
  | Ended (id : N).

Definition set_pending (m : gmap N Pending) (c : Client) : Client := mk_client m (rc_next c) (rc_deaf c).
Definition forget (id : N) (c : Client) : Client := set_pending (delete id (rc_pending c)) c.

Definition cancel_frame (id : N) : ClientFrame := mk_cframe id None Null true.

(** An entry is told an error and dropped; or dropped at the end of its stream. *)
Definition fail_pending (id : N) (e : RpcError) (p : Pending) : list Seen :=
  match p with
  | PCall => [Answered id (inl e)]
  | PChecked true => [Opened id (inl e)]
  | PStream | PChecked false => [Ended id]
  end.

Definition finish_pending (id : N) (p : Pending) : list Seen :=
  match p with
  | PCall => [Answered id (inl Closed)]
  | PChecked true => [Opened id (inr tt); Ended id]
  | PStream | PChecked false => [Ended id]
  end.

(** [call], [subscribe] and [subscribe_checked] up to their await; [open] is
    whether the outgoing channel takes the frame. *)
Definition request (open : bool) (kind : Pending) (method : string) (params : Value) (c : Client)
    : list ClientFrame * list Seen * Client :=
  let id := rc_next c in
  let c := mk_client (<[id := kind]> (rc_pending c)) ((id + 1) mod 2 ^ 64) (rc_deaf c) in
  if open then
    ([mk_cframe id (Some method) params false], match kind with PStream => [Opened id (inr tt)] | _ => [] end, c)
  else
    ([], match kind with PCall => [Answered id (inl Closed)] | _ => [Opened id (inl Closed)] end, forget id c).

Definition route_frame (f : ServerFrame) (c : Client) : list ClientFrame * list Seen * Client :=
  let id := sf_id f in
  match sf_err f, sf_ok f, sf_item f with
  | Some e, _, _ =>
      match rc_pending c !! id with
      | Some p => ([], fail_pending id (wire_error e) p, forget id c)
      | None => ([], [], c)
      end
  | None, Some v, _ =>
      match rc_pending c !! id with
      | Some PCall => ([], [Answered id (inr v)], forget id c)
      | Some (PChecked true) =>
          ([], [Opened id (inr tt)], set_pending (<[id := PChecked false]> (rc_pending c)) c)
      | _ => ([], [], c)
      end
  | None, None, Some item =>
      match rc_pending c !! id with
      | Some PStream =>
          if decide (id ∈ rc_deaf c) then ([cancel_frame id], [], forget id c) else ([], [Item id item], c)
      | Some (PChecked ready) =>
          ([], (if ready then [Opened id (inr tt)] else []) ++ [Item id item],
           set_pending (<[id := PChecked false]> (rc_pending c)) c)
      | _ => ([], [], c)
      end
  | None, None, None =>
      if sf_done f then
        match rc_pending c !! id with
        | Some p => ([], finish_pending id p, forget id c)
        | None => ([], [], c)
        end
      else ([], [], c)
  end.

(** The frames of one message, in order. *)
Fixpoint route_frames (fs : list ServerFrame) (c : Client) : list ClientFrame * list Seen * Client :=
  match fs with
  | [] => ([], [], c)
  | f :: fs =>
      let '(out, seen, c) := route_frame f c in
      let '(out', seen', c) := route_frames fs c in (out ++ out', seen ++ seen', c)
  end.

(** The end of the reader: everything still pending fails. *)
Definition reader_end (c : Client) : list Seen * Client :=
  (map_to_list (rc_pending c) ≫= (fun '(id, p) => fail_pending id Closed p), set_pending ∅ c).

(** The receiver of a plain stream is dropped, which the next item finds out; a
    checked subscription's drop cancels at once. *)
Definition drop_receiver (id : N) (c : Client) : Client := mk_client (rc_pending c) (rc_next c) ({[id]} ∪ rc_deaf c).

Definition drop_subscription (id : N) (c : Client) : list ClientFrame * Client :=
  match rc_pending c !! id with Some _ => ([cancel_frame id], forget id c) | None => ([], c) end.

(** ** The server *)

Inductive Task := Asked (method : string) (params : Value) | Streaming.

Record Job := mk_job { jb_id : N; jb_task : Task; jb_aborted : bool }.

(** The tasks that were spawned and have not ended, by handle, and the handles by
    request id. *)
Record Server := mk_server { sv_jobs : gmap nat Job; sv_running : gmap N nat; sv_spawned : nat }.

Definition server_new : Server := mk_server ∅ ∅ 0.

(** One frame in the dispatch loop. An aborted task stops at its next await, which
    is a step of its own. *)
Definition serve_frame (f : ClientFrame) (s : Server) : Server :=
  let running := filter (fun ih => is_Some (sv_jobs s !! ih.2)) (sv_running s) in
  if cf_cancel f then
    match running !! cf_id f with
    | Some h => mk_server (alter (fun j => mk_job (jb_id j) (jb_task j) true) h (sv_jobs s))
                  (delete (cf_id f) running) (sv_spawned s)
    | None => mk_server (sv_jobs s) running (sv_spawned s)
    end
  else
    match cf_method f with
    | None => mk_server (sv_jobs s) running (sv_spawned s)
    | Some method =>
        let h := sv_spawned s in
        mk_server (<[h := mk_job (cf_id f) (Asked method (cf_params f)) false]> (sv_jobs s))
          (<[cf_id f := h]> running) (S h)
    end.

Definition set_jobs (m : gmap nat Job) (s : Server) : Server := mk_server m (sv_running s) (sv_spawned s).

Definition frame_ok (id : N) (v : Value) : ServerFrame := mk_sframe id (Some v) None None false.
Definition frame_err (id : N) (e : RpcError) : ServerFrame := mk_sframe id None (Some (error_text e)) None false.
Definition frame_item (id : N) (v : Value) : ServerFrame := mk_sframe id None None (Some v) false.
Definition frame_done (id : N) : ServerFrame := mk_sframe id None None None true.

Inductive RpcReply := RValue (v : Value) | RStream.

(** The acknowledgement of the one versioned stream. *)
Definition stream_ready : Value := Object [("stream", Bool true)].

(** The turns of [handle_request]: the service's answer, an item of its stream,
    the stream's end; [None] when the task is not at that point. *)
Definition job_reply (h : nat) (r : RpcError + RpcReply) (s : Server) : option (list ServerFrame * Server) :=
  j ← sv_jobs s !! h;
  match jb_task j, r with
  | Asked _ _, inl e => Some ([frame_err (jb_id j) e], set_jobs (delete h (sv_jobs s)) s)
  | Asked _ _, inr (RValue v) => Some ([frame_ok (jb_id j) v], set_jobs (delete h (sv_jobs s)) s)
  | Asked method _, inr RStream =>
      Some (if String.eqb method WATCH_CHECKOUT_CHANGE_REQUEST then [frame_ok (jb_id j) stream_ready] else [],
            set_jobs (<[h := mk_job (jb_id j) Streaming (jb_aborted j)]> (sv_jobs s)) s)
  | Streaming, _ => None
  end.

Definition job_item (h : nat) (v : Value) (s : Server) : option (list ServerFrame * Server) :=
  j ← sv_jobs s !! h;
  match jb_task j with Streaming => Some ([frame_item (jb_id j) v], s) | Asked _ _ => None end.

Definition job_end (h : nat) (s : Server) : option (list ServerFrame * Server) :=
  j ← sv_jobs s !! h;
  match jb_task j with
  | Streaming => Some ([frame_done (jb_id j)], set_jobs (delete h (sv_jobs s)) s)
  | Asked _ _ => None
  end.

Definition job_stop (h : nat) (s : Server) : option Server :=
  j ← sv_jobs s !! h; if jb_aborted j then Some (set_jobs (delete h (sv_jobs s)) s) else None.

(** ** The connection

    What is in flight either way, whether the transport is up, and the history:
    the calls made, the requests served, what the tasks said and answered, what
    the client routed and what its callers saw. *)
Record Net := mk_net {
  n_cli : Client; n_srv : Server; n_up : list string; n_down : list string; n_open : bool }.

Abbreviation Call := (Pending * string * Value)%type.

Record Hist := mk_hist {
  h_calls : gmap N Call;
  h_served : list N;
  h_said : list ServerFrame;
  h_answers : list (N * string * Value * (RpcError + RpcReply));
  h_routed : list ServerFrame;
  h_seen : list Seen;
}.

Definition net_new : Net := mk_net client_new server_new [] [] true.
Definition hist_new : Hist := mk_hist ∅ [] [] [] [] [].

Inductive Event :=
  | ERequest (kind : Pending) (method : string) (params : Value)
  | EServe
  | EReply (h : nat) (r : RpcError + RpcReply)
  | EItem (h : nat) (v : Value)
  | EEnd (h : nat)
  | EStop (h : nat)
  | ERead
  | EDeaf (id : N)
  | EUnsubscribe (id : N)
  | EClose (keep : nat)
  | EServerEnd
  | EReaderEnd.

Section Connection.
Context {J : JsonText}.

Definition client_text (f : ClientFrame) : string := to_text (client_value f).
Definition server_text (f : ServerFrame) : string := to_text (server_value f).

(** What the client writes goes out while the transport is up. *)
Definition sends_up (n : Net) (out : list ClientFrame) (c : Client) : Net :=
  mk_net c (n_srv n) (if n_open n then n_up n ++ (client_text <$> out) else n_up n) (n_down n) (n_open n).

Definition sees (seen : list Seen) (h : Hist) : Hist :=
  mk_hist (h_calls h) (h_served h) (h_said h) (h_answers h) (h_routed h) (h_seen h ++ seen).

(** What a task says. *)
Definition says (out : list ServerFrame) (s : Server) (st : Net * Hist) : Net * Hist :=
  let '(n, h) := st in
  (mk_net (n_cli n) s (n_up n) (if n_open n then n_down n ++ (server_text <$> out) else n_down n) (n_open n),
   mk_hist (h_calls h) (h_served h) (h_said h ++ out) (h_answers h) (h_routed h) (h_seen h)).

Definition request_ids (fs : list ClientFrame) : list N :=
  omap (fun f => if cf_cancel f then None else match cf_method f with Some _ => Some (cf_id f) | None => None end) fs.

(** One turn of one side; [None] when there is nothing for it to do. *)
Definition net_step (e : Event) (st : Net * Hist) : option (Net * Hist) :=
  let '(n, h) := st in
  match e with
  | ERequest kind method params =>
      let kind := match kind with PChecked _ => PChecked true | k => k end in
      let '(out, seen, c) := request (n_open n) kind method params (n_cli n) in
      Some (sends_up n out c,
            sees seen (mk_hist (<[rc_next (n_cli n) := (kind, method, params)]> (h_calls h)) (h_served h) (h_said h)
                         (h_answers h) (h_routed h) (h_seen h)))
  | EServe =>
      match n_up n with
      | [] => None
      | payload :: up =>
          let fs := frames client_of_value payload in
          Some (mk_net (n_cli n) (foldl (fun s f => serve_frame f s) (n_srv n) fs) up (n_down n) (n_open n),
                mk_hist (h_calls h) (h_served h ++ request_ids fs) (h_said h) (h_answers h) (h_routed h) (h_seen h))
      end
  | EReply k r =>
      j ← sv_jobs (n_srv n) !! k;
      '(out, s) ← job_reply k r (n_srv n);
      match jb_task j with
      | Asked method params =>
          Some (says out s (n, mk_hist (h_calls h) (h_served h) (h_said h)
                                 (h_answers h ++ [(jb_id j, method, params, r)]) (h_routed h) (h_seen h)))
      | Streaming => None
      end
  | EItem k v => '(out, s) ← job_item k v (n_srv n); Some (says out s st)
  | EEnd k => '(out, s) ← job_end k (n_srv n); Some (says out s st)
  | EStop k => s ← job_stop k (n_srv n); Some (says [] s st)
  | ERead =>
      match n_down n with
      | [] => None
      | payload :: down =>
          let fs := frames server_of_value payload in
          let '(out, seen, c) := route_frames fs (n_cli n) in
          Some (sends_up (mk_net (n_cli n) (n_srv n) (n_up n) down (n_open n)) out c,
                sees seen (mk_hist (h_calls h) (h_served h) (h_said h) (h_answers h) (h_routed h ++ fs) (h_seen h)))
      end
  | EDeaf id =>
      match h_calls h !! id with
      | Some (PStream, _, _) => Some (sends_up n [] (drop_receiver id (n_cli n)), h)
      | _ => None
      end
  | EUnsubscribe id =>
      match rc_pending (n_cli n) !! id with
      | Some (PChecked _) => let '(out, c) := drop_subscription id (n_cli n) in Some (sends_up n out c, h)
      | _ => None
      end
  | EClose keep => Some (mk_net (n_cli n) (n_srv n) (n_up n) (take keep (n_down n)) false, h)
  | EServerEnd =>
      if n_open n then None
      else Some (mk_net (n_cli n) (mk_server ∅ ∅ (sv_spawned (n_srv n))) [] (n_down n) false, h)
  | EReaderEnd =>
      if n_open n then None
      else match n_down n with
           | [] => let '(seen, c) := reader_end (n_cli n) in Some (sends_up n [] c, sees seen h)
           | _ :: _ => None
           end
  end.

(** Turns one after the other; a turn with nothing to do is passed over. *)
Definition net_run (es : list Event) (st : Net * Hist) : Net * Hist :=
  foldl (fun st e => default st (net_step e st)) st es.
End Connection.

(** ** What a frame is once it crossed *)

Definition non_null (v : Value) : option Value := if is_null v then None else Some v.

(** A null reply and a null item read back as absent. *)
Definition wire (f : ServerFrame) : ServerFrame :=
  mk_sframe (sf_id f) (sf_ok f ≫= non_null) (sf_err f) (sf_item f ≫= non_null) (sf_done f).

Lemma client_value_back f : (cf_id f <= Z.to_N U64_MAX)%N -> client_of_value (client_value f) = Some f.
Proof.
  intros H. unfold client_of_value, field_req. cbn -[as_u64]. rewrite as_u64_of_N by done.
  destruct f as [id [m|] p [|]]; destruct p; done.
Qed.

Lemma server_value_back f : (sf_id f <= Z.to_N U64_MAX)%N -> server_of_value (server_value f) = Some (wire f).
Proof.
  intros H. unfold server_of_value, field_req. cbn -[as_u64]. rewrite as_u64_of_N by done.
  destruct f as [id [o|] [e|] [i|] [|]]; try (destruct o); try (destruct i); done.
Qed.

Section Lines.
Context {J : JsonText} {L : JsonTextLaws J}.

Lemma frames_text {A} (parse : Value -> option A) v f : parse v = Some f -> frames parse (to_text v) = [f].
Proof.
  intros H. unfold frames. rewrite text_one_line. cbn. rewrite text_trimmed.
  destruct (String.eqb_spec (to_text v) "") as [E|_]; [by apply text_nonempty in E|].
  rewrite text_roundtrip. cbn. by rewrite H.
Qed.
End Lines.

(** ** The client's invariant

    Over the calls made, the frames routed and what was seen. *)
Definition same_kind (p k : Pending) : Prop :=
  match p, k with PCall, PCall | PStream, PStream | PChecked _, PChecked _ => True | _, _ => False end.

Definition answered_ids (seen : list Seen) : list N :=
  omap (fun x => match x with Answered id _ => Some id | _ => None end) seen.

Definition items_of (id : N) (seen : list Seen) : list Value :=
  omap (fun x => match x with Item i v => if (i =? id)%N then Some v else None | _ => None end) seen.

(** The item a frame carries for a stream. *)
Definition item_for (id : N) (f : ServerFrame) : option Value :=
  if (sf_id f =? id)%N then
    match sf_err f, sf_ok f with None, None => sf_item f | _, _ => None end
  else None.

(** A frame that settles a pending call. *)
Definition settles (f : ServerFrame) : bool :=
  match sf_err f, sf_ok f, sf_item f with
  | Some _, _, _ | _, Some _, _ => true
  | _, _, Some _ => false
  | _, _, None => sf_done f
  end.

(** Why a call got its result. *)
Definition explained (routed : list ServerFrame) (id : N) (r : RpcError + Value) : Prop :=
  match r with
  | inr v => exists f, f ∈ routed /\ sf_id f = id /\ sf_err f = None /\ sf_ok f = Some v
  | inl e => e = Closed \/ exists f t, f ∈ routed /\ sf_id f = id /\ sf_err f = Some t /\ e = wire_error t
  end.

Record client_ok (calls : gmap N Call) (routed : list ServerFrame) (seen : list Seen) (c : Client) : Prop := {
  co_kind id p : rc_pending c !! id = Some p -> exists k m v, calls !! id = Some (k, m, v) /\ same_kind p k;
  co_why id r : Answered id r ∈ seen -> (exists m v, calls !! id = Some (PCall, m, v)) /\ explained routed id r;
  co_once : NoDup (answered_ids seen);
  co_open id p : rc_pending c !! id = Some p -> id ∉ answered_ids seen;
  co_all id m v : calls !! id = Some (PCall, m, v) -> rc_pending c !! id = None -> id ∈ answered_ids seen;
  co_prefix id : items_of id seen `prefix_of` omap (item_for id) routed;
  co_items id p : rc_pending c !! id = Some p -> p <> PCall -> id ∉ rc_deaf c ->
    items_of id seen = omap (item_for id) routed;
  co_deaf id : id ∈ rc_deaf c -> exists m v, calls !! id = Some (PStream, m, v);
}.

Lemma answered_ids_app s t : answered_ids (s ++ t) = answered_ids s ++ answered_ids t.
Proof. apply omap_app. Qed.
Lemma items_of_app id s t : items_of id (s ++ t) = items_of id s ++ items_of id t.
Proof. apply omap_app. Qed.

Lemma answered_ids_elem id seen : id ∈ answered_ids seen <-> exists r, Answered id r ∈ seen.
Proof.
  unfold answered_ids. rewrite list_elem_of_omap. split.
  - intros ([i r| | |] & Hin & E); try done. injection E as ->. eauto.
  - intros [r Hr]. by exists (Answered id r).
Qed.

Lemma explained_app routed l id r : explained routed id r -> explained (routed ++ l) id r.
Proof.
  destruct r as [e|v]; cbn.
  - intros [H|(f & t & Hin & H)]; [by left|right]. exists f, t. split; [apply elem_of_app; by left|done].
  - intros (f & Hin & H). exists f. split; [apply elem_of_app; by left|done].
Qed.

(** What a turn of the client adds for the streams, and for the calls. *)
Lemma client_settled calls routed seen c l new c' :
  client_ok calls routed seen c ->
  rc_deaf c' = rc_deaf c ->
  (forall id p, rc_pending c' !! id = Some p -> exists q, rc_pending c !! id = Some q /\ same_kind p q) ->
  (forall id r, Answered id r ∈ new ->
     rc_pending c !! id = Some PCall /\ rc_pending c' !! id = None /\ explained (routed ++ l) id r) ->
  NoDup (answered_ids new) ->
  (forall id, rc_pending c !! id = Some PCall -> rc_pending c' !! id = None -> id ∈ answered_ids new) ->
  (forall id, items_of id new <> [] -> exists p, rc_pending c !! id = Some p /\ p <> PCall /\ id ∉ rc_deaf c) ->
  (forall id p, rc_pending c !! id = Some p -> p <> PCall -> id ∉ rc_deaf c ->
     items_of id new `prefix_of` omap (item_for id) l) ->
  (forall id p, rc_pending c' !! id = Some p -> p <> PCall -> id ∉ rc_deaf c' ->
     items_of id new = omap (item_for id) l) ->
  client_ok calls (routed ++ l) (seen ++ new) c'.
Proof.
  intros H Hd Hk Ha Hn Hall Hi Hp He.
  assert (forall p q k, same_kind p q -> same_kind q k -> same_kind p k) as Htr by (by intros [] [] []).
  split.
  - intros id p E. destruct (Hk id p E) as (q & Eq & Hs). destruct (co_kind _ _ _ _ H id q Eq) as (k & m & v & Ec & Hs').
    exists k, m, v. split; [done|by eapply Htr].
  - intros id r [Hr|Hr]%elem_of_app.
    + destruct (co_why _ _ _ _ H id r Hr). split; [done|by apply explained_app].
    + destruct (Ha id r Hr) as (Ep & _ & He'). split; [|done].
      destruct (co_kind _ _ _ _ H id PCall Ep) as ([] & m & v & Ec & Hs); try done. eauto.
  - rewrite answered_ids_app. apply NoDup_app. split; [apply H|]. split; [|done].
    intros id Hid [r Hr]%answered_ids_elem. destruct (Ha id r Hr) as (Ep & _).
    by apply (co_open _ _ _ _ H id PCall Ep).
  - intros id p E. rewrite answered_ids_app. intros [Hin|[r Hr]%answered_ids_elem]%elem_of_app.
    + destruct (Hk id p E) as (q & Eq & _). by apply (co_open _ _ _ _ H id q Eq).
    + destruct (Ha id r Hr) as (_ & En & _). by rewrite E in En.
  - intros id m v Ec En. rewrite answered_ids_app. apply elem_of_app.
    destruct (rc_pending c !! id) as [p|] eqn:Ep; [|left; by eapply co_all].
    right. destruct (co_kind _ _ _ _ H id p Ep) as (k & m' & v' & Ec' & Hs). rewrite Ec in Ec'. injection Ec' as <- <- <-.
    destruct p; try done. by apply Hall.
  - intros id. rewrite items_of_app, omap_app. destruct (decide (items_of id new = [])) as [->|Hne].
    + rewrite app_nil_r. by apply prefix_app_r, H.
    + destruct (Hi id Hne) as (p & Ep & Hp1 & Hp2). rewrite (co_items _ _ _ _ H id p Ep Hp1 Hp2).
      apply prefix_app. by eapply Hp.
  - intros id p E Hne Hdf. rewrite items_of_app, omap_app. rewrite (He id p E Hne Hdf). f_equal.
    destruct (Hk id p E) as (q & Eq & Hs). apply (co_items _ _ _ _ H id q Eq); [by destruct p, q|by rewrite <- Hd].
  - rewrite Hd. apply H.
Qed.

(** What [route_frame] does: nothing, or the entry of the frame's id changes. *)
Lemma route_frame_frame f c out seen c' id :
  route_frame f c = (out, seen, c') -> id <> sf_id f ->
  rc_pending c' !! id = rc_pending c !! id /\ rc_deaf c' = rc_deaf c /\
  id ∉ answered_ids seen /\ items_of id seen = [].
Proof.
  intros H Hne. assert ((sf_id f =? id)%N = false) as Hb by (by apply N.eqb_neq).
  unfold route_frame in H.
  destruct (sf_err f), (sf_ok f), (sf_item f), (rc_pending c !! sf_id f) as [[| |[]]|], (sf_done f);
    try destruct (decide (sf_id f ∈ rc_deaf c)); injection H as <- <- <-; cbn;
    rewrite ?Hb, ?lookup_delete_ne, ?lookup_insert_ne by done; repeat split; cbn;
    try done; by rewrite ?list_elem_of_singleton; try (by apply not_elem_of_nil).
Qed.

Lemma route_frame_own f c out seen c' :
  let id := sf_id f in
  route_frame f c = (out, seen, c') ->
  match rc_pending c !! id with
  | None => seen = [] /\ c' = c
  | Some PCall =>
      if settles f then c' = forget id c /\ exists r, seen = [Answered id r] /\ explained [f] id r
      else seen = [] /\ c' = c
  | Some p =>
      rc_deaf c' = rc_deaf c /\ answered_ids seen = [] /\
      (forall q, rc_pending c' !! id = Some q -> same_kind q p) /\
      (forall q, rc_pending c' !! id = Some q -> p = PStream -> id ∈ rc_deaf c -> item_for id f = None) /\
      items_of id seen = (if decide (p = PStream /\ id ∈ rc_deaf c) then [] else omap (item_for id) [f])
  end.
Proof.
  cbn zeta. unfold route_frame, settles, item_for. cbn. rewrite N.eqb_refl.
  destruct (rc_pending c !! sf_id f) as [[| |r]|] eqn:Ep.
  - destruct (sf_err f) as [t|] eqn:Ee; [intros [= <- <- <-]|destruct (sf_ok f) as [v|] eqn:Eo;
      [intros [= <- <- <-]|destruct (sf_item f); [by intros [= <- <- <-]|destruct (sf_done f); intros [= <- <- <-]; [|done]]]];
      (split; [done|]; eexists; split; [done|]); cbn.
    + right. exists f, t. rewrite list_elem_of_singleton. done.
    + exists f. rewrite list_elem_of_singleton. done.
    + by left.
  - destruct (sf_err f); [|destruct (sf_ok f); [|destruct (sf_item f); [|destruct (sf_done f)]]].
    4: { intros [= <- <- <-]. cbn. rewrite lookup_delete_eq. repeat split; try done. by destruct (decide _). }
    all: try (intros [= <- <- <-]; cbn; rewrite ?lookup_delete_eq, ?Ep; repeat split;
      try done; try (by intros q [= <-]); by destruct (decide _)).
    destruct (decide (sf_id f ∈ rc_deaf c)); intros [= <- <- <-]; cbn; rewrite ?lookup_delete_eq, ?Ep, ?N.eqb_refl;
      (repeat split; try done; try (by intros q [= <-])); rewrite ?decide_True, ?decide_False by tauto; done.
  - rewrite decide_False by (by intros [[=] _]).
    destruct (sf_err f); [|destruct (sf_ok f); [|destruct (sf_item f); [|destruct (sf_done f)]]];
      destruct r; intros [= <- <- <-]; cbn; rewrite ?lookup_delete_eq, ?lookup_insert_eq, ?Ep, ?N.eqb_refl;
      repeat split; try done; by intros q [= <-].
  - destruct (sf_err f); [by intros [= <- <- <-]|]. destruct (sf_ok f); [by intros [= <- <- <-]|].
    destruct (sf_item f); [by intros [= <- <- <-]|]. by destruct (sf_done f); intros [= <- <- <-].
Qed.

Lemma not_answered seen : answered_ids seen = [] -> forall id r, Answered id r ∉ seen.
Proof.
  intros E id r H. assert (id ∈ answered_ids seen) as Hin by (apply answered_ids_elem; eauto).
  rewrite E in Hin. by apply elem_of_nil in Hin.
Qed.

Lemma not_answered_other seen id : id ∉ answered_ids seen -> forall r, Answered id r ∉ seen.
Proof. intros E r H. apply E, answered_ids_elem. eauto. Qed.

Lemma item_for_other f id : id <> sf_id f -> omap (item_for id) [f] = [].
Proof.
  intros H. cbn. unfold item_for. destruct (N.eqb_spec (sf_id f) id) as [E|_]; [|done]. by symmetry in E.
Qed.

(** The facts of the entry of one id carry over to the whole table. *)
Lemma client_settled_at calls routed seen c f new c' :
  let i := sf_id f in
  client_ok calls routed seen c -> rc_deaf c' = rc_deaf c ->
  (forall id, id <> i -> rc_pending c' !! id = rc_pending c !! id /\ id ∉ answered_ids new /\ items_of id new = []) ->
  (forall p, rc_pending c' !! i = Some p -> exists q, rc_pending c !! i = Some q /\ same_kind p q) ->
  (answered_ids new = [] \/ exists r, new = [Answered i r] /\ rc_pending c !! i = Some PCall /\
     rc_pending c' !! i = None /\ explained (routed ++ [f]) i r) ->
  (rc_pending c !! i = Some PCall -> rc_pending c' !! i = None -> answered_ids new <> []) ->
  (items_of i new <> [] -> exists p, rc_pending c !! i = Some p /\ p <> PCall /\ i ∉ rc_deaf c) ->
  (forall p, rc_pending c !! i = Some p -> p <> PCall -> i ∉ rc_deaf c ->
     items_of i new = omap (item_for i) [f]) ->
  client_ok calls (routed ++ [f]) (seen ++ new) c'.
Proof.
  cbn zeta. intros H Hd Ho Hk Ha Hall Hi Hp.
  assert (forall id r, Answered id r ∈ new -> id = sf_id f) as Hid.
  { intros id r Hr. destruct (decide (id = sf_id f)) as [|Hne]; [done|]. destruct (Ho id Hne) as (_ & Hn & _).
    by apply not_answered_other with (r := r) in Hn. }
  apply (client_settled calls routed seen c [f] new c' H Hd).
  - intros id p E. destruct (decide (id = sf_id f)) as [->|Hne]; [by apply Hk|].
    destruct (Ho id Hne) as (<- & _). exists p. split; [done|by destruct p].
  - intros id r Hr. pose proof (Hid id r Hr) as ->. destruct Ha as [Ha|(r' & -> & E1 & E2 & E3)].
    + by apply not_answered with (id := sf_id f) (r := r) in Ha.
    + apply list_elem_of_singleton in Hr. by injection Hr as ->.
  - destruct Ha as [->|(r & -> & _)]; [apply NoDup_nil_2|apply NoDup_singleton].
  - intros id E1 E2. destruct (decide (id = sf_id f)) as [->|Hne].
    + destruct Ha as [Ha|(r & -> & _)]; [by destruct (Hall E1 E2)|by apply list_elem_of_singleton].
    + destruct (Ho id Hne) as (E & _). by rewrite E, E1 in E2.
  - intros id Hn. destruct (decide (id = sf_id f)) as [->|Hne]; [by apply Hi|]. by destruct (Ho id Hne) as (_ & _ & E).
  - intros id p E1 E2 E3. destruct (decide (id = sf_id f)) as [->|Hne].
    + by rewrite (Hp p E1 E2 E3).
    + destruct (Ho id Hne) as (_ & _ & ->). apply prefix_nil.
  - intros id p E1 E2 E3. destruct (decide (id = sf_id f)) as [->|Hne].
    + destruct (Hk p E1) as (q & Eq & Hs). rewrite Hd in E3. apply (Hp q Eq); [by destruct p, q|done].
    + destruct (Ho id Hne) as (_ & _ & ->). by rewrite item_for_other.
Qed.

Lemma route_frame_ok calls routed seen c f out new c' :
  client_ok calls routed seen c -> route_frame f c = (out, new, c') ->
  client_ok calls (routed ++ [f]) (seen ++ new) c'.
Proof.
  intros H E. pose proof (route_frame_own f c out new c' E) as Hown. cbn zeta in Hown.
  assert (rc_deaf c' = rc_deaf c) as Hd.
  { destruct (rc_pending c !! sf_id f) as [[]|]; [|by destruct Hown..|by destruct Hown as [_ ->]].
    destruct (settles f); [by destruct Hown as [-> _]|by destruct Hown as [_ ->]]. }
  apply (client_settled_at calls routed seen c f new c' H Hd).
  { intros id Hne. destruct (route_frame_frame f c out new c' id E Hne) as (E1 & _ & E2). done. }
  all: destruct (rc_pending c !! sf_id f) as [p|] eqn:Ep; [|destruct Hown as [-> ->]; rewrite ?Ep; by try left].
  - intros q Eq. exists p. split; [done|]. destruct p; [|by apply Hown..].
    destruct (settles f); destruct Hown as [E1 E2]; [subst c'; cbn in Eq; by rewrite lookup_delete_eq in Eq|].
    subst c'. rewrite Ep in Eq. by injection Eq as <-.
  - destruct p; [|left; by apply Hown..]. destruct (settles f); [|destruct Hown as [-> _]; by left].
    destruct Hown as [-> (r & -> & Hx)]. right. exists r. split; [done|]. split; [done|].
    split; [cbn; apply lookup_delete_eq|]. destruct r as [e|v]; cbn in *.
    + destruct Hx as [->|(g & t & Hg%list_elem_of_singleton & Hx)]; [by left|subst g; right]. exists f, t.
      split; [apply elem_of_app; right; by apply list_elem_of_singleton|done].
    + destruct Hx as (g & Hg%list_elem_of_singleton & Hx). subst g. exists f.
      split; [apply elem_of_app; right; by apply list_elem_of_singleton|done].
  - intros [= ->] En. destruct (settles f); [by destruct Hown as [_ (r & -> & _)]|]. destruct Hown as [_ ->]. by rewrite Ep in En.
  - intros Hi. destruct p; [destruct (settles f); [by destruct Hown as [_ (r & -> & _)]|by destruct Hown as [-> _]]|..];
      destruct Hown as (_ & _ & _ & _ & Hown); rewrite Hown in Hi; destruct (decide _) as [Hx|Hx]; try done;
      eexists; (split; [done|]; split; [done|]).
    + intros Hin. by apply Hx.
    + intros Hin. destruct (co_deaf _ _ _ _ H _ Hin) as (m & v & Ec).
      destruct (co_kind _ _ _ _ H _ _ Ep) as (k & m' & v' & Ec' & Hs). rewrite Ec in Ec'. by injection Ec' as <- <- <-.
  - intros q [= <-] Hne Hdf. destruct p; [done|..]; destruct Hown as (_ & _ & _ & _ & ->); by rewrite decide_False by tauto.
Qed.

Lemma route_frames_ok calls fs routed seen c out new c' :
  client_ok calls routed seen c -> route_frames fs c = (out, new, c') ->
  client_ok calls (routed ++ fs) (seen ++ new) c'.
Proof.
  revert routed seen c out new. induction fs as [|f fs IH]; intros routed seen c out new H; cbn.
  - intros [= <- <- <-]. by rewrite !app_nil_r.
  - destruct (route_frame f c) as [[o1 s1] c1] eqn:E1. destruct (route_frames fs c1) as [[o2 s2] c2] eqn:E2.
    intros [= <- <- <-]. rewrite (cons_middle f), !app_assoc. eapply IH; [|done]. by eapply route_frame_ok.
Qed.

Lemma item_for_none id routed : (forall f, f ∈ routed -> sf_id f <> id) -> omap (item_for id) routed = [].
Proof.
  induction routed as [|f l IH]; intros H; [done|].
  change (f :: l) with ([f] ++ l). rewrite omap_app, item_for_other, IH; [done| |].
  - intros g Hg. apply H. by right.
  - intros ->. by apply (H f); [left|].
Qed.

(** A table that changes at a fresh id, or loses entries that see their end. *)
Lemma request_ok calls routed seen c open kind m v out new c' :
  client_ok calls routed seen c -> calls !! rc_next c = None -> (forall f, f ∈ routed -> sf_id f <> rc_next c) ->
  request open kind m v c = (out, new, c') ->
  client_ok (<[rc_next c := (kind, m, v)]> calls) routed (seen ++ new) c'.
Proof.
  intros H Hfr Hro. set (i := rc_next c) in *.
  assert (i ∉ answered_ids seen) as Hna.
  { intros [r Hr]%answered_ids_elem. destruct (co_why _ _ _ _ H i r Hr) as ((? & ? & E') & _). by rewrite Hfr in E'. }
  assert (forall id k m' v', calls !! id = Some (k, m', v') -> <[i := (kind, m, v)]> calls !! id = Some (k, m', v')) as Hcalls.
  { intros id k m' v' E. rewrite lookup_insert_ne; [done|]. intros <-. by rewrite Hfr in E. }
  assert (items_of i seen = []) as Hi0.
  { pose proof (co_prefix _ _ _ _ H i) as Hpre. rewrite item_for_none in Hpre by done. by apply prefix_nil_inv in Hpre. }
  assert (forall id m' v', <[i := (kind, m, v)]> calls !! id = Some (PCall, m', v') -> id <> i ->
    calls !! id = Some (PCall, m', v')) as Hback by (intros id m' v' E Hne; by rewrite lookup_insert_ne in E).
  unfold request. fold i. destruct open; intros [= <- <- <-].
  - set (new := match kind with PStream => _ | _ => _ end).
    assert (answered_ids new = [] /\ forall id, items_of id new = []) as [En Ei] by (by destruct kind).
    split; cbn; intros *; rewrite ?answered_ids_app, ?items_of_app, ?En, ?Ei, ?app_nil_r.
    + intros [[<- <-]|[Hne E]]%lookup_insert_Some; [exists kind, m, v; split; [apply lookup_insert_eq|by destruct kind]|].
      destruct (co_kind _ _ _ _ H _ _ E) as (k & m' & v' & E' & Hs). eauto 6.
    + intros [Hr|Hr]%elem_of_app; [|by apply not_answered with (id := id) (r := r) in En].
      destruct (co_why _ _ _ _ H _ _ Hr) as ((m' & v' & E) & Hx). eauto 6.
    + apply H.
    + intros [[<- <-]|[Hne E]]%lookup_insert_Some; [done|by eapply co_open].
    + intros E [En' Hne]%lookup_insert_None. eapply (co_all _ _ _ _ H); [apply Hback; [exact E|by intros ->]|done].
    + apply H.
    + intros [[<- <-]|[Hne E]]%lookup_insert_Some Hk Hd; [by rewrite Hi0, item_for_none|by eapply co_items].
    + intros Hin. destruct (co_deaf _ _ _ _ H _ Hin) as (m' & v' & E). eauto.
  - set (new := match kind with PCall => _ | _ => _ end).
    assert (forall id, items_of id new = []) as Ei by (by destruct kind).
    assert (forall id, id ∈ answered_ids new <-> id = i /\ kind = PCall) as Ea.
    { intros id. destruct kind; cbn; rewrite ?list_elem_of_singleton; [naive_solver|..];
        (split; [by intros ?%elem_of_nil|by intros [_ [=]]]). }
    assert (forall id p, delete i (<[i := kind]> (rc_pending c)) !! id = Some p -> id <> i /\ rc_pending c !! id = Some p) as Ed.
    { intros id p. rewrite delete_insert_eq. intros [Hne E]%lookup_delete_Some. split; [by intros ->|done]. }
    split; cbn; intros *; rewrite ?answered_ids_app, ?items_of_app, ?Ei, ?app_nil_r.
    + intros [Hne E]%Ed. destruct (co_kind _ _ _ _ H _ _ E) as (k & m' & v' & E' & Hs). eauto 6.
    + intros [Hr|Hr]%elem_of_app.
      * destruct (co_why _ _ _ _ H _ _ Hr) as ((m' & v' & E) & Hx). eauto 6.
      * destruct kind; cbn in Hr; apply list_elem_of_singleton in Hr; try done. injection Hr as -> ->.
        split; [exists m, v; apply lookup_insert_eq|by left].
    + apply NoDup_app. split; [apply H|]. split; [by intros id Hid [-> _]%Ea|].
      destruct kind; [apply NoDup_singleton|apply NoDup_nil_2..].
    + intros [Hne E]%Ed [Hin|[? _]%Ea]%elem_of_app; [by eapply co_open|done].
    + intros E En. apply elem_of_app. destruct (decide (id = i)) as [->|Hne].
      * right. apply Ea. rewrite lookup_insert_eq in E. by injection E as -> _ _.
      * left. eapply (co_all _ _ _ _ H); [by apply Hback|]. by rewrite delete_insert_eq, lookup_delete_ne in En by done.
    + apply H.
    + intros [Hne E]%Ed Hk Hd. by eapply co_items.
    + intros Hin. destruct (co_deaf _ _ _ _ H _ Hin) as (m' & v' & E). eauto.
Qed.

Lemma drop_receiver_ok calls routed seen c id m v :
  client_ok calls routed seen c -> calls !! id = Some (PStream, m, v) ->
  client_ok calls routed seen (drop_receiver id c).
Proof.
  intros [] Hid. split; cbn; try done.
  - intros i p E Hne Hdf. eapply co_items0; [done..|set_solver].
  - intros i [->%elem_of_singleton|Hin]%elem_of_union; [eauto|by apply co_deaf0].
Qed.

Lemma drop_subscription_ok calls routed seen c id r :
  client_ok calls routed seen c -> rc_pending c !! id = Some (PChecked r) ->
  client_ok calls routed seen (drop_subscription id c).2.
Proof.
  intros H Hid. unfold drop_subscription. rewrite Hid. cbn.
  assert (forall i p, delete id (rc_pending c) !! i = Some p -> rc_pending c !! i = Some p) as Hd
    by (intros i p E; by apply lookup_delete_Some in E as [_ E]).
  split; cbn; try apply H.
  - intros i p E. by eapply co_kind, Hd.
  - intros i p E. by eapply co_open, Hd.
  - intros i m v Ec En. apply lookup_delete_None in En as [<-|En]; [|by eapply co_all].
    destruct (co_kind _ _ _ _ H _ _ Hid) as (k & m' & v' & E' & Hs). rewrite Ec in E'. by injection E' as <- <- <-.
  - intros i p E. by eapply co_items, Hd.
Qed.

Lemma reader_end_answered c id r :
  Answered id r ∈ (reader_end c).1 <-> rc_pending c !! id = Some PCall /\ r = inl Closed.
Proof.
  unfold reader_end. cbn. rewrite list_elem_of_bind. split.
  - intros ([i p] & Hin & E%elem_of_map_to_list). destruct p as [| |[]]; cbn in Hin; apply list_elem_of_singleton in Hin;
      try done. by injection Hin as -> ->.
  - intros [E ->]. exists (id, PCall). split; [by apply list_elem_of_singleton|by apply elem_of_map_to_list].
Qed.

Lemma reader_end_quiet id l : items_of id (l ≫= (fun '(i, p) => fail_pending i Closed p)) = [].
Proof. induction l as [|[i [| |[]]] l IH]; [done|..]; exact IH. Qed.

Lemma reader_end_once c : NoDup (answered_ids (reader_end c).1).
Proof.
  unfold reader_end. cbn. pose proof (NoDup_fst_map_to_list (rc_pending c)) as Hn.
  assert (forall l : list (N * Pending), NoDup l.*1 ->
    NoDup (answered_ids (l ≫= (fun '(i, p) => fail_pending i Closed p))) /\
    forall i, i ∈ answered_ids (l ≫= (fun '(i, p) => fail_pending i Closed p)) -> i ∈ l.*1) as Hgo.
  { induction l as [|[i p] l IH]; [split; [apply NoDup_nil_2|done]|]. intros [Hi Hl]%NoDup_cons.
    destruct (IH Hl) as [H1 H2]. cbn. rewrite answered_ids_app. destruct p as [| |[]]; cbn.
    - split; [apply NoDup_cons; split; [by intros Hin%H2|done]|]. intros j [->|Hj]%elem_of_cons; [left|right; by apply H2].
    - split; [done|]. intros j Hj. right. by apply H2.
    - split; [done|]. intros j Hj. right. by apply H2.
    - split; [done|]. intros j Hj. right. by apply H2. }
  by apply Hgo.
Qed.

Lemma reader_end_ok calls routed seen c :
  client_ok calls routed seen c -> client_ok calls routed (seen ++ (reader_end c).1) (reader_end c).2.
Proof.
  intros H. rewrite <- (app_nil_r routed).
  apply (client_settled calls routed seen c [] _ _ H); cbn [snd reader_end]; try done.
  - intros id r [E ->]%reader_end_answered. split; [done|]. split; [done|by left].
  - apply reader_end_once.
  - intros id E _. apply answered_ids_elem. exists (inl Closed). by apply reader_end_answered.
  - intros id Hne. destruct Hne. apply reader_end_quiet.
  - intros id p _ _ _. change (items_of id (reader_end c).1) with (items_of id (map_to_list (rc_pending c) ≫= (fun '(i, p) => fail_pending i Closed p))).
    by rewrite reader_end_quiet.
Qed.

(** ** The server's invariant *)

Definition up_ok (calls : gmap N Call) (f : ClientFrame) : Prop :=
  exists k m v, calls !! cf_id f = Some (k, m, v) /\
    (f = mk_cframe (cf_id f) (Some m) v false \/ f = cancel_frame (cf_id f) /\ k <> PCall).

Abbreviation Answer := (N * string * Value * (RpcError + RpcReply))%type.

(** What a task said for a request is what the service answered to it. *)
Definition said_ok (calls : gmap N Call) (answers : list Answer) (f : ServerFrame) : Prop :=
  exists k m v, calls !! sf_id f = Some (k, m, v) /\
    (forall w, sf_ok f = Some w -> (sf_id f, m, v, inr (RValue w)) ∈ answers \/
       m = WATCH_CHECKOUT_CHANGE_REQUEST /\ w = stream_ready) /\
    (forall t, sf_err f = Some t -> exists e, (sf_id f, m, v, inl e) ∈ answers /\ t = error_text e).

Record server_ok (calls : gmap N Call) (said : list ServerFrame) (answers : list Answer) (s : Server) : Prop := {
  so_task h j : sv_jobs s !! h = Some j -> exists k m v, calls !! jb_id j = Some (k, m, v) /\
    match jb_task j with Asked m' v' => m' = m /\ v' = v | Streaming => True end /\
    (jb_aborted j = true -> k <> PCall);
  so_running id h j : sv_running s !! id = Some h -> sv_jobs s !! h = Some j -> jb_id j = id;
  so_jobs h : (sv_spawned s <= h)%nat -> sv_jobs s !! h = None;
  so_handles id h : sv_running s !! id = Some h -> (h < sv_spawned s)%nat;
  so_said f : f ∈ said -> said_ok calls answers f;
  so_answers id m v r : (id, m, v, r) ∈ answers -> exists k, calls !! id = Some (k, m, v);
}.

Lemma said_ok_mono calls calls' answers answers' f :
  (forall id k m v, calls !! id = Some (k, m, v) -> calls' !! id = Some (k, m, v)) ->
  (forall a, a ∈ answers -> a ∈ answers') -> said_ok calls answers f -> said_ok calls' answers' f.
Proof.
  intros Hc Ha (k & m & v & E & Ho & He). exists k, m, v. split; [by apply Hc|]. split.
  - intros w Hw. destruct (Ho w Hw); [left; by apply Ha|by right].
  - intros t Ht. destruct (He t Ht) as (e & Hin & ->). exists e. split; [by apply Ha|done].
Qed.

Lemma server_ok_calls calls calls' said answers s :
  (forall id k m v, calls !! id = Some (k, m, v) -> calls' !! id = Some (k, m, v)) ->
  server_ok calls said answers s -> server_ok calls' said answers s.
Proof.
  intros Hc []. split; try done.
  - intros h j E. destruct (so_task0 h j E) as (k & m & v & E' & H). exists k, m, v. split; [by apply Hc|done].
  - intros f Hf. eapply said_ok_mono; [exact Hc|done|by apply so_said0].
  - intros id m v r Hin. destruct (so_answers0 _ _ _ _ Hin) as [k E]. eauto.
Qed.

(** A change of one job, to another of the same request or to none. *)
Lemma server_ok_job calls said answers s h j oj :
  server_ok calls said answers s -> sv_jobs s !! h = Some j ->
  (forall j', oj = Some j' -> jb_id j' = jb_id j /\ jb_task j' = Streaming /\ jb_aborted j' = jb_aborted j) ->
  server_ok calls said answers (set_jobs (partial_alter (fun _ => oj) h (sv_jobs s)) s).
Proof.
  intros [] Hj Ho. split; cbn; try done.
  - intros k j' E. destruct (decide (h = k)) as [<-|Hne].
    + rewrite lookup_partial_alter_eq in E. destruct (Ho j' E) as (E1 & E2 & E3).
      destruct (so_task0 h j Hj) as (p & m & v & E4 & _ & E5). exists p, m, v. by rewrite E1, E2, E3.
    + rewrite lookup_partial_alter_ne in E by done. by apply (so_task0 k).
  - intros id k j' Er E. destruct (decide (h = k)) as [<-|Hne].
    + rewrite lookup_partial_alter_eq in E. destruct (Ho j' E) as (-> & _). by eapply so_running0.
    + rewrite lookup_partial_alter_ne in E by done. by eapply so_running0.
  - intros k Hk. destruct (decide (h = k)) as [<-|Hne].
    + by rewrite so_jobs0 in Hj.
    + rewrite lookup_partial_alter_ne by done. by apply so_jobs0.
Qed.

Lemma server_ok_says calls said answers out answers' s :
  server_ok calls said answers s -> (forall a, a ∈ answers -> a ∈ answers') ->
  (forall id m v r, (id, m, v, r) ∈ answers' -> exists k, calls !! id = Some (k, m, v)) ->
  Forall (said_ok calls answers') out -> server_ok calls (said ++ out) answers' s.
Proof.
  intros [] Ha Hn Ho. split; try done. intros f [Hf|Hf]%elem_of_app.
  - eapply said_ok_mono; [done|exact Ha|by apply so_said0].
  - rewrite Forall_forall in Ho. by apply Ho.
Qed.

Lemma serve_frame_ok calls said answers s f :
  server_ok calls said answers s -> up_ok calls f -> server_ok calls said answers (serve_frame f s).
Proof.
  intros [] (k & m & v & Ec & Hf). unfold serve_frame.
  set (running := filter (fun ih => is_Some (sv_jobs s !! ih.2)) (sv_running s)).
  assert (forall id h, running !! id = Some h -> sv_running s !! id = Some h) as Hr
    by (intros id h E; by apply map_lookup_filter_Some in E as [E _]).
  destruct Hf as [->|[-> Hk]]; cbn [cf_cancel cf_method cf_id cf_params cancel_frame].
  - split; cbn; try done.
    + intros h j [[<- <-]|[_ E]]%lookup_insert_Some; [exists k, m, v; by split_and!|by apply (so_task0 h)].
    + intros id h j [[<- <-]|[Hne E]]%lookup_insert_Some.
      * rewrite lookup_insert_eq. by intros [= <-].
      * pose proof (so_handles0 id h (Hr _ _ E)). rewrite lookup_insert_ne by lia. by apply so_running0, Hr.
    + intros h Hh. rewrite lookup_insert_ne by lia. apply so_jobs0. lia.
    + intros id h [[<- <-]|[_ E]]%lookup_insert_Some; [lia|]. pose proof (so_handles0 id h (Hr _ _ E)). lia.
  - destruct (running !! cf_id f) as [h|] eqn:E; [|split; cbn; eauto].
    assert (forall h' j, alter (fun j => mk_job (jb_id j) (jb_task j) true) h (sv_jobs s) !! h' = Some j ->
      exists j0, sv_jobs s !! h' = Some j0 /\ jb_id j = jb_id j0 /\ jb_task j = jb_task j0 /\
        (jb_aborted j = jb_aborted j0 \/ h' = h)) as Ha.
    { intros h' j. destruct (decide (h = h')) as [<-|Hne].
      - rewrite lookup_alter_eq. destruct (sv_jobs s !! h) as [j0|]; [|done]. intros [= <-]. exists j0. by split_and!; [..|right].
      - rewrite lookup_alter_ne by done. intros Ej. exists j. by split_and!; [..|left]. }
    split; cbn; try done.
    + intros h' j Ej. destruct (Ha h' j Ej) as (j0 & E0 & -> & -> & Hab).
      destruct (so_task0 h' j0 E0) as (k' & m' & v' & Ec' & Ht & Hk'). exists k', m', v'. split; [done|]. split; [done|].
      intros Ht'. destruct Hab as [E1| ->]; [apply Hk'; congruence|].
      pose proof (so_running0 _ _ _ (Hr _ _ E) E0) as Hid. rewrite Hid, Ec in Ec'. by injection Ec' as <- _ _.
    + intros id h' j [_ E']%lookup_delete_Some Ej. destruct (Ha h' j Ej) as (j0 & E0 & -> & _). by eapply so_running0; [apply Hr|].
    + intros h' Hh. destruct (alter _ h (sv_jobs s) !! h') as [j|] eqn:Ej; [|done].
      destruct (Ha h' j Ej) as (j0 & E0 & _). by rewrite so_jobs0 in E0.
    + intros id h' [_ E']%lookup_delete_Some. by eapply so_handles0, Hr.
Qed.

Lemma job_reply_ok calls said answers s h j m v r out s' :
  server_ok calls said answers s -> sv_jobs s !! h = Some j -> jb_task j = Asked m v ->
  job_reply h r s = Some (out, s') ->
  server_ok calls (said ++ out) (answers ++ [(jb_id j, m, v, r)]) s'.
Proof.
  intros H Hj Et Er. destruct (so_task _ _ _ _ H h j Hj) as (k & m' & v' & Ec & Ht & _). rewrite Et in Ht.
  destruct Ht as [<- <-].
  assert (server_ok calls said answers s' /\ Forall (said_ok calls (answers ++ [(jb_id j, m, v, r)])) out) as [Hs Ho].
  { unfold job_reply in Er. rewrite Hj in Er. cbn in Er. rewrite Et in Er.
    destruct r as [e|[w|]]; injection Er as <- <-; (split; [by apply (server_ok_job _ _ _ s h j); [..|naive_solver]|]).
    - apply Forall_singleton. exists k, m, v. cbn. split; [done|]. split; [done|]. intros t [= <-]. exists e. split; [|done].
      apply elem_of_app. right. by apply list_elem_of_singleton.
    - apply Forall_singleton. exists k, m, v. cbn. split; [done|]. split; [|done]. intros t [= <-]. left.
      apply elem_of_app. right. by apply list_elem_of_singleton.
    - destruct (String.eqb_spec m WATCH_CHECKOUT_CHANGE_REQUEST) as [Ew|]; [|done].
      apply Forall_singleton. exists k, m, v. cbn. split; [done|]. split; [|done]. intros t [= <-]. by right. }
  eapply server_ok_says; [exact Hs| | |exact Ho].
  - intros a Ha. apply elem_of_app. by left.
  - intros id m' v' r' [Hin|Hin%list_elem_of_singleton]%elem_of_app; [by eapply so_answers|].
    injection Hin as -> -> -> ->. eauto.
Qed.

(** The turns that say no answer: an item, the end, an aborted task's stop. *)
Lemma job_quiet_ok calls said answers s h j f oj s' :
  server_ok calls said answers s -> sv_jobs s !! h = Some j ->
  sf_id f = jb_id j -> sf_ok f = None -> sf_err f = None ->
  s' = set_jobs (partial_alter (fun _ => oj) h (sv_jobs s)) s -> (oj = None \/ oj = Some j /\ jb_task j = Streaming) ->
  server_ok calls (said ++ [f]) answers s'.
Proof.
  intros H Hj E1 E2 E3 -> Ho. apply (server_ok_says _ said answers [f] answers).
  - apply (server_ok_job _ _ _ s h j); [done..|]. intros j' Hoj. destruct Ho as [E|[E Et]]; [congruence|]. assert (j' = j) as -> by congruence. done.
  - done.
  - apply H.
  - apply Forall_singleton. destruct (so_task _ _ _ _ H h j Hj) as (k & m & v & Ec & _). exists k, m, v.
    rewrite E1, E2, E3. done.
Qed.

(** ** The connection's invariant *)

Section Reach.
Context {J : JsonText} {L : JsonTextLaws J}.

(** A pending call is due: its request is under way, or at a task, or its result
    is under way; or the service answered null. *)
Definition due (ups : list ClientFrame) (downs : list ServerFrame) (s : Server) (answers : list Answer) (id : N) : Prop :=
  id ∈ request_ids ups \/
  (exists h j, sv_jobs s !! h = Some j /\ jb_id j = id /\ jb_aborted j = false) \/
  (exists f, f ∈ downs /\ sf_id f = id /\ settles (wire f) = true) \/
  (exists m v, (id, m, v, inr (RValue Null)) ∈ answers).

Record net_ok (st : Net * Hist) (ups : list ClientFrame) (downs : list ServerFrame) : Prop := {
  no_next : rc_next (n_cli st.1) = (1 + N.of_nat (size (h_calls st.2)))%N;
  no_low id k : h_calls st.2 !! id = Some k -> (id < rc_next (n_cli st.1))%N;
  no_cli : client_ok (h_calls st.2) (h_routed st.2) (h_seen st.2) (n_cli st.1);
  no_srv : server_ok (h_calls st.2) (h_said st.2) (h_answers st.2) (n_srv st.1);
  no_up : n_up st.1 = client_text <$> ups;
  no_down : n_down st.1 = server_text <$> downs;
  no_ups : Forall (up_ok (h_calls st.2)) ups;
  no_ids : NoDup (h_served st.2 ++ request_ids ups);
  no_served id : id ∈ h_served st.2 -> is_Some (h_calls st.2 !! id);
  no_flow : h_routed st.2 ++ (wire <$> downs) `prefix_of` wire <$> h_said st.2;
  no_live : n_open st.1 = true -> h_routed st.2 ++ (wire <$> downs) = wire <$> h_said st.2;
  no_due id : n_open st.1 = true -> rc_pending (n_cli st.1) !! id = Some PCall ->
    due ups downs (n_srv st.1) (h_answers st.2) id;
}.

(** Fewer calls than there are ids. *)
Definition bounded (h : Hist) : Prop := (N.of_nat (size (h_calls h)) < 2 ^ 64 - 1)%N.

Lemma id_fits n : (n < 2 ^ 64)%N -> (n <= Z.to_N U64_MAX)%N.
Proof. change (Z.to_N U64_MAX) with (2 ^ 64 - 1)%N. lia. Qed.

Lemma calls_fit st ups downs id k :
  net_ok st ups downs -> bounded st.2 -> h_calls st.2 !! id = Some k -> (id <= Z.to_N U64_MAX)%N.
Proof.
  intros H Hb E. pose proof (no_low _ _ _ H id k E) as Hl. rewrite (no_next _ _ _ H) in Hl.
  unfold bounded in Hb. apply id_fits. lia.
Qed.

Lemma routed_known st ups downs f :
  net_ok st ups downs -> f ∈ h_routed st.2 -> is_Some (h_calls st.2 !! sf_id f).
Proof.
  intros H Hf. assert (f ∈ wire <$> h_said st.2) as (g & -> & Hg)%list_elem_of_fmap.
  { destruct (no_flow _ _ _ H) as [l ->]. rewrite !elem_of_app. tauto. }
  destruct (so_said _ _ _ _ (no_srv _ _ _ H) g Hg) as (k & m & v & E & _). cbn. by rewrite E.
Qed.

Lemma up_ok_mono calls calls' f :
  (forall id k m v, calls !! id = Some (k, m, v) -> calls' !! id = Some (k, m, v)) -> up_ok calls f -> up_ok calls' f.
Proof. intros Hc (k & m & v & E & H). exists k, m, v. split; [by apply Hc|done]. Qed.

Lemma up_frames st ups downs f :
  net_ok st ups downs -> bounded st.2 -> f ∈ ups -> frames client_of_value (client_text f) = [f].
Proof.
  intros H Hb Hf. apply frames_text, client_value_back. pose proof (no_ups _ _ _ H) as Hu. rewrite Forall_forall in Hu.
  destruct (Hu f Hf) as (k & m & v & E & _). by eapply calls_fit.
Qed.

Lemma down_frames st ups downs f :
  net_ok st ups downs -> bounded st.2 -> f ∈ downs -> frames server_of_value (server_text f) = [wire f].
Proof.
  intros H Hb Hf. apply frames_text, server_value_back.
  assert (wire f ∈ wire <$> h_said st.2) as (g & E & Hg)%list_elem_of_fmap.
  { destruct (no_flow _ _ _ H) as [l ->]. rewrite !elem_of_app. left. right. by apply list_elem_of_fmap_2. }
  destruct (so_said _ _ _ _ (no_srv _ _ _ H) g Hg) as (k & m & v & Ec & _).
  assert (sf_id f = sf_id g) as -> by (by injection E). by eapply calls_fit.
Qed.

Lemma due_mono ups ups' downs downs' s s' answers answers' id :
  (forall i, i ∈ request_ids ups -> i ∈ request_ids ups') -> (forall f, f ∈ downs -> f ∈ downs') ->
  (forall h j, sv_jobs s !! h = Some j -> jb_aborted j = false ->
     exists h' j', sv_jobs s' !! h' = Some j' /\ jb_id j' = jb_id j /\ jb_aborted j' = false) ->
  (forall a, a ∈ answers -> a ∈ answers') ->
  due ups downs s answers id -> due ups' downs' s' answers' id.
Proof.
  intros Hu Hd Hj Ha [H|[(h & j & E & <- & Eb)|[(f & Hf & H)|(m & v & H)]]].
  - left. by apply Hu.
  - right. left. destruct (Hj h j E Eb) as (h' & j' & E' & H). eauto.
  - right. right. left. eauto.
  - right. right. right. eauto.
Qed.

(** A turn of the client that only writes cancels of streams. *)
Lemma net_ok_client n h ups downs out new c' :
  net_ok (n, h) ups downs ->
  rc_next c' = rc_next (n_cli n) ->
  client_ok (h_calls h) (h_routed h) (h_seen h ++ new) c' ->
  Forall (up_ok (h_calls h)) out -> request_ids out = [] ->
  (forall id, rc_pending c' !! id = Some PCall -> rc_pending (n_cli n) !! id = Some PCall) ->
  exists ups', net_ok (sends_up n out c', sees new h) ups' downs.
Proof.
  intros H En Hc Ho Hr Hp. exists (if n_open n then ups ++ out else ups).
  assert (request_ids (if n_open n then ups ++ out else ups) = request_ids ups) as Eids.
  { destruct (n_open n); [|done]. unfold request_ids in *. by rewrite omap_app, Hr, app_nil_r. }
  destruct H as [H1 H2 H3 H4 H5 H6 H7 H8 H9 H10 H11 H12]. cbn in *. split; cbn; try done.
  - by rewrite En.
  - intros id k E. rewrite En. by eapply H2.
  - destruct (n_open n); [|done]. by rewrite fmap_app, H5.
  - destruct (n_open n); [|done]. by apply Forall_app.
  - by rewrite Eids.
  - intros id Eo Ep. eapply due_mono; [| | | |by apply H12; [|apply Hp]]; try done; [by rewrite Eids|eauto].
Qed.

Lemma request_step n h ups downs kind m v out new c' :
  net_ok (n, h) ups downs -> bounded h -> (N.of_nat (S (size (h_calls h))) < 2 ^ 64 - 1)%N ->
  request (n_open n) kind m v (n_cli n) = (out, new, c') ->
  exists ups', net_ok (sends_up n out c',
    sees new (mk_hist (<[rc_next (n_cli n) := (kind, m, v)]> (h_calls h)) (h_served h) (h_said h)
                (h_answers h) (h_routed h) (h_seen h))) ups' downs.
Proof.
  intros H Hb Hb' E. set (i := rc_next (n_cli n)).
  assert (h_calls h !! i = None) as Hfr.
  { destruct (h_calls h !! i) as [k|] eqn:Ek; [|done]. apply (no_low _ _ _ H) in Ek. cbn in Ek. unfold i in Ek. lia. }
  assert (forall id k m' v', h_calls h !! id = Some (k, m', v') -> <[i := (kind, m, v)]> (h_calls h) !! id = Some (k, m', v')) as Hmono.
  { intros id k m' v' E'. rewrite lookup_insert_ne; [done|]. intros <-. by rewrite Hfr in E'. }
  assert (client_ok (<[i := (kind, m, v)]> (h_calls h)) (h_routed h) (h_seen h ++ new) c') as Hc.
  { eapply request_ok; [apply H|done| |exact E]. intros f Hf Ef.
    destruct (routed_known _ _ _ f H Hf) as [k Ek]. cbn in Ek. unfold i in Hfr. by rewrite Ef, Hfr in Ek. }
  exists (if n_open n then ups ++ out else ups).
  pose proof (no_next _ _ _ H) as Hn. cbn in Hn.
  assert (rc_next c' = (i + 1)%N) as En.
  { unfold request in E. destruct (n_open n); injection E as _ _ <-; cbn; apply N.mod_small; unfold i; lia. }
  destruct H as [H1 H2 H3 H4 H5 H6 H7 H8 H9 H10 H11 H12]. cbn in *.
  assert (Forall (up_ok (<[i := (kind, m, v)]> (h_calls h))) ups) as Hups
    by (eapply Forall_impl; [exact H7|intros f; by apply up_ok_mono]).
  assert (n_open n = true -> request_ids (ups ++ out) = request_ids ups ++ [i]) as Eids.
  { intros Eo. unfold request in E. rewrite Eo in E. injection E as <- _ _. unfold request_ids. by rewrite omap_app. }
  split; cbn; try done.
  - rewrite En, map_size_insert_None by done. unfold i. lia.
  - intros id k. rewrite En. intros [[<- _]|[_ Ek]]%lookup_insert_Some; [lia|]. pose proof (H2 id k Ek). unfold i. lia.
  - by apply (server_ok_calls (h_calls h)).
  - destruct (n_open n); [|done]. by rewrite fmap_app, H5.
  - destruct (n_open n) eqn:Eo; [|done]. apply Forall_app. split; [done|].
    unfold request in E. injection E as <- _ _. apply Forall_singleton. exists kind, m, v. cbn.
    split; [apply lookup_insert_eq|by left].
  - destruct (n_open n) eqn:Eo; [|done]. rewrite Eids by done. rewrite app_assoc. apply NoDup_app. split; [done|].
    split; [|apply NoDup_singleton]. intros id Hid ->%list_elem_of_singleton. apply elem_of_app in Hid as [Hid|Hid].
    + destruct (H9 _ Hid) as [k Ek]. by rewrite Hfr in Ek.
    + apply list_elem_of_omap in Hid as (f & Hf & Ef). rewrite Forall_forall in H7.
      destruct (H7 f Hf) as (k & m' & v' & Ek & _). destruct (cf_cancel f); [done|]. destruct (cf_method f); [|done].
      injection Ef as <-. by rewrite Hfr in Ek.
  - intros id Hid. destruct (H9 id Hid) as [[[k m'] v'] Ek]. rewrite (Hmono _ _ _ _ Ek). eauto.
  - intros id Eo Ep. rewrite Eo. destruct (decide (id = i)) as [->|Hne].
    + left. rewrite Eids by done. apply elem_of_app. right. by apply list_elem_of_singleton.
    + eapply due_mono; [| | | |apply (H12 id Eo)]; try done.
      * intros j Hj. rewrite Eids by done. apply elem_of_app. by left.
      * eauto.
      * unfold request in E. rewrite Eo in E. injection E as _ _ <-. cbn in Ep. by rewrite lookup_insert_ne in Ep.
Qed.

Lemma serve_step n h f ups downs up :
  net_ok (n, h) (f :: ups) downs -> n_up n = client_text f :: up ->
  net_ok (mk_net (n_cli n) (serve_frame f (n_srv n)) up (n_down n) (n_open n),
          mk_hist (h_calls h) (h_served h ++ request_ids [f]) (h_said h) (h_answers h) (h_routed h) (h_seen h))
    ups downs.
Proof.
  intros [H1 H2 H3 H4 H5 H6 H7 H8 H9 H10 H11 H12] Eu. cbn -[request_ids] in *. apply Forall_cons in H7 as [Hf H7].
  assert (request_ids (f :: ups) = request_ids [f] ++ request_ids ups) as Er
    by (unfold request_ids; by rewrite <- (omap_app _ [f])).
  split; cbn -[request_ids]; try done.
  - by apply serve_frame_ok.
  - rewrite H5 in Eu. by injection Eu.
  - by rewrite <- app_assoc, <- Er.
  - intros id [Hid|Hid]%elem_of_app; [by apply H9|]. destruct Hf as (k & m & v & Ec & [E|[E _]]); rewrite E in Hid; cbn in Hid.
    + apply list_elem_of_singleton in Hid as ->. eauto.
    + by apply elem_of_nil in Hid.
  - intros id Eo Ep. destruct (H12 id Eo Ep) as [Hid|[(k & j & Ej & Eid & Eb)|Hrest]]; [| |right; right; exact Hrest].
    + rewrite Er in Hid. apply elem_of_app in Hid as [Hid|Hid]; [|by left]. right. left.
      destruct Hf as (k & m & v & Ec & [E|[E _]]); rewrite E in Hid |- *; cbn in Hid; [|by apply elem_of_nil in Hid].
      apply list_elem_of_singleton in Hid as ->. exists (sv_spawned (n_srv n)). eexists. split; [apply lookup_insert_eq|done].
    + right. left. destruct Hf as (p & m & v & Ec & [E|[E Hk]]); rewrite E; unfold serve_frame; cbn.
      * exists k, j. split; [|done]. rewrite lookup_insert_ne; [done|]. intros <-. by rewrite (so_jobs _ _ _ _ H4) in Ej.
      * destruct (filter (fun ih => is_Some (sv_jobs (n_srv n) !! ih.2)) (sv_running (n_srv n)) !! cf_id f) as [k'|] eqn:Er'; [|by exists k, j]. exists k, j. cbn. split; [|done].
        rewrite lookup_alter_ne; [done|]. intros ->. apply map_lookup_filter_Some in Er' as [Er' _].
        pose proof (so_running _ _ _ _ H4 _ _ _ Er' Ej) as Hid.
        destruct (co_kind _ _ _ _ H3 id PCall Ep) as ([] & m' & v' & Ec' & Hs); try done.
        rewrite <- Hid, Eid, Ec' in Ec. by injection Ec as <- _ _.
Qed.

(** A task's turn: what it says goes down while the transport is up. *)
Lemma says_step n h ups downs out s answers :
  net_ok (n, h) ups downs ->
  server_ok (h_calls h) (h_said h ++ out) answers s ->
  (n_open n = true -> forall id, rc_pending (n_cli n) !! id = Some PCall ->
     due ups (downs ++ out) s answers id) ->
  net_ok (says out s (n, mk_hist (h_calls h) (h_served h) (h_said h) answers (h_routed h) (h_seen h)))
    ups (if n_open n then downs ++ out else downs).
Proof.
  intros [H1 H2 H3 H4 H5 H6 H7 H8 H9 H10 H11 H12] Hs Hd. cbn in *. split; cbn; try done.
  - destruct (n_open n); [|done]. by rewrite fmap_app, H6.
  - destruct (n_open n).
    + rewrite !fmap_app, app_assoc. rewrite H11 by done. done.
    + rewrite fmap_app. by apply prefix_app_r.
  - intros Eo. rewrite Eo, !fmap_app, app_assoc. by rewrite H11.
  - intros id Eo Ep. rewrite Eo. by apply Hd.
Qed.

(** The job of a turn goes, or stays live. *)
Lemma due_job ups downs s answers h j out oj id :
  sv_jobs s !! h = Some j -> due ups downs s answers id ->
  (jb_aborted j = false -> jb_id j = id ->
     (exists j', oj = Some j' /\ jb_id j' = jb_id j /\ jb_aborted j' = false) \/
     exists f, f ∈ out /\ sf_id f = id /\ settles (wire f) = true) ->
  due ups (downs ++ out) (set_jobs (partial_alter (fun _ => oj) h (sv_jobs s)) s) answers id.
Proof.
  intros Ej [Hd|[(k & j' & E & Eid & Eb)|[(f & Hf & H)|H]]] Hj.
  - by left.
  - destruct (decide (h = k)) as [<-|Hne].
    + rewrite Ej in E. injection E as <-. destruct (Hj Eb Eid) as [(j' & -> & E1 & E2)|(f & Hf & H)].
      * right. left. exists h, j'. cbn. rewrite lookup_partial_alter_eq. by rewrite E1.
      * right. right. left. exists f. split; [apply elem_of_app; by right|done].
    + right. left. exists k, j'. cbn. by rewrite lookup_partial_alter_ne.
  - right. right. left. exists f. split; [apply elem_of_app; by left|done].
  - by right; right; right.
Qed.

Lemma reply_step n h ups downs k j m v r out s :
  net_ok (n, h) ups downs -> sv_jobs (n_srv n) !! k = Some j -> jb_task j = Asked m v ->
  job_reply k r (n_srv n) = Some (out, s) ->
  exists downs', net_ok (says out s (n, mk_hist (h_calls h) (h_served h) (h_said h)
    (h_answers h ++ [(jb_id j, m, v, r)]) (h_routed h) (h_seen h))) ups downs'.
Proof.
  intros H Ej Et Er. eexists. apply says_step; [done|by eapply job_reply_ok; [apply H|..]|].
  intros Eo id Ep. pose proof (no_due _ _ _ H id Eo Ep) as Hd. cbn in Hd.
  assert (due ups downs (n_srv n) (h_answers h ++ [(jb_id j, m, v, r)]) id) as Hd'
    by (eapply due_mono; [..|exact Hd]; eauto; intros a Ha; apply elem_of_app; by left).
  unfold job_reply in Er. rewrite Ej in Er. cbn in Er. rewrite Et in Er. destruct r as [e|[w|]]; injection Er as <- <-.
  - apply (due_job _ _ _ _ k j _ None id Ej Hd'). intros _ Eid. right. exists (frame_err (jb_id j) e).
    split; [by apply list_elem_of_singleton|done].
  - destruct (decide (w = Null)) as [->|Hne].
    + destruct (decide (jb_id j = id)) as [Eid|Hne].
      * right. right. right. exists m, v. rewrite Eid. apply elem_of_app. right. by apply list_elem_of_singleton.
      * apply (due_job _ _ _ _ k j _ None id Ej Hd'). intros _ Eid. done.
    + apply (due_job _ _ _ _ k j _ None id Ej Hd'). intros _ Eid. right. exists (frame_ok (jb_id j) w).
      split; [by apply list_elem_of_singleton|]. split; [done|]. by destruct w.
  - apply (due_job _ _ _ _ k j _ (Some (mk_job (jb_id j) Streaming (jb_aborted j))) id Ej Hd'). intros Eb _. left. eauto.
Qed.

Lemma stream_step n h ups downs k j f oj s :
  net_ok (n, h) ups downs -> sv_jobs (n_srv n) !! k = Some j ->
  sf_id f = jb_id j -> sf_ok f = None -> sf_err f = None ->
  s = set_jobs (partial_alter (fun _ => oj) k (sv_jobs (n_srv n))) (n_srv n) ->
  oj = None /\ settles (wire f) = true \/ oj = Some j /\ jb_task j = Streaming ->
  exists downs', net_ok (says [f] s (n, h)) ups downs'.
Proof.
  intros H Ej E1 E2 E3 Es Ho. destruct h as [calls served said answers routed seen]. eexists.
  apply (says_step n (mk_hist calls served said answers routed seen)); [done| |].
  - apply (job_quiet_ok _ _ _ (n_srv n) k j f oj); [apply H|done..|]. destruct Ho as [[-> _]|Ho]; [by left|by right].
  - intros Eo id Ep. subst s. apply (due_job _ _ _ _ k j); [done|by apply (no_due _ _ _ H)|].
    intros Eb Eid. destruct Ho as [[-> Hs]|[-> _]]; [right|left; eauto]. exists f.
    split; [by apply list_elem_of_singleton|]. by rewrite E1.
Qed.

Lemma stop_step n h ups downs k s :
  net_ok (n, h) ups downs -> job_stop k (n_srv n) = Some s ->
  exists downs', net_ok (says [] s (n, h)) ups downs'.
Proof.
  intros H Es. unfold job_stop in Es. destruct (sv_jobs (n_srv n) !! k) as [j|] eqn:Ej; [|done]. cbn in Es.
  destruct (jb_aborted j) eqn:Eb; [|done]. injection Es as <-.
  destruct h as [calls served said answers routed seen]. eexists.
  apply (says_step n (mk_hist calls served said answers routed seen)); [done| |].
  - rewrite app_nil_r. apply (server_ok_job _ _ _ (n_srv n) k j None); [apply H|done|done].
  - intros Eo id Ep. apply (due_job _ _ _ _ k j [] None); [done|by apply (no_due _ _ _ H)|]. by rewrite Eb.
Qed.

Lemma route_frame_rest f c out new c' :
  route_frame f c = (out, new, c') ->
  rc_next c' = rc_next c /\ (out = [] \/ out = [cancel_frame (sf_id f)] /\ rc_pending c !! sf_id f = Some PStream) /\
  (forall id, rc_pending c' !! id = Some PCall ->
     rc_pending c !! id = Some PCall /\ (id = sf_id f -> settles f = false)).
Proof.
  intros E. assert (rc_next c' = rc_next c /\ (out = [] \/ out = [cancel_frame (sf_id f)] /\ rc_pending c !! sf_id f = Some PStream)) as [E1 E2].
  { unfold route_frame in E.
    destruct (sf_err f), (sf_ok f), (sf_item f), (rc_pending c !! sf_id f) as [[| |[]]|], (sf_done f);
      try destruct (decide (sf_id f ∈ rc_deaf c)); injection E as <- <- <-; (split; [done|]); try (by left); by right. }
  split; [done|]. split; [done|]. intros id Ep. pose proof (route_frame_own f c out new c' E) as Hown. cbn zeta in Hown.
  destruct (decide (id = sf_id f)) as [->|Hne].
  - destruct (rc_pending c !! sf_id f) as [[| |r]|] eqn:Ec.
    + destruct (settles f); [|done]. destruct Hown as [-> _]. cbn in Ep. by rewrite lookup_delete_eq in Ep.
    + destruct Hown as (_ & _ & Hk & _). by destruct (Hk _ Ep).
    + destruct Hown as (_ & _ & Hk & _). by destruct (Hk _ Ep).
    + destruct Hown as [_ ->]. by rewrite Ec in Ep.
  - destruct (route_frame_frame f c out new c' id E Hne) as (<- & _). done.
Qed.

Lemma read_step n h f ups downs down out new c' :
  net_ok (n, h) ups (f :: downs) -> n_down n = server_text f :: down ->
  route_frame (wire f) (n_cli n) = (out, new, c') ->
  exists ups', net_ok (sends_up (mk_net (n_cli n) (n_srv n) (n_up n) down (n_open n)) out c',
    sees new (mk_hist (h_calls h) (h_served h) (h_said h) (h_answers h) (h_routed h ++ [wire f]) (h_seen h)))
    ups' downs.
Proof.
  intros H Ed Er. destruct (route_frame_rest _ _ _ _ _ Er) as (E1 & E2 & E3).
  pose proof (route_frame_ok _ _ _ _ _ _ _ _ (no_cli _ _ _ H) Er) as Hc. cbn in Hc.
  assert (Forall (up_ok (h_calls h)) out /\ request_ids out = []) as [Ho Hr].
  { destruct E2 as [->|[-> Ep]]; [done|]. split; [|done]. apply Forall_singleton.
    destruct (co_kind _ _ _ _ (no_cli _ _ _ H) _ _ Ep) as ([] & m & v & Ec & Hs); try done.
    exists PStream, m, v. split; [done|]. right. done. }
  exists (if n_open n then ups ++ out else ups).
  assert (request_ids (if n_open n then ups ++ out else ups) = request_ids ups) as Eids.
  { destruct (n_open n); [|done]. unfold request_ids in *. by rewrite omap_app, Hr, app_nil_r. }
  destruct H as [H1 H2 H3 H4 H5 H6 H7 H8 H9 H10 H11 H12]. cbn -[request_ids] in *. split; cbn -[request_ids]; try done.
  - by rewrite E1.
  - intros id k E. rewrite E1. by eapply H2.
  - destruct (n_open n); [|done]. by rewrite fmap_app, H5.
  - rewrite H6 in Ed. by injection Ed.
  - destruct (n_open n); [|done]. by apply Forall_app.
  - by rewrite Eids.
  - by rewrite <- app_assoc.
  - intros Eo. rewrite <- app_assoc. by apply H11.
  - intros id Eo Ep. destruct (E3 id Ep) as [Ep' Hs].
    destruct (H12 id Eo Ep') as [Hd|[Hd|[(g & [->|Hg]%elem_of_cons & Eg & Hset)|Hd]]].
    + left. by rewrite Eids.
    + by right; left.
    + rewrite Hs in Hset; [done|]. by rewrite <- Eg.
    + right. right. left. eauto.
    + by right; right; right.
Qed.

Lemma close_step n h ups downs keep :
  net_ok (n, h) ups downs ->
  net_ok (mk_net (n_cli n) (n_srv n) (n_up n) (take keep (n_down n)) false, h) ups (take keep downs).
Proof.
  intros [H1 H2 H3 H4 H5 H6 H7 H8 H9 H10 H11 H12]. split; cbn in *; try done.
  - by rewrite H6, firstn_map.
  - etrans; [|exact H10]. apply prefix_app. rewrite <- (take_drop keep downs) at 2. rewrite fmap_app.
    by apply prefix_app_r.
Qed.

Lemma server_end_step n h ups downs :
  net_ok (n, h) ups downs -> n_open n = false ->
  net_ok (mk_net (n_cli n) (mk_server ∅ ∅ (sv_spawned (n_srv n))) [] (n_down n) false, h) [] downs.
Proof.
  intros [H1 H2 H3 H4 H5 H6 H7 H8 H9 H10 H11 H12] Eo. split; cbn in *; try done.
  - destruct H4. split; cbn; try done; intros *; by rewrite ?lookup_empty.
  - rewrite app_nil_r. by apply NoDup_app in H8 as [H8 _].
Qed.

Definition reached (st : Net * Hist) : Prop := exists ups downs, net_ok st ups downs.

Lemma size_step e st st' : net_step e st = Some st' -> (size (h_calls st.2) <= size (h_calls st'.2))%nat /\
  (forall kind m v, e = ERequest kind m v -> rc_next (n_cli st.1) ∉ dom (h_calls st.2) ->
     size (h_calls st'.2) = S (size (h_calls st.2))).
Proof.
  intros E. assert (forall kind m v, e = ERequest kind m v -> rc_next (n_cli st.1) ∉ dom (h_calls st.2) ->
     size (h_calls st'.2) = S (size (h_calls st.2))) as Hr.
  { intros kind m v -> Hn. destruct st as [n h]. cbn in E. destruct (request _ _ _ _ _) as [[out seen] c].
    injection E as <-. cbn. rewrite map_size_insert_None; [done|]. by apply not_elem_of_dom. }
  split; [|exact Hr]. destruct st as [n h]. cbn [fst snd] in *. destruct e; cbn in E.
  - destruct (request _ _ _ _ _) as [[out seen] c]. injection E as <-. cbn. rewrite map_size_insert.
    by destruct (h_calls h !! _); cbn; lia.
  - destruct (n_up n); [done|]. by injection E as <-.
  - destruct (sv_jobs (n_srv n) !! h0) as [j|]; [|done]. cbn in E. destruct (job_reply _ _ _) as [[out s]|]; [|done].
    cbn in E. destruct (jb_task j); [|done]. by injection E as <-.
  - destruct (job_item _ _ _) as [[out s]|]; [|done]. by injection E as <-.
  - destruct (job_end _ _) as [[out s]|]; [|done]. by injection E as <-.
  - destruct (job_stop _ _) as [s|]; [|done]. by injection E as <-.
  - destruct (n_down n); [done|]. destruct (route_frames _ _) as [[out seen] c]. by injection E as <-.
  - destruct (h_calls h !! id) as [[[[] ?] ?]|]; try done. by injection E as <-.
  - destruct (rc_pending (n_cli n) !! id) as [[]|]; try done. destruct (drop_subscription _ _). by injection E as <-.
  - by injection E as <-.
  - destruct (n_open n); [done|]. by injection E as <-.
  - destruct (n_open n); [done|]. destruct (n_down n); [|done]. by injection E as <-.
Qed.

Lemma reach_step e st st' : reached st -> bounded st'.2 -> net_step e st = Some st' -> reached st'.
Proof.
  intros (ups & downs & H) Hb' E. destruct (size_step e st st' E) as [Hsz Hreq]. destruct st as [n h].
  assert (bounded h) as Hb by (unfold bounded in *; cbn in *; lia).
  destruct e; cbn in E.
  - set (kd := match kind with PChecked _ => PChecked true | k => k end) in E.
    destruct (request (n_open n) kd method params (n_cli n)) as [[out seen] c] eqn:Er. injection E as <-.
    destruct (request_step n h ups downs kd method params out seen c H Hb) as [ups' H']; [|exact Er|by exists ups', downs].
    specialize (Hreq _ _ _ eq_refl). unfold bounded in Hb'. cbn in Hb', Hreq. rewrite Hreq in Hb'; [exact Hb'|].
    intros [k Ek]%elem_of_dom. apply (no_low _ _ _ H) in Ek. cbn in Ek. lia.
  - destruct (n_up n) as [|p up] eqn:Eu; [done|]. injection E as <-.
    pose proof (no_up _ _ _ H) as Hu. cbn in Hu. rewrite Eu in Hu. destruct ups as [|f ups]; [done|].
    injection Hu as -> ->. rewrite (up_frames _ _ _ f H Hb) by (by left). exists ups, downs. by apply serve_step.
  - destruct (sv_jobs (n_srv n) !! h0) as [j|] eqn:Ej; [|done]. cbn in E.
    destruct (job_reply _ _ _) as [[out s]|] eqn:Er; [|done]. cbn in E.
    destruct (jb_task j) as [m v|] eqn:Et; [|done]. injection E as <-. exists ups. by eapply reply_step.
  - unfold job_item in E. destruct (sv_jobs (n_srv n) !! h0) as [j|] eqn:Ej; [|done]. cbn in E.
    destruct (jb_task j) eqn:Et; [done|]. injection E as <-. exists ups.
    apply (stream_step n h ups downs h0 j (frame_item (jb_id j) v) (Some j)); try done; [|by right].
    destruct (n_srv n) as [js ru sp]. unfold set_jobs. cbn in *. f_equal. rewrite <- Ej. symmetry. apply partial_alter_self.
  - unfold job_end in E. destruct (sv_jobs (n_srv n) !! h0) as [j|] eqn:Ej; [|done]. cbn in E.
    destruct (jb_task j) eqn:Et; [done|]. injection E as <-. exists ups.
    apply (stream_step n h ups downs h0 j (frame_done (jb_id j)) None); try done. by left.
  - destruct (job_stop _ _) as [s|] eqn:Es; [|done]. injection E as <-. exists ups. by eapply stop_step.
  - destruct (n_down n) as [|p down] eqn:Ed; [done|].
    pose proof (no_down _ _ _ H) as Hd. cbn in Hd. rewrite Ed in Hd. destruct downs as [|f downs]; [done|].
    injection Hd as -> ->. rewrite (down_frames _ _ _ f H Hb) in E by (by left). cbn in E.
    destruct (route_frame _ _) as [[out seen] c] eqn:Er. injection E as <-. rewrite !app_nil_r.
    destruct (read_step n h f ups downs _ out seen c H Ed Er) as [ups' H']. by exists ups', downs.
  - destruct (h_calls h !! id) as [[[[] m] v]|] eqn:Ec; try done. injection E as <-.
    destruct h as [calls served said answers routed seen].
    destruct (net_ok_client n (mk_hist calls served said answers routed seen) ups downs [] [] (drop_receiver id (n_cli n)) H)
      as [ups' H']; cbn; rewrite ?app_nil_r; try done; [|unfold sees in H'; cbn in H'; rewrite app_nil_r in H'; by exists ups', downs].
    eapply drop_receiver_ok; [apply H|exact Ec].
  - destruct (rc_pending (n_cli n) !! id) as [[| |r]|] eqn:Ep; try done.
    destruct (drop_subscription _ _) as [out c] eqn:Er. injection E as <-.
    destruct h as [calls served said answers routed seen].
    pose proof (drop_subscription_ok _ _ _ _ _ _ (no_cli _ _ _ H) Ep) as Hc. cbn [fst snd h_calls h_routed h_seen] in Hc. rewrite Er in Hc. cbn in Hc.
    unfold drop_subscription in Er. rewrite Ep in Er. injection Er as <- <-.
    destruct (co_kind _ _ _ _ (no_cli _ _ _ H) _ _ Ep) as ([| |r'] & m & v & Ec & Hs); try done.
    destruct (net_ok_client n (mk_hist calls served said answers routed seen) ups downs [cancel_frame id] [] (forget id (n_cli n)) H)
      as [ups' H']; cbn; rewrite ?app_nil_r; try done; [| |unfold sees in H'; cbn in H'; rewrite app_nil_r in H'; by exists ups', downs].
    + apply Forall_singleton. exists (PChecked r'), m, v. split; [done|]. right. done.
    + intros i Ei. by apply lookup_delete_Some in Ei as [_ Ei].
  - injection E as <-. exists ups, (take keep downs). by apply close_step.
  - destruct (n_open n) eqn:Eo; [done|]. injection E as <-. exists [], downs. by eapply server_end_step.
  - destruct (n_open n) eqn:Eo; [done|]. destruct (n_down n); [|done]. injection E as <-.
    destruct (net_ok_client n h ups downs [] (reader_end (n_cli n)).1 (reader_end (n_cli n)).2 H)
      as [ups' H']; try done; [by apply reader_end_ok, H|by exists ups', downs].
Qed.

Lemma reached_new : reached (net_new, hist_new).
Proof.
  exists [], []. split; cbn; try done.
  - split; cbn; try done; intros *; rewrite ?lookup_empty; try done; [by intros ?%elem_of_nil|apply NoDup_nil_2].
  - split; cbn; try done; intros *; rewrite ?lookup_empty; try done; by intros ?%elem_of_nil.
  - apply NoDup_nil_2.
  - by intros id ?%elem_of_nil.
Qed.

Lemma size_run es st : (size (h_calls st.2) <= size (h_calls (net_run es st).2))%nat.
Proof.
  revert st. induction es as [|e es IH]; intros st; [done|]. cbn. etrans; [|apply IH].
  destruct (net_step e st) as [st'|] eqn:E; [|done]. by apply (size_step e).
Qed.

Lemma reach_run es st : reached st -> bounded (net_run es st).2 -> reached (net_run es st).
Proof.
  revert st. induction es as [|e es IH]; intros st H Hb; [done|]. cbn in *. apply IH; [|done].
  destruct (net_step e st) as [st'|] eqn:E; [|done]. cbn in *. apply (reach_step e st); [done| |done].
  apply (N.le_lt_trans _ (N.of_nat (size (h_calls (net_run es st').2)))); [|exact Hb].
  pose proof (size_run es st'). lia.
Qed.

(** C1. Every caller gets its own answer: whatever requests, tasks, deliveries,
    drops and losses of the transport happen in any order, a call is answered at
    most once, and with a value only if the service answered that value to that
    very method and parameters (or the call was made to the versioned stream,
    which acknowledges); with an error only if the service gave it, or the
    connection or the stream ended. A request is served at most once. What a
    stream's subscriber read is a prefix of the items said for it, in order. *)
Theorem calls_answered_right es n h :
  net_run es (net_new, hist_new) = (n, h) -> bounded h ->
  NoDup (answered_ids (h_seen h)) /\ NoDup (h_served h) /\
  (forall id m v r, (id, m, v, r) ∈ h_answers h -> exists k, h_calls h !! id = Some (k, m, v)) /\
  (forall id w, Answered id (inr w) ∈ h_seen h ->
     exists m v, h_calls h !! id = Some (PCall, m, v) /\
       ((id, m, v, inr (RValue w)) ∈ h_answers h \/ m = WATCH_CHECKOUT_CHANGE_REQUEST /\ w = stream_ready)) /\
  (forall id e, Answered id (inl e) ∈ h_seen h -> e = Closed \/
     exists m v e', h_calls h !! id = Some (PCall, m, v) /\
       (id, m, v, inl e') ∈ h_answers h /\ e = wire_error (error_text e')) /\
  (forall id, items_of id (h_seen h) `prefix_of` omap (item_for id) (wire <$> h_said h)).
Proof.
  intros E Hb. assert (reached (n, h)) as (ups & downs & H).
  { rewrite <- E. apply reach_run; [apply reached_new|by rewrite E]. }
  pose proof (no_cli _ _ _ H) as Hc. pose proof (no_srv _ _ _ H) as Hs. cbn in Hc, Hs.
  assert (forall f, f ∈ h_routed h -> exists g, f = wire g /\ g ∈ h_said h) as Hr.
  { intros f Hf. apply list_elem_of_fmap. destruct (no_flow _ _ _ H) as [l El]. cbn in El. rewrite El, !elem_of_app. tauto. }
  pose proof (no_ids _ _ _ H) as Hn. apply NoDup_app in Hn as [Hn _].
  split; [apply Hc|]. split; [done|].
  split; [apply Hs|]. split; [|split].
  - intros id w Hw. destruct (co_why _ _ _ _ Hc _ _ Hw) as ((m & v & Ec) & f & Hf & <- & _ & Eo).
    destruct (Hr f Hf) as (g & -> & Hg). exists m, v. split; [done|]. cbn in *.
    destruct (so_said _ _ _ _ Hs g Hg) as (k & m' & v' & Ec' & Ho & _). rewrite Ec in Ec'. injection Ec' as <- <- <-.
    apply Ho. destruct (sf_ok g) as [x|]; [|done]. cbn in Eo. unfold non_null in Eo. destruct (is_null x); [done|].
    by injection Eo as ->.
  - intros id e He. destruct (co_why _ _ _ _ Hc _ _ He) as ((m & v & Ec) & [->|(f & t & Hf & <- & Et & ->)]); [by left|right].
    destruct (Hr f Hf) as (g & -> & Hg). cbn in *.
    destruct (so_said _ _ _ _ Hs g Hg) as (k & m' & v' & Ec' & _ & He'). rewrite Ec in Ec'. injection Ec' as <- <- <-.
    destruct (He' t Et) as (e' & Hin & ->). eauto 6.
  - intros id. etrans; [apply Hc|]. destruct (no_flow _ _ _ H) as [l El]. cbn in El. rewrite El, !omap_app, <- app_assoc.
    by apply prefix_app_r.
Qed.

(** C2. No call is lost: while the transport is up, a call whose request, task and
    result are not under way has been answered, unless the service answered it
    null; and when the reader has ended, after the transport went down, every
    call made has been answered. *)
Theorem no_call_lost es n h :
  net_run es (net_new, hist_new) = (n, h) -> bounded h ->
  (n_open n = true -> n_up n = [] -> n_down n = [] -> sv_jobs (n_srv n) = ∅ ->
   forall id m v, h_calls h !! id = Some (PCall, m, v) ->
     id ∈ answered_ids (h_seen h) \/ exists m v, (id, m, v, inr (RValue Null)) ∈ h_answers h) /\
  (forall n' h', net_step EReaderEnd (n, h) = Some (n', h') ->
   forall id m v, h_calls h' !! id = Some (PCall, m, v) -> id ∈ answered_ids (h_seen h')).
Proof.
  intros E Hb. assert (reached (n, h)) as H.
  { rewrite <- E. apply reach_run; [apply reached_new|by rewrite E]. }
  split.
  - destruct H as (ups & downs & H). intros Eo Eu Ed Ej id m v Ec.
    destruct (rc_pending (n_cli n) !! id) as [p|] eqn:Ep; [right|left; eapply co_all; [apply H|done..]].
    destruct (co_kind _ _ _ _ (no_cli _ _ _ H) _ _ Ep) as (k & m' & v' & Ec' & Hs). cbn in Ec'. rewrite Ec in Ec'.
    injection Ec' as <- <- <-. destruct p; try done.
    pose proof (no_up _ _ _ H) as Hu. pose proof (no_down _ _ _ H) as Hd. cbn in Hu, Hd.
    rewrite Eu in Hu. rewrite Ed in Hd. destruct ups; [|done]. destruct downs; [|done].
    destruct (no_due _ _ _ H id Eo Ep) as [Hx|[(j & x & Hx & _)|[(f & Hx & _)|Hx]]]; [..|exact Hx].
    + by apply elem_of_nil in Hx.
    + cbn in Hx. rewrite Ej in Hx. done.
    + by apply elem_of_nil in Hx.
  - intros n' h' Es. assert (h_calls h' = h_calls h /\ rc_pending (n_cli n') = ∅) as [Ec Ep].
    { cbn in Es. destruct (n_open n); [done|]. destruct (n_down n); [|done]. by injection Es as <- <-. }
    destruct (reach_step EReaderEnd (n, h) (n', h') H) as (ups & downs & H'); [cbn; unfold bounded; by rewrite Ec|done|].
    intros id m v E'. eapply (co_all _ _ _ _ (no_cli _ _ _ H')); [exact E'|]. cbn. by rewrite Ep.
Qed.
End Reach.

(** ** A run *)

#[local] Existing Instances sample_json sample_json_laws.

(** A call and a stream share the connection; the answers cross in order. *)
Definition sample_events : list Event :=
  [ERequest PCall "Echo" (Int 7); ERequest PStream "Count" Null; EServe; EServe;
   EReply 1 (inr RStream); EItem 1 (Int 1); EReply 0 (inr (RValue (Int 7))); EItem 1 (Int 2); EEnd 1;
   ERead; ERead; ERead; ERead].

Definition sample_net : Net * Hist := net_run sample_events (net_new, hist_new).

Example sample_seen : h_seen sample_net.2 =
  [Opened 2 (inr tt); Item 2 (Int 1); Answered 1 (inr (Int 7)); Item 2 (Int 2); Ended 2].
Proof. vm_compute. reflexivity. Qed.

Lemma calls_answered_right_witness : exists m v, h_calls sample_net.2 !! 1%N = Some (PCall, m, v) /\
  ((1%N, m, v, inr (RValue (Int 7))) ∈ h_answers sample_net.2 \/
   m = WATCH_CHECKOUT_CHANGE_REQUEST /\ Int 7 = stream_ready).
Proof.
  assert (bounded sample_net.2) as Hb by (vm_compute; done).
  destruct (calls_answered_right sample_events sample_net.1 sample_net.2 (surjective_pairing _) Hb)
    as (_ & _ & _ & H & _). apply H. rewrite sample_seen. right. right. left.
Defined.

Lemma no_call_lost_witness : 1%N ∈ answered_ids (h_seen sample_net.2) \/
  exists m v, (1%N, m, v, inr (RValue Null)) ∈ h_answers sample_net.2.
Proof.
  assert (bounded sample_net.2) as Hb by (vm_compute; done).
  destruct (no_call_lost sample_events sample_net.1 sample_net.2 (surjective_pairing _) Hb) as [H _].
  apply (H ltac:(vm_compute; reflexivity) ltac:(vm_compute; reflexivity) ltac:(vm_compute; reflexivity)
    ltac:(vm_compute; reflexivity) 1%N "Echo" (Int 7)). vm_compute. reflexivity.
Defined.

(** ** Limits *)

(** A reply of null reads back as no reply at all: the call stays pending with
    nothing under way. *)
Lemma null_reply_hangs :
  let st := net_run [ERequest PCall "m" Null; EServe; EReply 0 (inr (RValue Null)); ERead] (net_new, hist_new) in
  n_up st.1 = [] /\ n_down st.1 = [] /\ sv_jobs (n_srv st.1) = ∅ /\
  rc_pending (n_cli st.1) !! 1%N = Some PCall /\ h_seen st.2 = [].
Proof. vm_compute. repeat split. Qed.

(** A null item of a stream is dropped, and the reader waits for the next. *)
Lemma null_item_dropped :
  h_seen (net_run [ERequest PStream "s" Null; EServe; EReply 0 (inr RStream); EItem 0 Null; EItem 0 (Int 1); ERead; ERead]
    (net_new, hist_new)).2 = [Opened 1 (inr tt); Item 1 (Int 1)].
Proof. vm_compute. reflexivity. Qed.

(** An error's kind does not cross, but for an unknown method. *)
Lemma wire_error_kinds m : wire_error (error_text (UnknownMethod m)) = UnknownMethod m /\
  wire_error (error_text (BadParams m)) = Failed ("bad params: " ++ m) /\
  wire_error (error_text (Transport m)) = Failed ("transport: " ++ m) /\
  wire_error (error_text Closed) = Failed "connection closed".
Proof. unfold wire_error, error_text. by rewrite strip_prefix_app. Qed.
