(* ===== verification/Claude.v ===== *)
(** The Claude Code adapter: crates/harness/src/claude/wire.rs, normalize.rs and
    the session loop of mod.rs. The lines of the child decode to frames, frames
    normalise to agent events, and the loop interleaves them with steers, the
    interrupt and control requests. A struct that serde would also read from a
    JSON array is read from an object only. Fresh ids and the crash message are
    parameters. *)
From stdpp Require Import pretty.
From S2P Require Import Prelude Json Text Agent Samples.

(** ** Frames *)

Record SystemFrame := mk_system {
  sy_subtype : string; sy_model : string; sy_tools : list string; sy_cwd : string; sy_session_id : string;
  sy_tool_use_id : option string; sy_status : option string; sy_task_id : option string;
  sy_subagent_type : option string }.

Record Delta := mk_delta { dl_kind : string; dl_text : string; dl_thinking : string }.
Record StreamEventFrame := mk_stream_event { se_parent : option string; se_kind : string; se_delta : Delta }.

Record MessageFrame := mk_message { mf_parent : option string; mf_content : Value; mf_error : option string }.

Record ContentBlock := mk_block {
  cb_kind : string; cb_text : string; cb_id : string; cb_name : string; cb_input : Value;
  cb_tool_use_id : string; cb_is_error : option bool }.

Record RateLimitFrame := mk_rate_limit { rl_status : string; rl_type : option string }.

Record IterationUsage := mk_iteration { it_input : N; it_creation : N; it_read : N }.

Record UsageBody := mk_usage {
  us_input : N; us_output : N; us_creation : N; us_read : N; us_iterations : list IterationUsage }.

Record ResultFrame := mk_result {
  rs_subtype : string; rs_result : option string; rs_errors : list Value; rs_usage : UsageBody;
  rs_session_id : option string }.

Record ControlRequestFrame := mk_control {
  ct_request_id : string; ct_subtype : string; ct_tool_name : string; ct_input : Value }.

Inductive Frame :=
  | FSystem (f : SystemFrame)
  | FStreamEvent (f : StreamEventFrame)
  | FAssistant (f : MessageFrame)
  | FUser (f : MessageFrame)
  | FRateLimit (f : RateLimitFrame)
  | FResult (f : ResultFrame)
  | FControlRequest (f : ControlRequestFrame)
  | FOther.

(** [#[serde(alias)]]: either name, not both. *)
Definition field_alias (v : Value) (k k' : string) : option (option string) :=
  match obj_get v k, obj_get v k' with
  | Some _, Some _ => None
  | None, _ => field_option as_str v k'
  | Some _, None => field_option as_str v k
  end.

Definition str_default (v : Value) (k : string) : option string := field_default as_str "" v k.
Definition u64_default (v : Value) (k : string) : option N := field_default as_u64 0%N v k.

Definition system_of_value (v : Value) : option SystemFrame :=
  v ← is_object v;
  subtype ← str_default v "subtype"; model ← str_default v "model";
  tools ← field_default (as_vec as_str) [] v "tools"; cwd ← str_default v "cwd";
  session_id ← str_default v "session_id"; tool ← field_alias v "tool_use_id" "toolUseId";
  status ← field_option as_str v "status"; task ← field_alias v "task_id" "taskId";
  subagent ← field_option as_str v "subagent_type";
  Some (mk_system subtype model tools cwd session_id tool status task subagent).

Definition delta_of_value (v : Value) : option Delta :=
  v ← is_object v;
  kind ← str_default v "type"; text ← str_default v "text"; thinking ← str_default v "thinking";
  Some (mk_delta kind text thinking).

Definition stream_event_body (v : Value) : option (string * Delta) :=
  v ← is_object v;
  kind ← str_default v "type"; delta ← field_default delta_of_value (mk_delta "" "" "") v "delta";
  Some (kind, delta).

Definition stream_event_of_value (v : Value) : option StreamEventFrame :=
  v ← is_object v;
  parent ← field_option as_str v "parent_tool_use_id";
  '(kind, delta) ← field_default stream_event_body ("", mk_delta "" "" "") v "event";
  Some (mk_stream_event parent kind delta).

Definition message_body (v : Value) : option Value := v ← is_object v; field_default Some Null v "content".

Definition message_of_value (v : Value) : option MessageFrame :=
  v ← is_object v;
  parent ← field_option as_str v "parent_tool_use_id"; content ← field_default message_body Null v "message";
  error ← field_option as_str v "error";
  Some (mk_message parent content error).

Definition block_of_value (v : Value) : option ContentBlock :=
  v ← is_object v;
  kind ← str_default v "type"; text ← str_default v "text"; id ← str_default v "id"; name ← str_default v "name";
  input ← field_default Some Null v "input"; tool ← str_default v "tool_use_id";
  is_error ← field_option as_boolean v "is_error";
  Some (mk_block kind text id name input tool is_error).

(** [MessageBody::blocks]: the elements of an array that decode. *)
Definition blocks (content : Value) : list ContentBlock :=
  match content with Array l => omap block_of_value l | _ => [] end.

Definition rate_limit_info (v : Value) : option (string * option string) :=
  v ← is_object v; status ← str_default v "status"; kind ← field_option as_str v "rateLimitType"; Some (status, kind).

Definition rate_limit_of_value (v : Value) : option RateLimitFrame :=
  v ← is_object v;
  '(status, kind) ← field_default rate_limit_info ("", None) v "rate_limit_info"; Some (mk_rate_limit status kind).

Definition iteration_of_value (v : Value) : option IterationUsage :=
  v ← is_object v;
  i ← u64_default v "input_tokens"; c ← u64_default v "cache_creation_input_tokens";
  r ← u64_default v "cache_read_input_tokens"; Some (mk_iteration i c r).

Definition usage_of_value (v : Value) : option UsageBody :=
  v ← is_object v;
  i ← u64_default v "input_tokens"; o ← u64_default v "output_tokens";
  c ← u64_default v "cache_creation_input_tokens"; r ← u64_default v "cache_read_input_tokens";
  its ← field_default (as_vec iteration_of_value) [] v "iterations"; Some (mk_usage i o c r its).

Definition result_of_value (v : Value) : option ResultFrame :=
  v ← is_object v;
  subtype ← str_default v "subtype"; result ← field_option as_str v "result";
  errors ← field_default (as_vec Some) [] v "errors"; usage ← field_default usage_of_value (mk_usage 0 0 0 0 []) v "usage";
  session_id ← field_option as_str v "session_id";
  Some (mk_result subtype result errors usage session_id).

Definition control_body (v : Value) : option (string * string * Value) :=
  v ← is_object v;
  subtype ← str_default v "subtype"; tool ← str_default v "tool_name"; input ← field_default Some Null v "input";
  Some (subtype, tool, input).

Definition control_of_value (v : Value) : option ControlRequestFrame :=
  v ← is_object v;
  id ← str_default v "request_id";
  '(subtype, tool, input) ← field_default control_body ("", "", Null) v "request";
  Some (mk_control id subtype tool input).

(** [parse_frame] on a line's value: [None] is a decoding error. *)
Definition frame_of_value (v : Value) : option Frame :=
  let kind := default "" (obj_get v "type" ≫= as_str) in
  if String.eqb kind "system" then FSystem <$> system_of_value v
  else if String.eqb kind "stream_event" then FStreamEvent <$> stream_event_of_value v
  else if String.eqb kind "assistant" then FAssistant <$> message_of_value v
  else if String.eqb kind "user" then FUser <$> message_of_value v
  else if String.eqb kind "rate_limit_event" then FRateLimit <$> rate_limit_of_value v
  else if String.eqb kind "result" then FResult <$> result_of_value v
  else if String.eqb kind "control_request" then FControlRequest <$> control_of_value v
  else Some FOther.

(** The size of the context: the last iteration's, or the top level's. The sum
    wraps as a release build's does. *)
Definition wrap_u64 (n : N) : N := (n mod 2 ^ 64)%N.

Definition context_tokens (u : UsageBody) : N :=
  match last (us_iterations u) with
  | Some i => wrap_u64 (it_input i + it_creation i + it_read i)
  | None => wrap_u64 (us_input u + us_creation u + us_read u)
  end.

(** ** Wording *)

Definition assistant_error_text (code : string) : string :=
  if String.eqb code "authentication_failed" then "Authentication failed — sign in to Claude again."
  else if String.eqb code "oauth_org_not_allowed" then "This organization isn't allowed to use Claude here."
  else if String.eqb code "billing_error" then "Billing error — check your Claude plan or payment method."
  else if String.eqb code "rate_limit" then "Claude usage limit reached — try again after the limit resets."
  else if String.eqb code "overloaded" then "Claude is overloaded right now — try again shortly."
  else if String.eqb code "invalid_request" then "The request was rejected as invalid."
  else if String.eqb code "model_not_found" then "The selected model isn't available."
  else if String.eqb code "server_error" then "Claude had a server error — try again."
  else if String.eqb code "max_output_tokens" then "The reply hit the maximum output length."
  else if String.eqb code "unknown" then "Claude returned an unspecified error."
  else "Claude error: " ++ code.

Definition rate_window_label (kind : string) : string :=
  if String.eqb kind "five_hour" then "5-hour"
  else if String.eqb kind "seven_day" || String.eqb kind "seven_day_overage_included" then "weekly"
  else if String.eqb kind "seven_day_opus" then "weekly (Opus)"
  else if String.eqb kind "seven_day_sonnet" then "weekly (Sonnet)"
  else if String.eqb kind "overage" then "overage"
  else "usage".

Definition result_error_text (subtype : string) : string :=
  if String.eqb subtype "error_max_turns" then "The run hit the maximum number of turns."
  else if String.eqb subtype "error_max_budget_usd" then "The run hit its cost budget."
  else if String.eqb subtype "error_max_structured_output_retries" then "The run exhausted its structured-output retries."
  else "The run ended with an error.".

Definition known_failure (subtype : string) : bool :=
  String.eqb subtype "error_max_turns" || String.eqb subtype "error_max_budget_usd" ||
  String.eqb subtype "error_max_structured_output_retries".

Definition is_internal_diagnostic (message : string) : bool := contains "[ede_diagnostic]" message.

(** ** Tools *)

Definition str_field (input : Value) (key : string) : string := default "" (obj_get input key ≫= as_str).
Definition opt_str_field (input : Value) (key : string) : option string := obj_get input key ≫= as_str.
Definition non_null_input (input : Value) : option Value := if is_null input then None else Some input.

Definition todo_of (t : Value) : TodoItem :=
  mk_todo (str_field t "content") (bool_decide (obj_get t "status" ≫= as_str = Some "completed")).

(** A name with the task's own words, or the bare one. *)
Definition named (bare prefix_ detail : string) : string :=
  if String.eqb detail "" then bare else prefix_ ++ detail.

Definition decode_tool_use (name : string) (input : Value) : ToolCall :=
  if String.eqb name "Bash" then Exec (str_field input "command")
  else if String.eqb name "Read" then ReadFile (str_field input "file_path")
  else if String.eqb name "Write" then WriteFile (str_field input "file_path") (opt_str_field input "content")
  else if String.eqb name "Edit" then
    EditFile (str_field input "file_path") (opt_str_field input "old_string") (opt_str_field input "new_string")
  else if String.eqb name "Grep" then Search (str_field input "pattern") (opt_str_field input "path")
  else if String.eqb name "Glob" then Glob (str_field input "pattern")
  else if String.eqb name "WebFetch" then WebFetch (str_field input "url") (opt_str_field input "prompt")
  else if String.eqb name "WebSearch" then WebSearch (str_field input "query")
  else if String.eqb name "TodoWrite" then
    Todo (match obj_get input "todos" with Some (Array l) => todo_of <$> l | _ => [] end)
  else if String.eqb name "Agent" || String.eqb name "Task" then
    Unknown (named "Agent" "Agent: " (str_field input "description")) (non_null_input input)
  else if String.eqb name "BashOutput" then
    Unknown (named "Background output" "Background output: " (str_field input "bash_id")) (non_null_input input)
  else if String.eqb name "KillShell" then
    Unknown (named "Stop background task" "Stop background task: " (str_field input "shell_id")) (non_null_input input)
  else
    match strip_prefix "mcp__" name ≫= split_once_str "__" with
    | Some (server, tool) => Mcp server tool (non_null_input input)
    | None => Unknown name (non_null_input input)
    end.

(** ** The normalizer *)

Record Normalizer := mk_normalizer {
  nm_saw_init : bool;
  nm_agent_tasks : gmap string string;
  nm_message_id : string;
  nm_session_id : option string;
  nm_fresh : nat;
}.

Definition tag (parent : string) (e : AgentEvent) : AgentEvent := Subagent parent e.

Definition non_empty (s : option string) : option string :=
  match s with Some s => if String.eqb s "" then None else Some s | None => None end.

Definition one_of (l : list string) (s : string) : bool := existsb (String.eqb s) l.

(** The terminal statuses of a background task. *)
Definition task_status (status : string) : option DoneStatus :=
  if one_of ["completed"; "complete"; "succeeded"; "success"] status then Some Completed
  else if one_of ["failed"; "errored"; "error"] status then Some Errored
  else if one_of ["killed"; "cancelled"; "canceled"; "stopped"; "interrupted"] status then Some Interrupted
  else None.

Definition first_field (keys : list string) (v : Value) : option Value := head (omap (obj_get v) keys).

Definition blank (s : string) : bool := String.eqb (trim s) "".

(** The opening user message of a spawn, and a steer re-keyed to its spawn. *)
Definition opening (b : ContentBlock) : list AgentEvent :=
  if String.eqb (cb_name b) "Agent" || String.eqb (cb_name b) "Task" then
    match obj_get (cb_input b) "prompt" ≫= as_str with
    | Some p => if blank p then [] else [tag (cb_id b) (UserMessage p)]
    | None => []
    end
  else [].

Definition steer_of (tasks : gmap string string) (b : ContentBlock) : option AgentEvent :=
  if String.eqb (cb_name b) "SendMessage" then
    to_ ← first_field ["to"; "recipient"] (cb_input b) ≫= as_str;
    spawn ← tasks !! to_;
    text ← first_field ["message"; "content"] (cb_input b) ≫= as_str;
    if blank text then None else Some (tag spawn (UserMessage text))
  else None.

Definition tool_result_of (b : ContentBlock) : AgentEvent :=
  ToolResult (cb_tool_use_id b) (default false (cb_is_error b)) None None.

Definition of_kind (kind : string) (l : list ContentBlock) : list ContentBlock :=
  List.filter (fun b => String.eqb (cb_kind b) kind) l.

Definition newlines : string := String newline (String newline "").

Definition SYSTEM_REMINDER : string := "<system-reminder>".

(** [join] with a separator. *)
Fixpoint join (sep : string) (l : list string) : string :=
  match l with [] => "" | [s] => s | s :: l => s ++ sep ++ join sep l end.

Section Normalize.
Context {J : JsonText} (new_message_id : nat -> string).

Definition normalizer_new : Normalizer := mk_normalizer false ∅ (new_message_id 0) None 1.

Definition rotate_for_steer (n : Normalizer) : string * string * Normalizer :=
  let next := new_message_id (nm_fresh n) in
  (nm_message_id n, next, mk_normalizer (nm_saw_init n) (nm_agent_tasks n) next (nm_session_id n) (S (nm_fresh n))).

Definition normalize_system (f : SystemFrame) (n : Normalizer) : list AgentEvent * Normalizer :=
  if String.eqb (sy_subtype f) "task_notification" then
    match non_empty (sy_tool_use_id f), task_status (default "" (sy_status f)) with
    | Some parent, Some status => ([tag parent (Done status None None None)], n)
    | _, _ => ([], n)
    end
  else
    match (if String.eqb (sy_subtype f) "task_started" then sy_subagent_type f else None),
          non_empty (sy_task_id f), non_empty (sy_tool_use_id f) with
    | Some _, Some task, Some tool =>
        ([], mk_normalizer (nm_saw_init n) (<[task := tool]> (nm_agent_tasks n)) (nm_message_id n)
               (nm_session_id n) (nm_fresh n))
    | _, _, _ =>
        if negb (String.eqb (sy_subtype f) "init") || nm_saw_init n then ([], n)
        else
          ([SessionStarted ClaudeCode (sy_model f) (sy_tools f) (sy_cwd f) (sy_session_id f) (nm_message_id n)],
           mk_normalizer true (nm_agent_tasks n) (nm_message_id n) (Some (sy_session_id f)) (nm_fresh n))
    end.

Definition normalize_stream (f : StreamEventFrame) : list AgentEvent :=
  let d := se_delta f in
  if negb (String.eqb (se_kind f) "content_block_delta") then []
  else
    match se_parent f with
    | Some parent =>
        if String.eqb (dl_kind d) "text_delta" then [tag parent (TextDelta (dl_text d))]
        else if String.eqb (dl_kind d) "thinking_delta" && negb (String.eqb (dl_thinking d) "") then
          [tag parent (ReasoningDelta (dl_thinking d))]
        else []
    | None =>
        if String.eqb (dl_kind d) "text_delta" then [TextDelta (dl_text d)]
        else if String.eqb (dl_kind d) "thinking_delta" then [ReasoningDelta (dl_thinking d)]
        else if String.eqb (dl_kind d) "input_json_delta" then [ReasoningDelta ""]
        else []
    end.

Definition block_event (parent : string) (b : ContentBlock) : option AgentEvent :=
  if String.eqb (cb_kind b) "text" && negb (String.eqb (cb_text b) "") then
    Some (tag parent (TextDelta (trim_end (cb_text b) ++ newlines)))
  else if String.eqb (cb_kind b) "tool_use" then
    Some (tag parent (ToolCallEv (cb_id b) (decode_tool_use (cb_name b) (cb_input b))))
  else None.

Definition normalize_assistant (f : MessageFrame) (n : Normalizer) : list AgentEvent * Normalizer :=
  match mf_parent f with
  | Some parent =>
      (omap (block_event parent) (blocks (mf_content f)) ++
       match mf_error f with Some code => [tag parent (ErrorEv (assistant_error_text code))] | None => [] end, n)
  | None =>
      let calls := of_kind "tool_use" (blocks (mf_content f)) ≫= (fun b =>
        ToolCallEv (cb_id b) (decode_tool_use (cb_name b) (cb_input b)) ::
        opening b ++ match steer_of (nm_agent_tasks n) b with Some e => [e] | None => [] end) in
      let errors := match mf_error f with Some code => [ErrorEv (assistant_error_text code)] | None => [] end in
      let '(prev, _, n) := rotate_for_steer n in
      (calls ++ errors ++ [AssistantMessageCompleted prev], n)
  end.

Definition normalize_user (f : MessageFrame) : list AgentEvent :=
  let bs := blocks (mf_content f) in
  match mf_parent f with
  | Some parent =>
      ((fun b => tag parent (tool_result_of b)) <$> of_kind "tool_result" bs) ++
      ((fun b => tag parent (UserMessage (cb_text b))) <$>
         List.filter (fun b => negb (blank (cb_text b)) && negb (starts_with SYSTEM_REMINDER (trim_start (cb_text b))))
           (of_kind "text" bs))
  | None => tool_result_of <$> of_kind "tool_result" bs
  end.

Definition normalize_rate_limit (f : RateLimitFrame) : list AgentEvent :=
  if negb (String.eqb (rl_status f) "rejected") then []
  else [ErrorEv ("Claude " ++ rate_window_label (default "" (rl_type f)) ++
                 " limit reached — the turn was blocked. Try again after it resets.")].

Definition error_line (v : Value) : string := match v with Str s => s | v => to_text v end.

(** The error of a failed result: the real errors, or the wording of the subtype,
    unless only diagnostics came. *)
Definition result_error (f : ResultFrame) : option string :=
  let lines := error_line <$> rs_errors f in
  let errors := List.filter (fun m => negb (is_internal_diagnostic m)) lines in
  match errors with
  | _ :: _ => Some (join "; " errors)
  | [] =>
      if known_failure (rs_subtype f) then Some (result_error_text (rs_subtype f))
      else match lines with _ :: _ => None | [] => Some (result_error_text (rs_subtype f)) end
  end.

Definition normalize_result (f : ResultFrame) (interrupted : bool) (n : Normalizer) : list AgentEvent * Normalizer :=
  let n := match rs_session_id f with
           | Some id => mk_normalizer (nm_saw_init n) (nm_agent_tasks n) (nm_message_id n) (Some id) (nm_fresh n)
           | None => n
           end in
  let u := rs_usage f in
  let usage := Usage (us_input u) (us_output u) (context_tokens u) in
  let done_ :=
    if String.eqb (rs_subtype f) "success" then
      Done (if interrupted then Interrupted else Completed) (rs_result f) None (rs_session_id f)
    else Done (if interrupted then Interrupted else Errored) None (result_error f) (rs_session_id f) in
  ([usage; done_], n).

Definition normalize (f : Frame) (interrupted : bool) (n : Normalizer) : list AgentEvent * Normalizer :=
  match f with
  | FSystem f => normalize_system f n
  | FStreamEvent f => (normalize_stream f, n)
  | FAssistant f => normalize_assistant f n
  | FUser f => (normalize_user f, n)
  | FRateLimit f => (normalize_rate_limit f, n)
  | FResult f => normalize_result f interrupted n
  | FControlRequest _ | FOther => ([], n)
  end.
End Normalize.

(** ** Control requests *)

Section Control.
Context {J : JsonText} (new_question_id : nat -> string).

Definition control_response_line (request_id : string) (response : Value) : string :=
  to_text (Object [("response", Object [("request_id", Str request_id); ("response", response); ("subtype", Str "success")]);
                   ("type", Str "control_response")]).

Definition allow_response (updated_input : Value) : Value :=
  Object [("behavior", Str "allow"); ("updatedInput", updated_input)].

Definition user_message_line (text : string) : string :=
  to_text (Object [("message", Object [("content", Str text); ("role", Str "user")]); ("parent_tool_use_id", Null);
                   ("type", Str "user")]).

Definition interrupt_request_line (request_id : string) : string :=
  to_text (Object [("request", Object [("subtype", Str "interrupt")]); ("request_id", Str request_id);
                   ("type", Str "control_request")]).

(** The first of two keys that holds a string, or a boolean. *)
Definition text_field (q : Value) (keys : list string) : option string := head (omap (fun k => obj_get q k ≫= as_str) keys).
Definition flag_field (q : Value) (keys : list string) : bool :=
  default false (head (omap (fun k => obj_get q k ≫= as_boolean) keys)).

Definition option_label (op : Value) : string :=
  match op with
  | Str s => s
  | op => default "" ((match obj_get op "label" with Some v => Some v | None => obj_get op "value" end) ≫= as_str)
  end.

Definition parse_question (id : string) (q : Value) : UserInputQuestion :=
  mk_question id (default "Question" (text_field q ["header"; "title"]))
    (default "" (text_field q ["question"; "prompt"]))
    (match obj_get q "options" with Some (Array l) => option_label <$> l | _ => [] end)
    (flag_field q ["multiSelect"; "multi_select"]).

(** [parse_questions], with ids from [first] on. *)
Definition parse_questions (first : nat) (input : Value) : list UserInputQuestion :=
  match obj_get input "questions" with
  | Some (Array l) => imap (fun i q => parse_question (new_question_id (first + i)) q) l
  | _ => []
  end.

Definition answer_value (answers : list UserInputAnswer) (q : UserInputQuestion) : Value :=
  let labels := match List.find (fun a => String.eqb (ua_question_id a) (uq_id q)) answers with
                | Some a => ua_labels a | None => [] end in
  if uq_multi_select q then Array (Str <$> labels) else Str (default "" (head labels)).

Definition updated_input_with_answers (input : Value) (questions : list UserInputQuestion)
    (answers : list UserInputAnswer) : Value :=
  let fields := match input with Object l => l | _ => [] end in
  let by_question := foldl (fun m q => map_put (uq_question q) (answer_value answers q) m) [] questions in
  Object (map_put "answers" (Object by_question) fields).
End Control.

(** ** The session loop *)

Definition ULTRATHINK_PREFIX : string := "Ultrathink:" ++ String newline "".

Definition apply_ultrathink (reasoning : option ReasoningLevel) (text : string) : string :=
  match reasoning with Some Ultrathink => ULTRATHINK_PREFIX ++ text | _ => text end.

Inductive StdinMsg := SLine (line : string) | SClose.

(** A parked question: its request id, the input and the questions asked. *)
Record Ask := mk_ask { ak_request_id : string; ak_input : Value; ak_questions : list UserInputQuestion }.

Record Session := mk_session {
  ss_norm : Normalizer;
  ss_steering_open : bool;
  ss_interrupted : bool;
  ss_any_done : bool;
  ss_done_after_interrupt : bool;
  ss_emitted : list (string + AgentEvent);
  ss_stdin : list StdinMsg;
  ss_asks : gmap nat Ask;
  ss_ask_count : nat;
  ss_question_count : nat;
  ss_over : bool;
  ss_gone : bool;
}.

(** A turn of the loop's [select], or of the task behind a question. *)
Inductive Turn :=
  | TLine (line : string)
  | TEof
  | TIoError (message : string)
  | TSteer (prompt : option string)
  | TInterrupt
  | TConsumerGone
  | TAnswered (ask : nat) (answers : option (list UserInputAnswer)).

Section Loop.
Context {J : JsonText} (new_message_id new_question_id : nat -> string) (reasoning : option ReasoningLevel).

Definition session_new : Session :=
  mk_session (normalizer_new new_message_id) true false false false [] [] ∅ 0 0 false false.

Definition is_done (e : AgentEvent) : bool := match e with Done _ _ _ _ => true | _ => false end.

(** The events of one frame: the first [Done] after an interrupt ends the run. *)
Fixpoint emit_all (es : list AgentEvent) (s : Session) : Session :=
  match es with
  | [] => s
  | e :: es =>
      let s := mk_session (ss_norm s) (ss_steering_open s) (ss_interrupted s) (ss_any_done s || is_done e)
                 (ss_done_after_interrupt s || is_done e && ss_interrupted s) (ss_emitted s ++ [inr e]) (ss_stdin s)
                 (ss_asks s) (ss_ask_count s) (ss_question_count s) (is_done e && ss_interrupted s) (ss_gone s) in
      if ss_over s then s else emit_all es s
  end.

Definition set_norm (n : Normalizer) (s : Session) : Session :=
  mk_session n (ss_steering_open s) (ss_interrupted s) (ss_any_done s) (ss_done_after_interrupt s) (ss_emitted s)
    (ss_stdin s) (ss_asks s) (ss_ask_count s) (ss_question_count s) (ss_over s) (ss_gone s).

Definition write_stdin (m : StdinMsg) (s : Session) : Session :=
  mk_session (ss_norm s) (ss_steering_open s) (ss_interrupted s) (ss_any_done s) (ss_done_after_interrupt s)
    (ss_emitted s) (ss_stdin s ++ [m]) (ss_asks s) (ss_ask_count s) (ss_question_count s) (ss_over s) (ss_gone s).

Definition set_asks (asks : gmap nat Ask) (count questions : nat) (s : Session) : Session :=
  mk_session (ss_norm s) (ss_steering_open s) (ss_interrupted s) (ss_any_done s) (ss_done_after_interrupt s)
    (ss_emitted s) (ss_stdin s) asks count questions (ss_over s) (ss_gone s).

Definition emit_one (e : string + AgentEvent) (s : Session) : Session :=
  mk_session (ss_norm s) (ss_steering_open s) (ss_interrupted s) (ss_any_done s) (ss_done_after_interrupt s)
    (ss_emitted s ++ [e]) (ss_stdin s) (ss_asks s) (ss_ask_count s) (ss_question_count s) (ss_over s) (ss_gone s).

Definition set_over (gone : bool) (s : Session) : Session :=
  mk_session (ss_norm s) (ss_steering_open s) (ss_interrupted s) (ss_any_done s) (ss_done_after_interrupt s)
    (ss_emitted s) (ss_stdin s) (ss_asks s) (ss_ask_count s) (ss_question_count s) true (ss_gone s || gone).

Definition handle_control_request (f : ControlRequestFrame) (s : Session) : Session :=
  if negb (String.eqb (ct_subtype f) "can_use_tool") then s
  else if negb (String.eqb (ct_tool_name f) "AskUserQuestion") then
    write_stdin (SLine (control_response_line (ct_request_id f) (allow_response (ct_input f)))) s
  else
    let questions := parse_questions new_question_id (ss_question_count s) (ct_input f) in
    set_asks (<[ss_ask_count s := mk_ask (ct_request_id f) (ct_input f) questions]> (ss_asks s))
      (S (ss_ask_count s)) (ss_question_count s + length questions) s.

(** The answers of the bridge; a dropped sender answers nothing. *)
Definition answer_ask (k : nat) (answers : option (list UserInputAnswer)) (s : Session) : option Session :=
  a ← ss_asks s !! k;
  let updated := updated_input_with_answers (ak_input a) (ak_questions a) (default [] answers) in
  Some (write_stdin (SLine (control_response_line (ak_request_id a) (allow_response updated)))
          (set_asks (delete k (ss_asks s)) (ss_ask_count s) (ss_question_count s) s)).

Definition session_line (line : string) (s : Session) : Session :=
  let line := trim line in
  if String.eqb line "" then s
  else
    match from_text line ≫= frame_of_value with
    | None => s
    | Some (FControlRequest f) => handle_control_request f s
    | Some f =>
        let '(es, n) := normalize new_message_id f (ss_interrupted s) (ss_norm s) in emit_all es (set_norm n s)
    end.

(** [None] when the turn is not enabled. The task behind a question outlives the
    loop. *)
Definition session_step (t : Turn) (s : Session) : option Session :=
  match t with
  | TAnswered k answers => answer_ask k answers s
  | _ =>
      if ss_over s then None
      else
        match t with
        | TLine line => Some (session_line line s)
        | TEof => Some (set_over false s)
        | TIoError message => Some (set_over false (emit_one (inl message) s))
        | TSteer prompt =>
            if ss_steering_open s && negb (ss_interrupted s) then
              match prompt with
              | Some prompt =>
                  let s := write_stdin (SLine (user_message_line (apply_ultrathink reasoning prompt))) s in
                  let '(prev, next, n) := rotate_for_steer new_message_id (ss_norm s) in
                  Some (emit_one (inr (Steered (Some prev) (Some next))) (set_norm n s))
              | None =>
                  let s := write_stdin SClose s in
                  Some (mk_session (ss_norm s) false (ss_interrupted s) (ss_any_done s) (ss_done_after_interrupt s)
                          (ss_emitted s) (ss_stdin s) (ss_asks s) (ss_ask_count s) (ss_question_count s) (ss_over s)
                          (ss_gone s))
              end
            else None
        | TInterrupt =>
            if ss_interrupted s then None
            else
              let s := write_stdin (SLine (interrupt_request_line "int_1")) s in
              Some (mk_session (ss_norm s) (ss_steering_open s) true (ss_any_done s) (ss_done_after_interrupt s)
                      (ss_emitted s) (ss_stdin s) (ss_asks s) (ss_ask_count s) (ss_question_count s) (ss_over s)
                      (ss_gone s))
        | TConsumerGone => Some (set_over true s)
        | TAnswered _ _ => None
        end
  end.

Definition session_run (ts : list Turn) (s : Session) : Session :=
  foldl (fun s t => default s (session_step t s)) s ts.

(** The bookkeeping after the loop: a stream whose consumer listens ends with a
    [Done]. *)
Definition session_finish (crash : string) (s : Session) : list (string + AgentEvent) :=
  if ss_gone s then ss_emitted s
  else if ss_interrupted s && negb (ss_done_after_interrupt s) then
    ss_emitted s ++ [inr (Done Interrupted None None (nm_session_id (ss_norm s)))]
  else if negb (ss_interrupted s) && negb (ss_any_done s) then
    ss_emitted s ++ [inr (Done Errored None (Some crash) (nm_session_id (ss_norm s)))]
  else ss_emitted s.
End Loop.

(** ** Feeds *)

Definition frame_parent (f : Frame) : option string :=
  match f with
  | FStreamEvent f => se_parent f
  | FAssistant f | FUser f => mf_parent f
  | _ => None
  end.

Definition tagged (e : AgentEvent) : bool := match e with Subagent _ _ => true | _ => false end.

Section Feeds.
Context {J : JsonText} (new_message_id : nat -> string).

Lemma opening_tagged b e : e ∈ opening b -> exists text, e = Subagent (cb_id b) (UserMessage text).
Proof.
  unfold opening. destruct (_ || _); [|by intros ?%elem_of_nil]. destruct (_ ≫= as_str) as [p|]; [|by intros ?%elem_of_nil].
  destruct (blank p); [by intros ?%elem_of_nil|]. intros ->%list_elem_of_singleton. by exists p.
Qed.

Lemma steer_of_tagged tasks b e : steer_of tasks b = Some e ->
  exists task spawn text, tasks !! task = Some spawn /\ e = Subagent spawn (UserMessage text).
Proof.
  unfold steer_of. destruct (String.eqb _ _); [|done]. destruct (first_field ["to"; "recipient"] _ ≫= as_str) as [t|]; [|done].
  cbn. destruct (tasks !! t) as [spawn|] eqn:E; [|done]. cbn. destruct (first_field _ _ ≫= as_str) as [x|]; [|done]. cbn.
  destruct (blank x); [done|]. intros [= <-]. by exists t, spawn, x.
Qed.

(** A subagent's traffic never enters its parent's feed, nor the other way:
    a frame with a parent yields only events tagged with it, once, and leaves
    the normalizer as it was, so it neither rotates the message id nor starts a
    session; a frame without one yields untagged events, but for the three
    that concern a subagent: the end of a background task that the CLI
    announced, the opening message of a spawn under the spawn's own call, and
    a steer of a task the CLI has announced, under the call that spawned it. *)
Theorem feeds_apart f interrupted n es n' :
  normalize new_message_id f interrupted n = (es, n') ->
  (forall p, frame_parent f = Some p ->
     n' = n /\ forall e, e ∈ es -> exists e', e = Subagent p e' /\ tagged e' = false) /\
  (frame_parent f = None -> forall p e', Subagent p e' ∈ es ->
     (exists g status, f = FSystem g /\ sy_tool_use_id g = Some p /\ e' = Done status None None None) \/
     (exists g b text, f = FAssistant g /\ b ∈ blocks (mf_content g) /\ cb_kind b = "tool_use" /\ e' = UserMessage text /\
        (p = cb_id b \/ exists task, nm_agent_tasks n !! task = Some p))).
Proof.
  destruct f as [g|g|g|g|g|g|g|]; cbn [normalize frame_parent].
  - intros E. split; [done|]. intros _ p e' Hin. left. unfold normalize_system in E. destruct (String.eqb _ _).
    + unfold non_empty in E. destruct (sy_tool_use_id g) as [t|] eqn:Et; cycle 1.
      { injection E as <- _. by apply elem_of_nil in Hin. }
      destruct (String.eqb t ""); [injection E as <- _; by apply elem_of_nil in Hin|].
      destruct (task_status _) as [st|]; [|injection E as <- _; by apply elem_of_nil in Hin].
      injection E as <- _. apply list_elem_of_singleton in Hin. injection Hin as -> ->. by exists g, st.
    + exfalso. destruct (if String.eqb (sy_subtype g) "task_started" then sy_subagent_type g else None),
        (non_empty (sy_task_id g)), (non_empty (sy_tool_use_id g)); try destruct (_ || _); injection E as <- _;
        try (by apply elem_of_nil in Hin); by apply list_elem_of_singleton in Hin.
  - intros [= <- <-]. unfold normalize_stream. destruct (negb _).
    { split; [intros p _; split; [done|]; by intros e ?%elem_of_nil|by intros _ p e' ?%elem_of_nil]. }
    destruct (se_parent g) as [p0|].
    + split; [|done]. intros p [= ->]. split; [done|]. intros e He.
      destruct (String.eqb _ _); [apply list_elem_of_singleton in He as ->; eauto|].
      destruct (_ && _); [apply list_elem_of_singleton in He as ->; eauto|by apply elem_of_nil in He].
    + split; [done|]. intros _ p e' He. repeat destruct (String.eqb _ _); try (by apply elem_of_nil in He);
        by apply list_elem_of_singleton in He.
  - unfold normalize_assistant. destruct (mf_parent g) as [p0|].
    + intros [= <- <-]. split; [|done]. intros p [= ->]. split; [done|]. intros e [He|He]%elem_of_app.
      * apply list_elem_of_omap in He as (b & _ & Eb). unfold block_event in Eb.
        destruct (_ && _); [injection Eb as <-; eauto|]. destruct (String.eqb _ _); [injection Eb as <-; eauto|done].
      * destruct (mf_error g); [apply list_elem_of_singleton in He as ->; eauto|by apply elem_of_nil in He].
    + intros [= <- _]. split; [done|]. intros _ p e' Hin. right.
      apply elem_of_app in Hin as [Hin|Hin]; cycle 1.
      { apply elem_of_app in Hin as [Hin|Hin%list_elem_of_singleton]; [|done].
        destruct (mf_error g); [by apply list_elem_of_singleton in Hin|by apply elem_of_nil in Hin]. }
      apply list_elem_of_bind in Hin as (b & Hin & Hb). unfold of_kind in Hb.
      apply list_elem_of_In, filter_In in Hb as [Hb Hk]. apply list_elem_of_In in Hb. apply String.eqb_eq in Hk.
      apply elem_of_cons in Hin as [Hin|Hin]; [done|]. apply elem_of_app in Hin as [Hin|Hin].
      * destruct (opening_tagged b _ Hin) as [text [= -> ->]]. exists g, b, text. by split_and!; [..|left].
      * destruct (steer_of _ b) as [x|] eqn:Ex; [|by apply elem_of_nil in Hin]. apply list_elem_of_singleton in Hin as <-.
        destruct (steer_of_tagged _ _ _ Ex) as (t & s & text & Et & [= -> ->]). exists g, b, text. split_and!; [done..|eauto].
  - intros [= <- <-]. unfold normalize_user. destruct (mf_parent g) as [p0|].
    + split; [|done]. intros p [= ->]. split; [done|].
      intros e [(b & -> & _)%list_elem_of_fmap|(b & -> & _)%list_elem_of_fmap]%elem_of_app; eauto.
    + split; [done|]. intros _ p e' (b & E & _)%list_elem_of_fmap. done.
  - intros [= <- <-]. split; [done|]. intros _ p e' He. unfold normalize_rate_limit in He.
    destruct (negb _); [by apply elem_of_nil in He|by apply list_elem_of_singleton in He].
  - unfold normalize_result. intros [= <- _]. split; [done|]. intros _ p e' [He|He%list_elem_of_singleton]%elem_of_cons; [done|].
    by destruct (String.eqb (rs_subtype g) "success").
  - intros [= <- <-]. split; [done|]. by intros _ p e' ?%elem_of_nil.
  - intros [= <- <-]. split; [done|]. by intros _ p e' ?%elem_of_nil.
Qed.
End Feeds.

(** ** The stream's contract *)

Definition is_started (e : string + AgentEvent) : bool :=
  match e with inr (SessionStarted _ _ _ _ _ _) => true | _ => false end.
Definition done_event (e : string + AgentEvent) : bool := match e with inr e => is_done e | _ => false end.
Definition done_interrupted (e : string + AgentEvent) : bool :=
  match e with inr (Done Interrupted _ _ _) => true | _ => false end.

Section Contract.
Context {J : JsonText} (new_message_id new_question_id : nat -> string) (reasoning : option ReasoningLevel).

(** Message ids follow each other: the session opens under the current one, and
    what completes a message, or steers into the next, names the current one. *)
Fixpoint chain (k : nat) (es : list (string + AgentEvent)) : option nat :=
  match es with
  | [] => Some k
  | inr (SessionStarted _ _ _ _ _ id) :: es => if String.eqb id (new_message_id k) then chain k es else None
  | inr (AssistantMessageCompleted id) :: es => if String.eqb id (new_message_id k) then chain (S k) es else None
  | inr (Steered prev next) :: es =>
      if bool_decide (prev = Some (new_message_id k) /\ next = Some (new_message_id (S k))) then chain (S k) es else None
  | _ :: es => chain k es
  end.

Lemma chain_app k es fs : chain k (es ++ fs) = (i ← chain k es; chain i fs).
Proof.
  revert k. induction es as [|e es IH]; intros k; [done|].
  destruct e as [|e]; [apply IH|]. destruct e; try apply IH; cbn.
  - destruct (String.eqb _ _); [apply IH|done].
  - destruct (String.eqb _ _); [apply IH|done].
  - destruct (bool_decide _); [apply IH|done].
Qed.

(** An event that is about neither the session, nor a message, nor the end. *)
Definition plain (e : AgentEvent) : bool :=
  match e with
  | SessionStarted _ _ _ _ _ _ | AssistantMessageCompleted _ | Steered _ _ | Done _ _ _ _ => false
  | _ => true
  end.

Lemma chain_plain k es : forallb plain es = true -> chain k (inr <$> es) = Some k.
Proof. induction es as [|e es IH]; [done|]. cbn. intros [He Hes]%andb_true_iff. destruct e; try done; by apply IH. Qed.

Lemma plain_counts es : forallb plain es = true ->
  length (List.filter is_started (inr <$> es)) = 0%nat /\ existsb is_done es = false.
Proof.
  induction es as [|e es IH]; [done|]. cbn. intros [He Hes]%andb_true_iff. destruct (IH Hes) as [H1 H2].
  destruct e; try done; cbn; by rewrite H2.
Qed.

Lemma forallb_elem {A} (p : A -> bool) l : (forall x, x ∈ l -> p x = true) -> forallb p l = true.
Proof. intros H. apply forallb_forall. intros x Hx. by apply H, list_elem_of_In. Qed.

Definition norm_at (k : nat) (n : Normalizer) : Prop := nm_message_id n = new_message_id k /\ nm_fresh n = S k.
Definition starts (n : Normalizer) : nat := if nm_saw_init n then 1 else 0.

(** The shapes of what a frame yields. *)
Inductive yields (interrupted : bool) (n : Normalizer) : list AgentEvent -> Normalizer -> Prop :=
  | yields_plain es n' : forallb plain es = true -> nm_message_id n' = nm_message_id n -> nm_fresh n' = nm_fresh n ->
      nm_saw_init n' = nm_saw_init n -> yields interrupted n es n'
  | yields_start h m t c s n' : nm_saw_init n = false -> nm_saw_init n' = true ->
      nm_message_id n' = nm_message_id n -> nm_fresh n' = nm_fresh n ->
      yields interrupted n [SessionStarted h m t c s (nm_message_id n)] n'
  | yields_message es : forallb plain es = true ->
      yields interrupted n (es ++ [AssistantMessageCompleted (nm_message_id n)]) (rotate_for_steer new_message_id n).2
  | yields_done es st r e s n' : forallb plain es = true -> nm_message_id n' = nm_message_id n -> nm_fresh n' = nm_fresh n ->
      nm_saw_init n' = nm_saw_init n -> (interrupted = true -> st = Interrupted) ->
      yields interrupted n (es ++ [Done st r e s]) n'.

Lemma normalize_yields f interrupted n es n' :
  normalize new_message_id f interrupted n = (es, n') -> yields interrupted n es n'.
Proof.
  destruct f as [g|g|g|g|g|g|g|]; cbn [normalize].
  - unfold normalize_system. destruct (String.eqb _ _).
    + destruct (non_empty (sy_tool_use_id g)), (task_status (default "" (sy_status g))); intros [= <- <-]; by constructor.
    + destruct (if String.eqb (sy_subtype g) "task_started" then sy_subagent_type g else None), (non_empty (sy_task_id g)), (non_empty (sy_tool_use_id g));
        try (intros [= <- <-]; by constructor);
        (destruct (_ || _) eqn:E; intros [= <- <-]; [by constructor|]; apply orb_false_iff in E as [_ E]; by constructor).
  - intros [= <- <-]. constructor; try done. unfold normalize_stream. destruct (negb _); [done|].
    destruct (se_parent g); repeat destruct (String.eqb _ _); done.
  - unfold normalize_assistant. destruct (mf_parent g) as [p|].
    + intros [= <- <-]. constructor; try done. apply forallb_elem. intros e [He|He]%elem_of_app.
      * apply list_elem_of_omap in He as (b & _ & Eb). unfold block_event in Eb.
        destruct (_ && _); [by injection Eb as <-|]. destruct (String.eqb _ _); [by injection Eb as <-|done].
      * destruct (mf_error g); [by apply list_elem_of_singleton in He as ->|by apply elem_of_nil in He].
    + intros [= <- <-]. rewrite app_assoc. apply yields_message. apply forallb_elem. intros e [He|He]%elem_of_app.
      * apply list_elem_of_bind in He as (b & He & _). apply elem_of_cons in He as [->|He]; [done|].
        apply elem_of_app in He as [He|He]; [by destruct (opening_tagged b _ He) as [t ->]|].
        destruct (steer_of _ b) eqn:Ex; [|by apply elem_of_nil in He]. apply list_elem_of_singleton in He as ->.
        by destruct (steer_of_tagged _ _ _ Ex) as (? & ? & ? & _ & ->).
      * destruct (mf_error g); [by apply list_elem_of_singleton in He as ->|by apply elem_of_nil in He].
  - intros [= <- <-]. constructor; try done. unfold normalize_user. apply forallb_elem. intros e He.
    destruct (mf_parent g).
    + by apply elem_of_app in He as [(b & -> & _)%list_elem_of_fmap|(b & -> & _)%list_elem_of_fmap].
    + by apply list_elem_of_fmap in He as (b & -> & _).
  - intros [= <- <-]. constructor; try done. unfold normalize_rate_limit. by destruct (negb _).
  - unfold normalize_result. intros [= <- <-].
    assert (forall st r e s, (interrupted = true -> st = Interrupted) ->
      yields interrupted n (Usage (us_input (rs_usage g)) (us_output (rs_usage g)) (context_tokens (rs_usage g)) ::
        [Done st r e s]) (match rs_session_id g with
          | Some id => mk_normalizer (nm_saw_init n) (nm_agent_tasks n) (nm_message_id n) (Some id) (nm_fresh n)
          | None => n end)) as H.
    { intros st r e s Hst. apply (yields_done interrupted n [Usage _ _ _]); try done; by destruct (rs_session_id g). }
    destruct (String.eqb _ _); apply H; by destruct interrupted.
  - intros [= <- <-]. by constructor.
  - intros [= <- <-]. by constructor.
Qed.

Lemma emit_all_plain es s : ss_over s = false -> existsb is_done es = false ->
  emit_all es s = mk_session (ss_norm s) (ss_steering_open s) (ss_interrupted s) (ss_any_done s) (ss_done_after_interrupt s)
    (ss_emitted s ++ (inr <$> es)) (ss_stdin s) (ss_asks s) (ss_ask_count s) (ss_question_count s) false (ss_gone s).
Proof.
  revert s. induction es as [|e es IH]; intros s Ho Hd.
  - cbn. rewrite app_nil_r. rewrite <- Ho. by destruct s.
  - cbn in Hd. apply orb_false_iff in Hd as [He Hd]. cbn. rewrite He. cbn. rewrite IH by done. cbn.
    by rewrite !orb_false_r, <- app_assoc.
Qed.

Lemma emit_all_app es fs s : existsb is_done es = false -> ss_over s = false ->
  emit_all (es ++ fs) s = emit_all fs (emit_all es s).
Proof.
  revert s. induction es as [|e es IH]; intros s Hd Ho; [done|]. cbn in Hd. apply orb_false_iff in Hd as [He Hd].
  cbn. rewrite He. cbn. by apply IH.
Qed.

(** The loop's invariant. *)
Record session_ok (s : Session) : Prop := {
  so_chain : exists k, chain 0 (ss_emitted s) = Some k /\ norm_at k (ss_norm s);
  so_starts : length (List.filter is_started (ss_emitted s)) = starts (ss_norm s);
  so_done : ss_any_done s = true -> existsb done_event (ss_emitted s) = true;
  so_after : ss_done_after_interrupt s = true ->
    ss_over s = true /\ exists e, last (ss_emitted s) = Some e /\ done_interrupted e = true;
}.

Lemma existsb_snoc {A} (p : A -> bool) l l' : existsb p l = true -> existsb p (l ++ l') = true.
Proof. intros H. rewrite existsb_app. by rewrite H. Qed.

Lemma session_ok_line f s :
  session_ok s -> ss_over s = false ->
  session_ok (let '(es, n) := normalize new_message_id f (ss_interrupted s) (ss_norm s) in emit_all es (set_norm n s)).
Proof.
  intros [(k & Hc & Hn1 & Hn2) Hs Hd Ha] Ho.
  destruct (normalize new_message_id f (ss_interrupted s) (ss_norm s)) as [es n] eqn:E.
  assert (ss_done_after_interrupt s = false) as Hf.
  { destruct (ss_done_after_interrupt s); [|done]. destruct (Ha eq_refl) as [E' _]. by rewrite Ho in E'. }
  apply normalize_yields in E. destruct E as [es n' Hp E1 E2 E3|h m t c sid n' E0 E0' E1 E2|es Hp|es st r e sid n' Hp E1 E2 E3 Hst].
  - destruct (plain_counts _ Hp) as [P1 P2]. rewrite emit_all_plain by done. split; cbn.
    + exists k. rewrite chain_app, Hc. cbn. rewrite chain_plain by done. split; [done|]. split; congruence.
    + rewrite List.filter_app, length_app, Hs, P1. unfold starts. rewrite E3. lia.
    + intros Hx. apply existsb_snoc, Hd, Hx.
    + by rewrite Hf.
  - rewrite emit_all_plain by done. split; cbn.
    + exists k. rewrite chain_app, Hc. cbn. rewrite Hn1, String.eqb_refl. split; [done|]. split; congruence.
    + rewrite List.filter_app, length_app, Hs. unfold starts. rewrite E0, E0'. done.
    + intros Hx. apply existsb_snoc, Hd, Hx.
    + by rewrite Hf.
  - destruct (plain_counts _ Hp) as [P1 P2]. rewrite emit_all_plain; [|done|by rewrite existsb_app, P2]. split; cbn.
    + exists (S k). rewrite fmap_app, chain_app, Hc. cbn. rewrite chain_app, chain_plain by done. cbn.
      rewrite Hn1, String.eqb_refl. split; [done|]. unfold norm_at. cbn. by rewrite Hn2.
    + rewrite fmap_app, !List.filter_app, !length_app, Hs, P1. cbn. unfold starts. cbn. lia.
    + intros Hx. apply existsb_snoc, Hd, Hx.
    + by rewrite Hf.
  - destruct (plain_counts _ Hp) as [P1 P2]. rewrite emit_all_app, (emit_all_plain es) by done. cbn.
    set (s' := mk_session _ _ _ _ _ _ _ _ _ _ _ _).
    assert (session_ok s') as Hok.
    { split; cbn.
      - exists k. rewrite !chain_app, Hc. cbn. rewrite chain_plain by done. cbn. split; [done|]. split; congruence.
      - rewrite !List.filter_app, !length_app, Hs, P1. cbn. unfold starts. rewrite E3. lia.
      - intros _. rewrite existsb_app. cbn. by rewrite orb_true_r.
      - rewrite Hf. cbn. intros Hi. split; [done|]. assert (st = Interrupted) as -> by (by apply Hst).
        exists (inr (Done Interrupted r e sid)). by rewrite last_snoc. }
    by destruct (ss_interrupted s).
Qed.

Lemma emit_plain_ok e s n k :
  chain 0 (ss_emitted s ++ [e]) = Some k -> norm_at k n -> is_started e = false ->
  nm_saw_init n = nm_saw_init (ss_norm s) -> session_ok s -> ss_over s = false -> forall s',
  ss_emitted s' = ss_emitted s ++ [e] -> ss_norm s' = n -> ss_any_done s' = ss_any_done s ->
  ss_done_after_interrupt s' = ss_done_after_interrupt s -> session_ok s'.
Proof.
  intros Hc Hn He Hi [_ Hs Hd Ha] Ho s' E1 E2 E3 E4. split; rewrite ?E1, ?E2, ?E3, ?E4.
  - by exists k.
  - rewrite List.filter_app, length_app, Hs. cbn. rewrite He. unfold starts. rewrite Hi. cbn. lia.
  - intros Hx. by apply existsb_snoc, Hd.
  - intros Hx. destruct (Ha Hx) as [E _]. by rewrite Ho in E.
Qed.

Lemma session_same s s' :
  session_ok s -> ss_emitted s' = ss_emitted s -> ss_norm s' = ss_norm s -> ss_any_done s' = ss_any_done s ->
  ss_done_after_interrupt s' = ss_done_after_interrupt s -> (ss_over s = true -> ss_over s' = true) -> session_ok s'.
Proof.
  intros [H1 H2 H3 H4] E1 E2 E3 E4 E5. split; rewrite ?E1, ?E2, ?E3, ?E4; try done.
  intros Hx. destruct (H4 Hx) as [Ho He]. split; [by apply E5|exact He].
Qed.

Lemma control_same f s : session_ok s -> session_ok (handle_control_request new_question_id f s) /\
  ss_over (handle_control_request new_question_id f s) = ss_over s.
Proof.
  intros H. unfold handle_control_request. destruct (negb _); [done|]. destruct (negb _); (split; [|done]); by apply (session_same s).
Qed.

Lemma session_step_ok t s s' :
  session_ok s -> session_step new_message_id new_question_id reasoning t s = Some s' -> session_ok s'.
Proof.
  intros H E. destruct (ss_over s) eqn:Ho.
  { destruct t; cbn in E; rewrite ?Ho in E; try done. unfold answer_ask in E. destruct (ss_asks s !! ask) as [a|]; [|done].
    injection E as <-. apply (session_same s); solve [done|congruence]. }
  destruct t as [line| |msg|[prompt|]| | |k a]; cbn in E; rewrite ?Ho in E.
  - injection E as <-. unfold session_line. destruct (String.eqb _ _); [done|].
    destruct (from_text _ ≫= frame_of_value) as [[f|f|f|f|f|f|f|]|]; try (by apply session_ok_line); [by apply control_same|done].
  - injection E as <-. apply (session_same s); solve [done|congruence].
  - injection E as <-. destruct (so_chain _ H) as (k & Hc & Hn).
    assert (chain 0 (ss_emitted s ++ [inl msg]) = Some k) as Hc' by (rewrite chain_app, Hc; done).
    by apply (emit_plain_ok (inl msg) s (ss_norm s) k Hc' Hn eq_refl eq_refl H Ho).
  - destruct (_ && _); [|done]. injection E as <-. destruct (so_chain _ H) as (k & Hc & Hn1 & Hn2).
    set (n := mk_normalizer _ _ _ _ _).
    assert (chain 0 (ss_emitted s ++ [inr (Steered (Some (nm_message_id (ss_norm s))) (Some (new_message_id (nm_fresh (ss_norm s)))))]) = Some (S k)) as Hc'.
    { rewrite chain_app, Hc. cbn. rewrite Hn1, Hn2, bool_decide_true by done. done. }
    assert (norm_at (S k) n) as Hn by (unfold norm_at; cbn; by rewrite Hn2).
    by apply (emit_plain_ok _ s n (S k) Hc' Hn eq_refl eq_refl H Ho).
  - destruct (_ && _); [|done]. injection E as <-. apply (session_same s); solve [done|congruence].
  - destruct (ss_interrupted s); [done|]. injection E as <-. apply (session_same s); solve [done|congruence].
  - injection E as <-. apply (session_same s); solve [done|congruence].
  - unfold answer_ask in E. destruct (ss_asks s !! k) as [x|]; [|done]. injection E as <-. apply (session_same s); solve [done|congruence].
Qed.

Lemma session_run_ok ts s : session_ok s -> session_ok (session_run new_message_id new_question_id reasoning ts s).
Proof.
  revert s. induction ts as [|t ts IH]; intros s H; [done|]. cbn. apply IH.
  destruct (session_step _ _ _ t s) as [s'|] eqn:E; [by eapply session_step_ok|done].
Qed.

End Contract.

(** ** Control requests are answered *)

(** The request a line on the child's input answers. *)
Definition response_id {J : JsonText} (m : StdinMsg) : option string :=
  match m with
  | SClose => None
  | SLine line =>
      v ← from_text line;
      if bool_decide (obj_get v "type" = Some (Str "control_response")) then
        obj_get v "response" ≫= (fun r => obj_get r "request_id" ≫= as_str)
      else None
  end.

(** The request a line of the child makes. *)
Definition request_of {J : JsonText} (line : string) : option string :=
  let line := trim line in
  if String.eqb line "" then None
  else match from_text line ≫= frame_of_value with
       | Some (FControlRequest f) => if String.eqb (ct_subtype f) "can_use_tool" then Some (ct_request_id f) else None
       | _ => None
       end.

Section Answers.
Context {J : JsonText} {L : JsonTextLaws J}.
Context (new_message_id new_question_id : nat -> string) (reasoning : option ReasoningLevel).

(** The requests a run reads, in order. *)
Fixpoint received (ts : list Turn) (s : Session) : list string :=
  match ts with
  | [] => []
  | t :: ts =>
      match t with TLine line => if ss_over s then [] else option_list (request_of line) | _ => [] end ++
      received ts (default s (session_step new_message_id new_question_id reasoning t s))
  end.

Definition waiting (s : Session) : list string := ak_request_id <$> (map_to_list (ss_asks s)).*2.

Lemma response_id_line id r : response_id (SLine (control_response_line id r)) = Some id.
Proof. unfold response_id, control_response_line. by rewrite text_roundtrip. Qed.

Lemma response_id_user text : response_id (SLine (user_message_line text)) = None.
Proof. unfold response_id, user_message_line. by rewrite text_roundtrip. Qed.

Lemma response_id_interrupt id : response_id (SLine (interrupt_request_line id)) = None.
Proof. unfold response_id, interrupt_request_line. by rewrite text_roundtrip. Qed.

Lemma emit_all_io es s : ss_stdin (emit_all es s) = ss_stdin s /\ ss_asks (emit_all es s) = ss_asks s /\
  ss_ask_count (emit_all es s) = ss_ask_count s.
Proof.
  revert s. induction es as [|e es IH]; intros s; [done|]. cbn. destruct (is_done e && ss_interrupted s); [done|].
  destruct (IH (mk_session (ss_norm s) (ss_steering_open s) (ss_interrupted s) (ss_any_done s || is_done e)
    (ss_done_after_interrupt s || false) (ss_emitted s ++ [inr e]) (ss_stdin s) (ss_asks s) (ss_ask_count s)
    (ss_question_count s) false (ss_gone s))) as (-> & -> & ->). done.
Qed.

Definition asks_fresh (s : Session) : Prop := forall k a, ss_asks s !! k = Some a -> (k < ss_ask_count s)%nat.

(** One turn: what was answered and what waits grow by what was read. *)
Lemma step_answers t s s' :
  asks_fresh s -> session_step new_message_id new_question_id reasoning t s = Some s' ->
  asks_fresh s' /\
  omap response_id (ss_stdin s') ++ waiting s' ≡ₚ
    omap response_id (ss_stdin s) ++ waiting s ++
    match t with TLine line => if ss_over s then [] else option_list (request_of line) | _ => [] end.
Proof.
  intros Hf E. unfold waiting.
  assert (forall s', ss_stdin s' = ss_stdin s -> ss_asks s' = ss_asks s -> ss_ask_count s' = ss_ask_count s ->
    asks_fresh s' /\ omap response_id (ss_stdin s') ++ (ak_request_id <$> (map_to_list (ss_asks s')).*2) ≡ₚ
      omap response_id (ss_stdin s) ++ (ak_request_id <$> (map_to_list (ss_asks s)).*2) ++ []) as Hsame.
  { intros x E1 E2 E3. split; [unfold asks_fresh; by rewrite E2, E3|]. by rewrite E1, E2, app_nil_r. }
  assert (forall m, response_id m = None -> forall s', ss_stdin s' = ss_stdin s ++ [m] -> ss_asks s' = ss_asks s ->
    ss_ask_count s' = ss_ask_count s ->
    asks_fresh s' /\ omap response_id (ss_stdin s') ++ (ak_request_id <$> (map_to_list (ss_asks s')).*2) ≡ₚ
      omap response_id (ss_stdin s) ++ (ak_request_id <$> (map_to_list (ss_asks s)).*2) ++ []) as Hquiet.
  { intros m Hm x E1 E2 E3. split; [unfold asks_fresh; by rewrite E2, E3|].
    rewrite E1, E2, omap_app. cbn. rewrite Hm. by rewrite !app_nil_r. }
  destruct t as [line| |msg|[prompt|]| | |k a]; cbn [session_step] in E.
  2-6: destruct (ss_over s); [done|].
  - destruct (ss_over s) eqn:Ho; [done|]. injection E as <-. unfold session_line, request_of.
    destruct (String.eqb _ _); [by apply Hsame|].
    destruct (from_text (trim line) ≫= frame_of_value) as [[f|f|f|f|f|f|f|]|];
      try (destruct (normalize _ _ _ _) as [es n];
        destruct (emit_all_io es (set_norm n s)) as (E1 & E2 & E3); by apply Hsame); [|by apply Hsame].
    unfold handle_control_request. destruct (String.eqb (ct_subtype f) "can_use_tool"); [|by apply Hsame]. cbn [negb].
    destruct (String.eqb _ _); cbn.
    + split.
      * intros k a Ek. cbn in Ek. apply lookup_insert_Some in Ek as [[<- _]|[_ Ek]]; [cbn; lia|]. pose proof (Hf _ _ Ek). cbn. lia.
      * rewrite map_to_list_insert; [cbn; solve_Permutation|]. destruct (ss_asks s !! ss_ask_count s) eqn:Ek; [|done].
        apply Hf in Ek. lia.
    + split; [done|]. rewrite omap_app. cbn [omap list_omap]. rewrite response_id_line. cbn. solve_Permutation.
  - injection E as <-. by apply Hsame.
  - injection E as <-. by apply Hsame.
  - destruct (_ && _); [|done]. injection E as <-. by eapply Hquiet; [apply response_id_user|..].
  - destruct (_ && _); [|done]. injection E as <-. by eapply (Hquiet SClose).
  - destruct (ss_interrupted s); [done|]. injection E as <-.
    by eapply Hquiet; [apply response_id_interrupt|..].
  - destruct (ss_over s); [done|]. injection E as <-. by apply Hsame.
  - unfold answer_ask in E. destruct (ss_asks s !! k) as [x|] eqn:Ek; [|done]. injection E as <-. cbn. split.
    + intros j b Ej. cbn in Ej. apply lookup_delete_Some in Ej as [_ Ej]. by apply Hf in Ej.
    + rewrite omap_app. cbn [omap list_omap]. rewrite response_id_line. rewrite <- (map_to_list_delete _ _ _ Ek). cbn.
      rewrite app_nil_r. solve_Permutation.
Qed.

Lemma answer_lookup answers qs m q :
  NoDup (uq_question <$> qs) -> q ∈ qs ->
  assoc_get (uq_question q) (foldl (fun m q => map_put (uq_question q) (answer_value answers q) m) m qs) =
    Some (answer_value answers q).
Proof.
  revert m. induction qs as [|x qs IH]; intros m Hn Hq; [by apply elem_of_nil in Hq|].
  cbn in Hn. apply NoDup_cons in Hn as [Hx Hn]. cbn. apply elem_of_cons in Hq as [->|Hq]; [|by apply IH].
  assert (forall m, assoc_get (uq_question x) m = Some (answer_value answers x) ->
    assoc_get (uq_question x) (foldl (fun m q => map_put (uq_question q) (answer_value answers q) m) m qs) =
      Some (answer_value answers x)) as Hkeep.
  { clear -Hx. induction qs as [|y qs IH]; intros m E; [done|]. cbn. cbn in Hx. apply not_elem_of_cons in Hx as [Hne Hx].
    apply IH; [done|]. rewrite map_put_get. destruct (String.eqb_spec (uq_question y) (uq_question x)); [by destruct Hne|done]. }
  apply Hkeep. rewrite map_put_get. by rewrite String.eqb_refl.
Qed.

(** Every tool request the child makes is answered once: over any run, the
    requests that were answered and those that wait for the user are exactly
    those that were read; and an answered question hands the tool's input back
    with each question's answer under its text and every other field as it
    was. *)
Theorem control_answered ts :
  let s := session_run new_message_id new_question_id reasoning ts (session_new new_message_id) in
  omap response_id (ss_stdin s) ++ waiting s ≡ₚ received ts (session_new new_message_id) /\
  (forall fields qs answers q, NoDup (uq_question <$> qs) -> q ∈ qs ->
     let updated := updated_input_with_answers (Object fields) qs answers in
     obj_get updated "answers" ≫= (fun a => obj_get a (uq_question q)) = Some (answer_value answers q) /\
     forall k, k <> "answers" -> obj_get updated k = obj_get (Object fields) k).
Proof.
  cbn zeta. split.
  - assert (forall s, asks_fresh s ->
      omap response_id (ss_stdin (session_run new_message_id new_question_id reasoning ts s)) ++
        waiting (session_run new_message_id new_question_id reasoning ts s) ≡ₚ
      omap response_id (ss_stdin s) ++ waiting s ++ received ts s) as Hgo.
    { induction ts as [|t ts IH]; intros s Hf; cbn; [by rewrite app_nil_r|].
      destruct (session_step _ _ _ t s) as [s'|] eqn:E; cbn.
      - destruct (step_answers t s s' Hf E) as [Hf' Hp]. rewrite (IH s' Hf'), !app_assoc.
        apply Permutation_app; [|done]. rewrite <- app_assoc. exact Hp.
      - rewrite (IH s Hf). destruct t as [line| |msg|[prompt|]| | |k a]; try done. cbn in E.
        destruct (ss_over s); done. }
    rewrite Hgo; [done|]. by intros k a.
  - intros fields qs answers q Hn Hq. unfold updated_input_with_answers. cbn. rewrite map_put_get. cbn.
    split; [by apply answer_lookup|]. intros k Hk. rewrite map_put_get. destruct (String.eqb_spec "answers" k); [by subst|done].
Qed.
End Answers.

(** ** A run *)

#[local] Existing Instances sample_json sample_json_laws.

Definition sample_id (n : nat) : string := "m" ++ pretty n.
Definition sample_question (n : nat) : string := "q" ++ pretty n.

(** Lines of the child. *)
Definition frame_line (kind : string) (fields : list (string * Value)) : string :=
  value_text (Object (fields ++ [("type", Str kind)])).

Definition init_line : string := frame_line "system" [("subtype", Str "init"); ("session_id", Str "s1")].
Definition text_line (text : string) : string := frame_line "stream_event"
  [("event", Object [("delta", Object [("text", Str text); ("type", Str "text_delta")]); ("type", Str "content_block_delta")])].
Definition child_line (parent text : string) : string := frame_line "assistant"
  [("message", Object [("content", Array [Object [("text", Str text); ("type", Str "text")]])]);
   ("parent_tool_use_id", Str parent)].
Definition success_line : string := frame_line "result" [("subtype", Str "success")].
Definition ask_line : string := frame_line "control_request"
  [("request", Object [("input", Object [("questions", Array [Object [("question", Str "Which?")]])]);
                       ("subtype", Str "can_use_tool"); ("tool_name", Str "AskUserQuestion")]);
   ("request_id", Str "r1")].

Definition sample_turns : list Turn :=
  [TLine init_line; TLine (text_line "hi"); TLine ask_line; TSteer (Some "more"); TLine init_line;
   TLine (child_line "t1" "inner"); TAnswered 0 (Some [mk_answer "q0" ["this"]]); TInterrupt;
   TLine success_line; TLine (text_line "late")].

Definition sample_session : Session :=
  session_run sample_id sample_question None sample_turns (session_new sample_id).

Example sample_stream : session_finish "crash" sample_session =
  [inr (SessionStarted ClaudeCode "" [] "" "s1" "m0"); inr (TextDelta "hi"); inr (Steered (Some "m0") (Some "m1"));
   inr (Subagent "t1" (TextDelta ("inner" ++ newlines))); inr (Usage 0 0 0); inr (Done Interrupted None None None)].
Proof. vm_compute. reflexivity. Qed.

Lemma feeds_apart_witness :
  let f := FAssistant (mk_message (Some "t1") (Array [Object [("text", Str "inner"); ("type", Str "text")]]) None) in
  let n := normalizer_new sample_id in
  normalize sample_id f false n = ([Subagent "t1" (TextDelta ("inner" ++ newlines))], n) /\
  forall e, e ∈ [Subagent "t1" (TextDelta ("inner" ++ newlines))] -> exists e', e = Subagent "t1" e' /\ tagged e' = false.
Proof.
  split; [vm_compute; reflexivity|].
  exact (proj2 (proj1 (feeds_apart sample_id
    (FAssistant (mk_message (Some "t1") (Array [Object [("text", Str "inner"); ("type", Str "text")]]) None))
    false (normalizer_new sample_id) [Subagent "t1" (TextDelta ("inner" ++ newlines))] (normalizer_new sample_id)
    ltac:(vm_compute; reflexivity)) "t1" eq_refl)).
Defined.

Lemma control_answered_witness :
  omap response_id (ss_stdin sample_session) ++ waiting sample_session ≡ₚ
    received sample_id sample_question None sample_turns (session_new sample_id) /\
  received sample_id sample_question None sample_turns (session_new sample_id) = ["r1"].
Proof.
  split; [|vm_compute; reflexivity].
  exact (proj1 (control_answered sample_id sample_question None sample_turns)).
Defined.

(** ** Limits *)

(** A child that dies in a turn after its first leaves that turn without a
    [Done]: the flag of the first one is never cleared. *)
Lemma later_death_is_silent :
  session_finish "crash" (session_run sample_id sample_question None
    [TLine init_line; TLine success_line; TSteer (Some "more"); TLine (text_line "half"); TEof] (session_new sample_id)) =
  [inr (SessionStarted ClaudeCode "" [] "" "s1" "m0"); inr (Usage 0 0 0); inr (Done Completed None None None);
   inr (Steered (Some "m0") (Some "m1")); inr (TextDelta "half")].
Proof. vm_compute. reflexivity. Qed.

(** A question of the child that is asked twice in one request gets one answer,
    the later one's. *)
Lemma same_text_questions :
  updated_input_with_answers (Object []) [mk_question "q0" "" "Which?" [] false; mk_question "q1" "" "Which?" [] false]
    [mk_answer "q0" ["a"]; mk_answer "q1" ["b"]] = Object [("answers", Object [("Which?", Str "b")])].
Proof. reflexivity. Qed.
