(* ===== verification/Workspace.v ===== *)
(** The workspace host: crates/engine/src/workspace_host.rs. It owns the
    registry replica of a device, claims chats and spaces for it, overlays the
    presence beats of its peers on the device rows, judges which peers may be
    dialed, watches for a deaf room, and publishes and saves what changed.

    The registry room is what its client answers ([room_view]); requests to it,
    calls of the peer-alive hook and saved snapshots are recorded in the state.
    A wall clock reading is an argument; [now : nat -> Z] are the readings of
    the registry's own clock. *)
From S2P Require Import Prelude Hlc Json Text Commands Relay RegistryRow Entities.
From S2P Require Import RegistryDoc RegistryApi RegistryServer RegistryClient.

Definition DIAL_GATE_WARMUP_MS : Z := 60000.
Definition DIAL_GATE_DARK_MS : Z := 5 * 60000.
Definition PRESENCE_FRESH_MS : Z := 45000.
Definition SNAPSHOT_DEBOUNCE_MS : Z := 1000.
Definition PRESENCE_DEAF_REDIAL_MS : Z := 60000.
Definition LEGACY_UNKNOWN_DEVICE_NAME : string := "unknown-device".

(** [i64::saturating_sub]. *)
Definition saturating_sub (a b : Z) : Z := sat_i64 (a - b).

(** ** The registry room, as the host sees it *)

Record RoomView := mk_room { room_connected : bool; room_presence : gmap string Z }.

(** [RegistryClient::stats] and [presence]. *)
Definition room_view (a : Actor) (instant : Z) : RoomView :=
  mk_room (connected (act_stats a)) (client_presence a instant).

Inductive RoomRequest := Nudge | ProbeNow | RedialNow | SetPresence (at_ : Z).

#[export] Instance RoomRequest_eq_dec : EqDecision RoomRequest.
Proof. solve_decision. Defined.

Record PresenceWatch := mk_watch { armed : bool; dark_since_ms : Z; probed : bool }.

Definition watch_default : PresenceWatch := mk_watch false 0 false.

(** [check_presence_deafness]. *)
Definition check_presence_deafness (live_fresh_peers : nat) (now : Z) (w : PresenceWatch)
    : list RoomRequest * PresenceWatch :=
  if (0 <? live_fresh_peers)%nat then ([], mk_watch true 0 false)
  else if negb (armed w) then ([], w)
  else
    let dark_since := if dark_since_ms w =? 0 then now else dark_since_ms w in
    if negb (probed w) then ([ProbeNow], mk_watch (armed w) dark_since true)
    else if PRESENCE_DEAF_REDIAL_MS <? saturating_sub now dark_since
    then ([RedialNow], mk_watch false 0 false)
    else ([], mk_watch (armed w) dark_since (probed w)).

(** The largest of two optional stamps: [live.into_iter().chain(cached).max()]. *)
Definition fresher (live cached : option Z) : option Z :=
  match live, cached with
  | Some a, Some b => Some (Z.max a b)
  | Some a, None => Some a
  | None, cached => cached
  end.

Definition is_fresh (now ms : Z) : bool := saturating_sub now ms <? PRESENCE_FRESH_MS.

(** The first [n] characters of UTF-8 text: [chars().take(n)]. *)
Fixpoint take_chars (n : nat) (s : string) : string :=
  match s with
  | EmptyString => EmptyString
  | String a s' =>
      let c := Ascii.nat_of_ascii a in
      if ((128 <=? c) && (c <? 192))%nat then String a (take_chars n s')
      else match n with O => EmptyString | S n => String a (take_chars n s') end
  end.

(** [device_name_on_boot]. *)
Definition device_name_on_boot (existing_name : option string) (detected_name : string) : string :=
  match existing_name with
  | Some name =>
      if negb (String.eqb (trim name) "") && negb (String.eqb (trim name) LEGACY_UNKNOWN_DEVICE_NAME)
      then name else detected_name
  | None => detected_name
  end.

Section Host.
Context {C : Chrono} {K : ConfigCodec} {Codec : StateCodec}.

(** ** The state *)

Record WorkspaceHostConfig := mk_ws_config {
  wc_device_id : string;
  wc_device_name : string;
  wc_platform : string;
  wc_edge : bool;
}.

(** [wh_hooked]: a peer-alive hook is set; [wh_alive] are its calls.
    [wh_unseen]: the change watch holds a value the task has not taken.
    [wh_save_at] is the task's [save_deadline]. *)
Record WorkspaceHost := mk_host {
  wh_config : WorkspaceHostConfig;
  wh_reg : RegistryDoc;
  wh_published : WorkspaceState;
  wh_room : option RoomView;
  wh_unseen : bool;
  wh_seen : gmap string Z;
  wh_hooked : bool;
  wh_watch : PresenceWatch;
  wh_joined_at : Z;
  wh_requests : list RoomRequest;
  wh_alive : list string;
  wh_saved : option snapshot_bytes;
  wh_save_at : option Z;
}.

Definition wh_device (h : WorkspaceHost) : string := wc_device_id (wh_config h).

Definition with_reg (h : WorkspaceHost) (d : RegistryDoc) : WorkspaceHost :=
  mk_host (wh_config h) d (wh_published h) (wh_room h) (wh_unseen h) (wh_seen h) (wh_hooked h) (wh_watch h)
    (wh_joined_at h) (wh_requests h) (wh_alive h) (wh_saved h) (wh_save_at h).
Definition with_published (h : WorkspaceHost) (p : WorkspaceState) : WorkspaceHost :=
  mk_host (wh_config h) (wh_reg h) p (wh_room h) (wh_unseen h) (wh_seen h) (wh_hooked h) (wh_watch h)
    (wh_joined_at h) (wh_requests h) (wh_alive h) (wh_saved h) (wh_save_at h).
Definition with_room (h : WorkspaceHost) (r : option RoomView) : WorkspaceHost :=
  mk_host (wh_config h) (wh_reg h) (wh_published h) r (wh_unseen h) (wh_seen h) (wh_hooked h) (wh_watch h)
    (wh_joined_at h) (wh_requests h) (wh_alive h) (wh_saved h) (wh_save_at h).
Definition with_unseen (h : WorkspaceHost) (u : bool) : WorkspaceHost :=
  mk_host (wh_config h) (wh_reg h) (wh_published h) (wh_room h) u (wh_seen h) (wh_hooked h) (wh_watch h)
    (wh_joined_at h) (wh_requests h) (wh_alive h) (wh_saved h) (wh_save_at h).
Definition with_seen (h : WorkspaceHost) (s : gmap string Z) : WorkspaceHost :=
  mk_host (wh_config h) (wh_reg h) (wh_published h) (wh_room h) (wh_unseen h) s (wh_hooked h) (wh_watch h)
    (wh_joined_at h) (wh_requests h) (wh_alive h) (wh_saved h) (wh_save_at h).
Definition with_watch (h : WorkspaceHost) (w : PresenceWatch) : WorkspaceHost :=
  mk_host (wh_config h) (wh_reg h) (wh_published h) (wh_room h) (wh_unseen h) (wh_seen h) (wh_hooked h) w
    (wh_joined_at h) (wh_requests h) (wh_alive h) (wh_saved h) (wh_save_at h).
Definition with_joined_at (h : WorkspaceHost) (ms : Z) : WorkspaceHost :=
  mk_host (wh_config h) (wh_reg h) (wh_published h) (wh_room h) (wh_unseen h) (wh_seen h) (wh_hooked h)
    (wh_watch h) ms (wh_requests h) (wh_alive h) (wh_saved h) (wh_save_at h).
Definition ask_room (h : WorkspaceHost) (rs : list RoomRequest) : WorkspaceHost :=
  mk_host (wh_config h) (wh_reg h) (wh_published h) (wh_room h) (wh_unseen h) (wh_seen h) (wh_hooked h)
    (wh_watch h) (wh_joined_at h) (wh_requests h ++ rs) (wh_alive h) (wh_saved h) (wh_save_at h).
Definition call_alive (h : WorkspaceHost) (ids : list string) : WorkspaceHost :=
  mk_host (wh_config h) (wh_reg h) (wh_published h) (wh_room h) (wh_unseen h) (wh_seen h) (wh_hooked h)
    (wh_watch h) (wh_joined_at h) (wh_requests h) (wh_alive h ++ ids) (wh_saved h) (wh_save_at h).
Definition with_saved (h : WorkspaceHost) (b : option snapshot_bytes) : WorkspaceHost :=
  mk_host (wh_config h) (wh_reg h) (wh_published h) (wh_room h) (wh_unseen h) (wh_seen h) (wh_hooked h)
    (wh_watch h) (wh_joined_at h) (wh_requests h) (wh_alive h) b (wh_save_at h).
Definition with_save_at (h : WorkspaceHost) (t : option Z) : WorkspaceHost :=
  mk_host (wh_config h) (wh_reg h) (wh_published h) (wh_room h) (wh_unseen h) (wh_seen h) (wh_hooked h)
    (wh_watch h) (wh_joined_at h) (wh_requests h) (wh_alive h) (wh_saved h) t.
Definition set_peer_alive_hook (h : WorkspaceHost) : WorkspaceHost :=
  mk_host (wh_config h) (wh_reg h) (wh_published h) (wh_room h) (wh_unseen h) (wh_seen h) true
    (wh_watch h) (wh_joined_at h) (wh_requests h) (wh_alive h) (wh_saved h) (wh_save_at h).

(** [bump_changed]. *)
Definition bump_changed (h : WorkspaceHost) : WorkspaceHost := with_unseen h true.

(** [mutate]: the write, then the wake of the task, then the push. *)
Definition mutate {R} (f : RegistryDoc -> R * RegistryDoc) (h : WorkspaceHost) : R * WorkspaceHost :=
  let '(r, d) := f (wh_reg h) in
  let h := bump_changed (with_reg h d) in
  (r, match wh_room h with Some _ => ask_room h [Nudge] | None => h end).

(** A write that returns nothing. *)
Definition mutate_ (f : RegistryDoc -> RegistryDoc) (h : WorkspaceHost) : WorkspaceHost :=
  (mutate (fun d => (tt, f d)) h).2.

(** [save_snapshot]: [disk] is whether the store takes it; an encoding that
    fails and a store that fails are logged. *)
Definition save_snapshot (disk : bool) (h : WorkspaceHost) : WorkspaceHost :=
  match to_bytes (wh_reg h) with
  | inr bytes => if disk then with_saved h (Some bytes) else h
  | inl _ => h
  end.

(** ** Presence *)

(** [prev < at]: both were made from whole milliseconds. *)
Definition seen_before (prev : option DateTime) (at_ : DateTime) : bool :=
  match prev with Some prev => timestamp_millis prev <? timestamp_millis at_ | None => true end.

Definition with_last_seen (dv : Device) (at_ : DateTime) : Device :=
  mk_device (dev_id dv) (dev_name dv) (dev_platform dv) (Some at_) (dev_created_at dv) (dev_version dv).

Record OverlayAcc := mk_acc { ov_seen : gmap string Z; ov_live : nat; ov_alive : list string }.

(** The body of the loop of [overlay_presence]. *)
Definition overlay_device (self : string) (live_map : gmap string Z) (now : Z) (acc : OverlayAcc)
    (dv : Device) : Device * OverlayAcc :=
  let live := live_map !! dev_id dv in
  let peer := negb (String.eqb (dev_id dv) self) in
  let n := if peer && from_option (is_fresh now) false live then S (ov_live acc) else ov_live acc in
  match fresher live (ov_seen acc !! dev_id dv) with
  | None => (dv, mk_acc (ov_seen acc) n (ov_alive acc))
  | Some ms =>
      (match from_timestamp_millis ms with
       | Some at_ => if seen_before (dev_last_seen_at dv) at_ then with_last_seen dv at_ else dv
       | None => dv
       end,
       mk_acc (<[dev_id dv := ms]> (ov_seen acc)) n
         (if peer && is_fresh now ms then ov_alive acc ++ [dev_id dv] else ov_alive acc))
  end.

Fixpoint overlay_loop (self : string) (live_map : gmap string Z) (now : Z) (acc : OverlayAcc)
    (devices : list Device) : list Device * OverlayAcc :=
  match devices with
  | [] => ([], acc)
  | dv :: rest =>
      let '(dv, acc) := overlay_device self live_map now acc dv in
      let '(rest, acc) := overlay_loop self live_map now acc rest in
      (dv :: rest, acc)
  end.

(** [overlay_presence]: the hook runs after every lock is released. *)
Definition overlay_presence (now : Z) (devices : list Device) (h : WorkspaceHost)
    : list Device * WorkspaceHost :=
  let live_map := from_option room_presence ∅ (wh_room h) in
  let '(devices, acc) := overlay_loop (wh_device h) live_map now (mk_acc (wh_seen h) 0 []) devices in
  let h := with_seen h (ov_seen acc) in
  let h := match wh_room h with
           | Some _ =>
               let '(rs, w) := check_presence_deafness (ov_live acc) now (wh_watch h) in
               ask_room (with_watch h w) rs
           | None => h
           end in
  (devices, if wh_hooked h then call_alive h (ov_alive acc) else h).

(** [publish]. *)
Definition publish (now : Z) (h : WorkspaceHost) : WorkspaceHost :=
  let state := read_all (wh_reg h) in
  let '(devices, h) := overlay_presence now (ws_devices state) h in
  with_published h (mk_workspace devices (ws_spaces state) (ws_chats state) (ws_sessions state)).

Definition find_device (devices : list Device) (id : string) : option Device :=
  find (fun dv => String.eqb (dev_id dv) id) devices.

(** [peer_liveness]. *)
Definition peer_liveness (now : Z) (h : WorkspaceHost) (device : string) : PeerLiveness :=
  if String.eqb device (wh_device h) then Live
  else
    match wh_room h with
    | None => UnknownPeer
    | Some room =>
        if negb (room_connected room) then UnknownPeer
        else
          match fresher (room_presence room !! device) (wh_seen h !! device) with
          | Some ms =>
              if is_fresh now ms then Live
              else if DIAL_GATE_DARK_MS <=? saturating_sub now ms then Dark
              else UnknownPeer
          | None =>
              if (wh_joined_at h =? 0) || (saturating_sub now (wh_joined_at h) <? DIAL_GATE_WARMUP_MS)
              then UnknownPeer
              else
                match find_device (read_devices (wh_reg h)) device ≫= dev_last_seen_at with
                | Some at_ =>
                    if DIAL_GATE_DARK_MS <=? saturating_sub now (timestamp_millis at_) then Dark
                    else UnknownPeer
                | None => UnknownPeer
                end
          end
    end.

(** [presence_tick]. *)
Definition presence_tick (now : Z) (h : WorkspaceHost) : WorkspaceHost :=
  match wh_room h with Some _ => ask_room h [SetPresence now] | None => h end.

(** [relay_probe_task]: the devices a round asks about, and a positive answer. *)
Definition is_stale (now : Z) (h : WorkspaceHost) (dv : Device) : bool :=
  negb (String.eqb (dev_id dv) (wh_device h)) &&
  from_option (fun ms => PRESENCE_FRESH_MS <=? saturating_sub now ms) true (wh_seen h !! dev_id dv).

Definition stale_devices (now : Z) (h : WorkspaceHost) : list string :=
  dev_id <$> filter (fun dv => is_stale now h dv = true) (read_devices (wh_reg h)).

Definition relay_alive (device : string) (now : Z) (h : WorkspaceHost) : WorkspaceHost :=
  with_seen h (<[device := now]> (wh_seen h)).

(** A round of it: the devices that answered, when, and the publish after. *)
Definition relay_round (alive : list (string * Z)) (later : Z) (h : WorkspaceHost) : WorkspaceHost :=
  match alive with
  | [] => h
  | _ => publish later (foldl (fun h a => relay_alive a.1 a.2 h) h alive)
  end.

(** ** Joining and leaving: [spawn_join]'s task and [disconnect_edge] *)

(** The first join. [revoked]: the credentials are gone by now. *)
Definition on_joined (revoked : bool) (now : Z) (room : RoomView) (h : WorkspaceHost) : WorkspaceHost :=
  let h := ask_room h [SetPresence now] in
  if revoked then h else bump_changed (with_joined_at (with_room h (Some room)) now).

Definition on_registry_event (now : Z) (ev : RegistryEvent) (h : WorkspaceHost) : WorkspaceHost :=
  match ev with
  | Connected => bump_changed (with_joined_at h now)
  | Applied => bump_changed h
  | PresenceEvent => publish now h
  | Disconnected => h
  end.

Definition disconnect_edge (h : WorkspaceHost) : WorkspaceHost := with_room h None.

(** ** [workspace_task] *)

Definition on_changed (now instant : Z) (h : WorkspaceHost) : WorkspaceHost :=
  let h := publish now (with_unseen h false) in
  match wh_save_at h with
  | None => with_save_at h (Some (instant + SNAPSHOT_DEBOUNCE_MS))
  | Some _ => h
  end.

Definition on_save_deadline (disk : bool) (h : WorkspaceHost) : WorkspaceHost :=
  save_snapshot disk (with_save_at h None).

Definition on_presence_interval (now : Z) (h : WorkspaceHost) : WorkspaceHost :=
  publish now (presence_tick now h).

(** ** [open] *)

(** The registry a boot starts from: the snapshot, or a new one seeded with
    what the legacy document reads as, when it reads. *)
Definition load_registry (device : string) (snapshot : option snapshot_bytes)
    (legacy : option WorkspaceState) (now : nat -> Z) : DocError + RegistryDoc :=
  match snapshot with
  | Some bytes => from_bytes bytes device
  | None =>
      let d := registry_new device in
      inr (from_option snd d (legacy ≫= seed_from_workspace d now))
  end.

Definition boot_device (config : WorkspaceHostConfig) (version : string) (at_ : DateTime) (d : RegistryDoc)
    : Device :=
  let existing := find_device (read_devices d) (wc_device_id config) in
  mk_device (wc_device_id config) (device_name_on_boot (dev_name <$> existing) (wc_device_name config))
    (wc_platform config) (Some at_)
    (Some (default at_ (existing ≫= dev_created_at))) (Some version).

(** [open] up to the tasks it spawns. [saved] is the store's snapshot row. *)
Definition open (config : WorkspaceHostConfig) (version : string) (disk : bool)
    (snapshot : option snapshot_bytes) (legacy : option WorkspaceState) (seed_now now : nat -> Z)
    (at_ : DateTime) : DocError + WorkspaceHost :=
  match load_registry (wc_device_id config) snapshot legacy seed_now with
  | inl e => inl e
  | inr d =>
      let d := upsert_device d now (boot_device config version at_ d) in
      inr (save_snapshot disk
             (mk_host config d (read_all d) None false ∅ false watch_default 0 [] [] snapshot None))
  end.

(** ** Chat ownership *)

(** [is_host]: reading a row cannot fail here. *)
Definition is_host (h : WorkspaceHost) (chat_id : string) : bool :=
  match get_chat (wh_reg h) chat_id with
  | Some chat => String.eqb (ch_device_id chat) (wh_device h)
  | None => true
  end.

Definition find_folder (spaces : list Space) (device path : string) : option Space :=
  find (fun s => String.eqb (sp_device_id s) device && String.eqb (sp_path s) path) spaces.

(** [space_for_path]: [linked_worktree_root] is the file system's answer,
    [new_id] the id minted. *)
Definition space_for_path (linked_worktree_root : string -> option string) (now : nat -> Z) (at_ : DateTime)
    (new_id path : string) (h : WorkspaceHost) : string * WorkspaceHost :=
  let device := wh_device h in
  let spaces := read_spaces (wh_reg h) in
  match find_folder spaces device path with
  | Some space => (sp_id space, h)
  | None =>
      let root := linked_worktree_root path in
      match root ≫= find_folder spaces device with
      | Some space => (sp_id space, h)
      | None =>
          (new_id, mutate_ (fun d => upsert_space d now
                     (mk_space new_id device (default path root) None false None None at_)) h)
      end
  end.

(** [claim_chat]: the readings of the space's write, then those of the claim's. *)
Definition claim_chat (linked_worktree_root : string -> option string) (space_now now : nat -> Z)
    (at_ : DateTime) (new_id chat_id : string) (cwd : option string) (h : WorkspaceHost) : WorkspaceHost :=
  match get_chat (wh_reg h) chat_id with
  | Some _ => h
  | None =>
      let '(space_id, h) :=
        match cwd with
        | Some cwd =>
            let '(id, h) := space_for_path linked_worktree_root space_now at_ new_id cwd h in (Some id, h)
        | None => (None, h)
        end in
      mutate_ (fun d => RegistryApi.claim_chat d now chat_id cwd space_id at_) h
  end.

Definition chat_config (h : WorkspaceHost) (chat_id : string) : option ChatConfig :=
  get_chat (wh_reg h) chat_id ≫= ch_config.

(** [note_message]. *)
Definition note_message (claim_now now : nat -> Z) (at_ : DateTime) (chat_id text : string)
    (h : WorkspaceHost) : WorkspaceHost :=
  let preview := take_chars 120 text in
  let h := claim_chat (fun _ => None) claim_now claim_now at_ "" chat_id None h in
  (mutate (fun d => set_chat_last_message d now chat_id preview at_) h).2.

Definition set_chat_harness_session (now : nat -> Z) (chat_id session_id cwd : string) (h : WorkspaceHost)
    : WorkspaceHost :=
  (mutate (fun d => RegistryApi.set_chat_harness_session d now chat_id session_id cwd) h).2.

Definition chat_harness_session (h : WorkspaceHost) (chat_id : string) : option (string * option string) :=
  chat ← get_chat (wh_reg h) chat_id;
  id ← ch_harness_session_id chat;
  Some (id, ch_harness_session_cwd chat).

Definition record_session (now : nat -> Z) (session : Session) (h : WorkspaceHost) : WorkspaceHost :=
  mutate_ (fun d => upsert_session d now session) h.

(** ** The mutate surface *)

Inductive CreateChatError := NoSuchSpace | NeedsSpaceOrDevice | DocFailed.

(** A write that fails before it changes anything. *)
Definition try_write (f : RegistryDoc -> option RegistryDoc) (d : RegistryDoc) : bool * RegistryDoc :=
  match f d with Some d' => (true, d') | None => (false, d) end.

(** [create_chat]. *)
Definition create_chat (now : nat -> Z) (at_ : DateTime) (chat_id : string) (space_id device_id : option string)
    (config : option ChatConfig) (cwd : option string) (h : WorkspaceHost)
    : (CreateChatError + unit) * WorkspaceHost :=
  match get_chat (wh_reg h) chat_id with
  | Some _ => (inr tt, h)
  | None =>
      let space := space_id ≫= get_space (wh_reg h) in
      match space_id, space with
      | Some _, None => (inl NoSuchSpace, h)
      | _, _ =>
          match space, device_id with
          | None, None => (inl NeedsSpaceOrDevice, h)
          | _, _ =>
              let host := match space with Some s => sp_device_id s | None => default "" device_id end in
              let chat :=
                mk_chat chat_id host None false (Some (default (from_option sp_path "~" space) cwd)) None None
                  config None None at_ None None (sp_id <$> space) None (Some 2) in
              let '(ok, h) := mutate (try_write (fun d => upsert_chat d now chat)) h in
              (if ok : bool then inr tt else inl DocFailed, h)
          end
      end
  end.

(** [create_space]. *)
Definition create_space (now : nat -> Z) (at_ : DateTime) (space_id device_id path : string)
    (name : option string) (git_detected : bool) (h : WorkspaceHost) : WorkspaceHost :=
  if existsb (fun s => String.eqb (sp_id s) space_id ||
                       (String.eqb (sp_device_id s) device_id && String.eqb (sp_path s) path))
       (read_spaces (wh_reg h))
  then h
  else mutate_ (fun d => upsert_space d now
                  (mk_space space_id device_id path name git_detected None None at_)) h.

Definition rename_space (now : nat -> Z) (space_id : string) (name : option string) (h : WorkspaceHost)
    : bool * WorkspaceHost :=
  mutate (fun d => RegistryApi.rename_space d now space_id name) h.

Definition delete_space (now : nat -> Z) (space_id : string) (h : WorkspaceHost)
    : DeletedSpace * WorkspaceHost :=
  mutate (fun d => RegistryApi.delete_space d now space_id) h.

Definition mark_chat_seen (now : nat -> Z) (chat_id : string) (at_ : DateTime) (h : WorkspaceHost)
    : bool * WorkspaceHost :=
  mutate (fun d => set_chat_seen d now chat_id at_) h.

(** [set_space_git]: the owner's stamp only. *)
Definition set_space_git (now : nat -> Z) (at_ : DateTime) (space_id : string) (detected : bool)
    (checkout_id : option string) (h : WorkspaceHost) : bool * WorkspaceHost :=
  match get_space (wh_reg h) space_id with
  | Some space =>
      if String.eqb (sp_device_id space) (wh_device h)
      then mutate (fun d => RegistryApi.set_space_git d now space_id detected checkout_id at_) h
      else (false, h)
  | None => (false, h)
  end.

Definition rename_chat (now : nat -> Z) (chat_id title : string) (h : WorkspaceHost)
    : bool * WorkspaceHost :=
  mutate (fun d => RegistryApi.rename_chat d now chat_id title) h.

Definition with_activity (chat : Chat) (last_message_at : option DateTime) (created_at : DateTime) : Chat :=
  mk_chat (ch_id chat) (ch_device_id chat) (ch_title chat) (ch_archived chat) (ch_cwd chat) (ch_branch chat)
    (ch_checkout_id chat) (ch_config chat) (ch_last_message_preview chat) last_message_at created_at
    (ch_harness_session_id chat) (ch_harness_session_cwd chat) (ch_space_id chat) (ch_last_seen_at chat)
    (ch_room_gen chat).

Definition with_host (chat : Chat) (device : string) : Chat :=
  mk_chat (ch_id chat) device (ch_title chat) (ch_archived chat) (ch_cwd chat) (ch_branch chat)
    (ch_checkout_id chat) (ch_config chat) (ch_last_message_preview chat) (ch_last_message_at chat)
    (ch_created_at chat) (ch_harness_session_id chat) (ch_harness_session_cwd chat) (ch_space_id chat)
    (ch_last_seen_at chat) (ch_room_gen chat).

(** The second half of a read, change, upsert: [None] is the document error.
    Another writer may come between the read and this. *)
Definition write_chat (now : nat -> Z) (chat : Chat) (h : WorkspaceHost) : option bool * WorkspaceHost :=
  let '(ok, h) := mutate (try_write (fun d => upsert_chat d now chat)) h in
  (if ok : bool then Some true else None, h).

(** What [set_chat_activity] makes of the chat it read. *)
Definition backdated (last_message_at created_at : option Z) (chat : Chat) : Chat :=
  with_activity chat
    (match last_message_at with Some ms => from_timestamp_millis ms | None => ch_last_message_at chat end)
    (default (ch_created_at chat) (created_at ≫= from_timestamp_millis)).

Definition set_chat_activity (now : nat -> Z) (chat_id : string) (last_message_at created_at : option Z)
    (h : WorkspaceHost) : option bool * WorkspaceHost :=
  match get_chat (wh_reg h) chat_id with
  | None => (Some false, h)
  | Some chat => write_chat now (backdated last_message_at created_at chat) h
  end.

Definition set_chat_host (now : nat -> Z) (chat_id device : string) (h : WorkspaceHost)
    : option bool * WorkspaceHost :=
  match get_chat (wh_reg h) chat_id with
  | None => (Some false, h)
  | Some chat => write_chat now (with_host chat device) h
  end.

Definition import_chat_row (now : nat -> Z) (chat : Chat) (h : WorkspaceHost) : bool * WorkspaceHost :=
  mutate (try_write (fun d => upsert_chat d now chat)) h.

Definition import_space_row (now : nat -> Z) (space : Space) (h : WorkspaceHost) : WorkspaceHost :=
  mutate_ (fun d => upsert_space d now space) h.

Definition set_chat_room_gen (now : nat -> Z) (chat_id : string) (room_gen : Z) (h : WorkspaceHost)
    : bool * WorkspaceHost :=
  mutate (fun d => RegistryApi.set_chat_room_gen d now chat_id room_gen) h.

Definition set_chat_archived (now : nat -> Z) (chat_id : string) (archived : bool) (h : WorkspaceHost)
    : bool * WorkspaceHost :=
  mutate (fun d => RegistryApi.set_chat_archived d now chat_id archived) h.

Definition set_chat_config (now : nat -> Z) (chat_id : string) (config : ChatConfig) (h : WorkspaceHost)
    : option bool * WorkspaceHost :=
  mutate (fun d => match RegistryApi.set_chat_config d now chat_id config with
                   | Some (b, d') => (Some b, d')
                   | None => (None, d)
                   end) h.

Definition delete_chat (now : nat -> Z) (chat_id : string) (h : WorkspaceHost) : bool * WorkspaceHost :=
  mutate (fun d => RegistryApi.delete_chat d now chat_id) h.

Definition rename_device (now : nat -> Z) (device name : string) (h : WorkspaceHost)
    : bool * WorkspaceHost :=
  mutate (fun d => RegistryApi.rename_device d now device name) h.

Definition set_chat_branch (now : nat -> Z) (chat_id branch : string) (h : WorkspaceHost)
    : bool * WorkspaceHost :=
  mutate (fun d => RegistryApi.set_chat_branch d now chat_id branch) h.

Definition set_chat_cwd (now : nat -> Z) (chat_id cwd : string) (h : WorkspaceHost)
    : bool * WorkspaceHost :=
  mutate (fun d => RegistryApi.set_chat_cwd d now chat_id cwd) h.

Definition set_chat_checkout (now : nat -> Z) (chat_id checkout_id : string) (h : WorkspaceHost)
    : bool * WorkspaceHost :=
  mutate (fun d => RegistryApi.set_chat_checkout d now chat_id checkout_id) h.

(** [shutdown]. *)
Definition shutdown (now : nat -> Z) (at_ : DateTime) (disk : bool) (h : WorkspaceHost) : WorkspaceHost :=
  save_snapshot disk (mutate (fun d => set_device_last_seen d now (wh_device h) at_) h).2.

(** ** Session rows of all devices *)

(** [merge_sessions]: a hash map by chat, then sorted by chat. *)
Definition merge_sessions (device_id : string) (rows local : list Session) : list Session :=
  let merged : gmap string Session :=
    foldl (fun m s => <[se_chat_id s := s]> m) ∅ (filter (fun s => se_device_id s <> device_id) rows) in
  let merged := foldl (fun m s => <[se_chat_id s := s]> m) merged local in
  sort_by_id se_chat_id (snd <$> map_to_list merged).

(** ** Everything that happens to a host

    [EvRegistry d]: a local write or a frame left the registry at [d]; [EvView]:
    the room's connection or presence map moved; the rest are the tasks. *)
Inductive HostEvent :=
  | EvRegistry (d : RegistryDoc)
  | EvView (room : RoomView)
  | EvJoined (revoked : bool) (now : Z) (room : RoomView)
  | EvRoom (now : Z) (ev : RegistryEvent)
  | EvLeft
  | EvChanged (now instant : Z)
  | EvSave (disk : bool)
  | EvInterval (now : Z)
  | EvRelay (alive : list (string * Z)) (later : Z).

Definition host_step (h : WorkspaceHost) (e : HostEvent) : WorkspaceHost :=
  match e with
  | EvRegistry d => bump_changed (with_reg h d)
  | EvView room => match wh_room h with Some _ => with_room h (Some room) | None => h end
  | EvJoined revoked now room => on_joined revoked now room h
  | EvRoom now ev => on_registry_event now ev h
  | EvLeft => disconnect_edge h
  | EvChanged now instant => on_changed now instant h
  | EvSave disk => on_save_deadline disk h
  | EvInterval now => on_presence_interval now h
  | EvRelay alive later => relay_round alive later h
  end.

Definition host_run (h : WorkspaceHost) (evs : list HostEvent) : WorkspaceHost := foldl host_step h evs.

(** ** The overlay *)

(** What the overlay shows of a device. *)
Definition shown (live_map seen : gmap string Z) (dv : Device) : Device :=
  match fresher (live_map !! dev_id dv) (seen !! dev_id dv) ≫= from_timestamp_millis with
  | Some at_ => if seen_before (dev_last_seen_at dv) at_ then with_last_seen dv at_ else dv
  | None => dv
  end.

Lemma fresher_idem live cached : fresher live (fresher live cached) = fresher live cached.
Proof. destruct live, cached; simpl; f_equal; lia. Qed.

Lemma fresher_seen (live seen : gmap string Z) id m id' :
  fresher (live !! id) (seen !! id) = Some m ->
  fresher (live !! id') (<[id := m]> seen !! id') = fresher (live !! id') (seen !! id').
Proof.
  intros H. destruct (decide (id = id')) as [<-|Hne].
  - by rewrite lookup_insert_eq, <- H, fresher_idem.
  - by rewrite lookup_insert_ne.
Qed.

Lemma overlay_loop_spec self live now devices : forall acc,
  let '(out, acc') := overlay_loop self live now acc devices in
  out = shown live (ov_seen acc) <$> devices /\
  forall id, ov_seen acc' !! id =
    if decide (id ∈ dev_id <$> devices) then fresher (live !! id) (ov_seen acc !! id) else ov_seen acc !! id.
Proof.
  induction devices as [|dv devices IH]; intros acc; cbn [overlay_loop fmap list_fmap].
  { split; [done|]. intros id. by rewrite decide_False by apply not_elem_of_nil. }
  unfold overlay_device. destruct (fresher _ _) as [m|] eqn:E.
  - match goal with |- context [overlay_loop _ _ _ ?a _] => specialize (IH a) end.
    destruct (overlay_loop _ _ _ _ devices) as [out acc']. cbn [ov_seen] in IH.
    destruct IH as [-> Hs]. split.
    + f_equal; [|apply list_fmap_ext; intros i x _]; unfold shown.
      * rewrite E. done.
      * by rewrite (fresher_seen _ _ _ _ _ E).
    + intros id. rewrite Hs. destruct (decide (id = dev_id dv)) as [->|Hne].
      * rewrite (fresher_seen _ _ _ _ _ E), lookup_insert_eq, E.
        rewrite (decide_True (P := _ ∈ _ :: _)) by by left. by case_decide.
      * rewrite (fresher_seen _ _ _ _ _ E), lookup_insert_ne by done. apply decide_ext.
        rewrite elem_of_cons. naive_solver.
  - match goal with |- context [overlay_loop _ _ _ ?a _] => specialize (IH a) end.
    destruct (overlay_loop _ _ _ _ devices) as [out acc']. cbn [ov_seen] in IH.
    destruct IH as [-> Hs]. split.
    + f_equal. unfold shown. by rewrite E.
    + intros id. rewrite Hs. destruct (decide (id = dev_id dv)) as [->|Hne].
      * rewrite (decide_True (P := _ ∈ _ :: _)) by by left. case_decide; [done|].
        rewrite E. destruct (live !! dev_id dv), (ov_seen acc !! dev_id dv); done.
      * apply decide_ext. rewrite elem_of_cons. naive_solver.
Qed.

(** What a publish leaves of everything else. *)
Lemma publish_spec now h :
  let live := from_option room_presence ∅ (wh_room h) in
  wh_reg (publish now h) = wh_reg h /\ wh_room (publish now h) = wh_room h /\
  wh_config (publish now h) = wh_config h /\
  ws_devices (wh_published (publish now h)) = shown live (wh_seen h) <$> read_devices (wh_reg h) /\
  forall id, wh_seen (publish now h) !! id =
    if decide (id ∈ dev_id <$> read_devices (wh_reg h)) then fresher (live !! id) (wh_seen h !! id)
    else wh_seen h !! id.
Proof.
  intros live. unfold publish, overlay_presence. cbn [read_all ws_devices].
  fold live. pose proof (overlay_loop_spec (wh_device h) live now (read_devices (wh_reg h))
    (mk_acc (wh_seen h) 0 [])) as H.
  destruct (overlay_loop _ _ _ _ _) as [out acc]. destruct H as [-> Hs].
  destruct (wh_room h) as [room|] eqn:Er; [destruct (check_presence_deafness _ _ _) as [rs w]|];
    destruct (wh_hooked _); cbn; by rewrite ?Er.
Qed.

(** The stamps an event lets a host hear, and those of relay answers. *)
Definition heard_in (e : HostEvent) : list (string * Z) :=
  match e with
  | EvView room | EvJoined _ _ room => map_to_list (room_presence room)
  | EvRelay alive _ => alive
  | _ => []
  end.

Definition relayed_in (e : HostEvent) : list (string * Z) :=
  match e with EvRelay alive _ => alive | _ => [] end.

Definition heard (evs : list HostEvent) : list (string * Z) := evs ≫= heard_in.
Definition relayed (evs : list HostEvent) : list (string * Z) := evs ≫= relayed_in.

Definition room_stamps (h : WorkspaceHost) : gmap string Z := from_option room_presence ∅ (wh_room h).

(** Every stamp a host holds is one of [l]. *)
Definition holds_only (l : list (string * Z)) (h : WorkspaceHost) : Prop :=
  (forall id m, wh_seen h !! id = Some m -> (id, m) ∈ l) /\
  (forall id m, room_stamps h !! id = Some m -> (id, m) ∈ l).

Definition remembers (id : string) (ms : Z) (h : WorkspaceHost) : Prop :=
  exists m, wh_seen h !! id = Some m /\ ms <= m.

Lemma relay_seen alive h id m :
  wh_seen (foldl (fun h a => relay_alive a.1 a.2 h) h alive) !! id = Some m ->
  (id, m) ∈ alive \/ wh_seen h !! id = Some m.
Proof.
  induction alive as [|[i t] alive IH] using rev_ind; [by right|].
  rewrite foldl_app. cbn. rewrite lookup_insert_Some, elem_of_app, list_elem_of_singleton.
  intros [[-> ->]|[_ H]]; [by left; right|]. destruct (IH H); auto.
Qed.

Lemma relay_frame alive h :
  let h' := foldl (fun h a => relay_alive a.1 a.2 h) h alive in
  wh_reg h' = wh_reg h /\ wh_room h' = wh_room h /\ wh_config h' = wh_config h.
Proof. induction alive as [|a alive IH] using rev_ind; [done|]. rewrite foldl_app. exact IH. Qed.

Lemma relay_remembers alive h id ms :
  (forall t, (id, t) ∈ alive -> ms <= t) -> remembers id ms h ->
  remembers id ms (foldl (fun h a => relay_alive a.1 a.2 h) h alive).
Proof.
  intros Ha Hr. induction alive as [|[i t] alive IH] using rev_ind; [done|].
  rewrite foldl_app. cbn. unfold remembers. cbn. setoid_rewrite lookup_insert_Some.
  destruct (decide (i = id)) as [->|Hne].
  - exists t. split; [by left|]. apply Ha. apply elem_of_app. right. by apply list_elem_of_singleton.
  - destruct IH as (m & Hm & Hle); [|exists m; auto].
    intros t' Ht. apply Ha, elem_of_app. by left.
Qed.

Lemma publish_remembers now h id ms : remembers id ms h -> remembers id ms (publish now h).
Proof.
  intros (m & Hm & Hle). destruct (publish_spec now h) as (_ & _ & _ & _ & Hs).
  unfold remembers. rewrite Hs, Hm. case_decide; [|by exists m].
  destruct (from_option _ _ _ !! id) as [a|]; cbn [fresher]; eexists; (split; [done|lia]).
Qed.

Lemma publish_holds now l h : holds_only l h -> holds_only l (publish now h).
Proof.
  intros [H1 H2]. destruct (publish_spec now h) as (_ & Hr & _ & _ & Hs).
  unfold holds_only, room_stamps. rewrite Hr. split; [|exact H2]. intros id m. rewrite Hs. case_decide; [|apply H1].
  specialize (H1 id). specialize (H2 id). unfold room_stamps in H2.
  destruct (from_option _ _ _ !! id) as [a|], (wh_seen h !! id) as [b|]; simpl; try naive_solver.
  intros [= <-]. destruct (Z.max_spec a b) as [[_ ->]|[_ ->]]; auto.
Qed.

Lemma holds_only_ext l h h' :
  wh_seen h' = wh_seen h -> room_stamps h' = room_stamps h -> holds_only l h -> holds_only l h'.
Proof. unfold holds_only. by intros -> ->. Qed.

Lemma holds_only_mono l l' h : l ⊆ l' -> holds_only l h -> holds_only l' h.
Proof. intros H [H1 H2]. split; eauto. Qed.

Lemma save_snapshot_frame disk h :
  wh_seen (save_snapshot disk h) = wh_seen h /\ wh_room (save_snapshot disk h) = wh_room h /\
  wh_reg (save_snapshot disk h) = wh_reg h.
Proof. unfold save_snapshot. destruct (to_bytes _); [done|]. by destruct disk. Qed.

Lemma on_changed_frame now instant h :
  let h' := publish now (with_unseen h false) in
  wh_seen (on_changed now instant h) = wh_seen h' /\ wh_room (on_changed now instant h) = wh_room h'.
Proof. unfold on_changed. by destruct (wh_save_at _). Qed.

Lemma presence_tick_frame now h :
  wh_seen (presence_tick now h) = wh_seen h /\ wh_room (presence_tick now h) = wh_room h.
Proof. unfold presence_tick. destruct (wh_room h) eqn:E; by rewrite ?E. Qed.

Lemma step_remembers h e id ms :
  remembers id ms h -> (forall t, (id, t) ∈ relayed_in e -> ms <= t) -> remembers id ms (host_step h e).
Proof.
  intros Hr Ha. destruct e as [d|room|revoked now room|now ev| |now instant|disk|now|alive later]; cbn [host_step].
  - exact Hr.
  - by destruct (wh_room h).
  - unfold on_joined. by destruct revoked.
  - destruct ev; try exact Hr. by apply publish_remembers.
  - exact Hr.
  - unfold remembers. rewrite (proj1 (on_changed_frame now instant h)). by apply publish_remembers.
  - unfold on_save_deadline, remembers. by rewrite (proj1 (save_snapshot_frame _ _)).
  - apply publish_remembers. unfold remembers. by rewrite (proj1 (presence_tick_frame now h)).
  - destruct alive as [|a alive]; [exact Hr|]. apply publish_remembers. by apply relay_remembers.
Qed.

Lemma step_holds h e l : holds_only l h -> holds_only (l ++ heard_in e) (host_step h e).
Proof.
  intros H. assert (holds_only (l ++ heard_in e) h) as H'.
  { eapply holds_only_mono; [|exact H]. intros x Hx. apply elem_of_app. by left. }
  destruct e as [d|room|revoked now room|now ev| |now instant|disk|now|alive later]; cbn [host_step].
  - exact H'.
  - destruct (wh_room h); [|exact H']. destruct H' as [H1 _]. split; [exact H1|]. intros id m Hm.
    apply elem_of_app. right. by apply elem_of_map_to_list.
  - unfold on_joined. destruct revoked; [exact H'|]. destruct H' as [H1 _]. split; [exact H1|].
    intros id m Hm. apply elem_of_app. right. by apply elem_of_map_to_list.
  - destruct ev; try exact H'. by apply publish_holds.
  - destruct H' as [H1 _]. split; [exact H1|]. intros id m Hm. cbn in Hm. by rewrite lookup_empty in Hm.
  - destruct (on_changed_frame now instant h) as [E1 E2]. eapply holds_only_ext; [exact E1| |].
    { unfold room_stamps. by rewrite E2. }
    by apply publish_holds.
  - destruct (save_snapshot_frame disk (with_save_at h None)) as (E1 & E2 & _).
    eapply holds_only_ext; [exact E1| |exact H']. unfold room_stamps. cbn. by setoid_rewrite E2.
  - apply publish_holds. destruct (presence_tick_frame now h) as [E1 E2].
    eapply holds_only_ext; [exact E1| |exact H']. unfold room_stamps. by rewrite E2.
  - destruct alive as [|a alive]; [exact H'|]. apply publish_holds.
    destruct (relay_frame (a :: alive) h) as (_ & Er & _). destruct H' as [H1 H2]. split.
    + intros id m [Hin|Hm]%relay_seen; [|by apply H1]. apply elem_of_app. by right.
    + unfold room_stamps. rewrite Er. exact H2.
Qed.

Lemma run_remembers evs id ms : forall h,
  remembers id ms h -> (forall t, (id, t) ∈ relayed evs -> ms <= t) -> remembers id ms (host_run h evs).
Proof.
  induction evs as [|e evs IH]; intros h Hr Ha; [done|]. cbn. apply IH.
  - apply step_remembers; [done|]. intros t Ht. apply Ha. unfold relayed. cbn. apply elem_of_app. by left.
  - intros t Ht. apply Ha. unfold relayed. cbn. apply elem_of_app. by right.
Qed.

Lemma run_holds evs : forall h l, holds_only l h -> holds_only (l ++ heard evs) (host_run h evs).
Proof.
  induction evs as [|e evs IH]; intros h l Hl; cbn; [by rewrite app_nil_r|].
  unfold heard. cbn. rewrite app_assoc. apply IH. by apply step_holds.
Qed.

Lemma saturating_sub_mono now a b : a <= b -> saturating_sub now b <= saturating_sub now a.
Proof. unfold saturating_sub, sat_i64, I64_MIN, I64_MAX. lia. Qed.

Lemma is_fresh_mono now a b : a <= b -> is_fresh now a = true -> is_fresh now b = true.
Proof.
  unfold is_fresh. intros H%(saturating_sub_mono now). rewrite !Z.ltb_lt. lia.
Qed.

Lemma fresher_cached live m : exists m', fresher live (Some m) = Some m' /\ m <= m'.
Proof. destruct live as [a|]; cbn [fresher]; eexists; (split; [done|lia]). Qed.

Lemma fresher_live a cached : exists m', fresher (Some a) cached = Some m' /\ a <= m'.
Proof. destruct cached as [b|]; cbn [fresher]; eexists; (split; [done|lia]). Qed.

Lemma remembered_not_dark now h id ms :
  remembers id ms h -> saturating_sub now ms < DIAL_GATE_DARK_MS -> peer_liveness now h id <> Dark.
Proof.
  intros (m & Hm & Hle) Hn. unfold peer_liveness. repeat (case_match; try done).
  - match goal with H : fresher _ _ = Some ?z |- _ => rewrite Hm in H;
      destruct (fresher_cached (room_presence r !! id) m) as (m' & Em & Hle'); rewrite Em in H;
      injection H as <- end.
    pose proof (saturating_sub_mono now ms m' ltac:(lia)).
    match goal with H : (_ <=? _) = true |- _ => apply Z.leb_le in H; lia end.
  - match goal with H : fresher _ _ = None |- _ => rewrite Hm in H end.
    by destruct (room_presence r !! id).
Qed.

Lemma shown_id live seen dv : dev_id (shown live seen dv) = dev_id dv.
Proof. unfold shown. destruct (_ ≫= _) as [at_|]; [|done]. by destruct (seen_before _ _). Qed.

(** A row shown under a stamp is at least as recent. *)
Lemma shown_recent {CL : ChronoLaws C} live seen dv m :
  fresher (live !! dev_id dv) (seen !! dev_id dv) = Some m -> is_Some (from_timestamp_millis m) ->
  exists at_, dev_last_seen_at (shown live seen dv) = Some at_ /\ m <= timestamp_millis at_.
Proof.
  intros E [at_ Ha]. unfold shown. rewrite E. cbn. rewrite Ha.
  destruct (seen_before (dev_last_seen_at dv) at_) eqn:Eb; cbn.
  - exists at_. split; [done|]. by rewrite (millis_from _ _ Ha).
  - unfold seen_before in Eb. destruct (dev_last_seen_at dv) as [p|]; [|done].
    exists p. split; [done|]. apply Z.ltb_ge in Eb. by rewrite (millis_from _ _ Ha) in Eb.
Qed.

Lemma fresher_cases live cached m : fresher live cached = Some m -> live = Some m \/ cached = Some m.
Proof.
  destruct live as [a|], cached as [b|]; simpl; intros [= <-]; auto.
  destruct (Z.max_spec a b) as [[_ ->]|[_ ->]]; auto.
Qed.

Lemma shown_cases live seen dv :
  shown live seen dv = dv \/
  exists m at_, (live !! dev_id dv = Some m \/ seen !! dev_id dv = Some m) /\
    from_timestamp_millis m = Some at_ /\ seen_before (dev_last_seen_at dv) at_ = true /\
    shown live seen dv = with_last_seen dv at_.
Proof.
  unfold shown. destruct (fresher _ _) as [m|] eqn:E; [|by left]. cbn.
  destruct (from_timestamp_millis m) as [at_|] eqn:Ea; [|by left].
  destruct (seen_before _ at_) eqn:Eb; [|by left]. right. exists m, at_. by eauto using fresher_cases.
Qed.

(** C24. What the published device list says of a peer's last sighting is its
    row's stamp, or a later one this host heard from the room or had verified
    over the relay; and a beat that was once published is never forgotten:
    whatever the room and its frames do afterwards, the peer is shown as seen no
    earlier, and it is not judged dark before the dark window since that beat. *)
Theorem presence_is_kept {CL : ChronoLaws C} h0 evs1 now evs2 t :
  wh_seen h0 = ∅ -> wh_room h0 = None ->
  let h1 := host_run h0 evs1 in
  let h2 := host_run (publish now h1) evs2 in
  Forall2 (fun row dv =>
      dv = row \/
      exists ms at_, (dev_id row, ms) ∈ heard (evs1 ++ evs2) /\ from_timestamp_millis ms = Some at_ /\
        seen_before (dev_last_seen_at row) at_ = true /\ dv = with_last_seen row at_)
    (read_devices (wh_reg h2)) (ws_devices (wh_published (publish t h2))) /\
  forall id ms,
    room_stamps h1 !! id = Some ms -> id ∈ dev_id <$> read_devices (wh_reg h1) ->
    (forall t', (id, t') ∈ relayed evs2 -> ms <= t') ->
    (forall m, (id, m) ∈ heard (evs1 ++ evs2) -> is_Some (from_timestamp_millis m)) ->
    (forall t', saturating_sub t' ms < DIAL_GATE_DARK_MS -> peer_liveness t' h2 id <> Dark) /\
    forall dv, dv ∈ ws_devices (wh_published (publish t h2)) -> dev_id dv = id ->
      exists at_, dev_last_seen_at dv = Some at_ /\ ms <= timestamp_millis at_.
Proof.
  intros Hs Hr h1 h2.
  assert (holds_only (heard (evs1 ++ evs2)) h2) as Hh.
  { unfold heard. rewrite bind_app. apply run_holds, publish_holds.
    change (holds_only ([] ++ heard evs1) h1). apply run_holds. split; intros id m.
    - by rewrite Hs, lookup_empty.
    - unfold room_stamps. by rewrite Hr. }
  destruct (publish_spec t h2) as (_ & _ & _ & Hd & _). rewrite Hd. split.
  - apply Forall2_fmap_r, Forall_Forall2_diag, Forall_forall. intros dv _. unfold compose.
    fold (room_stamps h2). destruct (shown_cases (room_stamps h2) (wh_seen h2) dv) as [->|(m & at_ & Hm & Ha & Hb & ->)]; [by left|].
    right. exists m, at_. destruct Hh as [H1 H2]. split_and!; try done. destruct Hm; auto.
  - intros id ms Hms Hin Hrel Hok. assert (remembers id ms h2) as Hrem.
    { apply run_remembers; [|done]. destruct (publish_spec now h1) as (_ & _ & _ & _ & Hp).
      unfold remembers. rewrite Hp, decide_True by done. unfold room_stamps in Hms. rewrite Hms.
      apply fresher_live. }
    split; [intros t'; by apply remembered_not_dark|].
    intros dv (row & -> & Hrow)%list_elem_of_fmap Hid. rewrite shown_id in Hid. subst id.
    destruct Hrem as (m & Hm & Hle).
    destruct (fresher_cached (from_option room_presence ∅ (wh_room h2) !! dev_id row) m) as (m' & Em & Hle').
    destruct (shown_recent (from_option room_presence ∅ (wh_room h2)) (wh_seen h2) row m')
      as (at_ & E & Hat); [by rewrite Hm| |exists at_; split; [done|lia]].
    apply Hok. destruct Hh as [H1 H2]. apply fresher_cases in Em as [Hl|[= ->]]; auto.
Qed.

(** ** The tripwire *)

(** Successive observations: how many peers are live, and when. *)
Fixpoint tripwire (w : PresenceWatch) (obs : list (nat * Z)) : list RoomRequest * PresenceWatch :=
  match obs with
  | [] => ([], w)
  | (live, now) :: obs =>
      let '(rs, w) := check_presence_deafness live now w in
      let '(rs', w) := tripwire w obs in (rs ++ rs', w)
  end.

Definition dark (ts : list Z) : list (nat * Z) := (fun t => (O, t)) <$> ts.

Lemma tripwire_cons w live now obs :
  tripwire w ((live, now) :: obs) =
    ((check_presence_deafness live now w).1 ++ (tripwire (check_presence_deafness live now w).2 obs).1,
     (tripwire (check_presence_deafness live now w).2 obs).2).
Proof. cbn [tripwire]. destruct (check_presence_deafness _ _ _). cbn. by destruct (tripwire _ obs). Qed.

Lemma tripwire_disarmed w ts : armed w = false -> tripwire w (dark ts) = ([], w).
Proof.
  intros H. induction ts as [|t ts IH]; [done|]. unfold dark. rewrite fmap_cons, tripwire_cons.
  unfold check_presence_deafness. rewrite H. cbn. fold (dark ts). by rewrite IH.
Qed.

Lemma tripwire_probed t0 ts :
  t0 <> 0 ->
  (tripwire (mk_watch true t0 true) (dark ts)).1 =
    if existsb (fun t => PRESENCE_DEAF_REDIAL_MS <? saturating_sub t t0) ts then [RedialNow] else [].
Proof.
  intros H0. induction ts as [|t ts IH]; [done|]. unfold dark. rewrite fmap_cons, tripwire_cons.
  unfold check_presence_deafness. cbn. rewrite (proj2 (Z.eqb_neq t0 0)) by done.
  destruct (_ <? _); cbn; [|exact IH]. fold (dark ts). by rewrite tripwire_disarmed.
Qed.

Definition is_probe (r : RoomRequest) : bool := match r with ProbeNow => true | _ => false end.
Definition is_redial (r : RoomRequest) : bool := match r with RedialNow => true | _ => false end.

Definition count_if {A} (f : A -> bool) (l : list A) : nat := length (List.filter f l).

Lemma count_if_app {A} (f : A -> bool) l l' : count_if f (l ++ l') = (count_if f l + count_if f l')%nat.
Proof. unfold count_if. by rewrite List.filter_app, length_app. Qed.

Definition live_observations (obs : list (nat * Z)) : nat := count_if (fun o => 0 <? o.1)%nat obs.

(** The probes and redials a watch still owes its last live observation. *)
Definition probes_left (w : PresenceWatch) : nat := if armed w && negb (probed w) then 1 else 0.
Definition redials_left (w : PresenceWatch) : nat := if armed w then 1 else 0.

Lemma deafness_budget live now w :
  let '(rs, w') := check_presence_deafness live now w in
  let fresh := if (0 <? live)%nat then 1%nat else O in
  (count_if is_probe rs + probes_left w' <= probes_left w + fresh)%nat /\
  (count_if is_redial rs + redials_left w' <= redials_left w + fresh)%nat /\
  (count_if is_redial rs + redials_left w' + probes_left w <=
     count_if is_probe rs + probes_left w' + redials_left w)%nat.
Proof.
  unfold check_presence_deafness, probes_left, redials_left.
  destruct (0 <? live)%nat; [by destruct w as [[] ? []]; cbn; lia|].
  destruct w as [[] d []]; cbn; try destruct (_ <? _); cbn; lia.
Qed.

#[local] Arguments count_if : simpl never.

Lemma live_observations_cons live now obs :
  live_observations ((live, now) :: obs) =
    ((if (0 <? live)%nat then 1 else 0) + live_observations obs)%nat.
Proof. by destruct live. Qed.

Lemma tripwire_budget obs : forall w,
  let '(rs, w') := tripwire w obs in
  (count_if is_probe rs + probes_left w' <= probes_left w + live_observations obs)%nat /\
  (count_if is_redial rs + redials_left w' + probes_left w <=
     count_if is_probe rs + probes_left w' + redials_left w)%nat.
Proof.
  induction obs as [|[live now] obs IH]; intros w; [unfold live_observations, count_if; cbn; lia|].
  rewrite tripwire_cons. pose proof (deafness_budget live now w) as Hd.
  destruct (check_presence_deafness live now w) as [rs w1]. cbn.
  specialize (IH w1). destruct (tripwire w1 obs) as [rs' w2]. cbn. rewrite !count_if_app.
  rewrite live_observations_cons. destruct Hd as (H1 & H2 & H3). lia.
Qed.

(** The deaf-socket tripwire. After a live sighting, a run of dark
    observations asks for nothing but one probe at once and one redial at the
    first observation more than the redial time after the spell began, and is
    silent from then on; and whatever is observed from the start, there are no
    more redials than probes and no more probes than sightings. *)
Theorem tripwire_ladder w live t ts obs :
  (0 < live)%nat -> Forall (fun u => u <> 0) ts ->
  let '(rs, w0) := check_presence_deafness live t w in
  rs = [] /\
  (tripwire w0 (dark ts)).1 =
    match ts with
    | [] => []
    | t0 :: later =>
        ProbeNow ::
          if existsb (fun u => PRESENCE_DEAF_REDIAL_MS <? saturating_sub u t0) later then [RedialNow] else []
    end /\
  let asked := (tripwire watch_default obs).1 in
  (count_if is_redial asked <= count_if is_probe asked)%nat /\
  (count_if is_probe asked <= live_observations obs)%nat.
Proof.
  intros Hl Hts. unfold check_presence_deafness at 1. rewrite (proj2 (Nat.ltb_lt 0 live)) by done.
  split; [done|]. split.
  - destruct Hts as [|t0 later H0 _]; [done|]. unfold dark. rewrite fmap_cons, tripwire_cons. cbn.
    fold (dark later). by rewrite tripwire_probed.
  - pose proof (tripwire_budget obs watch_default) as H. destruct (tripwire watch_default obs) as [rs w'].
    change (probes_left watch_default) with 0%nat in H. change (redials_left watch_default) with 0%nat in H.
    cbn in *. destruct H as [H1 H2].
    assert (probes_left w' <= redials_left w')%nat by (destruct w' as [[] ? []]; cbn; lia). lia.
Qed.

(** ** A peer that comes back *)

Lemma overlay_alive self live now id ms devices : forall acc,
  live !! id = Some ms -> is_fresh now ms = true -> id <> self -> id ∈ dev_id <$> devices ->
  id ∈ ov_alive (overlay_loop self live now acc devices).2.
Proof.
  assert (forall devices acc, id ∈ ov_alive acc -> id ∈ ov_alive (overlay_loop self live now acc devices).2)
    as Hmono.
  { clear devices. induction devices as [|dv devices IH]; intros acc Hin; [exact Hin|]. cbn [overlay_loop].
    unfold overlay_device. destruct (fresher _ _) as [m|];
      match goal with |- context [overlay_loop _ _ _ ?a _] => specialize (IH a) end;
      destruct (overlay_loop _ _ _ _ devices) as [out acc']; apply IH; cbn; [|exact Hin].
    destruct (negb (String.eqb (dev_id dv) self) && is_fresh now m); [apply elem_of_app; by left|exact Hin]. }
  induction devices as [|dv devices IH]; intros acc Hl Hf Hne Hin; [by apply not_elem_of_nil in Hin|].
  cbn [overlay_loop]. unfold overlay_device. apply elem_of_cons in Hin as [->|Hin].
  - rewrite Hl. destruct (fresher_live ms (ov_seen acc !! dev_id dv)) as (m & -> & Hle).
    rewrite (proj2 (String.eqb_neq _ _) Hne), (is_fresh_mono now ms m Hle Hf). cbn [negb andb].
    match goal with |- context [overlay_loop _ _ _ ?a _] => specialize (Hmono devices a) end.
    destruct (overlay_loop _ _ _ _ devices) as [out acc']. apply Hmono. cbn. apply elem_of_app. right.
    by apply list_elem_of_singleton.
  - destruct (fresher (live !! dev_id dv) (ov_seen acc !! dev_id dv)) as [m|];
      match goal with |- context [overlay_loop _ _ _ ?a _] => specialize (IH a Hl Hf Hne Hin) end;
      by destruct (overlay_loop _ _ _ _ devices) as [out acc'].
Qed.

Lemma publish_alive now h :
  wh_hooked h = true ->
  wh_alive (publish now h) = wh_alive h ++
    ov_alive (overlay_loop (wh_device h) (room_stamps h) now (mk_acc (wh_seen h) 0 [])
                (read_devices (wh_reg h))).2 /\
  wh_hooked (publish now h) = true.
Proof.
  intros Hk. unfold publish, overlay_presence. cbn [read_all ws_devices]. fold (room_stamps h).
  destruct (overlay_loop _ _ _ _ _) as [out acc]. cbn.
  destruct (wh_room h) as [room|]; [destruct (check_presence_deafness _ _ _) as [rs w]|];
    cbn; rewrite Hk; cbn; by rewrite ?Hk.
Qed.

Lemma reset_cooldowns ids k :
  let k' := foldl (fun k id => reset_cooldown id k) k ids in
  lc_revoked k' = lc_revoked k /\ lc_links k' = lc_links k /\
  forall id, id ∈ ids -> lc_dial k' !! id = None.
Proof.
  induction ids as [|i ids IH] using rev_ind; [by split_and!; intros; [..|set_solver]|].
  rewrite foldl_app. cbn. destruct IH as (Hr & Hl & Hd). split_and!; [done..|].
  intros id [Hin|Hin%list_elem_of_singleton]%elem_of_app; [|subst i].
  - destruct (decide (i = id)) as [->|Hne]; [by rewrite lookup_delete_eq|].
    rewrite lookup_delete_ne by done. auto.
  - by rewrite lookup_delete_eq.
Qed.

(** A peer whose fresh beat a publish sees is handed to the peer-alive
    hook, which clears its dial cooldown: the next call to it is refused neither
    as dark nor as cooling, and without a link it dials, unless the user signed
    out. *)
Theorem revived_peer_is_dialed now h id ms cfg closed outcomes revoked_after later k :
  wh_hooked h = true -> room_stamps h !! id = Some ms -> is_fresh now ms = true ->
  id <> wh_device h -> id ∈ dev_id <$> read_devices (wh_reg h) ->
  lc_revoked k = false -> outcomes <> [] ->
  let h' := publish now h in
  exists called, wh_alive h' = wh_alive h ++ called /\ id ∈ called /\
    let k' := foldl (fun k id => reset_cooldown id k) k called in
    let '(result, dials, _) :=
      Relay.client cfg (Some (peer_liveness now h' id)) closed outcomes revoked_after now later id k' in
    result <> DeviceDark /\ result <> CoolingDown /\
    ((cached closed id k').1 = None -> (1 <= dials)%nat).
Proof.
  intros Hk Hms Hf Hne Hin Hrev Hout h'. destruct (publish_alive now h Hk) as [Ha _].
  eexists. split; [exact Ha|]. split; [by apply (overlay_alive _ _ _ _ ms)|].
  match goal with |- context [foldl _ k ?l] => set (called := l) end. intros k'.
  assert (id ∈ called) as Hc by by apply (overlay_alive _ _ _ _ ms).
  destruct (reset_cooldowns called k) as (Er & El & Ed). fold k' in Er, El, Ed. specialize (Ed id Hc).
  assert (peer_liveness now h' id <> Dark) as Hl.
  { destruct (publish_spec now h) as (_ & _ & _ & _ & Hp). destruct (fresher_live ms (wh_seen h !! id)) as (m & Em & Hle).
    apply (remembered_not_dark _ _ _ m).
    - exists m. split; [|done]. unfold h'. rewrite Hp, decide_True by done. fold (room_stamps h). by rewrite Hms.
    - apply (is_fresh_mono _ _ m) in Hf; [|done]. unfold is_fresh in Hf. apply Z.ltb_lt in Hf.
      unfold PRESENCE_FRESH_MS, DIAL_GATE_DARK_MS in *. lia. }
  unfold Relay.client. rewrite Er, Hrev.
  destruct (cached closed id k') as [[l|] k2] eqn:Ec; [done|].
  assert (lc_dial k2 !! id = None) as Ed2.
  { unfold cached in Ec. repeat case_match; by simplify_eq. }
  assert (cooling id now k2 = false) as -> by (unfold cooling; by rewrite Ed2).
  destruct (peer_liveness now h' id); [|done|];
    (destruct outcomes as [|[l|] outcomes]; [done|..]; cbn;
     [by destruct revoked_after|];
     destruct (dial_loop _) as [[l|] n]; [by destruct revoked_after; split_and!; try done; intros; lia|];
     split_and!; try done; intros; lia).
Qed.

(** ** Spaces and claims *)

Definition round_space (s : Space) : Space :=
  mk_space (sp_id s) (sp_device_id s) (sp_path s) (sp_name s) (sp_git_detected s)
    (round_ms <$> sp_git_checked_at s) (sp_checkout_id s) (round_ms (sp_created_at s)).

Lemma raw_space_roundtrip {CL : ChronoLaws C} (m : gmap string Value) s :
  (forall k w, space_fields s !! k = Some w -> m !! k = if is_null w then None else Some w) ->
  space_from <$> raw_space_of m = Some (round_space s).
Proof.
  intros Hm. unfold space_fields in Hm.
  assert (forall k w, find_last k [("id", Str (sp_id s)); ("deviceId", Str (sp_device_id s));
          ("path", Str (sp_path s)); ("name", opt_str (sp_name s)); ("gitDetected", Bool (sp_git_detected s));
          ("gitCheckedAt", opt_ms (sp_git_checked_at s)); ("checkoutId", opt_str (sp_checkout_id s));
          ("createdAt", Int (timestamp_millis (sp_created_at s)))] = Some w ->
     m !! k = if is_null w then None else Some w) as Hk.
  { intros k w H. apply Hm. by rewrite lookup_fields. }
  clear Hm. unfold raw_space_of, de_req, de_default.
  rewrite (Hk "id" _ eq_refl), (Hk "deviceId" _ eq_refl), (Hk "path" _ eq_refl), (Hk "gitDetected" _ eq_refl),
    (Hk "createdAt" _ eq_refl).
  cbn [is_null mbind option_bind as_string as_bool].
  rewrite (de_opt_str _ _ _ (Hk "name" _ eq_refl)), (de_opt_ms _ _ _ (Hk "gitCheckedAt" _ eq_refl)),
    (de_opt_str _ _ _ (Hk "checkoutId" _ eq_refl)), as_i64_millis.
  cbn. unfold space_from, round_space. cbn. by rewrite <- option_fmap_compose.
Qed.

(** The space of a row. *)
Definition space_row (d : RegistryDoc) (id : string) (s : Space) : Prop :=
  exists r raw, overlay_row d KIND_SPACES id = Some r /\ raw_space_of (row_fields r) = Some raw /\
    s = space_from raw.

Lemma elem_of_read_spaces d s : s ∈ read_spaces d <-> exists id, space_row d id s.
Proof.
  unfold read_spaces, sort_by_id, read_kind, space_row. rewrite merge_sort_Permutation, list_elem_of_fmap.
  setoid_rewrite list_elem_of_omap.
  setoid_rewrite (fun r => proj2 (overlay_rows_spec d KIND_SPACES r)). naive_solver.
Qed.

Lemma space_row_upsert {CL : ChronoLaws C} d now s id t :
  beats (fresh_hlc d now) (overlay_raw d KIND_SPACES (sp_id s)) = true ->
  space_row (upsert_space d now s) id t <->
    if decide (id = sp_id s) then t = round_space s else space_row d id t.
Proof.
  intros Hb. unfold space_row, upsert_space. case_decide as Hid.
  - subst id. destruct (overlay_upsert d now KIND_SPACES (sp_id s) (space_fields s) Hb) as (r & -> & Hf).
    assert (space_from <$> raw_space_of (row_fields r) = Some (round_space s)) as E.
    { apply raw_space_roundtrip. intros k w Hw. rewrite Hf. unfold merged_fields. by rewrite Hw. }
    apply fmap_Some in E as (raw & Hraw & ->). naive_solver.
  - rewrite overlay_row_write_other; [done|]. naive_solver.
Qed.

Lemma space_row_other d now kind id op set id' t :
  kind <> KIND_SPACES -> space_row (write d now kind id op set) id' t <-> space_row d id' t.
Proof. intros Hk. unfold space_row. rewrite overlay_row_write_other; [done|]. naive_solver. Qed.

(** No two rows are one folder of one device. *)
Definition folders_unique (d : RegistryDoc) : Prop :=
  forall id1 id2 s1 s2, space_row d id1 s1 -> space_row d id2 s2 ->
    sp_device_id s1 = sp_device_id s2 -> sp_path s1 = sp_path s2 -> id1 = id2.

Lemma upsert_space_unique {CL : ChronoLaws C} d now s :
  folders_unique d ->
  beats (fresh_hlc d now) (overlay_raw d KIND_SPACES (sp_id s)) = true ->
  (forall t, t ∈ read_spaces d -> ~ (sp_device_id t = sp_device_id s /\ sp_path t = sp_path s)) ->
  folders_unique (upsert_space d now s).
Proof.
  intros Hu Hb Hn id1 id2 s1 s2 H1 H2 Hd Hp.
  apply space_row_upsert in H1, H2; [|done..].
  destruct (decide (id1 = sp_id s)) as [->|H1n], (decide (id2 = sp_id s)) as [->|H2n]; [done|..].
  - subst s1. exfalso. apply (Hn s2); [apply elem_of_read_spaces; by eauto|done].
  - subst s2. exfalso. apply (Hn s1); [apply elem_of_read_spaces; by eauto|done].
  - by eapply Hu.
Qed.

Lemma find_folder_Some spaces device path s :
  find_folder spaces device path = Some s -> s ∈ spaces /\ sp_device_id s = device /\ sp_path s = path.
Proof.
  intros [Hin [H1%String.eqb_eq H2%String.eqb_eq]%andb_true_iff]%find_some. split; [|done].
  by apply list_elem_of_In.
Qed.

Lemma find_folder_None spaces device path :
  find_folder spaces device path = None -> forall s, s ∈ spaces -> ~ (sp_device_id s = device /\ sp_path s = path).
Proof.
  intros H s Hin [<- <-]. apply list_elem_of_In in Hin. pose proof (find_none _ _ H s Hin) as E.
  cbn in E. by rewrite !String.eqb_refl in E.
Qed.

(** Space rows carry their own id, as every writer of them does. *)
Definition space_ids_match (d : RegistryDoc) : Prop := forall id s, space_row d id s -> sp_id s = id.

Lemma upsert_space_ids_match {CL : ChronoLaws C} d now s :
  space_ids_match d -> beats (fresh_hlc d now) (overlay_raw d KIND_SPACES (sp_id s)) = true ->
  space_ids_match (upsert_space d now s).
Proof. intros Hm Hb id t Ht. apply space_row_upsert in Ht; [|done]. case_decide; [by subst|auto]. Qed.

(** What [space_for_path] leaves behind it. *)
Lemma space_for_path_spec {CL : ChronoLaws C} lwr now at_ new_id path h :
  folders_unique (wh_reg h) -> space_ids_match (wh_reg h) -> overlay_raw (wh_reg h) KIND_SPACES new_id = None ->
  let '(id, h') := space_for_path lwr now at_ new_id path h in
  folders_unique (wh_reg h') /\ space_ids_match (wh_reg h') /\ wh_config h' = wh_config h /\
  device_id (wh_reg h') = device_id (wh_reg h) /\
  (forall kind i, kind <> KIND_SPACES -> overlay_raw (wh_reg h') kind i = overlay_raw (wh_reg h) kind i) /\
  exists s, space_row (wh_reg h') id s /\ sp_device_id s = wh_device h /\
    (sp_path s = path \/ lwr path = Some (sp_path s)).
Proof.
  intros Hu Hm Hnew. unfold space_for_path.
  destruct (find_folder _ _ path) as [s|] eqn:E.
  { apply find_folder_Some in E as ([id Hs]%elem_of_read_spaces & ? & ?). split_and!; try done.
    exists s. rewrite (Hm _ _ Hs). auto. }
  destruct (lwr path ≫= find_folder (read_spaces (wh_reg h)) (wh_device h)) as [s|] eqn:E2.
  { apply bind_Some in E2 as (root & Hroot & ([id Hs]%elem_of_read_spaces & ? & ?)%find_folder_Some).
    split_and!; try done. exists s. rewrite (Hm _ _ Hs). split_and!; [done..|]. right. congruence. }
  set (s := mk_space new_id (wh_device h) (default path (lwr path)) None false None None at_).
  assert (beats (fresh_hlc (wh_reg h) now) (overlay_raw (wh_reg h) KIND_SPACES (sp_id s)) = true) as Hb
    by (cbn; by rewrite Hnew).
  assert (wh_reg (mutate_ (fun d => upsert_space d now s) h) = upsert_space (wh_reg h) now s /\
    wh_config (mutate_ (fun d => upsert_space d now s) h) = wh_config h) as [-> ->].
  { unfold mutate_, mutate. cbn. by destruct (wh_room h). }
  split_and!; [| |done| | |].
  - apply upsert_space_unique; [done..|]. intros t Ht [H1 H2]. cbn in H1, H2.
    destruct (lwr path) as [root|]; cbn in *.
    + exact (find_folder_None _ _ _ E2 t Ht (conj H1 H2)).
    + exact (find_folder_None _ _ _ E t Ht (conj H1 H2)).
  - by apply upsert_space_ids_match.
  - unfold upsert_space, write, next_hlc. rewrite (hlc_next_eta (clock _)).
    by rewrite (proj2 (proj2 (proj2 (enqueue_ops_frame _ _ _)))).
  - intros kind i Hk. unfold upsert_space. rewrite overlay_raw_write, decide_False; [done|]. naive_solver.
  - exists (round_space s). split_and!; [by apply space_row_upsert; [|rewrite decide_True]|done|].
    cbn. destruct (lwr path); auto.
Qed.

(** The fields [RegistryApi.claim_chat] sets. *)
Definition claim_fields (device chat_id : string) (cwd space_id : option string) (at_ : DateTime)
    : gmap string Value :=
  let set := fields [("id", Str chat_id); ("deviceId", Str device);
                     ("createdAt", Int (timestamp_millis at_))] in
  let set := match cwd with Some cwd => <["cwd" := Str cwd]> set | None => set end in
  match space_id with Some s => <["spaceId" := Str s]> set | None => set end.

Definition claimed_chat (device chat_id : string) (cwd space_id : option string) (at_ : DateTime) : Chat :=
  mk_chat chat_id device None false cwd None None None None None (round_ms at_) None None space_id None None.

Lemma lookup_claim device chat_id cwd space_id at_ k :
  claim_fields device chat_id cwd space_id at_ !! k =
    if String.eqb "id" k then Some (Str chat_id)
    else if String.eqb "deviceId" k then Some (Str device)
    else if String.eqb "createdAt" k then Some (Int (timestamp_millis at_))
    else if String.eqb "cwd" k then Str <$> cwd
    else if String.eqb "spaceId" k then Str <$> space_id
    else None.
Proof.
  assert (claim_fields device chat_id cwd space_id at_ = fields
    ([("id", Str chat_id); ("deviceId", Str device); ("createdAt", Int (timestamp_millis at_))] ++
     match cwd with Some cwd => [("cwd", Str cwd)] | None => [] end ++
     match space_id with Some s => [("spaceId", Str s)] | None => [] end)) as ->
    by by destruct cwd, space_id.
  rewrite lookup_fields.
  destruct cwd, space_id; cbn [app find_last];
    repeat match goal with
    | |- context [String.eqb ?c k] => destruct (String.eqb_spec c k) as [<-|]; [reflexivity|]
    end; reflexivity.
Qed.

Lemma claimed_chat_reads {CL : ChronoLaws C} m device chat_id cwd space_id at_ :
  (forall k, m !! k = claim_fields device chat_id cwd space_id at_ !! k) ->
  chat_from <$> raw_chat_of m = Some (claimed_chat device chat_id cwd space_id at_).
Proof.
  intros Hm. assert (forall k, m !! k = if String.eqb "id" k then Some (Str chat_id)
    else if String.eqb "deviceId" k then Some (Str device)
    else if String.eqb "createdAt" k then Some (Int (timestamp_millis at_))
    else if String.eqb "cwd" k then Str <$> cwd
    else if String.eqb "spaceId" k then Str <$> space_id
    else None) as Hk by (intros k; by rewrite Hm, lookup_claim).
  unfold raw_chat_of, de_req, de_default, de_opt. rewrite !Hk. cbn [String.eqb Ascii.eqb Bool.eqb mbind option_bind as_string].
  rewrite as_i64_millis. destruct cwd, space_id; reflexivity.
Qed.

Lemma claim_reads {CL : ChronoLaws C} d now chat_id cwd space_id at_ :
  overlay_raw d KIND_CHATS chat_id = None ->
  get_chat (RegistryApi.claim_chat d now chat_id cwd space_id at_) chat_id =
    Some (claimed_chat (device_id d) chat_id cwd space_id at_).
Proof.
  intros Hn. unfold RegistryApi.claim_chat. fold (claim_fields (device_id d) chat_id cwd space_id at_).
  destruct (overlay_upsert d now KIND_CHATS chat_id (claim_fields (device_id d) chat_id cwd space_id at_))
    as (r & Hr & Hf); [by rewrite Hn|].
  unfold get_chat. rewrite Hr. cbn. apply claimed_chat_reads. intros k. rewrite Hf. unfold merged_fields.
  rewrite Hn. rewrite lookup_claim. destruct cwd, space_id; cbn [fmap option_fmap option_map];
    repeat match goal with |- context [String.eqb ?c k] => destruct (String.eqb c k); [done|] end; done.
Qed.

Lemma mutate__reg f h : wh_reg (mutate_ f h) = f (wh_reg h) /\ wh_config (mutate_ f h) = wh_config h.
Proof. unfold mutate_, mutate. cbn. by destruct (wh_room h). Qed.

(** A run command for an unknown chat claims it for this device, in a
    space of this device at the command's directory or the root of its checkout;
    neither a claim nor the creation of a space ever makes a second space of one
    folder. *)
Theorem claim_lands_in_one_space {CL : ChronoLaws C} lwr space_now now at_ new_id chat_id cwd h :
  folders_unique (wh_reg h) -> space_ids_match (wh_reg h) ->
  overlay_raw (wh_reg h) KIND_SPACES new_id = None -> overlay_raw (wh_reg h) KIND_CHATS chat_id = None ->
  device_id (wh_reg h) = wh_device h ->
  let h' := claim_chat lwr space_now now at_ new_id chat_id cwd h in
  folders_unique (wh_reg h') /\ is_host h' chat_id = true /\
  (exists space_id,
     get_chat (wh_reg h') chat_id = Some (claimed_chat (wh_device h) chat_id cwd space_id at_) /\
     match cwd, space_id with
     | Some path, Some id => exists s, space_row (wh_reg h') id s /\ sp_device_id s = wh_device h /\
         (sp_path s = path \/ lwr path = Some (sp_path s))
     | None, None => True
     | _, _ => False
     end) /\
  forall now2 at2 space_id device path name git,
    beats (fresh_hlc (wh_reg h) now2) (overlay_raw (wh_reg h) KIND_SPACES space_id) = true ->
    folders_unique (wh_reg (create_space now2 at2 space_id device path name git h)).
Proof.
  intros Hu Hm Hnew Hchat Hdev h'.
  assert (get_chat (wh_reg h) chat_id = None) as Hget
    by (unfold get_chat, overlay_row; by rewrite Hchat).
  assert (exists space_id h1, h' = mutate_ (fun d => RegistryApi.claim_chat d now chat_id cwd space_id at_) h1 /\
    folders_unique (wh_reg h1) /\ wh_config h1 = wh_config h /\ device_id (wh_reg h1) = device_id (wh_reg h) /\
    overlay_raw (wh_reg h1) KIND_CHATS chat_id = None /\
    match cwd, space_id with
     | Some path, Some id => exists s, space_row (wh_reg h1) id s /\ sp_device_id s = wh_device h /\
         (sp_path s = path \/ lwr path = Some (sp_path s))
     | None, None => True
     | _, _ => False
     end) as (space_id & h1 & Eh & Hu1 & Hc1 & Hd1 & Hr1 & Hs).
  { unfold h', claim_chat. rewrite Hget. destruct cwd as [path|]; [|by exists None, h].
    pose proof (space_for_path_spec lwr space_now at_ new_id path h Hu Hm Hnew) as H.
    destruct (space_for_path _ _ _ _ _ _) as [id h1]. destruct H as (H1 & H2 & H3 & H4 & H5 & H6).
    exists (Some id), h1. split_and!; try done. by rewrite H5. }
  destruct (mutate__reg (fun d => RegistryApi.claim_chat d now chat_id cwd space_id at_) h1) as [Er Ec].
  rewrite <- Eh in Er, Ec.
  assert (get_chat (wh_reg h') chat_id = Some (claimed_chat (wh_device h) chat_id cwd space_id at_)) as Hg
    by (rewrite Er, claim_reads by done; by rewrite Hd1, Hdev).
  assert (forall id t, space_row (wh_reg h') id t <-> space_row (wh_reg h1) id t) as Hsp.
  { intros id t. rewrite Er. unfold RegistryApi.claim_chat. by apply space_row_other. }
  split_and!.
  - intros id1 id2 s1 s2. rewrite !Hsp. apply Hu1.
  - unfold is_host. rewrite Hg. cbn. unfold wh_device. rewrite Ec, Hc1. apply String.eqb_refl.
  - exists space_id. split; [done|]. destruct cwd as [path|], space_id as [id|]; try done.
    destruct Hs as (s & Hs). exists s. by rewrite Hsp.
  - intros now2 at2 sid device path name git Hb. unfold create_space.
    destruct (existsb _ _) eqn:E; [done|]. rewrite (proj1 (mutate__reg _ _)).
    apply upsert_space_unique; [done..|]. intros t Ht [H1 H2].
    apply not_true_iff_false in E. apply E, existsb_exists. exists t. split; [by apply list_elem_of_In|].
    cbn in H1, H2. rewrite H1, H2, !String.eqb_refl. by rewrite orb_true_r.
Qed.

(** *** A create that arrives after the claim *)

(** The first write of a row merges like a write on an empty one. *)
Lemma apply_op_first op :
  op_op op = Upsert ->
  (apply_op None op).1 = (apply_op (Some (mk_row (op_kind op) (op_id op) 0 false None ∅ ∅)) op).1.
Proof.
  intros Hop. set (base := mk_row _ _ _ _ _ _ _).
  rewrite (apply_op_write None op base); [|congruence|by unfold apply_base; rewrite decide_False by congruence].
  rewrite apply_op_live by (done || congruence).
  destruct (write_base_spec op base true eq_refl) as (r1 & c1 & -> & M1 & _ & C1 & F1).
  destruct (write_base_spec op base false eq_refl) as (r2 & c2 & -> & M2 & _ & C2 & F2).
  cbn. f_equal. apply row_ext.
  - destruct M1 as (?&?&?&?&?), M2 as (?&?&?&?&?). unfold same_meta. split_and!; congruence.
  - intros k. by rewrite F1, F2.
  - intros k. by rewrite C1, C2.
Qed.

(** What two upserts leave in a field, the first having the newer clock. *)
Lemma newer_upsert_wins kind id newer older hn ho :
  hlc_newer hn (Some ho) = true ->
  exists r, run_ops None [mk_op kind id Upsert (Some newer) hn None; mk_op kind id Upsert (Some older) ho None] = Some r /\
    run_ops None [mk_op kind id Upsert (Some older) ho None; mk_op kind id Upsert (Some newer) hn None] = Some r /\
    row_deleted r = false /\
    forall k, row_fields r !! k = ((newer ∪ older) !! k ≫= fun v => if is_null v then None else Some v).
Proof.
  intros Hn. set (a := mk_op kind id Upsert (Some newer) hn None).
  set (b := mk_op kind id Upsert (Some older) ho None). set (base := mk_row kind id 0 false None ∅ ∅).
  assert (forall op op', op = a \/ op = b -> run_ops None [op; op'] = run_ops (Some base) [op; op']) as Hfirst.
  { intros op op' Hop. unfold run_ops. cbn. rewrite apply_op_first by by destruct Hop as [->| ->].
    by destruct Hop as [->| ->]. }
  destruct (run_ops_live_cells base [a; b] eq_refl) as (r & Hr & M & Hl & Hc); [by repeat constructor|].
  destruct (run_ops_live_cells base [b; a] eq_refl) as (r' & Hr' & M' & Hl' & Hc'); [by repeat constructor|].
  assert (forall k, cell_of r k = cell_of r' k /\
    row_fields r !! k = ((newer ∪ older) !! k ≫= fun v => if is_null v then None else Some v)) as Hk.
  { intros k. rewrite Hc, Hc'. pose proof (Hc k) as Hck. cbn in Hck |- *.
    assert (row_fields r !! k = (cell_of r k).2) as -> by done. rewrite Hc. cbn.
    unfold cell_step, write_of, op_fields, cell_of, cell_write. cbn. rewrite !lookup_empty, lookup_union.
    destruct (newer !! k) as [v|], (older !! k) as [w|]; cbn; rewrite ?lookup_empty; cbn; unfold hlc_newer in *; cbn;
      rewrite ?Hn, ?(string_ltb_asym _ _ Hn); cbn; try by split.
    all: by rewrite ?(string_ltb_asym _ _ Hn). }
  assert (r' = r) as ->.
  { apply row_ext_cells; [|intros k; symmetry; apply Hk].
    destruct M as (?&?&?&?&?), M' as (?&?&?&?&?). unfold same_meta. split_and!; congruence. }
  exists r. rewrite !Hfirst by auto. split_and!; try done. intros k. apply Hk.
Qed.

(** The chat a claim and a create of it make together. *)
Definition claim_of_created (device : string) (cwd space_id : option string) (at_ : DateTime) (chat : Chat) : Chat :=
  mk_chat (ch_id chat) device (ch_title chat) (ch_archived chat)
    (match cwd with Some c => Some c | None => ch_cwd chat end) (ch_branch chat) (ch_checkout_id chat)
    (ch_config chat) (ch_last_message_preview chat) (ch_last_message_at chat) at_ (ch_harness_session_id chat)
    (ch_harness_session_cwd chat) (match space_id with Some s => Some s | None => ch_space_id chat end)
    (ch_last_seen_at chat) (ch_room_gen chat).

Lemma claim_over_created device cwd space_id at_ chat v :
  chat_fields (claim_of_created device cwd space_id at_ chat) v =
    claim_fields device (ch_id chat) cwd space_id at_ ∪ chat_fields chat v.
Proof.
  apply map_eq. intros k. rewrite lookup_union, lookup_claim. unfold chat_fields. rewrite !lookup_fields.
  cbn [chat_entries claim_of_created app find_last ch_id ch_device_id ch_title ch_archived ch_cwd ch_branch
       ch_checkout_id ch_config ch_last_message_preview ch_last_message_at ch_created_at ch_harness_session_id
       ch_harness_session_cwd ch_space_id ch_last_seen_at ch_room_gen].
  repeat match goal with
    | |- context [String.eqb ?c k] => destruct (String.eqb_spec c k) as [<-|]
    end; destruct cwd, space_id; reflexivity.
Qed.

Lemma pending_ops_write d now kind id op set :
  pending_ops (write d now kind id op set) =
    pending_ops d ++ [mk_op kind id op (Some set) (fresh_hlc d now) None].
Proof.
  unfold write, next_hlc, fresh_hlc. rewrite (hlc_next_eta (clock d)). by rewrite pending_ops_enqueue.
Qed.

(** A claim outruns the create of the same chat: whichever of the two
    writes the server merges first, the row ends up as the created chat, title
    and configuration included, on the claiming device with what the claim
    said of its directory and space, when the create was minted earlier. *)
Theorem late_create_fills_claim {CL : ChronoLaws C} {KL : ConfigCodecLaws K} dh now_h dc now_c cwd space_id at_ chat dc' :
  upsert_chat dc now_c chat = Some dc' ->
  from_option (fun z => 0 <= z < 2 ^ 32) True (ch_room_gen chat) ->
  hlc_newer (fresh_hlc dh now_h) (Some (fresh_hlc dc now_c)) = true ->
  let dh' := RegistryApi.claim_chat dh now_h (ch_id chat) cwd space_id at_ in
  exists claim create r,
    pending_ops dh' = pending_ops dh ++ [claim] /\ pending_ops dc' = pending_ops dc ++ [create] /\
    run_ops None [claim; create] = Some r /\ run_ops None [create; claim] = Some r /\
    row_deleted r = false /\
    chat_from <$> raw_chat_of (row_fields r) =
      Some (round_chat (claim_of_created (device_id dh) cwd space_id at_ chat)).
Proof.
  intros (v & Hv & [= <-])%bind_Some Hg Hn dh'.
  destruct (newer_upsert_wins KIND_CHATS (ch_id chat) (claim_fields (device_id dh) (ch_id chat) cwd space_id at_)
    (chat_fields chat v) _ _ Hn) as (r & H1 & H2 & Hl & Hf).
  eexists _, _, r. split_and!; [apply pending_ops_write|apply pending_ops_write|exact H1|exact H2|exact Hl|].
  apply (raw_chat_roundtrip _ _ v); [exact Hv|exact Hg|]. intros k w. rewrite claim_over_created, Hf.
  by intros ->.
Qed.

(** ** The merged session list *)

Definition last_of (chat : string) (l : list Session) : option Session :=
  last (filter (fun s => se_chat_id s = chat) l).

Lemma lookup_fold_sessions l chat : forall m : gmap string Session,
  foldl (fun m s => <[se_chat_id s := s]> m) m l !! chat =
    match last_of chat l with Some s => Some s | None => m !! chat end.
Proof.
  unfold last_of. induction l as [|s l IH] using rev_ind; intros m; [done|].
  rewrite foldl_app, filter_app, filter_cons, filter_nil. cbn. case_decide as H.
  - rewrite last_snoc, <- H. by rewrite lookup_insert_eq.
  - by rewrite app_nil_r, lookup_insert_ne, IH.
Qed.

Lemma last_of_id chat l s : last_of chat l = Some s -> se_chat_id s = chat.
Proof. unfold last_of. intros H%last_Some_elem_of. by apply list_elem_of_filter in H as [? _]. Qed.

(** Sorting by distinct ids is strict. *)
Lemma sort_by_id_strict {T} (id : T -> string) l :
  NoDup (id <$> l) -> StronglySorted (fun a b => String.ltb (id a) (id b) = true) (sort_by_id id l).
Proof.
  intros Hnd. unfold sort_by_id. set (R := fun a b => string_le (id a) (id b)).
  assert (Total R) as Ht by (intros a b; apply string_le_total).
  assert (Transitive R) as Htr by (intros a b c; apply string_le_trans).
  rewrite <- (merge_sort_Permutation R l) in Hnd.
  pose proof (StronglySorted_merge_sort R l) as Hs.
  induction Hs as [|a l' Hs IH Ha]; [constructor|]. apply NoDup_cons in Hnd as [Hni Hnd].
  constructor; [by apply IH|]. apply Forall_forall. intros b Hb. rewrite Forall_forall in Ha.
  destruct (String.ltb (id a) (id b)) eqn:E; [done|]. exfalso. apply Hni.
  rewrite (string_ltb_total _ _ E (Ha b Hb)). by apply list_elem_of_fmap_2.
Qed.

(** The merged list has one session per chat, in the order of the chat
    ids: the local one of a chat where there is one, otherwise the row another
    device wrote; this device's own rows are never shown. *)
Theorem merged_sessions device rows local :
  let merged := merge_sessions device rows local in
  StronglySorted (fun a b => String.ltb (se_chat_id a) (se_chat_id b) = true) merged /\
  forall s, s ∈ merged <->
    match last_of (se_chat_id s) local with
    | Some l => l = s
    | None => last_of (se_chat_id s) (filter (fun s => se_device_id s <> device) rows) = Some s
    end.
Proof.
  unfold merge_sessions. set (m := foldl _ _ local).
  assert (forall chat, m !! chat = match last_of chat local with Some s => Some s | None =>
    last_of chat (filter (fun s => se_device_id s <> device) rows) end) as Hm.
  { intros chat. unfold m. rewrite !lookup_fold_sessions. repeat case_match; try done. }
  assert (forall chat s, m !! chat = Some s -> se_chat_id s = chat) as Hid.
  { intros chat s. rewrite Hm. destruct (last_of chat local) eqn:E; intros H; simplify_eq; by eapply last_of_id. }
  assert (forall s, s ∈ snd <$> map_to_list m <-> m !! se_chat_id s = Some s) as Hin.
  { intros s. rewrite list_elem_of_fmap. split.
    - intros ([c t] & -> & H%elem_of_map_to_list). cbn. by rewrite (Hid _ _ H).
    - intros H. exists (se_chat_id s, s). split; [done|]. by apply elem_of_map_to_list. }
  assert (NoDup (se_chat_id <$> (snd <$> map_to_list m))) as Hnd.
  { assert (se_chat_id <$> (snd <$> map_to_list m) = fst <$> map_to_list m) as ->.
    { rewrite <- list_fmap_compose. apply list_fmap_ext. intros i [c s] H. cbn.
      apply Hid. apply elem_of_map_to_list. by eapply list_elem_of_lookup_2. }
    apply NoDup_fst_map_to_list. }
  split.
  - by apply sort_by_id_strict.
  - intros s. unfold sort_by_id. rewrite merge_sort_Permutation, Hin, Hm.
    destruct (last_of (se_chat_id s) local); [|done]. naive_solver.
Qed.

(** ** The rest of the surface *)

(** Creating a chat: a known one is left as it is, an unknown space and a
    missing host are errors that write nothing, and otherwise the chat reads
    back on the host its space, or the caller, names. *)
Lemma create_chat_outcome {CL : ChronoLaws C} {KL : ConfigCodecLaws K} now at_ chat_id space_id device_id config cwd h :
  match get_chat (wh_reg h) chat_id with
  | Some _ => create_chat now at_ chat_id space_id device_id config cwd h = (inr tt, h)
  | None =>
      match space_id, space_id ≫= get_space (wh_reg h), device_id with
      | Some _, None, _ => create_chat now at_ chat_id space_id device_id config cwd h = (inl NoSuchSpace, h)
      | None, None, None => create_chat now at_ chat_id space_id device_id config cwd h = (inl NeedsSpaceOrDevice, h)
      | _, space, _ =>
          is_Some (from_option config_to_value (Some Null) config) ->
          beats (fresh_hlc (wh_reg h) now) (overlay_raw (wh_reg h) KIND_CHATS chat_id) = true ->
          exists h', create_chat now at_ chat_id space_id device_id config cwd h = (inr tt, h') /\
            get_chat (wh_reg h') chat_id = Some (mk_chat chat_id
              (match space with Some s => sp_device_id s | None => default "" device_id end) None false
              (Some (default (from_option sp_path "~" space) cwd)) None None config None None (round_ms at_)
              None None (sp_id <$> space) None (Some 2))
      end
  end.
Proof.
  destruct (get_chat (wh_reg h) chat_id) eqn:Eg; [unfold create_chat; by rewrite Eg|].
  assert (forall chat, ch_id chat = chat_id -> ch_config chat = config -> ch_room_gen chat = Some 2 ->
    is_Some (from_option config_to_value (Some Null) config) ->
    beats (fresh_hlc (wh_reg h) now) (overlay_raw (wh_reg h) KIND_CHATS chat_id) = true ->
    exists h', mutate (try_write (fun d => upsert_chat d now chat)) h = (true, h') /\
      get_chat (wh_reg h') chat_id = Some (round_chat chat)) as Hw.
  { intros chat Hid Hc Hg [v Hv] Hb. assert (chat_config_value chat = Some v) as Hcv.
    { unfold chat_config_value. rewrite Hc. by destruct config. }
    assert (is_Some (upsert_chat (wh_reg h) now chat)) as [d' Hd] by (unfold upsert_chat; by rewrite Hcv).
    unfold mutate, try_write. rewrite Hd. eexists. split; [done|].
    assert (get_chat d' (ch_id chat) = Some (round_chat chat)) as <-
      by (apply (upsert_chat_roundtrip (wh_reg h) now); [done|by rewrite Hid|by rewrite Hg]).
    rewrite Hid. by destruct (wh_room _). }
  unfold create_chat. rewrite Eg.
  destruct space_id as [sid|]; cbn [mbind option_bind]; [destruct (get_space (wh_reg h) sid) as [s|]|];
    destruct device_id as [dev|]; try done; intros Hcfg Hb;
    match goal with |- context [try_write (fun d => upsert_chat d now ?c)] =>
      destruct (Hw c eq_refl eq_refl eq_refl Hcfg Hb) as (h' & -> & Hg) end; by eexists.
Qed.

(** A git stamp on a space of another device, or on none, writes nothing. *)
Lemma set_space_git_owner_only now at_ space_id detected checkout h :
  from_option sp_device_id "" (get_space (wh_reg h) space_id) <> wh_device h ->
  set_space_git now at_ space_id detected checkout h = (false, h).
Proof.
  unfold set_space_git. destruct (get_space (wh_reg h) space_id) as [s|]; [|done]. cbn. intros Hne.
  by rewrite (proj2 (String.eqb_neq _ _) Hne).
Qed.

(** The device row after a boot, and the snapshot it leaves. *)
Lemma open_registers_device {CL : ChronoLaws C} config version disk snapshot legacy seed_now now at_ d h :
  load_registry (wc_device_id config) snapshot legacy seed_now = inr d ->
  open config version disk snapshot legacy seed_now now at_ = inr h ->
  beats (fresh_hlc d now) (overlay_raw d KIND_DEVICES (wc_device_id config)) = true ->
  let dv := boot_device config version at_ d in
  (exists r, overlay_row (wh_reg h) KIND_DEVICES (wc_device_id config) = Some r /\
     device_from <$> raw_device_of (row_fields r) =
       Some (mk_device (dev_id dv) (dev_name dv) (dev_platform dv) (round_ms <$> dev_last_seen_at dv)
               (round_ms <$> dev_created_at dv) (dev_version dv))) /\
  (disk = true -> forall bytes, to_bytes (wh_reg h) = inr bytes -> wh_saved h = Some bytes).
Proof.
  intros Hl Ho Hb dv. unfold open in Ho. rewrite Hl in Ho. cbn zeta in Ho. fold dv in Ho.
  assert (h = save_snapshot disk (mk_host config (upsert_device d now dv) (read_all (upsert_device d now dv)) None
    false ∅ false watch_default 0 [] [] snapshot None)) as -> by congruence. clear Ho.
  assert (dev_id dv = wc_device_id config) as Hid by done. clearbody dv. rewrite <- Hid in *. set (host := mk_host _ _ _ _ _ _ _ _ _ _ _ _ _).
  destruct (save_snapshot_frame disk host) as (_ & _ & ->). split.
  - destruct (overlay_upsert d now KIND_DEVICES (dev_id dv) (device_fields dv) Hb) as (r & Hr & Hf).
    exists r. split; [exact Hr|].
    assert (forall k w, find_last k [("id", Str (dev_id dv)); ("name", Str (dev_name dv));
          ("platform", Str (dev_platform dv)); ("lastSeenAt", opt_ms (dev_last_seen_at dv));
          ("createdAt", opt_ms (dev_created_at dv)); ("version", opt_str (dev_version dv))] = Some w ->
      row_fields r !! k = if is_null w then None else Some w) as Hk.
    { intros k w H. rewrite Hf. unfold merged_fields, device_fields. by rewrite lookup_fields, H. }
    unfold raw_device_of, de_req.
    rewrite (Hk "id" _ eq_refl), (Hk "name" _ eq_refl), (Hk "platform" _ eq_refl),
      (de_opt_ms _ _ _ (Hk "lastSeenAt" _ eq_refl)), (de_opt_ms _ _ _ (Hk "createdAt" _ eq_refl)),
      (de_opt_str _ _ _ (Hk "version" _ eq_refl)).
    cbn. unfold device_from. cbn. by rewrite <- !option_fmap_compose.
  - intros -> bytes. unfold save_snapshot. change (wh_reg host) with (upsert_device d now dv).
    by intros ->.
Qed.

(** ** Behaviour worth knowing *)

(** [set_chat_host] writes the whole chat it read: a rename that comes between
    its read and its write is undone, under a newer clock. *)
Lemma rehome_reverts_rename {CL : ChronoLaws C} {KL : ConfigCodecLaws K} now now2 chat_id title device chat h :
  get_chat (wh_reg h) chat_id = Some chat -> ch_id chat = chat_id ->
  from_option (fun z => 0 <= z < 2 ^ 32) True (ch_room_gen chat) ->
  is_Some (chat_config_value chat) ->
  let h1 := (rename_chat now chat_id title h).2 in
  beats (fresh_hlc (wh_reg h1) now2) (overlay_raw (wh_reg h1) KIND_CHATS chat_id) = true ->
  exists h2, write_chat now2 (with_host chat device) h1 = (Some true, h2) /\
    get_chat (wh_reg h2) chat_id = Some (round_chat (with_host chat device)) /\
    ch_title (round_chat (with_host chat device)) = ch_title chat.
Proof.
  intros Hc Hid Hg [v Hv] h1 Hb.
  assert (is_Some (upsert_chat (wh_reg h1) now2 (with_host chat device))) as [d' Hd].
  { unfold upsert_chat, chat_config_value in *. cbn. by rewrite Hv. }
  unfold write_chat, mutate, try_write. rewrite Hd. eexists. split; [done|]. split; [|done].
  assert (get_chat d' chat_id = Some (round_chat (with_host chat device))) as <-.
  { rewrite <- Hid in *. by apply (upsert_chat_roundtrip (wh_reg h1) now2 (with_host chat device)). }
  by destruct (wh_room _).
Qed.

(** A snapshot that could not be written is not tried again until the registry
    changes once more. *)
Lemma failed_save_is_not_retried h :
  wh_save_at (on_save_deadline false h) = None /\ wh_saved (on_save_deadline false h) = wh_saved h.
Proof. unfold on_save_deadline, save_snapshot. by destruct (to_bytes _). Qed.

(** The first change arms the save a second ahead and later ones leave it. *)
Lemma save_is_debounced now instant h :
  wh_save_at (on_changed now instant h) =
    Some (default (instant + SNAPSHOT_DEBOUNCE_MS) (wh_save_at h)).
Proof.
  unfold on_changed. assert (wh_save_at (publish now (with_unseen h false)) = wh_save_at h) as E.
  { unfold publish, overlay_presence. destruct (overlay_loop _ _ _ _ _) as [out acc]. cbn.
    destruct (wh_room h); [destruct (check_presence_deafness _ _ _)|]; cbn; by destruct (wh_hooked h). }
  rewrite E. destruct (wh_save_at h) eqn:E'; [by rewrite E|done].
Qed.

End Host.

(** ** Witnesses *)

Definition ws_config : WorkspaceHostConfig := mk_ws_config "dev-a" "laptop" "linux" true.

Definition ws_host : WorkspaceHost :=
  match open ws_config "1.0" true None None (fun _ => 1000) (fun _ => 1000) 1000 with
  | inr h => h
  | inl _ => mk_host ws_config (registry_new "dev-a") (read_all (registry_new "dev-a")) None false ∅ false
               watch_default 0 [] [] None None
  end.

(** A peer's row, its room, and its beat. *)
Definition ws_with_peer : WorkspaceHost :=
  with_reg ws_host (upsert_device (wh_reg ws_host) (fun _ => 1001)
    (mk_device "dev-b" "desk" "linux" (Some 500) None None)).

Definition ws_room : RoomView := mk_room true {[ "dev-b" := 2000 ]}.

Definition ws_joined : list HostEvent := [EvRegistry (wh_reg ws_with_peer); EvJoined false 2100 ws_room].

Lemma presence_is_kept_witness :
  let h2 := host_run (publish 2200 (host_run ws_host ws_joined)) [EvLeft; EvInterval 9000] in
  (forall t', saturating_sub t' 2000 < DIAL_GATE_DARK_MS -> peer_liveness t' h2 "dev-b" <> Dark) /\
  dev_last_seen_at <$> find_device (ws_devices (wh_published (publish 9100 h2))) "dev-b" = Some (Some 2000).
Proof.
  cbv zeta. split; [|by vm_compute].
  destruct (presence_is_kept (C := millis_chrono) ws_host ws_joined 2200 [EvLeft; EvInterval 9000] 9100) as [_ H].
  - by vm_compute.
  - by vm_compute.
  - destruct (H "dev-b" 2000) as [H1 _].
    + by vm_compute.
    + assert (dev_id <$> read_devices (wh_reg (host_run ws_host ws_joined)) = ["dev-a"; "dev-b"]) as ->
        by by vm_compute.
      right. left.
    + intros t' Ht. by apply list_elem_of_In in Ht.
    + assert (heard (ws_joined ++ [EvLeft; EvInterval 9000]) = [("dev-b", 2000)]) as -> by by vm_compute.
      intros m [= ->]%list_elem_of_singleton. by eexists.
    + exact H1.
Defined.

Lemma tripwire_ladder_witness :
  (tripwire (mk_watch true 0 false) (dark [10000; 25000; 70001; 85000])).1 = [ProbeNow; RedialNow].
Proof.
  pose proof (tripwire_ladder watch_default 1 5000 [10000; 25000; 70001; 85000] []) as H.
  cbn in H. apply H; [lia|]. by repeat constructor.
Defined.

Definition ws_hooked : WorkspaceHost := set_peer_alive_hook (host_run ws_host ws_joined).

Lemma revived_peer_is_dialed_witness :
  let k := Relay.mk_cache false ∅ {[ "dev-b" := mk_dial 3 (Some 0) (Some 99999) ]} in
  cooling "dev-b" 2200 k = true /\
  exists called, wh_alive (publish 2200 ws_hooked) = called /\ "dev-b" ∈ called.
Proof.
  cbv zeta. split; [by vm_compute|].
  edestruct (revived_peer_is_dialed (C := millis_chrono) 2200 ws_hooked "dev-b" 2000 (mk_cache_config 1 1) ∅ [None]
    false 0 (Relay.mk_cache false ∅ {[ "dev-b" := mk_dial 3 (Some 0) (Some 99999) ]})) as (called & H1 & H2 & _).
  1-3: by vm_compute.
  - done.
  - assert (dev_id <$> read_devices (wh_reg ws_hooked) = ["dev-a"; "dev-b"]) as -> by by vm_compute.
    right. left.
  - done.
  - done.
  - exists called. split; [exact H1|exact H2].
Defined.

Lemma ws_host_rows kind i :
  overlay_raw (wh_reg ws_host) kind i = None \/ (kind, i) = (KIND_DEVICES, "dev-a").
Proof.
  rewrite overlay_raw_ops. assert (exists op, pending_ops (wh_reg ws_host) = [op] /\
    op_kind op = KIND_DEVICES /\ op_id op = "dev-a") as (op & -> & Hk & Hi) by by eexists.
  destruct (decide (kind = KIND_DEVICES /\ i = "dev-a")) as [[-> ->]|H1]; [by right|].
  left. rewrite foldl_overlay_none; [done|].
  intros op' ->%list_elem_of_singleton [Hk' Hi']. naive_solver congruence.
Qed.

Lemma claim_lands_in_one_space_witness :
  let h' := claim_chat (fun _ => Some "/repo") (fun _ => 2000) (fun _ => 2000) 2000 "sp-1" "c1"
              (Some "/repo/wt") ws_host in
  is_host h' "c1" = true /\ sp_path <$> read_spaces (wh_reg h') = ["/repo"].
Proof.
  cbv zeta. split; [|by vm_compute].
  assert (forall i, overlay_raw (wh_reg ws_host) KIND_SPACES i = None) as Hn.
  { intros i. destruct (ws_host_rows KIND_SPACES i) as [E|[=]]. exact E. }
  assert (forall id s, ~ space_row (wh_reg ws_host) id s) as Hnone.
  { intros id s (r & raw & Hr & _). unfold overlay_row in Hr. by rewrite Hn in Hr. }
  edestruct (claim_lands_in_one_space (C := millis_chrono) (fun _ => Some "/repo") (fun _ => 2000) (fun _ => 2000)
    2000 "sp-1" "c1" (Some "/repo/wt") ws_host) as (_ & H & _).
  - intros id1 id2 s1 s2 H1. by destruct (Hnone _ _ H1).
  - intros id s H1. by destruct (Hnone _ _ H1).
  - apply Hn.
  - destruct (ws_host_rows KIND_CHATS "c1") as [E|[=]]. exact E.
  - done.
  - exact H.
Defined.

Lemma late_create_fills_claim_witness :
  exists claim create r,
    run_ops None [claim; create] = Some r /\ run_ops None [create; claim] = Some r /\
    row_fields r !! "title" = Some (Str "plan") /\ row_fields r !! "deviceId" = Some (Str "dev-a") /\
    chat_from <$> raw_chat_of (row_fields r) =
      Some (round_chat (claim_of_created "dev-a" (Some "/w2") None 2000 sample_chat)) /\
    op_op claim = Upsert /\ op_op create = Upsert.
Proof.
  set (dc := registry_new "dev-b").
  assert (exists dc', upsert_chat dc (fun _ => 1000) sample_chat = Some dc') as [dc' Hdc] by by eexists.
  destruct (late_create_fills_claim (C := millis_chrono) (registry_new "dev-a") (fun _ => 2000) dc (fun _ => 1000)
    (Some "/w2") None 2000 sample_chat dc' Hdc) as (claim & create & r & Hc & Hk & H1 & H2 & _ & H3).
  - done.
  - by vm_compute.
  - exists claim, create, r.
    assert (claim = mk_op KIND_CHATS "c1" Upsert (Some (claim_fields "dev-a" "c1" (Some "/w2") None 2000))
      (fresh_hlc (registry_new "dev-a") (fun _ => 2000)) None) as Ec
      by (unfold RegistryApi.claim_chat in Hc; rewrite pending_ops_write in Hc; by apply app_inj_tail in Hc as [_ <-]).
    assert (create = mk_op KIND_CHATS "c1" Upsert (Some (chat_fields sample_chat (Str "cfg")))
      (fresh_hlc dc (fun _ => 1000)) None) as Ek.
    { injection Hdc as <-. rewrite pending_ops_write in Hk. by apply app_inj_tail in Hk as [_ <-]. }
    assert (row_fields (default (tombstone "" "" "") (Some r)) !! "title" = Some (Str "plan") /\
      row_fields (default (tombstone "" "" "") (Some r)) !! "deviceId" = Some (Str "dev-a")) as [Ht Hd].
    { rewrite <- H1, Ec, Ek. split; by vm_compute. }
    split; [exact H1|]. split; [exact H2|]. split; [exact Ht|]. split; [exact Hd|]. split; [exact H3|].
    by rewrite Ec, Ek.
Defined.

(** A peer's stamp is its own clock's: a peer whose clock is five minutes slow
    reads as dark while it beats, until its relay is asked. *)
Lemma slow_clock_reads_dark :
  let now := 1000000 in
  let room := mk_room true {[ "dev-b" := now - DIAL_GATE_DARK_MS ]} in
  let h := host_run ws_with_peer [EvJoined false now room; EvInterval now] in
  peer_liveness now h "dev-b" = Dark /\
  peer_liveness now (host_step h (EvRelay [("dev-b", now)] now)) "dev-b" = Live.
Proof. by vm_compute. Qed.

(** A local status hides the row of the device a chat moved to. *)
Lemma local_shadows_rehomed :
  let mk := fun device status => mk_session "c1" device status None 0 None in
  se_status <$> merge_sessions "dev-a" [mk "dev-b" Working] [mk "dev-a" Idle] = [Idle].
Proof. by vm_compute. Qed.
