(* ===== verification/JsonRpc.v ===== *)
(** The JSON-RPC client over a harness child's stdio: crates/harness/src/jsonrpc.rs.
    Requests wait in a map by id; the reader resolves them and forwards every
    other message in order. A line is the text read from the child; what the
    client writes is kept as the values its lines denote. *)
From S2P Require Import Prelude Json Text Journal Samples.

Inductive Incoming :=
  | INotification (method : string) (params : Value)
  | IRequest (id : Value) (method : string) (params : Value)
  | IEof.

(** ** Ids of responses *)

(** The integer a finite [f64] with these bits is, when it is one. *)
Definition f64_integer (bits : Z) : option Z :=
  let e := Z.land (Z.shiftr bits 52) 2047 in
  let m := Z.land bits (2 ^ 52 - 1) in
  let sign := if Z.testbit bits 63 then -1 else 1 in
  if e =? 2047 then None
  else if e =? 0 then (if m =? 0 then Some 0 else None)
  else
    let m := m + 2 ^ 52 in
    let s := e - 1075 in
    if 0 <=? s then Some (sign * (m * 2 ^ s))
    else if m mod 2 ^ (- s) =? 0 then Some (sign * (m / 2 ^ (- s)))
    else None.

(** [as i64] saturates. *)
Definition clamp_i64 (z : Z) : Z := Z.max I64_MIN (Z.min I64_MAX z).

(** [str::parse::<i64>]. *)
Definition parse_i64 (s : string) : option Z :=
  let '(sign, digits) :=
    match strip_prefix "-" s with
    | Some d => (-1, d)
    | None => (1, default s (strip_prefix "+" s))
    end in
  if String.eqb digits "" then None
  else
    n ← parse_digits 0 digits;
    let z := sign * Z.of_N n in
    if (I64_MIN <=? z) && (z <=? I64_MAX) then Some z else None.

(** [response_id]: an integer above [i64] is read as the nearest float. *)
Definition response_id (id : Value) : option Z :=
  match as_i64 id, id with
  | Some n, _ => Some n
  | None, Str s => parse_i64 s
  | None, Int z => Some (clamp_i64 z)
  | None, Float bits => clamp_i64 <$> f64_integer bits
  | None, _ => None
  end.

(** ** The client *)

(** [rc_answers]: what each request was resolved with, oldest first, and
    [rc_forwarded] what the session loop was sent. [rc_open]: the writer task
    still takes lines; [rc_reading]: the reader still reads; [rc_listening]: the
    session loop still holds the channel the reader sends into. *)
Record RpcClient := mk_rpc_client {
  rc_next_id : Z;
  rc_pending : gset Z;
  rc_written : list Value;
  rc_open : bool;
  rc_answers : list (Z * (string + Value));
  rc_forwarded : list Incoming;
  rc_reading : bool;
  rc_listening : bool;
}.

Definition rpc_client_new : RpcClient := mk_rpc_client 0 ∅ [] true [] [] true true.

Definition set_pending (c : RpcClient) (p : gset Z) (answers : list (Z * (string + Value))) : RpcClient :=
  mk_rpc_client (rc_next_id c) p (rc_written c) (rc_open c) (rc_answers c ++ answers) (rc_forwarded c) (rc_reading c)
    (rc_listening c).

Definition write_value (v : Value) (c : RpcClient) : RpcClient :=
  if rc_open c then
    mk_rpc_client (rc_next_id c) (rc_pending c) (rc_written c ++ [v]) (rc_open c) (rc_answers c) (rc_forwarded c)
      (rc_reading c) (rc_listening c)
  else c.

Definition request_value (id : Z) (method : string) (params : Value) : Value :=
  Object [("id", Int id); ("jsonrpc", Str "2.0"); ("method", Str method); ("params", params)].

(** [request] up to its wait. *)
Definition rpc_request (method : string) (params : Value) (c : RpcClient) : RpcClient :=
  let id := rc_next_id c + 1 in
  let c := mk_rpc_client id (rc_pending c ∪ {[ id ]}) (rc_written c) (rc_open c) (rc_answers c) (rc_forwarded c)
             (rc_reading c) (rc_listening c) in
  if rc_open c then write_value (request_value id method params) c
  else set_pending c (rc_pending c ∖ {[ id ]}) [(id, inl "app-server stdin closed")].

Definition rpc_notify (method : string) (params : option Value) (c : RpcClient) : RpcClient :=
  write_value (Object ([("jsonrpc", Str "2.0"); ("method", Str method)] ++
                       match params with Some p => [("params", p)] | None => [] end)) c.

Definition rpc_respond (id result : Value) (c : RpcClient) : RpcClient :=
  write_value (Object [("id", id); ("jsonrpc", Str "2.0"); ("result", result)]) c.

Definition rpc_respond_error (id : Value) (code : Z) (message : string) (c : RpcClient) : RpcClient :=
  write_value (Object [("error", Object [("code", Int code); ("message", Str message)]); ("id", id);
                       ("jsonrpc", Str "2.0")]) c.

(** [write_loop]: a failed write ends it, and the lines behind it are dropped. *)
Definition write_failed (c : RpcClient) : RpcClient :=
  mk_rpc_client (rc_next_id c) (rc_pending c) (rc_written c) false (rc_answers c) (rc_forwarded c) (rc_reading c)
    (rc_listening c).

(** The reader's [tx.send]: it gives up when nobody listens. *)
Definition forward (i : Incoming) (c : RpcClient) : RpcClient :=
  if rc_listening c then
    mk_rpc_client (rc_next_id c) (rc_pending c) (rc_written c) (rc_open c) (rc_answers c) (rc_forwarded c ++ [i])
      (rc_reading c) true
  else
    mk_rpc_client (rc_next_id c) (rc_pending c) (rc_written c) (rc_open c) (rc_answers c) (rc_forwarded c)
      false false.

Definition drop_incoming (c : RpcClient) : RpcClient :=
  mk_rpc_client (rc_next_id c) (rc_pending c) (rc_written c) (rc_open c) (rc_answers c) (rc_forwarded c)
    (rc_reading c) false.

(** What [request] returns, and when: the message of an error names the method. *)
Definition rpc_answer (id : Z) (c : RpcClient) : option (string + Value) :=
  snd <$> List.find (fun a => a.1 =? id) (rc_answers c).

Definition protocol_error (method message : string) : string :=
  "harness protocol error: " +:+ method +:+ ": " +:+ message.

Section Reader.
Context {J : JsonText}.

Definition response_outcome (msg : Value) : string + Value :=
  match obj_get msg "error" with
  | Some err => inl (default (to_text err) (obj_get err "message" ≫= as_str))
  | None => inr (default Null (obj_get msg "result"))
  end.

(** One message of [read_loop]. *)
Definition rpc_message (msg : Value) (c : RpcClient) : RpcClient :=
  match obj_get msg "method" ≫= as_str, obj_get msg "id" with
  | None, Some id =>
      match response_id id with
      | Some n =>
          if decide (n ∈ rc_pending c)
          then set_pending c (rc_pending c ∖ {[ n ]}) [(n, response_outcome msg)]
          else c
      | None => c
      end
  | Some method, Some id => forward (IRequest id method (default Null (obj_get msg "params"))) c
  | Some method, None => forward (INotification method (default Null (obj_get msg "params"))) c
  | None, None => c
  end.

Definition rpc_line (line : string) (c : RpcClient) : RpcClient :=
  let line := trim line in
  if String.eqb line "" then c
  else match from_text line with Some msg => rpc_message msg c | None => c end.

(** The end of [read_loop]: every waiting request fails; [request] reports it. *)
Definition rpc_eof (c : RpcClient) : RpcClient :=
  let failed := (fun id => (id, inl "app-server exited before responding")) <$> elements (rc_pending c) in
  let c := set_pending c ∅ failed in
  let c := forward IEof c in
  mk_rpc_client (rc_next_id c) (rc_pending c) (rc_written c) (rc_open c) (rc_answers c) (rc_forwarded c) false
    (rc_listening c).

Inductive RpcStep :=
  | RRequest (method : string) (params : Value)
  | RLine (line : string)
  | REof
  | RWriteFailed
  | RDropIncoming.

(** [None]: the reader is gone. *)
Definition rpc_step (c : RpcClient) (s : RpcStep) : option RpcClient :=
  match s with
  | RRequest method params => Some (rpc_request method params c)
  | RLine line => if rc_reading c then Some (rpc_line line c) else None
  | REof => if rc_reading c then Some (rpc_eof c) else None
  | RWriteFailed => Some (write_failed c)
  | RDropIncoming => Some (drop_incoming c)
  end.

Definition rpc_run (ss : list RpcStep) (c : RpcClient) : RpcClient :=
  foldl (fun c s => default c (rpc_step c s)) c ss.

(** ** Every request is resolved once, by its own response *)

Record rpc_ok (c : RpcClient) : Prop := {
  ro_next : 0 <= rc_next_id c;
  ro_ids : forall id, id ∈ rc_pending c \/ id ∈ (rc_answers c).*1 -> 0 < id <= rc_next_id c;
  ro_all : forall id, 0 < id <= rc_next_id c -> id ∈ rc_pending c \/ id ∈ (rc_answers c).*1;
  ro_once : NoDup (rc_answers c).*1;
  ro_apart : forall id, id ∈ rc_pending c -> id ∉ (rc_answers c).*1;
}.

Lemma rpc_new_ok : rpc_ok rpc_client_new.
Proof. split; cbn; [lia|intros id [H|H]; set_solver|lia|constructor|set_solver]. Qed.

Lemma rpc_ok_same c c' :
  rc_next_id c' = rc_next_id c -> rc_pending c' = rc_pending c -> rc_answers c' = rc_answers c ->
  rpc_ok c -> rpc_ok c'.
Proof. intros E1 E2 E3 [H0 H1 H2 H3 H4]. split; rewrite ?E1, ?E2, ?E3; done. Qed.

(** Resolving a set of waiting requests. *)
Lemma rpc_ok_resolve c (ids : list Z) (f : Z -> string + Value) :
  NoDup ids -> (forall id, id ∈ ids -> id ∈ rc_pending c) -> rpc_ok c ->
  rpc_ok (set_pending c (rc_pending c ∖ list_to_set ids) ((fun id => (id, f id)) <$> ids)).
Proof.
  intros Hnd Hin [H0 H1 H2 H3 H4].
  assert (((fun id => (id, f id)) <$> ids).*1 = ids) as E.
  { rewrite <- list_fmap_compose. by rewrite list_fmap_id. }
  split; unfold set_pending; cbn; intros *; rewrite ?fmap_app, ?E.
  - done.
  - rewrite elem_of_app. set_solver.
  - intros Hid. rewrite elem_of_app, elem_of_difference, elem_of_list_to_set.
    destruct (decide (id ∈ ids)); [auto|]. destruct (H2 id Hid); auto.
  - apply NoDup_app. split; [done|]. split; [|done]. intros id Ha Hi. by apply (H4 id (Hin _ Hi)).
  - rewrite elem_of_difference, elem_of_list_to_set, elem_of_app. intros [Hp Hn] [Ha|Ha]; [by apply (H4 id)|done].
Qed.

Lemma forward_same i c :
  rc_next_id (forward i c) = rc_next_id c /\ rc_pending (forward i c) = rc_pending c /\
  rc_answers (forward i c) = rc_answers c.
Proof. unfold forward. by destruct (rc_listening c). Qed.

Lemma rpc_ok_forward i c : rpc_ok c -> rpc_ok (forward i c).
Proof. destruct (forward_same i c) as (?&?&?). by apply rpc_ok_same. Qed.

Lemma write_value_same v c :
  rc_next_id (write_value v c) = rc_next_id c /\ rc_pending (write_value v c) = rc_pending c /\
  rc_answers (write_value v c) = rc_answers c /\ rc_reading (write_value v c) = rc_reading c.
Proof. unfold write_value. by destruct (rc_open c). Qed.

Lemma rpc_ok_issue c :
  rpc_ok c ->
  rpc_ok (mk_rpc_client (rc_next_id c + 1) (rc_pending c ∪ {[ rc_next_id c + 1 ]}) (rc_written c) (rc_open c)
            (rc_answers c) (rc_forwarded c) (rc_reading c) (rc_listening c)).
Proof.
  intros [H0 H1 H2 H3 H4]. split; cbn.
  - lia.
  - intros id [Hp|Ha]; [apply elem_of_union in Hp as [Hp| ->%elem_of_singleton]|].
    + pose proof (H1 id (or_introl Hp)). lia.
    + lia.
    + pose proof (H1 id (or_intror Ha)). lia.
  - intros id Hid. rewrite elem_of_union, elem_of_singleton. destruct (decide (id = rc_next_id c + 1)); [auto|].
    destruct (H2 id ltac:(lia)); auto.
  - done.
  - intros id [Hp| ->%elem_of_singleton]%elem_of_union; [by apply H4|]. intros Ha. pose proof (H1 _ (or_intror Ha)). lia.
Qed.

Lemma rpc_message_ok msg c : rpc_ok c -> rpc_ok (rpc_message msg c).
Proof.
  intros H. unfold rpc_message. destruct (_ ≫= as_str) as [m|], (obj_get msg "id") as [id|];
    try done; try by apply rpc_ok_forward.
  destruct (response_id id) as [n|]; [|done]. case_decide as Hn; [|done].
  pose proof (rpc_ok_resolve c [n] (fun _ => response_outcome msg)) as Hr. cbn in Hr.
  rewrite union_empty_r_L in Hr. apply Hr; [apply NoDup_singleton|set_solver|done].
Qed.

Lemma rpc_line_ok line c : rpc_ok c -> rpc_ok (rpc_line line c).
Proof.
  intros H. unfold rpc_line. destruct (String.eqb _ _); [done|]. destruct (from_text _); [|done].
  by apply rpc_message_ok.
Qed.

Lemma rpc_request_ok method params c : rpc_ok c -> rpc_ok (rpc_request method params c).
Proof.
  intros H%rpc_ok_issue. unfold rpc_request. cbn [rc_open]. destruct (rc_open c) eqn:E.
  - eapply rpc_ok_same; [..|exact H]; by destruct (write_value_same (request_value (rc_next_id c + 1) method params)
      (mk_rpc_client (rc_next_id c + 1) (rc_pending c ∪ {[ rc_next_id c + 1 ]}) (rc_written c) true
         (rc_answers c) (rc_forwarded c) (rc_reading c) (rc_listening c))) as (?&?&?&?).
  - eapply (rpc_ok_resolve _ [rc_next_id c + 1] (fun _ => inl "app-server stdin closed")) in H as Hr;
      [|apply NoDup_singleton|cbn; set_solver].
    cbn in Hr. rewrite union_empty_r_L in Hr. exact Hr.
Qed.

Lemma rpc_eof_same c :
  rc_next_id (rpc_eof c) = rc_next_id c /\ rc_pending (rpc_eof c) = ∅ /\
  rc_answers (rpc_eof c) =
    rc_answers c ++ ((fun id => (id, inl "app-server exited before responding")) <$> elements (rc_pending c)).
Proof. unfold rpc_eof, forward. by destruct (rc_listening c) eqn:E; cbn; rewrite ?E. Qed.

Lemma rpc_eof_ok c : rpc_ok c -> rpc_ok (rpc_eof c).
Proof.
  intros H. destruct (rpc_eof_same c) as (E1 & E2 & E3).
  pose proof (rpc_ok_resolve c (elements (rc_pending c)) (fun _ => inl "app-server exited before responding")
    (NoDup_elements _) ltac:(set_solver) H) as Hr.
  eapply rpc_ok_same; [..|exact Hr]; rewrite ?E1, ?E2, ?E3; cbn; try done. set_solver.
Qed.

Lemma rpc_step_ok c s c' : rpc_ok c -> rpc_step c s = Some c' -> rpc_ok c'.
Proof.
  intros H. destruct s as [method params|line| | |]; cbn; [|destruct (rc_reading c)..| |]; intros [= <-].
  - by apply rpc_request_ok.
  - by apply rpc_line_ok.
  - by apply rpc_eof_ok.
  - by eapply rpc_ok_same; [..|exact H].
  - by eapply rpc_ok_same; [..|exact H].
Qed.

Lemma rpc_run_ok ss : forall c, rpc_ok c -> rpc_ok (rpc_run ss c).
Proof.
  induction ss as [|s ss IH]; intros c H; [done|]. cbn. apply IH.
  destruct (rpc_step c s) as [c'|] eqn:E; [|done]. by eapply rpc_step_ok.
Qed.

(** An answer the child sent, in one of these lines. *)
Definition answered_by (ss : list RpcStep) (id : Z) (a : Value) : Prop :=
  exists line msg w, RLine line ∈ ss /\ from_text (trim line) = Some msg /\
    obj_get msg "method" ≫= as_str = None /\ obj_get msg "id" = Some w /\ response_id w = Some id /\
    obj_get msg "error" = None /\ a = default Null (obj_get msg "result").

Lemma same_answers c c' ss :
  rc_answers c' = rc_answers c ->
  exists new, rc_answers c' = rc_answers c ++ new /\ forall id a, (id, inr a) ∈ new -> answered_by ss id a.
Proof. intros ->. exists []. rewrite app_nil_r. split; [done|set_solver]. Qed.

Lemma rpc_step_answers c s c' :
  rpc_step c s = Some c' ->
  exists new, rc_answers c' = rc_answers c ++ new /\ forall id a, (id, inr a) ∈ new -> answered_by [s] id a.
Proof.
  destruct s as [method params|line| | |]; cbn; [|destruct (rc_reading c)..| |]; intros [= <-]; try by apply same_answers.
  - unfold rpc_request. cbn [rc_open]. destruct (rc_open c) eqn:E.
    + apply same_answers. by destruct (write_value_same (request_value (rc_next_id c + 1) method params)
        (mk_rpc_client (rc_next_id c + 1) (rc_pending c ∪ {[ rc_next_id c + 1 ]}) (rc_written c) true
           (rc_answers c) (rc_forwarded c) (rc_reading c) (rc_listening c))) as (_ & _ & -> & _).
    + eexists. split; [done|]. intros id a [=]%list_elem_of_singleton.
  - unfold rpc_line. destruct (String.eqb _ _); [by apply same_answers|].
    destruct (from_text _) as [msg|] eqn:Em; [|by apply same_answers].
    unfold rpc_message. destruct (_ ≫= as_str) as [m|] eqn:Emt, (obj_get msg "id") as [w|] eqn:Ew;
      try (apply same_answers; by try apply forward_same).
    destruct (response_id w) as [n|] eqn:En; [|by apply same_answers].
    case_decide; [|by apply same_answers].
    eexists. split; [done|]. intros id a Hin%list_elem_of_singleton. unfold response_outcome in Hin.
    destruct (obj_get msg "error") eqn:Ee; [done|]. injection Hin as -> ->.
    exists line, msg, w. split_and!; try done. by apply list_elem_of_singleton.
  - destruct (rpc_eof_same c) as (_ & _ & ->). eexists. split; [done|].
    intros id a Hin. apply list_elem_of_fmap in Hin as (? & [=] & _).
Qed.

Lemma rpc_run_answers ss : forall c id a,
  (id, inr a) ∈ rc_answers (rpc_run ss c) -> (id, inr a) ∈ rc_answers c \/ answered_by ss id a.
Proof.
  assert (forall ss ss' id a, answered_by ss id a -> ss ⊆ ss' -> answered_by ss' id a) as Hmono.
  { intros l l' id a (line & msg & w & Hin & H) Hsub. exists line, msg, w. split; [by apply Hsub|done]. }
  induction ss as [|s ss IH]; intros c id a H; [by left|]. cbn in H. apply IH in H as [H|H].
  - destruct (rpc_step c s) as [c'|] eqn:E; [|by left]. destruct (rpc_step_answers _ _ _ E) as (new & En & Hn).
    cbn in H. rewrite En in H. apply elem_of_app in H as [H|H]; [by left|]. right. apply (Hmono [s]); [auto|set_solver].
  - right. apply (Hmono ss); [done|set_solver].
Qed.

Lemma run_keeps_answers ss : forall c id, id ∈ (rc_answers c).*1 -> id ∈ (rc_answers (rpc_run ss c)).*1.
Proof.
  induction ss as [|s ss IH]; intros c id H; [done|]. cbn. apply IH.
  destruct (rpc_step c s) as [c'|] eqn:E; [|done]. destruct (rpc_step_answers _ _ _ E) as (new & En & _).
  cbn. rewrite En, fmap_app. apply elem_of_app. by left.
Qed.

(** *** What only grows *)

Record grows (c c' : RpcClient) : Prop := {
  gr_written : exists l, rc_written c' = rc_written c ++ l;
  gr_answers : exists l, rc_answers c' = rc_answers c ++ l;
  gr_forwarded : exists l, rc_forwarded c' = rc_forwarded c ++ l;
  gr_open : rc_open c' = true -> rc_open c = true;
  gr_next : rc_next_id c <= rc_next_id c';
}.

#[export] Instance grows_preorder : PreOrder grows.
Proof.
  split.
  - intros c. split; try (by exists []; rewrite app_nil_r); [done|lia].
  - intros c1 c2 c3 [[w1 W1] [a1 A1] [f1 F1] O1 N1] [[w2 W2] [a2 A2] [f2 F2] O2 N2].
    split; [exists (w1 ++ w2)|exists (a1 ++ a2)|exists (f1 ++ f2)|auto|lia];
      by rewrite app_assoc, <- ?W1, <- ?A1, <- ?F1.
Qed.

Lemma grows_plain c c' :
  rc_written c' = rc_written c -> rc_answers c' = rc_answers c -> rc_forwarded c' = rc_forwarded c ->
  rc_open c' = rc_open c -> rc_next_id c <= rc_next_id c' -> grows c c'.
Proof. intros W A F O N. split; rewrite ?W, ?A, ?F, ?O; try (by exists []; rewrite app_nil_r); done. Qed.

Lemma grows_write v c : grows c (write_value v c).
Proof.
  unfold write_value. destruct (rc_open c) eqn:E; [|done].
  split; cbn; rewrite ?E; try (by exists []; rewrite app_nil_r); [by exists [v]|done|lia].
Qed.

Lemma grows_pending c p l : grows c (set_pending c p l).
Proof. split; cbn; try (by exists []; rewrite app_nil_r); [by exists l|done|lia]. Qed.

Lemma grows_forward i c : grows c (forward i c).
Proof.
  unfold forward. destruct (rc_listening c); [|by apply grows_plain].
  split; cbn; try (by exists []; rewrite app_nil_r); [by exists [i]|done|lia].
Qed.

Lemma grows_request method params c : grows c (rpc_request method params c).
Proof.
  unfold rpc_request. cbn [rc_open]. etrans; [apply (grows_plain c (mk_rpc_client (rc_next_id c + 1)
    (rc_pending c ∪ {[ rc_next_id c + 1 ]}) (rc_written c) (rc_open c) (rc_answers c) (rc_forwarded c) (rc_reading c)
    (rc_listening c))); cbn; try done; lia|]. destruct (rc_open c); [apply grows_write|apply grows_pending].
Qed.

Lemma grows_step c s c' : rpc_step c s = Some c' -> grows c c'.
Proof.
  destruct s as [method params|line| | |]; cbn; [|destruct (rc_reading c)..| |]; intros [= <-].
  - apply grows_request.
  - unfold rpc_line. destruct (String.eqb _ _); [done|]. destruct (from_text _) as [msg|]; [|done].
    unfold rpc_message. destruct (_ ≫= as_str), (obj_get msg "id") as [w|]; try done; try apply grows_forward.
    destruct (response_id w); [|done]. case_decide; [apply grows_pending|done].
  - unfold rpc_eof. etrans; [apply grows_pending|]. etrans; [apply (grows_forward IEof)|]. by apply grows_plain.
  - split; cbn; try (by exists []; rewrite app_nil_r); [done|lia].
  - by apply grows_plain.
Qed.

(** And stays in order. *)
Definition onward (c c' : RpcClient) : Prop := grows c c' /\ (rpc_ok c -> rpc_ok c').

#[export] Instance onward_preorder : PreOrder onward.
Proof. split; [by intros c|]. intros c1 c2 c3 [G1 O1] [G2 O2]. split; [by etrans|auto]. Qed.

Lemma onward_write v c : onward c (write_value v c).
Proof.
  split; [apply grows_write|]. destruct (write_value_same v c) as (?&?&?&?). by apply rpc_ok_same.
Qed.

Lemma onward_request method params c : onward c (rpc_request method params c).
Proof. split; [apply grows_request|apply rpc_request_ok]. Qed.

Lemma onward_step c s c' : rpc_step c s = Some c' -> onward c c'.
Proof. intros E. split; [by eapply grows_step|intros H; by eapply rpc_step_ok]. Qed.

Lemma onward_drop c : onward c (drop_incoming c).
Proof. split; [by apply grows_plain|by apply rpc_ok_same]. Qed.

(** The answer to a request never changes. *)
Lemma rpc_answer_grows c c' id out : grows c c' -> rpc_answer id c = Some out -> rpc_answer id c' = Some out.
Proof.
  intros [_ [l El] _ _ _] H. unfold rpc_answer in *. rewrite El.
  destruct (List.find _ (rc_answers c)) as [x|] eqn:E; [|done].
  assert (List.find (fun a => a.1 =? id) (rc_answers c ++ l) = Some x) as ->; [|done].
  clear El H. induction (rc_answers c) as [|y ys IH]; [done|]. cbn in *. destruct (y.1 =? id); [done|by apply IH].
Qed.

(** A request is written, or has failed already. *)
Definition asked (id : Z) (method : string) (params : Value) (c : RpcClient) : Prop :=
  request_value id method params ∈ rc_written c \/ exists m, (id, inl m) ∈ rc_answers c.

Lemma asked_grows id method params c c' : grows c c' -> asked id method params c -> asked id method params c'.
Proof.
  intros [[w W] [a A] _ _ _] [H|[m H]]; [left|right; exists m]; rewrite ?W, ?A; apply elem_of_app; by left.
Qed.

Lemma asked_request method params c :
  asked (rc_next_id (rpc_request method params c)) method params (rpc_request method params c).
Proof.
  unfold rpc_request, asked. cbn [rc_open]. destruct (rc_open c) eqn:E.
  - left. unfold write_value. cbn. apply elem_of_app. right. by apply list_elem_of_singleton.
  - right. eexists. cbn. apply elem_of_app. right. by apply list_elem_of_singleton.
Qed.

Lemma rpc_answer_elem id out c : rpc_answer id c = Some out -> (id, out) ∈ rc_answers c.
Proof.
  unfold rpc_answer. destruct (List.find _ (rc_answers c)) as [[i o]|] eqn:E; [|done]. cbn. intros [= <-].
  apply find_some in E as [Hin He]. cbn in He. apply Z.eqb_eq in He as <-. by apply list_elem_of_In.
Qed.

Lemma rpc_answer_once id out c : rpc_ok c -> (id, out) ∈ rc_answers c -> rpc_answer id c = Some out.
Proof.
  intros H Hin. pose proof (ro_once _ H) as Hnd. unfold rpc_answer. clear H.
  induction (rc_answers c) as [|[i o] l IH]; [by apply elem_of_nil in Hin|]. cbn in *.
  apply NoDup_cons in Hnd as [Hn Hnd]. apply elem_of_cons in Hin as [[= <- <-]|Hin]; [by rewrite Z.eqb_refl|].
  destruct (Z.eqb_spec i id) as [->|]; [|by apply IH]. destruct Hn. by apply (list_elem_of_fmap_2 fst) in Hin.
Qed.

(** Whatever requests, lines, write failures and ends come, a request of
    the client is resolved at most once, and an answer is the result of a
    response that named its id, as a number, a text or a float; and when the
    child's output ends while the reader is there, everything asked until then
    has been resolved. *)
Theorem rpc_requests_resolved before after :
  rc_reading (rpc_run before rpc_client_new) = true ->
  let c := rpc_run (before ++ REof :: after) rpc_client_new in
  NoDup (rc_answers c).*1 /\
  (forall id a, (id, a) ∈ rc_answers c -> 0 < id <= rc_next_id c) /\
  (forall id a, (id, inr a) ∈ rc_answers c -> answered_by (before ++ REof :: after) id a) /\
  forall id, 0 < id <= rc_next_id (rpc_run before rpc_client_new) -> id ∈ (rc_answers c).*1.
Proof.
  intros Er c. pose proof (rpc_run_ok (before ++ REof :: after) _ rpc_new_ok) as H. fold c in H.
  split_and!.
  - by destruct H.
  - intros id a Hin. apply (ro_ids _ H). right. by apply (list_elem_of_fmap_2 fst) in Hin.
  - intros id a Hin. destruct (rpc_run_answers _ _ _ _ Hin) as [Hn|]; [set_solver|done].
  - intros id Hid. unfold c, rpc_run. rewrite foldl_app. cbn. apply run_keeps_answers.
    pose proof (rpc_run_ok before _ rpc_new_ok) as Hb. fold (rpc_run before rpc_client_new).
    unfold rpc_step. rewrite Er. cbn.
    destruct (rpc_eof_same (rpc_run before rpc_client_new)) as (En & Ep & _).
    destruct (ro_all _ (rpc_eof_ok _ Hb) id) as [Hc|]; [by rewrite En| |done].
    rewrite Ep in Hc. set_solver.
Qed.

(** ** A request after the end *)

Definition stranded (id : Z) (c : RpcClient) : Prop := rpc_ok c /\ rc_reading c = false /\ id ∈ rc_pending c.

Lemma stranded_step id c s c' : stranded id c -> rpc_step c s = Some c' -> stranded id c'.
Proof.
  intros (Hok & Hr & Hp) E. split; [by eapply rpc_step_ok|].
  destruct s as [method params|line| | |]; cbn in E; rewrite ?Hr in E; try done; injection E as <-; try done.
  unfold rpc_request. cbn [rc_open]. destruct (rc_open c); cbn.
  - unfold write_value. cbn. set_solver.
  - split; [done|]. pose proof (ro_ids _ Hok id (or_introl Hp)) as Hid. apply elem_of_difference. split; [set_solver|].
    intros ?%elem_of_singleton. lia.
Qed.

Lemma stranded_run id ss : forall c, stranded id c -> stranded id (rpc_run ss c).
Proof.
  induction ss as [|s ss IH]; intros c H; [done|]. cbn. apply IH.
  destruct (rpc_step c s) as [c'|] eqn:E; [by eapply stranded_step|done].
Qed.

Lemma stranded_unanswered id c : stranded id c -> rpc_answer id c = None.
Proof.
  intros (Hok & _ & Hp). destruct (rpc_answer id c) as [out|] eqn:E; [|done].
  apply rpc_answer_elem, (list_elem_of_fmap_2 fst) in E. by destruct (ro_apart _ Hok id Hp).
Qed.

(** A request sent after the child's output has ended, while the writer has not
    failed yet, waits for ever: the map of waiting requests was emptied before. *)
Lemma late_request_hangs c method params ss :
  rpc_ok c -> rc_reading c = false -> rc_open c = true ->
  let c' := rpc_request method params c in rpc_answer (rc_next_id c') (rpc_run ss c') = None.
Proof.
  intros Hok Hr Ho c'. apply stranded_unanswered, stranded_run. split; [by apply rpc_request_ok|].
  unfold c', rpc_request. cbn [rc_open]. rewrite Ho. unfold write_value. cbn. split; [done|]. set_solver.
Qed.
End Reader.

(** ** A sample *)

Definition sample_steps : list RpcStep :=
  [RRequest "a" Null; RRequest "b" Null; RLine (value_text (Object [("id", Str "2"); ("result", Bool true)]))].

Lemma rpc_requests_resolved_witness :
  let c := @rpc_run sample_json (sample_steps ++ [REof; RRequest "c" Null]) rpc_client_new in
  rpc_answer 2 c = Some (inr (Bool true)) /\ 1 ∈ (rc_answers c).*1.
Proof.
  cbn zeta. split; [by vm_compute|].
  assert (rc_reading (@rpc_run sample_json sample_steps rpc_client_new) = true) as Hr by (by vm_compute).
  assert (rc_next_id (@rpc_run sample_json sample_steps rpc_client_new) = 2) as Hn by (by vm_compute).
  pose proof (@rpc_requests_resolved sample_json sample_steps [RRequest "c" Null] Hr) as (_ & _ & _ & H).
  apply H. rewrite Hn. done.
Defined.
