(* ===== verification/CodexItems.v ===== *)
(** The wire of the Codex app server: crates/harness/src/codex/normalize.rs and
    catalog.rs. Notification fields under either spelling, thread items as agent
    events, the route of a child thread's notifications, and the words and models
    of the catalog. *)
From S2P Require Import Prelude Json Text Agent Parts Claude.

Inductive Phase := PStarted | PCompleted.

#[export] Instance Phase_eq_dec : EqDecision Phase.
Proof. solve_decision. Defined.

(** ** Fields *)

Definition field (v : Value) (keys : list string) : option Value := head (omap (obj_get v) keys).
Definition str_field (v : Value) (keys : list string) : string := default "" (field v keys ≫= as_str).
Definition array_field (v : Value) (key : string) : list Value :=
  match obj_get v key with Some (Array l) => l | _ => [] end.

(** [Value::pointer] with keys that are no indices. *)
Definition pointer (v : Value) (keys : list string) : option Value :=
  foldl (fun o k => o ≫= (fun v => obj_get v k)) (Some v) keys.

Definition delta_text (params : Value) : option string := non_empty (field params ["delta"; "textDelta"] ≫= as_str).
Definition item_id (params : Value) : string := str_field params ["itemId"; "item_id"].

Definition turn_id (params : Value) : string :=
  default "" ((fun t => str_field t ["id"]) <$> obj_get params "turn").

Definition usage_event (params : Value) : option AgentEvent :=
  last_ ← field params ["tokenUsage"; "token_usage"] ≫= (fun u => obj_get u "last");
  let count keys := default 0%N (field last_ keys ≫= as_u64) in
  Some (Usage (count ["inputTokens"; "input_tokens"]) (count ["outputTokens"; "output_tokens"]) 0).

Definition item_type (item : Value) : string := default "" (obj_get item "type" ≫= as_str).

Definition agent_message (item : Value) : bool := one_of ["agentMessage"; "agent_message"] (item_type item).
Definition user_message (item : Value) : bool := one_of ["userMessage"; "user_message"] (item_type item).
Definition sub_agent_activity (item : Value) : bool :=
  one_of ["subAgentActivity"; "sub_agent_activity"] (item_type item).

(** ** Items *)

Definition tool_lifecycle (phase : Phase) (id : string) (call : ToolCall) (is_error : bool) : list AgentEvent :=
  match phase with
  | PStarted => [ToolCallEv id call]
  | PCompleted => [ToolCallEv id call; ToolResult id is_error None None]
  end.

Definition file_change_call (changes : list (string * string)) : ToolCall :=
  match changes with
  | [(path, kind)] =>
      if String.eqb kind "add" then WriteFile path None
      else if String.eqb kind "update" then EditFile path None None
      else ApplyPatch (Some path)
  | _ => ApplyPatch None
  end.

(** An unknown kind of change is an update. *)
Definition change_of (c : Value) : string * string :=
  let kind := default "update" (obj_get c "kind" ≫= as_str) in
  (str_field c ["path"], if one_of ["add"; "delete"; "update"] kind then kind else "update").

Definition todo_item (t : Value) : TodoItem :=
  mk_todo (str_field t ["text"]) (default false (field t ["completed"; "done"] ≫= as_boolean)).

Definition agent_name (path : string) : string :=
  match List.find (fun s => negb (String.eqb s "")) (rev (split_on (Ascii.ascii_of_nat 47) path)) with
  | Some leaf => "Agent: " +:+ leaf
  | None => "Agent"
  end.

Definition exit_code (item : Value) : Z := default 0 (field item ["exitCode"; "exit_code"] ≫= as_i64).

Definition map_item (phase : Phase) (item : Value) : list AgentEvent :=
  let id := str_field item ["id"] in
  let status := str_field item ["status"] in
  let kind := item_type item in
  if one_of ["commandExecution"; "command_execution"] kind then
    match phase with
    | PStarted => [ToolCallEv id (Exec (str_field item ["command"]))]
    | PCompleted => [ToolResult id (String.eqb status "failed" || negb (exit_code item =? 0)) None None]
    end
  else if one_of ["fileChange"; "file_change"] kind then
    tool_lifecycle phase id (file_change_call (change_of <$> array_field item "changes"))
      (String.eqb status "failed" || String.eqb status "declined")
  else if one_of ["mcpToolCall"; "mcp_tool_call"] kind then
    match phase with
    | PStarted => [ToolCallEv id (Mcp (str_field item ["server"]) (str_field item ["tool"])
                                    (obj_get item "arguments" ≫= non_null_input))]
    | PCompleted => [ToolResult id (String.eqb status "failed") None None]
    end
  else if one_of ["webSearch"; "web_search"] kind then
    tool_lifecycle phase id (WebSearch (str_field item ["query"])) false
  else if one_of ["todoList"; "todo_list"] kind then
    tool_lifecycle phase id (Todo (todo_item <$> array_field item "items")) false
  else if String.eqb kind "error" then [ErrorEv (str_field item ["message"])]
  else if one_of ["subAgentActivity"; "sub_agent_activity"] kind then
    tool_lifecycle phase id (Unknown (agent_name (str_field item ["agentPath"])) (Some item))
      (one_of ["failed"; "errored"] (str_field item ["kind"]))
  else [].

Definition user_message_text (item : Value) : option string :=
  let text := str_field item ["text"] in
  if negb (blank text) then Some text
  else
    let joined := join newlines (omap (fun b => obj_get b "text" ≫= as_str) (array_field item "content")) in
    if blank joined then None else Some joined.

(** ** Threads *)

Definition notification_thread_id (method : string) (params : Value) : option string :=
  if String.eqb method "thread/started" then pointer params ["thread"; "id"] ≫= as_str
  else field params ["threadId"; "thread_id"] ≫= as_str.

Inductive ChildRoute := RSubagent | RConsumed | RParent.

Definition SUBAGENT_METHODS : list string :=
  ["item/started"; "item/completed"; "item/agentMessage/delta"; "item/reasoning/textDelta";
   "item/reasoning/summaryTextDelta"; "turn/completed"; "turn/failed"; "turn/aborted"; "error"; "thread/closed"].

Definition CONSUMED_METHODS : list string :=
  ["turn/started"; "thread/status/changed"; "thread/tokenUsage/updated"; "item/reasoning/summaryPartAdded";
   "item/commandExecution/outputDelta"; "item/fileChange/outputDelta"; "item/fileChange/patchUpdated";
   "item/plan/delta"; "turn/plan/updated"; "turn/diff/updated"; "thread/name/updated"; "thread/settings/updated";
   "rawResponseItem/completed"; "thread/archived"; "thread/unarchived"; "thread/compacted"; "thread/started"].

Definition route_child_notification (method : string) : ChildRoute :=
  if one_of SUBAGENT_METHODS method then RSubagent
  else if one_of CONSUMED_METHODS method then RConsumed
  else RParent.

Section Errors.
Context {J : JsonText}.

Definition turn_error_message (params : Value) : option string :=
  e ← obj_get params "turn" ≫= (fun t => obj_get t "error");
  if is_null e then None
  else let msg := str_field e ["message"] in Some (if String.eqb msg "" then to_text e else msg).

(** The message of an [error] notification, nested or flat. *)
Definition error_message (fallback : string) (params : Value) : string :=
  match pointer params ["error"; "message"] ≫= as_str with
  | Some m => m
  | None => default fallback (obj_get params "message" ≫= as_str)
  end.

Definition status_failed (params : Value) : bool :=
  bool_decide (pointer params ["turn"; "status"] ≫= as_str = Some "failed").
End Errors.

(** ** The catalog *)

Definition REASONING_LEVELS : list ReasoningLevel := [Minimal; Low; Medium; High; XHigh; Max; Ultra].
Definition ULTRA_LADDER : list ReasoningLevel := [Low; Medium; High; XHigh; Max; Ultra].
Definition MAX_LADDER : list ReasoningLevel := [Low; Medium; High; XHigh; Max].
Definition XHIGH_LADDER : list ReasoningLevel := [Low; Medium; High; XHigh].

Definition to_effort (reasoning : option ReasoningLevel) : option string :=
  (fun r => match r with
            | Minimal | Low => "low"
            | Medium => "medium"
            | High => "high"
            | XHigh | Ultracode | Ultrathink => "xhigh"
            | Max => "max"
            | Ultra => "ultra"
            end) <$> reasoning.

Definition sandbox_mode (s : SandboxLevel) : string :=
  match s with
  | ReadOnly => "read-only"
  | WorkspaceWrite => "workspace-write"
  | DangerFullAccess => "danger-full-access"
  end.

Definition sandbox_policy_type (s : SandboxLevel) : string :=
  match s with
  | ReadOnly => "readOnly"
  | WorkspaceWrite => "workspaceWrite"
  | DangerFullAccess => "dangerFullAccess"
  end.

Definition sandbox_policy_value (s : SandboxLevel) : Value :=
  let policy := map_put "type" (Str (sandbox_policy_type s)) [] in
  Object (match s with WorkspaceWrite => map_put "networkAccess" (Bool true) policy | _ => policy end).

Record ModelOptionChoice := mk_choice { mc_id : string; mc_label : string }.
Record ModelOption := mk_model_option {
  mo_id : string; mo_label : string; mo_choices : list ModelOptionChoice; mo_default_choice : string }.
Record Model := mk_model {
  md_id : string; md_label : string; md_description : option string; md_reasoning_levels : list ReasoningLevel;
  md_options : list ModelOption }.

Definition service_tier : ModelOption :=
  mk_model_option "serviceTier" "Service Tier" [mk_choice "default" "Standard"; mk_choice "fast" "Fast"] "default".

Definition model (id label description : string) (ladder : list ReasoningLevel) : Model :=
  mk_model id label (if String.eqb description "" then None else Some description) ladder [service_tier].

Definition static_models : list Model :=
  [model "gpt-5.6-sol" "GPT-5.6-Sol" "Frontier reasoning flagship" ULTRA_LADDER;
   model "gpt-5.6-terra" "GPT-5.6-Terra" "Deep multi-step agentic work" ULTRA_LADDER;
   model "gpt-5.6-luna" "GPT-5.6-Luna" "Fast frontier model" MAX_LADDER;
   model "gpt-5.5" "GPT-5.5" "Previous generation flagship" XHIGH_LADDER;
   model "gpt-5.4" "GPT-5.4" "Reliable general coding" XHIGH_LADDER;
   model "gpt-5.4-mini" "GPT-5.4-Mini" "Small, fast and capable" XHIGH_LADDER;
   model "gpt-5.3-codex-spark" "GPT-5.3-Codex-Spark" "Ultra-fast lightweight coding" XHIGH_LADDER].

(** [parse_skill_commands]: the skills of every group, each name once. *)
Definition skill_command (skill : Value) : option SlashCommand :=
  name ← non_empty (trim <$> (obj_get skill "name" ≫= as_str));
  let short := non_empty (pointer skill ["interface"; "shortDescription"] ≫= as_str) in
  let long := obj_get skill "description" ≫= as_str in
  Some (mk_slash name (default "" (match short with Some d => Some d | None => long end)) None).

Fixpoint first_of_name (seen : gset string) (l : list SlashCommand) : list SlashCommand :=
  match l with
  | [] => []
  | c :: l => if decide (sc_name c ∈ seen) then first_of_name seen l
              else c :: first_of_name ({[sc_name c]} ∪ seen) l
  end.

Definition parse_skill_commands (result : Value) : list SlashCommand :=
  first_of_name ∅ (omap skill_command (array_field result "data" ≫= (fun group => array_field group "skills"))).

(** ** Skills are listed once *)

Lemma first_of_name_spec seen l :
  NoDup (sc_name <$> first_of_name seen l) /\
  (forall c, c ∈ first_of_name seen l -> c ∈ l /\ sc_name c ∉ seen).
Proof.
  revert seen. induction l as [|c l IH]; intros seen; [split; [constructor|set_solver]|]. cbn.
  case_decide as Hc.
  - destruct (IH seen) as [H1 H2]. split; [done|]. intros d Hd. apply H2 in Hd. set_solver.
  - destruct (IH ({[sc_name c]} ∪ seen)) as [H1 H2]. split.
    + cbn. apply NoDup_cons. split; [|done]. intros (d & E & Hd)%list_elem_of_fmap. apply H2 in Hd as [_ Hd]. set_solver.
    + intros d [->|Hd]%elem_of_cons; [split; [by left|done]|]. apply H2 in Hd. set_solver.
Qed.

Lemma skills_listed_once result :
  NoDup (sc_name <$> parse_skill_commands result) /\
  forall c, c ∈ parse_skill_commands result -> sc_name c <> "".
Proof.
  destruct (first_of_name_spec ∅ (omap skill_command
    (array_field result "data" ≫= (fun group => array_field group "skills")))) as [H1 H2].
  split; [exact H1|]. intros c Hc. apply H2 in Hc as [(v & _ & Hv)%list_elem_of_omap _].
  unfold skill_command, non_empty in Hv. destruct (trim <$> _) as [n|]; [|done]. cbn in Hv.
  destruct (String.eqb_spec n ""); [done|]. by injection Hv as <-.
Qed.

(** ** Items close what they open *)

Definition TOOL_TYPES : list string :=
  ["commandExecution"; "command_execution"; "fileChange"; "file_change"; "mcpToolCall"; "mcp_tool_call";
   "webSearch"; "web_search"; "todoList"; "todo_list"; "subAgentActivity"; "sub_agent_activity"].

Definition tool_item (item : Value) : bool := one_of TOOL_TYPES (item_type item).

(** Whether a completed item failed. *)
Definition item_failed (item : Value) : bool :=
  let status := str_field item ["status"] in
  let kind := item_type item in
  if one_of ["commandExecution"; "command_execution"] kind then String.eqb status "failed" || negb (exit_code item =? 0)
  else if one_of ["fileChange"; "file_change"] kind then String.eqb status "failed" || String.eqb status "declined"
  else if one_of ["mcpToolCall"; "mcp_tool_call"] kind then String.eqb status "failed"
  else if one_of ["subAgentActivity"; "sub_agent_activity"] kind then one_of ["failed"; "errored"] (str_field item ["kind"])
  else false.

Lemma one_of_elem l s : one_of l s = true <-> s ∈ l.
Proof.
  unfold one_of. rewrite existsb_exists. split.
  - intros (x & Hx & ->%String.eqb_eq). by apply list_elem_of_In.
  - intros H. exists s. by rewrite String.eqb_refl, <- list_elem_of_In.
Qed.

(** The two phases of a tool item. *)
Lemma map_item_tool item : tool_item item = true ->
  exists call, map_item PStarted item = [ToolCallEv (str_field item ["id"]) call] /\
    (map_item PCompleted item = [ToolResult (str_field item ["id"]) (item_failed item) None None] \/
     map_item PCompleted item =
       [ToolCallEv (str_field item ["id"]) call; ToolResult (str_field item ["id"]) (item_failed item) None None]).
Proof.
  unfold tool_item. intros H. unfold map_item, item_failed. cbv zeta. revert H.
  generalize (item_type item) as kind. intros kind H.
  assert (one_of ["webSearch"; "web_search"] kind || one_of ["todoList"; "todo_list"] kind = true ->
    one_of ["subAgentActivity"; "sub_agent_activity"] kind = false) as Hexcl.
  { intros [Hk|Hk]%orb_true_iff; apply one_of_elem in Hk;
      by repeat (apply elem_of_cons in Hk as [-> |Hk]; [done|]); apply elem_of_nil in Hk. }
  destruct (one_of ["commandExecution"; "command_execution"] kind) eqn:E1; [eexists; split; [done|by left]|].
  destruct (one_of ["fileChange"; "file_change"] kind) eqn:E2; [eexists; split; [done|by right]|].
  destruct (one_of ["mcpToolCall"; "mcp_tool_call"] kind) eqn:E3; [eexists; split; [done|by left]|].
  destruct (one_of ["webSearch"; "web_search"] kind) eqn:E4; [rewrite Hexcl by done; eexists; split; [done|by right]|].
  destruct (one_of ["todoList"; "todo_list"] kind) eqn:E5; [rewrite Hexcl by done; eexists; split; [done|by right]|].
  destruct (String.eqb_spec kind "error") as [->|]; [done|].
  destruct (one_of ["subAgentActivity"; "sub_agent_activity"] kind) eqn:E6; [eexists; split; [done|by right]|].
  unfold one_of, TOOL_TYPES in *. cbn [existsb] in *.
  repeat match goal with E : _ || _ = false |- _ => apply orb_false_iff in E as [? ?] end.
  repeat match goal with E : String.eqb kind _ = false |- _ => rewrite E in H; clear E end. done.
Qed.

Lemma map_item_other phase item : tool_item item = false ->
  map_item phase item = [] \/ exists m, map_item phase item = [ErrorEv m].
Proof.
  intros H. unfold map_item, tool_item in *. cbv zeta. revert H. generalize (item_type item) as kind. intros kind H.
  unfold one_of, TOOL_TYPES in *. cbn [existsb] in *.
  repeat match goal with E : _ || _ = false |- _ => apply orb_false_iff in E as [? ?] end.
  repeat match goal with E : String.eqb kind _ = false |- _ => rewrite E; clear E end.
  cbn. destruct (String.eqb _ _); eauto.
Qed.

Section Resolve.
Context (text_diff : string -> string -> N * N).

Lemma fold_events_tool id evs : forall out,
  find_tool id (fold_events text_diff out evs) = foldl (tool_step text_diff id) (find_tool id out) evs.
Proof. induction evs as [|e evs IH]; intros out; [done|]. cbn. rewrite <- fold_tool. apply IH. Qed.

(** An event that starts no new entry. *)
Definition same_entry (e : AgentEvent) : Prop :=
  match e with SessionStarted _ _ _ _ _ _ | Steered _ _ => False | _ => True end.

(** A chip stays through the events of its entry. *)
Lemma chip_stays id evs t :
  Forall same_entry evs -> exists t', foldl (tool_step text_diff id) (Some t) evs = Some t'.
Proof.
  intros H. revert t. induction H as [|e evs He _ IH]; intros t; [by exists t|]. cbn.
  destruct e; cbn [tool_step]; try done; try apply IH; destruct (String.eqb _ _); apply IH.
Qed.

(** A tool item always closes the chip it opens: whatever the item started
    as and whatever streams between in the same entry, once the item of that id
    completes, the transcript shows one resolved chip under it, marked failed
    exactly when the item failed, and an item of any other type touches no chip
    at all. *)
Theorem tool_item_resolves :
  (forall out mid item0 item1 parts,
     tool_item item0 = true -> tool_item item1 = true -> str_field item0 ["id"] = str_field item1 ["id"] ->
     Forall same_entry mid ->
     parts = fold_events text_diff out (map_item PStarted item0 ++ mid ++ map_item PCompleted item1) ->
     exists t, find_tool (str_field item1 ["id"]) parts = Some t /\ tp_resolved t = true /\
       tp_is_error t = item_failed item1) /\
  (forall phase item id out,
     tool_item item = false -> find_tool id (fold_events text_diff out (map_item phase item)) = find_tool id out).
Proof.
  split.
  - intros out mid item0 item1 parts H0 H1 Hid Hm ->. rewrite fold_events_tool, !foldl_app.
    destruct (map_item_tool item0 H0) as (call0 & -> & _). destruct (map_item_tool item1 H1) as (call1 & _ & Hc).
    rewrite Hid. cbn [foldl tool_step]. rewrite String.eqb_refl.
    edestruct (chip_stays (str_field item1 ["id"]) mid) as [t Et]; [done|]. rewrite Et.
    destruct Hc as [->| ->]; cbn; rewrite !String.eqb_refl; by eexists.
  - intros phase item id out H. rewrite fold_events_tool.
    by destruct (map_item_other phase item H) as [->|[m ->]].
Qed.
End Resolve.

Definition sample_started : Value :=
  Object [("command", Str "ls"); ("id", Str "c1"); ("type", Str "commandExecution")].
Definition sample_completed : Value :=
  Object [("exit_code", Int 2); ("id", Str "c1"); ("type", Str "command_execution")].

Lemma tool_item_resolves_witness :
  exists t, find_tool "c1" (fold_events (fun _ _ => (0%N, 0%N)) []
      (map_item PStarted sample_started ++ [TextDelta "x"] ++ map_item PCompleted sample_completed)) = Some t /\
    tp_resolved t = true /\ tp_is_error t = true.
Proof.
  destruct (tool_item_resolves (fun _ _ => (0%N, 0%N))) as [H _].
  apply (H [] [TextDelta "x"] sample_started sample_completed _ eq_refl eq_refl eq_refl); [|done].
  by repeat constructor.
Defined.
