(* ===== verification/Loop.v ===== *)
(** Statements of an event loop over a state: a statement changes the state and
    goes on, or breaks out of the loop. The session loops of the harness
    adapters are written with them. *)
From S2P Require Import Prelude.

(** [false] is [break 'main]. *)
Definition Stmt (S : Type) : Type := S -> S * bool.

Declare Scope stmt_scope.
Delimit Scope stmt_scope with stmt.
Bind Scope stmt_scope with Stmt.

Section Statements.
Context {S : Type}.

Definition pure (f : S -> S) : Stmt S := fun s => (f s, true).
Definition skip : Stmt S := pure id.
Definition break : Stmt S := fun s => (s, false).
Definition seq (f g : Stmt S) : Stmt S := fun s => let '(s, go) := f s in if go then g s else (s, false).
Definition with_state (f : S -> Stmt S) : Stmt S := fun s => f s s.

(** [let _ = f]: the outcome is ignored. *)
Definition attempt (f : Stmt S) : Stmt S := fun s => ((f s).1, true).

(** [for x in l]. *)
Fixpoint each {A} (f : A -> Stmt S) (l : list A) : Stmt S :=
  match l with [] => skip | x :: l => seq (f x) (each f l) end.

(** A statement that keeps [I], or breaks with [O]. *)
Definition fine (I O : S -> Prop) (r : S * bool) : Prop := if r.2 then I r.1 else O r.1.

Lemma fine_seq I' I O f g s :
  fine I' O (f s) -> (forall s', I' s' -> fine I O (g s')) -> fine I O (seq f g s).
Proof. intros Hf Hg. unfold seq. destruct (f s) as [s' []]; [by apply Hg|done]. Qed.

Lemma fine_pure I O f s : I (f s) -> fine I O (pure f s).
Proof. done. Qed.

Lemma fine_skip I O s : I s -> fine I O (skip s).
Proof. done. Qed.

Lemma fine_break I O s : O s -> fine I O (break s).
Proof. done. Qed.

Lemma fine_mono I I' O r : (forall s, I s -> I' s) -> fine I O r -> fine I' O r.
Proof. intros H. unfold fine. destruct r as [s []]; [apply H|done]. Qed.

Lemma fine_each I O {A} (f : A -> Stmt S) l s :
  (forall x s, x ∈ l -> I s -> fine I O (f x s)) -> I s -> fine I O (each f l s).
Proof.
  revert s. induction l as [|x l IH]; intros s Hf Hs; [done|]. cbn [each].
  apply (fine_seq I); [apply Hf; [left|done]|]. intros s' Hs'. apply IH; [|done].
  intros y s'' Hy. apply Hf. by right.
Qed.
End Statements.

Notation "f >> g" := (seq f%stmt g%stmt) (at level 60, right associativity) : stmt_scope.
