(* ===== verification/Streams.v ===== *)
(** What the stream of a harness looks like to the run loop: one session start,
    message ids in a row, a turn that works until a [Done]. *)
From S2P Require Import Prelude Json Text Agent Claude.

(** A stream is empty, the end of a failed setup, or opens with its session. *)
Definition starts_once (es : list AgentEvent) : Prop :=
  exists h m t c i a rest, es = SessionStarted h m t c i a :: rest /\ List.filter is_started (inr <$> rest) = [].

Definition opened (es : list AgentEvent) : Prop :=
  es = [] \/ (exists st error, es = [Done st None error None]) \/ starts_once es.

Definition ends_interrupted (es : list AgentEvent) : Prop := exists e, last es = Some e /\ done_interrupted (inr e) = true.

Lemma starts_snoc es e : starts_once es -> is_started (inr e) = false -> starts_once (es ++ [e]).
Proof.
  intros (h & m & t & c & i & a & rest & -> & Hr) He. exists h, m, t, c, i, a, (rest ++ [e]). split; [done|].
  rewrite fmap_app, List.filter_app, Hr. by destruct e.
Qed.

(** Neither a start, nor a boundary between messages. *)
Definition ordinary (e : AgentEvent) : bool := plain e || is_done e.

Lemma chain_ordinary new_message_id k e :
  ordinary e = true -> chain new_message_id k [inr e] = Some k /\ is_started (inr e) = false.
Proof. by destruct e. Qed.

(** *** Working

    The consumer shows a turn as working from the session's start, or from a
    steer, to the next [Done]. *)
Definition working_step (b : bool) (e : AgentEvent) : bool :=
  match e with
  | SessionStarted _ _ _ _ _ _ | Steered _ _ => true
  | Done _ _ _ _ => false
  | _ => b
  end.

Definition working (es : list AgentEvent) : bool := foldl working_step false es.

Lemma working_snoc es e : working (es ++ [e]) = working_step (working es) e.
Proof. apply foldl_snoc. Qed.

Lemma working_done b es : existsb is_done es = false -> foldl working_step b es = false -> b = false.
Proof.
  revert b. induction es as [|e es IH]; intros b Hd Hw; [done|]. cbn in Hd, Hw.
  apply orb_false_iff in Hd as [He Hd]. specialize (IH _ Hd Hw). by destruct e.
Qed.

(** A session that does not work has seen a [Done]. *)
Lemma idle_is_done es : starts_once es -> working es = false -> existsb is_done es = true.
Proof.
  intros (h & m & t & c & i & a & rest & -> & _) Hw. destruct (existsb is_done _) eqn:E; [done|].
  cbn in E. cbn in Hw. by apply working_done in Hw.
Qed.

Lemma interrupted_idle es : ends_interrupted es -> working es = false.
Proof.
  intros (e & He & Hd). apply last_Some in He as [l ->]. rewrite working_snoc. by destruct e.
Qed.
