(* ===== verification/Codex.v ===== *)
(** The Codex adapter: crates/harness/src/codex/mod.rs. The session runs over
    the JSON-RPC client: at every moment it waits for one answer or sits in the
    [select] of its loop, and only there takes notifications, steers and the
    interrupt. Fresh ids, the version and the crash message are parameters. *)
From stdpp Require Import pretty.
From S2P Require Import Prelude Json Text Agent Samples Claude JsonRpc CodexItems Loop.

(** ** Turn routing *)

Record TurnRouter := mk_router { tr_active : option string; tr_completed : list string }.

Definition router_new : TurnRouter := mk_router None [].

Definition is_completed (id : string) (r : TurnRouter) : bool := one_of (tr_completed r) id.

(** At most 32 are remembered, the oldest go first. *)
Definition COMPLETED_KEPT : nat := 32.

Definition remember_completed (id : string) (r : TurnRouter) : TurnRouter :=
  let all := tr_completed r ++ [id] in mk_router (tr_active r) (drop (length all - COMPLETED_KEPT) all).

Definition note_started (id : string) (r : TurnRouter) : TurnRouter :=
  if String.eqb id "" || is_completed id r then r
  else
    let r := match tr_active r with
             | Some prev => if String.eqb prev id then r else remember_completed prev r
             | None => r
             end in
    mk_router (Some id) (tr_completed r).

Definition note_completed (id : string) (r : TurnRouter) : TurnRouter :=
  if String.eqb id "" then r
  else
    let r := remember_completed id r in
    mk_router (if bool_decide (tr_active r = Some id) then None else tr_active r) (tr_completed r).

Definition adopt_started (id : string) (r : TurnRouter) : TurnRouter :=
  mk_router (if negb (String.eqb id "") && negb (is_completed id r) then Some id else None) (tr_completed r).

(** ** The session *)

(** What the session waits for: the answer to a request, or the next arm of the
    loop's [select]. *)
Inductive Await :=
  | AInitialize (id : Z)
  | AResume (id : Z)
  | AStart (id : Z)
  | AFirstTurn (id : Z)
  | ALoop
  | ASteer (id : Z) (text expected : string)
  | ANewTurn (id : Z) (text : string)
  | AOver.

(** A parked request of the server: a tool's questions by wire id, or an approval. *)
Inductive CodexAsk :=
  | AskInput (id : Value) (questions : list (string * UserInputQuestion))
  | AskApproval (id : Value) (question : UserInputQuestion).

(** The turn in flight and what is held for its end. *)
Record Turns := mk_turns {
  tn_router : TurnRouter;
  tn_streamed : gset string;
  tn_usage : option AgentEvent;
  tn_queue : list string;
  tn_done_current : bool;
}.

(** The mailbox and the interrupt. [cl_signalled]: the signals that reap an
    unresponsive child are under way. *)
Record Control := mk_cctl {
  cl_steering_open : bool;
  cl_cancelled : bool;
  cl_interrupted : bool;
  cl_done_after : bool;
  cl_signalled : bool;
}.

Record Asks := mk_asks { as_open : gmap nat CodexAsk; as_count : nat; as_questions : nat }.

(** [cx_message]: the number of the current message id; [cx_taken]: how much of
    what the reader sent has been received. *)
Record CodexSession := mk_codex {
  cx_client : RpcClient;
  cx_taken : nat;
  cx_at : Await;
  cx_thread : string;
  cx_message : nat;
  cx_children : gmap string string;
  cx_turns : Turns;
  cx_control : Control;
  cx_asks : Asks;
  cx_emitted : list AgentEvent;
  cx_gone : bool;
}.

Definition set_client (c : RpcClient) (s : CodexSession) : CodexSession :=
  mk_codex c (cx_taken s) (cx_at s) (cx_thread s) (cx_message s) (cx_children s) (cx_turns s) (cx_control s)
    (cx_asks s) (cx_emitted s) (cx_gone s).
Definition set_taken (n : nat) (s : CodexSession) : CodexSession :=
  mk_codex (cx_client s) n (cx_at s) (cx_thread s) (cx_message s) (cx_children s) (cx_turns s) (cx_control s)
    (cx_asks s) (cx_emitted s) (cx_gone s).
Definition set_at (a : Await) (s : CodexSession) : CodexSession :=
  mk_codex (cx_client s) (cx_taken s) a (cx_thread s) (cx_message s) (cx_children s) (cx_turns s) (cx_control s)
    (cx_asks s) (cx_emitted s) (cx_gone s).
Definition set_thread (id : string) (s : CodexSession) : CodexSession :=
  mk_codex (cx_client s) (cx_taken s) (cx_at s) id (cx_message s) (cx_children s) (cx_turns s) (cx_control s)
    (cx_asks s) (cx_emitted s) (cx_gone s).
Definition rotate (s : CodexSession) : CodexSession :=
  mk_codex (cx_client s) (cx_taken s) (cx_at s) (cx_thread s) (S (cx_message s)) (cx_children s) (cx_turns s)
    (cx_control s) (cx_asks s) (cx_emitted s) (cx_gone s).
Definition set_children (m : gmap string string) (s : CodexSession) : CodexSession :=
  mk_codex (cx_client s) (cx_taken s) (cx_at s) (cx_thread s) (cx_message s) m (cx_turns s) (cx_control s)
    (cx_asks s) (cx_emitted s) (cx_gone s).
Definition set_turns (t : Turns) (s : CodexSession) : CodexSession :=
  mk_codex (cx_client s) (cx_taken s) (cx_at s) (cx_thread s) (cx_message s) (cx_children s) t (cx_control s)
    (cx_asks s) (cx_emitted s) (cx_gone s).
Definition set_control (c : Control) (s : CodexSession) : CodexSession :=
  mk_codex (cx_client s) (cx_taken s) (cx_at s) (cx_thread s) (cx_message s) (cx_children s) (cx_turns s) c
    (cx_asks s) (cx_emitted s) (cx_gone s).
Definition set_asks (a : Asks) (s : CodexSession) : CodexSession :=
  mk_codex (cx_client s) (cx_taken s) (cx_at s) (cx_thread s) (cx_message s) (cx_children s) (cx_turns s)
    (cx_control s) a (cx_emitted s) (cx_gone s).
Definition set_gone (s : CodexSession) : CodexSession :=
  mk_codex (cx_client s) (cx_taken s) (cx_at s) (cx_thread s) (cx_message s) (cx_children s) (cx_turns s)
    (cx_control s) (cx_asks s) (cx_emitted s) true.

Definition set_router (r : TurnRouter) (t : Turns) : Turns :=
  mk_turns r (tn_streamed t) (tn_usage t) (tn_queue t) (tn_done_current t).
Definition set_streamed (ids : gset string) (t : Turns) : Turns :=
  mk_turns (tn_router t) ids (tn_usage t) (tn_queue t) (tn_done_current t).
Definition set_usage (u : option AgentEvent) (t : Turns) : Turns :=
  mk_turns (tn_router t) (tn_streamed t) u (tn_queue t) (tn_done_current t).
Definition set_queue (q : list string) (t : Turns) : Turns :=
  mk_turns (tn_router t) (tn_streamed t) (tn_usage t) q (tn_done_current t).
Definition set_done_current (b : bool) (t : Turns) : Turns :=
  mk_turns (tn_router t) (tn_streamed t) (tn_usage t) (tn_queue t) b.

Definition cx_router (s : CodexSession) : TurnRouter := tn_router (cx_turns s).
Definition cx_interrupted (s : CodexSession) : bool := cl_interrupted (cx_control s).
Definition on_turns (f : Turns -> Turns) (s : CodexSession) : CodexSession := set_turns (f (cx_turns s)) s.
Definition on_control (f : Control -> Control) (s : CodexSession) : CodexSession := set_control (f (cx_control s)) s.

(** *** Statements of the loop *)

Abbreviation Stmt := (Loop.Stmt CodexSession).

(** [send]: nobody listens any more, nothing is sent. *)
Definition send (e : AgentEvent) : Stmt := fun s =>
  if cx_gone s then (s, false)
  else (mk_codex (cx_client s) (cx_taken s) (cx_at s) (cx_thread s) (cx_message s) (cx_children s) (cx_turns s)
          (cx_control s) (cx_asks s) (cx_emitted s ++ [e]) false, true).

Fixpoint send_all (es : list AgentEvent) : Stmt :=
  match es with [] => skip | e :: es => (send e >> send_all es)%stmt end.

Definition send_option (e : option AgentEvent) : Stmt := match e with Some e => send e | None => skip end.

(** [let _ = send(…)]: the outcome is ignored. *)
Definition try_send (e : AgentEvent) : Stmt := fun s => ((send e s).1, true).

(** ** Wire params *)

Section Session.
Context {J : JsonText} (new_message_id new_question_id : nat -> string) (version crash : string) (request : RunRequest).

Definition approval_policy : string := "never".

(** [run] forces full access before the session starts. *)
Definition forced (rq : RunRequest) : RunRequest :=
  mk_run_request (rq_prompt rq) (rq_harness rq) (rq_model rq) (rq_reasoning rq) (rq_model_options rq) (rq_cwd rq)
    DangerFullAccess (rq_auto_approve rq) (rq_resume rq) (rq_mcp_servers rq) (rq_attachments rq) (rq_worktree rq).

Definition request_tier : option string :=
  t ← assoc_get "serviceTier" (rq_model_options request) ≫= as_str;
  if String.eqb t "default" then None else Some t.

Definition put_option (k : string) (o : option string) (p : list (string * Value)) : list (string * Value) :=
  match o with Some x => map_put k (Str x) p | None => p end.

Definition start_params : list (string * Value) :=
  put_option "serviceTier" request_tier (put_option "model" (rq_model request)
    (map_put "sandbox" (Str (sandbox_mode (rq_sandbox (forced request))))
       (map_put "approvalPolicy" (Str approval_policy) (map_put "cwd" (Str (rq_cwd request)) [])))).

Definition text_input (text : string) : Value := Array [Object [("text", Str text); ("type", Str "text")]].

Definition turn_params (thread text : string) : Value :=
  Object (put_option "serviceTier" request_tier (put_option "effort" (to_effort (rq_reasoning request))
    (put_option "model" (rq_model request)
      (map_put "summary" (Str "auto")
        (map_put "sandboxPolicy" (sandbox_policy_value (rq_sandbox (forced request)))
          (map_put "approvalPolicy" (Str approval_policy)
            (map_put "input" (text_input text) (map_put "threadId" (Str thread) [])))))))).

Definition initialize_params : Value :=
  Object [("capabilities", Object [("experimentalApi", Bool true)]);
          ("clientInfo", Object [("name", Str "postillion-native"); ("title", Str "Postillion");
                                 ("version", Str version)])].

Definition steer_params (thread expected text : string) : Value :=
  Object [("expectedTurnId", Str expected); ("input", text_input text); ("threadId", Str thread)].

Definition interrupt_params (thread turn : string) : Value := Object [("threadId", Str thread); ("turnId", Str turn)].

(** ** Requests and the stream *)

(** Send a request and wait for its answer. *)
Definition ask (method : string) (params : Value) (wait : Z -> Await) (s : CodexSession) : CodexSession :=
  let c := rpc_request method params (cx_client s) in set_at (wait (rc_next_id c)) (set_client c s).

Definition message_id (s : CodexSession) : string := new_message_id (cx_message s).

Definition done_ (st : DoneStatus) (error : option string) (s : CodexSession) : AgentEvent :=
  Done st None error (Some (cx_thread s)).

Definition send_steered : Stmt :=
  (pure rotate >> with_state (fun s => send (Steered (Some (new_message_id (pred (cx_message s)))) (Some (message_id s)))))%stmt.

(** [steer_as_new_turn] up to its wait, and after it. *)
Definition steer_as_new_turn (text : string) : Stmt :=
  pure (fun s => ask "turn/start" (turn_params (cx_thread s) text) (fun id => ANewTurn id text) s).

Definition id_at (keys : list string) (v : Value) : string := default "" (pointer v keys ≫= as_str).

Definition new_turn_answered (out : string + Value) : Stmt :=
  match out with
  | inr started =>
      (pure (on_turns (fun t => set_done_current false (set_router (adopt_started (id_at ["turn"; "id"] started) (tn_router t)) t)))
       >> send_steered)%stmt
  | inl m => (try_send (ErrorEv ("Steering failed: " +:+ protocol_error "turn/start" m)) >> break)%stmt
  end.

(** ** The root thread's notifications *)

Definition take_usage : Stmt :=
  with_state (fun s => (pure (on_turns (set_usage None)) >> send_option (tn_usage (cx_turns s)))%stmt).

(** The activity marker of an agent: its registration, or [None] for the root's own. *)
Definition register_activity (item : Value) (s : CodexSession) : option CodexSession :=
  let child := default "" (obj_get item "agentThreadId" ≫= as_str) in
  let path := default "" (obj_get item "agentPath" ≫= as_str) in
  let call := default "" (obj_get item "id" ≫= as_str) in
  let root := String.eqb path "/root" || String.eqb path "/" in
  if negb (String.eqb child "") && negb (String.eqb child (cx_thread s)) && negb root && negb (String.eqb call "")
  then Some (set_children (<[child := call]> (cx_children s)) s)
  else if String.eqb child (cx_thread s) || root then None
  else Some s.

Definition completed_message (item : Value) : Stmt := with_state (fun s =>
  let id := default "" (obj_get item "id" ≫= as_str) in
  let text := default "" (obj_get item "text" ≫= as_str) in
  let missing := negb (bool_decide (id ∈ tn_streamed (cx_turns s))) && negb (String.eqb text "") in
  (send_option (if missing then Some (TextDelta text) else None)
   >> send (TextDelta newlines)
   >> pure rotate
   >> with_state (fun s => send (AssistantMessageCompleted (new_message_id (pred (cx_message s))))))%stmt).

Definition on_item (phase : Phase) (params : Value) : Stmt := with_state (fun s =>
  let item := default Null (obj_get params "item") in
  match (if sub_agent_activity item then register_activity item s else Some s) with
  | None => skip
  | Some s' =>
      (pure (fun _ => s')
       >> (if agent_message item then
             match phase with PCompleted => completed_message item | PStarted => skip end
           else send_all (map_item phase item)))%stmt
  end).

Definition turn_status (error : option string) (s : CodexSession) : DoneStatus :=
  if cx_interrupted s then Interrupted else match error with Some _ => Errored | None => Completed end.

(** A [Done] while interrupted is the one that ends the run. *)
Definition note_done (s : CodexSession) : CodexSession :=
  on_control (fun c => mk_cctl (cl_steering_open c) (cl_cancelled c) (cl_interrupted c)
                         (cl_done_after c || cl_interrupted c) (cl_signalled c)) s.

Definition next_steer : Stmt := with_state (fun s =>
  match tn_queue (cx_turns s) with
  | text :: rest => (pure (on_turns (set_queue rest)) >> steer_as_new_turn text)%stmt
  | [] => if cl_steering_open (cx_control s) then skip else break
  end).

Definition on_turn_completed (params : Value) : Stmt :=
  let error := match turn_error_message params with
               | Some m => Some m
               | None => if status_failed params then Some "Codex turn failed" else None
               end in
  (pure (on_turns (fun t => set_streamed ∅ (set_router (note_completed (turn_id params) (tn_router t)) t)))
   >> take_usage
   >> pure (on_turns (set_done_current true))
   >> with_state (fun s => send (done_ (turn_status error s) error s))
   >> with_state (fun s => if cx_interrupted s then (pure note_done >> break)%stmt else next_steer))%stmt.

Definition on_turn_failed (params : Value) : Stmt :=
  (pure (on_turns (fun t => set_router (note_completed (turn_id params) (tn_router t)) t))
   >> take_usage
   >> pure (fun s => note_done (on_turns (set_done_current true) s))
   >> with_state (fun s => try_send (done_ (if cx_interrupted s then Interrupted else Errored)
        (Some (default "Codex turn failed" (turn_error_message params))) s))
   >> break)%stmt.

Definition on_turn_aborted (params : Value) : Stmt :=
  (pure (on_turns (fun t => set_router (note_completed (turn_id params) (tn_router t)) t))
   >> pure (fun s => note_done (on_turns (set_done_current true) s))
   >> with_state (fun s => try_send (done_ Interrupted None s))
   >> break)%stmt.

Definition on_notification (method : string) (params : Value) : Stmt :=
  if String.eqb method "turn/started" then
    pure (on_turns (fun t => set_router (note_started (turn_id params) (tn_router t)) t))
  else if String.eqb method "item/agentMessage/delta" then
    (pure (on_turns (fun t => set_streamed ({[item_id params]} ∪ tn_streamed t) t))
     >> send_option (TextDelta <$> delta_text params))%stmt
  else if one_of ["item/reasoning/textDelta"; "item/reasoning/summaryTextDelta"] method then
    send_option (ReasoningDelta <$> delta_text params)
  else if String.eqb method "item/started" then on_item PStarted params
  else if String.eqb method "item/completed" then on_item PCompleted params
  else if String.eqb method "thread/tokenUsage/updated" then
    match usage_event params with Some u => pure (on_turns (set_usage (Some u))) | None => skip end
  else if String.eqb method "turn/completed" then on_turn_completed params
  else if String.eqb method "turn/failed" then on_turn_failed params
  else if String.eqb method "turn/aborted" then on_turn_aborted params
  else if String.eqb method "error" then send (ErrorEv (error_message "Codex error" params))
  else skip.

(** ** A child thread's notifications *)

Definition child_done (st : DoneStatus) (error : option string) (child : string) : AgentEvent :=
  Done st None error (Some child).

Definition child_item_events (phase : Phase) (params : Value) : list AgentEvent :=
  let item := default Null (obj_get params "item") in
  if bool_decide (phase = PCompleted) && agent_message item then [TextDelta newlines]
  else if user_message item then
    match phase with PCompleted => option_list (UserMessage <$> user_message_text item) | PStarted => [] end
  else map_item phase item.

Definition child_events (child method : string) (params : Value) : list AgentEvent :=
  if String.eqb method "turn/completed" then
    let failed := match turn_error_message params with Some _ => true | None => status_failed params end in
    [child_done (if failed then Errored else Completed) None child]
  else if String.eqb method "turn/failed" then [child_done Errored (turn_error_message params) child]
  else if String.eqb method "turn/aborted" then [child_done Interrupted None child]
  else if String.eqb method "item/agentMessage/delta" then option_list (TextDelta <$> delta_text params)
  else if one_of ["item/reasoning/textDelta"; "item/reasoning/summaryTextDelta"] method then
    option_list (ReasoningDelta <$> delta_text params)
  else if String.eqb method "item/started" then child_item_events PStarted params
  else if String.eqb method "item/completed" then child_item_events PCompleted params
  else if String.eqb method "error" then [ErrorEv (error_message "Codex subagent error" params)]
  else if String.eqb method "thread/closed" then [child_done Completed None child]
  else [].

(** The thread a notification is about, when it is another one than the root's. *)
Definition foreign_thread (thread method : string) (params : Value) : option string :=
  n ← notification_thread_id method params;
  if String.eqb n "" || String.eqb n thread then None else Some n.

(** A child's start with a spawn source registers it, unless an activity already has. *)
Definition register_spawn (child method : string) (params : Value) (s : CodexSession) : CodexSession :=
  let spawned := match pointer params ["thread"; "source"; "subAgent"; "thread_spawn"] with Some _ => true | None => false end in
  if String.eqb method "thread/started" && spawned then
    match cx_children s !! child with
    | Some _ => s
    | None => set_children (<[child := child]> (cx_children s)) s
    end
  else s.

Definition on_foreign (child method : string) (params : Value) : Stmt :=
  (pure (register_spawn child method params)
   >> match route_child_notification method with
      | RParent => on_notification method params
      | RConsumed => skip
      | RSubagent => with_state (fun s =>
          match cx_children s !! child with
          | Some call => send_all (tag call <$> child_events child method params)
          | None => skip
          end)
      end)%stmt.

Definition notified (method : string) (params : Value) : Stmt := with_state (fun s =>
  match foreign_thread (cx_thread s) method params with
  | Some child => on_foreign child method params
  | None => on_notification method params
  end).

(** ** Requests of the server *)

Definition find_field (q : Value) (keys : list string) : string :=
  default "" (head (omap (fun k => obj_get q k ≫= as_str) keys)).

Definition or_text (fallback s : string) : string := if String.eqb s "" then fallback else s.

Definition input_option (op : Value) : string :=
  match op with
  | Str s => s
  | other => default "" ((match obj_get other "label" with Some v => Some v | None => obj_get other "value" end) ≫= as_str)
  end.

Definition user_input_question (first ix : nat) (q : Value) : string * UserInputQuestion :=
  (or_text ("q" +:+ pretty ix) (find_field q ["id"; "questionId"; "question_id"]),
   mk_question (new_question_id (first + ix)) (or_text "Codex question" (find_field q ["header"; "title"; "label"]))
     (find_field q ["question"; "prompt"; "text"]) (input_option <$> array_field q "options")
     (default false (head (omap (fun k => obj_get q k ≫= as_boolean) ["multiSelect"; "multi_select"])))).

Definition user_input_questions (first : nat) (params : Value) : list (string * UserInputQuestion) :=
  imap (user_input_question first) (array_field params "questions").

Definition approved_command (params : Value) : string :=
  match obj_get params "command" with
  | Some (Str s) => s
  | Some (Array parts) => join " " (omap as_str parts)
  | _ => ""
  end.

Definition approval_question (id method : string) (params : Value) : UserInputQuestion :=
  let '(header, question) :=
    if contains "commandExecution" method then
      let command := approved_command params in
      ("Approve command",
       if String.eqb command "" then "Codex wants to run a command. Allow it?"
       else "Codex wants to run `" +:+ command +:+ "`. Allow it?")
    else
      let paths := omap (fun c => obj_get c "path" ≫= as_str) (array_field params "changes") in
      ("Approve file change",
       match paths with
       | [] => "Codex wants to modify files. Allow it?"
       | _ => "Codex wants to modify " +:+ join ", " paths +:+ ". Allow it?"
       end) in
  mk_question id header question ["Yes"; "No"] false.

Definition decision (accept : bool) : Value := Object [("decision", Str (if accept then "accept" else "decline"))].

Definition respond (id result : Value) (s : CodexSession) : CodexSession :=
  set_client (rpc_respond id result (cx_client s)) s.

(** Park a request behind the input bridge. *)
Definition park (a : CodexAsk) (questions : nat) (s : CodexSession) : CodexSession :=
  let o := cx_asks s in
  set_asks (mk_asks (<[as_count o := a]> (as_open o)) (S (as_count o)) (as_questions o + questions)) s.

Definition is_approval (method : string) : bool :=
  one_of ["item/commandExecution/requestApproval"; "item/fileChange/requestApproval"] method.

Definition handle_server_request (id : Value) (method : string) (params : Value) (s : CodexSession) : CodexSession :=
  if String.eqb method "item/tool/requestUserInput" then
    match user_input_questions (as_questions (cx_asks s)) params with
    | [] => respond id (Object [("answers", Object [])]) s
    | qs => park (AskInput id qs) (length qs) s
    end
  else if negb (is_approval method) then
    set_client (rpc_respond_error id (-32601) ("unsupported method: " +:+ method) (cx_client s)) s
  else if rq_auto_approve request then respond id (decision true) s
  else park (AskApproval id (approval_question (new_question_id (as_questions (cx_asks s))) method params)) 1 s.

Definition labels_of (answers : list UserInputAnswer) (q : UserInputQuestion) : list string :=
  match List.find (fun a => String.eqb (ua_question_id a) (uq_id q)) answers with Some a => ua_labels a | None => [] end.

Definition input_answers (qs : list (string * UserInputQuestion)) (answers : list UserInputAnswer) : Value :=
  Object [("answers", Object (foldl (fun m p =>
    map_put p.1 (Object [("answers", Array (Str <$> labels_of answers p.2))]) m) [] qs))].

Definition accepts (q : UserInputQuestion) (answers : list UserInputAnswer) : bool :=
  existsb (fun a => String.eqb (ua_question_id a) (uq_id q) && existsb (eq_ignore_ascii_case "yes") (ua_labels a)) answers.

Definition ask_answer (a : CodexAsk) (answers : list UserInputAnswer) : Value * Value :=
  match a with
  | AskInput id qs => (id, input_answers qs answers)
  | AskApproval id q => (id, decision (accepts q answers))
  end.

(** The task behind a parked request; a dropped sender answers nothing. *)
Definition bridge_answered (k : nat) (answers : option (list UserInputAnswer)) (s : CodexSession) : option CodexSession :=
  a ← as_open (cx_asks s) !! k;
  let '(id, result) := ask_answer a (default [] answers) in
  let o := cx_asks s in
  Some (respond id result (set_asks (mk_asks (delete k (as_open o)) (as_count o) (as_questions o)) s)).

(** ** Running *)

(** [run_session] returns: the channel of the reader goes with it. *)
Definition over (s : CodexSession) : CodexSession := set_at AOver (set_client (drop_incoming (cx_client s)) s).

(** The bookkeeping after the loop: a stream whose consumer listens has its [Done]. *)
Definition finish (s : CodexSession) : CodexSession :=
  let c := cx_control s in
  over
    (if cl_interrupted c && negb (cl_done_after c) then (try_send (done_ Interrupted None s) s).1
     else if negb (cl_interrupted c) && negb (tn_done_current (cx_turns s)) then
       (try_send (done_ Errored (Some crash) s) s).1
     else s).

Definition in_loop (f : Stmt) (s : CodexSession) : CodexSession :=
  let '(s, go) := f s in if go then s else finish s.

(** The session before its first answer. *)
Definition session_new : CodexSession :=
  ask "initialize" initialize_params AInitialize
    (mk_codex rpc_client_new 0 ALoop "" 0 ∅ (mk_turns router_new ∅ None [] false)
       (mk_cctl true false false false false) (mk_asks ∅ 0 0) [] false).

Definition start_thread : CodexSession -> CodexSession := ask "thread/start" (Object start_params) AStart.

Definition setup_failed (st : DoneStatus) (error : option string) (s : CodexSession) : CodexSession :=
  over (try_send (Done st None error None) s).1.

(** The thread is there: announce the session and start the first turn. *)
Definition thread_ready (thread : Value) (s : CodexSession) : CodexSession :=
  let s := set_thread (id_at ["thread"; "id"] thread) s in
  let started := SessionStarted Agent.Codex (default "" (rq_model request)) [] (rq_cwd request) (cx_thread s) (message_id s) in
  let '(s, go) := send started s in
  if go then ask "turn/start" (turn_params (cx_thread s) (rq_prompt request)) AFirstTurn s else over s.

(** A rejected steer waits for the end of its turn, unless the turn is over already. *)
Definition steer_answered (text expected : string) (out : string + Value) : Stmt :=
  match out with
  | inr _ => send_steered
  | inl _ => with_state (fun s =>
      if bool_decide (tr_active (cx_router s) = Some expected) && negb (is_completed expected (cx_router s))
      then pure (on_turns (fun t => set_queue (tn_queue t ++ [text]) t))
      else steer_as_new_turn text)
  end.

Definition answered (at_ : Await) (out : string + Value) (s : CodexSession) : option CodexSession :=
  match at_, out with
  | AInitialize _, inl m => Some (setup_failed Errored (Some (protocol_error "initialize" m)) s)
  | AInitialize _, inr _ =>
      let s := set_client (rpc_notify "initialized" None (cx_client s)) s in
      Some (match rq_resume request with
            | Some thread => ask "thread/resume" (Object (map_put "threadId" (Str thread) start_params)) AResume s
            | None => start_thread s
            end)
  | AResume _, inl _ => Some (start_thread s)
  | AResume _, inr thread | AStart _, inr thread => Some (thread_ready thread s)
  | AStart _, inl m => Some (setup_failed Errored (Some (protocol_error "thread/start" m)) s)
  | AFirstTurn _, inr started =>
      Some (set_at ALoop (on_turns (fun t => set_router (adopt_started (id_at ["turn"; "id"] started) (tn_router t)) t) s))
  | AFirstTurn _, inl m => Some (over (try_send (done_ Errored (Some (protocol_error "turn/start" m)) s) s).1)
  | ASteer _ text expected, out => Some (in_loop (steer_answered text expected out) (set_at ALoop s))
  | ANewTurn _ _, out => Some (in_loop (new_turn_answered out) (set_at ALoop s))
  | ALoop, _ | AOver, _ => None
  end.

Definition await_id (a : Await) : option Z :=
  match a with
  | AInitialize id | AResume id | AStart id | AFirstTurn id | ASteer id _ _ | ANewTurn id _ => Some id
  | ALoop | AOver => None
  end.

Definition in_setup (a : Await) : bool :=
  match a with AInitialize _ | AResume _ | AStart _ => true | _ => false end.

Definition incoming (i : Incoming) : Stmt :=
  match i with
  | INotification method params => notified method params
  | IRequest id method params => pure (handle_server_request id method params)
  | IEof => break
  end.

(** A steer out of the mailbox; [None]: the mailbox is closed. *)
Definition on_steer (prompt : option string) : Stmt := with_state (fun s =>
  match prompt with
  | Some text =>
      match tr_active (cx_router s) with
      | Some expected => pure (ask "turn/steer" (steer_params (cx_thread s) expected text) (fun id => ASteer id text expected))
      | None => steer_as_new_turn text
      end
  | None =>
      (pure (on_control (fun c => mk_cctl false (cl_cancelled c) (cl_interrupted c) (cl_done_after c) (cl_signalled c)))
       >> match tr_active (cx_router s), tn_queue (cx_turns s) with
          | None, [] => break
          | _, _ => skip
          end)%stmt
  end).

(** The interrupt of a turn is sent by a task of its own. [child.id()] is there
    until the child is waited for. *)
Definition on_interrupt : Stmt :=
  (pure (on_control (fun c => mk_cctl (cl_steering_open c) (cl_cancelled c) true (cl_done_after c) (cl_signalled c)))
   >> with_state (fun s =>
        match tr_active (cx_router s) with
        | Some turn =>
            (pure (fun s => set_client (rpc_request "turn/interrupt" (interrupt_params (cx_thread s) turn) (cx_client s)) s)
             >> pure (on_control (fun c => mk_cctl (cl_steering_open c) (cl_cancelled c) (cl_interrupted c)
                                             (cl_done_after c) true)))%stmt
        | None => break
        end))%stmt.

(** What can happen next: the child, the answer waited for, an arm of the
    [select], or the outside. *)
Inductive CodexStep :=
  | KLine (line : string)
  | KEof
  | KWriteFailed
  | KAnswer
  | KIncoming
  | KSteer (prompt : option string)
  | KInterrupt
  | KClosed
  | KCancel
  | KConsumerGone
  | KBridge (ask : nat) (answers : option (list UserInputAnswer)).

Definition at_loop (s : CodexSession) : bool := match cx_at s with ALoop => true | _ => false end.

Definition client_step (r : RpcStep) (s : CodexSession) : option CodexSession :=
  (fun c => set_client c s) <$> rpc_step (cx_client s) r.

(** [None]: not enabled. *)
Definition codex_step (k : CodexStep) (s : CodexSession) : option CodexSession :=
  match k with
  | KLine line => client_step (RLine line) s
  | KEof => client_step REof s
  | KWriteFailed => client_step RWriteFailed s
  | KAnswer =>
      id ← await_id (cx_at s);
      out ← rpc_answer id (cx_client s);
      answered (cx_at s) out s
  | KIncoming =>
      if at_loop s then
        i ← rc_forwarded (cx_client s) !! cx_taken s;
        Some (in_loop (incoming i) (set_taken (S (cx_taken s)) s))
      else None
  | KSteer prompt =>
      if at_loop s && cl_steering_open (cx_control s) && negb (cx_interrupted s)
      then Some (in_loop (on_steer prompt) s) else None
  | KInterrupt =>
      if cl_cancelled (cx_control s) then
        if at_loop s && negb (cx_interrupted s) then Some (in_loop on_interrupt s)
        else if in_setup (cx_at s) then Some (setup_failed Interrupted None s)
        else None
      else None
  | KClosed => if at_loop s && cx_gone s then Some (finish s) else None
  | KCancel =>
      Some (on_control (fun c => mk_cctl (cl_steering_open c) true (cl_interrupted c) (cl_done_after c) (cl_signalled c)) s)
  | KConsumerGone => Some (set_gone s)
  | KBridge k answers => bridge_answered k answers s
  end.

Definition codex_run (ks : list CodexStep) (s : CodexSession) : CodexSession :=
  foldl (fun s k => default s (codex_step k s)) s ks.
End Session.

(** ** Sample *)

Definition sample_request : RunRequest :=
  mk_run_request "go" (Some Agent.Codex) None None [] "/w" ReadOnly false None None [] None.

Definition result_line (id : Z) (result : Value) : CodexStep :=
  KLine (value_text (Object [("id", Int id); ("result", result)])).
Definition error_line (id : Z) (message : string) : CodexStep :=
  KLine (value_text (Object [("error", Object [("message", Str message)]); ("id", Int id)])).
Definition note_line (method : string) (params : Value) : CodexStep :=
  KLine (value_text (Object [("method", Str method); ("params", params)])).
Definition turn_of (id : string) : Value := Object [("turn", Object [("id", Str id)])].

(** The setup: initialized, thread [t], first turn [u]. *)
Definition sample_setup : list CodexStep :=
  [result_line 1 Null; KAnswer; result_line 2 (Object [("thread", Object [("id", Str "t")])]); KAnswer;
   result_line 3 (turn_of "u"); KAnswer].

Definition sample_run (ks : list CodexStep) : CodexSession :=
  @codex_run sample_json sample_id sample_question "crash" sample_request ks (session_new "1").
