(* ===== verification/CodexSafety.v ===== *)
(** What the Codex session keeps, whatever the app server sends and whenever
    steers, interrupts and losses come: the contract of its stream, the
    separation of child threads, the answers to the server's requests and the
    steers it took. *)
From S2P Require Import Prelude Json Text Agent Samples Claude JsonRpc CodexItems Loop Codex.

(** ** What a statement changes *)

(** Equal but for the stream, the turn's bookkeeping and the control flags. *)
Record same (s s' : CodexSession) : Prop := {
  sm_client : cx_client s' = cx_client s;
  sm_taken : cx_taken s' = cx_taken s;
  sm_at : cx_at s' = cx_at s;
  sm_thread : cx_thread s' = cx_thread s;
  sm_children : cx_children s' = cx_children s;
  sm_queue : tn_queue (cx_turns s') = tn_queue (cx_turns s);
  sm_asks : cx_asks s' = cx_asks s;
}.

#[export] Instance same_preorder : PreOrder same.
Proof. split; [by split|]. intros s1 s2 s3 [] []. split; congruence. Qed.

Definition quiet (f : Stmt) : Prop := forall s, same s (f s).1.

Create HintDb quiet.

Lemma quiet_seq f g : quiet f -> quiet g -> quiet (f >> g)%stmt.
Proof.
  intros Hf Hg s. pose proof (Hf s) as H. unfold seq. destruct (f s) as [s' []]; [|done]. etrans; [exact H|apply Hg].
Qed.

Lemma quiet_with f : (forall s, quiet (f s)) -> quiet (with_state f).
Proof. intros H s. apply H. Qed.

Lemma quiet_pure f : (forall s, same s (f s)) -> quiet (pure f).
Proof. done. Qed.

Lemma quiet_skip : quiet skip.
Proof. by intros s. Qed.

Lemma quiet_break : quiet break.
Proof. by intros s. Qed.

Lemma quiet_send e : quiet (send e).
Proof. intros s. unfold send. by destruct (cx_gone s). Qed.

Lemma quiet_try e : quiet (try_send e).
Proof. intros s. apply quiet_send. Qed.

#[export] Hint Resolve quiet_seq quiet_with quiet_pure quiet_skip quiet_break quiet_send quiet_try : quiet.

Lemma quiet_send_option e : quiet (send_option e).
Proof. destruct e; [apply quiet_send|apply quiet_skip]. Qed.

Lemma quiet_send_all es : quiet (send_all es).
Proof. induction es; cbn; [apply quiet_skip|auto with quiet]. Qed.

Lemma quiet_take_usage : quiet take_usage.
Proof. apply quiet_with. intros s. apply quiet_seq; [by apply quiet_pure|apply quiet_send_option]. Qed.

#[export] Hint Resolve quiet_send_option quiet_send_all quiet_take_usage : quiet.

Section Effects.
Context {J : JsonText} (new_message_id new_question_id : nat -> string) (version crash : string) (request : RunRequest).

Lemma quiet_send_steered : quiet (send_steered new_message_id).
Proof. apply quiet_seq; [by apply quiet_pure|auto with quiet]. Qed.

Lemma quiet_new_turn_answered out : quiet (new_turn_answered new_message_id out).
Proof.
  destruct out as [m|v]; cbn [new_turn_answered]; apply quiet_seq; auto with quiet;
    [by apply quiet_pure|apply quiet_send_steered].
Qed.

Lemma quiet_completed_message item : quiet (completed_message new_message_id item).
Proof.
  apply quiet_with. intros s. repeat apply quiet_seq; auto with quiet. by apply quiet_pure.
Qed.

Lemma quiet_turn_failed params : quiet (on_turn_failed params).
Proof. repeat apply quiet_seq; auto with quiet; by apply quiet_pure. Qed.

Lemma quiet_turn_aborted params : quiet (on_turn_aborted params).
Proof. repeat apply quiet_seq; auto with quiet; by apply quiet_pure. Qed.

(** What a notification does beyond that: register a child thread, or start a
    queued steer. *)
Inductive effect (s : CodexSession) : CodexSession -> Prop :=
  | eff_same s' : same s s' -> effect s s'
  | eff_child child call s' : child <> cx_thread s ->
      same (set_children (<[child := call]> (cx_children s)) s) s' -> effect s s'
  | eff_next text rest s' : tn_queue (cx_turns s) = text :: rest -> same (on_turns (set_queue rest) s) s' ->
      effect s (ask "turn/start" (turn_params request (cx_thread s') text) (fun id => ANewTurn id text) s').

Lemma effect_quiet f s : quiet f -> effect s (f s).1.
Proof. intros H. apply eff_same, H. Qed.

(** Quiet first, then the rest. *)
Lemma effect_after f g s : quiet f -> (forall s', same s s' -> effect s' (g s').1) -> effect s ((f >> g)%stmt s).1.
Proof.
  intros Hf Hg. pose proof (Hf s) as H. unfold seq. destruct (f s) as [s' []]; [|by apply eff_same].
  destruct H as [E1 E2 E3 E4 E5 E6 E7].
  destruct (Hg s' ltac:(by split)) as [s2 H2|child call s2 Hne H2|text rest s2 Hq H2].
  - apply eff_same. destruct H2. split; cbn in *; congruence.
  - apply (eff_child s child call); [rewrite <- E4; exact Hne|]. destruct H2. split; cbn in *; congruence.
  - apply (eff_next s text rest); [cbn in *; congruence|]. destruct H2. split; cbn in *; congruence.
Qed.

Lemma effect_item phase params s : effect s (on_item new_message_id phase params s).1.
Proof.
  unfold on_item, with_state. destruct (if sub_agent_activity _ then _ else _) as [s'|] eqn:E; [|by apply eff_same].
  assert (quiet (if agent_message (default Null (obj_get params "item")) then
      match phase with PCompleted => completed_message new_message_id (default Null (obj_get params "item")) | PStarted => skip end
      else send_all (map_item phase (default Null (obj_get params "item"))))) as Hq.
  { destruct (agent_message _), phase; auto using quiet_completed_message with quiet. }
  specialize (Hq s'). unfold seq, pure.
  destruct (sub_agent_activity _); [|injection E as <-; by apply eff_same].
  unfold register_activity in E. destruct (_ && _) eqn:Ec.
  - injection E as <-. eapply eff_child; [|exact Hq]. intros Heq. rewrite Heq, String.eqb_refl in Ec.
    by rewrite andb_false_r in Ec.
  - match type of E with (if ?b then _ else _) = _ => destruct b end; [done|]. injection E as <-. by apply eff_same.
Qed.

Lemma effect_next s : effect s (next_steer request s).1.
Proof.
  unfold next_steer, with_state. destruct (tn_queue (cx_turns s)) as [|text rest] eqn:Eq.
  - destruct (cl_steering_open _); by apply eff_same.
  - apply (eff_next s text rest (on_turns (set_queue rest) s)); [done|]. done.
Qed.

Lemma effect_turn_completed params s : effect s (on_turn_completed request params s).1.
Proof.
  repeat (apply effect_after; [first [by apply quiet_pure|auto with quiet]|intros s' _]; clear s; rename s' into s).
  unfold with_state. destruct (cx_interrupted s); [|apply effect_next].
  apply effect_quiet. apply quiet_seq; [by apply quiet_pure|auto with quiet].
Qed.

Lemma effect_notification method params s : effect s (on_notification new_message_id request method params s).1.
Proof.
  unfold on_notification. destruct (String.eqb _ _); [apply effect_quiet; by apply quiet_pure|].
  destruct (String.eqb _ _).
  { apply effect_quiet, quiet_seq; [by apply quiet_pure|auto with quiet]. }
  destruct (one_of _ _); [apply effect_quiet; auto with quiet|].
  do 2 (destruct (String.eqb _ _); [apply effect_item|]).
  destruct (String.eqb _ _).
  { apply effect_quiet. destruct (usage_event params); [by apply quiet_pure|auto with quiet]. }
  destruct (String.eqb _ _); [apply effect_turn_completed|].
  destruct (String.eqb _ _); [apply effect_quiet, quiet_turn_failed|].
  destruct (String.eqb _ _); [apply effect_quiet, quiet_turn_aborted|].
  destruct (String.eqb _ _); apply effect_quiet; auto with quiet.
Qed.
End Effects.

(** ** Children *)

Definition emit (es : list AgentEvent) (s : CodexSession) : CodexSession :=
  mk_codex (cx_client s) (cx_taken s) (cx_at s) (cx_thread s) (cx_message s) (cx_children s) (cx_turns s)
    (cx_control s) (cx_asks s) (cx_emitted s ++ es) (cx_gone s).

Lemma emit_nil s : emit [] s = s.
Proof. unfold emit. rewrite app_nil_r. by destruct s. Qed.

Lemma emit_app es fs s : emit fs (emit es s) = emit (es ++ fs) s.
Proof. unfold emit. cbn. by rewrite app_assoc. Qed.

Lemma send_open e s : cx_gone s = false -> send e s = (emit [e] s, true).
Proof. intros H. unfold send, emit. by rewrite H. Qed.

Lemma send_gone e s : cx_gone s = true -> send e s = (s, false).
Proof. intros H. unfold send. by rewrite H. Qed.

Lemma send_all_open es s : cx_gone s = false -> send_all es s = (emit es s, true).
Proof.
  revert s. induction es as [|e es IH]; intros s H; cbn; [by rewrite emit_nil|].
  unfold seq. rewrite (send_open e s H), IH by done. by rewrite emit_app.
Qed.

Lemma send_all_gone es s : cx_gone s = true -> (send_all es s).1 = s.
Proof. intros H. destruct es as [|e es]; cbn; [done|]. unfold seq. by rewrite (send_gone e s H). Qed.

(** What the route table leaves to the parent is nothing the parent handles. *)
Lemma parent_route_skips {J : JsonText} new_message_id request method params s :
  route_child_notification method = RParent -> on_notification new_message_id request method params s = (s, true).
Proof.
  unfold route_child_notification. destruct (one_of SUBAGENT_METHODS method) eqn:E1; [done|].
  destruct (one_of CONSUMED_METHODS method) eqn:E2; [done|]. intros _.
  assert (forall l m, one_of l method = false -> m ∈ l -> String.eqb method m = false) as Hno.
  { intros l m H Hin. apply not_true_iff_false. intros Hm. apply not_true_iff_false in H. destruct H.
    apply existsb_exists. exists m. by rewrite <- list_elem_of_In. }
  unfold on_notification.
  assert (String.eqb method "turn/started" = false /\ String.eqb method "thread/tokenUsage/updated" = false) as [-> ->].
  { split; apply (Hno CONSUMED_METHODS); try done; by vm_compute; repeat (first [left|right]). }
  assert (forall m, m ∈ SUBAGENT_METHODS -> String.eqb method m = false) as Hs by (intros m; by apply Hno).
  unfold one_of. cbn [existsb].
  rewrite !Hs; [done|..]; unfold SUBAGENT_METHODS; repeat (first [left|right]).
Qed.

(** The state is the same but for the stream and the registered children. *)
Record aside (s s' : CodexSession) : Prop := {
  ad_same : same (set_children (cx_children s') s) s';
  ad_message : cx_message s' = cx_message s;
  ad_turns : cx_turns s' = cx_turns s;
  ad_control : cx_control s' = cx_control s;
  ad_gone : cx_gone s' = cx_gone s;
}.

(** [finish] and [over] end the run, and keep the rest. *)
Record ended (s s' : CodexSession) : Prop := {
  ed_at : cx_at s' = AOver;
  ed_client : cx_client s' = drop_incoming (cx_client s);
  ed_taken : cx_taken s' = cx_taken s;
  ed_thread : cx_thread s' = cx_thread s;
  ed_children : cx_children s' = cx_children s;
  ed_queue : tn_queue (cx_turns s') = tn_queue (cx_turns s);
  ed_asks : cx_asks s' = cx_asks s;
}.

Lemma over_ended s s' : same s s' -> ended s (over s').
Proof. intros []. split; cbn; congruence. Qed.

Lemma try_send_same e s : same s (try_send e s).1.
Proof. apply quiet_try. Qed.

Lemma finish_ended crash s : ended s (finish crash s).
Proof. unfold finish. apply over_ended. repeat (destruct (_ && _); [apply try_send_same|]). done. Qed.

Lemma setup_failed_ended st error s : ended s (setup_failed st error s).
Proof. apply over_ended, try_send_same. Qed.

Section Children.
Context {J : JsonText} (new_message_id new_question_id : nat -> string) (version crash : string) (request : RunRequest).

Lemma register_spawn_spec child method params s :
  let s' := register_spawn child method params s in
  aside s s' /\ cx_emitted s' = cx_emitted s /\
  (cx_children s' = cx_children s \/
   cx_children s !! child = None /\ cx_children s' = <[child := child]> (cx_children s)).
Proof.
  cbn zeta. unfold register_spawn. destruct (_ && _); [|by repeat split; left].
  destruct (cx_children s !! child) eqn:E; [by repeat split; left|]. by repeat split; right.
Qed.

(** The root is not among the children; there are none before it is known. *)
Definition root_ok (s : CodexSession) : Prop :=
  cx_children s !! cx_thread s = None /\ (in_setup (cx_at s) = true -> cx_children s = ∅).

Lemma root_same s s' : same s s' -> root_ok s -> root_ok s'.
Proof. intros [_ _ E3 E4 E5 _ _] [H1 H2]. unfold root_ok. by rewrite E3, E4, E5. Qed.

Lemma root_ended s s' : ended s s' -> root_ok s -> root_ok s'.
Proof. intros [E1 _ _ E4 E5 _ _] [H1 H2]. unfold root_ok. by rewrite E1, E4, E5. Qed.

Lemma root_finish crash' s : root_ok s -> root_ok (finish crash' s).
Proof. apply root_ended, finish_ended. Qed.

Lemma root_loop f s : root_ok (f s).1 -> root_ok (in_loop crash f s).
Proof. unfold in_loop. destruct (f s) as [s' []]; [done|apply root_finish]. Qed.

Lemma root_ask method params wait s :
  (forall id, in_setup (wait id) = true -> cx_children s = ∅) -> root_ok s -> root_ok (ask method params wait s).
Proof. intros Hw [H1 H2]. split; [done|]. apply Hw. Qed.

Lemma root_ready v s : cx_children s = ∅ -> root_ok (thread_ready new_message_id request v s).
Proof. intros H. unfold thread_ready, send. destruct (cx_gone _); split; cbn; rewrite ?H; done. Qed.

Lemma root_effect s s' : cx_at s = ALoop -> effect request s s' -> root_ok s -> root_ok s'.
Proof.
  intros Hat [s1 H|child call s1 Hne H|text rest s1 _ H] Hr.
  - by apply (root_same s).
  - apply (root_same _ _ H). split; cbn; [rewrite lookup_insert_ne by done; apply Hr|by rewrite Hat].
  - apply root_ask; [done|]. by apply (root_same _ _ H).
Qed.

Lemma root_notified method params s : cx_at s = ALoop -> root_ok s -> root_ok (notified new_message_id request method params s).1.
Proof.
  intros Hat Hr. unfold notified, with_state. destruct (foreign_thread _ _ _) as [child|] eqn:Ef.
  - assert (child <> cx_thread s) as Hne.
    { unfold foreign_thread in Ef. destruct (notification_thread_id method params) as [n|]; [|done]. cbn in Ef.
      destruct (_ || _) eqn:E; [done|]. injection Ef as ->. apply orb_false_iff in E as [_ E].
      by apply String.eqb_neq in E. }
    destruct (register_spawn_spec child method params s) as (Ha & He & Hc).
    assert (root_ok (register_spawn child method params s)) as Hs.
    { apply (root_same _ _ (ad_same _ _ Ha)). split; cbn; [|by rewrite Hat].
      destruct Hc as [->|[_ ->]]; [apply Hr|]. rewrite lookup_insert_ne by done. apply Hr. }
    unfold on_foreign, seq, pure. destruct (route_child_notification method) eqn:Er.
    + unfold with_state. destruct (cx_children (register_spawn child method params s) !! child); [|exact Hs]. by apply (root_same _ _ (quiet_send_all _ _)).
    + exact Hs.
    + by rewrite parent_route_skips.
  - by apply (root_effect s); [|apply effect_notification|].
Qed.

Lemma root_request id method params s : root_ok s -> root_ok (handle_server_request new_question_id request id method params s).
Proof.
  intros H. unfold handle_server_request. destruct (String.eqb _ _); [by destruct (user_input_questions _ _ _)|].
  destruct (negb _); [done|]. by destruct (rq_auto_approve request).
Qed.

Lemma root_steer prompt s : root_ok s -> root_ok (on_steer request prompt s).1.
Proof.
  intros H. unfold on_steer, with_state. destruct prompt as [text|].
  - destruct (tr_active _); [by apply root_ask|]. cbn. by apply root_ask.
  - cbn. destruct (tr_active _); [done|]. by destruct (tn_queue _).
Qed.

Lemma root_interrupt s : root_ok s -> root_ok (on_interrupt s).1.
Proof. intros H. unfold on_interrupt, with_state. cbn. by destruct (tr_active _). Qed.

Lemma root_answered s s' out :
  root_ok s -> answered new_message_id crash request (cx_at s) out s = Some s' -> root_ok s'.
Proof.
  intros [H1 H2] E. destruct (cx_at s) as [id|id|id|id| |id text expected|id text|] eqn:Ea; try done; cbn in H2.
  1-3: specialize (H2 eq_refl).
  - destruct out as [m|v]; injection E as <-.
    + apply (root_ended s); [apply setup_failed_ended|]. split; [done|]. by rewrite Ea.
    + destruct (rq_resume request); by split.
  - destruct out as [m|v]; injection E as <-; [by split|]. by apply root_ready.
  - destruct out as [m|v]; injection E as <-; [|by apply root_ready].
    apply (root_ended s); [apply setup_failed_ended|]. split; [done|]. by rewrite Ea.
  - destruct out as [m|v]; injection E as <-; [|by split].
    apply (root_ended s); [apply over_ended, try_send_same|]. split; [done|]. by rewrite Ea.
  - injection E as <-. apply root_loop. destruct out as [m|v]; cbn.
    + unfold with_state. by destruct (_ && _).
    + apply (root_same (set_at ALoop s)); [apply quiet_send_steered|done].
  - injection E as <-. apply root_loop. by apply (root_same (set_at ALoop s)); [apply quiet_new_turn_answered|].
Qed.

Lemma codex_step_root k s s' :
  root_ok s -> codex_step new_message_id new_question_id crash request k s = Some s' -> root_ok s'.
Proof.
  assert (forall r, root_ok s -> client_step r s = Some s' -> root_ok s') as Hclient.
  { intros r H E. unfold client_step in E. destruct (rpc_step _ r); [|done]. by injection E as <-. }
  intros H E. destruct k as [line| | | | |prompt| | | | |k a]; cbn [codex_step] in E; [by eapply Hclient..| | | | | | | |].
  - destruct (await_id (cx_at s)) as [id|]; [|done]. cbn in E. destruct (rpc_answer _ _) as [out|]; [|done]. cbn in E.
    by eapply root_answered.
  - unfold at_loop in E. destruct (cx_at s) eqn:Ea; try done. destruct (_ !! _) as [i|]; [|done]. injection E as <-.
    apply root_loop. destruct i as [method params|id method params|]; [|by apply (root_request id method params (set_taken _ s))|exact H].
    by apply (root_notified method params (set_taken _ s)).
  - destruct (_ && _); [|done]. injection E as <-. apply root_loop. by apply root_steer.
  - destruct (cl_cancelled _); [|done]. destruct (_ && _); [injection E as <-; apply root_loop; by apply root_interrupt|].
    destruct (in_setup _); [|done]. injection E as <-. by apply (root_ended s); [apply setup_failed_ended|].
  - destruct (_ && _); [|done]. injection E as <-. by apply root_finish.
  - by injection E as <-.
  - by injection E as <-.
  - unfold bridge_answered in E. destruct (_ !! k) as [x|]; [|done]. cbn in E. destruct (ask_answer x _).
    by injection E as <-.
Qed.

Lemma codex_run_root ks :
  let s := codex_run new_message_id new_question_id crash request ks (session_new version) in
  cx_children s !! cx_thread s = None.
Proof.
  cbn zeta. assert (root_ok (session_new version)) as H by done. revert H. generalize (session_new version).
  induction ks as [|k ks IH]; intros s H; [apply H|]. cbn. apply IH.
  destruct (codex_step _ _ _ _ k s) as [s'|] eqn:E; [by eapply codex_step_root|done].
Qed.

(** A child thread's traffic never touches its parent: a notification that
    names another thread leaves the turn in flight, the held usage, the queued
    steers, the message ids, the interrupt and the client as they were, never
    ends the loop while somebody listens, and adds to the stream only events
    tagged with the call its thread is registered under; and in every run the
    root is never registered as a child, so its own end always settles its
    turn. *)
Theorem children_never_touch_parent :
  (forall child method params s s' go,
     foreign_thread (cx_thread s) method params = Some child ->
     notified new_message_id request method params s = (s', go) ->
     aside s s' /\ (go = false -> cx_gone s = true) /\
     (cx_children s' = cx_children s \/
      cx_children s !! child = None /\ cx_children s' = <[child := child]> (cx_children s)) /\
     exists new, cx_emitted s' = cx_emitted s ++ new /\
       forall e, e ∈ new -> exists call e', cx_children s' !! child = Some call /\ e = Subagent call e') /\
  (forall ks, let s := codex_run new_message_id new_question_id crash request ks (session_new version) in
     cx_children s !! cx_thread s = None).
Proof.
  split.
  - intros child method params s s' go Hf. unfold notified, with_state. rewrite Hf. unfold on_foreign, seq, pure.
    destruct (register_spawn_spec child method params s) as (Ha & He & Hc).
    set (r := register_spawn child method params s) in *. destruct (route_child_notification method) eqn:Er.
    + unfold with_state. destruct (cx_children r !! child) as [call|] eqn:Ech; cycle 1.
      { intros [= <- <-]. split_and!; [done..|]. exists []. rewrite app_nil_r. split; [done|set_solver]. }
      destruct (cx_gone r) eqn:Eg.
      * intros E. pose proof (send_all_gone (tag call <$> child_events child method params) r Eg) as E1.
        rewrite E in E1. cbn in E1. subst s'. split_and!; try done; [by intros _; rewrite <- (ad_gone _ _ Ha)|].
        exists []. rewrite app_nil_r. split; [done|set_solver].
      * rewrite send_all_open by done. intros [= <- <-]. split; [|split_and!; [done..|]].
        { by destruct Ha as [[]]. }
        eexists. cbn. rewrite He. split; [done|]. intros e (e' & -> & _)%list_elem_of_fmap. by exists call, e'.
    + intros [= <- <-]. split_and!; [done..|]. exists []. rewrite app_nil_r. split; [done|set_solver].
    + rewrite parent_route_skips by done. intros [= <- <-]. split_and!; [done..|].
      exists []. rewrite app_nil_r. split; [done|set_solver].
  - intros ks. apply codex_run_root.
Qed.
End Children.

(** ** The server's requests *)

(** The request a written line answers, and the one a message makes. *)
Definition response_of (v : Value) : option Value :=
  match obj_get v "method" with Some _ => None | None => obj_get v "id" end.
Definition request_in (i : Incoming) : option Value := match i with IRequest id _ _ => Some id | _ => None end.

Definition ask_id (a : CodexAsk) : Value := match a with AskInput id _ | AskApproval id _ => id end.
Definition parked (s : CodexSession) : list Value := ask_id <$> (map_to_list (as_open (cx_asks s))).*2.

(** The client wrote no response. *)
Definition no_reply (c c' : RpcClient) : Prop :=
  onward c c' /\ exists l, rc_written c' = rc_written c ++ l /\
    forall v, v ∈ l -> response_of v = None /\ obj_get v "result" = None.

#[export] Instance no_reply_preorder : PreOrder no_reply.
Proof.
  split.
  - intros c. split; [done|]. exists []. rewrite app_nil_r. split; [done|set_solver].
  - intros c1 c2 c3 [G1 (l1 & E1 & H1)] [G2 (l2 & E2 & H2)]. split; [by etrans|].
    exists (l1 ++ l2). rewrite E2, E1, app_assoc. split; [done|]. set_solver.
Qed.

Lemma no_reply_quiet c c' : onward c c' -> rc_written c' = rc_written c -> no_reply c c'.
Proof. intros G E. split; [done|]. exists []. rewrite app_nil_r. split; [done|set_solver]. Qed.

Lemma no_reply_write v c : response_of v = None -> obj_get v "result" = None -> no_reply c (write_value v c).
Proof.
  intros H1 H2. split; [apply onward_write|]. unfold write_value. destruct (rc_open c).
  - exists [v]. split; [done|]. by intros w ->%list_elem_of_singleton.
  - exists []. rewrite app_nil_r. split; [done|set_solver].
Qed.

Lemma no_reply_request method params c : no_reply c (rpc_request method params c).
Proof.
  split; [apply onward_request|]. unfold rpc_request. cbn [rc_open]. destruct (rc_open c) eqn:E.
  - eexists. unfold write_value. cbn. split; [done|]. by intros w ->%list_elem_of_singleton.
  - exists []. cbn. rewrite app_nil_r. split; [done|set_solver].
Qed.

Lemma no_reply_notify method c : no_reply c (rpc_notify method None c).
Proof. by apply no_reply_write. Qed.

Lemma no_reply_drop c : no_reply c (drop_incoming c).
Proof. apply no_reply_quiet; [apply onward_drop|done]. Qed.

Section Replies.
Context {J : JsonText}.

Lemma no_reply_step r c c' :
  match r with RRequest _ _ => False | _ => True end -> rpc_step c r = Some c' -> no_reply c c'.
Proof.
  intros Hr E. apply no_reply_quiet; [by eapply onward_step|].
  destruct r as [|line| | |]; [done|..]; cbn in E; [destruct (rc_reading c); [|done]..| |]; injection E as <-; try done.
  - unfold rpc_line. destruct (String.eqb _ _); [done|]. destruct (from_text _) as [msg|]; [|done].
    unfold rpc_message, forward. destruct (_ ≫= as_str), (obj_get msg "id") as [w|]; try done; try by destruct (rc_listening c).
    destruct (response_id w); [|done]. by case_decide.
  - unfold rpc_eof, forward. by destruct (rc_listening _).
Qed.
End Replies.

(** Nothing about the server's requests changed. *)
Record idle (s s' : CodexSession) : Prop := {
  id_client : no_reply (cx_client s) (cx_client s');
  id_asks : cx_asks s' = cx_asks s;
  id_taken : cx_taken s' = cx_taken s;
}.

#[export] Instance idle_preorder : PreOrder idle.
Proof. split; [by split|]. intros s1 s2 s3 [C1 A1 T1] [C2 A2 T2]. split; [by etrans|congruence..]. Qed.

Lemma idle_same s s' : same s s' -> idle s s'.
Proof. intros H. split; [by rewrite (sm_client _ _ H)|apply H..]. Qed.

Lemma idle_ended s s' : ended s s' -> idle s s'.
Proof. intros H. split; [|apply H..]. rewrite (ed_client _ _ H). apply no_reply_drop. Qed.

Lemma idle_ask method params wait s : idle s (ask method params wait s).
Proof. split; [apply no_reply_request|done..]. Qed.

Lemma idle_child child call s : idle s (set_children (<[child := call]> (cx_children s)) s).
Proof. by split. Qed.

Section Idle.
Context {J : JsonText} (new_message_id new_question_id : nat -> string) (version crash : string) (request : RunRequest).

Lemma idle_effect s s' : effect request s s' -> idle s s'.
Proof.
  intros [s1 H|child call s1 _ H|text rest s1 _ H]; [by apply idle_same|by etrans; [apply idle_child|apply idle_same]|].
  etrans; [|apply idle_ask]. etrans; [|by apply idle_same]. by split.
Qed.

Lemma idle_loop f s : idle s (f s).1 -> idle s (in_loop crash f s).
Proof.
  unfold in_loop. destruct (f s) as [s' []]; [done|]. intros H. etrans; [exact H|]. apply idle_ended, finish_ended.
Qed.

Lemma idle_notified method params s : idle s (notified new_message_id request method params s).1.
Proof.
  unfold notified, with_state. destruct (foreign_thread _ _ _) as [child|]; [|apply idle_effect, effect_notification].
  destruct (register_spawn_spec child method params s) as ([Ha _ _ _ _] & _ & _).
  assert (idle s (register_spawn child method params s)) as Hr by (etrans; [|by apply idle_same]; by split).
  unfold on_foreign, seq, pure. destruct (route_child_notification method) eqn:Er.
  - unfold with_state. destruct (cx_children (register_spawn child method params s) !! child); [|exact Hr].
    etrans; [exact Hr|]. apply idle_same, quiet_send_all.
  - exact Hr.
  - by rewrite parent_route_skips.
Qed.

Lemma idle_steer prompt s : idle s (on_steer request prompt s).1.
Proof.
  unfold on_steer, with_state. destruct prompt as [text|].
  - destruct (tr_active _); cbn; apply idle_ask.
  - cbn. destruct (tr_active _); [by split|]. destruct (tn_queue _); by split.
Qed.

Lemma idle_interrupt s : idle s (on_interrupt s).1.
Proof.
  unfold on_interrupt, with_state. cbn. destruct (tr_active _); [|by split]. split; [apply no_reply_request|done..].
Qed.

Lemma idle_answered s s' at_ out : answered new_message_id crash request at_ out s = Some s' -> idle s s'.
Proof.
  assert (forall v s, idle s (thread_ready new_message_id request v s)) as Hready.
  { intros v s0. unfold thread_ready, send. destruct (cx_gone _); (split; [|done..]); [apply no_reply_drop|apply no_reply_request]. }
  assert (forall f (s : CodexSession), quiet f -> idle s (in_loop crash f (set_at ALoop s))) as Hloop.
  { intros f s0 Hf. etrans; [|apply idle_loop; apply idle_same; apply Hf]. by split. }
  intros E. destruct at_, out as [m|v]; try done; injection E as <-.
  - eapply idle_ended, setup_failed_ended.
  - etrans; [|destruct (rq_resume request); apply idle_ask]. split; [apply no_reply_notify|done..].
  - apply idle_ask.
  - apply Hready.
  - eapply idle_ended, setup_failed_ended.
  - apply Hready.
  - eapply idle_ended, over_ended, try_send_same.
  - by split.
  - etrans; [|apply idle_loop]; [by split|]. cbn. unfold with_state. destruct (_ && _); [by split|apply idle_ask].
  - apply Hloop, quiet_send_steered.
  - apply Hloop, (quiet_new_turn_answered new_message_id (inl m)).
  - apply Hloop, (quiet_new_turn_answered new_message_id (inr v)).
Qed.
End Idle.

Section Requests.
Context {J : JsonText} (new_message_id new_question_id : nat -> string) (version crash : string) (request : RunRequest).

Record requests_ok (s : CodexSession) : Prop := {
  rk_taken : (cx_taken s <= length (rc_forwarded (cx_client s)))%nat;
  rk_fresh : forall k a, as_open (cx_asks s) !! k = Some a -> (k < as_count (cx_asks s))%nat;
  rk_balance : rc_open (cx_client s) = true ->
    omap response_of (rc_written (cx_client s)) ++ parked s ≡ₚ
      omap request_in (take (cx_taken s) (rc_forwarded (cx_client s)));
}.

Lemma requests_idle s s' : idle s s' -> requests_ok s -> requests_ok s'.
Proof.
  intros [[[[_ _ [f F] O _] _] (l & W & Hl)] A T] [H1 H2 H3]. split.
  - rewrite T, F, length_app. lia.
  - by rewrite A.
  - intros Ho. unfold parked. rewrite A, T, F, W, omap_app, take_app_le by done.
    assert (omap response_of l = []) as ->.
    { clear -Hl. induction l as [|v l IH]; [done|]. cbn. destruct (Hl v) as [-> _]; [by left|]. apply IH. set_solver. }
    rewrite app_nil_r. by apply H3, O.
Qed.

(** A response, when the writer still writes. *)
Definition replies (id : Value) (s s' : CodexSession) : Prop :=
  rc_open (cx_client s') = rc_open (cx_client s) /\ rc_forwarded (cx_client s') = rc_forwarded (cx_client s) /\
  (rc_open (cx_client s) = true ->
   omap response_of (rc_written (cx_client s')) = omap response_of (rc_written (cx_client s)) ++ [id]).

Lemma replies_write v id c : response_of v = Some id -> forall s, replies id (set_client c s) (set_client (write_value v c) s).
Proof.
  intros Hv s. unfold replies, write_value. cbn. destruct (rc_open c) eqn:E; cbn; split_and!; try done.
  intros _. by rewrite omap_app; cbn; rewrite Hv.
Qed.

Lemma replies_value v id s : response_of v = Some id -> replies id s (set_client (write_value v (cx_client s)) s).
Proof. intros H. pose proof (replies_write v id (cx_client s) H s) as Hr. by destruct s. Qed.

(** Taking a request in, it is answered at once or parked. *)
Lemma handle_requests id method params s :
  requests_ok s -> rc_forwarded (cx_client s) !! cx_taken s = Some (IRequest id method params) ->
  requests_ok (handle_server_request new_question_id request id method params (set_taken (S (cx_taken s)) s)).
Proof.
  intros [H1 H2 H3] Hi. pose proof (lookup_lt_Some _ _ _ Hi) as Hlt.
  set (s0 := set_taken (S (cx_taken s)) s).
  assert (forall s', replies id s0 s' -> cx_taken s' = cx_taken s0 -> cx_asks s' = cx_asks s0 -> requests_ok s') as Hreply.
  { intros s' (Ro & Rf & Rw) T A. split; rewrite ?T, ?Rf, ?A; [cbn; lia|done|].
    intros Ho. rewrite Ro in Ho. unfold parked. rewrite A, Rw by done. cbn.
    rewrite (take_S_r _ _ _ Hi), omap_app. cbn. rewrite <- (H3 Ho). unfold parked. solve_Permutation. }
  assert (forall a n, ask_id a = id -> requests_ok (park a n s0)) as Hpark.
  { intros a n Ha. split; cbn.
    - lia.
    - intros k b [[<- _]|[_ Hk]]%lookup_insert_Some; [lia|]. specialize (H2 _ _ Hk). lia.
    - intros Ho. unfold parked, park. cbn.
      assert (as_open (cx_asks s) !! as_count (cx_asks s) = None) as Hn.
      { destruct (as_open (cx_asks s) !! as_count (cx_asks s)) eqn:E; [|done]. apply H2 in E. lia. }
      rewrite (map_to_list_insert _ _ _ Hn). cbn. rewrite Ha, (take_S_r _ _ _ Hi), omap_app. cbn.
      rewrite <- (H3 Ho). unfold parked. solve_Permutation. }
  unfold handle_server_request. destruct (String.eqb _ _).
  - destruct (user_input_questions _ _ _) as [|q qs]; [|by apply Hpark].
    by apply Hreply; [apply replies_value| |].
  - destruct (negb _); [by apply Hreply; [apply replies_value| |]|].
    destruct (rq_auto_approve request); [by apply Hreply; [apply replies_value| |]|by apply Hpark].
Qed.

Lemma bridge_requests k answers s s' : requests_ok s -> bridge_answered k answers s = Some s' -> requests_ok s'.
Proof.
  intros [H1 H2 H3] E. unfold bridge_answered in E. destruct (as_open (cx_asks s) !! k) as [a|] eqn:Ek; [|done]. cbn in E.
  destruct (ask_answer a (default [] answers)) as [id result] eqn:Ea. injection E as <-.
  assert (id = ask_id a) as -> by (by destruct a; injection Ea).
  set (s0 := set_asks (mk_asks (delete k (as_open (cx_asks s))) (as_count (cx_asks s)) (as_questions (cx_asks s))) s).
  destruct (replies_value (Object [("id", ask_id a); ("jsonrpc", Str "2.0"); ("result", result)]) (ask_id a) s0 eq_refl)
    as (Ro & Rf & Rw).
  split.
  - unfold respond. cbn [cx_taken set_client]. unfold rpc_respond. rewrite Rf. exact H1.
  - cbn. intros j b [_ Hj]%lookup_delete_Some. by apply H2 in Hj.
  - unfold respond, rpc_respond. cbn [cx_taken set_client]. rewrite Rf, Ro. intros Ho. rewrite (Rw Ho).
    cbn. rewrite <- (H3 Ho). unfold parked. cbn.
    rewrite <- (map_to_list_delete _ _ _ Ek). cbn. solve_Permutation.
Qed.

(** What a step can be about. *)
Inductive step_about (k : CodexStep) (s : CodexSession) : CodexSession -> Prop :=
  | about_nothing s' : idle s s' -> step_about k s s'
  | about_message i s' : rc_forwarded (cx_client s) !! cx_taken s = Some i -> request_in i = None ->
      idle (set_taken (S (cx_taken s)) s) s' -> step_about k s s'
  | about_request id method params : rc_forwarded (cx_client s) !! cx_taken s = Some (IRequest id method params) ->
      step_about k s (handle_server_request new_question_id request id method params (set_taken (S (cx_taken s)) s))
  | about_bridge j answers s' : k = KBridge j answers -> bridge_answered j answers s = Some s' -> step_about k s s'.

Lemma codex_step_about k s s' :
  codex_step new_message_id new_question_id crash request k s = Some s' -> step_about k s s'.
Proof.
  assert (forall r s s', match r with RRequest _ _ => False | _ => True end -> client_step r s = Some s' -> idle s s') as Hclient.
  { intros r s0 s1 Hr E. unfold client_step in E. destruct (rpc_step _ r) as [c|] eqn:Er; [|done]. injection E as <-.
    split; [|done..]. by eapply no_reply_step. }
  intros E. destruct k as [line| | | | |prompt| | | | |k a]; cbn [codex_step] in E;
    [by apply about_nothing; eapply Hclient; [|exact E]..| | | | | | | |].
  - destruct (await_id (cx_at s)) as [id|]; [|done]. cbn in E. destruct (rpc_answer _ _) as [out|]; [|done]. cbn in E.
    by eapply about_nothing, idle_answered.
  - destruct (at_loop s); [|done]. destruct (_ !! _) as [i|] eqn:Ei; [|done]. injection E as <-.
    destruct i as [method params|id method params|].
    + eapply about_message; [done..|]. apply idle_loop, idle_notified.
    + by apply about_request.
    + eapply about_message; [done..|]. by apply idle_loop.
  - destruct (_ && _); [|done]. injection E as <-. apply about_nothing, idle_loop, idle_steer.
  - destruct (cl_cancelled _); [|done]. destruct (_ && _).
    + injection E as <-. apply about_nothing, idle_loop, idle_interrupt.
    + destruct (in_setup _); [|done]. injection E as <-. apply about_nothing, idle_ended, setup_failed_ended.
  - destruct (_ && _); [|done]. injection E as <-. apply about_nothing, idle_ended, finish_ended.
  - injection E as <-. apply about_nothing. by split.
  - injection E as <-. apply about_nothing. by split.
  - by eapply about_bridge.
Qed.

Lemma codex_step_requests k s s' :
  requests_ok s -> codex_step new_message_id new_question_id crash request k s = Some s' -> requests_ok s'.
Proof.
  intros H E. apply codex_step_about in E as [s1 Hi|i s1 Ei Hn Hi|id method params Ei|j a s1 _ Hb].
  - by apply (requests_idle s).
  - eapply requests_idle; [exact Hi|]. pose proof (lookup_lt_Some _ _ _ Ei) as Hlt.
    destruct H as [H1 H2 H3]. split; cbn; [lia|done|]. intros Ho.
    rewrite (take_S_r _ _ _ Ei), omap_app. cbn. rewrite Hn, app_nil_r. by apply H3.
  - by apply handle_requests.
  - by eapply bridge_requests.
Qed.

(** An approval that was written, and who allowed it. *)
Definition approves (v : Value) : Prop := obj_get v "result" = Some (decision true).

Definition allowed (ks : list CodexStep) : Prop :=
  rq_auto_approve request = true \/
  exists k answers q, KBridge k (Some answers) ∈ ks /\ accepts q answers = true.

Lemma idle_approves s s' v : idle s s' -> approves v -> v ∈ rc_written (cx_client s') -> v ∈ rc_written (cx_client s).
Proof.
  intros [[_ (l & -> & Hl)] _ _] Ha [H|H]%elem_of_app; [done|]. apply Hl in H as [_ H]. unfold approves in Ha. congruence.
Qed.

Lemma write_approves v w c : approves v -> v ∈ rc_written (write_value w c) -> v ∈ rc_written c \/ v = w.
Proof.
  intros _. unfold write_value. destruct (rc_open c); cbn; [|by left].
  intros [H|H%list_elem_of_singleton]%elem_of_app; auto.
Qed.

Lemma step_approves k s s' v :
  codex_step new_message_id new_question_id crash request k s = Some s' -> approves v ->
  v ∈ rc_written (cx_client s') -> v ∈ rc_written (cx_client s) \/ allowed [k].
Proof.
  intros E Ha. apply codex_step_about in E as [s1 Hi|i s1 Ei Hn Hi|id method params Ei|j a s1 -> Hb]; intros Hv.
  - left. by apply (idle_approves _ _ _ Hi).
  - left. by apply (idle_approves _ _ _ Hi).
  - unfold handle_server_request, respond, rpc_respond, rpc_respond_error in Hv.
    destruct (String.eqb _ _); [destruct (user_input_questions _ _ _)|destruct (negb _);
      [|destruct (rq_auto_approve request) eqn:Eq]]; try (by left); cbn [cx_client set_client] in Hv.
    + apply write_approves in Hv as [Hv| ->]; [by left|done|done].
    + apply write_approves in Hv as [Hv| ->]; [by left|done|done].
    + right. by left.
  - unfold bridge_answered in Hb. destruct (as_open (cx_asks s) !! j) as [x|]; [|done]. cbn in Hb.
    destruct (ask_answer x (default [] a)) as [id result] eqn:Ex. injection Hb as <-.
    apply write_approves in Hv as [Hv| ->]; [by left| |done]. unfold approves in Ha. cbn in Ha. injection Ha as ->.
    destruct x as [wid qs|wid q]; cbn in Ex; injection Ex as _ Er; [done|].
    right. right. destruct a as [answers|]; [|done]. exists j, answers, q. split; [by left|].
    unfold decision in Er. by destruct (accepts q _).
Qed.

(** Every request of the server is answered exactly once: as long as the
    child's input is open, the requests answered and those parked behind the
    user are those that were received; and an approval is only ever written
    when the run approves by itself or an answer of the user said yes, so a
    lost user never allows anything. *)
Theorem server_requests_answered ks :
  let s := codex_run new_message_id new_question_id crash request ks (session_new version) in
  (rc_open (cx_client s) = true ->
   omap response_of (rc_written (cx_client s)) ++ parked s ≡ₚ
     omap request_in (take (cx_taken s) (rc_forwarded (cx_client s)))) /\
  (forall v, v ∈ rc_written (cx_client s) -> approves v -> allowed ks).
Proof.
  cbn zeta. split.
  - apply rk_balance. assert (requests_ok (session_new version)) as H by (by split).
    revert H. generalize (session_new version).
    induction ks as [|k ks IH]; intros s H; [done|]. cbn. apply IH.
    destruct (codex_step _ _ _ _ k s) as [s'|] eqn:E; [by eapply codex_step_requests|done].
  - intros v Hv Ha.
    assert (forall s, v ∈ rc_written (cx_client (codex_run new_message_id new_question_id crash request ks s)) ->
      v ∈ rc_written (cx_client s) \/ allowed ks) as Hrun.
    { clear Hv. induction ks as [|k ks IH]; intros s Hv; [by left|]. cbn in Hv.
      assert (forall l, allowed l -> l ⊆ k :: ks -> allowed (k :: ks)) as Hmono.
      { intros l [Hq|(j & a & q & Hin & Hq)] Hs; [by left|]. right. exists j, a, q. split; [by apply Hs|done]. }
      apply IH in Hv as [Hv|Hv]; [|by right; apply (Hmono ks); [|set_solver]].
      destruct (codex_step _ _ _ _ k s) as [s'|] eqn:E; [|by left].
      destruct (step_approves _ _ _ _ E Ha Hv) as [|Hk]; [by left|]. right. by apply (Hmono [k]); [|set_solver]. }
    apply Hrun in Hv as [Hv|]; [|done]. cbn in Hv. by apply list_elem_of_singleton in Hv as ->.
Qed.
End Requests.

(** ** Steers *)

(** The steer whose request waits for its answer. *)
Definition waiting_text (a : Await) : list string :=
  match a with ASteer _ text _ | ANewTurn _ text => [text] | _ => [] end.

Section Steers.
Context {J : JsonText} (new_message_id new_question_id : nat -> string) (version crash : string) (request : RunRequest).

Abbreviation step := (codex_step new_message_id new_question_id crash request).
Abbreviation run := (codex_run new_message_id new_question_id crash request).

(** The steers a step takes out of the mailbox, and those the server accepted. *)
Definition taken_by (k : CodexStep) : list string := match k with KSteer (Some text) => [text] | _ => [] end.
Definition delivered_by (k : CodexStep) (s : CodexSession) : list string :=
  match k, await_id (cx_at s) ≫= (fun id => rpc_answer id (cx_client s)) with
  | KAnswer, Some (inr _) => waiting_text (cx_at s)
  | _, _ => []
  end.

Fixpoint log (f : CodexStep -> CodexSession -> list string) (ks : list CodexStep) (s : CodexSession) : list string :=
  match ks with
  | [] => []
  | k :: ks => match step k s with Some s' => f k s ++ log f ks s' | None => log f ks s end
  end.

Definition taken := log (fun k _ => taken_by k).
Definition delivered := log delivered_by.

Definition held (s : CodexSession) : list string := tn_queue (cx_turns s) ++ waiting_text (cx_at s).

Lemma held_same s s' : same s s' -> held s' = held s.
Proof. intros H. unfold held. by rewrite (sm_queue _ _ H), (sm_at _ _ H). Qed.

Lemma held_notified method params s :
  cx_at s = ALoop -> held (notified new_message_id request method params s).1 ≡ₚ held s.
Proof.
  intros Hat. unfold notified, with_state. destruct (foreign_thread _ _ _) as [child|].
  - destruct (register_spawn_spec child method params s) as ([Ha _ _ _ _] & _ & _). apply held_same in Ha.
    unfold on_foreign, seq, pure. destruct (route_child_notification method) eqn:Er.
    + unfold with_state. destruct (cx_children (register_spawn child method params s) !! child).
      * by rewrite (held_same _ _ (quiet_send_all _ _)), Ha.
      * cbn. by rewrite Ha.
    + cbn. by rewrite Ha.
    + rewrite parent_route_skips by done. cbn. by rewrite Ha.
  - destruct (effect_notification new_message_id request method params s) as [s1 H|child call s1 _ H|text rest s1 Hq H].
    + by rewrite (held_same _ _ H).
    + by rewrite (held_same _ _ H).
    + unfold held, ask. cbn. rewrite (sm_queue _ _ H), Hq, Hat. cbn. solve_Permutation.
Qed.

Lemma finish_over crash' s : cx_at (finish crash' s) = AOver.
Proof. apply (ed_at s), finish_ended. Qed.

(** A loop that goes on went through its statement. *)
Lemma in_loop_held f s (l : list string) :
  ((f s).2 = true -> held (f s).1 ≡ₚ l) -> cx_at (in_loop crash f s) <> AOver -> held (in_loop crash f s) ≡ₚ l.
Proof.
  unfold in_loop. destruct (f s) as [s' []]; cbn [fst snd]; [auto|]. intros _ H. by rewrite finish_over in H.
Qed.

(** Nothing comes after the end of a run but answers of the bridge. *)
Lemma codex_step_over k s s' : step k s = Some s' -> cx_at s = AOver -> cx_at s' = AOver.
Proof.
  intros E Hat. destruct k as [line| | | | |prompt| | | | |k a]; cbn [codex_step] in E; unfold at_loop in E; rewrite ?Hat in E; try done.
  1-3: unfold client_step in E; destruct (rpc_step _ _); [by injection E as <-|done].
  - by destruct (cl_cancelled _).
  - by injection E as <-.
  - by injection E as <-.
  - unfold bridge_answered in E. destruct (_ !! k) as [x|]; [|done]. cbn in E. destruct (ask_answer x _). by injection E as <-.
Qed.

Lemma answered_held s s' out :
  answered new_message_id crash request (cx_at s) out s = Some s' -> cx_at s' <> AOver ->
  held s ≡ₚ match out with inr _ => waiting_text (cx_at s) | inl _ => [] end ++ held s'.
Proof.
  intros E Ho.
  assert (forall v s, cx_at (thread_ready new_message_id request v s) <> AOver ->
    held (thread_ready new_message_id request v s) = tn_queue (cx_turns s)) as Hready.
  { intros v s0. unfold thread_ready, send. destruct (cx_gone _); [done|]. intros _. unfold held. cbn. by rewrite app_nil_r. }
  destruct (cx_at s) as [id|id|id|id| |id text expected|id text|] eqn:Ea, out as [m|v]; try done; injection E as <-;
    try (by destruct Ho); unfold held at 1; rewrite Ea; cbn [waiting_text]; rewrite ?app_nil_r.
  - by destruct (rq_resume request); unfold held; cbn; rewrite app_nil_r.
  - unfold held; cbn; by rewrite app_nil_r.
  - by rewrite Hready.
  - by rewrite Hready.
  - unfold held; cbn; by rewrite app_nil_r.
  - symmetry. apply in_loop_held; [|done]. cbn. unfold with_state. destruct (_ && _); intros _; unfold held; cbn; solve_Permutation.
  - rewrite Permutation_app_comm. apply Permutation_app; [done|]. symmetry. apply in_loop_held; [|done]. intros _.
    rewrite (held_same _ _ (quiet_send_steered new_message_id (set_at ALoop s))). unfold held. cbn. by rewrite app_nil_r.
  - rewrite Permutation_app_comm. apply Permutation_app; [done|]. symmetry. apply in_loop_held; [|done]. intros _.
    pose proof (held_same _ _ (quiet_new_turn_answered new_message_id (inr v) (set_at ALoop s))) as Hh.
    cbn [new_turn_answered] in Hh. rewrite Hh. unfold held. cbn. by rewrite app_nil_r.
Qed.

Lemma codex_step_held k s s' :
  step k s = Some s' -> cx_at s' <> AOver -> held s ++ taken_by k ≡ₚ delivered_by k s ++ held s'.
Proof.
  intros E Ho. destruct k as [line| | | | |prompt| | | | |k a]; cbn [codex_step taken_by] in E |- *; unfold at_loop in E.
  1-3: unfold client_step in E; destruct (rpc_step _ _); [|done]; injection E as <-; unfold held; cbn; by rewrite app_nil_r.
  - unfold delivered_by. rewrite app_nil_r. destruct (await_id (cx_at s)) as [id|]; [|done]. cbn in E |- *.
    destruct (rpc_answer _ _) as [out|]; [|done]. cbn in E. rewrite (answered_held _ _ _ E Ho). by destruct out.
  - destruct (cx_at s) eqn:Ea; try done. destruct (_ !! _) as [i|]; [|done]. injection E as <-. rewrite app_nil_r.
    symmetry. apply in_loop_held; [|done]. intros Hgo. destruct i as [method params|id method params|]; [| |done].
    + by apply (held_notified method params (set_taken _ s)).
    + cbn. unfold handle_server_request. destruct (String.eqb _ _); [by destruct (user_input_questions _ _ _)|].
      destruct (negb _); [done|]. by destruct (rq_auto_approve request).
  - destruct (cx_at s) eqn:Ea; try done. destruct (_ && _); [|done]. injection E as <-. cbn [delivered_by].
    rewrite app_nil_l. symmetry. apply in_loop_held; [|done]. unfold held at 2. rewrite Ea. cbn [waiting_text].
    unfold on_steer, with_state. destruct prompt as [text|].
    + destruct (tr_active _); intros _; unfold held; cbn; by rewrite app_nil_r.
    + intros _. rewrite !app_nil_r. cbn. destruct (tr_active _), (tn_queue (cx_turns s)) eqn:Eq; unfold held; cbn;
        by rewrite Eq, ?Ea, ?app_nil_r.
  - destruct (cl_cancelled _); [|done]. rewrite app_nil_r. destruct (_ && _).
    + injection E as <-. symmetry. apply in_loop_held; [|done]. intros _. unfold on_interrupt, with_state. cbn.
      by destruct (tr_active _).
    + destruct (in_setup _); [|done]. injection E as <-. by destruct Ho.
  - destruct (_ && _); [|done]. injection E as <-. by rewrite finish_over in Ho.
  - injection E as <-. unfold held. cbn. by rewrite app_nil_r.
  - injection E as <-. unfold held. cbn. by rewrite app_nil_r.
  - unfold bridge_answered in E. destruct (_ !! k) as [x|]; [|done]. cbn in E. destruct (ask_answer x _). injection E as <-.
    unfold held. cbn. by rewrite app_nil_r.
Qed.

(** *** What a session waits for was asked *)

Definition carries (text method : string) (params : Value) : Prop :=
  exists thread, (exists expected, method = "turn/steer" /\ params = steer_params thread expected text) \/
    method = "turn/start" /\ params = turn_params request thread text.

Definition at_ok (a : Await) (c : RpcClient) : Prop :=
  forall id, await_id a = Some id -> 0 < id <= rc_next_id c /\
    forall text, text ∈ waiting_text a -> exists method params, carries text method params /\ asked id method params c.

Definition client_ok (s : CodexSession) : Prop := rpc_ok (cx_client s) /\ at_ok (cx_at s) (cx_client s).

Lemma at_ok_onward a c c' : onward c c' -> at_ok a c -> at_ok a c'.
Proof.
  intros [G _] H id Hid. destruct (H id Hid) as [H1 H2]. split; [pose proof (gr_next _ _ G); lia|].
  intros text Ht. destruct (H2 text Ht) as (m & p & Hc & Ha). exists m, p. split; [done|by eapply asked_grows].
Qed.

Lemma client_onward s s' : cx_at s' = cx_at s -> onward (cx_client s) (cx_client s') -> client_ok s -> client_ok s'.
Proof. intros E O [H1 H2]. split; [by apply O|]. rewrite E. by eapply at_ok_onward. Qed.

Lemma client_same s s' : same s s' -> client_ok s -> client_ok s'.
Proof. intros H. apply client_onward; [apply H|by rewrite (sm_client _ _ H)]. Qed.

Lemma client_ended s s' : ended s s' -> rpc_ok (cx_client s) -> client_ok s'.
Proof.
  intros H Hc. split; [rewrite (ed_client _ _ H); by apply onward_drop|]. rewrite (ed_at _ _ H). by intros id [=].
Qed.

Lemma client_ask method params wait s :
  (forall id, await_id (wait id) = Some id) ->
  (forall id text, text ∈ waiting_text (wait id) -> carries text method params) ->
  rpc_ok (cx_client s) -> client_ok (ask method params wait s).
Proof.
  intros Hw Ht Hc. split; [by apply rpc_request_ok|]. intros id. cbn. rewrite Hw. intros [= <-]. split.
  - pose proof (ro_next _ Hc). unfold rpc_request. cbn [rc_open]. destruct (rc_open _); unfold write_value; cbn; lia.
  - intros text Hx. exists method, params. split; [by eapply Ht|apply asked_request].
Qed.

Lemma client_new_turn text s : rpc_ok (cx_client s) ->
  client_ok (ask "turn/start" (turn_params request (cx_thread s) text) (fun id => ANewTurn id text) s).
Proof.
  intros H. apply client_ask; [done| |done]. intros id t ->%list_elem_of_singleton. exists (cx_thread s). by right.
Qed.

Lemma client_effect s s' : effect request s s' -> client_ok s -> client_ok s'.
Proof.
  intros [s1 H|child call s1 _ H|text rest s1 _ H] Hc; [by apply (client_same s)|by apply (client_same _ _ H)|].
  apply client_new_turn. rewrite (sm_client _ _ H). apply Hc.
Qed.

Lemma client_loop f s : client_ok (f s).1 -> client_ok (in_loop crash f s).
Proof.
  unfold in_loop. destruct (f s) as [s' []]; [done|]. intros [H _]. by apply (client_ended s'); [apply finish_ended|].
Qed.

Lemma client_notified method params s : client_ok s -> client_ok (notified new_message_id request method params s).1.
Proof.
  intros H. unfold notified, with_state. destruct (foreign_thread _ _ _) as [child|].
  - destruct (register_spawn_spec child method params s) as ([Ha _ _ _ _] & _ & _).
    assert (client_ok (register_spawn child method params s)) as Hr by (by apply (client_same _ _ Ha)).
    unfold on_foreign, seq, pure. destruct (route_child_notification method) eqn:Er.
    + unfold with_state. destruct (cx_children (register_spawn child method params s) !! child); [|exact Hr].
      by apply (client_same _ _ (quiet_send_all _ _)).
    + exact Hr.
    + by rewrite parent_route_skips.
  - by apply (client_effect s); [apply effect_notification|].
Qed.

Lemma client_answered s s' out :
  client_ok s -> answered new_message_id crash request (cx_at s) out s = Some s' -> client_ok s'.
Proof.
  intros [H1 H2] E.
  assert (forall v s, rpc_ok (cx_client s) -> client_ok (thread_ready new_message_id request v s)) as Hready.
  { intros v s0 H. unfold thread_ready, send. destruct (cx_gone _).
    - by apply (client_ended (set_thread (id_at ["thread"; "id"] v) s0)).
    - by apply client_ask; [|by intros id t ?%elem_of_nil|]. }
  assert (client_ok (set_at ALoop s)) as Hl by (by split; [|intros id [=]]).
  destruct (cx_at s) as [id|id|id|id| |id text expected|id text|] eqn:Ea, out as [m|v]; try done; injection E as <-;
    try (by apply Hready).
  - by apply (client_ended s); [apply setup_failed_ended|].
  - destruct (rq_resume request); (apply client_ask; [done|by intros ? ? ?%elem_of_nil|]); by apply onward_write.
  - by apply client_ask; [|by intros ? ? ?%elem_of_nil|].
  - by apply (client_ended s); [apply setup_failed_ended|].
  - by apply (client_ended s); [apply over_ended, try_send_same|].
  - exact Hl.
  - apply client_loop. cbn. unfold with_state. destruct (_ && _); [exact Hl|]. by apply client_new_turn.
  - apply client_loop. by apply (client_same _ _ (quiet_send_steered new_message_id _)).
  - apply client_loop. by apply (client_same _ _ (quiet_new_turn_answered new_message_id (inl m) _)).
  - apply client_loop. by apply (client_same _ _ (quiet_new_turn_answered new_message_id (inr v) _)).
Qed.

Lemma codex_step_client k s s' : step k s = Some s' -> client_ok s -> client_ok s'.
Proof.
  intros E H. destruct k as [line| | | | |prompt| | | | |k a]; cbn [codex_step] in E.
  1-3: unfold client_step in E; destruct (rpc_step _ _) eqn:Er; [|done]; injection E as <-;
    apply (client_onward s); [done|by eapply onward_step|done].
  - destruct (await_id (cx_at s)) as [id|]; [|done]. cbn in E.
    destruct (rpc_answer _ _) as [out|]; [|done]. by eapply client_answered.
  - destruct (at_loop s); [|done]. destruct (_ !! _) as [i|]; [|done]. injection E as <-. apply client_loop.
    destruct i as [method params|id method params|]; [by apply (client_notified method params (set_taken _ s))| |exact H].
    cbn. unfold handle_server_request. destruct (String.eqb _ _); [destruct (user_input_questions _ _ _)|destruct (negb _);
      [|destruct (rq_auto_approve request)]]; try exact H; by apply (client_onward s); [|apply onward_write|].
  - destruct (_ && _); [|done]. injection E as <-. apply client_loop. unfold on_steer, with_state. destruct prompt as [text|].
    + destruct (tr_active _) as [expected|]; [|apply client_new_turn, H].
      apply client_ask; [done| |apply H]. intros id t ->%list_elem_of_singleton. exists (cx_thread s). left. by exists expected.
    + cbn. destruct (tr_active _), (tn_queue (cx_turns s)); exact H.
  - destruct (cl_cancelled _); [|done]. destruct (_ && _).
    + injection E as <-. apply client_loop. unfold on_interrupt, with_state. cbn. destruct (tr_active _); [|exact H].
      apply (client_onward s); [done|apply onward_request|done].
    + destruct (in_setup _); [|done]. injection E as <-. apply (client_ended s); [apply setup_failed_ended|apply H].
  - destruct (_ && _); [|done]. injection E as <-. apply (client_ended s); [apply finish_ended|apply H].
  - by injection E as <-.
  - by injection E as <-.
  - unfold bridge_answered in E. destruct (_ !! k) as [x|]; [|done]. cbn in E. destruct (ask_answer x _). injection E as <-.
    apply (client_onward s); [done|apply onward_write|done].
Qed.

Lemma codex_step_onward k s s' : step k s = Some s' -> onward (cx_client s) (cx_client s').
Proof.
  intros E. apply codex_step_about in E as [s1 Hi|i s1 _ _ Hi|id method params _|j a s1 _ Hb].
  - by destruct Hi as [[O _] _ _].
  - by destruct Hi as [[O _] _ _].
  - unfold handle_server_request. destruct (String.eqb _ _); [destruct (user_input_questions _ _ _)|destruct (negb _);
      [|destruct (rq_auto_approve request)]]; try done; apply onward_write.
  - unfold bridge_answered in Hb. destruct (_ !! j) as [x|]; [|done]. cbn in Hb. destruct (ask_answer x _).
    injection Hb as <-. apply onward_write.
Qed.

Lemma codex_run_onward ks : forall s, onward (cx_client s) (cx_client (run ks s)).
Proof.
  induction ks as [|k ks IH]; intros s; [done|]. cbn. etrans; [|apply IH].
  destruct (step k s) as [s'|] eqn:E; [by eapply codex_step_onward|done].
Qed.

Lemma codex_run_over ks : forall s, cx_at s = AOver -> cx_at (run ks s) = AOver.
Proof.
  induction ks as [|k ks IH]; intros s H; [done|]. cbn. apply IH.
  destruct (step k s) as [s'|] eqn:E; [by eapply codex_step_over|done].
Qed.

Lemma codex_run_held ks : forall s, cx_at (run ks s) <> AOver ->
  held s ++ taken ks s ≡ₚ delivered ks s ++ held (run ks s).
Proof.
  induction ks as [|k ks IH]; intros s Ho; [cbn; by rewrite app_nil_r|]. cbn in *.
  destruct (step k s) as [s'|] eqn:E; [|by apply IH]. cbn in Ho. specialize (IH s' Ho).
  assert (cx_at s' <> AOver) as Ho' by (intros Hs; by apply Ho, codex_run_over).
  pose proof (codex_step_held k s s' E Ho') as Hk. rewrite app_assoc, Hk, <- !app_assoc. f_equiv. exact IH.
Qed.

(** The server accepted a request that carried the text. *)
Definition accepted (text : string) (c : RpcClient) : Prop :=
  exists id v method params, carries text method params /\ request_value id method params ∈ rc_written c /\
    (id, inr v) ∈ rc_answers c.

Lemma accepted_onward text c c' : onward c c' -> accepted text c -> accepted text c'.
Proof.
  intros [[[w W] [a A] _ _ _] _] (id & v & m & p & H1 & H2 & H3). exists id, v, m, p.
  rewrite W, A, !elem_of_app. auto.
Qed.

Lemma delivered_accepted k s text : client_ok s -> text ∈ delivered_by k s -> accepted text (cx_client s).
Proof.
  intros [Hc Ha]. unfold delivered_by. destruct k; try by intros ?%elem_of_nil.
  destruct (await_id (cx_at s)) as [id|] eqn:Ei; cbn; [|by intros ?%elem_of_nil].
  destruct (rpc_answer id (cx_client s)) as [[m|v]|] eqn:Er; try by intros ?%elem_of_nil.
  intros Ht. destruct (Ha id Ei) as [_ H]. destruct (H text Ht) as (method & params & H1 & [H2|[m H2]]).
  - exists id, v, method, params. split_and!; [done..|by apply rpc_answer_elem].
  - apply (rpc_answer_once _ _ _ Hc) in H2. congruence.
Qed.

Lemma session_new_ok : client_ok (session_new version).
Proof. apply client_ask; [done|by intros ? ? ?%elem_of_nil|apply rpc_new_ok]. Qed.

Lemma codex_run_client ks : client_ok (run ks (session_new version)).
Proof.
  pose proof session_new_ok as H. revert H. generalize (session_new version).
  induction ks as [|k ks IH]; intros s H; [done|]. cbn. apply IH.
  destruct (step k s) as [s'|] eqn:E; [by eapply codex_step_client|done].
Qed.

(** A steer is never lost while the session lives, whatever races with it:
    at every moment the steers taken out of the mailbox are those the server
    has accepted, those queued behind the turn in flight and the one whose
    request is on its way, each once; and one counted as delivered was carried
    by a request that was written to the child and answered with a result. *)
Theorem steers_kept ks :
  let s := run ks (session_new version) in
  (cx_at s <> AOver -> taken ks (session_new version) ≡ₚ delivered ks (session_new version) ++ held s) /\
  (forall text, text ∈ delivered ks (session_new version) -> accepted text (cx_client s)).
Proof.
  cbn zeta. split; [apply codex_run_held|]. pose proof session_new_ok as H. revert H. generalize (session_new version).
  induction ks as [|k ks IH]; intros s H text Ht; [by apply elem_of_nil in Ht|]. cbn in *.
  destruct (step k s) as [s'|] eqn:E; cbn; [|by apply IH].
  apply elem_of_app in Ht as [Ht|Ht]; [|by apply IH; [eapply codex_step_client|]].
  apply (accepted_onward _ (cx_client s)); [|by eapply delivered_accepted].
  etrans; [by eapply codex_step_onward|apply codex_run_onward].
Qed.

(** The death of the child is always noticed where the session waits: when
    its output ends while a request is on its way, in the setup or in the loop,
    the request has its answer and the session goes on. *)
Theorem awaited_answer_comes ks id :
  let s := run ks (session_new version) in
  rc_reading (cx_client s) = true -> await_id (cx_at s) = Some id ->
  exists s', step KEof s = Some s' /\ cx_at s' = cx_at s /\ is_Some (step KAnswer s').
Proof.
  cbn zeta. set (s := run ks (session_new version)). intros Hr Hid.
  destruct (codex_run_client ks) as [Hc Ha]. fold s in Hc, Ha.
  assert (exists out, rpc_answer id (rpc_eof (cx_client s)) = Some out) as [out Ho].
  { destruct (rpc_eof_same (cx_client s)) as (En & Ep & _).
    destruct (Ha id Hid) as [Hi _]. destruct (ro_all _ (rpc_eof_ok _ Hc) id) as [Hp|Hp]; [by rewrite En|by rewrite Ep in Hp|].
    apply list_elem_of_fmap in Hp as ([i out] & Ei & Hin). cbn [fst] in Ei. subst i.
    exists out. by apply rpc_answer_once; [apply rpc_eof_ok|]. }
  exists (set_client (rpc_eof (cx_client s)) s). split_and!; [|done|].
  - unfold codex_step, client_step. cbn [rpc_step]. by rewrite Hr.
  - unfold codex_step. cbn [cx_at set_client cx_client]. rewrite Hid. cbn [mbind option_bind]. rewrite Ho.
    cbn [option_bind]. destruct (cx_at s) eqn:Eat; try done; destruct out; by eexists.
Qed.
End Steers.

(** ** Samples *)

(** A steer is rejected and queued, another accepted; the turn ends. *)
Definition sample_steers : list CodexStep :=
  sample_setup ++ [KSteer (Some "a"); error_line 4 "no"; KAnswer; KSteer (Some "b"); result_line 5 Null; KAnswer;
                   note_line "turn/completed" (turn_of "u"); KIncoming; result_line 6 (turn_of "v"); KAnswer].

Definition child_note : Value := Object [("threadId", Str "c"); ("turn", Object [("id", Str "u")])].

Lemma children_never_touch_parent_witness :
  cx_thread (sample_run sample_setup) = "t" /\
  forall s, cx_thread s = "t" -> exists s' go,
    @notified sample_json sample_id sample_request "turn/completed" child_note s = (s', go) /\ aside s s'.
Proof.
  split; [vm_compute; reflexivity|]. intros s Ht.
  assert (foreign_thread (cx_thread s) "turn/completed" child_note = Some "c") as Hf by (rewrite Ht; reflexivity).
  destruct (@notified sample_json sample_id sample_request "turn/completed" child_note s) as [s' go] eqn:E.
  exists s', go. split; [reflexivity|].
  exact (proj1 (proj1 (@children_never_touch_parent sample_json sample_id sample_question "1" "crash" sample_request)
    "c" "turn/completed" child_note s s' go Hf E)).
Defined.

Lemma steers_kept_witness :
  @delivered sample_json sample_id sample_question "crash" sample_request sample_steers (session_new "1") = ["b"; "a"] /\
  @taken sample_json sample_id sample_question "crash" sample_request sample_steers (session_new "1") ≡ₚ ["b"; "a"].
Proof.
  pose proof (proj1 (@steers_kept sample_json sample_id sample_question "1" "crash" sample_request sample_steers)) as H.
  assert (@delivered sample_json sample_id sample_question "crash" sample_request sample_steers (session_new "1") = ["b"; "a"])
    as Hd by (vm_compute; reflexivity).
  assert (cx_at (@codex_run sample_json sample_id sample_question "crash" sample_request sample_steers (session_new "1")) = ALoop)
    as Ha by (vm_compute; reflexivity).
  assert (held (@codex_run sample_json sample_id sample_question "crash" sample_request sample_steers (session_new "1")) = [])
    as Hh by (vm_compute; reflexivity).
  rewrite Ha, Hh, Hd, app_nil_r in H. split; [exact Hd|]. apply H. discriminate.
Defined.

Lemma awaited_answer_comes_witness :
  let s := @codex_run sample_json sample_id sample_question "crash" sample_request [result_line 1 Null; KAnswer]
             (session_new "1") in
  await_id (cx_at s) = Some 2 /\
  exists s', @codex_step sample_json sample_id sample_question "crash" sample_request KEof s = Some s' /\
    cx_at s' = cx_at s /\ is_Some (@codex_step sample_json sample_id sample_question "crash" sample_request KAnswer s').
Proof.
  assert (await_id (cx_at (@codex_run sample_json sample_id sample_question "crash" sample_request
    [result_line 1 Null; KAnswer] (session_new "1"))) = Some 2) as Hw by (vm_compute; reflexivity).
  assert (rc_reading (cx_client (@codex_run sample_json sample_id sample_question "crash" sample_request
    [result_line 1 Null; KAnswer] (session_new "1"))) = true) as Hr by (vm_compute; reflexivity).
  exact (conj Hw (@awaited_answer_comes sample_json sample_id sample_question "1" "crash" sample_request
    [result_line 1 Null; KAnswer] 2 Hr Hw)).
Defined.
