(* ===== verification/CodexStream.v ===== *)
(** The contract of the Codex stream: one session start, message ids that
    follow each other, and an end for every consumer that still listens. The
    loop's statements are proved with a small program logic: a statement keeps
    the stream well formed, or breaks and leaves it ready for the end. *)
From S2P Require Import Prelude Json Text Agent Samples Claude JsonRpc CodexItems Loop Streams Codex CodexSafety.

Definition events (s : CodexSession) : list (string + AgentEvent) := inr <$> cx_emitted s.

Section Stream.
Context {J : JsonText} (new_message_id new_question_id : nat -> string) (version crash : string) (request : RunRequest).

Abbreviation chain := (chain new_message_id).
Abbreviation run := (codex_run new_message_id new_question_id crash request).

Record threaded (s : CodexSession) : Prop := {
  th_chain : exists k, chain 0 (events s) = Some k /\ (cx_gone s = false -> cx_message s = k);
  th_start : starts_once (cx_emitted s);
  th_usage : forall u, tn_usage (cx_turns s) = Some u -> ordinary u = true;
  th_done : tn_done_current (cx_turns s) = true -> cx_gone s = true \/ existsb is_done (cx_emitted s) = true;
}.

Definition live (s : CodexSession) : Prop := threaded s /\ cl_done_after (cx_control s) = false.

(** Out of the loop: the end an interrupt asked for has been sent, or is still to come. *)
Definition stopped (s : CodexSession) : Prop :=
  threaded s /\ (cl_done_after (cx_control s) = true -> cx_gone s = true \/ ends_interrupted (cx_emitted s)).

Abbreviation fine := (Loop.fine live stopped).

Lemma live_stopped s : live s -> stopped s.
Proof. intros [H Hd]. split; [done|]. by rewrite Hd. Qed.

Lemma live_same s s' :
  cx_emitted s' = cx_emitted s -> cx_gone s' = cx_gone s -> cx_message s' = cx_message s ->
  tn_done_current (cx_turns s') = tn_done_current (cx_turns s) \/ tn_done_current (cx_turns s') = false ->
  cl_done_after (cx_control s') = cl_done_after (cx_control s) ->
  (forall u, tn_usage (cx_turns s') = Some u -> tn_usage (cx_turns s) = Some u \/ ordinary u = true) ->
  live s -> live s'.
Proof.
  intros E1 E2 E3 E4 E5 E6 [[H1 H2 Hu H3] H4]. split; [|by rewrite E5].
  split; unfold events; rewrite ?E1, ?E2, ?E3; try done.
  - intros u [Hx|Hx]%E6; [by apply Hu|done].
  - by destruct E4 as [->| ->].
Qed.

Lemma threaded_emit e s : cx_gone s = false -> ordinary e = true -> threaded s -> threaded (emit [e] s).
Proof.
  intros Hg He [(k & Hc & Hk) H2 Hu H3]. destruct (chain_ordinary new_message_id k e He) as [Hc' Hs]. split.
  - exists k. split; [|exact Hk]. unfold events. cbn. rewrite fmap_app, chain_app. fold (events s). by rewrite Hc.
  - by apply starts_snoc.
  - exact Hu.
  - cbn. intros Hd. right. apply H3 in Hd as [Hd|Hd]; [congruence|]. by apply existsb_snoc.
Qed.

Lemma fine_send e s : ordinary e = true -> live s -> fine (send e s).
Proof.
  intros He [H Hd]. destruct (cx_gone s) eqn:Eg.
  - rewrite send_gone by done. apply live_stopped. by split.
  - rewrite send_open by done. split; [by apply threaded_emit|done].
Qed.

Lemma fine_send_option e s : (forall x, e = Some x -> ordinary x = true) -> live s -> fine (send_option e s).
Proof. intros He H. destruct e; [apply fine_send; auto|by apply fine_skip]. Qed.

Lemma fine_send_all es s : forallb ordinary es = true -> live s -> fine (send_all es s).
Proof.
  revert s. induction es as [|e es IH]; intros s He H; [by apply fine_skip|]. cbn in He.
  apply andb_true_iff in He as [He Hes]. cbn. apply (fine_seq live); [by apply fine_send|]. auto.
Qed.

(** The message id moves on together with the event that says so. *)
Lemma fine_boundary (E : nat -> AgentEvent) s :
  (forall k, chain k [inr (E k)] = Some (S k)) -> (forall k, is_started (inr (E k)) = false) -> live s ->
  fine ((pure rotate >> with_state (fun s => send (E (pred (cx_message s)))))%stmt s).
Proof.
  intros Hc Hs [[(k & Hk & Hm) H2 Hu H3] Hd]. unfold seq, pure, with_state. destruct (cx_gone s) eqn:Eg.
  - rewrite send_gone by done. apply live_stopped. split; [|done]. split; [|done|done|by left].
    exists k. split; [done|]. cbn. congruence.
  - rewrite send_open by done. split; [|done]. specialize (Hm eq_refl). cbn [Init.Nat.pred rotate cx_message]. rewrite Hm. split.
    + exists (S k). split; [|by cbn; rewrite Hm]. unfold events. cbn. rewrite fmap_app, chain_app. fold (events s).
      rewrite Hk. apply Hc.
    + by apply starts_snoc.
    + exact Hu.
    + cbn. intros Hx. right. apply H3 in Hx as [Hx|Hx]; [done|]. by apply existsb_snoc.
Qed.

Lemma fine_send_steered s : live s -> fine (send_steered new_message_id s).
Proof.
  intros H. unfold send_steered, seq, pure, with_state.
  pose proof (fine_boundary (fun k => Steered (Some (new_message_id k)) (Some (new_message_id (S k)))) s) as Hb.
  unfold seq, pure, with_state in Hb. apply Hb; [|done..]. intros k. cbn. by rewrite bool_decide_true.
Qed.

Lemma map_item_plain phase item : forallb ordinary (map_item phase item) = true.
Proof.
  unfold map_item, tool_lifecycle. repeat (destruct (one_of _ _); [by destruct phase|]).
  destruct (String.eqb _ _); [done|]. by destruct (one_of _ _); [destruct phase|].
Qed.

Lemma fine_completed_message item s : live s -> fine (completed_message new_message_id item s).
Proof.
  intros H. unfold completed_message, with_state at 1.
  apply (fine_seq live); [apply fine_send_option; [|done]|].
  { intros x. destruct (_ && _); [|done]. by intros [= <-]. }
  clear s H. intros s H. apply (fine_seq live); [by apply fine_send|]. clear s H. intros s H.
  apply (fine_boundary (fun k => AssistantMessageCompleted (new_message_id k))); [|done..].
  intros k. cbn. by rewrite String.eqb_refl.
Qed.

Lemma live_turns f s :
  (forall t, tn_done_current (f t) = tn_done_current t \/ tn_done_current (f t) = false) ->
  (forall t u, tn_usage (f t) = Some u -> tn_usage t = Some u \/ ordinary u = true) ->
  live s -> live (on_turns f s).
Proof. intros Hd Hu. apply live_same; try done; [apply Hd|apply Hu]. Qed.

Lemma fine_take_usage s : live s -> fine (take_usage s).
Proof.
  intros H. unfold take_usage, with_state. apply (fine_seq live).
  - apply live_turns; [by left|done|done].
  - intros s' H'. apply fine_send_option; [|done]. apply H.
Qed.

(** *** The end of a turn *)

Lemma live_client c s : live s -> live (set_client c s).
Proof. apply live_same; auto. Qed.

Lemma live_ask method params wait s : live s -> live (ask method params wait s).
Proof. apply live_same; auto. Qed.

(** Marking the turn done and saying so. *)
Lemma done_said st error s :
  live s -> cx_gone s = false ->
  live (emit [done_ st error (on_turns (set_done_current true) s)] (on_turns (set_done_current true) s)).
Proof.
  intros [H Hd] Hg. split; [|done]. pose proof (threaded_emit (done_ st error s) s Hg eq_refl H) as [H1 H2 H3 _].
  split; try done. cbn. intros _. right. rewrite existsb_app. by rewrite orb_true_r.
Qed.

Lemma done_unsaid s : live s -> cx_gone s = true -> stopped (on_turns (set_done_current true) s).
Proof. intros [[H1 H2 H3 H4] Hd] Hg. split; [|cbn; by rewrite Hd]. split; try done. by left. Qed.

Lemma fine_next_steer s : live s -> fine (next_steer request s).
Proof.
  intros H. unfold next_steer, with_state. destruct (tn_queue (cx_turns s)) as [|text rest].
  - destruct (cl_steering_open _); [done|by apply live_stopped].
  - apply (fine_seq live); [apply live_turns; auto|]. intros s' H'. by apply live_ask.
Qed.

Lemma fine_turn_completed params s : live s -> fine (on_turn_completed request params s).
Proof.
  intros H. unfold on_turn_completed. apply (fine_seq live); [apply live_turns; auto|]. clear s H. intros s H.
  apply (fine_seq live); [by apply fine_take_usage|]. clear s H. intros s H. set (error := match turn_error_message params with
    Some m => Some m | None => if status_failed params then Some "Codex turn failed" else None end).
  unfold seq at 1, pure at 1. unfold seq at 1, with_state at 1.
  destruct (cx_gone s) eqn:Eg.
  - rewrite send_gone by done. by apply done_unsaid.
  - rewrite send_open by done. unfold with_state. cbn [cx_interrupted emit].
    destruct (cx_interrupted (emit _ _)) eqn:Ei; [|by apply fine_next_steer, done_said].
    unfold fine, seq, pure, break, note_done, on_control. cbn [fst snd].
    destruct (done_said (turn_status error (on_turns (set_done_current true) s)) error s H Eg) as [[] _].
    split; [by split|]. intros _. right. eexists. cbn. rewrite last_snoc. split; [done|].
    unfold turn_status. unfold cx_interrupted in *. cbn in Ei |- *. by rewrite Ei.
Qed.

(** A turn that fails or is aborted ends the run. *)
Lemma ended_turn st error s :
  live s -> (cx_interrupted s = true -> st = Interrupted) ->
  stopped (try_send (done_ st error s) (note_done (on_turns (set_done_current true) s))).1.
Proof.
  intros H Hst. unfold try_send. destruct (cx_gone s) eqn:Eg.
  - rewrite send_gone by done. destruct (done_unsaid s H Eg) as [[] _]. split; [by split|]. by left.
  - rewrite send_open by done. destruct (done_said st error s H Eg) as [[] _]. split; [by split|]. cbn.
    destruct H as [_ ->]. cbn. intros Hi. right. eexists. rewrite last_snoc. split; [done|]. by rewrite Hst.
Qed.

Lemma fine_turn_failed params s : live s -> fine (on_turn_failed params s).
Proof.
  intros H. unfold on_turn_failed. apply (fine_seq live); [apply live_turns; auto|]. clear s H. intros s H.
  apply (fine_seq live); [by apply fine_take_usage|]. clear s H. intros s H.
  refine (ended_turn (if cx_interrupted s then Interrupted else Errored) _ s H _). by intros ->.
Qed.

Lemma fine_turn_aborted params s : live s -> fine (on_turn_aborted params s).
Proof.
  intros H. unfold on_turn_aborted. apply (fine_seq live); [apply live_turns; auto|]. clear s H. intros s H.
  by refine (ended_turn Interrupted _ s H _).
Qed.

(** *** Every statement of the loop *)

Lemma fine_item phase params s : live s -> fine (on_item new_message_id phase params s).
Proof.
  intros H. unfold on_item, with_state. destruct (if sub_agent_activity _ then _ else _) as [s'|] eqn:E; [|done].
  assert (live s') as H'.
  { destruct (sub_agent_activity _); [|by injection E as <-]. unfold register_activity in E.
    destruct (_ && _); [injection E as <-; by apply (live_same s); try left; auto|].
    match type of E with (if ?b then _ else _) = _ => destruct b end; [done|]. by injection E as <-. }
  apply (fine_seq live); [exact H'|]. clear. intros s H.
  destruct (agent_message _); [|by apply fine_send_all; [apply map_item_plain|]].
  destruct phase; [done|by apply fine_completed_message].
Qed.

Lemma fine_notification method params s : live s -> fine (on_notification new_message_id request method params s).
Proof.
  intros H. unfold on_notification. destruct (String.eqb _ _); [apply live_turns; auto|].
  destruct (String.eqb _ _).
  { apply (fine_seq live); [apply live_turns; auto|]. intros s' H'. apply fine_send_option; [|done].
    intros x. destruct (delta_text params); [|done]. by intros [= <-]. }
  destruct (one_of _ _).
  { apply fine_send_option; [|done]. intros x. destruct (delta_text params); [|done]. by intros [= <-]. }
  do 2 (destruct (String.eqb _ _); [by apply fine_item|]).
  destruct (String.eqb _ _).
  { unfold usage_event. destruct (field params _ ≫= _) as [u|]; cbn; [|done].
    apply live_turns; [by left| |done]. intros t x [= <-]. by right. }
  destruct (String.eqb _ _); [by apply fine_turn_completed|].
  destruct (String.eqb _ _); [by apply fine_turn_failed|].
  destruct (String.eqb _ _); [by apply fine_turn_aborted|].
  destruct (String.eqb _ _); [by apply fine_send|done].
Qed.

Lemma fine_notified method params s : live s -> fine (notified new_message_id request method params s).
Proof.
  intros H. unfold notified, with_state. destruct (foreign_thread _ _ _) as [child|]; [|by apply fine_notification].
  unfold on_foreign. apply (fine_seq live).
  - unfold pure. cbn. destruct (register_spawn_spec child method params s) as ([Hs Hm Ht Hc Hg] & He & _).
    apply (live_same s); rewrite ?Ht, ?Hc, ?Hg, ?Hm; auto.
  - clear s H. intros s H. destruct (route_child_notification method) eqn:Er; [|done|by rewrite parent_route_skips].
    unfold with_state. destruct (cx_children s !! child); [|done]. apply fine_send_all; [|done].
    apply forallb_elem. by intros e (x & -> & _)%list_elem_of_fmap.
Qed.

Lemma live_request id method params s : live s -> live (handle_server_request new_question_id request id method params s).
Proof.
  intros H. unfold handle_server_request. destruct (String.eqb _ _); [destruct (user_input_questions _ _ _)|destruct (negb _);
    [|destruct (rq_auto_approve request)]]; by apply (live_same s); auto.
Qed.

Lemma fine_incoming i s : live s -> fine (incoming new_message_id new_question_id request i s).
Proof.
  intros H. destruct i; [by apply fine_notified|by apply live_request|by apply live_stopped].
Qed.

Lemma fine_steer prompt s : live s -> fine (on_steer request prompt s).
Proof.
  intros H. unfold on_steer, with_state. destruct prompt as [text|].
  - destruct (tr_active _); by apply live_ask.
  - apply (fine_seq live); [by apply (live_same s); auto|]. clear H. intros s' H.
    destruct (tr_active _), (tn_queue (cx_turns s)); try done; by apply live_stopped.
Qed.

Lemma fine_interrupt s : live s -> fine (on_interrupt s).
Proof.
  intros H. unfold on_interrupt. apply (fine_seq live); [by apply (live_same s); auto|]. clear s H. intros s H.
  unfold with_state. destruct (tr_active _); [|by apply live_stopped].
  apply (fine_seq live); [by apply live_client|]. intros s' H'. by apply (live_same s'); auto.
Qed.

Lemma fine_new_turn_answered out s : live s -> fine (new_turn_answered new_message_id out s).
Proof.
  intros H. destruct out as [m|v]; cbn [new_turn_answered].
  - apply live_stopped. unfold try_send. pose proof (fine_send (ErrorEv ("Steering failed: " +:+ protocol_error "turn/start" m)) s eq_refl H) as Hf.
    cbn. unfold send in *. by destruct (cx_gone s).
  - apply (fine_seq live); [|apply fine_send_steered]. apply live_turns; [by right|auto|done].
Qed.

Lemma fine_steer_answered text expected out s : live s -> fine (steer_answered new_message_id request text expected out s).
Proof.
  intros H. destruct out as [m|v]; cbn [steer_answered]; [|by apply fine_send_steered].
  unfold with_state. destruct (_ && _); [apply live_turns; auto|by apply live_ask].
Qed.

(** *** The run *)

(** The end of a run: whoever listens has a [Done]; after an interrupt it is the
    last event, an interrupted one. *)
Record closed (s : CodexSession) : Prop := {
  cd_chain : exists k, chain 0 (events s) = Some k;
  cd_opened : opened (cx_emitted s);
  cd_done : cx_gone s = false -> existsb is_done (cx_emitted s) = true;
  cd_interrupted : cx_gone s = false -> cx_interrupted s = true -> ends_interrupted (cx_emitted s);
}.

(** Before the session is announced nothing has happened. *)
Definition fresh (s : CodexSession) : Prop :=
  cx_emitted s = [] /\ cx_message s = 0%nat /\ tn_done_current (cx_turns s) = false /\
  tn_usage (cx_turns s) = None /\ cl_done_after (cx_control s) = false /\ cx_interrupted s = false.

Definition placed (s : CodexSession) : Prop :=
  match cx_at s with
  | AInitialize _ | AResume _ | AStart _ => fresh s
  | AFirstTurn _ => live s /\ cx_interrupted s = false
  | AOver => closed s
  | _ => live s
  end.

Lemma threaded_chain s : threaded s -> exists k, chain 0 (events s) = Some k.
Proof. intros [(k & H & _) _ _ _]. by exists k. Qed.

Lemma over_closed s : closed s -> placed (over s).
Proof. by intros []. Qed.

Lemma finish_closed s : stopped s -> placed (finish crash s).
Proof.
  intros [H Ha]. destruct (threaded_chain s H) as [k Hk]. pose proof H as [_ Hs _ Hd].
  assert (forall st error, cx_gone s = false -> (cx_interrupted s = true -> st = Interrupted) ->
    closed (emit [done_ st error s] s)) as Hsend.
  { intros st error Hg Hst. destruct (threaded_emit (done_ st error s) s Hg eq_refl H) as [(j & Hj & _) Hs' _ _].
    split; [by exists j|by right; right|..]; cbn.
    - intros _. rewrite existsb_app. by rewrite orb_true_r.
    - intros _ Hi. eexists. rewrite last_snoc. split; [done|]. by rewrite Hst. }
  assert (cx_gone s = true -> closed s) as Hgone.
  { intros Hg. split; [by exists k|by right; right|..]; by rewrite Hg. }
  unfold finish. apply over_closed. unfold try_send.
  destruct (cl_interrupted (cx_control s)) eqn:Ei, (cl_done_after (cx_control s)) eqn:Ea; cbn [andb negb].
  - destruct (cx_gone s) eqn:Eg; [by apply Hgone|]. destruct (Ha eq_refl) as [|Hl]; [done|].
    split; [by exists k|by right; right|..]; rewrite ?Eg; [|done]. intros _. destruct Hl as (e & He & Hde).
    apply existsb_exists. exists e. split; [apply list_elem_of_In; by apply last_Some_elem_of|by destruct e].
  - destruct (cx_gone s) eqn:Eg; [rewrite send_gone by done; by apply Hgone|rewrite send_open by done; by apply Hsend].
  - destruct (tn_done_current (cx_turns s)) eqn:Ed; cbn [negb].
    + split; [by exists k|by right; right|..]; [|by unfold cx_interrupted; rewrite Ei].
      intros Hg. destruct (Hd eq_refl) as [|]; [congruence|done].
    + destruct (cx_gone s) eqn:Eg; [rewrite send_gone by done; by apply Hgone|rewrite send_open by done; apply Hsend; [done|]].
      by unfold cx_interrupted; rewrite Ei.
  - destruct (tn_done_current (cx_turns s)) eqn:Ed; cbn [negb].
    + split; [by exists k|by right; right|..]; [|by unfold cx_interrupted; rewrite Ei].
      intros Hg. destruct (Hd eq_refl) as [|]; [congruence|done].
    + destruct (cx_gone s) eqn:Eg; [rewrite send_gone by done; by apply Hgone|rewrite send_open by done; apply Hsend; [done|]].
      by unfold cx_interrupted; rewrite Ei.
Qed.

(** Where a statement can leave the session: in the loop or waiting for a steer's answer. *)
Definition looping (a : Await) : bool := match a with ALoop | ASteer _ _ _ | ANewTurn _ _ => true | _ => false end.

Lemma loop_placed f s : fine (f s) -> looping (cx_at (f s).1) = true -> placed (in_loop crash f s).
Proof.
  unfold in_loop, fine. destruct (f s) as [s' []]; cbn [fst snd]; intros H Hl; [|by apply finish_closed].
  unfold placed. by destruct (cx_at s').
Qed.

Lemma setup_closed st error s : fresh s -> placed (setup_failed st error s).
Proof.
  intros (He & Hm & Hd & Hu & Ha & Hi). apply over_closed. unfold try_send, send. destruct (cx_gone s) eqn:Eg; cbn.
  - split; unfold events; cbn; rewrite ?He, ?Eg; [by exists 0%nat|by left|done|done].
  - split; unfold events; cbn; rewrite ?He; cbn.
    + by exists 0%nat.
    + right. left. by exists st, error.
    + done.
    + intros _. unfold cx_interrupted in *. cbn. by rewrite Hi.
Qed.

Lemma ready_placed v s : fresh s -> placed (thread_ready new_message_id request v s).
Proof.
  intros (He & Hm & Hd & Hu & Ha & Hi). unfold thread_ready. destruct (cx_gone s) eqn:Eg.
  - rewrite send_gone by done. apply over_closed. split; unfold events; cbn; rewrite ?He, ?Eg; [by exists 0%nat|by left|done|done].
  - rewrite send_open by done. split; [|done]. split; [|done]. split; cbn.
    + exists 0%nat. unfold events. cbn. rewrite He, Hm. cbn. unfold message_id. cbn. rewrite Hm, String.eqb_refl. done.
    + rewrite He. cbn. unfold starts_once. eexists _, _, _, _, _, _, []. split; [done|done].
    + by rewrite Hu.
    + by rewrite Hd.
Qed.

Lemma answered_placed s s' out :
  placed s -> answered new_message_id crash request (cx_at s) out s = Some s' -> placed s'.
Proof.
  intros H E. unfold placed in H.
  destruct (cx_at s) as [id|id|id|id| |id text expected|id text|] eqn:Ea, out as [m|v]; try done; injection E as <-;
    try (by apply setup_closed); try (by apply ready_placed).
  - destruct (rq_resume request); exact H.
  - exact H.
  - apply over_closed. unfold try_send. destruct H as [[Ht _] Hi]. destruct (threaded_chain s Ht) as [k Hk].
    destruct (cx_gone s) eqn:Eg.
    + rewrite send_gone by done. split; cbn; rewrite ?Eg; [by exists k|right; right; apply Ht|done|done].
    + rewrite send_open by done.
      destruct (threaded_emit (done_ Errored (Some (protocol_error "turn/start" m)) s) s Eg eq_refl Ht) as [(j & Hj & _) Hs _ _].
      split; [by exists j|by right; right|..]; cbn; [intros _; rewrite existsb_app; by rewrite orb_true_r|].
      intros _. unfold cx_interrupted in *. cbn. by rewrite Hi.
  - unfold placed. cbn [set_at cx_at]. destruct H as [H _]. apply (live_same s); auto.
  - apply loop_placed; [by apply (fine_steer_answered text expected (inl m)); apply (live_same s); auto|]. cbn. unfold with_state. by destruct (_ && _).
  - apply loop_placed; [by apply (fine_steer_answered text expected (inr v)); apply (live_same s); auto|].
    cbn [steer_answered]. by rewrite (sm_at _ _ (quiet_send_steered new_message_id _)).
  - apply loop_placed; [by apply (fine_new_turn_answered (inl m)); apply (live_same s); auto|].
    pose proof (sm_at _ _ (quiet_new_turn_answered new_message_id (inl m) (set_at ALoop s))) as Hq.
    cbn [new_turn_answered] in Hq. by rewrite Hq.
  - apply loop_placed; [by apply (fine_new_turn_answered (inr v)); apply (live_same s); auto|].
    pose proof (sm_at _ _ (quiet_new_turn_answered new_message_id (inr v) (set_at ALoop s))) as Hq.
    cbn [new_turn_answered] in Hq. by rewrite Hq.
Qed.

(** Where the session is, a change of the client or of the asks does not matter. *)
Lemma placed_same s s' :
  cx_at s' = cx_at s -> cx_emitted s' = cx_emitted s -> cx_message s' = cx_message s -> cx_turns s' = cx_turns s ->
  cx_interrupted s' = cx_interrupted s -> cl_done_after (cx_control s') = cl_done_after (cx_control s) ->
  (cx_gone s' = false -> cx_gone s = false) -> placed s -> placed s'.
Proof.
  intros E1 E2 E3 E4 E5 E6 E7 H. unfold placed in *. rewrite E1.
  assert (live s -> live s') as Hl.
  { intros [[(k & Hc & Hk) Hs Hu Hd] Ha]. split; [|by rewrite E6]. split; unfold events; rewrite ?E2, ?E3, ?E4; try done.
    - exists k. auto.
    - intros Hx. destruct (Hd Hx) as [Hg|]; [left|by right]. destruct (cx_gone s'); [done|]. by rewrite E7 in Hg. }
  destruct (cx_at s); auto.
  1-3: unfold fresh in *; by rewrite E2, E3, E4, E5, E6.
  - rewrite E5. split; [apply Hl|]; apply H.
  - destruct H as [[k Hk] Ho Hd Hi]. split; unfold events; rewrite ?E2, ?E5; [by exists k|done|auto|auto].
Qed.

Lemma looping_live s : looping (cx_at s) = true -> placed s -> live s.
Proof. unfold placed. by destruct (cx_at s). Qed.

Lemma notified_looping method params s :
  cx_at s = ALoop -> looping (cx_at (notified new_message_id request method params s).1) = true.
Proof.
  intros Ha. unfold notified, with_state. destruct (foreign_thread _ _ _) as [child|].
  - destruct (register_spawn_spec child method params s) as ([Hs _ _ _ _] & _ & _).
    assert (cx_at (register_spawn child method params s) = ALoop) as Hr by (rewrite (sm_at _ _ Hs); exact Ha).
    unfold on_foreign, seq, pure. destruct (route_child_notification method) eqn:Er.
    + unfold with_state. destruct (cx_children (register_spawn child method params s) !! child); [|by cbn; rewrite Hr].
      by rewrite (sm_at _ _ (quiet_send_all _ _)), Hr.
    + by cbn; rewrite Hr.
    + rewrite parent_route_skips by done. by cbn; rewrite Hr.
  - destruct (effect_notification new_message_id request method params s) as [s1 H|child call s1 _ H|text rest s1 _ H];
      [rewrite (sm_at _ _ H)|rewrite (sm_at _ _ H); cbn|done]; by rewrite Ha.
Qed.

Lemma codex_step_placed k s s' :
  placed s -> codex_step new_message_id new_question_id crash request k s = Some s' -> placed s'.
Proof.
  intros H E. destruct k as [line| | | | |prompt| | | | |k a]; cbn [codex_step] in E; unfold at_loop in E.
  1-3: unfold client_step in E; destruct (rpc_step _ _); [|done]; injection E as <-; by apply (placed_same s).
  - destruct (await_id (cx_at s)) as [id|]; [|done]. cbn in E.
    destruct (rpc_answer _ _) as [out|]; [|done]. by eapply answered_placed.
  - destruct (cx_at s) eqn:Ea; try done. destruct (_ !! _) as [i|]; [|done]. injection E as <-.
    assert (live s) as Hl by (apply looping_live; [by rewrite Ea|done]).
    apply loop_placed; [apply fine_incoming; by apply (live_same s); auto|].
    destruct i as [method params|id method params|]; [by apply notified_looping| |by cbn; rewrite Ea].
    cbn. unfold handle_server_request. destruct (String.eqb _ _); [destruct (user_input_questions _ _ _)|destruct (negb _);
      [|destruct (rq_auto_approve request)]]; cbn; by rewrite Ea.
  - destruct (cx_at s) eqn:Ea; try done. destruct (_ && _); [|done]. injection E as <-.
    assert (live s) as Hl by (apply looping_live; [by rewrite Ea|done]).
    apply loop_placed; [by apply fine_steer|]. unfold on_steer, with_state. destruct prompt; [by destruct (tr_active _)|].
    cbn. destruct (tr_active _), (tn_queue (cx_turns s)); cbn; by rewrite Ea.
  - destruct (cl_cancelled _); [|done]. destruct (cx_at s) eqn:Ea; try done; cbn in E;
      try (injection E as <-; apply setup_closed; unfold placed in H; by rewrite Ea in H).
    destruct (negb _); [|done]. injection E as <-.
    assert (live s) as Hl by (apply looping_live; [by rewrite Ea|done]).
    apply loop_placed; [by apply fine_interrupt|]. unfold on_interrupt, with_state. cbn. destruct (tr_active _); cbn; by rewrite Ea.
  - destruct (cx_at s) eqn:Ea; try done. destruct (cx_gone s); [|done]. injection E as <-.
    apply finish_closed, live_stopped, looping_live; [by rewrite Ea|done].
  - injection E as <-. by apply (placed_same s).
  - injection E as <-. by apply (placed_same s).
  - unfold bridge_answered in E. destruct (_ !! k) as [x|]; [|done]. cbn in E. destruct (ask_answer x _).
    injection E as <-. by apply (placed_same s).
Qed.

Lemma placed_opened s : placed s -> (exists k, chain 0 (events s) = Some k) /\ opened (cx_emitted s).
Proof.
  unfold placed. intros H.
  assert (live s -> (exists k, chain 0 (events s) = Some k) /\ opened (cx_emitted s)) as Hl.
  { intros [Ht _]. split; [by apply threaded_chain|]. right. right. apply Ht. }
  destruct (cx_at s); auto.
  1-3: destruct H as (He & _); unfold events; rewrite He; split; [by exists 0%nat|by left].
  - by destruct H as [? _]; apply Hl.
  - by destruct H.
Qed.

(** C25. What every run of the Codex adapter promises the run loop, whatever the
    app server prints, whatever answers, steers, interrupts and losses come in
    any order: the stream opens with its one session start, under the first
    message id, unless the setup failed; every boundary names the message it
    closes and, for a steer, the one it opens, so the ids follow each other
    without a gap; and a run that is over has given whoever still listens a
    [Done], its last event an interrupted one after an interrupt of the loop. *)
Theorem codex_stream_contract ks :
  let s := run ks (session_new version) in
  opened (cx_emitted s) /\
  (exists k, chain 0 (events s) = Some k) /\
  (cx_at s = AOver -> cx_gone s = false ->
     existsb is_done (cx_emitted s) = true /\
     (cx_interrupted s = true -> ends_interrupted (cx_emitted s))).
Proof.
  cbn zeta. assert (placed (run ks (session_new version))) as H.
  { assert (placed (session_new version)) as H0 by done. revert H0. generalize (session_new version).
    induction ks as [|k ks IH]; intros s H; [done|]. cbn. apply IH.
    destruct (codex_step _ _ _ _ k s) as [s'|] eqn:E; [by eapply codex_step_placed|done]. }
  destruct (placed_opened _ H) as [Hc Ho]. split_and!; [done..|].
  unfold placed in H. intros Ha Hg. rewrite Ha in H. destruct H as [_ _ Hd Hi]. auto.
Qed.
End Stream.
