(* ===== verification/CodexLimits.v ===== *)
(** The turn router's window, and where the Codex session's promises end:
    requests that never return, steers that are overtaken or dropped, turns
    settled by another's end. *)
From S2P Require Import Prelude Json Text Agent Samples Claude JsonRpc CodexItems Loop Codex CodexSafety.

(** ** The router *)

Inductive RouterOp := OStarted (id : string) | OCompleted (id : string) | OAdopt (id : string).

Definition router_step (r : TurnRouter) (o : RouterOp) : TurnRouter :=
  match o with OStarted id => note_started id r | OCompleted id => note_completed id r | OAdopt id => adopt_started id r end.

(** What an operation can push into the window. *)
Definition pushes (o : RouterOp) : nat := match o with OAdopt _ => 0 | _ => 1 end.

(** [id] was completed, at most [n] completions ago, and is not in flight. *)
Definition retired (id : string) (n : nat) (r : TurnRouter) : Prop :=
  (exists pre post, tr_completed r = pre ++ id :: post /\ (length post <= n)%nat) /\
  tr_active r <> Some id /\ (length (tr_completed r) <= COMPLETED_KEPT)%nat.

Lemma retired_completed id n r : retired id n r -> is_completed id r = true.
Proof. intros ((pre & post & E & _) & _). unfold is_completed. rewrite E. apply one_of_elem. set_solver. Qed.

Lemma retired_mono id n m r : (n <= m)%nat -> retired id n r -> retired id m r.
Proof. intros Hm ((pre & post & E & Hl) & H). split; [|done]. exists pre, post. split; [done|lia]. Qed.

Lemma retired_remember id n x r : (S n < COMPLETED_KEPT)%nat -> retired id n r -> retired id (S n) (remember_completed x r).
Proof.
  intros Hn ((pre & post & E & Hl) & Ha & Hk). unfold remember_completed, retired. cbn. split_and!; [|done|].
  - rewrite E, <- app_assoc. cbn [app].
    assert (length (pre ++ id :: post ++ [x]) = (length pre + S (length post + 1))%nat) as ->
      by (rewrite length_app; cbn; by rewrite length_app).
    assert (length pre + (S (length post + 1)) - COMPLETED_KEPT <= length pre)%nat as Hd by lia.
    exists (drop (length pre + S (length post + 1) - COMPLETED_KEPT) pre), (post ++ [x]).
    rewrite drop_app_le by done. split; [done|]. rewrite length_app. cbn. lia.
  - rewrite length_drop. lia.
Qed.

Lemma remember_len x r : (length (tr_completed (remember_completed x r)) <= COMPLETED_KEPT)%nat.
Proof. unfold remember_completed. cbn. rewrite length_drop. lia. Qed.

Lemma retired_active id n a r : a <> Some id -> retired id n r -> retired id n (mk_router a (tr_completed r)).
Proof. intros Ha (H1 & _ & H3). by split_and!. Qed.

Lemma router_step_retired id n r o :
  (n + pushes o < COMPLETED_KEPT)%nat -> retired id n r -> retired id (n + pushes o) (router_step r o).
Proof.
  intros Hn H. destruct o as [x|x|x]; cbn [pushes router_step] in *.
  - assert (retired id (n + 1) r) as H' by (eapply retired_mono; [|done]; lia).
    unfold note_started. destruct (String.eqb x "" || is_completed x r) eqn:Ex; [done|]. apply orb_false_iff in Ex as [_ Ex].
    assert (x <> id) as Hne by (intros ->; rewrite (retired_completed _ _ _ H) in Ex; done).
    apply retired_active; [congruence|]. destruct (tr_active r) as [prev|]; [|done]. destruct (String.eqb prev x); [done|].
    rewrite Nat.add_1_r. apply retired_remember; [lia|done].
  - unfold note_completed. destruct (String.eqb x ""); [by eapply retired_mono; [|done]; lia|].
    apply retired_active; [|rewrite Nat.add_1_r; apply retired_remember; [lia|done]].
    cbn. case_bool_decide; [done|apply H].
  - rewrite Nat.add_0_r. apply retired_active; [|done]. destruct (String.eqb_spec x id) as [->|].
    + by rewrite (retired_completed _ _ _ H), andb_false_r.
    + destruct (_ && _); congruence.
Qed.

(** A turn declared over is not revived: after its completion, however the
    starts, completions and late [turn/start] responses of other turns follow
    and however often it is announced again itself, it is never the active turn
    while fewer than thirty-two completions were remembered since. *)
Theorem completed_turn_stays_over id ops r :
  id <> "" -> (sum_list (pushes <$> ops) < COMPLETED_KEPT)%nat ->
  let r' := foldl router_step (note_completed id r) ops in
  tr_active r' <> Some id /\ is_completed id r' = true.
Proof.
  intros Hid Hn r'. unfold r'.
  enough (forall ops n r, (n + sum_list (pushes <$> ops) < COMPLETED_KEPT)%nat -> retired id n r ->
    retired id (n + sum_list (pushes <$> ops)) (foldl router_step r ops)) as Hrun.
  { assert (retired id 0 (note_completed id r)) as H0.
    { unfold note_completed. rewrite (proj2 (String.eqb_neq id "")) by done. split_and!.
      - cbn. rewrite length_app. cbn. exists (drop (length (tr_completed r) + 1 - COMPLETED_KEPT) (tr_completed r)), [].
        split; [|done]. apply drop_app_le. unfold COMPLETED_KEPT. lia.
      - cbn. case_bool_decide; [done|]. done.
      - apply remember_len. }
    apply (Hrun ops 0%nat) in H0; [|lia]. split; [apply H0|by eapply retired_completed]. }
  clear. induction ops as [|o ops IH]; intros n r Hn H; [by rewrite Nat.add_0_r|]. cbn in *.
  replace (n + (pushes o + sum_list (pushes <$> ops)))%nat with (n + pushes o + sum_list (pushes <$> ops))%nat by lia.
  apply IH; [lia|]. apply router_step_retired; [lia|done].
Qed.

Definition sample_ops : list RouterOp := [OAdopt "t-1"; OStarted "t-1"; OStarted "t-2"; OStarted "t-3"; OAdopt "t-1"].

Lemma completed_turn_stays_over_witness :
  let r := foldl router_step (note_completed "t-1" router_new) sample_ops in
  tr_active r <> Some "t-1" /\ is_completed "t-1" r = true.
Proof. apply (completed_turn_stays_over "t-1" sample_ops router_new); [done|unfold COMPLETED_KEPT; cbn; lia]. Defined.

(** The window is what bounds it: thirty-two completions later a late start
    revives the turn. *)
Example revived_after_window :
  tr_active (note_started "t" (foldl router_step (note_completed "t" router_new)
    ((fun n => OCompleted (sample_id n)) <$> List.seq 0%nat 32%nat))) = Some "t".
Proof. vm_compute. reflexivity. Qed.

(** ** Waiting for ever *)

Section Stuck.
Context {J : JsonText} (new_message_id new_question_id : nat -> string) (version crash : string) (request : RunRequest).

Abbreviation step := (codex_step new_message_id new_question_id crash request).
Abbreviation run := (codex_run new_message_id new_question_id crash request).

Definition stuck (id : Z) (s : CodexSession) : Prop :=
  stranded id (cx_client s) /\ await_id (cx_at s) = Some id /\ in_setup (cx_at s) = false.

Lemma stranded_write id v c : stranded id c -> stranded id (write_value v c).
Proof.
  intros (H1 & H2 & H3). destruct (write_value_same v c) as (E1 & E2 & E3 & E4). split_and!.
  - by apply (onward_write v c).
  - by rewrite E4.
  - by rewrite E2.
Qed.

Lemma stuck_step id k s s' : stuck id s -> step k s = Some s' -> stuck id s' /\ cx_at s' = cx_at s.
Proof.
  intros (Hs & Hw & Hn) E. destruct k as [line| | | | |prompt| | | | |k a]; cbn [codex_step] in E; unfold at_loop in E.
  1-3: unfold client_step in E; destruct (rpc_step _ _) eqn:Er; [|done]; injection E as <-;
    split; [|done]; split; [by eapply stranded_step|done].
  - rewrite Hw in E. cbn [mbind option_bind] in E. by rewrite (stranded_unanswered _ _ Hs) in E.
  - by destruct (cx_at s).
  - by destruct (cx_at s).
  - destruct (cl_cancelled _); [|done]. rewrite Hn in E. by destruct (cx_at s).
  - by destruct (cx_at s).
  - by injection E as <-.
  - by injection E as <-.
  - unfold bridge_answered in E. destruct (_ !! k) as [x|]; [|done]. cbn in E. destruct (ask_answer x _). injection E as <-.
    split; [|done]. split; [by apply stranded_write|done].
Qed.

(** A session that asks after its child's output has ended never moves again:
    no answer comes, and neither the interrupt nor a consumer that leaves is
    looked at before one does. *)
Lemma stuck_forever id ks : forall s, stuck id s -> cx_at (run ks s) = cx_at s.
Proof.
  induction ks as [|k ks IH]; intros s H; [done|]. cbn. destruct (step k s) as [s'|] eqn:E; [|by apply IH].
  destruct (stuck_step id k s s' H E) as [H' <-]. by apply IH.
Qed.

(** Whoever waits for an answer outside of the setup does not take the interrupt. *)
Lemma interrupt_waits s id : await_id (cx_at s) = Some id -> in_setup (cx_at s) = false -> step KInterrupt s = None.
Proof. intros Hw Hs. cbn. destruct (cl_cancelled _); [|done]. rewrite Hs. unfold at_loop. by destruct (cx_at s). Qed.
End Stuck.

(** ** Runs where it shows *)

(** A rejected steer, queued behind turn [u]. *)
Definition rejected : list CodexStep := sample_setup ++ [KSteer (Some "a"); error_line 4 "no"; KAnswer].
Definition completed_note : list CodexStep := [note_line "turn/completed" (turn_of "u"); KIncoming].

(** The child ends right after its turn did: the queued steer is asked of a dead
    child, and the run hangs for good. *)
Definition hung : list CodexStep := rejected ++ [note_line "turn/completed" (turn_of "u"); KEof; KIncoming].

Lemma dead_child_hangs ks :
  let run := @codex_run sample_json sample_id sample_question "crash" sample_request in
  cx_at (run ks (run hung (session_new "1"))) = ANewTurn 5 "a".
Proof.
  cbn zeta.
  pose proof (@codex_run_client sample_json sample_id sample_question "1" "crash" sample_request hung) as [Hc _].
  assert (cx_at (@codex_run sample_json sample_id sample_question "crash" sample_request hung (session_new "1")) =
    ANewTurn 5 "a") as Ha by (vm_compute; reflexivity).
  assert (rc_reading (cx_client (@codex_run sample_json sample_id sample_question "crash" sample_request hung
    (session_new "1"))) = false) as Hr by (vm_compute; reflexivity).
  assert (bool_decide (5 ∈ rc_pending (cx_client (@codex_run sample_json sample_id sample_question "crash" sample_request
    hung (session_new "1")))) = true) as Hp by (vm_compute; reflexivity).
  apply bool_decide_eq_true in Hp. revert Hc Ha Hr Hp.
  generalize (@codex_run sample_json sample_id sample_question "crash" sample_request hung (session_new "1")).
  intros s Hc Ha Hr Hp. rewrite <- Ha. apply (stuck_forever _ _ _ _ 5). by split; [|rewrite Ha].
Qed.

(** A later steer overtakes one that was rejected. *)
Example steer_overtakes :
  let s := sample_run (rejected ++ [KSteer (Some "b"); result_line 5 Null; KAnswer]) in
  tn_queue (cx_turns s) = ["a"] /\ last (cx_emitted s) = Some (Steered (Some "m0") (Some "m1")).
Proof. split; vm_compute; reflexivity. Qed.

(** A turn that fails takes the queued steers with it. *)
Example failed_turn_drops_steers :
  let s := sample_run (rejected ++ [note_line "turn/failed" (turn_of "u"); KIncoming]) in
  cx_at s = AOver /\ tn_queue (cx_turns s) = ["a"].
Proof. split; vm_compute; reflexivity. Qed.

(** A steer between turns that cannot start ends the run, with no [Done] behind its error. *)
Example failed_steer_ends_run :
  let s := sample_run (sample_setup ++ completed_note ++ [KSteer (Some "b"); error_line 4 "no"; KAnswer]) in
  cx_at s = AOver /\
  last (cx_emitted s) = Some (ErrorEv "Steering failed: harness protocol error: turn/start: no").
Proof. split; vm_compute; reflexivity. Qed.

(** An empty delta counts as streamed: the text of the completed message is lost. *)
Example empty_delta_loses_text :
  let s := sample_run (sample_setup ++
    [note_line "item/agentMessage/delta" (Object [("delta", Str ""); ("itemId", Str "i")]); KIncoming;
     note_line "item/completed"
       (Object [("item", Object [("id", Str "i"); ("text", Str "hello"); ("type", Str "agentMessage")])]); KIncoming]) in
  drop 1 (cx_emitted s) = [TextDelta newlines; AssistantMessageCompleted "m0"].
Proof. vm_compute. reflexivity. Qed.

(** The end of a replaced turn settles the turn that replaced it. *)
Example stale_end_settles :
  let s := sample_run (sample_setup ++ [note_line "turn/started" (turn_of "v"); KIncoming] ++ completed_note) in
  tr_active (cx_router s) = Some "v" /\ last (cx_emitted s) = Some (Done Agent.Completed None None (Some "t")).
Proof. split; vm_compute; reflexivity. Qed.
