(* ===== verification/AcpItems.v ===== *)
(** The wire of an ACP agent: crates/harness/src/acp/normalize.rs and the pure
    parts of acp/mod.rs. Session updates as agent events, the typed call of a
    tool update, the capped texts, the permission choice, the config options of
    a run, and what the answer of a prompt settles. *)
From S2P Require Import Prelude Json Text Agent Parts Claude Run CodexItems.

Definition OUTPUT_CAP : nat := N.to_nat 16384.
Definition DIFF_TEXT_CAP : nat := N.to_nat 65536.

#[local] Opaque OUTPUT_CAP DIFF_TEXT_CAP.

(** ** Fields *)

Definition str_at (v : Value) (key : string) : string := default "" (obj_get v key ≫= as_str).

Definition has (v : Value) (key : string) : bool := bool_decide (is_Some (obj_get v key)).

Definition ellipsis : string := bytes_string [226; 128; 166]%nat.
Definition truncated_mark : string := String newline (ellipsis +:+ " [truncated]").

(** [cap_text]: cut on a character boundary, with a mark. *)
Definition cap_text (text : string) (cap : nat) : string :=
  if (String.length text <=? cap)%nat then text
  else slice 0 (back_up text cap) text +:+ truncated_mark.

Definition content_block_text (block : Value) : option string :=
  if bool_decide (obj_get block "type" ≫= as_str = Some "text") then obj_get block "text" ≫= as_str else None.

Definition chunk_text (update : Value) : option string :=
  non_empty (obj_get update "content" ≫= content_block_text).

Definition of_type (ty : string) (c : Value) : bool := bool_decide (obj_get c "type" ≫= as_str = Some ty).

(** The blocks of type [content]; other blocks contribute nothing. *)
Definition tool_output (update : Value) : option string :=
  match obj_get update "content" with
  | Some (Array l) =>
      match omap (fun c => non_empty (obj_get c "content" ≫= content_block_text))
              (List.filter (of_type "content") l) with
      | [] => None
      | parts => Some (cap_text (join (String newline "") parts) OUTPUT_CAP)
      end
  | _ => None
  end.

Definition tool_diff (update : Value) : option ToolDiff :=
  match obj_get update "content" with
  | Some (Array l) =>
      diff ← List.find (of_type "diff") l;
      let path := str_at diff "path" in
      if String.eqb path "" then None
      else Some (mk_tool_diff path ((fun t => cap_text t DIFF_TEXT_CAP) <$> (obj_get diff "oldText" ≫= as_str))
                   (cap_text (str_at diff "newText") DIFF_TEXT_CAP))
  | _ => None
  end.

Definition xai_tool_name (update : Value) : option string :=
  pointer update ["_meta"; "x.ai/tool"; "name"] ≫= as_str.

Definition first_location (update : Value) : option string :=
  match obj_get update "locations" with
  | Some (Array (first :: _)) => non_empty (obj_get first "path" ≫= as_str)
  | _ => None
  end.

(** ** Titles *)

Definition PLACEHOLDER_TITLES : list string :=
  ["grep"; "Find"; "Terminal"; "Read File"; "Edit File"; "Delete File"; "Web Search"; "Web Fetch";
   "Codebase Search"; "Read TODOs"; "Update TODOs"; "Read Lints"; "Task: Subagent task"; "Subagent task";
   "List MCP Resources"; "Fetch MCP Resource"].

Definition is_placeholder_title (title : string) : bool := one_of PLACEHOLDER_TITLES (trim title).

Definition backtick : Ascii.ascii := Ascii.ascii_of_nat 96.
Definition backslash : Ascii.ascii := Ascii.ascii_of_nat 92.

Fixpoint unescape (s : string) : string :=
  match s with
  | EmptyString => ""
  | String a s =>
      match s with
      | String b rest =>
          if Ascii.eqb a backslash && Ascii.eqb b backtick then String backtick (unescape rest)
          else String a (unescape s)
      | EmptyString => String a ""
      end
  end.

(** The argument a text is, when it is no placeholder. *)
Definition arg_from_title (title : string) : option string :=
  let t := trim title in
  if String.eqb t "" || is_placeholder_title t then None else Some t.

Definition unwrap_command_title (title : string) : option string :=
  inner ← strip_prefix (String backtick "") (trim title) ≫= strip_suffix (String backtick "");
  arg_from_title (unescape inner).

(** ** The typed call *)

(** [or_else]: the first that is there. *)
Definition first_of {A} (l : list (option A)) : option A := head (omap id l).

Definition of_diff (diff : ToolDiff) : ToolCall :=
  match td_old_text diff with
  | None => WriteFile (td_path diff) None
  | Some _ => EditFile (td_path diff) None None
  end.

(** A spawn of a subagent, by its description. *)
Definition agent_call (description : option string) (raw : option Value) : ToolCall :=
  Unknown (match description with Some d => "Agent: " +:+ d | None => "Agent" end) raw.

Definition typed_call (update : Value) : ToolCall :=
  let kind := default "other" (obj_get update "kind" ≫= as_str) in
  let title := str_at update "title" in
  let raw : option Value := obj_get update "rawInput" ≫= non_null_input in
  let raw_str (key : string) : option string := non_empty ((raw ≫= (fun r => obj_get r key)) ≫= as_str) in
  let raw_has (key : string) := match raw with Some r => has r key | None => false end in
  let path_args := [raw_str "path"; raw_str "file_path"; raw_str "filePath"; first_location update] in
  if String.eqb kind "execute" then
    Exec (default "" (first_of [raw_str "command"; unwrap_command_title title; arg_from_title title]))
  else if String.eqb kind "read" then ReadFile (default "" (first_of (path_args ++ [arg_from_title title])))
  else if one_of ["edit"; "delete"; "move"] kind then
    match tool_diff update with
    | Some diff => of_diff diff
    | None =>
        match first_of path_args with
        | Some path => if String.eqb kind "edit" then EditFile path None None else ApplyPatch (Some path)
        | None => ApplyPatch None
        end
    end
  else if String.eqb kind "search" then
    match raw_str "searchTerm" with
    | Some query => WebSearch query
    | None =>
        Search (default "" (first_of [raw_str "pattern"; raw_str "globPattern"; raw_str "query"; arg_from_title title]))
          (raw_str "path")
    end
  else if String.eqb kind "fetch" then
    match raw_str "url" with
    | Some url => WebFetch url None
    | None => WebSearch (default "" (first_of [raw_str "searchTerm"; raw_str "query"; arg_from_title title]))
    end
  else
    match tool_diff update with
    | Some diff => of_diff diff
    | None =>
        let child := default Null (pointer update ["rawOutput"; "metadata"]) in
        if bool_decide (xai_tool_name update = Some "spawn_subagent") then agent_call (raw_str "description") raw
        else if raw_has "subagent_type" && raw_has "prompt" then agent_call (raw_str "description") raw
        else if has child "sessionId" && has child "parentSessionId" then
          agent_call (if String.eqb title "" then None else Some title) raw
        else if bool_decide (raw_str "_toolName" = Some "task") then
          let described := d ← raw_str "description";
                           if String.eqb d "Subagent task" then None else Some ("Task: " +:+ d) in
          Unknown (default (if String.eqb title "" then "Task" else title) (first_of [described; arg_from_title title])) raw
        else Unknown (if String.eqb title "" then kind else title) raw
    end.

(** ** Updates as events *)

(** [resolved_result]: a terminal status resolves the call. *)
Definition terminal_status (update : Value) : option bool :=
  status ← obj_get update "status" ≫= as_str;
  if String.eqb status "completed" then Some false
  else if String.eqb status "failed" then Some true
  else None.

Definition resolved_result (update : Value) (id : string) : option AgentEvent :=
  is_error ← terminal_status update;
  Some (ToolResult id is_error (tool_output update) (tool_diff update)).

(** An update that carries a new shape of its call. *)
Definition shaped (update : Value) : bool :=
  has update "kind" || has update "title" || has update "rawInput" || bool_decide (is_Some (tool_diff update)).

Definition plan_item (e : Value) : TodoItem :=
  mk_todo (str_at e "content") (bool_decide (obj_get e "status" ≫= as_str = Some "completed")).

Definition command_of (c : Value) : option SlashCommand :=
  let name := str_at c "name" in
  if String.eqb name "" then None
  else Some (mk_slash name (str_at c "description") (pointer c ["input"; "hint"] ≫= as_str)).

Definition parse_commands (value : option Value) : list SlashCommand :=
  match value with Some (Array l) => omap command_of l | _ => [] end.

Definition update_kind (update : Value) : string := str_at update "sessionUpdate".

(** [map_update] *)
Definition map_update (update : Value) : list AgentEvent :=
  let kind := update_kind update in
  let id := str_at update "toolCallId" in
  if String.eqb kind "agent_message_chunk" then option_list (TextDelta <$> chunk_text update)
  else if String.eqb kind "agent_thought_chunk" then option_list (ReasoningDelta <$> chunk_text update)
  else if String.eqb kind "tool_call" then
    ToolCallEv id (typed_call update) :: option_list (resolved_result update id)
  else if String.eqb kind "tool_call_update" then
    (if shaped update then [ToolCallEv id (typed_call update)] else []) ++ option_list (resolved_result update id)
  else if String.eqb kind "plan" then
    [ToolCallEv LIVE_PLAN_TOOL_ID (Todo (plan_item <$> array_field update "entries"));
     ToolResult LIVE_PLAN_TOOL_ID false None None]
  else if String.eqb kind "available_commands_update" then
    [AvailableCommands (parse_commands (obj_get update "availableCommands"))]
  else [].

(** [preferred_allow_option] *)
Definition preferred_allow_option (options : list Value) : option string :=
  let by_kind kind := List.find (fun o => bool_decide (obj_get o "kind" ≫= as_str = Some kind)) options in
  o ← first_of [by_kind "allow_always"; by_kind "allow_once"; head options];
  non_empty (Some (str_at o "optionId")).

(** ** The answer of a prompt *)

(** [usage_from_response] *)
Definition usage_from_response (resp : Value) : option AgentEvent :=
  usage ← match obj_get resp "usage" with Some u => Some u | None => obj_get resp "_meta" end;
  let count keys := field usage keys ≫= as_u64 in
  match count ["inputTokens"; "input_tokens"], count ["outputTokens"; "output_tokens"] with
  | None, None => None
  | input, output => Some (Usage (default 0%N input) (default 0%N output) 0)
  end.

(** [stop_outcome]; an error is its message. *)
Definition stop_outcome (res : string + Value) (interrupted : bool) : DoneStatus * option string :=
  if interrupted then (Interrupted, None)
  else
    match res with
    | inr resp =>
        let reason := str_at resp "stopReason" in
        if String.eqb reason "cancelled" then (Interrupted, None)
        else if String.eqb reason "refusal" then (Errored, Some "The agent refused to continue.")
        else (Completed, None)
    | inl e => (Errored, Some e)
    end.

(** ** The config options of a run *)

Fixpoint keep_chars (p : Ascii.ascii -> bool) (s : string) : string :=
  match s with
  | EmptyString => ""
  | String a s => if p a then String a (keep_chars p s) else keep_chars p s
  end.

Definition norm_id (id : string) : string := to_ascii_lowercase (keep_chars alphanumeric id).

Definition context_hint_1m (id : string) : bool := contains "[1m]" id || ends_with "-1m" id.

Definition FAMILIES : list string := ["fable"; "opus"; "sonnet"; "haiku"; "gpt"].

Definition pick_model_value (requested : string) (available : list string) (context_1m : bool) : option string :=
  match (if context_1m then List.find (one_of available) [requested +:+ "[1m]"; requested +:+ "-1m"] else None) with
  | Some composed => Some composed
  | None =>
      if one_of available requested then Some requested
      else
        family ← List.find (fun f => contains f (norm_id requested)) FAMILIES;
        let candidates := List.filter (fun v => contains family (norm_id v)) available in
        match List.find (fun v => Bool.eqb (context_hint_1m v) context_1m) candidates with
        | Some v => Some v
        | None => head candidates
        end
  end.

Definition NO_PROMPT_MODES : list string :=
  ["bypassPermissions"; "bypass_permissions"; "yolo"; "agent-full-access"; "danger-full-access"; "full-access"].

(** A run's option for any other config option, by normalized id. *)
Definition matched_option (kind config_id : string) (available : list string) (o : string * Value) : option Value :=
  if negb (String.eqb (norm_id o.1) (norm_id config_id)) || String.eqb o.1 "contextWindow" then None
  else if String.eqb kind "select" then
    c ← as_str o.2; if one_of available c then Some (Str c) else None
  else if String.eqb kind "boolean" then
    Some (Bool (bool_decide (o.2 = Bool true) ||
                match as_str o.2 with Some c => eq_ignore_ascii_case c "on" | None => false end))
  else None.

(** The first choice that gives a value. *)
Fixpoint find_map {A B} (f : A -> option B) (l : list A) : option B :=
  match l with [] => None | x :: l => match f x with Some y => Some y | None => find_map f l end end.

Definition wanted_value (model : option string) (efforts : list string) (model_options : list (string * Value))
    (context_1m : bool) (config_id : string) (opt : Value) : option Value :=
  let kind := str_at opt "type" in
  let category := obj_get opt "category" ≫= as_str in
  let available := omap (fun o => obj_get o "value" ≫= as_str) (array_field opt "options") in
  let select c := String.eqb kind "select" && bool_decide (category = Some c) in
  if select "model" then Str <$> (model ≫= (fun m => pick_model_value m available context_1m))
  else if select "mode" then
    Str <$> match (c ← assoc_get "mode" model_options ≫= as_str; if one_of available c then Some c else None) with
            | Some c => Some c
            | None => List.find (one_of available) NO_PROMPT_MODES
            end
  else if select "thought_level" then Str <$> List.find (one_of available) efforts
  else find_map (matched_option kind config_id available) model_options.

Definition option_payload (value : Value) : list (string * Value) :=
  match value with Bool b => [("type", Str "boolean"); ("value", Bool b)] | v => [("value", v)] end.

Definition config_set (model : option string) (efforts : list string) (model_options : list (string * Value))
    (context_1m : bool) (opt : Value) : option (string * list (string * Value)) :=
  config_id ← obj_get opt "id" ≫= as_str;
  value ← wanted_value model efforts model_options context_1m config_id opt;
  if bool_decide (obj_get opt "currentValue" = Some value) then None else Some (config_id, option_payload value).

(** [config_option_sets] *)
Definition config_option_sets (session_response : Value) (model : option string) (efforts : list string)
    (model_options : list (string * Value)) : list (string * list (string * Value)) :=
  let context_1m := match assoc_get "contextWindow" model_options ≫= as_str with
                    | Some w => eq_ignore_ascii_case w "1m"
                    | None => false
                    end in
  omap (config_set model efforts model_options context_1m) (array_field session_response "configOptions").

(** [default_effort_values] *)
Definition default_effort_values (reasoning : option ReasoningLevel) : list string :=
  match reasoning with
  | None => []
  | Some Minimal => ["minimal"; "low"]
  | Some Low => ["low"; "minimal"]
  | Some Medium => ["medium"]
  | Some High => ["high"]
  | Some XHigh => ["xhigh"; "x-high"; "high"]
  | Some Max => ["max"; "xhigh"; "high"]
  | Some _ => ["ultra"; "max"; "high"]
  end.

(** ** The handshake *)

Definition steering_supported (init : Value) : bool :=
  default false (pointer init ["_meta"; "steering"; "supported"] ≫= as_boolean).

(** The scan for an [availableCommands] array, [depth] levels down. *)
Fixpoint scan (depth : nat) (value : Value) : option Value :=
  match depth, value with
  | S depth, Object l =>
      match assoc_get "availableCommands" l with
      | Some (Array c) => Some (Array c)
      | _ => find_map (fun p => scan depth p.2) l
      end
  | _, _ => None
  end.

Definition scan_available_commands (value : Value) : list SlashCommand := parse_commands (scan 4 value).

(** ** Permissions *)

Definition permission_kind (o : Value) : bool :=
  match obj_get o "kind" ≫= as_str with
  | Some k => one_of ["allow_once"; "allow_always"; "reject_once"; "reject_always"] k
  | None => false
  end.

(** [is_user_question] *)
Definition is_user_question (options : list Value) : bool := existsb (fun o => negb (permission_kind o)) options.

(** The payload maps of the tests of the source. *)
Example title_ex :
  unwrap_command_title "`ls \`x\``" = Some "ls `x`" /\ arg_from_title " Read File " = None /\
  norm_id "fast-Mode_1" = "fastmode1" /\
  pick_model_value "claude-opus-5" ["default"; "opus[1m]"; "sonnet"] true = Some "opus[1m]" /\
  pick_model_value "claude-opus-5" ["opus[1m]"; "opus"] false = Some "opus".
Proof. split_and!; reflexivity. Qed.

(** ** Updates and chips *)

Lemma cap_text_le text cap : (String.length (cap_text text cap) <= cap + String.length truncated_mark)%nat.
Proof.
  unfold cap_text. destruct (Nat.leb_spec (String.length text) cap) as [|Hc]; [lia|].
  rewrite string_length_app, slice_length; pose proof (back_up_le text cap); lia.
Qed.

(** What is cut off is the end: a capped text starts with its cut. *)
Lemma cap_text_fits text cap : (String.length text <= cap)%nat -> cap_text text cap = text.
Proof. intros H. unfold cap_text. by rewrite (proj2 (Nat.leb_le _ _)). Qed.

(** A tool call as the transcript shows it: its call, whether it is resolved,
    whether it failed. *)
Definition Chip : Type := ToolCall * bool * bool.

Definition chip_of (t : ToolPart) : Chip := (tp_call t, tp_resolved t, tp_is_error t).

(** What an update means for the chip of one tool call, read off the wire. *)
Definition chip_step (id : string) (st : option Chip) (u : Value) : option Chip :=
  if String.eqb (str_at u "toolCallId") id && one_of ["tool_call"; "tool_call_update"] (update_kind u) then
    let st :=
      if String.eqb (update_kind u) "tool_call" || shaped u then
        Some (typed_call u, match st with Some c => c.1.2 | None => false end,
                            match st with Some c => c.2 | None => false end)
      else st in
    match terminal_status u with
    | Some failed => (fun c : Chip => (c.1.1, true, failed)) <$> st
    | None => st
    end
  else st.

(** Events that leave a chip alone. *)
Definition elsewhere (id : string) (e : AgentEvent) : Prop :=
  match e with
  | SessionStarted _ _ _ _ _ _ | Steered _ _ => False
  | ToolCallEv id' _ | ToolResult id' _ _ _ | Subagent id' _ => id' <> id
  | _ => True
  end.

Section Chips.
Context (text_diff : string -> string -> N * N) (id : string).
Abbreviation steps := (foldl (tool_step text_diff id)).

Lemma steps_elsewhere st evs : Forall (elsewhere id) evs -> steps st evs = st.
Proof.
  intros H. revert st. induction H as [|e evs He _ IH]; intros st; [done|]. cbn [foldl]. rewrite <- (IH st) at 2.
  f_equal. destruct e; cbn in *; try done; by rewrite (proj2 (String.eqb_neq _ _) He).
Qed.

Lemma chip_result st failed output diff :
  chip_of <$> steps st [ToolResult id failed output diff] =
    (fun c : Chip => (c.1.1, true, failed)) <$> (chip_of <$> st).
Proof. cbn. rewrite String.eqb_refl. by destruct st. Qed.

Lemma chip_resolved st u :
  chip_of <$> steps st (option_list (resolved_result u id)) =
    match terminal_status u with
    | Some failed => (fun c : Chip => (c.1.1, true, failed)) <$> (chip_of <$> st)
    | None => chip_of <$> st
    end.
Proof.
  unfold resolved_result. destruct (terminal_status u) as [failed|]; [|done]. cbn [mbind option_bind option_list].
  apply chip_result.
Qed.

Lemma chip_call st call :
  chip_of <$> steps st [ToolCallEv id call] =
    Some (call, match chip_of <$> st with Some c => c.1.2 | None => false end,
                match chip_of <$> st with Some c => c.2 | None => false end).
Proof. cbn. rewrite String.eqb_refl. by destruct st. Qed.

Lemma update_elsewhere u :
  id <> LIVE_PLAN_TOOL_ID ->
  String.eqb (str_at u "toolCallId") id && one_of ["tool_call"; "tool_call_update"] (update_kind u) = false ->
  Forall (elsewhere id) (map_update u).
Proof.
  intros Hplan H. unfold map_update. set (kind := update_kind u) in *. set (tid := str_at u "toolCallId") in *.
  destruct (String.eqb kind "agent_message_chunk"); [destruct (chunk_text u); by repeat constructor|].
  destruct (String.eqb kind "agent_thought_chunk"); [destruct (chunk_text u); by repeat constructor|].
  unfold one_of in H. cbn [existsb] in H.
  destruct (String.eqb kind "tool_call") eqn:E1.
  { rewrite andb_true_r in H. apply String.eqb_neq in H. unfold resolved_result.
    destruct (terminal_status u); by repeat constructor. }
  destruct (String.eqb kind "tool_call_update") eqn:E2.
  { rewrite andb_true_r in H. apply String.eqb_neq in H. unfold resolved_result.
    destruct (shaped u), (terminal_status u); by repeat constructor. }
  destruct (String.eqb kind "plan"); [by repeat constructor|].
  destruct (String.eqb kind "available_commands_update"); by repeat constructor.
Qed.

Lemma update_step st u :
  id <> LIVE_PLAN_TOOL_ID -> chip_of <$> steps st (map_update u) = chip_step id (chip_of <$> st) u.
Proof.
  intros Hplan. unfold chip_step.
  destruct (String.eqb (str_at u "toolCallId") id && one_of ["tool_call"; "tool_call_update"] (update_kind u)) eqn:H.
  2:{ by rewrite steps_elsewhere by by apply update_elsewhere. }
  apply andb_true_iff in H as [Hid%String.eqb_eq Hk]. unfold map_update. rewrite Hid.
  unfold one_of in Hk. cbn [existsb] in Hk. rewrite orb_false_r in Hk.
  destruct (String.eqb_spec (update_kind u) "tool_call") as [Ek|Ek].
  - rewrite Ek. cbn [String.eqb Ascii.eqb Bool.eqb orb].
    change (ToolCallEv id (typed_call u) :: option_list (resolved_result u id))
      with ([ToolCallEv id (typed_call u)] ++ option_list (resolved_result u id)).
    rewrite foldl_app, chip_resolved, chip_call. done.
  - apply String.eqb_eq in Hk. rewrite Hk. cbn [String.eqb Ascii.eqb Bool.eqb orb].
    rewrite foldl_app, chip_resolved. destruct (shaped u); [by rewrite chip_call|done].
Qed.
End Chips.

(** The bounds on what an event carries across the stream. *)
Definition within_caps (e : AgentEvent) : Prop :=
  match e with
  | ToolResult _ _ output diff =>
      (forall o, output = Some o -> String.length o <= OUTPUT_CAP + String.length truncated_mark)%nat /\
      (forall d, diff = Some d ->
         String.length (td_new_text d) <= DIFF_TEXT_CAP + String.length truncated_mark /\
         forall o, td_old_text d = Some o -> String.length o <= DIFF_TEXT_CAP + String.length truncated_mark)%nat
  | _ => True
  end.

Lemma resolved_within u id e : resolved_result u id = Some e -> within_caps e.
Proof.
  unfold resolved_result. destruct (terminal_status u); [|done]. cbn. intros [= <-]. split.
  - intros o. unfold tool_output. destruct (obj_get u "content") as [[]|]; try done.
    destruct (omap _ _); [done|]. intros [= <-]. apply cap_text_le.
  - intros d. unfold tool_diff. destruct (obj_get u "content") as [[]|]; try done.
    destruct (List.find _ _) as [diff|]; [|done]. cbn. destruct (String.eqb _ _); [done|]. intros [= <-]. cbn.
    split; [apply cap_text_le|]. intros o. destruct (obj_get diff "oldText" ≫= as_str); [|done]. cbn.
    intros [= <-]. apply cap_text_le.
Qed.

Lemma map_update_within u : Forall within_caps (map_update u).
Proof.
  assert (Hr : forall id, Forall within_caps (option_list (resolved_result u id))).
  { intros id. destruct (resolved_result u id) eqn:E; constructor; [by eapply resolved_within|done]. }
  unfold map_update. set (kind := update_kind u).
  destruct (String.eqb kind "agent_message_chunk"); [by destruct (chunk_text u); repeat constructor|].
  destruct (String.eqb kind "agent_thought_chunk"); [by destruct (chunk_text u); repeat constructor|].
  destruct (String.eqb kind "tool_call"); [constructor; [exact I|apply Hr]|].
  destruct (String.eqb kind "tool_call_update").
  { apply Forall_app. split; [destruct (shaped u); [apply Forall_singleton; exact I|constructor]|apply Hr]. }
  destruct (String.eqb kind "plan").
  { constructor; [exact I|]. apply Forall_singleton. by split. }
  by destruct (String.eqb kind "available_commands_update"); repeat constructor.
Qed.

(** C33. The chip of a tool call is what its updates say. Folded into an entry,
    the events of any sequence of session updates leave, under every tool call
    id but the plan's, the chip read directly off the updates that name it: it
    opens with the first update that carries a shape, its call is the typed call
    of the last one that does, an update that only reports output never re-types
    it, and it is resolved, failed or not, exactly as the last terminal status
    says. And no update carries more than sixteen kilobytes of output or
    sixty-four of either side of a diff, beside the mark of the cut. *)
Theorem acp_chips text_diff us :
  (forall id, id <> LIVE_PLAN_TOOL_ID ->
     chip_of <$> find_tool id (fold_events text_diff [] (us ≫= map_update)) = foldl (chip_step id) None us) /\
  Forall within_caps (us ≫= map_update).
Proof.
  split.
  - intros id Hid. rewrite fold_events_tool. change (None : option Chip) with (chip_of <$> (None : option ToolPart)).
    cbn [find_tool]. generalize (None : option ToolPart) as st. induction us as [|u us IH]; intros st; [done|].
    rewrite bind_cons, foldl_app, IH, update_step by done. done.
  - apply Forall_bind, Forall_true, map_update_within.
Qed.
