(* ===== verification/Acp.v ===== *)
(** The ACP session: run_session of crates/harness/src/acp/mod.rs, over the
    JSON-RPC client. One record holds the locals of the loop, one definition
    models each arm of its [select], and a step relation says which arm or
    which wait may go on.

    The future of a prompt or of a steering call is lazy: its request is
    written when the [select] first polls it, a step of its own, so another arm
    may win before. Deadlines are compared with a clock in milliseconds that
    only steps of its own move. Fresh ids, the crash and stderr texts, the
    agent's spec and the two environment variables are parameters. The subagent
    trackers, which send events of their own tasks, and the signals that reap
    the child are not modelled; the flag the loop never reads is left out. *)
From stdpp Require Import pretty.
From S2P Require Import Prelude Json Text Agent Samples Claude JsonRpc CodexItems Loop AcpItems.

(** ** The state *)

(** The fields of [AcpAgentSpec] the session uses. *)
Record AcpAgentSpec := mk_spec {
  sp_id : HarnessId;
  sp_display_name : string;
  sp_prompt_complete_extension : bool;
  sp_prompt_stall : option Z;
  sp_stall_hint : string;
  sp_prompt_transform : option ReasoningLevel -> string -> string;
  sp_effort_values : option ReasoningLevel -> option string -> list string;
}.

(** The prompt in flight: not polled yet, its request written, or replaced by a
    ready answer. *)
Inductive PromptTurn :=
  | TUnsent (text : string) (prompt_id : option string)
  | TSent (id : Z)
  | TReady (stop_reason : string).

Record Prompt := mk_prompt {
  pr_turn : option PromptTurn;
  pr_seq : nat;
  pr_id : option string;
  pr_completed : list string;
  pr_done_current : bool;
}.

(** A steering call: its text, and its request once written. *)
Record Steers := mk_steers {
  st_call : option (string * option Z);
  st_backlog : list string;
  st_queue : list string;
}.

Record Watch := mk_watch {
  wa_now : Z;
  wa_starve : option Z;
  wa_stall : option Z;
  wa_flush : option Z;
  wa_last_update : Z;
  wa_content : bool;
  wa_open_tools : gset string;
}.

Record Control := mk_actl {
  ct_steering_open : bool;
  ct_cancelled : bool;
  ct_interrupted : bool;
  ct_done_after : bool;
  ct_signalled : bool;
}.

(** A question parked behind the input bridge: the request's id, the question
    and the options. *)
Record AcpAsk := mk_ask { ak_id : Value; ak_question : UserInputQuestion; ak_options : list Value }.

Record Asks := mk_aasks { as_open : gmap nat AcpAsk; as_count : nat }.

(** Where the session is: a request of the setup, the [select], the short wait
    for a steering call at a turn's end, the short wait for the prompt at the
    end of the child's output, or returned. *)
Inductive Await :=
  | AInitialize (id : Z)
  | ALoad (id : Z)
  | ANew (id : Z)
  | ASet (id : Z) (rest : list (string * list (string * Value)))
  | ALoop
  | ASettle (res : string + Value) (text : string) (id : Z)
  | AEof (id : Z)
  | AOver.

Record AcpSession := mk_acp {
  ac_client : RpcClient;
  ac_taken : nat;
  ac_at : Await;
  ac_session : string;
  ac_steer_ext : bool;
  ac_commands : list SlashCommand;
  ac_message : nat;
  ac_prompt : Prompt;
  ac_steers : Steers;
  ac_watch : Watch;
  ac_control : Control;
  ac_asks : Asks;
  ac_emitted : list AgentEvent;
  ac_gone : bool;
}.

Definition set_client (c : RpcClient) (s : AcpSession) : AcpSession :=
  mk_acp c (ac_taken s) (ac_at s) (ac_session s) (ac_steer_ext s) (ac_commands s) (ac_message s) (ac_prompt s)
    (ac_steers s) (ac_watch s) (ac_control s) (ac_asks s) (ac_emitted s) (ac_gone s).
Definition set_taken (n : nat) (s : AcpSession) : AcpSession :=
  mk_acp (ac_client s) n (ac_at s) (ac_session s) (ac_steer_ext s) (ac_commands s) (ac_message s) (ac_prompt s)
    (ac_steers s) (ac_watch s) (ac_control s) (ac_asks s) (ac_emitted s) (ac_gone s).
Definition set_at (a : Await) (s : AcpSession) : AcpSession :=
  mk_acp (ac_client s) (ac_taken s) a (ac_session s) (ac_steer_ext s) (ac_commands s) (ac_message s) (ac_prompt s)
    (ac_steers s) (ac_watch s) (ac_control s) (ac_asks s) (ac_emitted s) (ac_gone s).
Definition set_session (id : string) (s : AcpSession) : AcpSession :=
  mk_acp (ac_client s) (ac_taken s) (ac_at s) id (ac_steer_ext s) (ac_commands s) (ac_message s) (ac_prompt s)
    (ac_steers s) (ac_watch s) (ac_control s) (ac_asks s) (ac_emitted s) (ac_gone s).
Definition set_handshake (ext : bool) (commands : list SlashCommand) (s : AcpSession) : AcpSession :=
  mk_acp (ac_client s) (ac_taken s) (ac_at s) (ac_session s) ext commands (ac_message s) (ac_prompt s)
    (ac_steers s) (ac_watch s) (ac_control s) (ac_asks s) (ac_emitted s) (ac_gone s).
Definition rotate (s : AcpSession) : AcpSession :=
  mk_acp (ac_client s) (ac_taken s) (ac_at s) (ac_session s) (ac_steer_ext s) (ac_commands s) (S (ac_message s))
    (ac_prompt s) (ac_steers s) (ac_watch s) (ac_control s) (ac_asks s) (ac_emitted s) (ac_gone s).
Definition set_prompt (p : Prompt) (s : AcpSession) : AcpSession :=
  mk_acp (ac_client s) (ac_taken s) (ac_at s) (ac_session s) (ac_steer_ext s) (ac_commands s) (ac_message s) p
    (ac_steers s) (ac_watch s) (ac_control s) (ac_asks s) (ac_emitted s) (ac_gone s).
Definition set_steers (t : Steers) (s : AcpSession) : AcpSession :=
  mk_acp (ac_client s) (ac_taken s) (ac_at s) (ac_session s) (ac_steer_ext s) (ac_commands s) (ac_message s)
    (ac_prompt s) t (ac_watch s) (ac_control s) (ac_asks s) (ac_emitted s) (ac_gone s).
Definition set_watch (w : Watch) (s : AcpSession) : AcpSession :=
  mk_acp (ac_client s) (ac_taken s) (ac_at s) (ac_session s) (ac_steer_ext s) (ac_commands s) (ac_message s)
    (ac_prompt s) (ac_steers s) w (ac_control s) (ac_asks s) (ac_emitted s) (ac_gone s).
Definition set_control (c : Control) (s : AcpSession) : AcpSession :=
  mk_acp (ac_client s) (ac_taken s) (ac_at s) (ac_session s) (ac_steer_ext s) (ac_commands s) (ac_message s)
    (ac_prompt s) (ac_steers s) (ac_watch s) c (ac_asks s) (ac_emitted s) (ac_gone s).
Definition set_asks (a : Asks) (s : AcpSession) : AcpSession :=
  mk_acp (ac_client s) (ac_taken s) (ac_at s) (ac_session s) (ac_steer_ext s) (ac_commands s) (ac_message s)
    (ac_prompt s) (ac_steers s) (ac_watch s) (ac_control s) a (ac_emitted s) (ac_gone s).
Definition set_stream (es : list AgentEvent) (gone : bool) (s : AcpSession) : AcpSession :=
  mk_acp (ac_client s) (ac_taken s) (ac_at s) (ac_session s) (ac_steer_ext s) (ac_commands s) (ac_message s)
    (ac_prompt s) (ac_steers s) (ac_watch s) (ac_control s) (ac_asks s) es gone.

Definition set_turn (t : option PromptTurn) (p : Prompt) : Prompt :=
  mk_prompt t (pr_seq p) (pr_id p) (pr_completed p) (pr_done_current p).
Definition set_done_current (b : bool) (p : Prompt) : Prompt :=
  mk_prompt (pr_turn p) (pr_seq p) (pr_id p) (pr_completed p) b.
Definition set_call (c : option (string * option Z)) (t : Steers) : Steers := mk_steers c (st_backlog t) (st_queue t).
Definition set_backlog (l : list string) (t : Steers) : Steers := mk_steers (st_call t) l (st_queue t).
Definition set_queue (l : list string) (t : Steers) : Steers := mk_steers (st_call t) (st_backlog t) l.
Definition set_now (now : Z) (w : Watch) : Watch :=
  mk_watch now (wa_starve w) (wa_stall w) (wa_flush w) (wa_last_update w) (wa_content w) (wa_open_tools w).
Definition set_starve (d : option Z) (w : Watch) : Watch :=
  mk_watch (wa_now w) d (wa_stall w) (wa_flush w) (wa_last_update w) (wa_content w) (wa_open_tools w).
Definition set_stall (d : option Z) (w : Watch) : Watch :=
  mk_watch (wa_now w) (wa_starve w) d (wa_flush w) (wa_last_update w) (wa_content w) (wa_open_tools w).
Definition set_flush (d : option Z) (w : Watch) : Watch :=
  mk_watch (wa_now w) (wa_starve w) (wa_stall w) d (wa_last_update w) (wa_content w) (wa_open_tools w).
Definition set_last_update (t : Z) (w : Watch) : Watch :=
  mk_watch (wa_now w) (wa_starve w) (wa_stall w) (wa_flush w) t (wa_content w) (wa_open_tools w).
Definition set_signals (content : bool) (tools : gset string) (w : Watch) : Watch :=
  mk_watch (wa_now w) (wa_starve w) (wa_stall w) (wa_flush w) (wa_last_update w) content tools.

Definition on_prompt (f : Prompt -> Prompt) (s : AcpSession) : AcpSession := set_prompt (f (ac_prompt s)) s.
Definition on_steers (f : Steers -> Steers) (s : AcpSession) : AcpSession := set_steers (f (ac_steers s)) s.
Definition on_watch (f : Watch -> Watch) (s : AcpSession) : AcpSession := set_watch (f (ac_watch s)) s.
Definition on_control (f : Control -> Control) (s : AcpSession) : AcpSession := set_control (f (ac_control s)) s.

Definition ac_turn (s : AcpSession) : option PromptTurn := pr_turn (ac_prompt s).
Definition in_turn (s : AcpSession) : bool := match ac_turn s with Some _ => true | None => false end.
Definition ac_interrupted (s : AcpSession) : bool := ct_interrupted (ac_control s).
Definition ac_now (s : AcpSession) : Z := wa_now (ac_watch s).

Abbreviation Stmt := (Loop.Stmt AcpSession).

(** [send]: nobody listens any more, nothing is sent. *)
Definition send (e : AgentEvent) : Stmt := fun s =>
  if ac_gone s then (s, false) else (set_stream (ac_emitted s ++ [e]) false s, true).

Definition send_option (e : option AgentEvent) : Stmt := match e with Some e => send e | None => skip end.

(** ** Constants and wire params *)

Definition STARVE_GRACE : Z := 2000.
Definition BUSY_RECENT : Z := 3000.
Definition CANCEL_FLUSH : Z := 2000.
Definition QUIET_SETTLE : Z := 30000.
Definition COMPLETED_KEPT : nat := 32.

(** A bound an environment variable overrides; 0 disables it. *)
Definition env_bound (env : option Z) (otherwise : option Z) : option Z :=
  match env with
  | Some ms => if ms =? 0 then None else Some ms
  | None => otherwise
  end.

Section Session.
Context {J : JsonText} (new_message_id new_question_id : nat -> string) (version crash : string).
Context (describe : string -> string) (spec : AcpAgentSpec) (request : RunRequest).
Context (stall_env quiet_env : option Z) (handshake_secs : N).

Definition prompt_stall : option Z := env_bound stall_env (sp_prompt_stall spec).
Definition quiet_settle : option Z := env_bound quiet_env (Some QUIET_SETTLE).

Definition initialize_params : Value :=
  Object [("clientCapabilities",
            Object [("fs", Object [("readTextFile", Bool false); ("writeTextFile", Bool false)]); ("terminal", Bool false)]);
          ("clientInfo", Object [("name", Str "postillion"); ("title", Str "Postillion"); ("version", Str version)]);
          ("protocolVersion", Int 1)].

Definition session_params : list (string * Value) := [("cwd", Str (rq_cwd request)); ("mcpServers", Array [])].

Definition text_prompt (text : string) : Value := Array [Object [("text", Str text); ("type", Str "text")]].

Definition prompt_params (session text : string) (prompt_id : option string) : Value :=
  Object (match prompt_id with
          | Some id => [("_meta", Object [("promptId", Str id); ("requestId", Str id)])]
          | None => []
          end ++ [("prompt", text_prompt text); ("sessionId", Str session)]).

Definition steering_params (session text : string) : Value :=
  Object [("_meta", Object [("steering", Object [("idleBehavior", Str "promptRequired")])]);
          ("prompt", text_prompt text); ("sessionId", Str session)].

Definition config_params (session config_id : string) (payload : list (string * Value)) : Value :=
  Object (foldl (fun m p => map_put p.1 p.2 m)
            (map_put "configId" (Str config_id) (map_put "sessionId" (Str session) [])) payload).

Definition cancel_params (session : string) : Value := Object [("sessionId", Str session)].

(** ** Requests of the server *)

Definition respond (id result : Value) (s : AcpSession) : AcpSession :=
  set_client (rpc_respond id result (ac_client s)) s.

Definition permission_outcome (option_id : option string) : Value :=
  Object [("outcome", Object (match option_id with
                              | Some o => [("optionId", Str o); ("outcome", Str "selected")]
                              | None => [("outcome", Str "cancelled")]
                              end))].

Definition handle_server_request (id : Value) (method : string) (params : Value) (s : AcpSession) : AcpSession :=
  if String.eqb method "session/request_permission" then
    respond id (permission_outcome (preferred_allow_option (array_field params "options"))) s
  else set_client (rpc_respond_error id (-32601) ("unsupported method: " +:+ method) (ac_client s)) s.

Definition question_of (id : string) (params : Value) : UserInputQuestion :=
  mk_question id "Agent question"
    (default "The agent needs your input." (pointer params ["toolCall"; "title"] ≫= as_str))
    ((fun o => str_at o "name") <$> array_field params "options") false.

(** A question blocks on the input bridge, everything else is answered at once. *)
Definition handle_server_request_live (id : Value) (method : string) (params : Value) (s : AcpSession) : AcpSession :=
  let options := array_field params "options" in
  if String.eqb method "session/request_permission" && is_user_question options then
    let a := ac_asks s in
    set_asks (mk_aasks (<[as_count a := mk_ask id (question_of (new_question_id (as_count a)) params) options]> (as_open a))
                (S (as_count a))) s
  else handle_server_request id method params s.

Definition picked (a : AcpAsk) (answers : list UserInputAnswer) : option string :=
  answer ← List.find (fun x => String.eqb (ua_question_id x) (uq_id (ak_question a))) answers;
  label ← head (ua_labels answer);
  o ← List.find (fun o => bool_decide (obj_get o "name" ≫= as_str = Some label)) (ak_options a);
  obj_get o "optionId" ≫= as_str.

(** The task behind a question; a dropped sender answers nothing. *)
Definition bridge_answered (k : nat) (answers : option (list UserInputAnswer)) (s : AcpSession) : option AcpSession :=
  a ← as_open (ac_asks s) !! k;
  let o := ac_asks s in
  Some (respond (ak_id a) (permission_outcome (picked a (default [] answers)))
          (set_asks (mk_aasks (delete k (as_open o)) (as_count o)) s)).

(** ** Notifications *)

Definition session_update_events (method : string) (params : Value) (s : AcpSession) : list AgentEvent :=
  if bool_decide (obj_get params "sessionId" ≫= as_str = Some (ac_session s)) && String.eqb method "session/update"
  then map_update (default Null (obj_get params "update")) else [].

Definition track_turn_signals (e : AgentEvent) (s : AcpSession) : AcpSession :=
  on_watch (fun w =>
    match e with
    | TextDelta text => if String.eqb text "" then w else set_signals true (wa_open_tools w) w
    | ToolCallEv id _ => set_signals true ({[ id ]} ∪ wa_open_tools w) w
    | ToolResult id _ _ _ => set_signals (wa_content w) (wa_open_tools w ∖ {[ id ]}) w
    | _ => w
    end) s.

Definition boilerplate (method : string) (params : Value) : bool :=
  String.eqb method "session/update" &&
  match pointer params ["update"; "sessionUpdate"] ≫= as_str with
  | Some k => one_of ["available_commands_update"; "config_option_update"; "current_mode_update"] k
  | None => false
  end.

(** Sending a request and waiting for its answer somewhere. *)
Definition write_request (method : string) (params : Value) (s : AcpSession) : AcpSession * Z :=
  let c := rpc_request method params (ac_client s) in (set_client c s, rc_next_id c).

Definition ask (method : string) (params : Value) (wait : Z -> Await) (s : AcpSession) : AcpSession :=
  let '(s, id) := write_request method params s in set_at (wait id) s.

(** The first poll of a prompt writes its request. *)
Definition poll_turn (s : AcpSession) : AcpSession :=
  match ac_turn s with
  | Some (TUnsent text pid) =>
      let '(s, id) := write_request "session/prompt" (prompt_params (ac_session s) text pid) s in
      on_prompt (set_turn (Some (TSent id))) s
  | _ => s
  end.

Definition poll_call (s : AcpSession) : AcpSession :=
  match st_call (ac_steers s) with
  | Some (text, None) =>
      let '(s, id) := write_request "_session/steering" (steering_params (ac_session s) text) s in
      on_steers (set_call (Some (text, Some id))) s
  | _ => s
  end.

(** A completion that is not about the prompt in flight. *)
Definition stale (params : Value) (p : Prompt) : bool :=
  match obj_get params "promptId" ≫= as_str with
  | Some pid => one_of (pr_completed p) pid || negb (bool_decide (pr_id p = Some pid))
  | None => false
  end.

(** [_x.ai/session/prompt_complete]: the prompt gets a ready answer; the future
    it replaces goes on in a task of its own. *)
Definition prompt_complete (method : string) (params : Value) (s : AcpSession) : AcpSession :=
  if sp_prompt_complete_extension spec && String.eqb method "_x.ai/session/prompt_complete" &&
     negb (ac_interrupted s) && in_turn s && bool_decide (obj_get params "sessionId" ≫= as_str = Some (ac_session s)) &&
     negb (stale params (ac_prompt s))
  then on_prompt (set_turn (Some (TReady (default "end_turn" (obj_get params "stopReason" ≫= as_str))))) (poll_turn s)
  else s.

Definition tracked (e : AgentEvent) : Stmt := (pure (track_turn_signals e) >> send e)%stmt.

Definition on_notification (method : string) (params : Value) : Stmt :=
  (pure (fun s => on_watch (set_last_update (ac_now s)) s)
   >> pure (fun s => if boilerplate method params then s else on_watch (set_stall None) s)
   >> pure (prompt_complete method params)
   >> with_state (fun s => each tracked (session_update_events method params s)))%stmt.

(** What is in the channel already, into the current segment. *)
Definition drain_one (i : Incoming) : Stmt :=
  match i with
  | INotification method params => with_state (fun s => each send (session_update_events method params s))
  | IRequest id method params => pure (handle_server_request_live id method params)
  | IEof => skip
  end.

Definition waiting (s : AcpSession) : list Incoming := drop (ac_taken s) (rc_forwarded (ac_client s)).

Definition take_all (s : AcpSession) : AcpSession := set_taken (length (rc_forwarded (ac_client s))) s.

Definition drain : Stmt := with_state (fun s => (pure take_all >> each drain_one (waiting s))%stmt).

(** ** Turns *)

Definition message_id (s : AcpSession) : string := new_message_id (ac_message s).

Definition done_ (st : DoneStatus) (error : option string) (s : AcpSession) : AgentEvent :=
  Done st None error (Some (ac_session s)).

Definition send_steered : Stmt :=
  (pure rotate >> with_state (fun s => send (Steered (Some (new_message_id (pred (ac_message s)))) (Some (message_id s)))))%stmt.

Definition send_completed : Stmt :=
  (pure rotate >> with_state (fun s => send (AssistantMessageCompleted (new_message_id (pred (ac_message s))))))%stmt.

Definition prompt_id_of (seq : nat) : option string :=
  if sp_prompt_complete_extension spec then Some ("postillion-p" +:+ pretty seq) else None.

(** The resets of a new turn, and its prompt, not polled yet. *)
Definition start_turn (text : string) (s : AcpSession) : AcpSession :=
  let p := ac_prompt s in
  let w := ac_watch s in
  let id := prompt_id_of (S (pr_seq p)) in
  set_prompt (mk_prompt (Some (TUnsent text id)) (S (pr_seq p)) id (pr_completed p) false)
    (set_watch (mk_watch (wa_now w) (wa_starve w) ((fun d => wa_now w + d) <$> prompt_stall) (wa_flush w) (wa_now w)
                  false ∅) s).

Definition steered_turn (text : string) : Stmt := (send_steered >> pure (start_turn text))%stmt.

(** The queued steer that becomes the next turn. *)
Definition next_steer : Stmt := with_state (fun s =>
  match st_queue (ac_steers s) with
  | text :: rest => (pure (on_steers (set_queue rest)) >> steered_turn text)%stmt
  | [] => if ct_steering_open (ac_control s) then skip else break
  end).

(** A [Done] while interrupted is the one that ends the run. *)
Definition note_done (s : AcpSession) : AcpSession :=
  on_control (fun c => mk_actl (ct_steering_open c) (ct_cancelled c) (ct_interrupted c)
                         (ct_done_after c || ct_interrupted c) (ct_signalled c))
    (on_prompt (set_done_current true) s).

Definition usage_of (res : string + Value) : option AgentEvent :=
  match res with inr resp => usage_from_response resp | inl _ => None end.

Definition prompt_done (res : string + Value) (s : AcpSession) : AgentEvent :=
  let '(st, error) := stop_outcome res (ac_interrupted s) in done_ st error s.

(** The end of a turn, its steering call decided. *)
Definition turn_closed (res : string + Value) : Stmt :=
  (drain >> send_completed >> send_option (usage_of res) >> pure note_done
   >> with_state (fun s => send (prompt_done res s))
   >> with_state (fun s => if ac_interrupted s || match res with inl _ => true | inr _ => false end then break
                           else next_steer))%stmt.

(** How a steering call came out; a failed or unsettled one is redelivered. *)
Definition call_outcome (out : option (string + Value)) : string :=
  match out with
  | Some (inr resp) => default "injected" (obj_get resp "outcome" ≫= as_str)
  | _ => "promptRequired"
  end.

Definition prompt_required (out : option (string + Value)) : bool := String.eqb (call_outcome out) "promptRequired".

Definition queue_push (text : string) (s : AcpSession) : AcpSession :=
  on_steers (fun t => set_queue (st_queue t ++ [text]) t) s.

Definition backlog_to_queue (s : AcpSession) : AcpSession :=
  on_steers (fun t => mk_steers (st_call t) [] (st_queue t ++ st_backlog t)) s.

(** The steering call of a turn that has ended. *)
Definition call_settled (text : string) (out : option (string + Value)) : Stmt := with_state (fun s =>
  ((if ac_interrupted s then skip
    else if negb (prompt_required out) then send_steered
    else pure (queue_push text))
   >> pure backlog_to_queue)%stmt).

Definition remember_completed (s : AcpSession) : AcpSession :=
  on_prompt (fun p =>
    match pr_id p with
    | Some id =>
        let all := pr_completed p ++ [id] in
        mk_prompt (pr_turn p) (pr_seq p) None (drop (length all - COMPLETED_KEPT) all) (pr_done_current p)
    | None => p
    end) s.

(** The arm of the prompt: either the turn closes, or its steering call is
    waited for, polled if it was not yet. *)
Definition turn_ended (res : string + Value) : Stmt :=
  (pure (on_prompt (set_turn None)) >> pure (fun s => on_watch (fun w => set_stall None (set_starve None w)) s)
   >> pure remember_completed
   >> pure poll_call
   >> with_state (fun s =>
        match st_call (ac_steers s) with
        | Some (text, Some id) => pure (fun s => set_at (ASettle res text id) (on_steers (set_call None) s))
        | _ => turn_closed res
        end))%stmt.

(** ** The other arms *)

(** The child's output is over: a prompt answered before is a clean finish. *)
Definition eof_answered (out : string + Value) : Stmt :=
  match out with
  | inr resp =>
      (attempt send_completed >> attempt (send_option (usage_from_response resp)) >> pure note_done
       >> attempt (with_state (fun s => send (prompt_done (inr resp) s))) >> break)%stmt
  | inl _ => break
  end.

Definition ready_answer (stop : string) : Value := Object [("stopReason", Str stop)].

Definition on_eof : Stmt := (pure poll_turn >> with_state (fun s =>
  match ac_turn s with
  | Some (TReady stop) => (pure (on_prompt (set_turn None)) >> eof_answered (inr (ready_answer stop)))%stmt
  | Some (TSent id) => pure (fun s => set_at (AEof id) (on_prompt (set_turn None) s))
  | _ => break
  end))%stmt.

Definition on_incoming (i : option Incoming) : Stmt :=
  match i with
  | Some (INotification method params) => on_notification method params
  | Some (IRequest id method params) =>
      (pure (on_watch (set_stall None)) >> pure (handle_server_request_live id method params))%stmt
  | Some IEof | None => on_eof
  end.

(** The followers of a steering call that was answered. *)
Definition follow (s : AcpSession) : AcpSession :=
  match st_backlog (ac_steers s) with
  | next :: rest =>
      if in_turn s && negb (ac_interrupted s) then
        on_steers (fun t => mk_steers (Some (next, None)) rest (st_queue t)) s
      else backlog_to_queue s
  | [] => s
  end.

Definition no_running_turn (out : string + Value) : bool :=
  match out with inr resp => bool_decide (obj_get resp "reason" ≫= as_str = Some "noRunningTurn") | inl _ => false end.

Definition call_answered (text : string) (out : string + Value) : Stmt :=
  (pure (on_steers (set_call None))
   >> with_state (fun s =>
        if ac_interrupted s then skip
        else if negb (prompt_required (Some out)) then
          if in_turn s then (pure (on_watch (set_starve None)) >> drain >> send_steered)%stmt else skip
        else if in_turn s then
          (pure (fun s => if no_running_turn out then on_watch (set_starve (Some (ac_now s + STARVE_GRACE))) s else s)
           >> pure (queue_push text))%stmt
        else steered_turn text)
   >> pure follow)%stmt.

Definition on_flush : Stmt :=
  (pure (on_watch (set_flush None))
   >> with_state (fun s => if in_turn s then skip else next_steer))%stmt.

Definition on_starved : Stmt :=
  (pure (on_watch (set_starve None)) >> pure (on_prompt (set_turn None)) >> send_completed
   >> pure (on_prompt (set_done_current true))
   >> with_state (fun s => send (done_ Completed None s)) >> next_steer)%stmt.

(** A steer out of the mailbox; [None]: the mailbox is closed. *)
Definition on_steer (prompt : option string) : Stmt := with_state (fun s =>
  match prompt with
  | Some prompt =>
      let text := sp_prompt_transform spec (rq_reasoning request) prompt in
      let w := ac_watch s in
      if in_turn s then
        if ac_steer_ext s then
          pure (on_steers (fun t => match st_call t with
                                    | Some _ => set_backlog (st_backlog t ++ [text]) t
                                    | None => set_call (Some (text, None)) t
                                    end))
        else pure (queue_push text)
      else match wa_flush w with
           | Some _ => pure (queue_push text)
           | None =>
               if negb (bool_decide (wa_open_tools w = ∅)) || (ac_now s - wa_last_update w <? BUSY_RECENT) then
                 pure (fun s => on_watch (set_flush (Some (ac_now s + CANCEL_FLUSH)))
                   (queue_push text (set_client (rpc_notify "session/cancel" (Some (cancel_params (ac_session s)))
                                                   (ac_client s)) s)))
               else steered_turn text
           end
  | None =>
      (pure (on_control (fun c => mk_actl false (ct_cancelled c) (ct_interrupted c) (ct_done_after c) (ct_signalled c)))
       >> if negb (in_turn s) && bool_decide (st_queue (ac_steers s) = []) then break else skip)%stmt
  end).

(** [child.id()] is there until the child is waited for. *)
Definition on_interrupt : Stmt := with_state (fun s =>
  (pure (on_control (fun c => mk_actl (ct_steering_open c) (ct_cancelled c) true (ct_done_after c)
                                (ct_signalled c || in_turn s)))
   >> if in_turn s then
        pure (fun s => set_client (rpc_notify "session/cancel" (Some (cancel_params (ac_session s))) (ac_client s)) s)
      else break)%stmt).

Definition stall_message : string :=
  sp_display_name spec +:+ " did not respond to the prompt at all (no wire activity for " +:+
  pretty (Z.to_N (default 0 prompt_stall / 1000)) +:+ "s). " +:+ sp_stall_hint spec.

Definition on_stalled : Stmt :=
  (pure (on_watch (set_stall None)) >> attempt (send (ErrorEv stall_message))
   >> pure (on_prompt (set_done_current true))
   >> attempt (with_state (fun s => send (done_ Errored
        (Some (sp_display_name spec +:+ " is unresponsive " +:+ em_dash +:+ " the run was closed.")) s)))
   >> break)%stmt.

(** ** Running *)

(** [run_session] returns: the channel of the reader goes with it. *)
Definition over (s : AcpSession) : AcpSession := set_at AOver (set_client (drop_incoming (ac_client s)) s).

(** The bookkeeping after the loop. *)
Definition finish (s : AcpSession) : AcpSession :=
  let c := ac_control s in
  over
    (if ct_interrupted c && negb (ct_done_after c) then (send (done_ Interrupted None s) s).1
     else if negb (ct_interrupted c) && negb (pr_done_current (ac_prompt s)) then
       (send (done_ Errored (Some crash) s) s).1
     else s).

Definition in_loop (f : Stmt) (s : AcpSession) : AcpSession :=
  let '(s, go) := f s in if go then s else finish s.

(** *** The setup *)

Definition session_new : AcpSession :=
  ask "initialize" initialize_params AInitialize
    (mk_acp rpc_client_new 0 ALoop "" false [] 0 (mk_prompt None 0 None [] false) (mk_steers None [] [])
       (mk_watch 0 None None None 0 false ∅) (mk_actl true false false false false) (mk_aasks ∅ 0) [] false).

Definition setup_over (st : DoneStatus) (error : option string) (s : AcpSession) : AcpSession :=
  over (send (Done st None error None) s).1.

Definition setup_failed (error : string) (s : AcpSession) : AcpSession := setup_over Errored (Some (describe error)) s.

Definition agent_error (m : string) : string := "harness protocol error: " +:+ m.

(** The session is there: announce it and prompt. *)
Definition session_ready (s : AcpSession) : AcpSession :=
  let started := SessionStarted (sp_id spec) (default "" (rq_model request)) [] (rq_cwd request) (ac_session s) (message_id s) in
  let '(s, go) :=
    (send started >> match ac_commands s with [] => skip | l => send (AvailableCommands l) end)%stmt s in
  if go then set_at ALoop (start_turn (sp_prompt_transform spec (rq_reasoning request) (rq_prompt request)) s)
  else over s.

Definition next_set (sets : list (string * list (string * Value))) (s : AcpSession) : AcpSession :=
  match sets with
  | [] => session_ready s
  | (config_id, payload) :: rest =>
      ask "session/set_config_option" (config_params (ac_session s) config_id payload) (fun id => ASet id rest) s
  end.

Definition configure (session : string) (resp : Value) (s : AcpSession) : AcpSession :=
  if String.eqb session "" then setup_failed (agent_error "session/new returned no sessionId") s
  else
    next_set (config_option_sets resp (rq_model request) (sp_effort_values spec (rq_reasoning request) (rq_model request))
                (rq_model_options request)) (set_session session s).

Definition new_session : AcpSession -> AcpSession := ask "session/new" (Object session_params) ANew.

(** Replayed updates are dropped, requests are answered. *)
Definition setup_message (s : AcpSession) (i : Incoming) : AcpSession :=
  match i with IRequest id method params => handle_server_request id method params s | _ => s end.

Definition flush (s : AcpSession) : AcpSession := foldl setup_message (take_all s) (waiting s).

(** [request_draining] came back; [inl] is the whole error. *)
Definition setup_answered (at_ : Await) (out : string + Value) (s : AcpSession) : option AcpSession :=
  match at_, out with
  | ALoad _, inl _ => Some (new_session s)
  | ALoad _, inr resp => Some (configure (default "" (rq_resume request)) resp s)
  | ANew _, inl e => Some (setup_failed e s)
  | ANew _, inr resp => Some (configure (str_at resp "sessionId") resp s)
  | ASet _ rest, _ => Some (next_set rest s)
  | _, _ => None
  end.

Definition setup_method (at_ : Await) : option string :=
  match at_ with
  | ALoad _ => Some "session/load"
  | ANew _ => Some "session/new"
  | ASet _ _ => Some "session/set_config_option"
  | _ => None
  end.

Definition initialized (out : string + Value) (s : AcpSession) : AcpSession :=
  match out with
  | inl m => setup_failed (protocol_error "initialize" m) s
  | inr init =>
      let s := set_handshake (steering_supported init) (scan_available_commands init) s in
      match rq_resume request with
      | Some session => ask "session/load" (Object (session_params ++ [("sessionId", Str session)])) ALoad s
      | None => new_session s
      end
  end.

Definition in_setup (a : Await) : bool :=
  match a with AInitialize _ | ALoad _ | ANew _ | ASet _ _ => true | _ => false end.

Definition named (method : string) (out : string + Value) : string + Value :=
  match out with inl m => inl (protocol_error method m) | inr v => inr v end.

Definition handshake_timeout : string :=
  agent_error (sp_display_name spec +:+ " did not complete the ACP handshake within " +:+ pretty handshake_secs +:+
    "s (the agent may be waiting for a login " +:+ em_dash +:+ " try running it once in a terminal)").

(** *** Steps *)

(** What can happen next: the child, the clock, the two polls, the waits, the
    arms of the [select], the outside. *)
Inductive AcpStep :=
  | KLine (line : string)
  | KEof
  | KWriteFailed
  | KTick (now : Z)
  | KPollTurn
  | KPollCall
  | KAnswer
  | KTimeout
  | KIncoming
  | KTurn
  | KCall
  | KFlush
  | KQuiet
  | KStarved
  | KSteer (prompt : option string)
  | KInterrupt
  | KStalled
  | KClosed
  | KCancel
  | KConsumerGone
  | KBridge (ask : nat) (answers : option (list UserInputAnswer)).

Definition at_loop (s : AcpSession) : bool := match ac_at s with ALoop => true | _ => false end.

Definition client_step (r : RpcStep) (s : AcpSession) : option AcpSession :=
  (fun c => set_client c s) <$> rpc_step (ac_client s) r.

(** The next message, or the end of the channel. *)
Definition received (s : AcpSession) : option (option Incoming) :=
  match rc_forwarded (ac_client s) !! ac_taken s with
  | Some i => Some (Some i)
  | None => if rc_reading (ac_client s) then None else Some None
  end.

Definition incoming_step (s : AcpSession) : option AcpSession :=
  i ← received s;
  match ac_at s, i with
  | ALoop, Some i => Some (in_loop (on_incoming (Some i)) (set_taken (S (ac_taken s)) s))
  | ALoop, None => Some (in_loop (on_incoming None) s)
  | at_, Some i => _ ← setup_method at_; Some (setup_message (set_taken (S (ac_taken s)) s) i)
  | at_, None =>
      method ← setup_method at_;
      setup_answered at_ (inl (agent_error (method +:+ ": agent exited during setup"))) s
  end.

Definition answer_step (s : AcpSession) : option AcpSession :=
  match ac_at s with
  | AInitialize id => out ← rpc_answer id (ac_client s); Some (initialized out s)
  | ALoad id | ANew id | ASet id _ =>
      out ← rpc_answer id (ac_client s);
      method ← setup_method (ac_at s);
      setup_answered (ac_at s) (named method out) (flush s)
  | ASettle res text id =>
      out ← rpc_answer id (ac_client s);
      Some (in_loop (call_settled text (Some out) >> turn_closed res)%stmt (set_at ALoop s))
  | AEof id =>
      out ← rpc_answer id (ac_client s);
      Some (in_loop (eof_answered (named "session/prompt" out)) (set_at ALoop s))
  | ALoop | AOver => None
  end.

Definition timeout_step (s : AcpSession) : option AcpSession :=
  match ac_at s with
  | ASettle res text _ => Some (in_loop (call_settled text None >> turn_closed res)%stmt (set_at ALoop s))
  | AEof _ => Some (finish (set_at ALoop s))
  | a => if in_setup a then Some (setup_failed handshake_timeout s) else None
  end.

Definition turn_answer (s : AcpSession) : option (string + Value) :=
  match ac_turn s with
  | Some (TSent id) => named "session/prompt" <$> rpc_answer id (ac_client s)
  | Some (TReady stop) => Some (inr (ready_answer stop))
  | _ => None
  end.

Definition elapsed (deadline : option Z) (s : AcpSession) : bool :=
  match deadline with Some d => d <=? ac_now s | None => false end.

(** The guard of the quiet settle. *)
Definition quiet (s : AcpSession) : bool :=
  let w := ac_watch s in
  match quiet_settle, wa_starve w with
  | Some q, None =>
      in_turn s && negb (ac_interrupted s) && wa_content w && bool_decide (wa_open_tools w = ∅) &&
      bool_decide (as_open (ac_asks s) = ∅) && (wa_last_update w + q <=? wa_now w)
  | _, _ => false
  end.

Definition arm (guard : bool) (f : Stmt) (s : AcpSession) : option AcpSession :=
  if at_loop s && guard then Some (in_loop f s) else None.

(** [None]: not enabled. *)
Definition acp_step (k : AcpStep) (s : AcpSession) : option AcpSession :=
  let w := ac_watch s in
  let running := negb (ac_interrupted s) in
  match k with
  | KLine line => client_step (RLine line) s
  | KEof => client_step REof s
  | KWriteFailed => client_step RWriteFailed s
  | KTick now => if wa_now w <=? now then Some (on_watch (set_now now) s) else None
  | KPollTurn => arm true (pure poll_turn) s
  | KPollCall => arm true (pure poll_call) s
  | KAnswer => answer_step s
  | KTimeout => timeout_step s
  | KIncoming => incoming_step s
  | KTurn => res ← turn_answer s; arm true (turn_ended res) s
  | KCall =>
      '(text, id) ← st_call (ac_steers s);
      out ← id ≫= (fun id => rpc_answer id (ac_client s));
      arm true (call_answered text (named "_session/steering" out)) s
  | KFlush => arm (elapsed (wa_flush w) s && running) on_flush s
  | KQuiet => arm (quiet s) (pure (fun s => on_watch (set_starve (Some (ac_now s))) s)) s
  | KStarved => arm (elapsed (wa_starve w) s && in_turn s && running) on_starved s
  | KSteer prompt => arm (ct_steering_open (ac_control s) && running) (on_steer prompt) s
  | KInterrupt =>
      if ct_cancelled (ac_control s) then
        if in_setup (ac_at s) then Some (setup_over Interrupted None s) else arm running on_interrupt s
      else None
  | KStalled => arm (elapsed (wa_stall w) s && in_turn s && running) on_stalled s
  | KClosed => arm (ac_gone s) break s
  | KCancel =>
      Some (on_control (fun c => mk_actl (ct_steering_open c) true (ct_interrupted c) (ct_done_after c) (ct_signalled c)) s)
  | KConsumerGone => Some (set_stream (ac_emitted s) true s)
  | KBridge k answers => bridge_answered k answers s
  end.

Definition acp_run (ks : list AcpStep) (s : AcpSession) : AcpSession :=
  foldl (fun s k => default s (acp_step k s)) s ks.
End Session.

(** ** Sample *)

(** An agent that says when a prompt is complete, and one that takes steers. *)
Definition sample_spec : AcpAgentSpec :=
  mk_spec Grok "Grok" true (Some 60000) "Try again." (fun _ text => text) (fun _ _ => []).

Definition acp_request : RunRequest :=
  mk_run_request "go" (Some Grok) None None [] "/w" ReadOnly false None None [] None.

Definition answer_line (id : Z) (result : Value) : AcpStep :=
  KLine (value_text (Object [("id", Int id); ("result", result)])).
Definition refusal_line (id : Z) (message : string) : AcpStep :=
  KLine (value_text (Object [("error", Object [("message", Str message)]); ("id", Int id)])).
Definition notice_line (method : string) (params : Value) : AcpStep :=
  KLine (value_text (Object [("method", Str method); ("params", params)])).

Definition update_line (kind : string) (fields : list (string * Value)) : AcpStep :=
  notice_line "session/update"
    (Object [("sessionId", Str "s"); ("update", Object (fields ++ [("sessionUpdate", Str kind)]))]).
Definition chunk_line (text : string) : AcpStep :=
  update_line "agent_message_chunk" [("content", Object [("text", Str text); ("type", Str "text")])].

Definition steering_init : Value := Object [("_meta", Object [("steering", Object [("supported", Bool true)])])].
Definition end_turn : Value := Object [("stopReason", Str "end_turn")].

(** The setup: initialized with [init], session [s], the first prompt written. *)
Definition acp_setup (init : Value) : list AcpStep :=
  [answer_line 1 init; KAnswer; answer_line 2 (Object [("sessionId", Str "s")]); KAnswer; KPollTurn].

Definition acp_sample (ks : list AcpStep) : AcpSession :=
  @acp_run sample_json sample_id sample_question "crash" id sample_spec acp_request None None 30 ks
    (session_new "1").
