(* ===== verification/AcpStream.v ===== *)
(** The contract of the ACP stream: one session start, message ids in a row, and
    a consumer that shows a turn as working exactly while the session has one.
    Statements of the loop are proved with the logic of [Loop]. *)
From S2P Require Import Prelude Json Text Agent Samples Claude JsonRpc CodexItems Loop Streams AcpItems Acp.

Definition events (s : AcpSession) : list (string + AgentEvent) := inr <$> ac_emitted s.

Definition emit (e : AgentEvent) (s : AcpSession) : AcpSession := set_stream (ac_emitted s ++ [e]) false s.

Lemma acp_send_open e s : ac_gone s = false -> send e s = (emit e s, true).
Proof. intros H. unfold send. by rewrite H. Qed.

Lemma acp_send_gone e s : ac_gone s = true -> send e s = (s, false).
Proof. intros H. unfold send. by rewrite H. Qed.

Section Stream.
Context {J : JsonText} (new_message_id new_question_id : nat -> string) (version crash : string).
Context (describe : string -> string) (spec : AcpAgentSpec) (request : RunRequest).
Context (stall_env quiet_env : option Z) (handshake_secs : N).

Abbreviation chain := (chain new_message_id).
Abbreviation step :=
  (acp_step new_message_id new_question_id crash describe spec request stall_env quiet_env handshake_secs).
Abbreviation run :=
  (acp_run new_message_id new_question_id crash describe spec request stall_env quiet_env handshake_secs).

(** *** What the statements keep *)

Record stream_ok (s : AcpSession) : Prop := {
  sk_chain : exists k, chain 0 (events s) = Some k /\ (ac_gone s = false -> ac_message s = k);
  sk_start : starts_once (ac_emitted s);
}.

(** In the loop: the consumer sees [w] a working turn, the session has [t] one. *)
Record live (w t : bool) (s : AcpSession) : Prop := {
  lv_stream : stream_ok s;
  lv_working : ac_gone s = false -> working (ac_emitted s) = w;
  lv_done : ac_gone s = false -> pr_done_current (ac_prompt s) = negb w;
  lv_turn : in_turn s = t;
  lv_after : ct_done_after (ac_control s) = false;
  lv_at : ac_at s = ALoop;
}.

(** Out of the loop: the end is said, or still to be said. *)
Record stopped (s : AcpSession) : Prop := {
  sp_stream : stream_ok s;
  sp_end : ac_gone s = false -> working (ac_emitted s) = false \/ pr_done_current (ac_prompt s) = false;
  sp_after : ct_done_after (ac_control s) = true -> ac_gone s = false -> ends_interrupted (ac_emitted s);
}.

(** A turn that ended waits for its steering call, or for a last answer. *)
Definition settling (s : AcpSession) : Prop :=
  live true false (set_at ALoop s) /\ match ac_at s with ASettle _ _ _ | AEof _ => True | _ => False end.

Definition resting (s : AcpSession) : Prop := (exists t, live t t s) \/ settling s.

Abbreviation keeps w t := (fine (live w t) stopped).
Abbreviation rests := (fine resting stopped).

Lemma acp_live_stopped w t s : live w t s -> stopped s.
Proof.
  intros [Hs Hw Hd Ht Ha _]. split; [done| |by rewrite Ha].
  intros Hg. rewrite Hw, Hd by done. destruct w; [by right|by left].
Qed.

Lemma live_rests t s : live t t s -> resting s.
Proof. intros H. left. by exists t. Qed.

Lemma keeps_rests t r : keeps t t r -> rests r.
Proof. apply fine_mono, live_rests. Qed.

(** Nothing the invariant looks at has changed. *)
Record same (s s' : AcpSession) : Prop := {
  sm_emitted : ac_emitted s' = ac_emitted s;
  sm_gone : ac_gone s' = ac_gone s;
  sm_message : ac_message s' = ac_message s;
  sm_done : pr_done_current (ac_prompt s') = pr_done_current (ac_prompt s);
  sm_turn : in_turn s' = in_turn s;
  sm_after : ct_done_after (ac_control s') = ct_done_after (ac_control s);
  sm_at : ac_at s' = ac_at s;
}.

Lemma same_refl s : same s s.
Proof. by split. Qed.

Lemma stream_same s s' :
  ac_emitted s' = ac_emitted s -> (ac_gone s' = false -> ac_gone s = false) -> ac_message s' = ac_message s ->
  stream_ok s -> stream_ok s'.
Proof.
  intros E1 E2 E3 [(k & Hk & Hm) H2]. split; unfold events; rewrite ?E1, ?E3; [|done]. exists k. auto.
Qed.

Lemma acp_live_same w t s s' : same s s' -> live w t s -> live w t s'.
Proof.
  intros [E1 E2 E3 E4 E5 E6 E7] [H1 H2 H3 H4 H5 H6]. split; rewrite ?E1, ?E2, ?E4, ?E5, ?E6, ?E7; try done.
  eapply stream_same; [exact E1|by rewrite E2|exact E3|exact H1].
Qed.

Lemma same_trans s1 s2 s3 : same s1 s2 -> same s2 s3 -> same s1 s3.
Proof. intros [] []. split; by etrans. Qed.

(** *** Sending *)

Lemma stream_emit e s :
  ac_gone s = false -> chain (ac_message s) [inr e] = Some (ac_message s) -> is_started (inr e) = false ->
  stream_ok s -> stream_ok (emit e s).
Proof.
  intros Hg Hc Hs [(k & Hk & Hm) H2]. specialize (Hm Hg). subst k. split.
  - exists (ac_message s). split; [|done]. unfold events. cbn. rewrite fmap_app, chain_app. fold (events s). by rewrite Hk.
  - by apply starts_snoc.
Qed.

Lemma keeps_send w t e s : plain e = true -> live w t s -> keeps w t (send e s).
Proof.
  intros He H. destruct (ac_gone s) eqn:Eg.
  - rewrite acp_send_gone by done. by eapply acp_live_stopped.
  - rewrite acp_send_open by done. destruct (chain_ordinary new_message_id (ac_message s) e) as [Hc Hs].
    { unfold ordinary. by rewrite He. }
    destruct H as [H1 H2 H3 H4 H5 H6]. split; try done; [by apply stream_emit| |].
    + intros _. cbn. rewrite working_snoc, H2 by done. by destruct e.
    + intros _. by apply H3.
Qed.

Lemma keeps_send_option w t o s :
  (forall e, o = Some e -> plain e = true) -> live w t s -> keeps w t (send_option o s).
Proof. intros He H. destruct o; [by apply keeps_send; [apply He|]|done]. Qed.

(** The message id moves on together with the event that says so. *)
Lemma boundary_ok (E : nat -> AgentEvent) s :
  (forall k, chain k [inr (E k)] = Some (S k)) -> (forall k, is_started (inr (E k)) = false) ->
  ac_gone s = false -> stream_ok s -> stream_ok (emit (E (ac_message s)) (rotate s)).
Proof.
  intros Hc Hs Hg [(k & Hk & Hm) H2]. specialize (Hm Hg). subst k. split.
  - exists (S (ac_message s)). split; [|done]. unfold events. cbn. rewrite fmap_app, chain_app. fold (events s).
    rewrite Hk. apply Hc.
  - by apply starts_snoc.
Qed.

Lemma rotate_gone s : ac_gone s = true -> stream_ok s -> stream_ok (rotate s).
Proof. intros Hg [(k & Hk & _) H2]. split; [|done]. exists k. split; [done|]. cbn. by rewrite Hg. Qed.

Lemma stopped_gone w t s : ac_gone s = true -> live w t s -> stopped (rotate s).
Proof.
  intros Hg H. destruct H as [H1 _ _ _ H5 _]. split; [by apply rotate_gone| |]; cbn; [by rewrite Hg|by rewrite H5].
Qed.

Lemma keeps_completed w t s : live w t s -> keeps w t (send_completed new_message_id s).
Proof.
  intros H. unfold send_completed, seq, pure, with_state. destruct (ac_gone s) eqn:Eg.
  - rewrite acp_send_gone by done. by eapply stopped_gone.
  - rewrite acp_send_open by done. cbn [Init.Nat.pred ac_message rotate].
    destruct H as [H1 H2 H3 H4 H5 H6]. split; try done.
    + apply (boundary_ok (fun k => AssistantMessageCompleted (new_message_id k))); try done.
      intros k. cbn. by rewrite String.eqb_refl.
    + intros _. cbn. by rewrite working_snoc, H2 by done.
    + intros _. by apply H3.
Qed.

(** A steer's boundary makes the consumer work; what is left to do is to have the
    turn, and not be done. *)
Lemma steered_ok w t s :
  live w t s -> ac_gone s = false ->
  exists e, send_steered new_message_id s = (emit e (rotate s), true) /\ stream_ok (emit e (rotate s)) /\
    working (ac_emitted (emit e (rotate s))) = true.
Proof.
  intros [H1 _ _ _ _ _] Hg. unfold send_steered, seq, pure, with_state. rewrite acp_send_open by done.
  eexists. split; [done|]. cbn [Init.Nat.pred ac_message rotate message_id]. split.
  - apply (boundary_ok (fun k => Steered (Some (new_message_id k)) (Some (new_message_id (S k))))); try done.
    intros k. cbn. by rewrite bool_decide_true.
  - cbn. by rewrite working_snoc.
Qed.

Lemma steered_gone w t s :
  live w t s -> ac_gone s = true ->
  send_steered new_message_id s = (rotate s, false) /\ stopped (rotate s).
Proof.
  intros H Hg. unfold send_steered, seq, pure, with_state. rewrite acp_send_gone by done.
  split; [done|by eapply stopped_gone].
Qed.

Lemma keeps_steered t s : live true t s -> keeps true t (send_steered new_message_id s).
Proof.
  intros H. destruct (ac_gone s) eqn:Eg.
  - destruct (steered_gone true t s H Eg) as [-> ?]. done.
  - destruct (steered_ok true t s H Eg) as (e & -> & Ho & Hw). destruct H as [H1 H2 H3 H4 H5 H6]. split; try done.
    intros _. by apply H3.
Qed.

Lemma keeps_steered_turn w t text s :
  live w t s -> keeps true true (steered_turn new_message_id spec stall_env text s).
Proof.
  intros H. unfold steered_turn, seq, pure. destruct (ac_gone s) eqn:Eg.
  - destruct (steered_gone w t s H Eg) as [-> ?]. done.
  - destruct (steered_ok w t s H Eg) as (e & -> & Ho & Hw). destruct H as [H1 H2 H3 H4 H5 H6]. cbn [fst snd].
    split; try done. by eapply stream_same; [..|exact Ho].
Qed.

(** *** Notifications and requests *)

Lemma map_update_plain u e : e ∈ map_update u -> plain e = true.
Proof.
  assert (Hr : forall id, Forall (fun e => plain e = true) (option_list (resolved_result u id))).
  { intros id. unfold resolved_result. destruct (terminal_status u); by repeat constructor. }
  intros He. revert e He. apply Forall_forall. unfold map_update. set (kind := update_kind u).
  destruct (String.eqb kind "agent_message_chunk"); [by destruct (chunk_text u); repeat constructor|].
  destruct (String.eqb kind "agent_thought_chunk"); [by destruct (chunk_text u); repeat constructor|].
  destruct (String.eqb kind "tool_call"); [constructor; [done|apply Hr]|].
  destruct (String.eqb kind "tool_call_update").
  { apply Forall_app. split; [destruct (shaped u); [by apply Forall_singleton|constructor]|apply Hr]. }
  destruct (String.eqb kind "plan"); [by repeat constructor|].
  by destruct (String.eqb kind "available_commands_update"); repeat constructor.
Qed.

Lemma session_events_plain method params s e : e ∈ session_update_events method params s -> plain e = true.
Proof.
  unfold session_update_events. destruct (_ && _); [apply map_update_plain|by intros ?%elem_of_nil].
Qed.

Lemma same_request id method params s :
  same s (handle_server_request_live new_question_id id method params s).
Proof.
  unfold handle_server_request_live, handle_server_request.
  destruct (_ && _); [by split|]. by destruct (String.eqb _ _).
Qed.

Lemma same_write method params s : same s (write_request method params s).1.
Proof. by split. Qed.

Lemma same_poll_turn s : same s (poll_turn s).
Proof.
  unfold poll_turn. destruct (ac_turn s) as [[text pid|id|stop]|] eqn:E; [|apply same_refl..].
  split; try done. unfold in_turn, ac_turn in *. cbn. by rewrite E.
Qed.

Lemma same_poll_call s : same s (poll_call s).
Proof. unfold poll_call. destruct (st_call (ac_steers s)) as [[text [id|]]|]; by split. Qed.

Lemma same_track e s : same s (track_turn_signals e s).
Proof. by split. Qed.

Lemma same_complete method params s : same s (prompt_complete spec method params s).
Proof.
  unfold prompt_complete.
  destruct (sp_prompt_complete_extension spec && String.eqb method "_x.ai/session/prompt_complete" &&
    negb (ac_interrupted s) && in_turn s && bool_decide (obj_get params "sessionId" ≫= as_str = Some (ac_session s)) &&
    negb (stale params (ac_prompt s))) eqn:E; [|apply same_refl].
  apply andb_true_iff in E as [E _]. apply andb_true_iff in E as [E _]. apply andb_true_iff in E as [_ E].
  destruct (same_poll_turn s) as [E1 E2 E3 E4 E5 E6 E7]. by split.
Qed.

Lemma keeps_pure w t f s : same s (f s) -> live w t s -> keeps w t (pure f s).
Proof. intros Hf H. apply fine_pure. by eapply acp_live_same. Qed.

Lemma keeps_drain_one w t i s : live w t s -> keeps w t (drain_one new_question_id i s).
Proof.
  intros H. destruct i as [method params|id method params|]; cbn [drain_one].
  - apply fine_each; [|done]. intros e s' He Hs'. apply keeps_send; [by eapply session_events_plain|done].
  - apply keeps_pure; [apply same_request|done].
  - done.
Qed.

Lemma keeps_drain w t s : live w t s -> keeps w t (drain new_question_id s).
Proof.
  intros H. unfold drain, with_state. apply (fine_seq (live w t)); [by apply keeps_pure; [split|]|].
  intros s' H'. apply fine_each; [|done]. intros i s'' _. apply keeps_drain_one.
Qed.

Lemma keeps_notification w t method params s : live w t s -> keeps w t (on_notification spec method params s).
Proof.
  intros H. unfold on_notification.
  apply (fine_seq (live w t)); [by apply keeps_pure; [split|]|]. clear s H. intros s H.
  apply (fine_seq (live w t)); [by apply keeps_pure; [destruct (boilerplate _ _)|]|]. clear s H. intros s H.
  apply (fine_seq (live w t)); [by apply keeps_pure; [apply same_complete|]|]. clear s H. intros s H.
  apply fine_each; [|done]. intros e s' He Hs'. unfold tracked.
  apply (fine_seq (live w t)); [by apply keeps_pure; [apply same_track|]|].
  intros s'' Hs''. apply keeps_send; [by eapply session_events_plain|done].
Qed.

(** *** The end of a turn *)

Lemma keeps_done st error t s :
  live true t s ->
  keeps false t ((pure (on_prompt (set_done_current true)) >> with_state (fun s => send (done_ st error s)))%stmt s).
Proof.
  intros [H1 H2 H3 H4 H5 H6]. unfold seq, pure, with_state. destruct (ac_gone s) eqn:Eg.
  - rewrite acp_send_gone by done. split; cbn; [by apply (stream_same s); auto|by rewrite Eg|by rewrite H5].
  - rewrite acp_send_open by done. split; try done.
    + by apply stream_emit; [..|apply (stream_same s); auto].
    + intros _. cbn. by rewrite working_snoc.
Qed.

Lemma rests_next_steer s : live false false s -> rests (next_steer new_message_id spec stall_env s).
Proof.
  intros H. unfold next_steer, with_state. destruct (st_queue (ac_steers s)) as [|text rest].
  - destruct (ct_steering_open (ac_control s)); [by eapply live_rests|by eapply acp_live_stopped].
  - apply (fine_seq (live false false)); [by apply keeps_pure; [split|]|]. intros s' H'.
    eapply (keeps_rests true), keeps_steered_turn, H'.
Qed.

Lemma usage_plain res e : usage_of res = Some e -> plain e = true.
Proof.
  destruct res as [|resp]; [done|]. cbn. unfold usage_from_response.
  destruct (match obj_get resp "usage" with Some u => Some u | None => obj_get resp "_meta" end) as [u|]; [|done].
  cbn [mbind option_bind]. destruct (field u _ ≫= as_u64), (field u _ ≫= as_u64); by intros [= <-].
Qed.

(** The [Done] of a turn; one of an interrupted session is the last. *)
Lemma rests_close res s :
  live true false s ->
  rests ((pure note_done >> with_state (fun s => send (prompt_done res s))
     >> with_state (fun s => if ac_interrupted s || match res with inl _ => true | inr _ => false end then break
                             else next_steer new_message_id spec stall_env))%stmt s).
Proof.
  intros H. unfold prompt_done. destruct (ac_interrupted s) eqn:Ei.
  - unfold seq, pure, with_state. destruct H as [H1 H2 H3 H4 H5 H6].
    assert (Hi : ac_interrupted (note_done s) = true) by exact Ei. rewrite Hi. cbn [stop_outcome].
    destruct (ac_gone s) eqn:Eg.
    + rewrite acp_send_gone by done. split; cbn; [by apply (stream_same s); auto|by rewrite Eg|by rewrite Eg].
    + rewrite acp_send_open by done. cbn [fst snd]. change (ac_interrupted (emit _ _)) with (ac_interrupted s). rewrite Ei.
      cbn [orb]. apply fine_break. split; cbn.
      * by apply stream_emit; [..|apply (stream_same s); auto].
      * intros _. left. by rewrite working_snoc.
      * intros _ _. eexists. by rewrite last_snoc.
  - assert (E : same (on_prompt (set_done_current true) s) (note_done s)).
    { split; try done. cbn. unfold ac_interrupted in Ei. by rewrite Ei, orb_false_r. }
    pose proof (keeps_done (stop_outcome res false).1 (stop_outcome res false).2 false s H) as Hk.
    unfold seq, pure, with_state in *. assert (Hi : ac_interrupted (note_done s) = false) by exact Ei. rewrite Hi.
    destruct (stop_outcome res false) as [st error]. cbn [fst snd] in Hk. destruct (ac_gone s) eqn:Eg.
    + rewrite acp_send_gone in Hk |- * by done. destruct Hk as [K1 K2 K3]. split; cbn in *.
      * by apply (stream_same s); auto; destruct H.
      * by rewrite Eg.
      * by rewrite Eg.
    + rewrite acp_send_open in Hk |- * by done. cbn [fst snd]. change (ac_interrupted (emit _ _)) with (ac_interrupted s).
      rewrite Ei. cbn [orb]. assert (Hl : live false false (emit (done_ st error (note_done s)) (note_done s))).
      { eapply acp_live_same; [|exact Hk]. destruct E as [E1 E2 E3 E4 E5 E6 E7]. by split. }
      destruct res; [by eapply acp_live_stopped|by apply rests_next_steer].
Qed.

Lemma rests_turn_closed res s :
  live true false s -> rests (turn_closed new_message_id new_question_id spec stall_env res s).
Proof.
  intros H. unfold turn_closed.
  apply (fine_seq (live true false)); [by apply keeps_drain|]. clear s H. intros s H.
  apply (fine_seq (live true false)); [by apply keeps_completed|]. clear s H. intros s H.
  apply (fine_seq (live true false)); [by apply keeps_send_option; [apply usage_plain|]|]. clear s H. intros s H.
  by apply rests_close.
Qed.

(** In the [select], with a turn or without. *)
Definition looping (s : AcpSession) : Prop := exists t, live t t s.

Lemma keeps_looping t r : keeps t t r -> fine looping stopped r.
Proof. apply fine_mono. intros s H. by exists t. Qed.

Lemma keeps_steer_turn w t text s :
  live w t s -> rests (steered_turn new_message_id spec stall_env text s).
Proof. intros H. by eapply (keeps_rests true), keeps_steered_turn. Qed.

Lemma live_idle w t f s :
  same s (set_prompt (ac_prompt s) (f s)) -> in_turn (f s) = false ->
  pr_done_current (ac_prompt (f s)) = pr_done_current (ac_prompt s) ->
  live w t s -> live w false (f s).
Proof.
  intros [E1 E2 E3 _ _ E6 E7] Ht Hd [H1 H2 H3 H4 H5 H6]. cbn in E1, E2, E3, E6, E7.
  split; rewrite ?E1, ?E2, ?E6, ?E7, ?Hd; try done.
  eapply stream_same; [exact E1|by rewrite E2|exact E3|exact H1].
Qed.

Lemma keeps_call_settled t text out s :
  live true t s -> keeps true t (call_settled new_message_id text out s).
Proof.
  intros H. unfold call_settled, with_state. apply (fine_seq (live true t)).
  - destruct (ac_interrupted s); [done|]. destruct (negb _); [by apply keeps_steered|].
    by apply keeps_pure; [split|].
  - intros s' H'. by apply keeps_pure; [split|].
Qed.

Lemma rests_settled res text out s :
  live true false s ->
  rests ((call_settled new_message_id text out >> turn_closed new_message_id new_question_id spec stall_env res)%stmt s).
Proof.
  intros H. apply (fine_seq (live true false)); [by apply keeps_call_settled|].
  intros s' H'. by apply rests_turn_closed.
Qed.

Lemma rests_turn_ended res s :
  live true true s -> rests (turn_ended new_message_id new_question_id spec stall_env res s).
Proof.
  intros H. unfold turn_ended.
  apply (fine_seq (live true false)).
  { apply fine_pure, (live_idle true true (on_prompt (set_turn None))); [by split..|done]. }
  clear s H. intros s H.
  apply (fine_seq (live true false)); [by apply keeps_pure; [split|]|]. clear s H. intros s H.
  apply (fine_seq (live true false)).
  { apply keeps_pure; [|done]. unfold remember_completed. split; try done; unfold in_turn, ac_turn; cbn;
      by destruct (pr_id (ac_prompt s)). }
  clear s H. intros s H.
  apply (fine_seq (live true false)); [by apply keeps_pure; [apply same_poll_call|]|]. clear s H. intros s H.
  unfold with_state. destruct (st_call (ac_steers s)) as [[text [id|]]|]; [|by apply rests_turn_closed..].
  apply fine_pure. right. split; [|done]. eapply acp_live_same; [|exact H].
  destruct H as [_ _ _ _ _ Ha]. by split.
Qed.

(** *** The other arms *)

(** Statements whose failures are ignored: the stream may be gone afterwards. *)
Record ending (s : AcpSession) : Prop := {
  en_stream : stream_ok s;
  en_end : ac_gone s = false -> working (ac_emitted s) = negb (pr_done_current (ac_prompt s));
  en_after : ct_done_after (ac_control s) = false;
}.

Lemma live_ending w t s : live w t s -> ending s.
Proof. intros [H1 H2 H3 _ H5 _]. split; try done. intros Hg. by rewrite H2, H3, negb_involutive. Qed.

Lemma ending_stopped s : ending s -> stopped s.
Proof.
  intros [H1 H2 H3]. split; [done| |by rewrite H3]. intros Hg. rewrite (H2 Hg).
  destruct (pr_done_current (ac_prompt s)); auto.
Qed.

Lemma ending_rotated s : ending s -> ending (send_completed new_message_id s).1.
Proof.
  intros [H1 H2 H3]. unfold send_completed, seq, pure, with_state. destruct (ac_gone s) eqn:Eg.
  - rewrite acp_send_gone by done. split; cbn; [by apply rotate_gone|by rewrite Eg|done].
  - rewrite acp_send_open by done. cbn [Init.Nat.pred ac_message rotate fst]. split.
    + apply (boundary_ok (fun k => AssistantMessageCompleted (new_message_id k))); try done.
      intros k. cbn. by rewrite String.eqb_refl.
    + intros _. cbn. by rewrite working_snoc, H2 by done.
    + done.
Qed.

Lemma ending_sent e s : plain e = true -> ending s -> ending (send e s).1.
Proof.
  intros He [H1 H2 H3]. destruct (ac_gone s) eqn:Eg.
  - rewrite acp_send_gone by done. split; cbn; [done|by rewrite Eg|done].
  - rewrite acp_send_open by done. destruct (chain_ordinary new_message_id (ac_message s) e) as [Hc Hs].
    { unfold ordinary. by rewrite He. }
    split; [by apply stream_emit| |done]. intros _. cbn. rewrite working_snoc, H2 by done. by destruct e.
Qed.

Lemma ended_stopped res s :
  ending s -> stopped (send (prompt_done (inr res) (note_done s)) (note_done s)).1.
Proof.
  intros [H1 H2 H3]. unfold prompt_done. destruct (ac_gone s) eqn:Eg.
  - destruct (stop_outcome _ _). rewrite acp_send_gone by done.
    split; cbn; [by apply (stream_same s); auto|by rewrite Eg|by rewrite Eg].
  - assert (Ei : ac_interrupted (note_done s) = ac_interrupted s) by done. rewrite Ei.
    destruct (stop_outcome (inr res) (ac_interrupted s)) as [st error] eqn:Eo.
    rewrite acp_send_open by done. split; cbn.
    + by apply stream_emit; [..|apply (stream_same s); auto].
    + intros _. left. by rewrite working_snoc.
    + rewrite H3. cbn. intros Hi _. unfold ac_interrupted in Eo. rewrite Hi in Eo. injection Eo as <- <-.
      eexists. by rewrite last_snoc.
Qed.

Lemma rests_eof_answered out s : ending s -> rests (eof_answered new_message_id out s).
Proof.
  intros H. unfold eof_answered. destruct out as [|resp]; [by apply fine_break, ending_stopped|].
  apply (fine_seq ending); [by apply ending_rotated|]. clear s H. intros s H.
  apply (fine_seq ending).
  { destruct (usage_from_response resp) as [e|] eqn:E; [|done].
    apply ending_sent; [|done]. by eapply (usage_plain (inr resp)). }
  clear s H. intros s H. unfold seq, pure, attempt, with_state. cbn [fst snd].
  by apply fine_break, ended_stopped.
Qed.

Lemma rests_eof t s : live t t s -> rests (on_eof new_message_id s).
Proof.
  intros H. unfold on_eof.
  apply (fine_seq (live t t)); [by apply keeps_pure; [apply same_poll_turn|]|]. clear s H. intros s H.
  unfold with_state. destruct (ac_turn s) as [[text pid|id|stop]|] eqn:Et;
    [by eapply acp_live_stopped| | |by eapply acp_live_stopped].
  - apply fine_pure. right. assert (Ht : t = true).
    { destruct H as [_ _ _ <- _ _]. unfold in_turn. by rewrite Et. }
    subst t. split; [|done]. assert (Ha : ac_at s = ALoop) by apply H.
    apply (live_idle true true (fun s => set_at ALoop (set_at (AEof id) (on_prompt (set_turn None) s)))); try done.
  - eapply (fine_seq ending); [apply fine_pure|intros s' H'; by apply rests_eof_answered].
    eapply live_ending. apply (live_idle t t (on_prompt (set_turn None))); [by split|done..].
Qed.

Lemma rests_incoming t i s : live t t s -> rests (on_incoming new_message_id new_question_id spec i s).
Proof.
  intros H. destruct i as [[method params|id method params|]|]; cbn [on_incoming]; [| |by eapply rests_eof..].
  - by apply (keeps_rests t), keeps_notification.
  - apply (keeps_rests t), (fine_seq (live t t)); [by apply keeps_pure; [split|]|].
    intros s' H'. by apply keeps_pure; [apply same_request|].
Qed.

Lemma same_follow s : same s (follow s).
Proof.
  unfold follow. destruct (st_backlog (ac_steers s)); [done|]. by destruct (_ && _).
Qed.

Lemma rests_call_answered text out t s :
  live t t s -> rests (call_answered new_message_id new_question_id spec stall_env text out s).
Proof.
  intros H. unfold call_answered.
  apply (fine_seq (live t t)); [by apply keeps_pure; [split|]|]. clear s H. intros s H.
  apply (fine_seq looping).
  - unfold with_state. destruct (ac_interrupted s); [by exists t|]. destruct (negb (prompt_required _)).
    + destruct (in_turn s) eqn:Et; [|by exists t]. destruct t; [|by rewrite (lv_turn _ _ _ H) in Et].
      apply (keeps_looping true), (fine_seq (live true true)); [by apply keeps_pure; [split|]|]. clear s H Et. intros s H.
      apply (fine_seq (live true true)); [by apply keeps_drain|]. intros s' H'. by apply keeps_steered.
    + destruct (in_turn s); [|by eapply (keeps_looping true), keeps_steered_turn].
      apply (keeps_looping t), (fine_seq (live t t)); [by apply keeps_pure; [destruct (no_running_turn out)|]|].
      clear s H. intros s H. by apply keeps_pure; [split|].
  - clear s t H. intros s [t H]. apply (keeps_rests t), keeps_pure; [apply same_follow|done].
Qed.

Lemma rests_flush t s : live t t s -> rests (on_flush new_message_id spec stall_env s).
Proof.
  intros H. unfold on_flush. apply (fine_seq (live t t)); [by apply keeps_pure; [split|]|]. clear s H. intros s H.
  unfold with_state. destruct (in_turn s) eqn:Et; [by eapply live_rests|].
  rewrite (lv_turn _ _ _ H) in Et. subst t. by apply rests_next_steer.
Qed.

Lemma rests_starved s : live true true s -> rests (on_starved new_message_id spec stall_env s).
Proof.
  intros H. unfold on_starved. apply (fine_seq (live true true)); [by apply keeps_pure; [split|]|]. clear s H. intros s H.
  apply (fine_seq (live true false)).
  { apply fine_pure, (live_idle true true (on_prompt (set_turn None))); [by split..|done]. }
  clear s H. intros s H. apply (fine_seq (live true false)); [by apply keeps_completed|]. clear s H. intros s H.
  pose proof (keeps_done Completed None false s H) as Hd. revert Hd. unfold seq at 1.
  change (pure (on_prompt (set_done_current true)) s) with (on_prompt (set_done_current true) s, true). cbn [fst snd].
  intros Hd. unfold seq at 1. cbn [pure fst snd]. eapply (fine_seq (live false false)); [exact Hd|].
  intros s' H'. by apply rests_next_steer.
Qed.

Lemma rests_steer prompt t s : live t t s -> rests (on_steer new_message_id spec request stall_env prompt s).
Proof.
  intros H. unfold on_steer, with_state. destruct prompt as [prompt|].
  - destruct (in_turn s) eqn:Et; [destruct (ac_steer_ext s)|destruct (wa_flush (ac_watch s)); [|destruct (_ || _)]];
      try by apply (keeps_rests t), keeps_pure; [split|].
    by eapply keeps_steer_turn.
  - apply (fine_seq (live t t)); [by apply keeps_pure; [split|]|]. intros s' H'.
    destruct (_ && _); [by eapply acp_live_stopped|by eapply live_rests].
Qed.

Lemma rests_interrupt t s : live t t s -> rests (on_interrupt s).
Proof.
  intros H. unfold on_interrupt, with_state. apply (fine_seq (live t t)); [by apply keeps_pure; [split|]|].
  clear H. intros s' H. destruct (in_turn s); [|by eapply acp_live_stopped].
  by apply (keeps_rests t), keeps_pure; [split|].
Qed.

Lemma rests_stalled t s : live true t s -> rests (on_stalled spec stall_env s).
Proof.
  intros H. unfold on_stalled. apply (fine_seq ending).
  { apply fine_pure. eapply (live_ending true t), acp_live_same; [|exact H]. by split. }
  clear s H. intros s H. apply (fine_seq ending); [by apply ending_sent|]. clear s H. intros s [H1 H2 H3].
  unfold seq, pure, attempt, with_state. cbn [fst snd]. apply fine_break. destruct (ac_gone s) eqn:Eg.
  - rewrite acp_send_gone by done. split; cbn; [by apply (stream_same s); auto|by rewrite Eg|by rewrite H3].
  - rewrite acp_send_open by done. split; cbn; [by apply stream_emit; [..|apply (stream_same s); auto]| |by rewrite H3].
    intros _. left. by rewrite working_snoc.
Qed.

(** *** The places of a session *)

(** The setup: nothing is sent, no turn, no interrupt. *)
Record fresh (s : AcpSession) : Prop := {
  fr_emitted : ac_emitted s = [];
  fr_message : ac_message s = 0%nat;
  fr_done : pr_done_current (ac_prompt s) = false;
  fr_turn : in_turn s = false;
  fr_after : ct_done_after (ac_control s) = false;
  fr_interrupted : ac_interrupted s = false;
}.

Record closed (s : AcpSession) : Prop := {
  cl_opened : opened (ac_emitted s);
  cl_chain : exists k, chain 0 (events s) = Some k;
  cl_end : ac_gone s = false ->
    working (ac_emitted s) = false /\ existsb is_done (ac_emitted s) = true /\
    (ac_interrupted s = true -> ends_interrupted (ac_emitted s));
}.

Definition placed (s : AcpSession) : Prop :=
  match ac_at s with
  | ALoop => looping s
  | ASettle _ _ _ | AEof _ => settling s
  | AOver => closed s
  | _ => fresh s
  end.

Lemma resting_placed s : resting s -> placed s.
Proof.
  unfold placed. intros [(t & H)|[H Ha]].
  - rewrite (lv_at _ _ _ H). by exists t.
  - destruct (ac_at s) eqn:E; try done; by split; [|rewrite E].
Qed.

Lemma finish_placed s : stopped s -> placed (finish crash s).
Proof.
  intros [Hs He Ha]. unfold placed. cbn.
  assert (Hend : forall s, stream_ok s ->
      (ac_gone s = false -> working (ac_emitted s) = false /\ (ac_interrupted s = true -> ends_interrupted (ac_emitted s))) ->
      closed (over s)).
  { clear. intros s [(k & Hk & _) H2] H. split; [by right; right|by exists k|].
    intros Hg. destruct (H Hg) as [Hw Hi]. split; [done|]. split; [by apply idle_is_done|done]. }
  assert (Hsend : forall st error, (ac_interrupted s = true -> st = Interrupted) ->
      closed (over (send (done_ st error s) s).1)).
  { intros st error Hi. apply Hend; destruct (ac_gone s) eqn:Eg.
    - by rewrite acp_send_gone.
    - rewrite acp_send_open by done. by apply stream_emit.
    - rewrite acp_send_gone by done. cbn. by rewrite Eg.
    - rewrite acp_send_open by done. cbn. intros _. rewrite working_snoc. split; [done|].
      intros ->%Hi. eexists. by rewrite last_snoc. }
  unfold finish. fold (ac_interrupted s). destruct (ac_interrupted s) eqn:Ei; cbn [andb negb].
  - destruct (ct_done_after (ac_control s)) eqn:Ea; cbn [negb]; [|by apply Hsend].
    apply Hend; [done|]. intros Hg. specialize (Ha eq_refl Hg). split; [by apply interrupted_idle|done].
  - destruct (pr_done_current (ac_prompt s)) eqn:Ed; cbn [negb]; [|by apply Hsend].
    apply Hend; [done|]. intros Hg. split; [by destruct (He Hg)|by rewrite Ei].
Qed.

Lemma in_loop_placed f s : rests (f s) -> placed (in_loop crash f s).
Proof.
  unfold fine, in_loop. destruct (f s) as [s' []]; cbn [fst snd]; [apply resting_placed|apply finish_placed].
Qed.

(** *** The setup *)

Record quietly (s s' : AcpSession) : Prop := {
  qt_same : same s s';
  qt_interrupted : ac_interrupted s' = ac_interrupted s;
}.

Lemma fresh_same s s' : quietly s s' -> fresh s -> fresh s'.
Proof. intros [[E1 E2 E3 E4 E5 E6 E7] E8] [H1 H2 H3 H4 H5 H6]. split; congruence. Qed.

Lemma fresh_placed s : in_setup (ac_at s) = true -> fresh s -> placed s.
Proof. unfold placed. by destruct (ac_at s). Qed.

Lemma fresh_ask method params wait s :
  (forall id, in_setup (wait id) = true) -> fresh s -> placed (ask method params wait s).
Proof. intros Hw [H1 H2 H3 H4 H5 H6]. apply fresh_placed; [apply Hw|by split]. Qed.

Lemma fresh_setup_over st error s : fresh s -> placed (setup_over st error s).
Proof.
  intros [H1 H2 H3 H4 H5 H6]. unfold placed, setup_over. cbn. destruct (ac_gone s) eqn:Eg.
  - rewrite acp_send_gone by done. split; unfold events; cbn; rewrite ?H1, ?Eg; [by left|by exists 0%nat|done].
  - rewrite acp_send_open by done. split; unfold events, ac_interrupted in *; cbn; rewrite ?H1.
    + right. left. by eexists _, _.
    + by exists 0%nat.
    + intros _. by rewrite H6.
Qed.

Lemma fresh_ready s : fresh s -> placed (session_ready new_message_id spec request stall_env s).
Proof.
  intros [H1 H2 H3 H4 H5 H6]. unfold session_ready, seq. destruct (ac_gone s) eqn:Eg.
  - rewrite acp_send_gone by done. unfold placed. cbn.
    split; unfold events; cbn; rewrite ?H1, ?Eg; [by left|by exists 0%nat|done].
  - rewrite acp_send_open by done. destruct (ac_commands s) as [|c cs].
    + exists true. split; try done; [|by cbn; rewrite H1].
      split; unfold events; cbn; rewrite H1; [|by repeat eexists].
      exists 0%nat. unfold message_id. rewrite H2. cbn. by rewrite String.eqb_refl.
    + rewrite acp_send_open by done. exists true. split; try done; [|by cbn; rewrite H1].
      split; unfold events; cbn; rewrite H1; [|by repeat eexists].
      exists 0%nat. unfold message_id. rewrite H2. cbn. by rewrite String.eqb_refl.
Qed.

Lemma fresh_next_set sets s : fresh s -> placed (next_set new_message_id spec request stall_env sets s).
Proof. intros H. destruct sets as [|[id payload] rest]; [by apply fresh_ready|by apply fresh_ask]. Qed.

Lemma fresh_configure session resp s :
  fresh s -> placed (configure new_message_id describe spec request stall_env session resp s).
Proof.
  intros H. unfold configure. destruct (String.eqb session ""); [by apply fresh_setup_over|].
  apply fresh_next_set. by destruct H.
Qed.

Lemma fresh_initialized out s : fresh s -> placed (initialized describe request out s).
Proof.
  intros H. unfold initialized. destruct out as [m|init]; [by apply fresh_setup_over|].
  assert (fresh (set_handshake (steering_supported init) (scan_available_commands init) s)) by by destruct H.
  by destruct (rq_resume request); apply fresh_ask.
Qed.

Lemma fresh_answered a out s s' :
  fresh s -> setup_answered new_message_id describe spec request stall_env a out s = Some s' -> placed s'.
Proof.
  intros H. destruct a, out; cbn; try done; intros [= <-];
    [by apply fresh_ask|by apply fresh_configure|by apply fresh_setup_over|by apply fresh_configure|
     by apply fresh_next_set..].
Qed.

Lemma fresh_message s i : fresh s -> fresh (setup_message s i) /\ ac_at (setup_message s i) = ac_at s.
Proof.
  intros H. destruct i as [|id method params|]; [done| |done]. split; cbn.
  - eapply fresh_same; [|exact H]. unfold handle_server_request. by destruct (String.eqb _ _).
  - unfold handle_server_request. by destruct (String.eqb _ _).
Qed.

Lemma fresh_flush s : fresh s -> fresh (flush s).
Proof.
  intros H. unfold flush. assert (H0 : fresh (take_all s)) by by destruct H. revert H0.
  generalize (take_all s). induction (waiting s) as [|i l IH]; intros s0 H0; [done|]. apply IH, fresh_message, H0.
Qed.

(** *** Every step *)

Lemma settling_looping s : settling s -> live true false (set_at ALoop s).
Proof. by intros []. Qed.

(** Steps outside the session change nothing the invariant looks at. *)
Lemma quietly_placed s s' : quietly s s' -> placed s -> placed s'.
Proof.
  intros [Hs Ei] H. unfold placed in *. rewrite (sm_at _ _ Hs).
  destruct (ac_at s); try (eapply fresh_same; [by split|exact H]).
  - destruct H as [t H]. exists t. by eapply acp_live_same.
  - destruct H as [H Ha]. split; [|by rewrite (sm_at _ _ Hs)]. eapply acp_live_same; [|exact H].
    destruct Hs as [E1 E2 E3 E4 E5 E6 E7]. by split.
  - destruct H as [H Ha]. split; [|by rewrite (sm_at _ _ Hs)]. eapply acp_live_same; [|exact H].
    destruct Hs as [E1 E2 E3 E4 E5 E6 E7]. by split.
  - destruct H as [H1 H2 H3]. destruct Hs as [E1 E2 E3 E4 E5 E6 E7].
    split; unfold events; rewrite ?E1, ?E2, ?Ei; done.
Qed.

Lemma gone_live w t s : live w t s -> live w t (set_stream (ac_emitted s) true s).
Proof.
  intros [H1 H2 H3 H4 H5 H6]. split; try done. by apply (stream_same s).
Qed.

Lemma gone_placed s : placed s -> placed (set_stream (ac_emitted s) true s).
Proof.
  unfold placed. cbn [ac_at set_stream]. intros H. destruct (ac_at s) eqn:Ea; try (by destruct H).
  - destruct H as [t H]. exists t. by apply gone_live.
  - destruct H as [H Ha]. split; [|done]. by apply gone_live in H.
  - destruct H as [H Ha]. split; [|done]. by apply gone_live in H.
Qed.

Lemma arm_placed guard f s s' :
  (forall t, live t t s -> guard = true -> rests (f s)) -> arm crash guard f s = Some s' -> placed s -> placed s'.
Proof.
  intros Hf. unfold arm, at_loop. destruct (ac_at s) eqn:Ea; try done. destruct guard; [|done].
  intros [= <-] H. unfold placed in H. rewrite Ea in H. destruct H as [t H]. apply in_loop_placed. by eapply Hf.
Qed.

Lemma incoming_placed s s' :
  incoming_step new_message_id new_question_id crash describe spec request stall_env s = Some s' -> placed s -> placed s'.
Proof.
  unfold incoming_step. destruct (received s) as [i|]; [|done]. cbn [mbind option_bind]. intros E H.
  assert (Hs : in_setup (ac_at s) = true -> fresh s) by (unfold placed in H; by destruct (ac_at s)).
  assert (Hm : forall i a, ac_at s = a -> in_setup a = true -> placed (setup_message (set_taken (S (ac_taken s)) s) i)).
  { intros i' a Ea Ha. rewrite <- Ea in Ha.
    assert (Hf : fresh (set_taken (S (ac_taken s)) s)) by (destruct (Hs Ha); by split).
    destruct (fresh_message _ i' Hf) as [Hf' Ea']. apply fresh_placed; [by rewrite Ea'|done]. }
  destruct (ac_at s) eqn:Ea, i as [i|]; try done;
    try (cbn in E; injection E as <-; by apply (Hm _ _ eq_refl));
    try (eapply fresh_answered; [by apply Hs|exact E]).
  - injection E as <-. unfold placed in H. rewrite Ea in H. destruct H as [t H].
    eapply in_loop_placed, (rests_incoming t (Some i)), acp_live_same; [|exact H]. by split.
  - injection E as <-. unfold placed in H. rewrite Ea in H. destruct H as [t H]. by apply in_loop_placed, (rests_incoming t None).
Qed.

Lemma answer_placed s s' :
  answer_step new_message_id new_question_id crash describe spec request stall_env s = Some s' -> placed s -> placed s'.
Proof.
  unfold answer_step. intros E H. unfold placed in H.
  destruct (ac_at s) as [id|id|id|id rest| |res text id|id|] eqn:Ea; [| | | |done| | |done];
    destruct (rpc_answer id (ac_client s)) as [out|]; try done; cbn [mbind option_bind setup_method] in E.
  - injection E as <-. by apply fresh_initialized.
  - eapply fresh_answered; [by apply fresh_flush|exact E].
  - eapply fresh_answered; [by apply fresh_flush|exact E].
  - eapply fresh_answered; [by apply fresh_flush|exact E].
  - injection E as <-. by apply in_loop_placed, rests_settled, settling_looping.
  - injection E as <-. eapply in_loop_placed, rests_eof_answered, live_ending, settling_looping, H.
Qed.

Lemma timeout_placed s s' :
  timeout_step new_message_id new_question_id crash describe spec stall_env handshake_secs s = Some s' ->
  placed s -> placed s'.
Proof.
  unfold timeout_step. intros E H. unfold placed in H.
  destruct (ac_at s) as [id|id|id|id rest| |res text id|id|] eqn:Ea; try done; injection E as <-;
    try by apply fresh_setup_over.
  - by apply in_loop_placed, rests_settled, settling_looping.
  - eapply finish_placed, acp_live_stopped, settling_looping, H.
Qed.

Lemma acp_step_placed k s s' : step k s = Some s' -> placed s -> placed s'.
Proof.
  destruct k as [line| | |now| | | | | | | | | | |prompt| | | | | |a answers]; cbn [acp_step]; intros E H.
  1-3: unfold client_step in E; destruct (rpc_step _ _); [injection E as <-|done]; eapply quietly_placed; [|exact H]; by split; [split|].
  - destruct (_ <=? _); [injection E as <-|done]. eapply quietly_placed; [|exact H]; by split; [split|].
  - eapply arm_placed; [|exact E|exact H]. intros t Hl _. by apply (keeps_rests t), keeps_pure; [apply same_poll_turn|].
  - eapply arm_placed; [|exact E|exact H]. intros t Hl _. by apply (keeps_rests t), keeps_pure; [apply same_poll_call|].
  - by eapply answer_placed.
  - by eapply timeout_placed.
  - by eapply incoming_placed.
  - destruct (turn_answer s) as [res|] eqn:Et; [|done]. cbn in E. eapply arm_placed; [|exact E|exact H].
    intros t Hl _. apply rests_turn_ended. assert (t = true) as ->; [|done].
    rewrite <- (lv_turn _ _ _ Hl). unfold turn_answer, in_turn in *. by destruct (ac_turn s).
  - destruct (st_call (ac_steers s)) as [[text id]|]; [|done]. cbn in E.
    destruct (id ≫= _) as [out|]; [|done]. cbn in E. eapply arm_placed; [|exact E|exact H].
    intros t Hl _. by eapply rests_call_answered.
  - eapply arm_placed; [|exact E|exact H]. intros t Hl _. by eapply rests_flush.
  - eapply arm_placed; [|exact E|exact H]. intros t Hl _. by apply (keeps_rests t), keeps_pure; [split|].
  - eapply arm_placed; [|exact E|exact H]. intros t Hl Hg. apply rests_starved.
    apply andb_true_iff in Hg as [Hg _]. apply andb_true_iff in Hg as [_ Hg].
    rewrite (lv_turn _ _ _ Hl) in Hg. by subst t.
  - eapply arm_placed; [|exact E|exact H]. intros t Hl _. by eapply rests_steer.
  - destruct (ct_cancelled (ac_control s)); [|done]. destruct (in_setup (ac_at s)) eqn:Es.
    + injection E as <-. apply fresh_setup_over. unfold placed in H. by destruct (ac_at s).
    + eapply arm_placed; [|exact E|exact H]. intros t Hl _. by eapply rests_interrupt.
  - eapply arm_placed; [|exact E|exact H]. intros t Hl Hg. apply (rests_stalled t).
    apply andb_true_iff in Hg as [Hg _]. apply andb_true_iff in Hg as [_ Hg].
    rewrite (lv_turn _ _ _ Hl) in Hg. by subst t.
  - eapply arm_placed; [|exact E|exact H]. intros t Hl _. by eapply fine_break, acp_live_stopped.
  - injection E as <-. eapply quietly_placed; [|exact H]; by split; [split|].
  - injection E as <-. by apply gone_placed.
  - unfold bridge_answered in E. destruct (as_open _ !! _); [|done]. injection E as <-. eapply quietly_placed; [|exact H]; by split; [split|].
Qed.

Lemma acp_run_placed ks : placed (run ks (session_new version)).
Proof.
  assert (placed (session_new version)) as H0 by done. revert H0. generalize (session_new version).
  induction ks as [|k ks IH]; intros s H; [done|]. cbn. apply IH.
  destruct (acp_step _ _ _ _ _ _ _ _ _ k s) as [s'|] eqn:E; [by eapply acp_step_placed|done].
Qed.

Lemma placed_stream s : placed s -> opened (ac_emitted s) /\ exists k, chain 0 (events s) = Some k.
Proof.
  assert (Hok : stream_ok s -> opened (ac_emitted s) /\ exists k, chain 0 (events s) = Some k).
  { intros [(k & Hk & _) H]. split; [by right; right|by exists k]. }
  unfold placed. intros H. destruct (ac_at s); [| | | |apply Hok|apply Hok|apply Hok|by destruct H].
  1-4: destruct H as [He _ _ _ _ _]; unfold events; rewrite He; split; [by left|by exists 0%nat].
  - destruct H as [t H]. apply H.
  - destruct H as [H _]. destruct H as [H _ _ _ _ _]. by eapply stream_same; [..|exact H].
  - destruct H as [H _]. destruct H as [H _ _ _ _ _]. by eapply stream_same; [..|exact H].
Qed.

End Stream.
