(* ===== verification/AcpSafety.v ===== *)
(** What the ACP session keeps: the steers it takes, the prompt an out-of-band
    completion may settle, and the way out of a silence. *)
From S2P Require Import Prelude Json Text Agent Samples Claude JsonRpc CodexItems Loop AcpItems Acp AcpStream.

(** ** Steers *)

Definition is_steered (e : AgentEvent) : bool := match e with Steered _ _ => true | _ => false end.

Definition steered_count (es : list AgentEvent) : nat := length (List.filter is_steered es).

Definition call_text (s : AcpSession) : list string :=
  match st_call (ac_steers s) with Some (text, _) => [text] | None => [] end.

Definition settling_text (a : Await) : list string := match a with ASettle _ text _ => [text] | _ => [] end.

(** The steers a session holds: in a call, behind one, or for a turn to come. *)
Definition held (s : AcpSession) : list string :=
  settling_text (ac_at s) ++ call_text s ++ st_backlog (ac_steers s) ++ st_queue (ac_steers s).

Lemma steered_snoc es e : steered_count (es ++ [e]) = (steered_count es + if is_steered e then 1 else 0)%nat.
Proof. unfold steered_count. rewrite List.filter_app, length_app. cbn. by destruct (is_steered e). Qed.

Section Safety.
Context {J : JsonText} (new_message_id new_question_id : nat -> string) (version crash : string).
Context (describe : string -> string) (spec : AcpAgentSpec) (request : RunRequest).
Context (stall_env quiet_env : option Z) (handshake_secs : N).

Abbreviation step :=
  (acp_step new_message_id new_question_id crash describe spec request stall_env quiet_env handshake_secs).
Abbreviation run :=
  (acp_run new_message_id new_question_id crash describe spec request stall_env quiet_env handshake_secs).
Abbreviation transformed := (sp_prompt_transform spec (rq_reasoning request)).

(** A steering call the agent accepted when its turn was settled without it: no
    boundary is said. *)
Definition accepted_late (k : AcpStep) (s : AcpSession) : bool :=
  match k, st_call (ac_steers s) with
  | KCall, Some (_, Some id) =>
      match rpc_answer id (ac_client s) with
      | Some out => negb (in_turn s) && negb (prompt_required (Some (named "_session/steering" out)))
      | None => false
      end
  | _, _ => false
  end.

(** What a step takes from the mailbox, and whether it is such a call. *)
Definition observed_step (k : AcpStep) (s : AcpSession) : list string * nat :=
  match step k s with
  | Some _ => (match k with KSteer (Some prompt) => [transformed prompt] | _ => [] end,
               if accepted_late k s then 1 else 0)%nat
  | None => ([], 0%nat)
  end.

Fixpoint observed (ks : list AcpStep) (s : AcpSession) : list string * nat :=
  match ks with
  | [] => ([], 0%nat)
  | k :: ks =>
      let '(texts, n) := observed_step k s in
      let '(more, m) := observed ks (default s (step k s)) in
      (texts ++ more, n + m)%nat
  end.

Section Account.
Context (taken : list string) (silent : nat).

(** What was taken is held, in [hand], or handed on: with a boundary, or late. *)
Definition acct (hand : list string) (s : AcpSession) : Prop :=
  ac_interrupted s = false ->
  exists handed, taken ≡ₚ handed ++ hand ++ held s /\ length handed = (steered_count (ac_emitted s) + silent)%nat.

Abbreviation keeps hand := (fine (acct hand) (fun _ => True)).

Lemma acct_move hand hand' s s' :
  hand ++ held s ≡ₚ hand' ++ held s' -> ac_emitted s' = ac_emitted s ->
  (ac_interrupted s' = false -> ac_interrupted s = false) -> acct hand s -> acct hand' s'.
Proof.
  intros Eh Ee Ei H Hi. destruct (H (Ei Hi)) as (h & Hp & Hl). exists h. by rewrite Ee, <- Eh.
Qed.

(** Nothing the account looks at has changed. *)
Record unheld (s s' : AcpSession) : Prop := {
  un_held : held s' ≡ₚ held s;
  un_emitted : ac_emitted s' = ac_emitted s;
  un_interrupted : ac_interrupted s' = ac_interrupted s;
}.

Lemma acct_unheld hand s s' : unheld s s' -> acct hand s -> acct hand s'.
Proof. intros [E1 E2 E3]. apply acct_move; [by rewrite E1|done|by rewrite E3]. Qed.

Lemma acct_pure hand f s : unheld s (f s) -> acct hand s -> keeps hand (pure f s).
Proof. intros Hf H. by eapply fine_pure, acct_unheld. Qed.

Lemma acct_send hand e s : is_steered e = false -> acct hand s -> keeps hand (send e s).
Proof.
  intros He H. unfold send. destruct (ac_gone s); [done|]. intros Hi. destruct (H Hi) as (h & Hp & Hl).
  exists h. split; [done|]. cbn [fst ac_emitted set_stream]. rewrite steered_snoc, He. lia.
Qed.

(** A boundary hands a steer on. *)
Lemma acct_steered text hand s : acct (text :: hand) s -> keeps hand (send_steered new_message_id s).
Proof.
  intros H. unfold send_steered, seq, pure, with_state, send. cbn [ac_gone rotate]. destruct (ac_gone s); [done|].
  intros Hi. destruct (H Hi) as (h & Hp & Hl). exists (text :: h). split.
  - rewrite Hp. change (held (fst _)) with (held s). solve_Permutation.
  - cbn [fst ac_emitted set_stream]. rewrite steered_snoc. cbn [ac_emitted rotate is_steered length]. lia.
Qed.

Lemma acct_steered_turn text text' hand s :
  acct (text :: hand) s -> keeps hand (steered_turn new_message_id spec stall_env text' s).
Proof.
  intros H. unfold steered_turn. apply (fine_seq (acct hand)); [by eapply acct_steered|].
  intros s' H'. by apply acct_pure; [split|].
Qed.

Lemma acct_next s : acct [] s -> keeps [] (next_steer new_message_id spec stall_env s).
Proof.
  intros H. unfold next_steer, with_state. destruct (st_queue (ac_steers s)) as [|text rest] eqn:Eq.
  - by destruct (ct_steering_open (ac_control s)).
  - apply (fine_seq (acct [text])).
    + apply fine_pure. eapply acct_move; [..|exact H]; try done. unfold held, call_text. cbn. rewrite Eq. solve_Permutation.
    + intros s' H'. by eapply acct_steered_turn.
Qed.

Lemma acct_plain hand e s : plain e = true -> acct hand s -> keeps hand (send e s).
Proof. intros He. apply acct_send. by destruct e. Qed.

Lemma acct_completed hand s : acct hand s -> keeps hand (send_completed new_message_id s).
Proof.
  intros H. unfold send_completed. apply (fine_seq (acct hand)); [by apply acct_pure; [split|]|].
  intros s' H'. by apply acct_send.
Qed.

Lemma acct_done hand res s : acct hand s -> keeps hand (with_state (fun s => send (prompt_done res s)) s).
Proof. intros H. unfold with_state, prompt_done. destruct (stop_outcome _ _). by apply acct_send. Qed.

Lemma unheld_request id method params s : unheld s (handle_server_request_live new_question_id id method params s).
Proof.
  unfold handle_server_request_live, handle_server_request.
  destruct (_ && _); [by split|]. by destruct (String.eqb _ _).
Qed.

Lemma unheld_poll_turn s : unheld s (poll_turn s).
Proof. unfold poll_turn. by destruct (ac_turn s) as [[]|]. Qed.

Lemma poll_turn_at s : ac_at (poll_turn s) = ac_at s.
Proof. unfold poll_turn. by destruct (ac_turn s) as [[]|]. Qed.

Lemma unheld_poll_call s : unheld s (poll_call s).
Proof.
  unfold poll_call. destruct (st_call (ac_steers s)) as [[text [id|]]|] eqn:E; [by split| |by split].
  split; [|done..]. unfold held, call_text. cbn. by rewrite E.
Qed.

Lemma unheld_complete method params s : unheld s (prompt_complete spec method params s).
Proof.
  unfold prompt_complete. destruct (_ && _); [|by split]. by destruct (unheld_poll_turn s) as [E1 E2 E3].
Qed.

Lemma acct_drain hand s : acct hand s -> keeps hand (drain new_question_id s).
Proof.
  intros H. unfold drain, with_state. apply (fine_seq (acct hand)); [by apply acct_pure; [split|]|].
  intros s' H'. apply fine_each; [|done]. intros i s0 _ H0.
  destruct i as [method params|id method params|]; cbn [drain_one]; [| |done].
  - apply fine_each; [|done]. intros e s1 He Hs1. apply acct_plain; [by eapply session_events_plain|done].
  - by apply acct_pure; [apply unheld_request|].
Qed.

Lemma acct_notification hand method params s : acct hand s -> keeps hand (on_notification spec method params s).
Proof.
  intros H. unfold on_notification.
  apply (fine_seq (acct hand)); [by apply acct_pure; [split|]|]. clear s H. intros s H.
  apply (fine_seq (acct hand)); [by apply acct_pure; [destruct (boilerplate _ _)|]|]. clear s H. intros s H.
  apply (fine_seq (acct hand)); [by apply acct_pure; [apply unheld_complete|]|]. clear s H. intros s H.
  apply fine_each; [|done]. intros e s' He Hs'. unfold tracked.
  apply (fine_seq (acct hand)); [by apply acct_pure; [split|]|].
  intros s'' Hs''. apply acct_plain; [by eapply session_events_plain|done].
Qed.

Lemma acct_closed res s :
  acct [] s -> keeps [] (turn_closed new_message_id new_question_id spec stall_env res s).
Proof.
  intros H. unfold turn_closed.
  apply (fine_seq (acct [])); [by apply acct_drain|]. clear s H. intros s H.
  apply (fine_seq (acct [])); [by apply acct_completed|]. clear s H. intros s H.
  apply (fine_seq (acct [])).
  { destruct (usage_of res) eqn:E; [|done]. apply acct_plain; [by eapply usage_plain|done]. }
  clear s H. intros s H.
  apply (fine_seq (acct [])); [apply acct_pure; [|done]|].
  { by split. }
  clear s H. intros s H. apply (fine_seq (acct [])); [by apply acct_done|].
  intros s' H'. unfold with_state. destruct (_ || _); [done|by apply acct_next].
Qed.

(** A steer in hand is kept for a turn to come. *)
Lemma acct_push hand text s : acct (text :: hand) s -> acct hand (queue_push text s).
Proof. apply acct_move; [|done..]. unfold held, call_text. cbn. solve_Permutation. Qed.

Lemma unheld_backlog s : unheld s (backlog_to_queue s).
Proof. split; [|done..]. unfold held, call_text. cbn. solve_Permutation. Qed.

Lemma acct_settled text out s :
  acct [text] s -> keeps [] (call_settled new_message_id text out s).
Proof.
  intros H. unfold call_settled, with_state. apply (fine_seq (acct [])).
  - destruct (ac_interrupted s) eqn:Ei.
    + apply fine_skip. intros Hi. congruence.
    + destruct (negb _); [by eapply acct_steered|]. by apply fine_pure, acct_push.
  - intros s' H'. by apply acct_pure; [apply unheld_backlog|].
Qed.

Lemma acct_settled_closed res text out s :
  acct [text] s ->
  keeps [] ((call_settled new_message_id text out
             >> turn_closed new_message_id new_question_id spec stall_env res)%stmt s).
Proof.
  intros H. apply (fine_seq (acct [])); [by apply acct_settled|]. intros s' H'. by apply acct_closed.
Qed.

Lemma acct_ended res s :
  ac_at s = ALoop -> acct [] s -> keeps [] (turn_ended new_message_id new_question_id spec stall_env res s).
Proof.
  intros Ha H. unfold turn_ended. set (I s := acct [] s /\ ac_at s = ALoop).
  assert (Hp : forall f s, unheld s (f s) -> ac_at (f s) = ac_at s -> I s -> fine I (fun _ => True) (pure f s)).
  { intros f s0 Hf Hat [H1 H2]. split; [by eapply acct_unheld|by rewrite <- H2]. }
  apply (fine_seq I); [by apply Hp; [split|..]|]. clear s Ha H. intros s H.
  apply (fine_seq I); [by apply Hp; [split|..]|]. clear s H. intros s H.
  apply (fine_seq I).
  { apply Hp; [|done..]. unfold remember_completed. by split. }
  clear s H. intros s H.
  apply (fine_seq I).
  { apply Hp; [apply unheld_poll_call| |done]. unfold poll_call. by destruct (st_call (ac_steers s)) as [[text [id|]]|]. }
  clear s H. intros s [H Ha]. unfold with_state.
  destruct (st_call (ac_steers s)) as [[text [id|]]|] eqn:Ec; [|by apply acct_closed..].
  apply fine_pure. eapply acct_move; [..|exact H]; try done. unfold held, call_text. cbn. rewrite Ha, Ec. solve_Permutation.
Qed.

Lemma acct_eof s : ac_at s = ALoop -> acct [] s -> keeps [] (on_eof new_message_id s).
Proof.
  intros Ha H. unfold on_eof. apply (fine_seq (fun s => acct [] s /\ ac_at s = ALoop)).
  { apply fine_pure. split; [by eapply acct_unheld; [apply unheld_poll_turn|]|by rewrite poll_turn_at]. }
  clear s Ha H. intros s [H Ha]. unfold with_state. destruct (ac_turn s) as [[text pid|id|stop]|]; [done| | |done].
  - apply fine_pure. eapply acct_unheld; [|exact H]. split; [|done..]. unfold held, call_text. cbn. by rewrite Ha.
  - exact Logic.I.
Qed.

Lemma acct_incoming i s :
  ac_at s = ALoop -> acct [] s -> keeps [] (on_incoming new_message_id new_question_id spec i s).
Proof.
  intros Ha H. destruct i as [[method params|id method params|]|]; cbn [on_incoming]; [| |by apply acct_eof..].
  - by apply acct_notification.
  - apply (fine_seq (acct [])); [by apply acct_pure; [split|]|]. intros s' H'. by apply acct_pure; [apply unheld_request|].
Qed.

Lemma unheld_follow s : st_call (ac_steers s) = None -> unheld s (follow s).
Proof.
  intros Ec. unfold follow. destruct (st_backlog (ac_steers s)) as [|next rest] eqn:Eb; [by split|].
  destruct (_ && _); [|apply unheld_backlog]. split; [|done..]. unfold held, call_text. cbn. by rewrite Ec, Eb.
Qed.

Lemma acct_flush s : acct [] s -> keeps [] (on_flush new_message_id spec stall_env s).
Proof.
  intros H. unfold on_flush. apply (fine_seq (acct [])); [by apply acct_pure; [split|]|].
  intros s' H'. unfold with_state. by destruct (in_turn s'); [|apply acct_next].
Qed.

Lemma acct_starved s : acct [] s -> keeps [] (on_starved new_message_id spec stall_env s).
Proof.
  intros H. unfold on_starved.
  apply (fine_seq (acct [])); [by apply acct_pure; [split|]|]. clear s H. intros s H.
  apply (fine_seq (acct [])); [by apply acct_pure; [split|]|]. clear s H. intros s H.
  apply (fine_seq (acct [])); [by apply acct_completed|]. clear s H. intros s H.
  apply (fine_seq (acct [])); [by apply acct_pure; [split|]|]. clear s H. intros s H.
  apply (fine_seq (acct [])); [by apply acct_send|]. intros s' H'. by apply acct_next.
Qed.

Lemma acct_steer prompt s :
  acct [transformed prompt] s -> keeps [] (on_steer new_message_id spec request stall_env (Some prompt) s).
Proof.
  intros H. unfold on_steer, with_state. revert H. generalize (transformed prompt). intros text H.
  destruct (in_turn s); [destruct (ac_steer_ext s)|destruct (wa_flush (ac_watch s)); [|destruct (_ || _)]].
  - apply fine_pure. eapply acct_move; [..|exact H]; try done. unfold held, call_text. cbn.
    destruct (st_call (ac_steers s)) as [[]|] eqn:E; cbn; rewrite ?E; solve_Permutation.
  - by apply fine_pure, acct_push.
  - by apply fine_pure, acct_push.
  - apply fine_pure. apply (acct_push [] text) in H. by eapply acct_unheld; [|exact H].
  - by eapply acct_steered_turn.
Qed.

Lemma acct_mailbox s : acct [] s -> keeps [] (on_steer new_message_id spec request stall_env None s).
Proof.
  intros H. unfold on_steer, with_state. apply (fine_seq (acct [])); [by apply acct_pure; [split|]|].
  intros s' H'. by destruct (_ && _).
Qed.

Lemma acct_interrupt s : acct [] s -> keeps [] (on_interrupt s).
Proof.
  intros H. unfold on_interrupt, with_state. apply (fine_seq (fun s => ac_interrupted s = true)); [done|].
  intros s' Hi. destruct (in_turn s); [|done]. apply fine_pure. intros Hi'. cbn in Hi'. unfold ac_interrupted in *. cbn in Hi'. congruence.
Qed.

Lemma acct_stalled s : keeps [] (on_stalled spec stall_env s).
Proof. done. Qed.

(** A step that sends nothing more ends the session. *)
Definition accounted (s : AcpSession) : Prop := ac_at s = AOver \/ acct [] s.

Lemma acp_finish_over s : ac_at (finish crash s) = AOver.
Proof. done. Qed.

Lemma accounted_loop f s : keeps [] (f s) -> accounted (in_loop crash f s).
Proof.
  unfold fine, in_loop. destruct (f s) as [s' []]; cbn [fst snd]; intros H; [by right|left; apply acp_finish_over].
Qed.

Lemma accounted_arm guard f s s' :
  (ac_at s = ALoop -> guard = true -> acct [] s -> keeps [] (f s)) ->
  arm crash guard f s = Some s' -> accounted s -> accounted s'.
Proof.
  intros Hf. unfold arm, at_loop. destruct (ac_at s) eqn:Ea; try done. destruct guard; [|done].
  intros [= <-] [H|H]; [congruence|]. apply accounted_loop. by apply Hf.
Qed.

Lemma accounted_unheld s s' : ac_at s' = ac_at s -> unheld s s' -> accounted s -> accounted s'.
Proof. intros Ea Hu [H|H]; [left; congruence|right; by eapply acct_unheld]. Qed.

(** *** The setup *)

Lemma acct_ask method params wait s :
  in_setup (ac_at s) = true -> (forall id, in_setup (wait id) = true) -> acct [] s -> acct [] (ask method params wait s).
Proof.
  intros Ha Hw. apply acct_unheld. split; [|done..]. unfold held, call_text. cbn.
  specialize (Hw (rc_next_id (rpc_request method params (ac_client s)))).
  revert Ha Hw. by destruct (ac_at s), (wait _).
Qed.

Lemma acct_next_set sets s :
  in_setup (ac_at s) = true -> acct [] s -> accounted (next_set new_message_id spec request stall_env sets s).
Proof.
  intros Ha H. destruct sets as [|[id payload] rest]; [|by right; apply acct_ask].
  unfold next_set, session_ready. set (f := seq _ _).
  assert (Hk : fine (fun s => acct [] s /\ in_setup (ac_at s) = true) (fun _ => True) (f s)).
  { apply (fine_seq (fun s => acct [] s /\ in_setup (ac_at s) = true)).
    - generalize (acct_send [] (SessionStarted (sp_id spec) (default "" (rq_model request)) [] (rq_cwd request)
        (ac_session s) (message_id new_message_id s)) s eq_refl H). unfold send. destruct (ac_gone s); [done|by split].
    - intros s' [H' Ha']. destruct (ac_commands s) as [|c cs]; [done|].
      generalize (acct_send [] (AvailableCommands (c :: cs)) s' eq_refl H'). unfold send_option, send. destruct (ac_gone s'); [done|by split]. }
  unfold fine in Hk. destruct (f s) as [s' []]; [|by left]. destruct Hk as [H' Ha']. right.
  eapply acct_unheld; [|exact H']. split; [|done..]. unfold held, call_text. cbn. revert Ha'.
  cbn [fst]. by destruct (ac_at s').
Qed.

Lemma acct_answered a out s s' :
  in_setup (ac_at s) = true -> acct [] s ->
  setup_answered new_message_id describe spec request stall_env a out s = Some s' -> accounted s'.
Proof.
  assert (Hc : forall session resp, in_setup (ac_at s) = true -> acct [] s ->
      accounted (configure new_message_id describe spec request stall_env session resp s)).
  { intros session resp Ha H. unfold configure. destruct (String.eqb session ""); [by left|].
    apply acct_next_set; [done|]. by eapply acct_unheld; [split|]. }
  intros Ha H. destruct a, out; cbn [setup_answered]; try done; intros [= <-];
    [by right; apply acct_ask|by apply Hc|by left|by apply Hc|by apply acct_next_set..].
Qed.

Lemma setup_message_unheld s i : unheld s (setup_message s i) /\ ac_at (setup_message s i) = ac_at s.
Proof. destruct i; try done. unfold setup_message, handle_server_request. by destruct (String.eqb _ _). Qed.

Lemma acct_setup_flush s : in_setup (ac_at s) = true -> acct [] s -> in_setup (ac_at (flush s)) = true /\ acct [] (flush s).
Proof.
  intros Ha H. unfold flush. assert (H0 : acct [] (take_all s)) by by eapply acct_unheld; [split|].
  change (in_setup (ac_at (take_all s)) = true) in Ha. revert Ha H0. generalize (take_all s).
  induction (waiting s) as [|i l IH]; intros s0 Ha H0; [done|].
  destruct (setup_message_unheld s0 i) as [Hu Hat]. apply IH; [by rewrite Hat|by eapply acct_unheld].
Qed.

Lemma accounted_incoming s s' :
  incoming_step new_message_id new_question_id crash describe spec request stall_env s = Some s' ->
  accounted s -> accounted s'.
Proof.
  unfold incoming_step. destruct (received s) as [i|]; [|done]. cbn [mbind option_bind]. intros E [H|H].
  { rewrite H in E. by destruct i. }
  assert (Hm : forall i, accounted (setup_message (set_taken (S (ac_taken s)) s) i)).
  { intros j. destruct (setup_message_unheld (set_taken (S (ac_taken s)) s) j) as [Hu Hat].
    eapply accounted_unheld; [exact Hat|exact Hu|]. right. by eapply acct_unheld; [split|]. }
  assert (Hs : forall a out, in_setup (ac_at s) = true ->
      setup_answered new_message_id describe spec request stall_env a out s = Some s' -> accounted s').
  { intros a out Ha. by apply acct_answered. }
  destruct (ac_at s) eqn:Ea, i as [i|]; try done; try (injection E as <-; by apply Hm); try (by eapply Hs; [|exact E]).
  - injection E as <-. apply accounted_loop, (acct_incoming (Some i)); [done|]. by eapply acct_unheld; [split|].
  - injection E as <-. by apply accounted_loop, (acct_incoming None).
Qed.

Lemma held_settle s res text id :
  ac_at s = ASettle res text id -> acct [] s -> acct [text] (set_at ALoop s).
Proof.
  intros Ea. apply acct_move; [|done..]. unfold held, call_text. cbn. rewrite Ea. cbn. solve_Permutation.
Qed.

Lemma accounted_answer s s' :
  answer_step new_message_id new_question_id crash describe spec request stall_env s = Some s' ->
  accounted s -> accounted s'.
Proof.
  unfold answer_step. intros E [H|H]; [by rewrite H in E|].
  destruct (ac_at s) as [id|id|id|id rest| |res text id|id|] eqn:Ea; [| | | |done| | |done];
    destruct (rpc_answer id (ac_client s)) as [out|]; try done; cbn [mbind option_bind setup_method] in E.
  - injection E as <-. unfold initialized. destruct out as [m|init]; [by left|]. right.
    assert (Hh : acct [] (set_handshake (steering_supported init) (scan_available_commands init) s)).
    { by eapply acct_unheld; [split|]. }
    by destruct (rq_resume request); apply acct_ask; cbn; rewrite ?Ea.
  - destruct (acct_setup_flush s) as [Hf H']; [by rewrite Ea|done|]. by eapply acct_answered.
  - destruct (acct_setup_flush s) as [Hf H']; [by rewrite Ea|done|]. by eapply acct_answered.
  - destruct (acct_setup_flush s) as [Hf H']; [by rewrite Ea|done|]. by eapply acct_answered.
  - injection E as <-. eapply accounted_loop, acct_settled_closed, held_settle, H. exact Ea.
  - injection E as <-. apply accounted_loop. by destruct out.
Qed.

Lemma accounted_timeout s s' :
  timeout_step new_message_id new_question_id crash describe spec stall_env handshake_secs s = Some s' ->
  accounted s -> accounted s'.
Proof.
  unfold timeout_step. intros E [H|H]; [by rewrite H in E|].
  destruct (ac_at s) as [id|id|id|id rest| |res text id|id|] eqn:Ea; try done; injection E as <-; try by left.
  eapply accounted_loop, acct_settled_closed, held_settle, H. exact Ea.
Qed.

(** Every step but the two that change what has been taken. *)
Lemma accounted_step k s s' :
  match k with KSteer (Some _) | KCall => False | _ => True end -> step k s = Some s' -> accounted s -> accounted s'.
Proof.
  destruct k as [line| | |now| | | | | | | | | | |prompt| | | | | |a answers]; cbn [acp_step]; intros Hk E H; try done.
  1-3: unfold client_step in E; destruct (rpc_step _ _); [injection E as <-|done]; by eapply accounted_unheld; [..|exact H].
  - destruct (_ <=? _); [injection E as <-|done]. by eapply accounted_unheld; [..|exact H].
  - eapply accounted_arm; [|exact E|exact H]. intros _ _ H'. by apply acct_pure; [apply unheld_poll_turn|].
  - eapply accounted_arm; [|exact E|exact H]. intros _ _ H'. by apply acct_pure; [apply unheld_poll_call|].
  - by eapply accounted_answer.
  - by eapply accounted_timeout.
  - by eapply accounted_incoming.
  - destruct (turn_answer s) as [res|] eqn:Et; [|done]. cbn in E. eapply accounted_arm; [|exact E|exact H].
    intros Ha _ H'. by apply acct_ended.
  - eapply accounted_arm; [|exact E|exact H]. intros _ _ H'. by apply acct_flush.
  - eapply accounted_arm; [|exact E|exact H]. intros _ _ H'. by apply acct_pure; [split|].
  - eapply accounted_arm; [|exact E|exact H]. intros _ _ H'. by apply acct_starved.
  - destruct prompt; [done|]. eapply accounted_arm; [|exact E|exact H]. intros _ _ H'. by apply acct_mailbox.
  - destruct (ct_cancelled (ac_control s)); [|done]. destruct (in_setup (ac_at s)); [injection E as <-; by left|].
    eapply accounted_arm; [|exact E|exact H]. intros _ _ H'. by apply acct_interrupt.
  - eapply accounted_arm; [|exact E|exact H]. intros _ _ H'. apply acct_stalled.
  - by eapply accounted_arm; [|exact E|exact H].
  - injection E as <-. by eapply accounted_unheld; [..|exact H].
  - injection E as <-. by eapply accounted_unheld; [..|exact H].
  - unfold bridge_answered in E. destruct (as_open _ !! _); [|done]. injection E as <-.
    by eapply accounted_unheld; [..|exact H].
Qed.
End Account.

(** *** The mailbox and the steering call *)

Lemma acct_took taken silent text s : acct taken silent [] s -> acct (taken ++ [text]) silent [text] s.
Proof.
  intros H Hi. destruct (H Hi) as (h & Hp & Hl). exists h. split; [|done]. rewrite Hp. solve_Permutation.
Qed.

Lemma acct_late taken silent text s : acct taken silent [text] s -> acct taken (S silent) [] s.
Proof.
  intros H Hi. destruct (H Hi) as (h & Hp & Hl). exists (text :: h). split; [rewrite Hp; solve_Permutation|].
  cbn. lia.
Qed.

Lemma call_kept_drain s :
  st_call (ac_steers s) = None ->
  fine (fun s => st_call (ac_steers s) = None) (fun _ => True) (drain new_question_id s).
Proof.
  set (I s := st_call (ac_steers s) = None). intros H.
  assert (Hsend : forall e s, I s -> fine I (fun _ => True) (send e s)).
  { intros e s0 H0. unfold send. by destruct (ac_gone s0). }
  unfold drain, with_state. apply (fine_seq I); [done|]. intros s' H'.
  apply fine_each; [|done]. intros i s0 _ H0. destruct i as [method params|id method params|]; cbn [drain_one].
  - apply fine_each; [|done]. intros e s1 _ H1. by apply Hsend.
  - apply fine_pure. unfold I, handle_server_request_live, handle_server_request in *.
    destruct (_ && _); [done|]. by destruct (String.eqb _ _).
  - done.
Qed.

Lemma fine_both {S} (I I' : S -> Prop) r :
  fine I (fun _ => True) r -> fine I' (fun _ => True) r -> fine (fun s => I s /\ I' s) (fun _ => True) r.
Proof. unfold fine. by destruct r as [s []]. Qed.

Lemma call_kept_steered s :
  st_call (ac_steers s) = None ->
  fine (fun s => st_call (ac_steers s) = None) (fun _ => True) (send_steered new_message_id s).
Proof. intros H. unfold send_steered, seq, pure, with_state, send. by destruct (ac_gone _). Qed.

Lemma call_kept_turn text s :
  st_call (ac_steers s) = None ->
  fine (fun s => st_call (ac_steers s) = None) (fun _ => True) (steered_turn new_message_id spec stall_env text s).
Proof.
  intros H. unfold steered_turn. apply (fine_seq (fun s => st_call (ac_steers s) = None)); [by apply call_kept_steered|].
  done.
Qed.

Lemma acct_called taken silent text id out s :
  st_call (ac_steers s) = Some (text, id) -> acct taken silent [] s ->
  fine (acct taken (silent + if negb (in_turn s) && negb (prompt_required (Some out)) then 1 else 0)%nat [])
    (fun _ => True) (call_answered new_message_id new_question_id spec stall_env text out s).
Proof.
  intros Ec H. unfold call_answered. set (late := if negb (in_turn s) && _ then 1%nat else 0%nat).
  set (s1 := on_steers (set_call None) s).
  assert (H1 : acct taken silent [text] s1).
  { eapply acct_move; [..|exact H]; try done. unfold held, call_text. cbn. rewrite Ec. cbn. solve_Permutation. }
  change (fine (acct taken (silent + late) []) (fun _ => True)
    (((with_state (fun s => if ac_interrupted s then skip
        else if negb (prompt_required (Some out)) then
          if in_turn s then (pure (on_watch (set_starve None)) >> drain new_question_id >> send_steered new_message_id)%stmt else skip
        else if in_turn s then
          (pure (fun s => if no_running_turn out then on_watch (set_starve (Some (ac_now s + STARVE_GRACE))) s else s)
           >> pure (queue_push text))%stmt
        else steered_turn new_message_id spec stall_env text)) >> pure follow)%stmt s1)).
  apply (fine_seq (fun s => acct taken (silent + late) [] s /\ st_call (ac_steers s) = None));
    [|intros s' [H' Hc]; apply acct_pure; [by apply unheld_follow|done]].
  unfold with_state. change (in_turn s1) with (in_turn s). unfold late. clear late.
  destruct (ac_interrupted s1) eqn:Ei; [split; [|done]; intros Hi; cbn in Hi; congruence|].
  destruct (prompt_required (Some out)), (in_turn s); cbn [negb andb]; rewrite ?Nat.add_0_r.
  - split; [|by destruct (no_running_turn out)]. cbn [fst]. apply acct_push.
    eapply acct_unheld; [|exact H1]. by destruct (no_running_turn out).
  - apply fine_both; [by eapply acct_steered_turn|by apply call_kept_turn].
  - apply fine_both.
    + apply (fine_seq (acct taken silent [text])); [by apply acct_pure; [split|]|]. intros s2 H2.
      apply (fine_seq (acct taken silent [text])); [by apply acct_drain|]. intros s3 H3. by eapply acct_steered.
    + apply (fine_seq (fun s => st_call (ac_steers s) = None)); [done|]. intros s2 H2.
      apply (fine_seq (fun s => st_call (ac_steers s) = None)); [by apply call_kept_drain|]. intros s3 H3.
      by apply call_kept_steered.
  - split; [|done]. rewrite Nat.add_1_r. by eapply acct_late.
Qed.

Lemma accounted_observed taken silent k s s' :
  step k s = Some s' -> accounted taken silent s ->
  accounted (taken ++ (observed_step k s).1) (silent + (observed_step k s).2)%nat s'.
Proof.
  intros E H. unfold observed_step. rewrite E. cbn [fst snd].
  destruct (match k with KSteer (Some _) | KCall => true | _ => false end) eqn:Ek.
  - destruct k as [| | | | | | | | | | | | | |[prompt|]| | | | | |]; try done; cbn [acp_step accepted_late] in *.
    + destruct (st_call (ac_steers s)) as [[text id]|] eqn:Ec; [|done]. cbn [mbind option_bind] in E.
      destruct id as [id|]; [|done]. cbn [mbind option_bind] in E.
      destruct (rpc_answer id (ac_client s)) as [out|]; [|done]. rewrite app_nil_r.
      unfold arm, at_loop in E. destruct (ac_at s) eqn:Ea; try done. injection E as <-. destruct H as [H|H]; [congruence|].
      apply accounted_loop. by eapply acct_called.
    + rewrite Nat.add_0_r. unfold arm, at_loop in E. destruct (ac_at s) eqn:Ea; try done.
      destruct (_ && _); [|done]. injection E as <-. destruct H as [H|H]; [congruence|].
      apply accounted_loop, acct_steer. by apply acct_took.
  - assert (accepted_late k s = false) as -> by by destruct k. rewrite Nat.add_0_r.
    replace (match k with KSteer (Some prompt) => [transformed prompt] | _ => [] end) with (@nil string)
      by by destruct k as [| | | | | | | | | | | | | |[]| | | | | |].
    rewrite app_nil_r. eapply accounted_step; [|exact E|exact H].
    by destruct k as [| | | | | | | | | | | | | |[]| | | | | |].
Qed.


(** ** Silence *)

(** A prompt is in flight, nobody interrupted, somebody listens. *)
Record waiting_turn (s : AcpSession) : Prop := {
  wt_at : ac_at s = ALoop;
  wt_gone : ac_gone s = false;
  wt_turn : in_turn s = true;
  wt_interrupted : ac_interrupted s = false;
}.

(** The turn has said something and nothing it started is still open. *)
Record said_its_piece (s : AcpSession) : Prop := {
  sp_content : wa_content (ac_watch s) = true;
  sp_tools : wa_open_tools (ac_watch s) = ∅;
  sp_asks : as_open (ac_asks s) = ∅;
  sp_starve : wa_starve (ac_watch s) = None;
}.

(** What a settled turn ends with: the boundary, the [Done], and the steer that
    was queued. *)
Definition settled_events (s : AcpSession) : list AgentEvent :=
  [AssistantMessageCompleted (new_message_id (ac_message s)); Done Completed None None (Some (ac_session s))] ++
  match st_queue (ac_steers s) with
  | [] => []
  | _ => [Steered (Some (new_message_id (S (ac_message s)))) (Some (new_message_id (S (S (ac_message s)))))]
  end.

Definition next_turn (s : AcpSession) : option PromptTurn :=
  (fun text => TUnsent text (prompt_id_of spec (S (pr_seq (ac_prompt s))))) <$> head (st_queue (ac_steers s)).

Lemma ticked now s : wa_now (ac_watch s) <= now -> step (KTick now) s = Some (on_watch (set_now now) s).
Proof. intros H. cbn. by rewrite (proj2 (Z.leb_le _ _) H). Qed.

Lemma quiet_elapsed q now s :
  waiting_turn s -> said_its_piece s -> quiet_settle quiet_env = Some q -> wa_last_update (ac_watch s) + q <= now ->
  quiet quiet_env (on_watch (set_now now) s) = true.
Proof.
  intros [_ _ Ht Hi] [H1 H2 H3 H4] Hq Hn. unfold quiet. cbn. rewrite Hq, H4.
  change (in_turn (on_watch (set_now now) s)) with (in_turn s).
  change (ac_interrupted (on_watch (set_now now) s)) with (ac_interrupted s).
  rewrite Ht, Hi, H1, H2, H3, !bool_decide_true by done. cbn. by apply Z.leb_le.
Qed.

(** The dead turn, closed. *)
Definition settled (s : AcpSession) : AcpSession :=
  let s1 := rotate (on_prompt (set_turn None) (on_watch (set_starve None) s)) in
  emit (Done Completed None None (Some (ac_session s)))
    (on_prompt (set_done_current true) (emit (AssistantMessageCompleted (new_message_id (ac_message s))) s1)).

Lemma starved_open s :
  ac_gone s = false -> on_starved new_message_id spec stall_env s = next_steer new_message_id spec stall_env (settled s).
Proof.
  intros Hg. unfold on_starved, send_completed, seq, pure, with_state, send. cbn [ac_gone rotate on_prompt on_watch set_prompt set_watch].
  rewrite Hg. cbn [ac_gone rotate on_prompt on_watch set_prompt set_watch set_stream]. reflexivity.
Qed.

Lemma next_settled s :
  ac_interrupted s = false ->
  let s' := in_loop crash (next_steer new_message_id spec stall_env) (settled s) in
  ac_emitted s' = ac_emitted s ++ settled_events s /\ ac_turn s' = next_turn s.
Proof.
  intros Hi. cbn zeta. unfold in_loop, next_steer, with_state, settled_events, next_turn.
  change (st_queue (ac_steers (settled s))) with (st_queue (ac_steers s)).
  destruct (st_queue (ac_steers s)) as [|text rest].
  - change (ct_steering_open (ac_control (settled s))) with (ct_steering_open (ac_control s)).
    destruct (ct_steering_open (ac_control s)); unfold skip, pure, break, finish; cbn.
    + by rewrite <- app_assoc.
    + unfold ac_interrupted in Hi. rewrite Hi. cbn. by rewrite <- app_assoc.
  - unfold steered_turn, send_steered, seq, pure, with_state, send. cbn. by rewrite <- !app_assoc.
Qed.

(** The settle of a starved turn. *)
Lemma starved_settles s :
  waiting_turn s -> wa_starve (ac_watch s) = Some (ac_now s) ->
  exists s', step KStarved s = Some s' /\ ac_emitted s' = ac_emitted s ++ settled_events s /\ ac_turn s' = next_turn s.
Proof.
  intros [Ha Hg Ht Hi] Hs. cbn [acp_step]. unfold arm, at_loop, elapsed. rewrite Ha, Hs, Z.leb_refl, Ht, Hi. cbn [andb negb].
  eexists. split; [reflexivity|]. unfold in_loop. rewrite starved_open by done. by apply next_settled.
Qed.

Lemma run_cons k ks s s' : step k s = Some s' -> run (k :: ks) s = run ks s'.
Proof. intros E. cbn. by rewrite E. Qed.

(** A turn does not wait for ever on an agent that went silent. One that
    has streamed something, with no tool call and no question open, is settled
    once the stream was quiet for the window: the message is closed, the
    consumer gets a completed [Done] although the prompt was never answered,
    and a queued steer becomes the next turn behind its boundary. One that
    never heard anything back ends the run at the stall bound, with an error
    that says so and an errored [Done]. *)
Theorem silence_ends s :
  waiting_turn s ->
  (forall q, quiet_settle quiet_env = Some q -> said_its_piece s ->
     let s' := run [KTick (wa_now (ac_watch s) `max` (wa_last_update (ac_watch s) + q)); KQuiet; KStarved] s in
     ac_emitted s' = ac_emitted s ++ settled_events s /\ ac_turn s' = next_turn s) /\
  (forall d, wa_stall (ac_watch s) = Some d ->
     let s' := run [KTick (wa_now (ac_watch s) `max` d); KStalled] s in
     ac_at s' = AOver /\
     ac_emitted s' = ac_emitted s ++
       [ErrorEv (stall_message spec stall_env);
        Done Errored None (Some (sp_display_name spec +:+ " is unresponsive " +:+ em_dash +:+ " the run was closed."))
          (Some (ac_session s))]).
Proof.
  intros Hw. split.
  - intros q Hq Hp. cbn zeta. set (now := _ `max` _).
    rewrite (run_cons _ _ _ (on_watch (set_now now) s)) by (apply ticked; lia).
    assert (Hw' : waiting_turn (on_watch (set_now now) s)) by by destruct Hw.
    assert (Hk : quiet quiet_env (on_watch (set_now now) s) = true) by (eapply quiet_elapsed; try done; lia).
    rewrite (run_cons _ _ _ (on_watch (set_starve (Some now)) (on_watch (set_now now) s)));
      [|cbn [acp_step]; unfold arm, at_loop; by rewrite (wt_at _ Hw'), Hk].
    destruct (starved_settles (on_watch (set_starve (Some now)) (on_watch (set_now now) s))) as (s' & E & H1 & H2);
      [by destruct Hw|done|]. by rewrite (run_cons _ _ _ _ E).
  - intros d Hd. cbn zeta. set (now := _ `max` _).
    rewrite (run_cons _ _ _ (on_watch (set_now now) s)) by (apply ticked; lia).
    assert (He : elapsed (wa_stall (ac_watch s)) (on_watch (set_now now) s) = true).
    { rewrite Hd. cbn. apply Z.leb_le. lia. }
    destruct Hw as [Ha Hg Ht Hi].
    set (s1 := on_watch (set_now now) s) in *.
    rewrite (run_cons KStalled [] s1 (in_loop crash (on_stalled spec stall_env) s1)).
    2:{ cbn [acp_step]. unfold arm, at_loop. change (ac_at s1) with (ac_at s).
        change (wa_stall (ac_watch s1)) with (wa_stall (ac_watch s)). change (in_turn s1) with (in_turn s).
        change (ac_interrupted s1) with (ac_interrupted s). by rewrite Ha, He, Ht, Hi. }
    unfold s1. cbn [acp_run foldl].
    unfold in_loop, on_stalled, seq, pure, attempt, with_state, break, finish. cbn.
    unfold send. cbn. rewrite Hg. cbn. unfold ac_interrupted in Hi. rewrite Hi. cbn. by rewrite <- app_assoc.
Qed.
End Safety.

(** ** Samples *)

(** A turn that spoke and went silent, a steer queued behind it; one that never
    spoke. *)
Definition spoken : AcpSession := acp_sample (acp_setup Null ++ [chunk_line "hi"; KIncoming; KSteer (Some "next")]).
Definition unspoken : AcpSession := acp_sample (acp_setup Null).

Lemma spoken_waits : waiting_turn spoken /\ waiting_turn unspoken /\ said_its_piece spoken.
Proof. split_and!; split; vm_compute; reflexivity. Qed.

Lemma silence_ends_witness :
  let run := @acp_run sample_json sample_id sample_question "crash" id sample_spec acp_request None None 30 in
  drop 2 (ac_emitted (run [KTick 30000; KQuiet; KStarved] spoken)) =
    [AssistantMessageCompleted "m0"; Done Completed None None (Some "s"); Steered (Some "m1") (Some "m2")] /\
  ac_turn (run [KTick 30000; KQuiet; KStarved] spoken) = Some (TUnsent "next" (Some "postillion-p2")) /\
  ac_at (run [KTick 60000; KStalled] unspoken) = AOver.
Proof.
  destruct spoken_waits as (Hw & Hu & Hs).
  destruct (@silence_ends sample_json sample_id sample_question "crash" id sample_spec acp_request None None 30 spoken Hw)
    as [Hq _].
  destruct (@silence_ends sample_json sample_id sample_question "crash" id sample_spec acp_request None None 30 unspoken Hu)
    as [_ Hd].
  destruct (Hq 30000 eq_refl Hs) as [He Ht]. destruct (Hd 60000) as [Ho _]; [vm_compute; reflexivity|].
  assert (E1 : wa_now (ac_watch spoken) `max` (wa_last_update (ac_watch spoken) + 30000) = 30000) by (vm_compute; reflexivity).
  assert (E2 : wa_now (ac_watch unspoken) `max` 60000 = 60000) by (vm_compute; reflexivity).
  rewrite E1 in He, Ht. rewrite E2 in Ho. split_and!; [|rewrite Ht; vm_compute; reflexivity|exact Ho].
  rewrite He. vm_compute. reflexivity.
Defined.
