(* ===== verification/AcpLimits.v ===== *)
(** Where the promises of the ACP session end: a tool result that is not
    noticed, steers that are dropped, turns settled by another's end. *)
From S2P Require Import Prelude Json Text Agent Samples Claude JsonRpc CodexItems Loop AcpItems Acp AcpStream AcpSafety.

(** What the session wrote, by method. *)
Definition written_methods (s : AcpSession) : list string :=
  omap (fun v => obj_get v "method" ≫= as_str) (rc_written (ac_client s)).

Definition tool_line (kind status : string) : AcpStep :=
  update_line kind [("kind", Str "execute"); ("status", Str status); ("title", Str "ls"); ("toolCallId", Str "x")].

Definition complete_line (fields : list (string * Value)) : AcpStep :=
  notice_line "_x.ai/session/prompt_complete" (Object (fields ++ [("sessionId", Str "s"); ("stopReason", Str "end_turn")])).

(** The result of a tool that is read at the turn's end does not close the tool:
    however long the session has been idle, the next steer is taken for one into
    a busy agent and cancels instead of prompting. *)
Definition tool_left_open : AcpSession :=
  acp_sample (acp_setup Null ++
    [tool_line "tool_call" "in_progress"; KIncoming; tool_line "tool_call_update" "completed"; answer_line 3 end_turn; KTurn;
     KTick 600000; KSteer (Some "next")]).

Example tool_result_unnoticed :
  last (ac_emitted tool_left_open) = Some (Done Completed None None (Some "s")) /\
  existsb (fun e => match e with ToolResult "x" _ _ _ => true | _ => false end) (ac_emitted tool_left_open) = true /\
  written_methods tool_left_open = ["initialize"; "session/new"; "session/prompt"; "session/cancel"] /\
  held tool_left_open = ["next"].
Proof. split_and!; vm_compute; reflexivity. Qed.

(** A starved turn does not wait for its steering call: with the mailbox closed
    the session returns as completed, the steer in it. *)
Definition starved_call : AcpSession :=
  acp_sample (acp_setup steering_init ++
    [chunk_line "hi"; KIncoming; KSteer (Some "a"); KPollCall; KSteer None; KTick 30000; KQuiet; KStarved]).

Example starved_call_dropped :
  ac_at starved_call = AOver /\ held starved_call = ["a"] /\ existsb is_steered (ac_emitted starved_call) = false /\
  last (ac_emitted starved_call) = Some (Done Completed None None (Some "s")).
Proof. split_and!; vm_compute; reflexivity. Qed.

(** With the mailbox open, the call it left behind may be accepted when no turn
    is there: the agent works on a steer that no boundary announces. *)
Definition accepted_late_run : list AcpStep :=
  acp_setup steering_init ++
    [chunk_line "hi"; KIncoming; KSteer (Some "a"); KPollCall; KTick 30000; KQuiet; KStarved;
     answer_line 4 (Object [("outcome", Str "injected")]); KCall; chunk_line "more"; KIncoming].

Example accepted_unannounced :
  let s := acp_sample accepted_late_run in
  ac_emitted s =
    [SessionStarted Grok "" [] "/w" "s" "m0"; TextDelta "hi"; AssistantMessageCompleted "m0";
     Done Completed None None (Some "s"); TextDelta "more"] /\
  held s = [] /\
  @observed sample_json sample_id sample_question "crash" id sample_spec acp_request None None 30 accepted_late_run
    (session_new "1") = (["a"], 1%nat).
Proof. split_and!; vm_compute; reflexivity. Qed.

(** An interrupt before the prompt's first poll cancels a prompt that is only
    written behind it. *)
Example cancel_before_prompt :
  written_methods (acp_sample (take 4 (acp_setup Null) ++ [KCancel; KInterrupt; KPollTurn])) =
    ["initialize"; "session/new"; "session/cancel"; "session/prompt"].
Proof. vm_compute. reflexivity. Qed.

(** A prompt the agent refuses ends the run with the steers queued behind it. *)
Example refused_prompt_drops_steers :
  let s := acp_sample (acp_setup Null ++ [KSteer (Some "a"); refusal_line 3 "no"; KTurn]) in
  ac_at s = AOver /\ held s = ["a"] /\ existsb is_steered (ac_emitted s) = false.
Proof. split_and!; vm_compute; reflexivity. Qed.

(** A completion that names no prompt settles whichever is in flight: one that
    comes behind its own turn ends the next. *)
Definition second_turn : list AcpStep :=
  acp_setup Null ++ [answer_line 3 end_turn; KTurn; KTick 3000; KSteer (Some "next"); KPollTurn].

Example unnamed_completion_settles :
  let s := acp_sample (second_turn ++ [complete_line []; KIncoming; KTurn]) in
  last (ac_emitted s) = Some (Done Completed None None (Some "s")) /\ ac_turn s = None.
Proof. split_and!; vm_compute; reflexivity. Qed.

(** One that names the earlier prompt does not. *)
Example named_completion_is_stale :
  let s := acp_sample (second_turn ++ [complete_line [("promptId", Str "postillion-p1")]; KIncoming; KTurn]) in
  ac_turn s = Some (TSent 4) /\ last (ac_emitted s) = Some (Steered (Some "m1") (Some "m2")).
Proof. split_and!; vm_compute; reflexivity. Qed.
